(* ===== verification/_CoqProject ===== *)
-Q . S2P
Prelude.v
Mem.v
Ebpf.v
Nvme.v
Prog.v
NpsumIsp.v
NpsumHost.v
NpsumProofs.v
NpsumErrors.v
NpsumAxis.v
EmbedLib.v
EmbedProofs.v
EmbedSession.v
PatternMatch.v
PatternProofs.v
Tools.v
Rband.v
ToolsProofs.v
GenProofs.v
Procs.v
Forking.v
ForkProofs.v
FioSync.v
FioProofs.v
Bits.v
Gf2.v
Axmap.v
AxmapProofs.v
AxmapFind.v
AxmapSpec.v
Lfsr.v
LfsrMax.v
LfsrProofs.v
Rand.v
RandMap.v
RandMapProofs.v
IoOffset.v
IoOffsetProofs.v
Fifo.v
FlistSort.v
Crc.v
CrcProofs.v
Stream.v
Digest.v
DigestSpec.v
Hash.v
HashProofs.v
Pattern.v
Verify.v
VerifyProofs.v
VerifySpec.v
VerifyDetect.v
Smalloc.v
SmallocBits.v
SmallocProofs.v
SmallocSpec.v
Flow.v
LatHist.v
RbTree.v
RbRep.v
RbInsert.v
RbErase.v
RbSpec.v
IoHist.v
IoHistProofs.v
IoHistSpec.v
Clock.v
PatternParse.v
PatternGrammar.v
PatternText.v
Zbd.v
ZbdProofs.v
ZbdWrite.v
ZbdSpec.v
ZbdInit.v
ZbdReport.v
ZbdShare.v
OptValue.v
OptHandle.v
Num2Str.v
