(* ===== verification/Prelude.v ===== *)
(** * eBPF-ISP.host: the host side of an in-storage-processing framework

    The repository holds the host programs of an SSD that runs eBPF programs
    next to its flash ("ISP", in-storage processing), the eBPF programs
    themselves, and a fio with an engine for ISP requests.  A host program
    opens /dev/nvme0n1 and talks to the SSD with two ioctls: vendor commands
    (0x82 run the loaded program on some blocks, 0x84 read the map page, 0x85
    clear it, 0x86/0x87 statistics) and plain block reads and writes.  The
    program that 0x82 runs sees five parameters, the blocks and one 4096-byte
    map page, in which sums accumulate between requests.

    ** Parts and files

    - [Prelude]: machine integers ([u32], [i32], ...), bounded loops in any
      monad ([for_], [for_exit]) with their invariant rules, finite sums.
    - [Mem]: byte buffers read and written through [int *] ([ld32], [st32]),
      the array a buffer stands for ([ints]), and the two loops that occur all
      over the code, [acc_row] ([dst[p+k] += src[b+k]]) and [sum_loop].
    - [Ebpf]: src/eBPF_program, one Module per program ([Embedding], [Npsum],
      [Strfilter], [Wc]), a program being a function from its context to its
      result and the new map page, [None] for an access outside its memory.
    - [Nvme]: the commands ([passthru_cmd], [user_io]) and the device.  Driver
      and firmware are not in the repository: the class [Device] has one
      operation per system call on the device, and the class [IspSpec] states
      what README.md and the comments next to the opcodes document (a
      successful 0x82 runs the program on the addressed blocks and the map
      page, and so on); of a command that fails it says nothing but that the
      host buffer keeps its length.  [Reliable] devices do not fail on valid
      requests.
      [refdev] is an executable instance, used by the witnesses.
    - [Prog]: host programs as trees of system calls ([prog ioE]), the world
      they run in (device, oracle for the clock, [rand] and fresh memory,
      files, terminal), the interpreter [run] and a weakest precondition [wp]
      with rules for loops.  An out-of-bounds access is [None].
    - [NpsumIsp], [NpsumHost]: src/npsum, matrix sums in storage and on the
      host, the generator and the reference answer.
    - [EmbedLib]: src/MyDriver-fixed.32, the library that stores embedding
      tables on the SSD, reads embeddings back and requests sparse length sums;
      its globals are the record [embed_state].
    - [PatternMatch]: src/pattern_match, counting "Lorem" in 32 MB.
    - [Tools]: src/ioctl and src/tpage, the single-command tools.
    - [Rband]: src/rband, the bandwidth benchmarks.
    - [Procs]: fork, wait and exit: [step] interleaves processes call by call.
      [Forking]: the five programs that fork, from four of the directories
      above.
    - [FioSync]: src/fio/engines/sync.c, all engines of the file including the
      repository's own "ispsync".  The system calls are the class [Kernel].

    The parts of fio an ISP job runs through, each file modelled by the Rocq
    file named first and proved about in those after it:

    - [Axmap] ([AxmapProofs], [AxmapFind], [AxmapSpec]): lib/axmap.c, the map of
      the blocks a random job has used; [Bits] holds lib/ffz.h, lib/pow2.h and
      the lemmas on words.  [AxmapSpec.BlockMap] is the interface the job relies on.
    - [Lfsr] ([Gf2], [LfsrMax], [LfsrProofs]): lib/lfsr.c, the shift register
      that replaces the map.  [Rand]: lib/rand.c.
    - [RandMap], [IoOffset] ([RandMapProofs], [IoOffsetProofs]): the choice of
      the next block, offset and length in io_u.c and filesetup.c, on top of
      the map, the register and the generator.
    - [Fifo], [FlistSort]: fifo.c and lib/flist_sort.c.
    - [Crc] ([CrcProofs]), [Stream] and [Digest] ([DigestSpec]), [Hash]
      ([HashProofs]): the checksums, digests and hash functions of crc/, hash.h
      and lib/bloom.c.
    - [Pattern]: the buffers of lib/pattern.c and lib/rand.c.  [PatternParse]
      ([PatternGrammar], [PatternText]): the text of a pattern option,
      lib/pattern.c, lib/strntol.c and the callbacks of options.c.
    - [Verify] ([VerifyProofs], [VerifySpec], [VerifyDetect]): verify.c, which
      stamps the blocks of a write with a header and one of the checksums above
      and checks them when they are read.
    - [RbTree] ([RbRep], [RbInsert], [RbErase], [RbSpec]): lib/rbtree.c on a
      store of nodes.  [IoHist] ([IoHistProofs], [IoHistSpec]): the history of
      the writes still to verify or trim in iolog.c, trim.c, verify.c and
      io_u.c, whose tree is that of [RbTree].
    - [Smalloc] ([SmallocBits], [SmallocProofs], [SmallocSpec]): smalloc.c, the
      allocator of the memory the jobs share.
    - [LatHist]: the latency histograms,
      percentiles and coarse maps of stat.c and io_u.c.
    - [Flow]: flow.c, the shares of jobs that take turns; jobs interleave access by
      access.
    - [OptValue], [OptHandle]: parse.c, the numbers and units of option values,
      the splitting of a value and its storing in the variables of a job, and
      the edit distance of names.  [Num2Str]: lib/num2str.c, quantities with
      units as the reports print them.
    - [Clock]: the CPU clock and differences of times, gettime.c and time.c.
    - [Zbd], [ZbdInit], [ZbdShare] ([ZbdProofs], [ZbdWrite], [ZbdSpec],
      [ZbdReport]): zbd.c, zoned devices.  [Zbd] has the operations of a
      running job as programs of a state monad on the description of the
      device, in which [None] is a failed assertion; [ZbdInit] makes the
      description, from the report of the device or for a plain file, and
      [ZbdShare] counts the files that share it.
      [ZbdProofs] has the rules of the monad ([post]) and the invariant.

    The drivers that differ only in constants and in whether they print share
    one body, as sections with those constants as variables; each [main] of
    the source has a definition of its own that instantiates it.

    ** What the theorems show

    - In-storage programs ([Ebpf]): their exact results on every context,
      including the contexts on which they read outside their data.
    - Matrix sums ([NpsumProofs], [NpsumAxis]): for every device that satisfies
      the contract, the offloading and the host driver print the same results,
      which are the sums of the matrices on the SSD; what the host drivers that
      never clear their result compute.  [NpsumErrors]: which commands the
      driver still sends after one that fails, and how the sums of a matrix
      whose page read failed end up in the results of a later one.
    - Embedding tables ([EmbedProofs], [EmbedSession]): a refinement to the
      abstract table [embed_row]: for every row in range what storing makes of
      it, what reading it back and summing over it yield, the independence of
      tables, and the ways in which the library does not deliver the table
      (the rows behind the last full page are never stored, reading the last
      row of a page overflows the heap, a sum returns another buffer, results
      share one page).
    - Pattern matching ([PatternProofs], [Rband]): which
      occurrences each way of scanning counts, exactly.
    - Generators and tools ([GenProofs], [ToolsProofs]): what reaches the SSD,
      the files and the terminal; parsing and packing of parameters.
    - Forking programs ([ForkProofs]): for every schedule, which requests are
      issued, that the programs end or never do, and what they print.
      [Procs.plan_settles] turns a plan of a process tree, a bound on its steps
      and a list of its requests, into these facts.
    - fio engines ([FioProofs]): completion of a unit on every
      outcome of its call, the batch invariant of the vsync engine, a whole
      cycle of queueing, committing and reaping, and what a commit does not
      tell the units.
    - Data structures: the axmap is a set, the queue of bytes a bounded list,
      the list sort the stable sort, the red-black tree a sequence in balanced
      form, the allocator a finite map of disjoint objects; each as a refinement
      over any sequence of operations.
    - Jobs: with the map or the register a random job visits every block once;
      the units of a sequential job follow one another and with one block size
      are exactly the blocks of the file; a unit that is accepted lies in the
      file.
    - Checksums: table-driven codes are divisions by their polynomials, digests
      fed in pieces are those of the whole message (and what SHA-256 and SHA-512
      compute instead), the Bloom filter has no false negatives.
    - Verification: what is stamped is accepted (short SHA-512 blocks excepted),
      a changed byte is reported (if the job stops at errors or has one block per
      unit), the history keeps the pieces ordered and disjoint as long as none of
      three events corrupts it ([IoHistSpec.step]), and the next piece to verify
      is the first one, once its write has completed.
    - Patterns: a text written by the rules fills buffers with its bytes; on any
      other text the parser stays inside its buffer, and the texts on which it
      aborts.
    - Zoned devices: from setting up to the end of any sequence of units,
      completions and waits no assertion fails; accepted writes start at the
      pointer of an open zone; pointers, open zones, counters and locks agree at
      every point; the report of a device is read completely; its description
      is freed with the last file that uses it.
    - Flow control: the shared counters are the sums over the members at every
      point of every interleaving, jobs wait exactly when they are ahead of their
      share, and never all of them at once.
    - Options: a number is worth what its unit says; a list of numbers, the last
      without a minus, sets the variables of reads, writes and trims as the
      manual says; the distance of
      names is the least number of edits; the texts that are misread.  A printed
      quantity is the quantity, rounded to the places printed.
    - Statistics and time: percentiles are the samples of the ranks they ask for,
      within 1/128 below 2^34 ns, with the rounding of the ranks included; the
      conversion of cycles is monotone and close to the clock.

    ** Bounds and fuel

    Loops of the source have a fixed number of iterations and are [for_] over
    that number, so that the programs are total.  The one loop that waits for
    hardware, [rdtsc_elapse], takes fuel for the readings of the counter; its
    theorems assume a counter that has advanced, which the first reading then
    observes.  The interleaving semantics has no fuel; termination is a bound
    on the number of steps of every schedule.  Sizes are those of the source
    (64 by 1024 matrices, 1024 of them; 32 MB; 1 GB), kept folded as
    [Z.to_nat n] so that proofs do not compute them.

    Loops of fio whose number of rounds depends on the data take fuel, and the
    theorems show that it suffices: the words of a bitmap or an upper bound on
    the blocks in [Axmap] and [Smalloc]; the number of nodes in [RbTree] and of
    pieces in [IoHist]; the bytes of the buffer in [Verify] (every header
    interval is positive); the prefixes and the 20 digits of a
    64-bit word in [Num2Str]; 64 halvings of a 64-bit word in [Clock] and of a zone
    size in [ZbdInit]; the characters of the text in [PatternParse] and [OptHandle]; the period
    of the register in [Lfsr].  In [Zbd] a job that has the device for itself
    settles on a zone in two rounds of [choose] and gives up after three of
    [retry], since nothing is in flight after it has waited; [zbd_find_zone]
    takes one round per zone, and every report read by [parse_loop] has a zone.
    The length of a unit in [IoOffset] is redrawn until it fits: [Drawing] is the
    outcome that it has not been found within the fuel, apart from faults; with one
    block size there is no draw, and otherwise one suffices wherever the largest
    size fits.  The tap table is proved maximal for registers of 3 to 30 bits.

    ** Not modelled

    SSD firmware and kernel (parameters, see above), nvme-cli (third party), the
    Python recommendation model, shell scripts.  Terminal output is taken as
    unbuffered, [fork] always succeeds, signed overflow wraps, and time is an
    oracle.  Of fio: the other engines, the option table and job files,
    the client and server, reports and logs, threads and rate control (I/O,
    glue and third-party libraries for the most part), and what is computed in
    floating point, the shares of [Flow], the decimals of [Num2Str] and the
    percentiles of [LatHist] excepted: for the CPU clock the measured rate, for
    zones the threshold and the period of resets are parameters.  In [IoOffset]
    the direction of a unit and the calls into zbd.c are parameters.  Of parse.c lists of floating-point numbers, the sorting of options
    and the help are left out.  Of zbd.c jobs that write one device at the same time and the checks of
    combinations of options are left out.
    Locks are not modelled, except those of zones, which are counts: an
    operation under a lock is one step ([Flow] has steps for the accesses that
    are made without it).  The addresses that mmap and malloc return are
    parameters. *)

From stdpp Require Export base numbers list strings gmap.
From Stdlib Require Export ZArith Lia ZifyNat.

#[global] Open Scope Z_scope.
#[global] Set Default Goal Selector "!".

(** Sizes are written [Z.to_nat 4096]: they stay folded in proofs. *)
#[global] Opaque Z.to_nat.
#[global] Arguments Nat.mul : simpl never.

(** ** Machine integers

    C integers are [Z] values; a conversion or an arithmetic step of the
    source that narrows to a width is written out with one of the wrappers
    below.  Signed arithmetic wraps in two's complement, which is what the
    compilers the repository uses emit. *)

Definition wrapu (w z : Z) : Z := z `mod` 2 ^ w.
Definition wraps (w z : Z) : Z := (z + 2 ^ (w - 1)) `mod` 2 ^ w - 2 ^ (w - 1).

Abbreviation u8 := (wrapu 8).
Abbreviation u16 := (wrapu 16).
Abbreviation u32 := (wrapu 32).
Abbreviation u64 := (wrapu 64).
Abbreviation i32 := (wraps 32).
Abbreviation i64 := (wraps 64).

Definition i32_ok (z : Z) : Prop := - 2 ^ 31 <= z < 2 ^ 31.
Definition byte_ok (z : Z) : Prop := 0 <= z < 256.

#[global] Instance i32_ok_dec z : Decision (i32_ok z).
Proof. unfold i32_ok. apply _. Defined.
#[global] Instance byte_ok_dec z : Decision (byte_ok z).
Proof. unfold byte_ok. apply _. Defined.

Lemma wrapu_small w z : 0 <= z < 2 ^ w -> wrapu w z = z.
Proof. intros H. unfold wrapu. by apply Z.mod_small. Qed.

Lemma i64_small z : - 2 ^ 63 <= z < 2 ^ 63 -> i64 z = z.
Proof. intros H. unfold wraps. change (64 - 1) with 63. rewrite Z.mod_small; lia. Qed.

Lemma div_bounds a b : 0 < b -> b * (a / b) <= a < b * (a / b) + b.
Proof.
  intros Hb. assert (E : a = b * (a / b) + a mod b) by (apply Z.div_mod; lia).
  assert (0 <= a mod b < b) by (by apply Z.mod_pos_bound). lia.
Qed.

Lemma wrapu_range w z : 0 <= w -> 0 <= wrapu w z < 2 ^ w.
Proof. intros Hw. apply Z.mod_pos_bound. by apply Z.pow_pos_nonneg; lia. Qed.

Lemma i32_range z : i32_ok (i32 z).
Proof.
  unfold i32_ok, wraps. change (32 - 1) with 31.
  pose proof (Z.mod_pos_bound (z + 2 ^ 31) (2 ^ 32) ltac:(lia)). lia.
Qed.

Lemma i32_small z : i32_ok z -> i32 z = z.
Proof.
  unfold i32_ok, wraps. change (32 - 1) with 31. intros H.
  rewrite Z.mod_small; lia.
Qed.

(** Two integers have the same [int] value exactly when they agree modulo
    [2^32]; everything about wrap-around below goes through this fact. *)
Lemma i32_eq_iff a b : i32 a = i32 b <-> a `mod` 2 ^ 32 = b `mod` 2 ^ 32.
Proof.
  unfold wraps. change (32 - 1) with 31. split; intros H.
  - assert (E : (a + 2 ^ 31) `mod` 2 ^ 32 = (b + 2 ^ 31) `mod` 2 ^ 32) by lia.
    replace a with (a + 2 ^ 31 - 2 ^ 31) by lia.
    replace b with (b + 2 ^ 31 - 2 ^ 31) by lia.
    by rewrite Zminus_mod, E, <- Zminus_mod.
  - by rewrite Zplus_mod, H, <- Zplus_mod.
Qed.

Lemma i32_mod z : (i32 z) `mod` 2 ^ 32 = z `mod` 2 ^ 32.
Proof. apply i32_eq_iff. apply i32_small, i32_range. Qed.

Lemma i32_idemp z : i32 (i32 z) = i32 z.
Proof. apply i32_small, i32_range. Qed.

Lemma i32_add_l a b : i32 (i32 a + b) = i32 (a + b).
Proof. apply i32_eq_iff. by rewrite Zplus_mod, i32_mod, <- Zplus_mod. Qed.

Lemma i32_add_r a b : i32 (a + i32 b) = i32 (a + b).
Proof. by rewrite Z.add_comm, i32_add_l, Z.add_comm. Qed.

Lemma i32_u32 z : i32 (u32 z) = i32 z.
Proof. apply i32_eq_iff. unfold wrapu. by rewrite Z.mod_mod by lia. Qed.

Lemma u32_i32 z : u32 (i32 z) = u32 z.
Proof. apply i32_mod. Qed.

Create HintDb cint.
Create Rewrite HintDb cint.
#[export] Hint Rewrite i32_idemp i32_add_l i32_add_r i32_u32 u32_i32 : cint.
#[export] Hint Resolve i32_range i32_small : cint.

(** Normalise nested wrap-arounds, then close the goal arithmetically. *)
Ltac cint := autorewrite with cint; try (f_equal; lia).

(** Linear arithmetic with division and remainder by constants. *)
Ltac dlia := zify; Z.to_euclidean_division_equations; lia.

(** ** Loops

    A counted C loop [for (i = 0; i < n; i++) body] threads its mutable state
    [s] through [body i s].  The combinator is generic in the monad: [option]
    for code that can only fault, the program monad of [Prog] for code that
    also performs system calls. *)

Section loops.
Context {M : Type -> Type} `{MRet M, MBind M} {S : Type}.

Fixpoint foldlM (f : nat -> S -> M S) (l : list nat) (s : S) : M S :=
  match l with
  | [] => mret s
  | i :: l' => f i s ≫= foldlM f l'
  end.

Definition for_ (n : nat) (f : nat -> S -> M S) (s : S) : M S :=
  foldlM f (seq 0 n) s.
End loops.

(** The invariant rule for loops that can only fault. *)
Lemma foldlM_opt_ind {S} (I : nat -> S -> Prop) (f : nat -> S -> option S) n a s :
  I a s ->
  (forall i s, (a <= i < a + n)%nat -> I i s -> exists s', f i s = Some s' /\ I (i + 1)%nat s') ->
  exists s', foldlM f (seq a n) s = Some s' /\ I (a + n)%nat s'.
Proof.
  revert a s. induction n as [|n IH]; intros a s H0 Hstep; simpl.
  - exists s. by rewrite Nat.add_0_r.
  - destruct (Hstep a s) as (s1 & -> & H1); [lia|done|]. simpl.
    destruct (IH (a + 1)%nat s1) as (s2 & E & H2); [done| |].
    { intros i s' Hi. apply Hstep. lia. }
    exists s2. replace (Datatypes.S a) with (a + 1)%nat by lia. split; [done|].
    by replace (a + Datatypes.S n)%nat with (a + 1 + n)%nat by lia.
Qed.

Lemma for_opt_ind {S} (I : nat -> S -> Prop) (f : nat -> S -> option S) n s :
  I 0%nat s ->
  (forall i s, (i < n)%nat -> I i s -> exists s', f i s = Some s' /\ I (i + 1)%nat s') ->
  exists s', for_ n f s = Some s' /\ I n s'.
Proof.
  intros H0 Hs. apply (foldlM_opt_ind I f n 0 s H0). intros i s' Hi. apply Hs. lia.
Qed.

(** A loop that faults in iteration [k]. *)
Lemma for_opt_fault {S} (f : nat -> S -> option S) n k s s1 :
  (k < n)%nat -> for_ k f s = Some s1 -> f k s1 = None -> for_ n f s = None.
Proof.
  intros Hk E Hf. unfold for_ in *.
  assert (Happ : forall l l' s, foldlM f (l ++ l') s = foldlM f l s ≫= foldlM f l').
  { induction l as [|i l IH]; intros l' s0; simpl; [done|].
    destruct (f i s0); simpl; [apply IH|done]. }
  replace n with (k + Datatypes.S (n - k - 1))%nat by lia.
  rewrite seq_app, Happ, E. simpl. by rewrite Hf.
Qed.

(** A loop body with [break]/[return]: [inl] goes round again, [inr] leaves. *)
Section exits.
Context {M : Type -> Type} `{MRet M, MBind M} {S R : Type}.

Fixpoint foldlM_exit (f : nat -> S -> M (S + R)%type) (l : list nat) (s : S)
  : M (S + R)%type :=
  match l with
  | [] => mret (inl s)
  | i :: l' =>
      f i s ≫= fun r => match r with
                        | inl s' => foldlM_exit f l' s'
                        | inr x => mret (inr x)
                        end
  end.

Definition for_exit (n : nat) (f : nat -> S -> M (S + R)%type) (s : S)
  : M (S + R)%type := foldlM_exit f (seq 0 n) s.
End exits.

(** A loop with no counter, cut after [2^k] rounds: [loop2] runs the body at
    most [2^k] times, by doubling, and stops at the first [inr]. *)
Section loop2.
Context {S R : Type} (body : S -> S + R).

Fixpoint loopn (n : nat) (s : S) : S + R :=
  match n with
  | O => inl s
  | Datatypes.S n' => match body s with inl s' => loopn n' s' | inr r => inr r end
  end.

Fixpoint loop2 (k : nat) (s : S) : S + R :=
  match k with
  | O => body s
  | Datatypes.S k' => match loop2 k' s with inl s' => loop2 k' s' | inr r => inr r end
  end.

Lemma loopn_app n m s :
  loopn (n + m) s = match loopn n s with inl s' => loopn m s' | inr r => inr r end.
Proof.
  revert s. induction n as [|n IH]; intros s; simpl; [done|]. destruct (body s); [apply IH|done].
Qed.

Lemma loop2_loopn k s : loop2 k s = loopn (2 ^ k) s.
Proof.
  revert s. induction k as [|k IH]; intros s; cbn [loop2].
  - cbn. by destruct (body s).
  - replace (2 ^ Datatypes.S k)%nat with (2 ^ k + 2 ^ k)%nat by (cbn; lia).
    rewrite loopn_app, IH. destruct (loopn (2 ^ k) s); [apply IH|done].
Qed.

(** A loop that ends after some number of rounds below the bound. *)
Lemma loop2_exit k n s r :
  loopn n s = inr r -> Z.of_nat n <= 2 ^ Z.of_nat k -> loop2 k s = inr r.
Proof.
  intros E Hn. rewrite loop2_loopn.
  assert (Hle : (n <= 2 ^ k)%nat) by (pose proof (Nat2Z.inj_pow 2 k) as Ep; change (Z.of_nat 2) with 2 in Ep; lia).
  replace (2 ^ k)%nat with (n + (2 ^ k - n))%nat by lia. by rewrite loopn_app, E.
Qed.
End loop2.

(** ** Finite sums *)

(** [zsum n f] is [f 0 + ... + f (n - 1)]. *)
Fixpoint zsum (n : nat) (f : nat -> Z) : Z :=
  match n with
  | O => 0
  | S n' => zsum n' f + f n'
  end.

Lemma zsum_ext n f g : (forall i, (i < n)%nat -> f i = g i) -> zsum n f = zsum n g.
Proof. induction n as [|n IH]; intros H; simpl; [done|]. rewrite IH, H; auto. Qed.

Lemma zsum_bounds n f lo hi :
  (forall i, (i < n)%nat -> lo <= f i <= hi) ->
  Z.of_nat n * lo <= zsum n f <= Z.of_nat n * hi.
Proof.
  induction n as [|n IH]; intros H; simpl zsum; [lia|].
  pose proof (IH ltac:(auto)). pose proof (H n ltac:(lia)). lia.
Qed.

Lemma zsum_add n f g : zsum n (fun i => f i + g i) = zsum n f + zsum n g.
Proof. induction n as [|n IH]; simpl; lia. Qed.

Lemma zsum_plus n m f : zsum (n + m) f = zsum n f + zsum m (fun i => f (n + i)%nat).
Proof.
  induction m as [|m IH]; simpl; [by rewrite Nat.add_0_r, Z.add_0_r|].
  rewrite <- plus_n_Sm. simpl. lia.
Qed.

(** ** Lists as buffers *)

(** The buffer [buf] after [data] was written over its beginning. *)
Definition overlay {A} (data buf : list A) : list A :=
  take (length buf) data ++ drop (length data) buf.

Create Rewrite HintDb len.
#[export] Hint Rewrite @length_app @length_take @length_drop @length_replicate
  @length_insert @length_fmap @length_seq @length_resize : len.
Ltac len := autorewrite with len; simpl length; try lia.

Lemma length_overlay {A} (data buf : list A) : length (overlay data buf) = length buf.
Proof. unfold overlay. len. Qed.
#[export] Hint Rewrite @length_overlay : len.

Lemma overlay_full {A} (data buf : list A) :
  length data = length buf -> overlay data buf = data.
Proof.
  intros H. unfold overlay. rewrite take_ge by lia. rewrite drop_ge by lia.
  apply app_nil_r.
Qed.

Lemma nth_app_drop {A} (l : list A) d i k : nth k (drop i l) d = nth (i + k) l d.
Proof. by rewrite !nth_lookup, lookup_drop. Qed.

Lemma nth_default_lookup {A} (l : list A) d i :
  (i < length l)%nat -> l !! i = Some (nth i l d).
Proof.
  intros H. destruct (lookup_lt_is_Some_2 l i H) as [x Hx].
  rewrite Hx. f_equal. by rewrite nth_lookup, Hx.
Qed.

Lemma nth_insert (l : list Z) i j x :
  (i < length l)%nat -> nth j (<[i:=x]> l) 0 = if decide (i = j) then x else nth j l 0.
Proof.
  intros H. rewrite !nth_lookup. case_decide as E; subst.
  - by rewrite list_lookup_insert_eq.
  - by rewrite list_lookup_insert_ne.
Qed.
