(* ===== verification/Mem.v ===== *)
(** * Byte buffers seen as arrays of 32-bit integers

    Every buffer the host and the in-storage programs exchange (data blocks,
    map pages, tables) is a byte array that the C code reads through an
    [int *].  A buffer is a list of byte values; [ld32]/[st32] are the
    dereferences [p[i]] and [p[i] = v] on it (little-endian, as on the x86 host
    and on the eBPF target), and fault ([None]) outside the buffer.  [ints] is
    the array the buffer represents, and the lemmas say that the two accesses
    are lookup and update of that array. *)

From S2P Require Import Prelude.

(** The four bytes of an [int], least significant first. *)
Definition bytes32 (v : Z) : list Z :=
  [Z.land v 255; Z.land (Z.shiftr v 8) 255;
   Z.land (Z.shiftr v 16) 255; Z.land (Z.shiftr v 24) 255].

(** The [int] made of four bytes. *)
Definition le32 (b0 b1 b2 b3 : Z) : Z :=
  i32 (b0 + 2 ^ 8 * b1 + 2 ^ 16 * b2 + 2 ^ 24 * b3).

Definition ld32 (m : list Z) (i : nat) : option Z :=
  match drop (4 * i) m with
  | b0 :: b1 :: b2 :: b3 :: _ => Some (le32 b0 b1 b2 b3)
  | _ => None
  end.

Definition st32 (m : list Z) (i : nat) (v : Z) : option (list Z) :=
  if decide (4 * i + 4 <= length m)%nat
  then Some (take (4 * i) m ++ bytes32 v ++ drop (4 * i + 4) m)
  else None.

(** [p[i] += v] on an [int *p]. *)
Definition add32 (m : list Z) (i : nat) (v : Z) : option (list Z) :=
  x ← ld32 m i; st32 m i (i32 (x + v)).

(** The integers a buffer holds; trailing bytes that do not fill one are dropped. *)
Fixpoint ints (m : list Z) : list Z :=
  match m with
  | b0 :: b1 :: b2 :: b3 :: m' => le32 b0 b1 b2 b3 :: ints m'
  | _ => []
  end.

(** The buffer that holds a list of integers. *)
Definition bytes_of_ints (l : list Z) : list Z := l ≫= bytes32.

(** ** The codec *)

Lemma length_bytes32 v : length (bytes32 v) = 4%nat.
Proof. done. Qed.

Lemma bytes32_byte v k :
  0 <= k -> Z.land (Z.shiftr v k) 255 = (v / 2 ^ k) `mod` 2 ^ 8.
Proof.
  intros Hk. change 255 with (Z.ones 8). rewrite Z.land_ones by lia.
  by rewrite Z.shiftr_div_pow2.
Qed.

Lemma le32_bytes32 v :
  match bytes32 v with
  | [b0; b1; b2; b3] => le32 b0 b1 b2 b3 = i32 v
  | _ => False
  end.
Proof.
  unfold bytes32. rewrite <- (Z.shiftr_0_r v) at 1. rewrite !bytes32_byte by lia.
  unfold le32. apply i32_eq_iff.
  change (2 ^ 0) with 1. rewrite Z.div_1_r.
  transitivity ((v `mod` 2 ^ 32) `mod` 2 ^ 32); [|by rewrite Z.mod_mod by lia].
  f_equal. dlia.
Qed.

Lemma ints_bytes32 v m : ints (bytes32 v ++ m) = i32 v :: ints m.
Proof. simpl. f_equal. apply (le32_bytes32 v). Qed.

(** Writing integers to a buffer and reading them back gives the integers. *)
Lemma ints_bytes_of_ints l : Forall i32_ok l -> ints (bytes_of_ints l) = l.
Proof.
  induction 1 as [|v l Hv Hl IH]; [done|].
  unfold bytes_of_ints in *. rewrite bind_cons, ints_bytes32, IH.
  by rewrite i32_small.
Qed.

Lemma length_bytes_of_ints l : length (bytes_of_ints l) = (4 * length l)%nat.
Proof.
  unfold bytes_of_ints. induction l as [|v l IH]; [done|].
  rewrite bind_cons, length_app, length_bytes32, IH. simpl length. lia.
Qed.
#[export] Hint Rewrite length_bytes_of_ints : len.

(** ** The array view *)

(** Lists of bytes are consumed four at a time. *)
Lemma bytes_ind4 (P : list Z -> Prop) :
  (forall m, (length m < 4)%nat -> P m) ->
  (forall b0 b1 b2 b3 m, P m -> P (b0 :: b1 :: b2 :: b3 :: m)) ->
  forall m, P m.
Proof.
  intros Hs Hc m. remember (length m) as n eqn:Hn.
  revert m Hn. induction n as [n IH] using lt_wf_ind. intros m ->.
  destruct m as [|b0 [|b1 [|b2 [|b3 m]]]]; try (apply Hs; simpl; lia).
  apply Hc. apply (IH (length m)); [simpl; lia|done].
Qed.

Lemma length_ints m : length (ints m) = (length m / 4)%nat.
Proof.
  induction m as [m Hm|b0 b1 b2 b3 m IH] using bytes_ind4.
  - rewrite Nat.div_small by lia. destruct m as [|? [|? [|? [|? ?]]]]; simpl in *; lia.
  - change (length (b0 :: b1 :: b2 :: b3 :: m)) with (1 * 4 + length m)%nat.
    rewrite Nat.div_add_l by lia. cbn [ints length]. by rewrite IH.
Qed.
#[export] Hint Rewrite length_ints : len.

Lemma ints_app m1 m2 :
  (length m1 `mod` 4 = 0)%nat -> ints (m1 ++ m2) = ints m1 ++ ints m2.
Proof.
  induction m1 as [m Hm|b0 b1 b2 b3 m IH] using bytes_ind4; intros H.
  - rewrite Nat.mod_small in H by lia. by destruct m.
  - simpl. f_equal. apply IH. revert H. cbn [length]. clear. dlia.
Qed.

Lemma ints_drop m i : ints (drop (4 * i) m) = drop i (ints m).
Proof.
  revert m. induction i as [|i IH]; intros m; [done|].
  replace (4 * S i)%nat with (4 + 4 * i)%nat by lia.
  destruct m as [|b0 [|b1 [|b2 [|b3 m]]]]; simpl drop; [done..|].
  apply IH.
Qed.

Lemma ints_take m i : ints (take (4 * i) m) = take i (ints m).
Proof.
  revert m. induction i as [|i IH]; intros m; [done|].
  replace (4 * S i)%nat with (4 + 4 * i)%nat by lia.
  destruct m as [|b0 [|b1 [|b2 [|b3 m]]]]; simpl take; [done..|].
  simpl. by rewrite IH.
Qed.

Lemma ld32_ints m i : ld32 m i = ints m !! i.
Proof.
  unfold ld32. rewrite <- (Nat.add_0_r i) at 2. rewrite <- lookup_drop, <- ints_drop.
  by destruct (drop (4 * i) m) as [|? [|? [|? [|? ?]]]].
Qed.

Lemma st32_ints m i v :
  (i < length (ints m))%nat ->
  exists m', st32 m i v = Some m' /\ length m' = length m /\ ints m' = <[i := i32 v]> (ints m).
Proof.
  intros Hi. rewrite length_ints in Hi.
  assert (Hlen : (4 * i + 4 <= length m)%nat).
  { pose proof (Nat.div_mod_eq (length m) 4). lia. }
  unfold st32. rewrite decide_True by done. eexists. split; [done|]. split.
  { len. }
  rewrite ints_app.
  - rewrite ints_bytes32, ints_take.
    replace (4 * i + 4)%nat with (4 * S i)%nat by lia. rewrite ints_drop.
    symmetry. apply insert_take_drop. rewrite length_ints. lia.
  - rewrite length_take, Nat.min_l by lia. rewrite Nat.mul_comm. apply Nat.Div0.mod_mul.
Qed.

Lemma add32_ints m i v :
  (i < length (ints m))%nat ->
  exists m', add32 m i v = Some m' /\ length m' = length m /\
    ints m' = <[i := i32 (nth i (ints m) 0 + v)]> (ints m).
Proof.
  intros Hi. unfold add32. rewrite ld32_ints.
  rewrite (nth_default_lookup _ 0) by done. simpl.
  destruct (st32_ints m i (i32 (nth i (ints m) 0 + v)) Hi) as (m' & E & Hl & Hm).
  exists m'. by rewrite Hm, i32_idemp.
Qed.

Lemma ints_i32_ok m : Forall i32_ok (ints m).
Proof.
  induction m as [m Hm|b0 b1 b2 b3 m IH] using bytes_ind4.
  - destruct m as [|? [|? [|? [|? ?]]]]; simpl in *; try constructor; lia.
  - simpl. constructor; [apply i32_range|done].
Qed.

Lemma nth_ints_ok m i : i32_ok (nth i (ints m) 0).
Proof.
  rewrite nth_lookup. destruct (ints m !! i) as [x|] eqn:E; simpl.
  - eapply (proj1 (Forall_lookup _ _) (ints_i32_ok m)); eauto.
  - unfold i32_ok. lia.
Qed.

(** The zeroed buffer, [memset(p, 0, n)]. *)
Definition zeros (n : nat) : list Z := replicate n 0.

Lemma length_zeros n : length (zeros n) = n.
Proof. apply length_replicate. Qed.
#[export] Hint Rewrite length_zeros : len.

Lemma ints_zeros n : ints (zeros (4 * n)) = replicate n 0.
Proof.
  unfold zeros. induction n as [|n IH]; [done|].
  replace (4 * S n)%nat with (4 + 4 * n)%nat by lia. simpl. f_equal. done.
Qed.

Lemma nth_ints_zeros n i : nth i (ints (zeros (4 * n))) 0 = 0.
Proof.
  rewrite ints_zeros, nth_lookup. destruct (_ !! i) as [x|] eqn:E; [|done].
  apply lookup_replicate in E as [-> _]. done.
Qed.

(** ** Accumulating one row into another

    [for (i = 0; i < n; i++) dst[p + i] += src[b + i]]: the inner loop of the
    embedding program and of both axis sums, on the device and on the host. *)
Definition acc_row (src : list Z) (b p n : nat) (dst : list Z) : option (list Z) :=
  for_ n (fun i d => v ← ld32 src (b + i); add32 d (p + i) v) dst.

Definition acc_view (src : list Z) (b p n : nat) (dst : list Z) (k : nat) : Z :=
  if decide (p <= k < p + n)%nat
  then i32 (nth k (ints dst) 0 + nth (b + (k - p)) (ints src) 0)
  else nth k (ints dst) 0.

Lemma acc_row_spec src b p n dst :
  (b + n <= length (ints src))%nat -> (p + n <= length (ints dst))%nat ->
  exists dst', acc_row src b p n dst = Some dst' /\ length dst' = length dst /\
    forall k, nth k (ints dst') 0 = acc_view src b p n dst k.
Proof.
  intros Hs Hd. unfold acc_row.
  destruct (for_opt_ind
    (fun i d => length d = length dst /\ forall k, nth k (ints d) 0 = acc_view src b p i dst k)
    (fun i d => v ← ld32 src (b + i); add32 d (p + i) v) n dst) as (d' & E & HI).
  - split; [done|]. intros k. unfold acc_view. by rewrite decide_False by lia.
  - intros i d Hi [Hl HI].
    assert (El : length (ints d) = length (ints dst)) by (by rewrite !length_ints, Hl).
    rewrite ld32_ints, (nth_default_lookup _ 0) by lia. simpl.
    destruct (add32_ints d (p + i) (nth (b + i) (ints src) 0)) as (d' & E & Hl' & Hi');
      [lia|].
    exists d'. split; [done|]. split; [lia|]. intros k.
    rewrite Hi', nth_insert by lia. rewrite !HI. unfold acc_view.
    destruct (decide (p + i = k)%nat) as [<-|Hne].
    + rewrite decide_False by lia. rewrite decide_True by lia. repeat f_equal. lia.
    + repeat case_decide; try lia; done.
  - exists d'. destruct HI. done.
Qed.

(** [for (i = 0; i < n; i++) ret += src[i]]. *)
Definition sum_loop (src : list Z) (n : nat) (ret : Z) : option Z :=
  for_ n (fun i r => v ← ld32 src i; Some (i32 (r + v))) ret.

Lemma sum_loop_spec src n ret :
  (n <= length (ints src))%nat -> i32_ok ret ->
  sum_loop src n ret = Some (i32 (ret + zsum n (fun i => nth i (ints src) 0))).
Proof.
  intros Hs Hr. unfold sum_loop.
  destruct (for_opt_ind
    (fun i r => r = i32 (ret + zsum i (fun i => nth i (ints src) 0)))
    (fun i r => v ← ld32 src i; Some (i32 (r + v))) n ret) as (r & E & HI).
  - simpl. rewrite Z.add_0_r. symmetry. by apply i32_small.
  - intros i r Hi ->. rewrite ld32_ints, (nth_default_lookup _ 0) by lia. simpl.
    eexists. split; [done|]. replace (i + 1)%nat with (S i) by lia. simpl.
    rewrite i32_add_l. f_equal. lia.
  - by subst.
Qed.
