(* ===== verification/Ebpf.v ===== *)
(** * The in-storage programs (src/eBPF_program)

    Each program receives a context with five integer parameters, a pointer to
    the data blocks it runs over and a pointer to its map page, and returns an
    [int].  A program is a function from the context to its return value and
    the new contents of the map page; [None] is an access outside the data
    or outside the map page.  No program writes its data. *)

From S2P Require Import Prelude Mem.

(** [struct pblk_ctx] / [struct ebpf_ctx]: the programs name the parameters
    differently ([result_id], [embedding_id], [axis]) but share the layout. *)
Record isp_ctx := IspCtx {
  param0 : Z; param1 : Z; param2 : Z; param3 : Z; param4 : Z;
  data : list Z;
  map_page : list Z
}.

Definition isp_prog : Type := isp_ctx -> option (Z * list Z).

Definition PGSIZE : nat := Z.to_nat 4096.
Lemma PGSIZE_eq : PGSIZE = Z.to_nat 4096.
Proof. done. Qed.
#[global] Opaque PGSIZE.

(** ** embedding32.c / embedding64.c *)
Module Embedding.

(** The body of [embedding] for a given vector length and return value. *)
Definition embedding (vector_length ret : Z) (ctx : isp_ctx) : option (Z * list Z) :=
  let attribute_size := 4 in
  let result_id := i32 (param0 ctx) in
  let embedding_id := u32 (param1 ctx) in
  let off := embedding_id `mod` (4096 / u32 (attribute_size * vector_length)) in
  let target_vector := Z.to_nat (u32 (vector_length * off)) in
  let map_ptr := Z.to_nat (u32 (vector_length * u32 result_id)) in
  page ← acc_row (data ctx) target_vector map_ptr (Z.to_nat vector_length) (map_page ctx);
  Some (ret, page).

Definition embedding32 : isp_prog := embedding 32 0.
Definition embedding64 : isp_prog := embedding 64 4.

End Embedding.

(** ** npsum.c *)
Module Npsum.

Section dims.
Variables AXIS0_LENGTH AXIS1_LENGTH : nat.

Definition NUM_ELEMENTS : nat := AXIS0_LENGTH * AXIS1_LENGTH.

Definition npsum_gen (ctx : isp_ctx) : option (Z * list Z) :=
  let axis := i32 (u32 (param0 ctx)) in
  let array := data ctx in
  if decide (axis = 0) then
    result_array ← for_ AXIS0_LENGTH
      (fun i r => acc_row array (i * AXIS1_LENGTH) 0 AXIS1_LENGTH r) (map_page ctx);
    Some (0, result_array)
  else if decide (axis = 1) then
    result_array ← for_ AXIS1_LENGTH
      (fun i r => acc_row array (i * AXIS0_LENGTH) 0 AXIS0_LENGTH r) (map_page ctx);
    Some (0, result_array)
  else
    ret ← sum_loop array NUM_ELEMENTS 0;
    Some (ret, map_page ctx).
End dims.

Definition npsum : isp_prog := npsum_gen (Z.to_nat 64) (Z.to_nat 1024).

End Npsum.

(** ** pass.c *)
Definition pass_prog : isp_prog := fun ctx => Some (1, map_page ctx).

(** ** strfilter.c *)
Module Strfilter.

(** [char target[16] = "Lorem"]. *)
Definition target : list Z := [76; 111; 114; 101; 109] ++ replicate 11 0.
Definition target_len : nat := 5.

(** The inner loop with its [break]: the value of [j] when it ends. *)
Definition match_loop (it : list Z) (i : nat) : option nat :=
  r ← for_exit target_len (fun j (_ : unit) =>
        c ← it !! (i + j)%nat;
        t ← target !! j;
        Some (if decide (c <> t) then inr j else inl tt)) tt;
  Some (match r with inl _ => target_len | inr j => j end).

Definition strfilter_gen (npages : nat) (ctx : isp_ctx) : option (Z * list Z) :=
  let it := data ctx in
  cnt ← for_ (PGSIZE * npages - target_len) (fun i cnt =>
          c ← it !! i;
          t ← target !! 0%nat;
          if decide (c = t) then
            j ← match_loop it i;
            Some (if decide (j = target_len) then i32 (cnt + 1) else cnt)
          else Some cnt) 0;
  Some (cnt, map_page ctx).

Definition strfilter : isp_prog := strfilter_gen (Z.to_nat 128).

End Strfilter.

(** ** wc.c *)
Module Wc.

Definition wc_gen (npages : nat) (ctx : isp_ctx) : option (Z * list Z) :=
  let it := data ctx in
  cnt ← for_ (PGSIZE * npages) (fun i cnt =>
          c ← it !! i;
          Some (if decide (c <> 32) then i32 (cnt + 1) else cnt)) 0;
  Some (cnt, map_page ctx).

Definition wc : isp_prog := wc_gen 8.

End Wc.

(** * What the programs compute *)

(** Column [j] of a row-major matrix with rows of [w] integers, [h] rows. *)
Definition col_sum (m : list Z) (h w j : nat) : Z :=
  zsum h (fun i => nth (i * w + j) m 0).

(** [axis_acc m h w page k]: entry [k] of the map page once the [w] columns of
    [m] have been added to its first [w] integers. *)
Definition axis_acc (m : list Z) (h w : nat) (page : list Z) (k : nat) : Z :=
  if decide (k < w)%nat then i32 (nth k (ints page) 0 + col_sum (ints m) h w k)
  else nth k (ints page) 0.

Lemma axis_loop_spec array h w page :
  (h * w <= length (ints array))%nat -> (w <= length (ints page))%nat ->
  exists page', for_ h (fun i r => acc_row array (i * w) 0 w r) page = Some page' /\
    length page' = length page /\
    forall k, nth k (ints page') 0 = axis_acc array h w page k.
Proof.
  intros Ha Hp.
  destruct (for_opt_ind
    (fun i r => length r = length page /\
       forall k, nth k (ints r) 0 = axis_acc array i w page k)
    (fun i r => acc_row array (i * w) 0 w r) h page) as (r & E & Hl & Hr).
  - split; [done|]. intros k. unfold axis_acc, col_sum. simpl. case_decide; [|done].
    rewrite Z.add_0_r, i32_small; [done|]. apply nth_ints_ok.
  - intros i r Hi [Hl Hr].
    destruct (acc_row_spec array (i * w) 0 w r) as (r' & E & Hl' & Hr').
    { nia. }
    { rewrite length_ints in *. rewrite Hl. lia. }
    exists r'. split; [done|]. split; [lia|]. intros k. rewrite Hr'.
    unfold acc_view. rewrite !Hr. unfold axis_acc, col_sum.
    replace (i + 1)%nat with (S i) by lia. simpl zsum.
    repeat case_decide; try lia.
    rewrite i32_add_l, Nat.sub_0_r. f_equal. lia.
  - eauto.
Qed.

(** The number of positions below [n] that satisfy [P]. *)
Definition zcount (n : nat) (P : nat -> bool) : Z := zsum n (fun i => if P i then 1 else 0).

Lemma zcount_bounds n P : 0 <= zcount n P <= Z.of_nat n.
Proof.
  unfold zcount.
  assert (H : forall i, (i < n)%nat -> 0 <= (if P i then 1 else 0) <= 1)
    by (intros i _; destruct (P i); lia).
  apply zsum_bounds in H. lia.
Qed.

Lemma zcount_ext n P Q : (forall i, (i < n)%nat -> P i = Q i) -> zcount n P = zcount n Q.
Proof. intros H. apply zsum_ext. intros i Hi. by rewrite H. Qed.

(** A counting loop whose body adds one exactly where [P] holds counts [P]. *)
Lemma count_loop n (P : nat -> bool) (body : nat -> Z -> option Z) c0 :
  (forall i c, (i < n)%nat -> body i c = Some (if P i then i32 (c + 1) else c)) ->
  i32_ok c0 -> for_ n body c0 = Some (i32 (c0 + zcount n P)).
Proof.
  intros Hb Hc.
  destruct (for_opt_ind (fun i c => c = i32 (c0 + zcount i P)) body n c0)
    as (c & E & ->); [| |done].
  - unfold zcount. simpl. rewrite Z.add_0_r, i32_small; done.
  - intros i c Hi ->. rewrite Hb by done. eexists. split; [done|].
    replace (i + 1)%nat with (S i) by lia. unfold zcount. simpl.
    destruct (P i).
    + rewrite i32_add_l. f_equal. lia.
    + f_equal. lia.
Qed.

(** "Lorem" occurs in [it] at position [i]. *)
Definition lorem : list Z := [76; 111; 114; 101; 109].
Definition lorem_at (it : list Z) (i : nat) : bool :=
  bool_decide (take 5 (drop i it) = lorem).

Lemma lookup_target j : (j < 5)%nat -> Strfilter.target !! j = lorem !! j.
Proof. intros Hj. do 5 (destruct j as [|j]; [done|]). lia. Qed.

(** The inner loop runs to the end exactly at an occurrence. *)
Lemma match_loop_spec it i :
  (i + 5 <= length it)%nat ->
  exists j, Strfilter.match_loop it i = Some j /\
    bool_decide (j = Strfilter.target_len) = lorem_at it i.
Proof.
  intros Hlen. unfold Strfilter.match_loop, Strfilter.target_len, lorem_at, for_exit.
  assert (E : forall k, (k < 5)%nat -> it !! (i + k)%nat = drop i it !! k)
    by (intros k _; by rewrite lookup_drop).
  assert (Hd : (5 <= length (drop i it))%nat) by len.
  destruct (drop i it) as [|c0 [|c1 [|c2 [|c3 [|c4 r]]]]] eqn:Ed; try (simpl in Hd; lia).
  cbn [foldlM_exit seq]. rewrite !E by lia. simpl take.
  cbn -[decide bool_decide].
  repeat (match goal with
          | |- context [decide (?c <> ?t)] => destruct (decide (c <> t)) as [?H|?H]
          end; cbn -[decide bool_decide]);
  (eexists; split; [reflexivity|]);
  unfold lorem, bool_decide; repeat case_decide; try done; try congruence.
  exfalso. match goal with H : _ <> _ |- _ => apply H end.
  repeat match goal with H : ¬ _ <> _ |- _ => apply dec_stable in H; subst end. done.
Qed.

Lemma strfilter_body_spec it i c :
  (i + 5 <= length it)%nat ->
  (c' ← it !! i;
   t ← Strfilter.target !! 0%nat;
   if decide (c' = t) then
     j ← Strfilter.match_loop it i;
     Some (if decide (j = Strfilter.target_len) then i32 (c + 1) else c)
   else Some c) = Some (if lorem_at it i then i32 (c + 1) else c).
Proof.
  intros Hl. destruct (lookup_lt_is_Some_2 it i) as [x Hx]; [lia|].
  rewrite Hx. simpl. destruct (decide (x = 76)) as [->|Hne].
  - destruct (match_loop_spec it i Hl) as (j & -> & Hj). simpl. f_equal.
    rewrite <- Hj. unfold bool_decide. by repeat case_decide.
  - f_equal. unfold lorem_at. rewrite bool_decide_false; [done|].
    intros E. apply (f_equal (.!! 0%nat)) in E.
    rewrite lookup_take_lt, lookup_drop, Nat.add_0_r in E by lia.
    rewrite Hx in E. by injection E.
Qed.

(** On enough data the filter counts every examined position exactly. *)
Lemma strfilter_gen_spec (npages : nat) (ctx : isp_ctx) :
  (0 < npages <= Z.to_nat 128)%nat ->
  (PGSIZE * npages <= length (data ctx))%nat ->
  Strfilter.strfilter_gen npages ctx =
    Some (zcount (PGSIZE * npages - 5) (lorem_at (data ctx)), map_page ctx).
Proof.
  intros Hn Hl. unfold Strfilter.strfilter_gen. change Strfilter.target_len with 5%nat at 1.
  rewrite (count_loop _ (lorem_at (data ctx))).
  - simpl. rewrite i32_small; [done|].
    pose proof (zcount_bounds (PGSIZE * npages - 5) (lorem_at (data ctx))).
    unfold i32_ok. rewrite !PGSIZE_eq in *. lia.
  - intros i c Hi. apply strfilter_body_spec.
    unfold Strfilter.target_len in *. rewrite !PGSIZE_eq in *. lia.
  - unfold i32_ok. lia.
Qed.

(** A loop faults if one of its iterations faults in every state. *)
Lemma for_opt_None {S} (f : nat -> S -> option S) n i s :
  (i < n)%nat -> (forall s, f i s = None) -> for_ n f s = None.
Proof.
  intros Hi Hf. unfold for_.
  assert (Hin : i ∈ seq 0 n) by (apply elem_of_seq; lia).
  revert s Hin. generalize (seq 0 n). intros l.
  induction l as [|j l IH]; intros s Hin; [by apply not_elem_of_nil in Hin|].
  simpl. apply elem_of_cons in Hin as [<-|Hin]; [by rewrite Hf|].
  destruct (f j s) as [s'|]; [by apply IH|done].
Qed.

(** C5: the deployed pattern filter, on a request of at least 128 blocks,
    returns the exact number of positions below [128 * 4096 - 5] at which
    "Lorem" occurs in its data, and leaves the map page alone (the last
    possible position, [128 * 4096 - 5] itself, is not examined).  On a request
    with less data than it examines it reads out of bounds: the program does
    not look at the size of the request. *)
Theorem strfilter_counts (ctx : isp_ctx) :
  ((PGSIZE * Z.to_nat 128 <= length (data ctx))%nat ->
   Strfilter.strfilter ctx =
     Some (zcount (PGSIZE * Z.to_nat 128 - 5) (lorem_at (data ctx)), map_page ctx)) /\
  ((length (data ctx) < PGSIZE * Z.to_nat 128 - 5)%nat -> Strfilter.strfilter ctx = None).
Proof.
  split; intros Hl.
  - apply strfilter_gen_spec; [lia|done].
  - unfold Strfilter.strfilter, Strfilter.strfilter_gen.
    rewrite (for_opt_None _ _ (length (data ctx))); [done|done|].
    intros c. by rewrite (lookup_ge_None_2 (data ctx)) by lia.
Qed.

Lemma strfilter_counts_witness :
  Strfilter.strfilter (IspCtx 0 0 0 0 0 (zeros PGSIZE) []) = None.
Proof.
  apply (strfilter_counts (IspCtx 0 0 0 0 0 (zeros PGSIZE) [])).
  cbn [data]. rewrite length_zeros, PGSIZE_eq. lia.
Defined.

(** The number of the first [n] bytes that are not spaces, and the loop that
    counts them. *)
Definition nonspace (d : list Z) (n : nat) : Z :=
  zcount n (fun i => bool_decide (d !! i <> Some 32)).

Lemma nonspace_loop (d : list Z) n :
  (n <= length d)%nat -> i32_ok (Z.of_nat n) ->
  for_ n (fun i cnt => c ← d !! i; Some (if decide (c <> 32) then i32 (cnt + 1) else cnt)) 0 =
    Some (nonspace d n).
Proof.
  intros Hl Hn. rewrite (count_loop _ (fun i => bool_decide (d !! i <> Some 32))).
  - rewrite Z.add_0_l, i32_small; [done|].
    pose proof (zcount_bounds n (fun i => bool_decide (d !! i <> Some 32))).
    unfold i32_ok in *. lia.
  - intros i c Hi. destruct (lookup_lt_is_Some_2 d i) as [x Hx]; [lia|].
    cbn beta. rewrite Hx. simpl. f_equal. destruct (decide (x = 32)) as [->|Hne].
    + rewrite decide_False by tauto. by rewrite bool_decide_false by tauto.
    + rewrite decide_True by done. by rewrite bool_decide_true by congruence.
  - unfold i32_ok. lia.
Qed.

Lemma wc_gen_spec (npages : nat) (ctx : isp_ctx) :
  (npages <= 8)%nat -> (PGSIZE * npages <= length (data ctx))%nat ->
  Wc.wc_gen npages ctx = Some (nonspace (data ctx) (PGSIZE * npages), map_page ctx).
Proof.
  intros Hn Hl. unfold Wc.wc_gen. rewrite nonspace_loop; [done|done|].
  unfold i32_ok. rewrite PGSIZE_eq. lia.
Qed.

(** the word counter returns the number of bytes of its eight pages that
    are not spaces and leaves the map page alone; with fewer than eight pages
    of data it reads outside them. *)
Theorem wc_counts (ctx : isp_ctx) :
  ((PGSIZE * 8 <= length (data ctx))%nat ->
   Wc.wc ctx = Some (nonspace (data ctx) (PGSIZE * 8), map_page ctx)) /\
  ((length (data ctx) < PGSIZE * 8)%nat -> Wc.wc ctx = None).
Proof.
  split; intros Hl.
  - by apply wc_gen_spec.
  - unfold Wc.wc, Wc.wc_gen. rewrite (for_opt_None _ _ (length (data ctx))); [done|done|].
    intros c. by rewrite (lookup_ge_None_2 (data ctx)) by lia.
Qed.

Lemma wc_counts_witness :
  Wc.wc (IspCtx 0 0 0 0 0 (zeros (PGSIZE * 8)) []) =
    Some (nonspace (zeros (PGSIZE * 8)) (PGSIZE * 8), []).
Proof.
  apply (wc_counts (IspCtx 0 0 0 0 0 (zeros (PGSIZE * 8)) [])).
  cbn [data]. rewrite length_zeros. apply Nat.le_refl.
Defined.

(** C3: on every axis argument the matrix program computes what its name says,
    without faulting, for data of [h * w] integers and a map page with room for
    the result.  Axis 0 adds each of the [w] column sums of the [h]-row matrix
    to the map page and returns 0; axis 1 does the same for the transposed
    shape ([w] rows of [h]); any other axis returns the sum of all elements,
    modulo [2^32], and leaves the map page alone.  The deployed program is the
    instance [h = 64], [w = 1024]. *)
Theorem npsum_correct (h w : nat) (ctx : isp_ctx) :
  (h * w <= length (ints (data ctx)))%nat ->
  (h <= length (ints (map_page ctx)))%nat ->
  (w <= length (ints (map_page ctx)))%nat ->
  let axis := i32 (param0 ctx) in
  (axis = 0 -> exists page', Npsum.npsum_gen h w ctx = Some (0, page') /\
     length page' = length (map_page ctx) /\
     forall k, nth k (ints page') 0 = axis_acc (data ctx) h w (map_page ctx) k) /\
  (axis = 1 -> exists page', Npsum.npsum_gen h w ctx = Some (0, page') /\
     length page' = length (map_page ctx) /\
     forall k, nth k (ints page') 0 = axis_acc (data ctx) w h (map_page ctx) k) /\
  (axis <> 0 -> axis <> 1 ->
     Npsum.npsum_gen h w ctx =
       Some (i32 (zsum (h * w) (fun i => nth i (ints (data ctx)) 0)), map_page ctx)).
Proof.
  intros Hd Hh Hw axis. unfold Npsum.npsum_gen, axis in *. rewrite i32_u32.
  split_and!.
  - intros E. rewrite E, decide_True by done.
    destruct (axis_loop_spec (data ctx) h w (map_page ctx)) as (p & -> & Hl & Hk); eauto.
  - intros E. rewrite E, decide_False, decide_True by done.
    destruct (axis_loop_spec (data ctx) w h (map_page ctx)) as (p & -> & Hl & Hk);
      [lia|done|]. eauto.
  - intros E0 E1. rewrite !decide_False by done.
    unfold Npsum.NUM_ELEMENTS. rewrite sum_loop_spec; [done|done|].
    unfold i32_ok. lia.
Qed.

Lemma npsum_correct_witness :
  exists page', Npsum.npsum (IspCtx 0 0 0 0 0 (zeros (4 * Z.to_nat 65536)) (zeros (4 * Z.to_nat 1024)))
    = Some (0, page').
Proof.
  destruct (npsum_correct (Z.to_nat 64) (Z.to_nat 1024)
    (IspCtx 0 0 0 0 0 (zeros (4 * Z.to_nat 65536)) (zeros (4 * Z.to_nat 1024))))
    as [H _].
  - cbn [data]. rewrite ints_zeros, length_replicate. lia.
  - cbn [map_page]. rewrite ints_zeros, length_replicate. lia.
  - cbn [map_page]. rewrite ints_zeros, length_replicate. lia.
  - destruct H as (p & E & _); [reflexivity|]. exists p. exact E.
Defined.

(** ** The embedding program *)

Lemma acc_row_oob src b p n dst :
  (0 < n)%nat -> (length (ints dst) <= p)%nat -> acc_row src b p n dst = None.
Proof.
  intros Hn Hp. unfold acc_row, for_. destruct n as [|n]; [lia|].
  cbn [seq foldlM]. rewrite !Nat.add_0_r. unfold add32. rewrite !ld32_ints.
  rewrite (lookup_ge_None_2 (ints dst)) by done. by destruct (ints src !! b).
Qed.

(** The row of the map page a result id selects, once [vl * result_id] has
    been computed in 32 bits. *)
Lemma embedding_row_index vl p :
  (vl = 32 \/ vl = 64) -> u32 (vl * u32 (i32 p)) = vl * (p `mod` (2 ^ 32 / vl)).
Proof.
  intros Hvl. rewrite u32_i32. unfold wrapu. rewrite Zmult_mod_idemp_r.
  destruct Hvl as [-> | ->]; rewrite <- Zmult_mod_distr_l; done.
Qed.

(** Both cases of [embedding], for a vector length that divides the page. *)
Lemma embedding_cases (vl ret : Z) (ctx : isp_ctx) :
  (vl = 32 \/ vl = 64) ->
  (1024 <= Z.of_nat (length (ints (data ctx)))) ->
  (Z.of_nat (length (ints (map_page ctx))) = 1024) ->
  let row := param0 ctx `mod` (2 ^ 32 / vl) in
  let src := u32 (param1 ctx) `mod` (1024 / vl) in
  if decide (row < 1024 / vl) then exists page',
     Embedding.embedding vl ret ctx = Some (ret, page') /\
     length page' = length (map_page ctx) /\
     forall k, nth k (ints page') 0 =
       acc_view (data ctx) (Z.to_nat (vl * src)) (Z.to_nat (vl * row)) (Z.to_nat vl)
         (map_page ctx) k
  else Embedding.embedding vl ret ctx = None.
Proof.
  intros Hvl Hd Hp row src. unfold Embedding.embedding.
  rewrite embedding_row_index by done. fold row.
  assert (Esrc : u32 (vl * (u32 (param1 ctx) `mod` (4096 / u32 (4 * vl)))) = vl * src).
  { unfold src. destruct Hvl as [-> | ->].
    - change (4096 / u32 (4 * 32)) with (1024 / 32).
      apply wrapu_small. pose proof (Z.mod_pos_bound (u32 (param1 ctx)) (1024 / 32)). lia.
    - change (4096 / u32 (4 * 64)) with (1024 / 64).
      apply wrapu_small. pose proof (Z.mod_pos_bound (u32 (param1 ctx)) (1024 / 64)). lia. }
  rewrite Esrc.
  assert (Hrow : 0 <= row) by (apply Z.mod_pos_bound; destruct Hvl as [-> | ->]; done).
  assert (Hsrc : 0 <= src < 1024 / vl)
    by (apply Z.mod_pos_bound; destruct Hvl as [-> | ->]; done).
  assert (Hq : vl * (1024 / vl) = 1024) by (destruct Hvl as [-> | ->]; done).
  assert (Hvl0 : 0 < vl) by (destruct Hvl as [-> | ->]; done).
  clearbody row src. clear Esrc Hvl.
  generalize dependent (1024 / vl). intros q Hsrc Hq.
  case_decide as Hr.
  - destruct (acc_row_spec (data ctx) (Z.to_nat (vl * src)) (Z.to_nat (vl * row))
                (Z.to_nat vl) (map_page ctx)) as (p & -> & Hl & Hk); [nia..|].
    simpl. eauto.
  - rewrite acc_row_oob; [done|lia|nia].
Qed.

(** C4: the embedding program, in both deployed vector lengths, adds embedding
    [embedding_id mod (4096 / (4 vl))] of its data page to row [row] of the map
    page and to nothing else, where [row] is the result id reduced modulo
    [2^32 / vl] (the 32-bit product wraps); if that row is outside the map page
    the access faults.  Every context with a full data page and a full map page
    falls in one of the two cases. *)
Theorem embedding_correct (vl ret : Z) (ctx : isp_ctx) :
  (vl = 32 \/ vl = 64) ->
  (1024 <= Z.of_nat (length (ints (data ctx)))) ->
  (Z.of_nat (length (ints (map_page ctx))) = 1024) ->
  let row := param0 ctx `mod` (2 ^ 32 / vl) in
  let src := u32 (param1 ctx) `mod` (1024 / vl) in
  (row < 1024 / vl -> exists page',
     Embedding.embedding vl ret ctx = Some (ret, page') /\
     length page' = length (map_page ctx) /\
     forall k, nth k (ints page') 0 =
       acc_view (data ctx) (Z.to_nat (vl * src)) (Z.to_nat (vl * row)) (Z.to_nat vl)
         (map_page ctx) k) /\
  (1024 / vl <= row -> Embedding.embedding vl ret ctx = None).
Proof.
  intros Hvl Hd Hp row src. pose proof (embedding_cases vl ret ctx Hvl Hd Hp) as H.
  cbv zeta in H. fold row src in H. destruct (decide (row < 1024 / vl)); split; intros Hr; try done; clearbody row; lia.
Qed.

Lemma embedding_correct_witness :
  Embedding.embedding32
    (IspCtx 32 7 0 0 0 (zeros (4 * Z.to_nat 1024)) (zeros (4 * Z.to_nat 1024))) = None.
Proof.
  destruct (embedding_correct 32 0
    (IspCtx 32 7 0 0 0 (zeros (4 * Z.to_nat 1024)) (zeros (4 * Z.to_nat 1024))))
    as [_ H].
  - by left.
  - cbn [data]. rewrite ints_zeros, length_replicate. lia.
  - cbn [map_page]. rewrite ints_zeros, length_replicate. lia.
  - apply H. cbn [param0]. vm_compute. discriminate.
Defined.
