(* ===== verification/Nvme.v ===== *)
(** * NVMe commands and the device behind /dev/nvme0n1

    The host programs talk to the SSD with two ioctls,
    [NVME_IOCTL_IO_CMD] (a [struct nvme_passthru_cmd], opcodes 0x81 to 0x87)
    and [NVME_IOCTL_SUBMIT_IO] (a [struct nvme_user_io], opcodes 1 and 2), and
    with [pread] on the block device.  The kernel driver and the SSD firmware
    are not part of the repository: they are a parameter, the class [Device].
    What the repository documents of them (README.md, the comments next to the
    opcodes) is the class [IspSpec]: an abstraction of the device state to an
    [ssd] and, per opcode, what a successful command does to it.  [refdev] is
    an executable device that satisfies the laws. *)

From S2P Require Import Prelude Mem Ebpf.

(** ** The two command structures of linux/nvme_ioctl.h *)

Record passthru_cmd := PassthruCmd {
  pc_opcode : Z; pc_flags : Z; pc_rsvd1 : Z; pc_nsid : Z;
  pc_cdw2 : Z; pc_cdw3 : Z; pc_metadata : Z; pc_addr : Z;
  pc_metadata_len : Z; pc_data_len : Z;
  pc_cdw10 : Z; pc_cdw11 : Z; pc_cdw12 : Z; pc_cdw13 : Z;
  pc_cdw14 : Z; pc_cdw15 : Z; pc_timeout_ms : Z; pc_result : Z
}.

Record user_io := UserIo {
  io_opcode : Z; io_flags : Z; io_control : Z; io_nblocks : Z; io_rsvd : Z;
  io_metadata : Z; io_addr : Z; io_slba : Z; io_dsmgmt : Z; io_reftag : Z;
  io_appmask : Z; io_apptag : Z
}.

(** Every initialiser of the repository leaves flags, reserved words, the
    upper half of the LBA, dwords 13 and 14 and the timeout at 0 and the
    namespace at 1; the other fields are converted to their widths. *)
Definition mk_cmd (opcode cdw2 cdw3 metadata addr data_len cdw10 cdw12 cdw15 result : Z)
  : passthru_cmd :=
  {| pc_opcode := u8 opcode; pc_flags := 0; pc_rsvd1 := 0; pc_nsid := 1;
     pc_cdw2 := u32 cdw2; pc_cdw3 := u32 cdw3;
     pc_metadata := u64 metadata; pc_addr := u64 addr;
     pc_metadata_len := 0; pc_data_len := u32 data_len;
     pc_cdw10 := u32 cdw10; pc_cdw11 := 0; pc_cdw12 := u32 cdw12;
     pc_cdw13 := 0; pc_cdw14 := 0; pc_cdw15 := u32 cdw15;
     pc_timeout_ms := 0; pc_result := u32 result |}.

Definition mk_io (opcode nblocks addr slba : Z) : user_io :=
  {| io_opcode := u8 opcode; io_flags := 0; io_control := 0; io_nblocks := u16 nblocks;
     io_rsvd := 0; io_metadata := 0; io_addr := u64 addr; io_slba := u64 slba;
     io_dsmgmt := 0; io_reftag := 0; io_appmask := 0; io_apptag := 0 |}.

(** ** The device interface

    A command reads or fills the host buffer at its [addr]; the buffer's
    contents travel with the call.  The first component of an answer is what
    [ioctl] (or [pread]) returns, a passthru command also gets the 32-bit
    [result] field back. *)
Class Device (D : Type) := {
  dev_io_cmd : passthru_cmd -> list Z -> D -> (Z * Z * list Z) * D;
  dev_submit_io : user_io -> list Z -> D -> (Z * list Z) * D;
  dev_pread : Z -> Z -> list Z -> D -> (Z * list Z) * D
}.

(** ** The abstract SSD: logical blocks of 4096 bytes and numbered map pages *)

Record ssd := Ssd { ssd_blocks : gmap Z (list Z); ssd_pages : gmap Z (list Z) }.

Definition norm_block (b : list Z) : list Z := resize PGSIZE 0 b.

Lemma length_norm_block b : length (norm_block b) = PGSIZE.
Proof. apply length_resize. Qed.

Lemma norm_block_id b : length b = PGSIZE -> norm_block b = b.
Proof. intros H. unfold norm_block. by apply resize_all_alt. Qed.

#[global] Opaque norm_block.

Definition block (s : ssd) (lba : Z) : list Z :=
  norm_block (default [] (ssd_blocks s !! lba)).

Definition page (s : ssd) (n : Z) : list Z :=
  norm_block (default [] (ssd_pages s !! n)).

Fixpoint read_blocks (s : ssd) (slba : Z) (n : nat) : list Z :=
  match n with
  | O => []
  | S n' => block s slba ++ read_blocks s (slba + 1) n'
  end.

Fixpoint write_blocks (s : ssd) (slba : Z) (n : nat) (buf : list Z) : ssd :=
  match n with
  | O => s
  | S n' => write_blocks
              (Ssd (<[slba := take PGSIZE buf]> (ssd_blocks s)) (ssd_pages s))
              (slba + 1) n' (drop PGSIZE buf)
  end.

Definition set_page (s : ssd) (n : Z) (p : list Z) : ssd :=
  Ssd (ssd_blocks s) (<[n := p]> (ssd_pages s)).

(** The number of logical blocks of a command: both [nblocks] and the low half
    of cdw12 count from zero. *)
Definition io_len (io : user_io) : nat := Z.to_nat (io_nblocks io + 1).
Definition cmd_len (c : passthru_cmd) : nat := Z.to_nat (wrapu 16 (pc_cdw12 c) + 1).

Definition isp_ctx_of (c : passthru_cmd) (s : ssd) (p2 p3 p4 : Z) : isp_ctx :=
  IspCtx (pc_cdw2 c) (pc_cdw3 c) p2 p3 p4
    (read_blocks s (pc_cdw10 c) (cmd_len c)) (page s (pc_cdw15 c)).

(** ** What the commands do

    [err = 0] is success.  The laws say nothing of the SSD after a command
    that fails, or after a short [pread]: only the host buffer keeps its
    length.  The remaining program parameters of an ISP read (2, 3 and 4) are
    not documented: the laws leave them to [isp_params]. *)
Class IspSpec (D : Type) `{Device D} (prog : isp_prog) := {
  ssd_of : D -> ssd;
  isp_params : passthru_cmd -> D -> Z * Z * Z;

  io_read_law io buf d err buf' d' :
    io_opcode io = 2 -> dev_submit_io io buf d = ((err, buf'), d') ->
    length buf' = length buf /\
    (err = 0 -> ssd_of d' = ssd_of d /\
       buf' = overlay (read_blocks (ssd_of d) (io_slba io) (io_len io)) buf);

  io_write_law io buf d err buf' d' :
    io_opcode io = 1 -> dev_submit_io io buf d = ((err, buf'), d') ->
    buf' = buf /\
    (err = 0 -> ssd_of d' = write_blocks (ssd_of d) (io_slba io) (io_len io) buf);

  isp_read_law c buf d err res buf' d' p2 p3 p4 :
    pc_opcode c = 130 -> dev_io_cmd c buf d = ((err, res, buf'), d') ->
    isp_params c d = (p2, p3, p4) ->
    length buf' = length buf /\
    (err = 0 -> exists ret p', prog (isp_ctx_of c (ssd_of d) p2 p3 p4) = Some (ret, p') /\
       res = u32 ret /\ ssd_of d' = set_page (ssd_of d) (pc_cdw15 c) p');

  page_read_law c buf d err res buf' d' :
    pc_opcode c = 132 -> dev_io_cmd c buf d = ((err, res, buf'), d') ->
    length buf' = length buf /\
    (err = 0 -> ssd_of d' = ssd_of d /\ buf' = overlay (page (ssd_of d) (pc_cdw15 c)) buf);

  page_clear_law c buf d err res buf' d' :
    pc_opcode c = 133 -> dev_io_cmd c buf d = ((err, res, buf'), d') ->
    length buf' = length buf /\
    (err = 0 -> ssd_of d' = set_page (ssd_of d) (pc_cdw15 c) (zeros PGSIZE));

  stats_law c buf d err res buf' d' :
    pc_opcode c = 134 \/ pc_opcode c = 135 ->
    dev_io_cmd c buf d = ((err, res, buf'), d') -> err = 0 -> ssd_of d' = ssd_of d;

  pread_law len off buf d n buf' d' :
    dev_pread len off buf d = ((n, buf'), d') ->
    length buf' = length buf /\
    (n = len -> ssd_of d' = ssd_of d) /\
    (n = len -> off `mod` 4096 = 0 -> len `mod` 4096 = 0 ->
     buf' = overlay (read_blocks (ssd_of d) (off / 4096) (Z.to_nat (len / 4096))) buf)
}.

(** A device that completes every command whose program does not fault. *)
Class Reliable (D : Type) `{IspSpec D prog} := {
  io_reliable io buf d : fst (fst (dev_submit_io io buf d)) = 0;
  isp_reliable c buf d p2 p3 p4 :
    pc_opcode c = 130 -> isp_params c d = (p2, p3, p4) ->
    is_Some (prog (isp_ctx_of c (ssd_of d) p2 p3 p4)) ->
    fst (fst (fst (dev_io_cmd c buf d))) = 0;
  cmd_reliable c buf d :
    pc_opcode c <> 130 -> fst (fst (fst (dev_io_cmd c buf d))) = 0;
  pread_reliable len off buf d : fst (fst (dev_pread len off buf d)) = len
}.

(** ** Block lemmas *)

Lemma length_block s l : length (block s l) = PGSIZE.
Proof. apply length_norm_block. Qed.
Lemma length_page s n : length (page s n) = PGSIZE.
Proof. apply length_norm_block. Qed.
#[export] Hint Rewrite length_block length_page : len.

Lemma page_set_eq s n p : length p = PGSIZE -> page (set_page s n p) n = p.
Proof. intros H. unfold page, set_page. simpl. rewrite lookup_insert_eq. by apply norm_block_id. Qed.

Lemma block_set_page s n p l : block (set_page s n p) l = block s l.
Proof. done. Qed.

Lemma length_read_blocks s slba n : length (read_blocks s slba n) = (PGSIZE * n)%nat.
Proof.
  revert slba. induction n as [|n IH]; intros slba; simpl; [lia|]. len. rewrite IH. lia.
Qed.
#[export] Hint Rewrite length_read_blocks : len.

Lemma read_blocks_ext s s' slba n :
  (forall i, slba <= i < slba + Z.of_nat n -> block s i = block s' i) ->
  read_blocks s slba n = read_blocks s' slba n.
Proof.
  revert slba. induction n as [|n IH]; intros slba H; simpl; [done|].
  rewrite (H slba) by lia. f_equal. apply IH. intros i Hi. apply H. lia.
Qed.

Lemma read_blocks_set_page s n p slba k :
  read_blocks (set_page s n p) slba k = read_blocks s slba k.
Proof. by apply read_blocks_ext. Qed.

Lemma read_blocks_app s slba n m :
  read_blocks s slba (n + m) = read_blocks s slba n ++ read_blocks s (slba + Z.of_nat n) m.
Proof.
  revert slba. induction n as [|n IH]; intros slba; simpl.
  - by rewrite Z.add_0_r.
  - rewrite IH, <- app_assoc.
    by replace (slba + 1 + Z.of_nat n) with (slba + Z.of_nat (S n)) by lia.
Qed.

Lemma write_blocks_other s slba n buf i :
  ~ (slba <= i < slba + Z.of_nat n) -> block (write_blocks s slba n buf) i = block s i.
Proof.
  revert s slba buf. induction n as [|n IH]; intros s slba buf Hi; simpl; [done|].
  rewrite IH by lia. unfold block. simpl. by rewrite lookup_insert_ne by lia.
Qed.

Lemma page_write_blocks s slba n buf k : page (write_blocks s slba n buf) k = page s k.
Proof.
  revert s slba buf. induction n as [|n IH]; intros s slba buf; simpl; [done|]. by rewrite IH.
Qed.

Lemma write_blocks_same s slba n buf i :
  (PGSIZE * n <= length buf)%nat -> (i < n)%nat ->
  block (write_blocks s slba n buf) (slba + Z.of_nat i) =
    take PGSIZE (drop (PGSIZE * i) buf).
Proof.
  revert s slba buf i. induction n as [|n IH]; intros s slba buf i Hl Hi; [lia|]. simpl.
  destruct i as [|i].
  - rewrite Z.add_0_r, write_blocks_other by lia. unfold block. simpl.
    rewrite lookup_insert_eq. simpl. rewrite Nat.mul_0_r, drop_0.
    apply norm_block_id. rewrite length_take. lia.
  - replace (slba + Z.of_nat (S i)) with (slba + 1 + Z.of_nat i) by lia.
    rewrite IH by (rewrite ?length_drop; lia). rewrite drop_drop.
    by replace (PGSIZE + PGSIZE * i)%nat with (PGSIZE * S i)%nat by lia.
Qed.

(** Reading back what was written gives the buffer. *)
Lemma read_write_blocks s slba n buf :
  (PGSIZE * n <= length buf)%nat ->
  read_blocks (write_blocks s slba n buf) slba n = take (PGSIZE * n) buf.
Proof.
  revert s slba buf. induction n as [|n IH]; intros s slba buf Hl.
  - by rewrite Nat.mul_0_r.
  - simpl. rewrite IH by (rewrite length_drop; lia).
    rewrite write_blocks_other by lia. unfold block. simpl. rewrite lookup_insert_eq. simpl.
    rewrite norm_block_id by (rewrite length_take; lia).
    rewrite Nat.mul_succ_r, Nat.add_comm. by rewrite take_take_drop.
Qed.

(** ** The reference device *)

Definition refdev (prog : isp_prog) : Type := ssd.

(** Commands complete with 0, except an ISP read whose program faults. *)
Definition ref_io_cmd (prog : isp_prog) (c : passthru_cmd) (buf : list Z) (s : refdev prog)
  : (Z * Z * list Z) * refdev prog :=
  if decide (pc_opcode c = 130) then
    match prog (isp_ctx_of c s 0 0 0) with
    | Some (ret, p') => ((0, u32 ret, buf), set_page s (pc_cdw15 c) p')
    | None => ((1, 0, buf), s)
    end
  else if decide (pc_opcode c = 132) then ((0, 0, overlay (page s (pc_cdw15 c)) buf), s)
  else if decide (pc_opcode c = 133) then
    ((0, 0, buf), set_page s (pc_cdw15 c) (zeros PGSIZE))
  else ((0, 0, buf), s).

Definition ref_submit_io (prog : isp_prog) (io : user_io) (buf : list Z) (s : refdev prog)
  : (Z * list Z) * refdev prog :=
  if decide (io_opcode io = 1) then ((0, buf), write_blocks s (io_slba io) (io_len io) buf)
  else ((0, overlay (read_blocks s (io_slba io) (io_len io)) buf), s).

Definition ref_pread (prog : isp_prog) (len off : Z) (buf : list Z) (s : refdev prog)
  : (Z * list Z) * refdev prog :=
  ((len, overlay (read_blocks s (off / 4096) (Z.to_nat (len / 4096))) buf), s).

#[export] Instance refdev_Device prog : Device (refdev prog) :=
  {| dev_io_cmd := ref_io_cmd prog;
     dev_submit_io := ref_submit_io prog;
     dev_pread := ref_pread prog |}.

#[export] Instance refdev_IspSpec prog : IspSpec (refdev prog) prog.
Proof.
  refine {| ssd_of := fun s : refdev prog => s; isp_params := fun _ _ => (0, 0, 0) |}.
  - intros io buf d err buf' d' Ho. simpl. unfold ref_submit_io.
    rewrite decide_False by lia. intros [= <- <- <-]. by rewrite length_overlay.
  - intros io buf d err buf' d' Ho. simpl. unfold ref_submit_io.
    rewrite decide_True by lia. by intros [= <- <- <-].
  - intros c buf d err res buf' d' p2 p3 p4 Ho. simpl. unfold ref_io_cmd.
    rewrite decide_True by done. intros E [= <- <- <-].
    destruct (prog _) as [[ret p']|]; injection E as <- <- <- <-; naive_solver.
  - intros c buf d err res buf' d' Ho. simpl. unfold ref_io_cmd.
    rewrite decide_False, decide_True by lia. intros [= <- <- <- <-].
    by rewrite length_overlay.
  - intros c buf d err res buf' d' Ho. simpl. unfold ref_io_cmd.
    rewrite !decide_False, decide_True by lia. intros [= <- <- <- <-]. naive_solver.
  - intros c buf d err res buf' d' Ho. simpl. unfold ref_io_cmd.
    rewrite !decide_False by lia. by intros [= <- <- <- <-].
  - intros len off buf d n buf' d'. simpl. unfold ref_pread.
    intros [= <- <- <-]. by rewrite length_overlay.
Defined.

#[export] Instance refdev_Reliable prog : Reliable (refdev prog).
Proof.
  split.
  - intros io buf d. simpl. unfold ref_submit_io. by case_decide.
  - intros c buf d p2 p3 p4 Ho. simpl. unfold ref_io_cmd.
    intros [= <- <- <-] [[ret p'] E]. rewrite decide_True by done. by rewrite E.
  - intros c buf d Ho. simpl. unfold ref_io_cmd. rewrite decide_False by done.
    by repeat case_decide.
  - done.
Qed.
