(* ===== verification/Prog.v ===== *)
(** * Host programs as effect trees

    A host program is a tree of the system calls it makes: [Vis e k] performs
    [e] and continues with [k] on the answer.  The translation of a C function
    keeps its local variables as arguments threaded through the tree, so that
    a continuation owns its own copy of them (this is what [fork] copies).

    [run] executes a sequential program against a device, an oracle for what
    the program cannot control (clock, uninitialised heap contents, [rand],
    other files) and an output log.  It is partial: [None] is undefined
    behaviour, an access or a transfer outside a buffer. *)

From S2P Require Import Prelude Mem Ebpf Nvme.

(** ** The calls *)

(** An argument of [printf]. *)
Inductive arg :=
| AInt (z : Z)                    (* %d, %x *)
| AStr (s : string)               (* %s *)
| AErrno                          (* %s of strerror(errno) *)
| AQuot (num den : Z).            (* %f of a quotient of integers *)

Inductive ioE : Type -> Type :=
| Open (path : string) (flags : list string) : ioE Z
| Close (fd : Z) : ioE unit
| IoCmd (fd : Z) (c : passthru_cmd) (buf : list Z) : ioE (Z * Z * list Z)
| SubmitIo (fd : Z) (io : user_io) (buf : list Z) : ioE (Z * list Z)
| Pread (fd : Z) (buf : list Z) (len off : Z) : ioE (Z * list Z)
| Read (fd : Z) (buf : list Z) (len : Z) : ioE (Z * list Z)
| Write (fd : Z) (buf : list Z) (len : Z) : ioE Z
| Malloc (n : nat) : ioE (Z * list Z)
| Gettimeofday : ioE (Z * Z)
| Rdtsc : ioE Z
| Rand : ioE Z
| Sleep (n : Z) : ioE unit
| Printf (fmt : string) (args : list arg) : ioE unit
| Fault : ioE Empty_set.

Inductive prog (E : Type -> Type) (A : Type) : Type :=
| Ret (a : A)
| Vis {X : Type} (e : E X) (k : X -> prog E A).
Arguments Ret {E A} a.
Arguments Vis {E A X} e k.

Fixpoint prog_bind {E A B} (f : A -> prog E B) (p : prog E A) : prog E B :=
  match p with
  | Ret a => f a
  | Vis e k => Vis e (fun x => prog_bind f (k x))
  end.

#[export] Instance prog_ret E : MRet (prog E) := fun A a => Ret a.
#[export] Instance prog_mbind E : MBind (prog E) := fun A B f p => prog_bind f p.

Definition call {E X} (e : E X) : prog E X := Vis e Ret.

(** A C expression that may fault, inside a program. *)
Definition eval {A} (o : option A) : prog ioE A :=
  match o with
  | Some a => Ret a
  | None => Vis Fault (fun e : Empty_set => match e with end)
  end.

(** [gettimeofday(&tv, NULL); (tv.tv_sec) * 1000000 + (tv.tv_usec)], exact in
    a [double] for any date. *)
Definition now_us : prog ioE Z :=
  '(sec, usec) ← call Gettimeofday; Ret (sec * 1000000 + usec).

(** ** Execution *)

(** What the environment decides: call number [n] of each kind. *)
Record oracle := Oracle {
  or_fd : string -> Z;                 (* descriptors *)
  or_heap : nat -> list Z;             (* contents of fresh memory *)
  or_addr : nat -> Z;                  (* addresses of fresh memory *)
  or_clock : nat -> Z * Z;
  or_tsc : nat -> Z;
  or_rand : nat -> Z;
  or_file : Z -> nat -> list Z         (* what read(2) finds in a file *)
}.

Definition line : Type := string * list arg.

(** The device, the lines printed, what was written to files (descriptor and
    bytes, in order) and the number of oracle calls so far. *)
Record world (D : Type) := World {
  w_dev : D; w_out : list line; w_files : list (Z * list Z); w_tick : nat
}.
Arguments World {D}.
Arguments w_dev {D}.
Arguments w_out {D}.
Arguments w_files {D}.
Arguments w_tick {D}.

(** A transfer of [n] bytes stays inside the buffer; a null address transfers
    nothing. *)
Definition cmd_fits (c : passthru_cmd) (buf : list Z) : bool :=
  bool_decide (pc_addr c = 0) || bool_decide (pc_data_len c <= Z.of_nat (length buf)).
Definition io_fits (io : user_io) (buf : list Z) : bool :=
  bool_decide (4096 * (io_nblocks io + 1) <= Z.of_nat (length buf)).

Section run.
Context {D : Type} `{Device D} (o : oracle).

Definition set_dev (w : world D) (d : D) : world D := World d (w_out w) (w_files w) (w_tick w).
Definition tick (w : world D) : world D :=
  World (w_dev w) (w_out w) (w_files w) (S (w_tick w)).
Definition emit (w : world D) (l : line) : world D :=
  World (w_dev w) (w_out w ++ [l]) (w_files w) (w_tick w).
Definition log_write (w : world D) (fd : Z) (b : list Z) : world D :=
  World (w_dev w) (w_out w) (w_files w ++ [(fd, b)]) (w_tick w).

Definition handle {X} (e : ioE X) (w : world D) : option (X * world D) :=
  match e in ioE X return option (X * world D) with
  | Open path _ => Some (or_fd o path, w)
  | Close _ => Some (tt, w)
  | IoCmd _ c buf =>
      if cmd_fits c buf
      then let '(r, d) := dev_io_cmd c buf (w_dev w) in Some (r, set_dev w d)
      else None
  | SubmitIo _ io buf =>
      if io_fits io buf
      then let '(r, d) := dev_submit_io io buf (w_dev w) in Some (r, set_dev w d)
      else None
  | Pread _ buf len off =>
      if bool_decide (len <= Z.of_nat (length buf))
      then let '(r, d) := dev_pread len off buf (w_dev w) in Some (r, set_dev w d)
      else None
  | Read fd buf len =>
      if bool_decide (len <= Z.of_nat (length buf))
      then let data := take (Z.to_nat len) (or_file o fd (w_tick w)) in
           Some ((Z.of_nat (length data), overlay data buf), tick w)
      else None
  | Write fd buf len =>
      if bool_decide (len <= Z.of_nat (length buf))
      then Some (len, log_write w fd (take (Z.to_nat len) buf)) else None
  | Malloc n => Some ((or_addr o (w_tick w), resize n 0 (or_heap o (w_tick w))), tick w)
  | Gettimeofday => Some (or_clock o (w_tick w), tick w)
  | Rdtsc => Some (or_tsc o (w_tick w), tick w)
  | Rand => Some (or_rand o (w_tick w), tick w)
  | Sleep _ => Some (tt, w)
  | Printf fmt args => Some (tt, emit w (fmt, args))
  | Fault => None
  end.

Fixpoint run {A} (p : prog ioE A) (w : world D) : option (A * world D) :=
  match p with
  | Ret a => Some (a, w)
  | Vis e k => match handle e w with
               | Some (x, w') => run (k x) w'
               | None => None
               end
  end.

(** ** Laws of [run] *)

Lemma run_ret {A} (a : A) w : run (mret a) w = Some (a, w).
Proof. done. Qed.

Lemma run_bind {A B} (p : prog ioE A) (f : A -> prog ioE B) w :
  run (p ≫= f) w = match run p w with Some (a, w') => run (f a) w' | None => None end.
Proof.
  change (p ≫= f) with (prog_bind f p). revert w.
  induction p as [a|X e k IH]; intros w; simpl; [done|].
  destruct (handle e w) as [[x w']|]; [apply IH|done].
Qed.

Lemma run_call {X} (e : ioE X) w : run (call e) w = handle e w.
Proof. simpl. by destruct (handle e w) as [[x w']|]. Qed.

Lemma run_eval {A} (x : option A) w :
  run (eval x) w = match x with Some a => Some (a, w) | None => None end.
Proof. by destruct x. Qed.

(** [wp p w Q]: the program runs without undefined behaviour and ends in [Q]. *)
Definition wp {A} (p : prog ioE A) (w : world D) (Q : A -> world D -> Prop) : Prop :=
  exists a w', run p w = Some (a, w') /\ Q a w'.

Lemma wp_ret {A} (a : A) w (Q : A -> world D -> Prop) : Q a w -> wp (mret a) w Q.
Proof. intros HQ. by exists a, w. Qed.

Lemma wp_Ret {A} (a : A) w (Q : A -> world D -> Prop) : Q a w -> wp (Ret a) w Q.
Proof. intros HQ. by exists a, w. Qed.

Lemma wp_bind {A B} (p : prog ioE A) (f : A -> prog ioE B) w Q :
  wp p w (fun a w' => wp (f a) w' Q) -> wp (p ≫= f) w Q.
Proof.
  intros (a & w' & E & b & w'' & E' & HQ). exists b, w''. by rewrite run_bind, E.
Qed.

(** What holds of every continuation holds of the run, faults included. *)
Lemma run_via {A B} (p : prog ioE A) (f : A -> prog ioE B) w Q
    (R : option (B * world D) -> Prop) :
  wp p w Q -> (forall a w', Q a w' -> R (run (f a) w')) -> R (run (p ≫= f) w).
Proof. intros (a & w' & E & HQ) HR. rewrite run_bind, E. by apply HR. Qed.

Lemma wp_mono {A} (p : prog ioE A) w (Q Q' : A -> world D -> Prop) :
  wp p w Q -> (forall a w', Q a w' -> Q' a w') -> wp p w Q'.
Proof. intros (a & w' & E & HQ) HI. exists a, w'. auto. Qed.

Lemma wp_eval {A} (x : option A) a w Q : x = Some a -> Q a w -> wp (eval x) w Q.
Proof. intros -> HQ. by exists a, w. Qed.

Lemma wp_call {X} (e : ioE X) x w w' Q :
  handle e w = Some (x, w') -> Q x w' -> wp (call e) w Q.
Proof. intros E HQ. exists x, w'. by rewrite run_call. Qed.

Lemma wp_printf fmt args w (Q : unit -> world D -> Prop) :
  Q tt (emit w (fmt, args)) -> wp (call (Printf fmt args)) w Q.
Proof. by apply wp_call. Qed.

Lemma wp_now w (Q : Z -> world D -> Prop) :
  (forall t, Q t (tick w)) -> wp now_us w Q.
Proof.
  intros HQ. unfold now_us. apply wp_bind. eapply wp_call; [done|].
  destruct (or_clock o (w_tick w)) as [s u]. apply wp_Ret, HQ.
Qed.

(** The invariant rule for counted loops. *)
Lemma wp_foldlM {St} (I : nat -> St -> world D -> Prop) (f : nat -> St -> prog ioE St) n a s w :
  I a s w ->
  (forall i s w, (a <= i < a + n)%nat -> I i s w -> wp (f i s) w (I (i + 1)%nat)) ->
  wp (foldlM f (seq a n) s) w (I (a + n)%nat).
Proof.
  revert a s w. induction n as [|n IH]; intros a s w H0 Hs; simpl.
  - apply wp_Ret. by rewrite Nat.add_0_r.
  - apply wp_bind. eapply wp_mono; [apply Hs; [lia|done]|].
    intros s' w' HI. simpl. replace (a + S n)%nat with (a + 1 + n)%nat by lia.
    replace (S a) with (a + 1)%nat by lia.
    apply IH; [done|]. intros i s'' w'' Hi. apply Hs. lia.
Qed.

Lemma wp_for {St} (I : nat -> St -> world D -> Prop) (f : nat -> St -> prog ioE St) n s w :
  I 0%nat s w ->
  (forall i s w, (i < n)%nat -> I i s w -> wp (f i s) w (I (i + 1)%nat)) ->
  wp (for_ n f s) w (I n).
Proof.
  intros H0 Hs. apply (wp_foldlM I f n 0 s w H0). intros i s' w' Hi. apply Hs. lia.
Qed.

(** The same rule, with the consequence the code after the loop needs. *)
Lemma wp_loop {St} (I : nat -> St -> world D -> Prop) (f : nat -> St -> prog ioE St) n s w Q :
  I 0%nat s w ->
  (forall i s w, (i < n)%nat -> I i s w -> wp (f i s) w (I (i + 1)%nat)) ->
  (forall s w, I n s w -> Q s w) ->
  wp (for_ n f s) w Q.
Proof. intros H0 Hs HQ. eapply wp_mono; [by apply (wp_for I)|apply HQ]. Qed.

Lemma wp_for_1 {St} (f : nat -> St -> prog ioE St) s w Q :
  wp (f 0%nat s) w Q -> wp (for_ 1 f s) w Q.
Proof.
  intros Hf. unfold for_. simpl. apply wp_bind. eapply wp_mono; [done|].
  intros a w' HQ. by apply wp_ret.
Qed.

(** The rule for loops that may leave early. *)
Lemma wp_for_exit {St R} (I : nat -> St -> world D -> Prop)
    (f : nat -> St -> prog ioE (St + R)%type) n s w Q :
  I 0%nat s w ->
  (forall i s w, (i < n)%nat -> I i s w -> wp (f i s) w (fun r w' =>
     match r with inl s' => I (i + 1)%nat s' w' | inr x => Q (inr x) w' end)) ->
  (forall s w, I n s w -> Q (inl s) w) ->
  wp (for_exit n f s) w Q.
Proof.
  intros H0 Hs HQ. unfold for_exit.
  assert (Hgen : forall m a s w, (a + m = n)%nat -> I a s w -> wp (foldlM_exit f (seq a m) s) w Q).
  { induction m as [|m IH]; intros a s1 w1 Ha HI; simpl.
    - apply wp_Ret, HQ. by replace n with a by lia.
    - apply wp_bind. eapply wp_mono; [apply Hs; [lia|done]|].
      intros [s2|x] w2 H2; [|by apply wp_Ret].
      apply IH; [lia|]. by rewrite <- Nat.add_1_r. }
  by apply Hgen.
Qed.
End run.

(** Step over a reading of the clock. *)
Ltac wp_time := apply wp_bind, wp_now; intros ?.

(** ** Commands against a reliable device

    The rules the drivers' proofs use: the client side of [IspSpec]. *)
Section device_rules.
Context {D : Type} {prog : isp_prog} `{Reliable D prog} (o : oracle).
Implicit Types (w : world D) (fd : Z) (c : passthru_cmd) (io : user_io).

Abbreviation ssd_w w := (ssd_of (w_dev w)).

Lemma wp_isp_read fd c buf w (Q : Z * Z * list Z -> world D -> Prop) :
  pc_opcode c = 130 -> cmd_fits c buf ->
  (forall p2 p3 p4, exists ret p',
     prog (isp_ctx_of c (ssd_w w) p2 p3 p4) = Some (ret, p') /\
     forall d' buf', ssd_of d' = set_page (ssd_w w) (pc_cdw15 c) p' ->
       length buf' = length buf -> Q (0, u32 ret, buf') (set_dev w d')) ->
  wp o (call (IoCmd fd c buf)) w Q.
Proof.
  intros Ho Hfit HQ. destruct (isp_params c (w_dev w)) as [[p2 p3] p4] eqn:Ep.
  destruct (HQ p2 p3 p4) as (ret & p' & Eprog & HQ').
  destruct (dev_io_cmd c buf (w_dev w)) as [[[err res] buf'] d'] eqn:Ed.
  pose proof (isp_reliable c buf (w_dev w) p2 p3 p4 Ho Ep ltac:(eauto)) as Herr.
  rewrite Ed in Herr. simpl in Herr. subst err.
  destruct (isp_read_law c buf _ _ _ _ _ _ _ _ Ho Ed Ep) as (Hl & Hok).
  destruct (Hok eq_refl) as (ret2 & p2' & E2 & -> & Hs). simplify_eq.
  eapply wp_call; [simpl; rewrite (Is_true_true_1 _ Hfit), Ed; done|]. auto.
Qed.

Lemma wp_page_read fd c buf w (Q : Z * Z * list Z -> world D -> Prop) :
  pc_opcode c = 132 -> cmd_fits c buf ->
  (forall d' res, ssd_of d' = ssd_w w ->
     Q (0, res, overlay (page (ssd_w w) (pc_cdw15 c)) buf) (set_dev w d')) ->
  wp o (call (IoCmd fd c buf)) w Q.
Proof.
  intros Ho Hfit HQ.
  destruct (dev_io_cmd c buf (w_dev w)) as [[[err res] buf'] d'] eqn:Ed.
  pose proof (cmd_reliable c buf (w_dev w) ltac:(lia)) as Herr.
  rewrite Ed in Herr. simpl in Herr. subst err.
  destruct (page_read_law c buf _ _ _ _ _ Ho Ed) as (Hl & Hb).
  eapply wp_call; [simpl; rewrite (Is_true_true_1 _ Hfit), Ed; done|].
  destruct (Hb eq_refl) as [Hs ->]. auto.
Qed.

Lemma wp_page_clear fd c buf w (Q : Z * Z * list Z -> world D -> Prop) :
  pc_opcode c = 133 -> cmd_fits c buf ->
  (forall d' res buf', ssd_of d' = set_page (ssd_w w) (pc_cdw15 c) (zeros PGSIZE) ->
     Q (0, res, buf') (set_dev w d')) ->
  wp o (call (IoCmd fd c buf)) w Q.
Proof.
  intros Ho Hfit HQ.
  destruct (dev_io_cmd c buf (w_dev w)) as [[[err res] buf'] d'] eqn:Ed.
  pose proof (cmd_reliable c buf (w_dev w) ltac:(lia)) as Herr.
  rewrite Ed in Herr. simpl in Herr. subst err.
  destruct (page_clear_law c buf _ _ _ _ _ Ho Ed) as (Hl & Hs).
  eapply wp_call; [simpl; rewrite (Is_true_true_1 _ Hfit), Ed; done|]. auto.
Qed.

Lemma wp_io_read fd io buf w (Q : Z * list Z -> world D -> Prop) :
  io_opcode io = 2 -> io_fits io buf ->
  (forall d', ssd_of d' = ssd_w w ->
     Q (0, overlay (read_blocks (ssd_w w) (io_slba io) (io_len io)) buf) (set_dev w d')) ->
  wp o (call (SubmitIo fd io buf)) w Q.
Proof.
  intros Ho Hfit HQ.
  destruct (dev_submit_io io buf (w_dev w)) as [[err buf'] d'] eqn:Ed.
  pose proof (io_reliable io buf (w_dev w)) as Herr.
  rewrite Ed in Herr. simpl in Herr. subst err.
  destruct (io_read_law io buf _ _ _ _ Ho Ed) as (Hl & Hb).
  eapply wp_call; [simpl; rewrite (Is_true_true_1 _ Hfit), Ed; done|].
  destruct (Hb eq_refl) as [Hs ->]. auto.
Qed.

Lemma wp_io_write fd io buf w (Q : Z * list Z -> world D -> Prop) :
  io_opcode io = 1 -> io_fits io buf ->
  (forall d', ssd_of d' = write_blocks (ssd_w w) (io_slba io) (io_len io) buf ->
     Q (0, buf) (set_dev w d')) ->
  wp o (call (SubmitIo fd io buf)) w Q.
Proof.
  intros Ho Hfit HQ.
  destruct (dev_submit_io io buf (w_dev w)) as [[err buf'] d'] eqn:Ed.
  pose proof (io_reliable io buf (w_dev w)) as Herr.
  rewrite Ed in Herr. simpl in Herr. subst err.
  destruct (io_write_law io buf _ _ _ _ Ho Ed) as (-> & Hs).
  eapply wp_call; [simpl; rewrite (Is_true_true_1 _ Hfit), Ed; done|]. auto.
Qed.

Lemma wp_pread fd buf len off w (Q : Z * list Z -> world D -> Prop) :
  len <= Z.of_nat (length buf) -> off `mod` 4096 = 0 -> len `mod` 4096 = 0 ->
  (forall d', ssd_of d' = ssd_w w ->
     Q (len, overlay (read_blocks (ssd_w w) (off / 4096) (Z.to_nat (len / 4096))) buf)
       (set_dev w d')) ->
  wp o (call (Pread fd buf len off)) w Q.
Proof.
  intros Hl Ho Hm HQ.
  destruct (dev_pread len off buf (w_dev w)) as [[n buf'] d'] eqn:Ed.
  pose proof (pread_reliable len off buf (w_dev w)) as Hn.
  rewrite Ed in Hn. simpl in Hn. subst n.
  destruct (pread_law len off buf _ _ _ _ Ed) as (_ & Hs & Hb).
  eapply wp_call; [simpl; rewrite bool_decide_true, Ed by done; done|].
  rewrite Hb by done. auto.
Qed.

Lemma wp_stats fd c buf w (Q : Z * Z * list Z -> world D -> Prop) :
  pc_opcode c = 134 \/ pc_opcode c = 135 -> cmd_fits c buf ->
  (forall d' r, ssd_of d' = ssd_w w -> Q r (set_dev w d')) ->
  wp o (call (IoCmd fd c buf)) w Q.
Proof.
  intros Ho Hfit HQ.
  destruct (dev_io_cmd c buf (w_dev w)) as [[[err res] buf'] d'] eqn:Ed.
  pose proof (cmd_reliable c buf (w_dev w) ltac:(lia)) as Herr.
  rewrite Ed in Herr. simpl in Herr. subst err.
  pose proof (stats_law c buf _ _ _ _ _ Ho Ed eq_refl) as Hs.
  eapply wp_call; [simpl; rewrite (Is_true_true_1 _ Hfit), Ed; done|]. auto.
Qed.
End device_rules.
