(* ===== verification/NpsumIsp.v ===== *)
(** * The matrix-sum drivers that offload to the SSD (src/npsum/ISP_*.c)

    The six sequential offloading drivers differ in the iteration count, the
    axis parameter, the number of blocks per request, whether they print each
    result, sleep between rounds and report the average time.  The shared
    bodies take those as arguments; one definition per driver instantiates
    them. *)

From S2P Require Import Prelude Mem Ebpf Nvme Prog.

Open Scope string_scope.
Open Scope list_scope.
Open Scope Z_scope.

Definition NVME_PATH : string := "/dev/nvme0n1".
Definition MATRIX_SIZE : Z := 256 * 1024.
Definition MATRIX_ELEMENTS : Z := MATRIX_SIZE / 4.
Definition NUM_MATRIX : nat := Z.to_nat 1024.

Definition cmd_stats : passthru_cmd := mk_cmd 0x86 0 0 0 0 0 0 0 0 (-1).
Definition cmd_stats_clear : passthru_cmd := mk_cmd 0x87 0 0 0 0 0 0 0 0 (-1).

(** [if (c) p;] *)
Definition when (c : bool) (p : prog ioE unit) : prog ioE unit :=
  if c then p else mret tt.

Definition report_avg (on : bool) (time_acc : Z) (it : nat) : prog ioE unit :=
  when on (call (Printf "---- Test end ----\n" []) ;;
           call (Printf "Average time : %.2f ms\n" [AQuot time_acc (1000 * Z.of_nat it)])).

(** ** Sum of all elements: ISP_noaxis.c, ISP_debug.c, ISP_test.c *)

Section noaxis.
Variables (nlb : Z) (print_sum : bool).

(** The request for matrix [i]. *)
Definition noaxis_cmd (i : nat) : passthru_cmd :=
  mk_cmd 0x82 3 0 0 0 MATRIX_SIZE (1024 + Z.of_nat i * 64) (nlb - 1) 0 (-1).

Definition noaxis_matrix (dev : Z) (i : nat) (_ : unit) : prog ioE unit :=
  '(err, result, _) ← call (IoCmd dev (noaxis_cmd i) []);
  if decide (err <> 0) then
    call (Printf "iteration %d: err %d\n" [AInt (Z.of_nat i); AInt err])
  else
    let sum := i32 result in
    when (bool_decide (sum < 30000000) || bool_decide (sum > 40000000))
      (call (Printf "Warning: sum out of range: %d\n" [AInt sum])) ;;
    when print_sum (call (Printf "%d\n" [AInt sum])).

Definition noaxis_main (IT_TIME NUM : nat) (sleep report : bool) (time_acc0 : Z)
  : prog ioE Z :=
  dev ← call (Open NVME_PATH ["O_RDWR"]);
  call (IoCmd dev cmd_stats_clear []) ;;
  time_acc ← for_ IT_TIME (fun t time_acc =>
    start ← now_us;
    for_ NUM (noaxis_matrix dev) tt ;;
    end_ ← now_us;
    call (IoCmd dev cmd_stats []) ;;
    call (IoCmd dev cmd_stats_clear []) ;;
    when sleep (call (Sleep 1)) ;;
    mret (time_acc + (end_ - start))) time_acc0;
  report_avg report time_acc IT_TIME ;;
  mret 0.
End noaxis.

Definition ISP_noaxis_main : prog ioE Z :=
  noaxis_main 64 false 32 NUM_MATRIX true true 0.
(** [time_acc] is not initialised in the debug and test variants. *)
Definition ISP_debug_main (time_acc0 : Z) : prog ioE Z :=
  noaxis_main 64 true 1 NUM_MATRIX false false time_acc0.
Definition ISP_test_main (time_acc0 : Z) : prog ioE Z :=
  noaxis_main 32 false 1 NUM_MATRIX false true time_acc0.

(** ** Sum along an axis: ISP_axis0.c, ISP_axis1.c and their debug variants *)

Section axis.
Variables (axis : Z) (print_row : bool).

Definition axis_cmd (i : nat) : passthru_cmd :=
  mk_cmd 0x82 axis 0 0 0 0 (1024 + Z.of_nat i * 64) (64 - 1) 0 (-1).
Definition page_read_cmd (addr : Z) : passthru_cmd :=
  mk_cmd 0x84 0 0 0 addr 4096 0 0 0 (-1).
Definition cmd_clear : passthru_cmd := mk_cmd 0x85 0 0 0 0 0 0 0 0 (-1).

(** Prints the first 64 integers of the map page. *)
Definition print_row64 (map_page : list Z) : prog ioE unit :=
  for_ 64 (fun idx _ => v ← eval (ld32 map_page idx);
                        call (Printf "%d " [AInt v])) tt ;;
  call (Printf "\n" []).

(** One matrix; the state is the contents of [map_page].  Each error path is
    a [continue]. *)
Definition axis_matrix (dev addr : Z) (i : nat) (map_page : list Z) : prog ioE (list Z) :=
  '(err, _, _) ← call (IoCmd dev (axis_cmd i) []);
  if decide (err <> 0) then
    call (Printf "ISP request: err %d\n" [AInt err]) ;; mret map_page
  else
    '(err, _, map_page) ← call (IoCmd dev (page_read_cmd addr) map_page);
    if decide (err <> 0) then
      call (Printf "Map page read: err %d\n" [AInt err]) ;; mret map_page
    else
      when print_row (print_row64 map_page) ;;
      '(err, _, _) ← call (IoCmd dev cmd_clear []);
      when (bool_decide (err <> 0))
        (call (Printf "Map page clear: err %d\n" [AInt err])) ;;
      mret map_page.

Definition axis_main (IT_TIME NUM : nat) (report : bool) (time_acc0 : Z) : prog ioE Z :=
  dev ← call (Open NVME_PATH ["O_RDWR"]);
  '(addr, map_page) ← call (Malloc PGSIZE);
  call (IoCmd dev cmd_stats_clear []) ;;
  '(time_acc, _) ← for_ IT_TIME (fun t '(time_acc, map_page) =>
    start ← now_us;
    let map_page := overlay (zeros PGSIZE) map_page in
    map_page ← for_ NUM (axis_matrix dev addr) map_page;
    end_ ← now_us;
    call (IoCmd dev cmd_stats []) ;;
    call (IoCmd dev cmd_stats_clear []) ;;
    call (Sleep 1) ;;
    mret (time_acc + (end_ - start), map_page)) (time_acc0, map_page);
  report_avg report time_acc IT_TIME ;;
  mret 0.
End axis.

(** [time_acc] is not initialised in ISP_axis0.c and the debug variants. *)
Definition ISP_axis0_main (time_acc0 : Z) : prog ioE Z :=
  axis_main 0 false 32 NUM_MATRIX true time_acc0.
Definition ISP_axis1_main : prog ioE Z :=
  axis_main 1 false 32 NUM_MATRIX true 0.
Definition ISP_debug_axis0_main (time_acc0 : Z) : prog ioE Z :=
  axis_main 0 true 1 NUM_MATRIX false time_acc0.
Definition ISP_debug_axis1_main (time_acc0 : Z) : prog ioE Z :=
  axis_main 1 true 1 NUM_MATRIX false time_acc0.
