(* ===== verification/NpsumHost.v ===== *)
(** * The matrix-sum drivers that compute on the host (src/npsum/host_*.c),
      the matrix generator and the reference answer (src/npsum/ans/axis0.c)

    The host drivers read each matrix with [NVME_IOCTL_SUBMIT_IO] and sum it
    in host memory, timing the two phases separately. *)

From stdpp Require Import pretty.
From S2P Require Import Prelude Mem Ebpf Nvme Prog NpsumIsp.

Open Scope string_scope.
Open Scope list_scope.
Open Scope Z_scope.

(** [time_acc], [read_acc], [comp_acc]. *)
Record host_times := HostTimes { time_acc : Z; read_acc : Z; comp_acc : Z }.

Definition matrix_read_io (addr : Z) (i : nat) : user_io :=
  mk_io 0x02 (64 - 1) addr (1024 + Z.of_nat i * 64).

Definition report_host (on : bool) (h : host_times) (it : nat) : prog ioE unit :=
  when on (call (Printf "---- Test end ----\n" []) ;;
           call (Printf "Average time : %.2f ms\n" [AQuot (time_acc h) (1000 * Z.of_nat it)]) ;;
           call (Printf "Average read time : %.2f ms\n" [AQuot (read_acc h) (1000 * Z.of_nat it)]) ;;
           call (Printf "Average comp time : %.2f ms\n" [AQuot (comp_acc h) (1000 * Z.of_nat it)])).

(** The frame every host driver shares: [IT] rounds over [NUM] matrices, each
    matrix read into [buf] and handed to [compute] with the driver's own
    state [st]; a failing read skips the matrix. *)
Section frame.
Context {St : Type}.
Variables (reset : St -> St) (compute : list Z -> St -> prog ioE St)
          (finish : St -> prog ioE St) (sleep report : bool).

Definition host_matrix (dev addr : Z) (i : nat)
    (s : list Z * St * Z * Z) : prog ioE (list Z * St * Z * Z) :=
  let '(buf, st, read_time, comp_time) := s in
  let st := reset st in
  start_read ← now_us;
  '(err, buf) ← call (SubmitIo dev (matrix_read_io addr i) buf);
  end_read ← now_us;
  let read_time := read_time + (end_read - start_read) in
  if decide (err <> 0) then
    call (Printf "iteration %d: err %d\n" [AInt (Z.of_nat i); AInt err]) ;;
    mret (buf, st, read_time, comp_time)
  else
    start_comp ← now_us;
    st ← compute buf st;
    end_comp ← now_us;
    st ← finish st;
    mret (buf, st, read_time, comp_time + (end_comp - start_comp)).

Definition host_rounds (IT_TIME NUM : nat) (dev addr : Z) (buf : list Z) (st : St)
    (time_acc0 : Z) : prog ioE Z :=
  '(_, _, times) ← for_ IT_TIME (fun t '(buf, st, h) =>
    start ← now_us;
    '(buf, st, read_time, comp_time) ← for_ NUM (host_matrix dev addr) (buf, st, 0, 0);
    end_ ← now_us;
    when sleep (call (Sleep 1)) ;;
    mret (buf, st, HostTimes (time_acc h + (end_ - start)) (read_acc h + read_time)
                     (comp_acc h + comp_time))) (buf, st, HostTimes time_acc0 0 0);
  report_host report times IT_TIME ;;
  mret 0.
End frame.

(** ** Sum of all elements: host_noaxis.c, host_debug.c *)

(** The state is [sum], which each iteration declares anew. *)
Definition sum_compute (buf : list Z) (sum : Z) : prog ioE Z :=
  eval (sum_loop buf (Z.to_nat MATRIX_ELEMENTS) sum).

Definition sum_finish (print_sum : bool) (sum : Z) : prog ioE Z :=
  when (bool_decide (sum < 33000000) || bool_decide (sum > 34000000))
    (call (Printf "Warning: sum out of range: %d\n" [AInt sum])) ;;
  when print_sum (call (Printf "%d\n" [AInt sum])) ;;
  mret sum.

(** [posix_memalign] and [malloc] both hand out fresh memory. *)
Definition host_noaxis_main : prog ioE Z :=
  dev ← call (Open NVME_PATH ["O_RDWR"]);
  '(addr, buf) ← call (Malloc (Z.to_nat MATRIX_SIZE));
  host_rounds (fun _ => 0) sum_compute (sum_finish false) true true 16 NUM_MATRIX dev addr buf 0 0.

Definition host_debug_main (time_acc0 : Z) : prog ioE Z :=
  dev ← call (Open NVME_PATH ["O_RDWR"]);
  '(addr, buf) ← call (Malloc (Z.to_nat MATRIX_SIZE));
  host_rounds (fun _ => 0) sum_compute (sum_finish true) false false 1 NUM_MATRIX dev addr buf 0
    time_acc0.

(** ** Sum along an axis: host_axis0.c, host_axis1.c, host_debug_axis0.c *)

(** [for idx < rows, for jdx < cols: result[jdx] += buf[idx*cols + jdx]]; the
    state is the contents of [result]. *)
Definition axis_compute (rows cols : nat) (buf result : list Z) : prog ioE (list Z) :=
  eval (for_ rows (fun idx r => acc_row buf (idx * cols) 0 cols r) result).

(** [buf_mem] and [result_mem] are allocated but unused; [result] comes from
    [malloc] and is never cleared. *)
Definition host_axis_main (rows cols : nat) : prog ioE Z :=
  dev ← call (Open NVME_PATH ["O_RDWR"]);
  call (Malloc (Z.to_nat (256 * 4096))) ;;
  call (Malloc PGSIZE) ;;
  '(addr, buf) ← call (Malloc (Z.to_nat MATRIX_SIZE));
  '(_, result) ← call (Malloc (Z.to_nat (4 * 1024)));
  host_rounds id (axis_compute rows cols) mret true true 32 NUM_MATRIX dev addr buf result 0.

Definition host_axis0_main : prog ioE Z := host_axis_main (Z.to_nat 64) (Z.to_nat 1024).
Definition host_axis1_main : prog ioE Z := host_axis_main (Z.to_nat 1024) (Z.to_nat 64).

Definition axis_finish (result : list Z) : prog ioE (list Z) :=
  print_row64 result ;; mret result.

Definition host_debug_axis0_main (time_acc0 : Z) : prog ioE Z :=
  dev ← call (Open NVME_PATH ["O_RDWR"]);
  '(addr, buf) ← call (Malloc (Z.to_nat MATRIX_SIZE));
  '(_, result) ← call (Malloc (Z.to_nat (4 * 1024)));
  let result := overlay (zeros PGSIZE) result in
  host_rounds (overlay (zeros PGSIZE)) (axis_compute (Z.to_nat 64) (Z.to_nat 1024))
    axis_finish true false 1 NUM_MATRIX dev addr buf result time_acc0.

(** ** ans/axis0.c: the same column sums for a matrix on standard input *)
Definition ans_axis0_main : prog ioE Z :=
  '(_, buf) ← call (Malloc (Z.to_nat (256 * 1024)));
  '(_, result) ← call (Malloc PGSIZE);
  let result := overlay (zeros PGSIZE) result in
  '(_, buf) ← call (Read 0 buf (256 * 1024));
  result ← axis_compute (Z.to_nat 64) (Z.to_nat 1024) buf result;
  print_row64 result ;;
  mret 0.

(** ** generate_random_matrix.c *)

Definition RANDOM_RANGE : Z := 1024.

(** [buf[i] = rand() % RANDOM_RANGE; sum += buf[i]]. *)
Definition gen_element (i : nat) (s : list Z * Z) : prog ioE (list Z * Z) :=
  let '(buf, sum) := s in
  r ← call Rand;
  buf ← eval (st32 buf i (Z.rem r RANDOM_RANGE));
  v ← eval (ld32 buf i);
  mret (buf, i32 (sum + v)).

(** [sprintf(number, %d, it); strcat(filename, number); strcat(filename, .txt)]. *)
Definition matrix_filename (it : nat) : string :=
  "./matrices/matrix" +:+ pretty (Z.of_nat it) +:+ ".txt".

(** A copy of each matrix is kept in a file; [sum] is computed but not used. *)
Definition gen_matrix (dev addr : Z) (nelem : nat) (it : nat) (buf : list Z) : prog ioE (list Z) :=
  '(buf, sum) ← for_ nelem gen_element (buf, 0);
  fd ← call (Open (matrix_filename it) ["O_CREAT"; "O_RDWR"]);
  call (Write fd buf MATRIX_SIZE) ;;
  call (Close fd) ;;
  '(err, buf) ← call (SubmitIo dev (mk_io 0x01 63 addr (1024 + 64 * Z.of_nat it)) buf);
  when (bool_decide (err <> 0))
    (call (Printf "error %d occured while writing matrix %d\n" [AInt err; AInt (Z.of_nat it)])) ;;
  mret buf.

Definition generate_random_matrix_gen (NUM : nat) : prog ioE Z :=
  '(addr, buf) ← call (Malloc (Z.to_nat MATRIX_SIZE));
  dev ← call (Open NVME_PATH ["O_RDWR"]);
  for_ NUM (gen_matrix dev addr (Z.to_nat MATRIX_ELEMENTS)) buf ;;
  mret 0.

Definition generate_random_matrix_main : prog ioE Z := generate_random_matrix_gen NUM_MATRIX.
