(* ===== verification/NpsumProofs.v ===== *)
(** * The matrix-sum drivers compute the sums, on the SSD and on the host

    [matrix_sum] and [matrix_cols] are the specification, read off the blocks
    of the SSD.  Each driver is proved, on any reliable device, to run without
    a memory error and to print exactly those results; the equivalence of an
    offloading driver with its host counterpart follows. *)

From S2P Require Import Prelude Mem Ebpf Nvme Prog NpsumIsp NpsumHost.

Open Scope string_scope.
Open Scope list_scope.
Open Scope Z_scope.

(** ** Specification *)

(** Matrix [i] of the data set: 64 blocks starting at block [1024 + 64 i]. *)
Definition matrix (s : ssd) (i : nat) : list Z :=
  read_blocks s (1024 + Z.of_nat i * 64) (Z.to_nat 64).

Definition matrix_sum (s : ssd) (i : nat) : Z :=
  i32 (zsum (Z.to_nat MATRIX_ELEMENTS) (fun k => nth k (ints (matrix s i)) 0)).

(** The column sums of matrix [i] as [h] rows of [w]. *)
Definition matrix_col (s : ssd) (i h w k : nat) : Z := i32 (col_sum (ints (matrix s i)) h w k).

(** Two SSDs with the same blocks; what the map pages hold may differ. *)
Record same_blocks (s s' : ssd) : Prop := SameBlocks {
  blocks_eq : forall l, block s l = block s' l
}.

#[export] Instance same_blocks_equiv : Equivalence same_blocks.
Proof.
  split; [done|intros s s' [H]; by split|intros s s' s'' [H] [H']; split].
  intros l. by rewrite H.
Qed.

#[export] Instance read_blocks_proper : Proper (same_blocks ==> eq ==> eq ==> eq) read_blocks.
Proof. intros s s' [H] ?? -> ?? ->. apply read_blocks_ext. auto. Qed.

#[export] Instance matrix_proper : Proper (same_blocks ==> eq ==> eq) matrix.
Proof. intros s s' H ?? ->. by apply read_blocks_proper. Qed.

#[export] Instance matrix_sum_proper : Proper (same_blocks ==> eq ==> eq) matrix_sum.
Proof.
  intros s s' H x y ->. unfold matrix_sum.
  assert (E : matrix s y = matrix s' y) by (by apply matrix_proper). rewrite E. reflexivity.
Qed.

#[export] Instance matrix_col_proper :
  Proper (same_blocks ==> eq ==> eq ==> eq ==> eq ==> eq) matrix_col.
Proof.
  intros s s' H x y -> ?? -> ?? -> ?? ->. unfold matrix_col.
  assert (E : matrix s y = matrix s' y) by (by apply matrix_proper). rewrite E. reflexivity.
Qed.

Lemma same_blocks_set_page s n p : same_blocks (set_page s n p) s.
Proof. done. Qed.

Lemma length_matrix s i : length (ints (matrix s i)) = Z.to_nat MATRIX_ELEMENTS.
Proof.
  unfold matrix. rewrite length_ints, length_read_blocks, PGSIZE_eq.
  change MATRIX_ELEMENTS with 65536. apply Nat2Z.inj.
  rewrite Nat2Z.inj_div, Nat2Z.inj_mul, !Z2Nat.id by lia. reflexivity.
Qed.

(** The printed results: the lines in the result format. *)
Definition results (out : list line) : list (list arg) :=
  snd <$> filter (fun l => l.1 = "%d\n") out.

Lemma results_app a b : results (a ++ b) = results a ++ results b.
Proof. unfold results. by rewrite filter_app, fmap_app. Qed.

Definition sum_results (s : ssd) (n : nat) : list (list arg) :=
  (fun i => [AInt (matrix_sum s i)]) <$> seq 0 n.

Lemma sum_results_S s n : sum_results s (n + 1) = sum_results s n ++ [[AInt (matrix_sum s n)]].
Proof. unfold sum_results. by rewrite Nat.add_1_r, seq_S, fmap_app. Qed.

(** ** The offloaded sum *)

Lemma u32_block_addr i : (i < NUM_MATRIX)%nat ->
  u32 (1024 + Z.of_nat i * 64) = 1024 + Z.of_nat i * 64.
Proof. intros Hi. apply wrapu_small. unfold NUM_MATRIX in Hi. lia. Qed.

Section isp.
Context {D : Type} `{Reliable D Npsum.npsum} (o : oracle).
Implicit Types (w : world D).

Lemma npsum_full_sum c s p2 p3 p4 i :
  pc_cdw2 c = 3 -> pc_cdw10 c = 1024 + Z.of_nat i * 64 -> cmd_len c = Z.to_nat 64 ->
  Npsum.npsum (isp_ctx_of c s p2 p3 p4) = Some (matrix_sum s i, page s (pc_cdw15 c)).
Proof.
  intros H2 H10 Hl. unfold Npsum.npsum, Npsum.npsum_gen, isp_ctx_of.
  cbn [param0 data map_page].
  rewrite H2, H10, Hl. change (i32 (u32 3)) with 3.
  rewrite !decide_False by done. fold (matrix s i). unfold Npsum.NUM_ELEMENTS.
  replace (Z.to_nat 64 * Z.to_nat 1024)%nat with (Z.to_nat MATRIX_ELEMENTS)
    by (change MATRIX_ELEMENTS with 65536; lia).
  rewrite sum_loop_spec; [done|by rewrite length_matrix|done].
Qed.

Lemma noaxis_matrix_wp fd i s w :
  (i < NUM_MATRIX)%nat -> same_blocks (ssd_of (w_dev w)) s ->
  wp o (noaxis_matrix 64 true fd i tt) w (fun _ w' =>
    same_blocks (ssd_of (w_dev w')) s /\
    results (w_out w') = results (w_out w) ++ [[AInt (matrix_sum s i)]]).
Proof.
  intros Hi Hs. unfold noaxis_matrix. apply wp_bind.
  apply wp_isp_read; [done|done|]. intros p2 p3 p4. do 2 eexists. split.
  { apply (npsum_full_sum _ _ _ _ _ i); [done|apply u32_block_addr; done|done]. }
  intros d' buf' Hd _. rewrite decide_False by tauto.
  assert (Hs' : same_blocks (ssd_of d') s).
  { rewrite Hd. etransitivity; [apply same_blocks_set_page|done]. }
  rewrite i32_u32, (matrix_sum_proper _ _ Hs i i eq_refl).
  assert (E : i32 (matrix_sum s i) = matrix_sum s i) by apply i32_idemp.
  rewrite E. apply wp_bind. unfold when at 1.
  destruct (_ || _); [apply wp_printf|apply wp_ret]; apply wp_printf; simpl;
    (split; [done|]); rewrite !results_app, ?app_nil_r; done.
Qed.

(** One round prints the sums, in order, and leaves the blocks alone. *)
Lemma noaxis_main_wp (NUM : nat) sleep s w t0 :
  (NUM <= NUM_MATRIX)%nat -> same_blocks (ssd_of (w_dev w)) s ->
  wp o (noaxis_main 64 true 1 NUM sleep false t0) w (fun r w' =>
    r = 0 /\ results (w_out w') = results (w_out w) ++ sum_results s NUM).
Proof.
  intros HN Hs. unfold noaxis_main. apply wp_bind. eapply wp_call; [done|].
  apply wp_bind. apply wp_stats; [by right|done|]. intros d0 r0 Hd0.
  apply wp_bind. apply wp_for_1. wp_time. apply wp_bind.
  apply (wp_loop o (fun i _ w' => same_blocks (ssd_of (w_dev w')) s /\
        results (w_out w') = results (w_out w) ++ sum_results s i)).
  - simpl. by rewrite Hd0, app_nil_r.
  - intros j [] w2 Hj [Hs2 Ho2].
    eapply wp_mono; [apply (noaxis_matrix_wp _ j s); [lia|done]|].
    simpl. intros _ w3 [Hs3 Ho3]. split; [done|].
    by rewrite Ho3, Ho2, sum_results_S, app_assoc.
  - intros _ w2 [Hs2 Ho2]. wp_time.
    apply wp_bind. apply wp_stats; [by left|done|]. intros d1 r1 Hd1.
    apply wp_bind. apply wp_stats; [by right|done|]. intros d2 r2 Hd2.
    apply wp_bind. destruct sleep; [eapply wp_call; [done|]|apply wp_ret];
      apply wp_ret; apply wp_bind, wp_ret, wp_ret; done.
Qed.
End isp.

(** ** The sum on the host *)

Section host.
Context {D : Type} {prog0 : isp_prog} `{Reliable D prog0} (o : oracle).
Implicit Types (w : world D).

Lemma wp_matrix_read fd addr i buf w (Q : Z * list Z -> world D -> Prop) :
  (i < NUM_MATRIX)%nat -> length buf = Z.to_nat MATRIX_SIZE ->
  (forall d', ssd_of d' = ssd_of (w_dev w) ->
     Q (0, matrix (ssd_of (w_dev w)) i) (set_dev w d')) ->
  wp o (call (SubmitIo fd (matrix_read_io addr i) buf)) w Q.
Proof.
  intros Hi Hl HQ. apply wp_io_read; [done| |].
  - apply bool_decide_pack. change (io_nblocks _) with 63. rewrite Hl.
    rewrite Z2Nat.id; done.
  - intros d' Hd. change (io_len _) with (Z.to_nat 64).
    change (io_slba _) with (u64 (1024 + Z.of_nat i * 64)).
    rewrite wrapu_small by (unfold NUM_MATRIX in Hi; lia).
    fold (matrix (ssd_of (w_dev w)) i). rewrite overlay_full; [by apply HQ|].
    unfold matrix. rewrite length_read_blocks, PGSIZE_eq, Hl.
    change MATRIX_SIZE with 262144. lia.
Qed.

(** A round of any host driver: [reset], read, [compute], [finish] per
    matrix.  [Inv i st out] relates the driver's state and output before
    matrix [i]. *)
Lemma host_rounds_wp {St} reset compute finish sleep (NUM : nat) fd addr buf (st : St) t0 s w
    (Inv : nat -> St -> list line -> Prop) :
  (NUM <= NUM_MATRIX)%nat -> length buf = Z.to_nat MATRIX_SIZE ->
  same_blocks (ssd_of (w_dev w)) s -> Inv 0%nat st (w_out w) ->
  (forall i st w1, (i < NUM)%nat -> Inv i st (w_out w1) ->
     wp o (compute (matrix s i) (reset st)) w1 (fun st1 w2 =>
       w2 = w1 /\
       forall w3, w_out w3 = w_out w1 ->
         wp o (finish st1) w3 (fun st2 w4 =>
           w_dev w4 = w_dev w3 /\ Inv (i + 1)%nat st2 (w_out w4)))) ->
  wp o (host_rounds reset compute finish sleep false 1 NUM fd addr buf st t0) w
    (fun r w' => r = 0 /\ exists st', Inv NUM st' (w_out w')).
Proof.
  intros HN Hl Hs HI0 Hstep. unfold host_rounds. apply wp_bind. apply wp_for_1.
  wp_time. apply wp_bind.
  apply (wp_loop o (fun i x w' => let '(b, st', _, _) := x in
    length b = Z.to_nat MATRIX_SIZE /\
    same_blocks (ssd_of (w_dev w')) s /\ Inv i st' (w_out w'))).
  - done.
  - intros i [[[b st'] rt] ct] w1 Hi (Hb & Hs1 & HI). unfold host_matrix.
    wp_time. apply wp_bind. apply wp_matrix_read; [lia|done|].
    intros d1 Hd1. simpl in Hd1.
    wp_time. rewrite decide_False by tauto. wp_time.
    change (w_dev (tick w1)) with (w_dev w1) in *.
    rewrite (matrix_proper _ _ Hs1 i i eq_refl).
    apply wp_bind. eapply wp_mono; [apply (Hstep i st'); done|]. simpl.
    intros st1 w2 [-> Hf]. wp_time. apply wp_bind.
    eapply wp_mono; [apply Hf; done|]. simpl. intros st2 w4 [Hd HI4].
    apply wp_ret. split_and!; [|by rewrite Hd, Hd1|done].
    unfold matrix. rewrite length_read_blocks, PGSIZE_eq. change MATRIX_SIZE with 262144. lia.
  - intros [[[b st'] rt] ct] w2 (Hb & Hs2 & HI). wp_time. apply wp_bind.
    destruct sleep; [eapply wp_call; [done|]|apply wp_ret]; apply wp_ret;
      apply wp_bind, wp_ret, wp_ret; eauto.
Qed.

Lemma host_debug_wp s w t0 :
  same_blocks (ssd_of (w_dev w)) s ->
  wp o (host_debug_main t0) w (fun r w' =>
    r = 0 /\ results (w_out w') = results (w_out w) ++ sum_results s NUM_MATRIX).
Proof.
  intros Hs. unfold host_debug_main. apply wp_bind. eapply wp_call; [done|].
  apply wp_bind. eapply wp_call; [done|].
  eapply wp_mono.
  - apply (host_rounds_wp _ _ _ _ _ _ _ _ _ _ s _ (fun i _ out =>
      results out = results (w_out w) ++ sum_results s i)); try done.
    + apply length_resize.
    + simpl. by rewrite app_nil_r.
    + intros i st w1 Hi HI. unfold sum_compute. eapply wp_eval.
      { apply sum_loop_spec; [by rewrite length_matrix|done]. }
      split; [done|]. intros w3 Ho. unfold sum_finish. rewrite Z.add_0_l.
      fold (matrix_sum s i). apply wp_bind. unfold when at 1.
      destruct (_ || _); [apply wp_printf|apply wp_ret];
        apply wp_bind, wp_printf, wp_ret; simpl; (split; [done|]);
        by rewrite !results_app, Ho, HI, ?app_nil_r, sum_results_S, app_assoc.
  - by intros r w' (-> & st' & HI).
Qed.
End host.

(** ** Sums along an axis *)

(** What a debug driver prints for matrix [i] seen as [h] rows of [w]: the
    first 64 column sums. *)
Definition row_lines (s : ssd) (h w i : nat) : list line :=
  ((fun k => ("%d ", [AInt (matrix_col s i h w k)])) <$> seq 0 64) ++ [("\n", [])].

Definition all_rows (s : ssd) (h w n : nat) : list line := seq 0 n ≫= row_lines s h w.

Lemma all_rows_S s h w n : all_rows s h w (n + 1) = all_rows s h w n ++ row_lines s h w n.
Proof.
  unfold all_rows. rewrite Nat.add_1_r, seq_S, bind_app. f_equal.
Qed.

(** The shapes of the two axes. *)
Definition axis_shape (axis : Z) (h w : nat) : Prop :=
  (axis = 0 /\ h = Z.to_nat 64 /\ w = Z.to_nat 1024) \/
  (axis = 1 /\ h = Z.to_nat 1024 /\ w = Z.to_nat 64).

Lemma axis_shape_size axis h w :
  axis_shape axis h w ->
  (h * w = Z.to_nat MATRIX_ELEMENTS)%nat /\ (64 <= w <= Z.to_nat 1024)%nat.
Proof.
  change MATRIX_ELEMENTS with 65536. intros [(_ & -> & ->)|(_ & -> & ->)]; lia.
Qed.

Lemma length_ints_page m : length m = PGSIZE -> length (ints m) = Z.to_nat 1024.
Proof.
  intros E. rewrite length_ints, E, PGSIZE_eq. apply Nat2Z.inj.
  rewrite Nat2Z.inj_div, !Z2Nat.id by lia. reflexivity.
Qed.

Lemma nth_ints_zero_page k : nth k (ints (zeros PGSIZE)) 0 = 0.
Proof.
  replace PGSIZE with (4 * Z.to_nat 1024)%nat by (rewrite PGSIZE_eq; lia).
  apply nth_ints_zeros.
Qed.

(** Column sums accumulated on a cleared page are the column sums. *)
Lemma axis_acc_zero s i h w k :
  (k < w)%nat -> axis_acc (matrix s i) h w (zeros PGSIZE) k = matrix_col s i h w k.
Proof.
  intros Hk. unfold axis_acc. by rewrite decide_True, nth_ints_zero_page, Z.add_0_l by done.
Qed.

Lemma matrix_axis_loop s i h w axis page :
  axis_shape axis h w -> length page = PGSIZE ->
  exists p', for_ h (fun j r => acc_row (matrix s i) (j * w) 0 w r) page = Some p' /\
    length p' = PGSIZE /\ forall k, nth k (ints p') 0 = axis_acc (matrix s i) h w page k.
Proof.
  intros Hsh Hp. destruct (axis_shape_size _ _ _ Hsh) as [Hhw Hw].
  destruct (axis_loop_spec (matrix s i) h w page) as (p' & E & Hl & Hk).
  - by rewrite length_matrix, Hhw.
  - rewrite length_ints_page by done. lia.
  - exists p'. by rewrite Hl.
Qed.

Section print.
Context {D : Type} `{Device D} (o : oracle).

Lemma print_row64_wp (buf : list Z) (f : nat -> Z) (w : world D) Q :
  (64 <= length (ints buf))%nat ->
  (forall k, (k < 64)%nat -> nth k (ints buf) 0 = f k) ->
  (forall w', w_dev w' = w_dev w ->
     w_out w' = w_out w ++ ((fun k => ("%d ", [AInt (f k)])) <$> seq 0 64) ++ [("\n", [])] ->
     Q tt w') ->
  wp o (print_row64 buf) w Q.
Proof.
  intros Hl Hf HQ. unfold print_row64. apply wp_bind.
  apply (wp_loop o (fun i _ w' => w_dev w' = w_dev w /\
    w_out w' = w_out w ++ ((fun k => ("%d ", [AInt (f k)])) <$> seq 0 i))).
  - simpl. by rewrite app_nil_r.
  - intros i [] w1 Hi [Hd Ho]. apply wp_bind. eapply wp_eval.
    { rewrite ld32_ints. apply nth_default_lookup. lia. }
    apply wp_printf. simpl. split; [done|].
    rewrite Ho, Nat.add_1_r, seq_S, fmap_app, Hf, app_assoc by done. done.
  - intros [] w1 [Hd Ho]. apply wp_printf. apply HQ; [done|].
    cbn [emit w_out]. by rewrite Ho, app_assoc.
Qed.
End print.

Section isp_axis.
Context {D : Type} `{Reliable D Npsum.npsum} (o : oracle).
Implicit Types (w : world D).

Lemma npsum_axis c s p2 p3 p4 i axis h wd :
  axis_shape axis h wd -> pc_cdw2 c = axis ->
  pc_cdw10 c = 1024 + Z.of_nat i * 64 -> cmd_len c = Z.to_nat 64 ->
  exists p', Npsum.npsum (isp_ctx_of c s p2 p3 p4) = Some (0, p') /\ length p' = PGSIZE /\
    forall k, nth k (ints p') 0 = axis_acc (matrix s i) h wd (page s (pc_cdw15 c)) k.
Proof.
  intros Hsh H2 H10 Hl.
  destruct (matrix_axis_loop s i h wd axis (page s (pc_cdw15 c)) Hsh (length_page _ _))
    as (p' & E & Hp & Hk).
  exists p'. split; [|done]. unfold Npsum.npsum, Npsum.npsum_gen, isp_ctx_of.
  cbn [param0 data map_page]. rewrite H2, H10, Hl. fold (matrix s i).
  destruct Hsh as [(-> & -> & ->)|(-> & -> & ->)].
  - change (i32 (u32 0)) with 0. rewrite decide_True by done. by rewrite E.
  - change (i32 (u32 1)) with 1. rewrite decide_False, decide_True by done. by rewrite E.
Qed.

(** One matrix, starting from a cleared map page: the driver prints its
    column sums and clears the page again. *)
Lemma axis_matrix_wp axis h wd fd addr i s buf w :
  axis_shape axis h wd -> (i < NUM_MATRIX)%nat -> length buf = PGSIZE ->
  same_blocks (ssd_of (w_dev w)) s -> page (ssd_of (w_dev w)) 0 = zeros PGSIZE ->
  wp o (axis_matrix axis true fd addr i buf) w (fun buf' w' =>
    length buf' = PGSIZE /\ same_blocks (ssd_of (w_dev w')) s /\
    page (ssd_of (w_dev w')) 0 = zeros PGSIZE /\
    w_out w' = w_out w ++ row_lines s h wd i).
Proof.
  intros Hsh Hi Hl Hs Hz. destruct (axis_shape_size _ _ _ Hsh) as [_ Hw].
  unfold axis_matrix. apply wp_bind. apply wp_isp_read; [done|done|].
  intros p2 p3 p4.
  destruct (npsum_axis (axis_cmd axis i) (ssd_of (w_dev w)) p2 p3 p4 i axis h wd)
    as (p' & E & Hp & Hk); [done|by destruct Hsh as [(-> & _)|(-> & _)]
                           |by apply u32_block_addr|done|].
  exists 0, p'. split; [done|]. intros d1 b1 Hd1 _. rewrite decide_False by tauto.
  change (pc_cdw15 (axis_cmd axis i)) with 0 in *. rewrite Hz in Hk.
  apply wp_bind. apply wp_page_read; [done| |].
  { apply orb_prop_intro. right. apply bool_decide_pack.
    change (pc_data_len _) with 4096. rewrite Hl, PGSIZE_eq. lia. }
  intros d2 r2 Hd2. rewrite decide_False by tauto.
  change (pc_cdw15 (page_read_cmd addr)) with 0. simpl in Hd2. simpl w_dev.
  rewrite Hd1, page_set_eq, overlay_full by (rewrite ?Hp, ?Hl; done).
  apply wp_bind. unfold when at 1.
  apply (print_row64_wp o _ (matrix_col s i h wd)).
  - rewrite length_ints_page by done. lia.
  - intros k Hk64. rewrite Hk, axis_acc_zero by lia. by apply matrix_col_proper.
  - intros w3 Hd3 Ho3. apply wp_bind. apply wp_page_clear; [done|done|].
    intros d4 r4 b4 Hd4. apply wp_bind. unfold when. simpl.
    apply wp_ret, wp_ret. simpl. rewrite Hd4, Hd3. simpl. rewrite Hd2, Hd1.
    split_and!; [done| | |by rewrite Ho3].
    + rewrite !(same_blocks_set_page _ _ _). done.
    + rewrite page_set_eq; [done|]. apply length_zeros.
Qed.

Lemma axis_main_wp axis h wd (NUM : nat) s w t0 :
  axis_shape axis h wd -> (NUM <= NUM_MATRIX)%nat ->
  same_blocks (ssd_of (w_dev w)) s -> page (ssd_of (w_dev w)) 0 = zeros PGSIZE ->
  wp o (axis_main axis true 1 NUM false t0) w (fun r w' =>
    r = 0 /\ w_out w' = w_out w ++ all_rows s h wd NUM).
Proof.
  intros Hsh HN Hs Hz. unfold axis_main. apply wp_bind. eapply wp_call; [done|].
  apply wp_bind. eapply wp_call; [done|].
  apply wp_bind. apply wp_stats; [by right|done|]. intros d0 r0 Hd0. simpl in Hd0.
  apply wp_bind. apply wp_for_1. wp_time. apply wp_bind.
  apply (wp_loop o (fun i b w' => length b = PGSIZE /\
    same_blocks (ssd_of (w_dev w')) s /\ page (ssd_of (w_dev w')) 0 = zeros PGSIZE /\
    w_out w' = w_out w ++ all_rows s h wd i)).
  - simpl. rewrite Hd0, app_nil_r, length_overlay, length_resize. done.
  - intros i b w1 Hi (Hb & Hs1 & Hz1 & Ho1).
    eapply wp_mono; [apply (axis_matrix_wp axis h wd _ _ i s); [done|lia|done..]|].
    simpl. intros b' w2 (Hb2 & Hs2 & Hz2 & Ho2). split_and!; [done..|].
    by rewrite Ho2, Ho1, all_rows_S, app_assoc.
  - intros b w1 (Hb & Hs1 & Hz1 & Ho1). wp_time.
    apply wp_bind. apply wp_stats; [by left|done|]. intros d1 r1 Hd1.
    apply wp_bind. apply wp_stats; [by right|done|]. intros d2 r2 Hd2.
    apply wp_bind. eapply wp_call; [done|]. apply wp_ret.
    apply wp_bind, wp_ret, wp_ret. done.
Qed.
End isp_axis.

Section host_axis.
Context {D : Type} {prog0 : isp_prog} `{Reliable D prog0} (o : oracle).
Implicit Types (w : world D).

Lemma axis0_shape : axis_shape 0 (Z.to_nat 64) (Z.to_nat 1024).
Proof. by left. Qed.

Lemma host_debug_axis0_wp s w t0 :
  same_blocks (ssd_of (w_dev w)) s ->
  wp o (host_debug_axis0_main t0) w (fun r w' =>
    r = 0 /\
    w_out w' = w_out w ++ all_rows s (Z.to_nat 64) (Z.to_nat 1024) NUM_MATRIX).
Proof.
  intros Hs. unfold host_debug_axis0_main. apply wp_bind. eapply wp_call; [done|].
  apply wp_bind. eapply wp_call; [done|]. apply wp_bind. eapply wp_call; [done|].
  eapply wp_mono.
  - apply (host_rounds_wp o _ _ _ _ _ _ _ _ _ _ s _ (fun i st out =>
      length st = PGSIZE /\
      out = w_out w ++ all_rows s (Z.to_nat 64) (Z.to_nat 1024) i)); try done.
    + apply length_resize.
    + simpl. rewrite length_overlay, length_resize, app_nil_r, PGSIZE_eq. done.
    + intros i st w1 Hi [Hl HI].
      rewrite overlay_full by (by rewrite length_zeros).
      destruct (matrix_axis_loop s i _ _ _ (zeros PGSIZE) axis0_shape (length_zeros _))
        as (p' & E & Hp & Hk).
      unfold axis_compute. eapply wp_eval; [done|]. split; [done|]. intros w3 Ho.
      unfold axis_finish. apply wp_bind.
      apply (print_row64_wp o _ (matrix_col s i (Z.to_nat 64) (Z.to_nat 1024))).
      * rewrite length_ints_page by done. lia.
      * intros k Hk64. rewrite Hk, axis_acc_zero by lia. done.
      * intros w4 Hd4 Ho4. apply wp_ret. split; [done|]. split; [done|].
        by rewrite Ho4, Ho, HI, all_rows_S, <- app_assoc.
  - by intros r w' (-> & st' & _ & HI).
Qed.
End host_axis.

(** * Properties *)

(** C1: offloading the full matrix sum is equivalent to computing it on the
    host.  On any two reliable devices with the same blocks, the offloading
    driver ISP_debug.c (whose SSD runs npsum.c) and the host driver
    host_debug.c both run to completion without a memory error and print the
    same 1024 results, which are the sums of the 65536 integers of each matrix
    modulo [2^32].  (Their range warnings, which use different thresholds, are
    not compared.) *)
Theorem noaxis_offload_equiv {D1 D2 : Type} {p2 : isp_prog}
    `{Reliable D1 Npsum.npsum} `{Reliable D2 p2} (o1 o2 : oracle)
    (w1 : world D1) (w2 : world D2) (t1 t2 : Z) :
  same_blocks (ssd_of (w_dev w1)) (ssd_of (w_dev w2)) ->
  exists w1' w2',
    run o1 (ISP_debug_main t1) w1 = Some (0, w1') /\
    run o2 (host_debug_main t2) w2 = Some (0, w2') /\
    results (w_out w1') = results (w_out w1) ++ sum_results (ssd_of (w_dev w2)) NUM_MATRIX /\
    results (w_out w2') = results (w_out w2) ++ sum_results (ssd_of (w_dev w2)) NUM_MATRIX.
Proof.
  intros Hs.
  destruct (noaxis_main_wp o1 NUM_MATRIX false (ssd_of (w_dev w2)) w1 t1)
    as (r1 & w1' & E1 & -> & H1'); [done..|].
  destruct (host_debug_wp o2 (ssd_of (w_dev w2)) w2 t2) as (r2 & w2' & E2 & -> & H2');
    [done|]. eauto 10.
Qed.

(** C2: offloading the axis-0 sum is equivalent to computing it on the host:
    with a cleared map page 0, ISP_debug_axis0.c prints, line for line, what
    host_debug_axis0.c prints on the same blocks, namely for each of the 1024
    matrices its first 64 column sums modulo [2^32].  Neither faults. *)
Theorem axis0_offload_equiv {D1 D2 : Type} {p2 : isp_prog}
    `{Reliable D1 Npsum.npsum} `{Reliable D2 p2} (o1 o2 : oracle)
    (w1 : world D1) (w2 : world D2) (t1 t2 : Z) :
  same_blocks (ssd_of (w_dev w1)) (ssd_of (w_dev w2)) ->
  page (ssd_of (w_dev w1)) 0 = zeros PGSIZE ->
  w_out w1 = w_out w2 ->
  exists w1' w2',
    run o1 (ISP_debug_axis0_main t1) w1 = Some (0, w1') /\
    run o2 (host_debug_axis0_main t2) w2 = Some (0, w2') /\
    w_out w1' = w_out w2' /\
    w_out w1' = w_out w1 ++
      all_rows (ssd_of (w_dev w2)) (Z.to_nat 64) (Z.to_nat 1024) NUM_MATRIX.
Proof.
  intros Hs Hz Ho.
  destruct (axis_main_wp o1 0 _ _ NUM_MATRIX (ssd_of (w_dev w2)) w1 t1 axis0_shape)
    as (r1 & w1' & E1 & -> & H1'); [done..|].
  destruct (host_debug_axis0_wp o2 (ssd_of (w_dev w2)) w2 t2) as (r2 & w2' & E2 & -> & H2');
    [done|].
  exists w1', w2'. split_and!; [done|done|by rewrite H1', H2', Ho|done].
Qed.

(** An SSD with no data: every block is zero. *)
Definition blank_ssd : ssd := Ssd ∅ ∅.
Definition blank_world (p : isp_prog) : world (refdev p) := World (blank_ssd : refdev p) [] [] 0.
Definition null_oracle : oracle :=
  Oracle (fun _ => 3) (fun _ => []) (fun _ => 4096) (fun _ => (0, 0)) (fun n => Z.of_nat n)
    (fun _ => 0) (fun _ _ => []).

Lemma noaxis_offload_equiv_witness :
  exists w1' w2',
    run null_oracle (ISP_debug_main 0) (blank_world Npsum.npsum) = Some (0, w1') /\
    run null_oracle (host_debug_main 0) (blank_world pass_prog) = Some (0, w2') /\
    results (w_out w1') = results (w_out w2').
Proof.
  destruct (noaxis_offload_equiv null_oracle null_oracle
    (blank_world Npsum.npsum) (blank_world pass_prog) 0 0) as (w1 & w2 & E1 & E2 & R1 & R2).
  - reflexivity.
  - exists w1, w2. split; [exact E1|]. split; [exact E2|]. rewrite R1, R2. reflexivity.
Defined.

Lemma axis0_offload_equiv_witness :
  exists w1' w2',
    run null_oracle (ISP_debug_axis0_main 0) (blank_world Npsum.npsum) = Some (0, w1') /\
    run null_oracle (host_debug_axis0_main 0) (blank_world pass_prog) = Some (0, w2') /\
    w_out w1' = w_out w2'.
Proof.
  destruct (axis0_offload_equiv null_oracle null_oracle
    (blank_world Npsum.npsum) (blank_world pass_prog) 0 0) as (w1 & w2 & E1 & E2 & R1 & R2).
  - reflexivity.
  - vm_compute. reflexivity.
  - reflexivity.
  - exists w1, w2. auto.
Defined.
