(* ===== verification/NpsumErrors.v ===== *)
(** * The error paths of the axis drivers

    ISP_axis0.c and ISP_axis1.c leave a matrix with [continue] when a command
    fails.  What that means for the next matrix depends on which command it
    was, because the sums accumulate in map page 0 until it is cleared.  The
    contract of the device says nothing of what a failing command leaves on the
    SSD; the statements are about the commands the driver sends, and about the
    page if it survives. *)

From S2P Require Import Prelude Mem Ebpf Nvme Prog NpsumIsp NpsumProofs.

Open Scope string_scope.
Open Scope list_scope.
Open Scope Z_scope.

(** Page [p'] is page [p] with the column sums of matrix [i] added. *)
Definition leaked (s : ssd) (i h wd : nat) (p p' : list Z) : Prop :=
  forall k, nth k (ints p') 0 = axis_acc (matrix s i) h wd p k.

Section errors.
Context {D : Type} `{IspSpec D Npsum.npsum} (o : oracle).
Implicit Types (w : world D) (d : D).

(** A successful request adds the matrix to map page 0. *)
Lemma request_leaks axis h wd i d res b d' :
  axis_shape axis h wd -> (i < NUM_MATRIX)%nat ->
  dev_io_cmd (axis_cmd axis i) [] d = ((0, res, b), d') ->
  leaked (ssd_of d) i h wd (page (ssd_of d) 0) (page (ssd_of d') 0).
Proof.
  intros Hsh Hi E. destruct (isp_params (axis_cmd axis i) d) as [[p2 p3] p4] eqn:Ep.
  destruct (isp_read_law (axis_cmd axis i) _ _ _ _ _ _ _ _ _ eq_refl E Ep) as [_ Hok].
  destruct (Hok eq_refl) as (ret & p' & Er & _ & ->).
  destruct (npsum_axis (axis_cmd axis i) (ssd_of d) p2 p3 p4 i axis h wd)
    as (p'' & Ep'' & Hlp & Hk); [done|by destruct Hsh as [(-> & _)|(-> & _)]
                                |by apply u32_block_addr|done|].
  rewrite Er in Ep''. injection Ep'' as -> ->.
  change (pc_cdw15 (axis_cmd axis i)) with 0 in *.
  rewrite page_set_eq by done. exact Hk.
Qed.

(** Sending one command. *)
Lemma wp_cmd fd c buf w err res b d' (Q : Z * Z * list Z -> world D -> Prop) :
  cmd_fits c buf = true -> dev_io_cmd c buf (w_dev w) = ((err, res, b), d') ->
  Q (err, res, b) (set_dev w d') -> wp o (call (IoCmd fd c buf)) w Q.
Proof. intros Hf E HQ. eapply wp_call; [cbn [handle]; rewrite Hf, E; done|]. done. Qed.

Lemma page_read_fits addr buf :
  length buf = PGSIZE -> cmd_fits (page_read_cmd addr) buf = true.
Proof.
  intros Hl. apply orb_true_intro. right. apply bool_decide_eq_true.
  change (pc_data_len _) with 4096. rewrite Hl, PGSIZE_eq. lia.
Qed.

(** What the driver does with a matrix whose request is answered [err1] on
    device [d1], and whose page read and page clear are answered [err2] and
    [err3] once they are sent. *)
Lemma axis_matrix_answers axis pr h wd fd addr i buf w err1 res1 b1 d1 err2 res2 b2 d2
    err3 res3 b3 d3 :
  axis_shape axis h wd -> (i < NUM_MATRIX)%nat -> length buf = PGSIZE ->
  dev_io_cmd (axis_cmd axis i) [] (w_dev w) = ((err1, res1, b1), d1) ->
  dev_io_cmd (page_read_cmd addr) buf d1 = ((err2, res2, b2), d2) ->
  dev_io_cmd cmd_clear [] d2 = ((err3, res3, b3), d3) ->
  wp o (axis_matrix axis pr fd addr i buf) w (fun buf' w' =>
    (err1 <> 0 -> buf' = buf /\ w_dev w' = d1 /\
       w_out w' = w_out w ++ [("ISP request: err %d\n", [AInt err1])]) /\
    (err1 = 0 -> err2 <> 0 -> buf' = b2 /\ w_dev w' = d2 /\
       w_out w' = w_out w ++ [("Map page read: err %d\n", [AInt err2])]) /\
    (err1 = 0 -> err2 = 0 -> buf' = b2 /\ w_dev w' = d3 /\
       leaked (ssd_of (w_dev w)) i h wd (page (ssd_of (w_dev w)) 0) b2 /\
       (err3 <> 0 -> exists out,
          w_out w' = out ++ [("Map page clear: err %d\n", [AInt err3])]))).
Proof.
  intros Hsh Hi Hl E1 E2 E3. unfold axis_matrix.
  apply wp_bind. eapply wp_cmd; [done|exact E1|]. cbv beta iota.
  case_decide as Hne1.
  { apply wp_bind. eapply wp_call; [done|]. apply wp_ret. by split_and!. }
  assert (err1 = 0) as -> by lia. pose proof (request_leaks _ _ _ _ _ _ _ _ Hsh Hi E1) as HL.
  apply wp_bind. eapply wp_cmd; [by apply page_read_fits|exact E2|]. cbv beta iota.
  case_decide as Hne2.
  { apply wp_bind. eapply wp_call; [done|]. apply wp_ret. by split_and!. }
  assert (err2 = 0) as -> by lia.
  destruct (page_read_law (page_read_cmd addr) _ _ _ _ _ _ eq_refl E2) as [Hl2 Hb2].
  destruct (Hb2 eq_refl) as [_ Eb2]. change (pc_cdw15 _) with 0 in Eb2.
  rewrite overlay_full in Eb2 by (rewrite length_page; done). subst b2.
  assert (Hend : forall w1, w_dev w1 = d2 ->
    wp o ('(err, _, _) ← call (IoCmd fd cmd_clear []);
          when (bool_decide (err <> 0))
            (call (Printf "Map page clear: err %d\n" [AInt err])) ;;
          mret (page (ssd_of d1) 0)) w1 (fun buf' w' =>
      buf' = page (ssd_of d1) 0 /\ w_dev w' = d3 /\
      (err3 <> 0 -> exists out,
         w_out w' = out ++ [("Map page clear: err %d\n", [AInt err3])]))).
  { intros w1 <-. apply wp_bind. eapply wp_cmd; [done|exact E3|]. cbv beta iota.
    apply wp_bind. unfold when. destruct (bool_decide_reflect (err3 <> 0)).
    - eapply wp_call; [done|]. apply wp_ret. split_and!; [done..|]. intros _. by eexists.
    - apply wp_ret, wp_ret. by split_and!. }
  apply wp_bind. unfold when at 1. destruct pr.
  - apply (print_row64_wp o _ (fun k => nth k (ints (page (ssd_of d1) 0)) 0)).
    + rewrite length_ints_page by apply length_page. lia.
    + done.
    + intros w3 Hd3 _. eapply wp_mono; [by apply Hend|]. simpl. naive_solver.
  - apply wp_ret. eapply wp_mono; [by apply Hend|]. simpl. naive_solver.
Qed.
End errors.

(** C34: the error paths of a matrix of ISP_axis0.c or ISP_axis1.c, on any
    device that keeps the contract of its successful commands; nothing is
    assumed of what a failing command does to the SSD.  If the request fails,
    the driver prints it and sends no other command for the matrix: the device
    is the one the failed request left.  If the request succeeds and the read
    of the map page fails, the driver prints that and leaves the matrix with
    the device as the failed read left it: no clear is sent for the page in
    which the request had accumulated the column sums.  So if the page survives
    the failed read and the request and the read of a later matrix [j]
    succeed, what the driver takes for the sums of [j] is the sums of both
    matrices.  If only the clear fails, the driver has used the page read, prints
    the error last, and again goes on with the device as the clear left it. *)
Theorem axis_error_paths {D : Type} `{IspSpec D Npsum.npsum} (o : oracle) (w : world D)
    (axis : Z) (pr : bool) (h wd : nat) (fd addr : Z) (i : nat) (buf : list Z)
    (err1 res1 err2 res2 err3 res3 : Z) (b1 b2 b3 : list Z) (d1 d2 d3 : D) :
  axis_shape axis h wd -> (i < NUM_MATRIX)%nat -> length buf = PGSIZE ->
  dev_io_cmd (axis_cmd axis i) [] (w_dev w) = ((err1, res1, b1), d1) ->
  dev_io_cmd (page_read_cmd addr) buf d1 = ((err2, res2, b2), d2) ->
  dev_io_cmd cmd_clear [] d2 = ((err3, res3, b3), d3) ->
  (err1 <> 0 ->
   exists w', run o (axis_matrix axis pr fd addr i buf) w = Some (buf, w') /\
     w_out w' = w_out w ++ [("ISP request: err %d\n", [AInt err1])] /\ w_dev w' = d1) /\
  (err1 = 0 -> err2 <> 0 ->
   exists w', run o (axis_matrix axis pr fd addr i buf) w = Some (b2, w') /\
     w_out w' = w_out w ++ [("Map page read: err %d\n", [AInt err2])] /\ w_dev w' = d2 /\
     forall j resj bj dj resr br dr,
       (j < NUM_MATRIX)%nat ->
       dev_io_cmd (axis_cmd axis j) [] d2 = ((0, resj, bj), dj) ->
       dev_io_cmd (page_read_cmd addr) b2 dj = ((0, resr, br), dr) ->
       page (ssd_of d2) 0 = page (ssd_of d1) 0 ->
       exists w'', run o (axis_matrix axis pr fd addr j b2) w' = Some (br, w'') /\
         forall k, (k < wd)%nat ->
           nth k (ints br) 0 =
             i32 (nth k (ints (page (ssd_of (w_dev w)) 0)) 0 +
                  col_sum (ints (matrix (ssd_of (w_dev w)) i)) h wd k +
                  col_sum (ints (matrix (ssd_of d2) j)) h wd k)) /\
  (err1 = 0 -> err2 = 0 -> err3 <> 0 ->
   exists w' out, run o (axis_matrix axis pr fd addr i buf) w = Some (b2, w') /\
     w_out w' = out ++ [("Map page clear: err %d\n", [AInt err3])] /\ w_dev w' = d3 /\
     leaked (ssd_of (w_dev w)) i h wd (page (ssd_of (w_dev w)) 0) b2).
Proof.
  intros Hsh Hi Hl E1 E2 E3.
  destruct (axis_matrix_answers o axis pr h wd fd addr i buf w _ _ _ _ _ _ _ _ _ _ _ _
    Hsh Hi Hl E1 E2 E3) as (buf' & w' & Er & HA & HB & HC).
  split_and!; intros; [naive_solver| |].
  - destruct HB as (-> & Hd & Ho); [done..|]. exists w'. split_and!; [done..|].
    intros j resj bj dj resr br dr Hj Ej Err Hpg. subst d2 err1.
    destruct (page_read_law (page_read_cmd addr) _ _ _ _ _ _ eq_refl E2) as [Hl2 _].
    destruct (dev_io_cmd cmd_clear [] dr) as [[[errc resc] bc] dc] eqn:Ec.
    destruct (axis_matrix_answers o axis pr h wd fd addr j b2 w' _ _ _ _ _ _ _ _ _ _ _ _
      Hsh Hj (eq_trans Hl2 Hl) Ej Err Ec) as (buf2 & w2 & Er2 & _ & _ & HC2).
    destruct HC2 as (-> & _ & HL & _); [done..|]. exists w2. split; [done|].
    intros k Hk. rewrite HL, Hpg. unfold axis_acc. rewrite decide_True by done.
    pose proof (request_leaks _ _ _ _ _ _ _ _ Hsh Hi E1 k) as ->. unfold axis_acc.
    rewrite decide_True by done. by rewrite i32_add_l.
  - destruct HC as (-> & Hd & HL & Hm); [done..|]. destruct Hm as [out Hm]; [done|].
    exists w', out. by split_and!.
Qed.

(** ** Witness: the reference device with a map page read that fails at first *)

(** The reference device whose first [n] map page reads fail. *)
Definition flaky (prog : isp_prog) : Type := nat * ssd.

#[export] Instance flaky_Device prog : Device (flaky prog) :=
  {| dev_io_cmd c buf '(n, s) :=
       if decide (pc_opcode c = 132 /\ n <> 0%nat) then ((5, 0, buf), (Nat.pred n, s))
       else let '(r, s') := ref_io_cmd prog c buf s in (r, (n, s'));
     dev_submit_io io buf '(n, s) :=
       let '(r, s') := ref_submit_io prog io buf s in (r, (n, s'));
     dev_pread len off buf '(n, s) :=
       let '(r, s') := ref_pread prog len off buf s in (r, (n, s')) |}.

#[export] Instance flaky_IspSpec prog : IspSpec (flaky prog) prog.
Proof.
  refine {| ssd_of := fun d : flaky prog => snd d; isp_params := fun _ _ => (0, 0, 0) |}.
  - intros io buf [n s] err buf' d' Ho. simpl. unfold ref_submit_io.
    rewrite decide_False by lia. intros [= <- <- <-]. by rewrite length_overlay.
  - intros io buf [n s] err buf' d' Ho. simpl. unfold ref_submit_io.
    rewrite decide_True by lia. by intros [= <- <- <-].
  - intros c buf [n s] err res buf' d' p2 p3 p4 Ho. simpl. rewrite decide_False by lia.
    unfold ref_io_cmd. rewrite decide_True by done. intros E [= <- <- <-].
    destruct (prog _) as [[ret p']|]; injection E as <- <- <- <-; naive_solver.
  - intros c buf [n s] err res buf' d' Ho. simpl. case_decide; [by intros [= <- <- <- <-]|].
    unfold ref_io_cmd. rewrite decide_False, decide_True by lia.
    intros [= <- <- <- <-]. by rewrite length_overlay.
  - intros c buf [n s] err res buf' d' Ho. simpl. rewrite decide_False by lia.
    unfold ref_io_cmd. rewrite !decide_False, decide_True by lia.
    intros [= <- <- <- <-]. naive_solver.
  - intros c buf [n s] err res buf' d' Ho. simpl. rewrite decide_False by lia.
    unfold ref_io_cmd. rewrite !decide_False by lia. by intros [= <- <- <- <-].
  - intros len off buf [n s] k buf' d'. simpl. unfold ref_pread.
    intros [= <- <- <-]. by rewrite length_overlay.
Defined.

Definition flaky_world : world (flaky Npsum.npsum) := World (1%nat, blank_ssd) [] [] 0.

(** Requests work on this device. *)
Lemma flaky_request (i n : nat) (s : ssd) :
  (i < NUM_MATRIX)%nat ->
  exists res s', dev_io_cmd (Device := flaky_Device Npsum.npsum) (axis_cmd 0 i) [] (n, s) =
    ((0, res, []), (n, s')).
Proof.
  intros Hi.
  destruct (npsum_axis (axis_cmd 0 i) s 0 0 0 i 0 (Z.to_nat 64) (Z.to_nat 1024))
    as (p' & E & _); [apply axis0_shape|done|by apply u32_block_addr|done|].
  do 2 eexists. cbn [dev_io_cmd flaky_Device]. rewrite decide_False by (by intros [? _]).
  unfold ref_io_cmd. rewrite decide_True by done. rewrite E. reflexivity.
Qed.

(** The map page read of matrix 0 fails; what is read for matrix 1 is the sums
    of both. *)
Lemma axis_error_paths_witness :
  exists w' w'' s1 br,
    run null_oracle (axis_matrix 0 true 3 4096 0 (zeros PGSIZE)) flaky_world =
      Some (zeros PGSIZE, w') /\
    run null_oracle (axis_matrix 0 true 3 4096 1 (zeros PGSIZE)) w' = Some (br, w'') /\
    nth 0 (ints br) 0 =
      i32 (nth 0 (ints (page blank_ssd 0)) 0 +
           col_sum (ints (matrix blank_ssd 0)) (Z.to_nat 64) (Z.to_nat 1024) 0 +
           col_sum (ints (matrix s1 1)) (Z.to_nat 64) (Z.to_nat 1024) 0).
Proof.
  assert (H0 : (0 < NUM_MATRIX)%nat) by (unfold NUM_MATRIX; lia).
  assert (H1 : (1 < NUM_MATRIX)%nat) by (unfold NUM_MATRIX; lia).
  destruct (flaky_request 0 1 blank_ssd H0) as (r0 & s1 & E0).
  destruct (flaky_request 1 0 s1 H1) as (r1 & s2 & E1).
  destruct (axis_error_paths null_oracle flaky_world 0 true (Z.to_nat 64) (Z.to_nat 1024)
    3 4096 0 (zeros PGSIZE) 0 r0 5 0 0 0 [] (zeros PGSIZE) [] (1%nat, s1) (0%nat, s1)
    (0%nat, set_page s1 0 (zeros PGSIZE))) as (_ & H2 & _).
  - apply axis0_shape.
  - exact H0.
  - apply length_zeros.
  - exact E0.
  - reflexivity.
  - reflexivity.
  - destruct H2 as (w' & Er & _ & _ & HN); [reflexivity|lia|].
    destruct (HN 1%nat r1 [] (0%nat, s2) 0 (overlay (page s2 0) (zeros PGSIZE)) (0%nat, s2))
      as (w'' & Er2 & Hk); [exact H1|exact E1|reflexivity|reflexivity|].
    exists w', w'', s1, (overlay (page s2 0) (zeros PGSIZE)).
    split; [exact Er|]. split; [exact Er2|]. apply Hk. lia.
Defined.
