(* ===== verification/NpsumAxis.v ===== *)
(** * The axis-1 drivers, and the host drivers that never clear their result

    ISP_debug_axis1.c sums the other shape of the matrix.  host_axis0.c and
    host_axis1.c, unlike host_debug_axis0.c, accumulate into memory from
    [malloc] that they clear neither at the start nor between matrices. *)

From S2P Require Import Prelude Mem Ebpf Nvme Prog NpsumIsp NpsumHost NpsumProofs.

Open Scope string_scope.
Open Scope list_scope.
Open Scope Z_scope.

Lemma axis1_shape : axis_shape 1 (Z.to_nat 1024) (Z.to_nat 64).
Proof. by right. Qed.

(** Column sum [k] of matrix [i] seen as 1024 rows of 64. *)
Definition axis1_col (s : ssd) (i k : nat) : Z :=
  matrix_col s i (Z.to_nat 1024) (Z.to_nat 64) k.

(** Entry [k] of a result page once the first [n] matrices have been added. *)
Definition accumulated (s : ssd) (h wd n : nat) (res : list Z) (k : nat) : Z :=
  if decide (k < wd)%nat
  then i32 (nth k (ints res) 0 + zsum n (fun i => col_sum (ints (matrix s i)) h wd k))
  else nth k (ints res) 0.

Lemma accumulated_0 s h wd res k : accumulated s h wd 0 res k = nth k (ints res) 0.
Proof.
  unfold accumulated. case_decide; [|done]. cbn [zsum]. rewrite Z.add_0_r.
  apply i32_small, nth_ints_ok.
Qed.

Lemma accumulated_S s h wd n res p k :
  (forall k, nth k (ints p) 0 = accumulated s h wd n res k) ->
  axis_acc (matrix s n) h wd p k = accumulated s h wd (n + 1) res k.
Proof.
  intros Hp. unfold axis_acc. rewrite Hp. unfold accumulated. case_decide; [|done].
  rewrite Nat.add_1_r. cbn [zsum]. rewrite i32_add_l. f_equal. lia.
Qed.

Section host.
Context {D : Type} {prog0 : isp_prog} `{Reliable D prog0} (o : oracle).
Implicit Types (w : world D).

(** One round of host_axis0.c or host_axis1.c. *)
Lemma host_axis_round_wp axis h wd (NUM : nat) fd addr buf res rt ct s w :
  axis_shape axis h wd -> (NUM <= NUM_MATRIX)%nat ->
  length buf = Z.to_nat MATRIX_SIZE -> length res = PGSIZE ->
  same_blocks (ssd_of (w_dev w)) s ->
  wp o (for_ NUM (host_matrix id (axis_compute h wd) mret fd addr) (buf, res, rt, ct)) w
    (fun r w' => let '(b, p, _, _) := r in
      length b = Z.to_nat MATRIX_SIZE /\ length p = PGSIZE /\
      same_blocks (ssd_of (w_dev w')) s /\
      forall k, nth k (ints p) 0 = accumulated s h wd NUM res k).
Proof.
  intros Hsh HN Hl Hr Hs.
  apply (wp_for o (fun i r w' => let '(b, p, _, _) := r in
      length b = Z.to_nat MATRIX_SIZE /\ length p = PGSIZE /\
      same_blocks (ssd_of (w_dev w')) s /\
      forall k, nth k (ints p) 0 = accumulated s h wd i res k)).
  - split_and!; [done..|]. intros k. by rewrite accumulated_0.
  - intros i [[[b p] rt1] ct1] w1 Hi (Hb & Hp & Hs1 & Hk). unfold host_matrix.
    wp_time. apply wp_bind. apply wp_matrix_read; [lia|done|]. intros d1 Hd1.
    wp_time. rewrite decide_False by tauto. wp_time.
    change (w_dev (tick w1)) with (w_dev w1) in *.
    rewrite (matrix_proper _ _ Hs1 i i eq_refl). apply wp_bind.
    destruct (matrix_axis_loop s i h wd axis p Hsh Hp) as (p' & E & Hp' & Hk').
    unfold axis_compute. eapply wp_eval; [exact E|]. wp_time.
    apply wp_bind, wp_ret, wp_ret. split_and!; [|done|by cbn [w_dev tick set_dev]; rewrite Hd1|].
    + unfold matrix. rewrite length_read_blocks, PGSIZE_eq.
      change MATRIX_SIZE with 262144. lia.
    + intros k. rewrite Hk'. by apply accumulated_S.
Qed.

Lemma host_axis_main_wp axis h wd w :
  axis_shape axis h wd -> wp o (host_axis_main h wd) w (fun r _ => r = 0).
Proof.
  intros Hsh. unfold host_axis_main. apply wp_bind. eapply wp_call; [done|].
  do 4 (apply wp_bind; eapply wp_call; [done|]). unfold host_rounds. apply wp_bind.
  apply (wp_loop o (fun _ r w' => let '(b, p, _) := r in
    length b = Z.to_nat MATRIX_SIZE /\ length p = PGSIZE)).
  - split; [apply length_resize|]. rewrite length_resize, PGSIZE_eq. lia.
  - intros t [[b p] hs] w1 _ [Hb Hp]. wp_time. apply wp_bind. eapply wp_mono.
    { by apply (host_axis_round_wp axis h wd _ _ _ _ _ _ _ (ssd_of (w_dev w1))). }
    intros [[[b' p'] rt] ct] w2 (Hb' & Hp' & _). wp_time. apply wp_bind.
    eapply wp_call; [done|]. by apply wp_ret.
  - intros [[b p] hs] w1 _. apply wp_bind. unfold report_host, when.
    do 3 apply wp_bind, wp_printf. by apply wp_printf, wp_ret.
Qed.
End host.

(** * Properties *)

(** axis 1 in storage and on the host.  With a cleared map page 0,
    ISP_debug_axis1.c runs without a memory error and prints for each of the
    1024 matrices the 64 column sums of the matrix seen as 1024 rows of 64;
    and these are what the computation of host_axis1.c leaves in its first 64
    result entries when it starts from cleared memory. *)
Theorem axis1_sums {D : Type} `{Reliable D Npsum.npsum} (o : oracle) (w : world D) (t0 : Z) :
  page (ssd_of (w_dev w)) 0 = zeros PGSIZE ->
  (exists w', run o (ISP_debug_axis1_main t0) w = Some (0, w') /\
     w_out w' = w_out w ++
       all_rows (ssd_of (w_dev w)) (Z.to_nat 1024) (Z.to_nat 64) NUM_MATRIX) /\
  (forall i, exists res,
     run o (axis_compute (Z.to_nat 1024) (Z.to_nat 64) (matrix (ssd_of (w_dev w)) i)
              (zeros PGSIZE)) w = Some (res, w) /\
     forall k, (k < 64)%nat -> nth k (ints res) 0 = axis1_col (ssd_of (w_dev w)) i k).
Proof.
  intros Hz. split.
  - destruct (axis_main_wp o 1 _ _ NUM_MATRIX (ssd_of (w_dev w)) w t0 axis1_shape)
      as (r & w' & E & -> & HO); [done..|]. eauto.
  - intros i.
    destruct (matrix_axis_loop (ssd_of (w_dev w)) i _ _ _ (zeros PGSIZE) axis1_shape
                (length_zeros _)) as (p & E & _ & Hk).
    exists p. split; [unfold axis_compute; by rewrite run_eval, E|].
    intros k Hk64. rewrite Hk. apply axis_acc_zero. lia.
Qed.

(** host_axis0.c and host_axis1.c run to completion without a memory
    error, but a round adds the column sums of all its matrices together, on
    top of whatever the result memory held: entry [k] ends as its initial
    contents plus the sum over all matrices, modulo [2^32].  It is the result
    of no single matrix, and depends on uninitialised memory. *)
Theorem host_axis_accumulates {D : Type} {prog0 : isp_prog} `{Reliable D prog0} (o : oracle)
    (w : world D) (axis : Z) (h wd NUM : nat) (fd addr rt ct : Z) (buf res : list Z) :
  axis_shape axis h wd -> (NUM <= NUM_MATRIX)%nat ->
  length buf = Z.to_nat MATRIX_SIZE -> length res = PGSIZE ->
  (exists w', run o (host_axis_main h wd) w = Some (0, w')) /\
  (exists buf' res' rt' ct' w',
     run o (for_ NUM (host_matrix id (axis_compute h wd) mret fd addr) (buf, res, rt, ct)) w =
       Some ((buf', res', rt', ct'), w') /\
     forall k, nth k (ints res') 0 = accumulated (ssd_of (w_dev w)) h wd NUM res k).
Proof.
  intros Hsh HN Hb Hr. split.
  - destruct (host_axis_main_wp o axis h wd w Hsh) as (r & w' & E & ->). eauto.
  - destruct (host_axis_round_wp o axis h wd NUM fd addr buf res rt ct _ w Hsh HN Hb Hr
                ltac:(reflexivity)) as ([[[b p] rt'] ct'] & w' & E & _ & _ & _ & Hk).
    eauto 10.
Qed.

Lemma axis1_sums_witness :
  exists w', run null_oracle (ISP_debug_axis1_main 0) (blank_world Npsum.npsum) = Some (0, w').
Proof.
  destruct (axis1_sums null_oracle (blank_world Npsum.npsum) 0) as [(w' & E & _) _].
  - vm_compute. reflexivity.
  - exists w'. exact E.
Defined.

(** Memory that starts as all ones stays so on blank matrices: nothing clears
    it. *)
Lemma host_axis_accumulates_witness :
  exists res',
    nth 0 (ints res') 0 =
      accumulated blank_ssd (Z.to_nat 64) (Z.to_nat 1024) 2 (replicate PGSIZE 1) 0 /\
    exists buf' rt' ct' w',
      run null_oracle (for_ 2 (host_matrix id (axis_compute (Z.to_nat 64) (Z.to_nat 1024)) mret
        3 4096) (zeros (Z.to_nat MATRIX_SIZE), replicate PGSIZE 1, 0, 0)) (blank_world pass_prog)
      = Some ((buf', res', rt', ct'), w').
Proof.
  destruct (host_axis_accumulates null_oracle (blank_world pass_prog) 0 (Z.to_nat 64)
    (Z.to_nat 1024) 2 3 4096 0 0 (zeros (Z.to_nat MATRIX_SIZE)) (replicate PGSIZE 1))
    as [_ (b & r & rt & ct & w' & E & Hk)].
  - apply axis0_shape.
  - unfold NUM_MATRIX. lia.
  - apply length_zeros.
  - apply length_replicate.
  - exists r. split; [apply Hk|]. exists b, rt, ct, w'. exact E.
Defined.
