(* ===== verification/EmbedLib.v ===== *)
(** * The embedding-table library (src/MyDriver-fixed.32)

    The shared library the recommendation models load: it stores embedding
    tables on the SSD, reads single embeddings back, and asks the SSD to sum
    embeddings (sparse length sum).  Its state is the device descriptor, the
    page [fromPageAlloc] every [unvme_read_embedding] reads into (the pointer
    it returns points into that page, so the next call overwrites it), and the
    static cache of [rdtsc_second].  The fixed globals are constants. *)

From Stdlib Require Import SpecFloat.
From S2P Require Import Prelude Mem Ebpf Nvme Prog NpsumIsp.

Open Scope string_scope.
Open Scope list_scope.
Open Scope Z_scope.

(** ** Globals *)

Definition slba : Z := 1024.
Definition table_stride : Z := 250000.

Record embed_state := EmbedState {
  es_fd : Z;
  es_from_addr : Z;
  es_from_page : list Z;        (* fromPageAlloc *)
  es_tsc_ps : Z                 (* static uint64_t tsc_ps of rdtsc_second *)
}.

(** ** rdtsc.h *)

(** [do { et = rdtsc() - tsc; } while (et <= 0)]; the fuel bounds the readings
    of the counter. *)
Fixpoint rdtsc_elapse (fuel : nat) (tsc : Z) : prog ioE Z :=
  match fuel with
  | O => eval None
  | S fuel' =>
      now ← call Rdtsc;
      let et := i64 (now - tsc) in
      if decide (et <= 0) then rdtsc_elapse fuel' tsc else mret (u64 et)
  end.

Definition rdtsc_second (tsc_ps : Z) : prog ioE Z :=
  if decide (tsc_ps = 0) then
    tsc ← call Rdtsc;
    call (Sleep 0) ;;             (* usleep(10000) *)
    now ← call Rdtsc;
    mret (u64 (u64 (now - tsc) * 100))
  else mret tsc_ps.

(** [(float)a / (float)b] as the bits stored in memory: IEEE binary32. *)
Definition float_of (z : Z) : spec_float := binary_normalize 24 128 z 0 false.

Definition float_bits (f : spec_float) : Z :=
  match f with
  | S754_zero s => if s then 2 ^ 31 else 0
  | S754_infinity s => (if s then 2 ^ 31 else 0) + 255 * 2 ^ 23
  | S754_nan => 255 * 2 ^ 23 + 2 ^ 22
  | S754_finite s m e =>
      (if s then 2 ^ 31 else 0) +
      (if Zpos m <? 2 ^ 23 then Zpos m else (e + 150) * 2 ^ 23 + (Zpos m - 2 ^ 23))
  end.

Definition float_div (a b : Z) : Z := float_bits (SFdiv 24 128 (float_of a) (float_of b)).

(** ** Opening and closing *)

Definition open_unvme (st : embed_state) : prog ioE embed_state :=
  fd ← call (Open NVME_PATH ["O_RDWR"]);
  '(addr, page) ← call (Malloc (Z.to_nat 4096));
  call (Printf "Hello, world!\n" []) ;;
  mret (EmbedState fd addr page (es_tsc_ps st)).

Definition close_unvme (st : embed_state) : prog ioE embed_state :=
  call (Close (es_fd st)) ;;
  call (Printf "Bye, world...\n" []) ;;
  mret st.

Definition flush_unvme (st : embed_state) : prog ioE embed_state := mret st.

Definition isp_stats_unvme (st : embed_state) : prog ioE embed_state :=
  call (IoCmd (es_fd st) cmd_stats []) ;; mret st.

Definition isp_stats_clear_unvme (st : embed_state) : prog ioE embed_state :=
  call (IoCmd (es_fd st) cmd_stats_clear []) ;; mret st.

(** ** Storing a table *)

(** The block of page [i] of table [table_id], computed in [int]. *)
Definition table_lba (table_id i : Z) : Z := i32 (slba + i32 (table_id * table_stride) + i).

(** The request that writes one page of the table. *)
Definition write_page_io (addr table_id : Z) (i : nat) : user_io :=
  mk_io 0x01 0 addr (table_lba table_id (Z.of_nat i)).

(** [memcpy(page_buf, buf + 4096 i, 4096)] then the write request; the state is
    the contents of [page_buf]. *)
Definition write_table_page (st : embed_state) (buf : list Z) (addr table_id : Z)
    (i : nat) (page_buf : list Z) : prog ioE (list Z) :=
  let chunk := take PGSIZE (drop (PGSIZE * i) buf) in
  page_buf ← eval (if decide (length chunk = PGSIZE) then Some (overlay chunk page_buf) else None);
  '(err, page_buf) ← call (SubmitIo (es_fd st) (write_page_io addr table_id i) page_buf);
  when (bool_decide (err <> 0))
    (call (Printf "write_table %d err : %d\n" [AInt table_id; AInt err])) ;;
  mret page_buf.

Definition unvme_write_table (st : embed_state) (table : list Z)
    (vector_length table_length table_id : Z) : prog ioE unit :=
  '(_, buf) ← call (Malloc (Z.to_nat (u64 (4 * vector_length * table_length + 4))));
  '(addr, page_buf) ← call (Malloc PGSIZE);
  buf ← eval (for_ (Z.to_nat (i32 (vector_length * table_length)))
                (fun i b => v ← table !! i; st32 b i v) buf);
  call (Printf "vector_length: %d / table_length: %d\n"
          [AInt vector_length; AInt table_length]) ;;
  for_ (Z.to_nat (Z.quot (i32 (4 * vector_length * table_length)) 4096))
    (write_table_page st buf addr table_id) page_buf ;;
  mret tt.

(** ** Sparse length sum *)

(** The request for pair [i] of [flatInd]: result row [flatInd[2 i]],
    embedding [flatInd[2 i + 1]]. *)
Definition sls_cmd (result_id embed_id vector_length table_id qid : Z) : passthru_cmd :=
  let slba_is := u32 (slba + i32 (table_id * table_stride)
                      + Z.quot (i32 (4 * vector_length * embed_id)) 4096) in
  mk_cmd 0x82 result_id embed_id 0 0 4096 slba_is 0 qid (-1).

Definition sls_request (st : embed_state) (flatInd : list Z) (vector_length table_id qid : Z)
    (i : nat) (_ : unit) : prog ioE unit :=
  r ← eval (flatInd !! (i * 2)%nat);
  e ← eval (flatInd !! (i * 2 + 1)%nat);
  '(err, _, _) ← call (IoCmd (es_fd st) (sls_cmd r e vector_length table_id qid) []);
  when (bool_decide (err <> 0)) (call (Printf "ISP request err : %d\n" [AInt err])) ;;
  limit ← eval (if decide (i32 (vector_length * 4) = 0) then None
                else Some (Z.quot 4096 (i32 (vector_length * 4))));
  when (bool_decide (r >= limit))
    (call (Printf "WARNING: access beyond range: %d\n" [AInt r])).

Definition sls_page_read (qid addr : Z) : passthru_cmd := mk_cmd 0x84 0 0 0 addr 4096 0 0 qid (-1).
Definition sls_clear (qid : Z) : passthru_cmd := mk_cmd 0x85 0 0 0 0 0 0 0 qid (-1).

(** The requests followed by the read of the map page: the sums. *)
Definition sls_fetch (st : embed_state) (flatInd : list Z)
    (vector_length table_id qid input_embeddings addr : Z) (map_page : list Z)
    : prog ioE (list Z) :=
  for_ (Z.to_nat input_embeddings) (sls_request st flatInd vector_length table_id qid) tt ;;
  '(err, _, map_page) ← call (IoCmd (es_fd st) (sls_page_read qid addr) map_page);
  when (bool_decide (err <> 0)) (call (Printf "Page read err : %d\n" [AInt err])) ;;
  mret map_page.

(** The buffer handed back to the caller is [convert_float]; the map page is
    freed. *)
Definition unvme_sparse_length_sum (fuel : nat) (st : embed_state) (flatInd : list Z)
    (vector_length batchsize embed_per_result table_id qid input_embeddings : Z)
    : prog ioE (list Z) :=
  '(addr, map_page) ← call (Malloc PGSIZE);
  let a := i32 (4 * vector_length * batchsize) in
  let b := i32 (4 * 2 * input_embeddings + 20) in
  let buffersize := if decide (a > b) then a else b in
  '(_, convert_float) ← call (Malloc (Z.to_nat (u64 (buffersize + 4))));
  tstart ← call Rdtsc;
  map_page ← sls_fetch st flatInd vector_length table_id qid input_embeddings addr map_page;
  '(err, _, _) ← call (IoCmd (es_fd st) (sls_clear qid) []);
  when (bool_decide (err <> 0)) (call (Printf "Clear err : %d\n" [AInt err])) ;;
  telapse ← rdtsc_elapse fuel tstart;
  mret convert_float.

(** ** Reading one embedding *)

(** The page of an embedding, and the byte offset of the embedding in it
    ([None] is a division by zero). *)
Definition embedding_lba (table_id vector_length embedidx : Z) : Z :=
  table_lba table_id (Z.quot (i32 (4 * vector_length * embedidx)) 4096).

Definition embedding_offset (vector_length embedidx : Z) : option Z :=
  let size := i32 (4 * vector_length) in
  let per_page := Z.quot 4096 size in
  if decide (size = 0 \/ per_page = 0) then None
  else Some (Z.rem embedidx per_page * size).

(** The result is the offset of the embedding in [fromPageAlloc].  The elapsed
    time is stored right behind the embedding. *)
Definition unvme_read_embedding (fuel : nat) (st : embed_state)
    (embedidx vector_length table_id qid : Z) : prog ioE (Z * embed_state) :=
  off ← eval (embedding_offset vector_length embedidx);
  let io := mk_io 0x02 0 (es_from_addr st) (embedding_lba table_id vector_length embedidx) in
  tstart ← call Rdtsc;
  '(err, from_page) ← call (SubmitIo (es_fd st) io (es_from_page st));
  when (bool_decide (err <> 0)) (call (Printf "read_embedding err : %d\n" [AInt err])) ;;
  telapse ← rdtsc_elapse fuel tstart;
  tsc_ps ← rdtsc_second (es_tsc_ps st);
  let time_ptr := off / 4 + vector_length in
  from_page ← eval (if decide (0 <= time_ptr)
                    then st32 from_page (Z.to_nat time_ptr) (float_div telapse tsc_ps)
                    else None);
  mret (off, EmbedState (es_fd st) (es_from_addr st) from_page tsc_ps).

Example float_div_third : float_div 1 3 = 0x3eaaaaab.
Proof. reflexivity. Qed.
