(* ===== verification/EmbedProofs.v ===== *)
(** * The embedding library stores, reads and sums the table it was given

    [embed_row] is the abstract table: component [k] of embedding [idx] of a
    table, read off the SSD.  Storing a table makes [embed_row] the caller's
    array for the rows of full pages ([table_entry]), reading an embedding returns
    [embed_row], and the ISP requests of a sparse length sum accumulate
    [embed_row] into the map page. *)

From S2P Require Import Prelude Mem Ebpf Nvme Prog NpsumIsp EmbedLib NpsumProofs.

Open Scope string_scope.
Open Scope list_scope.
Open Scope Z_scope.

(** ** The abstract table *)

(** Embeddings per page. *)
Definition per_page (vl : Z) : Z := 1024 / vl.

Definition embed_block (tid vl idx : Z) : Z := 1024 + tid * 250000 + idx / per_page vl.

Definition embed_row (s : ssd) (tid vl idx k : Z) : Z :=
  nth (Z.to_nat (vl * (idx `mod` per_page vl) + k)) (ints (block s (embed_block tid vl idx))) 0.

(** Vector lengths that tile a page, and ids for which the [int] arithmetic of
    the addresses does not overflow: up to 8000 tables of 250000 pages. *)
Definition vl_ok (vl : Z) : Prop := 0 < vl /\ vl * per_page vl = 1024.
Definition id_ok (tid vl idx : Z) : Prop :=
  0 <= tid < 8000 /\ 0 <= idx < 250000 * per_page vl.

Lemma vl_ok_32 : vl_ok 32. Proof. done. Qed.
Lemma vl_ok_64 : vl_ok 64. Proof. done. Qed.

Lemma per_page_pos vl : vl_ok vl -> 0 < per_page vl /\ 0 < vl <= 1024.
Proof.
  intros [H1 H2]. generalize dependent (per_page vl). intros q H2.
  assert (0 < q) by nia. split; [done|]. split; [done|]. nia.
Qed.

Lemma page_of_embedding vl idx :
  vl_ok vl -> 0 <= idx < 250000 * per_page vl ->
  Z.quot (i32 (4 * vl * idx)) 4096 = idx / per_page vl.
Proof.
  intros Hvl Hi. destruct (per_page_pos vl Hvl) as [Hq Hv]. destruct Hvl as [_ E].
  rewrite i32_small by (unfold i32_ok; nia).
  rewrite Z.quot_div_nonneg by nia.
  replace 4096 with (4 * vl * per_page vl) by lia.
  apply Z.div_mul_cancel_l; lia.
Qed.

Lemma embed_page_range vl idx :
  vl_ok vl -> 0 <= idx < 250000 * per_page vl -> 0 <= idx / per_page vl < 250000.
Proof.
  intros Hvl Hi. destruct (per_page_pos vl Hvl) as [Hq _].
  split; [apply Z.div_pos; lia|]. apply Z.div_lt_upper_bound; lia.
Qed.

Lemma embedding_lba_ok tid vl idx :
  vl_ok vl -> id_ok tid vl idx -> embedding_lba tid vl idx = embed_block tid vl idx.
Proof.
  intros Hvl [Ht Hi]. unfold embedding_lba, table_lba. rewrite page_of_embedding by done.
  pose proof (embed_page_range vl idx Hvl Hi). unfold embed_block, slba, table_stride.
  rewrite (i32_small (tid * 250000)) by (unfold i32_ok; lia).
  apply i32_small. unfold i32_ok. lia.
Qed.

Lemma embed_block_u32 tid vl idx :
  vl_ok vl -> id_ok tid vl idx -> 0 <= embed_block tid vl idx < 2 ^ 31.
Proof.
  intros Hvl [Ht Hi]. pose proof (embed_page_range vl idx Hvl Hi). unfold embed_block. lia.
Qed.

(** ** Storing a table *)

(** [buf] holds the first [n] integers of [table]. *)
Definition holds_table (buf table : list Z) (n : nat) : Prop :=
  forall k, (k < n)%nat -> nth k (ints buf) 0 = nth k table 0.

Lemma copy_loop_spec table buf n :
  (n <= length table)%nat -> (n <= length (ints buf))%nat -> Forall i32_ok table ->
  exists b, for_ n (fun i b => v ← table !! i; st32 b i v) buf = Some b /\
    length b = length buf /\ holds_table b table n.
Proof.
  intros Ht Hb Hok.
  destruct (for_opt_ind (fun i b => length b = length buf /\ holds_table b table i)
              (fun i b => v ← table !! i; st32 b i v) n buf) as (b & E & HI).
  - split; [done|]. intros k Hk. lia.
  - intros i b Hi [Hl HI].
    assert (Hlb : (i < length (ints b))%nat) by (rewrite length_ints in *; rewrite Hl; lia).
    rewrite (nth_default_lookup table 0) by lia. simpl.
    destruct (st32_ints b i (nth i table 0) Hlb) as (b' & E & Hl' & Hi').
    exists b'. split; [done|]. split; [lia|]. intros k Hk.
    rewrite Hi', nth_insert by done. case_decide; subst.
    + apply i32_small. eapply (proj1 (Forall_lookup _ _) Hok).
      apply nth_default_lookup. lia.
    + apply HI. lia.
  - eauto.
Qed.

(** The integers of page [i] of a buffer. *)
Lemma ints_chunk buf i :
  ints (take PGSIZE (drop (PGSIZE * i) buf)) =
    take (Z.to_nat 1024) (drop (Z.to_nat 1024 * i) (ints buf)).
Proof.
  replace PGSIZE with (4 * Z.to_nat 1024)%nat by (rewrite PGSIZE_eq; lia).
  rewrite ints_take. rewrite <- ints_drop. do 3 f_equal. lia.
Qed.

Section embed.
Context {D : Type} {prog0 : isp_prog} `{Reliable D prog0} (o : oracle).
Implicit Types (w : world D).

Lemma write_table_page_wp st buf addr tid i page_buf w Q :
  0 <= tid < 8000 -> (i < Z.to_nat 250000)%nat ->
  length page_buf = PGSIZE -> (PGSIZE * (i + 1) <= length buf)%nat ->
  (forall d' s', s' = ssd_of (w_dev w) ->
     block (ssd_of d') (1024 + tid * 250000 + Z.of_nat i) =
       take PGSIZE (drop (PGSIZE * i) buf) ->
     (forall l, l <> 1024 + tid * 250000 + Z.of_nat i -> block (ssd_of d') l = block s' l) ->
     (forall n, page (ssd_of d') n = page s' n) ->
     Q (take PGSIZE (drop (PGSIZE * i) buf)) (set_dev w d')) ->
  wp o (write_table_page st buf addr tid i page_buf) w Q.
Proof.
  intros Ht Hi Hl Hb HQ. unfold write_table_page.
  set (chunk := take PGSIZE (drop (PGSIZE * i) buf)).
  assert (Hc : length chunk = PGSIZE) by (unfold chunk; rewrite length_take, length_drop; lia).
  rewrite decide_True by done. apply wp_bind. eapply wp_eval; [done|].
  rewrite overlay_full by lia.
  assert (Elba : io_slba (write_page_io addr tid i) = 1024 + tid * 250000 + Z.of_nat i).
  { unfold write_page_io, mk_io, table_lba, slba, table_stride. cbn [io_slba].
    rewrite (i32_small (tid * 250000)), i32_small by (unfold i32_ok; lia).
    apply wrapu_small. lia. }
  assert (Elen : io_len (write_page_io addr tid i) = 1%nat) by (vm_compute; done).
  apply wp_bind. apply wp_io_write; [done| |].
  { apply bool_decide_pack. change (io_nblocks _) with 0. rewrite Hc, PGSIZE_eq. lia. }
  intros d' Hd. apply wp_bind. apply wp_ret. apply wp_ret.
  rewrite Elba, Elen in Hd. apply (HQ d' _ eq_refl); rewrite Hd.
  - pose proof (write_blocks_same (ssd_of (w_dev w)) (1024 + tid * 250000 + Z.of_nat i) 1
      chunk 0 ltac:(lia) ltac:(lia)) as E.
    rewrite Z.add_0_r, Nat.mul_0_r, drop_0, take_ge in E by lia. done.
  - intros l Hne. apply write_blocks_other. lia.
  - intros n. apply page_write_blocks.
Qed.

(** What storing [table] as table [tid] leaves on the SSD: its full pages,
    page by page, and nothing else. *)
Record table_stored (s s' : ssd) (tid : Z) (npages : nat) (table : list Z) : Prop := {
  ts_pages : forall i k, (i < npages)%nat -> (k < Z.to_nat 1024)%nat ->
    nth k (ints (block s' (1024 + tid * 250000 + Z.of_nat i))) 0 =
      nth (Z.to_nat 1024 * i + k) table 0;
  ts_other : forall l, ~ (1024 + tid * 250000 <= l < 1024 + tid * 250000 + Z.of_nat npages) ->
    block s' l = block s l;
  ts_maps : forall n, page s' n = page s n
}.

Lemma table_stored_0 s tid table : table_stored s s tid 0 table.
Proof. split; [lia|done|done]. Qed.

Lemma table_stored_S s s1 s2 tid i table buf :
  table_stored s s1 tid i table ->
  block s2 (1024 + tid * 250000 + Z.of_nat i) = take PGSIZE (drop (PGSIZE * i) buf) ->
  (forall l, l <> 1024 + tid * 250000 + Z.of_nat i -> block s2 l = block s1 l) ->
  (forall n, page s2 n = page s1 n) ->
  holds_table buf table (Z.to_nat 1024 * (i + 1)) ->
  table_stored s s2 tid (i + 1) table.
Proof.
  intros [Hp Ho Hm] Hnew Hold Hpg Hbuf. split.
  - intros j k Hj Hk. destruct (decide (j = i)) as [->|Hne].
    + rewrite Hnew, ints_chunk, nth_lookup, lookup_take_lt, lookup_drop by lia.
      rewrite <- nth_lookup. apply Hbuf. lia.
    + rewrite Hold by lia. apply Hp; lia.
  - intros l Hl. rewrite Hold by lia. apply Ho. lia.
  - intros n. by rewrite Hpg.
Qed.

Lemma write_table_wp st table vl tl tid w :
  0 < vl -> 0 <= tl -> vl * tl <= 1024 * 250000 -> 0 <= tid < 8000 ->
  Z.of_nat (length table) = vl * tl -> Forall i32_ok table ->
  wp o (unvme_write_table st table vl tl tid) w (fun _ w' =>
    table_stored (ssd_of (w_dev w)) (ssd_of (w_dev w')) tid
      (Z.to_nat (vl * tl / 1024)) table /\ w_tick w' = (w_tick w + 2)%nat).
Proof.
  intros Hvl Htl Hsz Ht Hlen Hok. unfold unvme_write_table.
  assert (HN : 0 <= vl * tl) by nia. rewrite <- (Z.mul_assoc 4 vl tl) in *.
  set (N := vl * tl) in *. clearbody N.
  apply wp_bind. eapply wp_call; [done|]. apply wp_bind. eapply wp_call; [done|].
  rewrite (wrapu_small 64) by lia. rewrite (i32_small N) by (unfold i32_ok; lia).
  set (buf0 := resize (Z.to_nat (4 * N + 4)) 0 _).
  assert (Hb0 : length buf0 = Z.to_nat (4 * N + 4)) by apply length_resize.
  destruct (copy_loop_spec table buf0 (Z.to_nat N)) as (buf & E & Hlb & Hbuf).
  { lia. }
  { rewrite length_ints, Hb0. apply Nat.div_le_lower_bound; lia. }
  { done. }
  apply wp_bind. eapply wp_eval; [exact E|]. apply wp_bind. apply wp_printf. apply wp_bind.
  rewrite (i32_small (4 * N)) by (unfold i32_ok; lia).
  rewrite Z.quot_div_nonneg by lia. change 4096 with (4 * 1024).
  rewrite Z.div_mul_cancel_l by lia.
  pose proof (Z.mul_div_le N 1024 ltac:(lia)) as Hdiv.
  assert (Hd0 : 0 <= N / 1024) by (apply Z.div_pos; lia).
  set (n := N / 1024) in *. clearbody n.
  apply (wp_loop o (fun i b w' => length b = PGSIZE /\
    table_stored (ssd_of (w_dev w)) (ssd_of (w_dev w')) tid i table /\
    w_tick w' = (w_tick w + 2)%nat)).
  - split; [apply length_resize|]. split; [apply table_stored_0|]. cbn [emit tick w_tick]. lia.
  - intros i b w1 Hi (Hl & HI & Htick). apply write_table_page_wp; [done|lia|done| |].
    { rewrite Hlb, Hb0, PGSIZE_eq. lia. }
    intros d' s' -> Hnew Hold Hpg. split.
    { rewrite length_take, length_drop, Hlb, Hb0, PGSIZE_eq. lia. }
    split; [|exact Htick]. apply (table_stored_S _ _ _ _ _ _ buf HI Hnew Hold Hpg).
    intros k Hk. apply Hbuf. lia.
  - intros b w1 (Hl & HI & Htick). by apply wp_ret.
Qed.

(** Row by row: the embeddings of the full pages are the caller's. *)
Lemma stored_embed_row s s' tid vl tl table idx k :
  vl_ok vl -> table_stored s s' tid (Z.to_nat (vl * tl / 1024)) table ->
  0 <= k < vl -> 0 <= idx -> idx / per_page vl < vl * tl / 1024 ->
  embed_row s' tid vl idx k = nth (Z.to_nat (vl * idx + k)) table 0.
Proof.
  intros Hvl [Hp _ _] Hk Hi Hrow. destruct (per_page_pos vl Hvl) as [Hq Hv].
  destruct Hvl as [_ Eq]. unfold embed_row, embed_block.
  pose proof (Z.mod_pos_bound idx (per_page vl) Hq) as Hm.
  pose proof (Z.div_mod idx (per_page vl) ltac:(lia)) as Hd.
  assert (Hdp : 0 <= idx / per_page vl) by (apply Z.div_pos; lia).
  rewrite <- (Z2Nat.id (idx / per_page vl)) by done.
  rewrite Hp; [|lia|nia]. f_equal.
  set (a := idx / per_page vl) in *. set (b := idx `mod` per_page vl) in *.
  rewrite <- !Z2Nat.inj_mul, <- Z2Nat.inj_add by nia. f_equal.
  rewrite Hd. transitivity (vl * per_page vl * a + (vl * b + k)); [nia|nia].
Qed.

(** Row [idx] once [table] has been stored over [s]: the caller's where the row
    lies in a full page, else what the SSD held before. *)
Definition table_entry (s : ssd) (tid vl tl : Z) (table : list Z) (idx k : Z) : Z :=
  if decide (idx / per_page vl < vl * tl / 1024)
  then nth (Z.to_nat (vl * idx + k)) table 0
  else embed_row s tid vl idx k.

Lemma stored_table_entry s s' tid vl tl table idx k :
  vl_ok vl -> table_stored s s' tid (Z.to_nat (vl * tl / 1024)) table ->
  0 <= k < vl -> id_ok tid vl idx ->
  embed_row s' tid vl idx k = table_entry s tid vl tl table idx k.
Proof.
  intros Hvl HT Hk [Ht Hi]. unfold table_entry. case_decide as Hrow.
  - by eapply stored_embed_row; [| | |lia|].
  - pose proof (embed_page_range vl idx Hvl Hi). unfold embed_row, embed_block.
    rewrite (ts_other _ _ _ _ _ HT); [done|]. lia.
Qed.
End embed.

(** ** Sparse length sums *)

(** What pair [i] of [flat] adds to integer [k] of the map page. *)
Definition sls_term (s : ssd) (tid vl : Z) (flat : list Z) (k : nat) (i : nat) : Z :=
  if decide (Z.of_nat k / vl = nth (i * 2) flat 0)
  then embed_row s tid vl (nth (i * 2 + 1) flat 0) (Z.of_nat k `mod` vl)
  else 0.

(** Pairs whose result row is inside the map page and whose embedding exists. *)
Definition flat_ok (tid vl : Z) (flat : list Z) (n : nat) : Prop :=
  (2 * n <= length flat)%nat /\
  forall i, (i < n)%nat -> 0 <= nth (i * 2) flat 0 < per_page vl /\
                           id_ok tid vl (nth (i * 2 + 1) flat 0).

Lemma embed_row_blocks s s' tid vl idx k :
  same_blocks s s' -> embed_row s tid vl idx k = embed_row s' tid vl idx k.
Proof. intros [H]. unfold embed_row. by rewrite H. Qed.

Lemma sls_term_blocks s s' tid vl flat k i :
  same_blocks s s' -> sls_term s tid vl flat k i = sls_term s' tid vl flat k i.
Proof. intros H. unfold sls_term. case_decide; [|done]. by apply embed_row_blocks. Qed.

Lemma length_ints_block s l : length (ints (block s l)) = Z.to_nat 1024.
Proof. apply length_ints_page, length_block. Qed.
Lemma length_ints_ppage s n : length (ints (page s n)) = Z.to_nat 1024.
Proof. apply length_ints_page, length_page. Qed.

(** One request of the device program, as an update of the map page. *)
Lemma sls_program vl ret s tid qid p2 p3 p4 flat i n :
  (vl = 32 \/ vl = 64) -> flat_ok tid vl flat n -> (i < n)%nat ->
  let c := sls_cmd (nth (i * 2) flat 0) (nth (i * 2 + 1) flat 0) vl tid qid in
  exists p', Embedding.embedding vl ret (isp_ctx_of c s p2 p3 p4) = Some (ret, p') /\
    length p' = PGSIZE /\
    forall k, nth k (ints p') 0 =
      i32 (nth k (ints (page s (u32 qid))) 0 + sls_term s tid vl flat k i).
Proof.
  intros Hvl [Hlen Hflat] Hi c. destruct (Hflat i Hi) as [Hr Hid].
  assert (Hok : vl_ok vl) by (destruct Hvl as [-> | ->]; done).
  destruct (per_page_pos vl Hok) as [Hq Hv].
  set (r := nth (i * 2) flat 0) in *. set (e := nth (i * 2 + 1) flat 0) in *.
  assert (Hq32 : per_page vl <= 32) by (destruct Hvl as [-> | ->]; done).
  assert (E10 : pc_cdw10 c = embed_block tid vl e).
  { pose proof (embed_block_u32 tid vl e Hok Hid). destruct Hid as [Ht He].
    unfold c, sls_cmd, mk_cmd. cbn [pc_cdw10]. rewrite page_of_embedding by done.
    unfold slba, table_stride. rewrite (i32_small (tid * 250000)) by (unfold i32_ok; lia).
    fold (embed_block tid vl e). unfold wrapu. rewrite Z.mod_mod by done.
    apply Z.mod_small. lia. }
  assert (Elen : cmd_len c = 1%nat) by (vm_compute; done).
  assert (Er : param0 (isp_ctx_of c s p2 p3 p4) `mod` (2 ^ 32 / vl) = r).
  { cbn [isp_ctx_of param0]. change (pc_cdw2 c) with (u32 r).
    rewrite (wrapu_small 32) by lia. apply Z.mod_small.
    destruct Hvl as [-> | ->]; [change (2 ^ 32 / 32) with (2 ^ 27)
                               |change (2 ^ 32 / 64) with (2 ^ 26)]; lia. }
  assert (Ee : u32 (param1 (isp_ctx_of c s p2 p3 p4)) = e).
  { cbn [isp_ctx_of param1]. change (pc_cdw3 c) with (u32 e). destruct Hid as [_ He].
    rewrite !(wrapu_small 32); [done|nia|]. rewrite (wrapu_small 32); nia. }
  pose proof (embedding_cases vl ret (isp_ctx_of c s p2 p3 p4) Hvl) as H.
  cbv zeta in H. rewrite Er, Ee in H. change (1024 / vl) with (per_page vl) in H.
  rewrite decide_True in H by lia. cbn [isp_ctx_of data map_page] in H.
  rewrite E10, Elen in H. cbn [read_blocks] in H. rewrite app_nil_r in H.
  change (pc_cdw15 c) with (u32 qid) in H.
  rewrite length_ints_block, length_ints_ppage in H.
  destruct H as (p' & E & Hl & Hk); [lia|lia|].
  exists p'. split; [done|]. split; [by rewrite Hl, length_page|]. intros k. rewrite Hk.
  unfold acc_view, sls_term. fold r e. clearbody r e. clear Hk E Hl E10 Er Ee Elen c.
  pose proof (Z.mod_pos_bound e (per_page vl) Hq) as Hm.
  pose proof (Z.div_mod (Z.of_nat k) vl ltac:(lia)) as Hdm.
  pose proof (Z.mod_pos_bound (Z.of_nat k) vl ltac:(lia)) as Hmb.
  destruct (decide (Z.of_nat k / vl = r)) as [Ek|Ek].
  - rewrite decide_True by nia. unfold embed_row.
    replace (Z.to_nat (vl * (e `mod` per_page vl)) + (k - Z.to_nat (vl * r)))%nat
      with (Z.to_nat (vl * (e `mod` per_page vl) + Z.of_nat k `mod` vl)) by nia.
    reflexivity.
  - rewrite decide_False by nia. rewrite Z.add_0_r, i32_small; [done|]. apply nth_ints_ok.
Qed.

Section sls.
Variables (vl ret : Z).
Hypothesis Hvl : vl = 32 \/ vl = 64.
Context {D : Type} `{Reliable D (Embedding.embedding vl ret)} (o : oracle).
Implicit Types (w : world D).

Lemma sls_request_wp st flat tid qid i n s w :
  flat_ok tid vl flat n -> (i < n)%nat -> same_blocks (ssd_of (w_dev w)) s ->
  wp o (sls_request st flat vl tid qid i tt) w (fun _ w' =>
    (same_blocks (ssd_of (w_dev w')) s /\ w_tick w' = w_tick w) /\
    forall k, nth k (ints (page (ssd_of (w_dev w')) (u32 qid))) 0 =
      i32 (nth k (ints (page (ssd_of (w_dev w)) (u32 qid))) 0 + sls_term s tid vl flat k i)).
Proof.
  intros Hok Hi Hs. pose proof Hok as [Hlen _]. unfold sls_request.
  apply wp_bind. eapply wp_eval; [apply (nth_default_lookup _ 0); lia|].
  apply wp_bind. eapply wp_eval; [apply (nth_default_lookup _ 0); lia|].
  apply wp_bind. apply wp_isp_read; [done|done|]. intros p2 p3 p4.
  destruct (sls_program vl ret (ssd_of (w_dev w)) tid qid p2 p3 p4 flat i n Hvl Hok Hi)
    as (p' & E & Hl & Hk).
  exists ret, p'. split; [done|]. intros d' buf' Hd _. apply wp_bind. apply wp_ret.
  change (pc_cdw15 _) with (u32 qid) in Hd.
  apply wp_bind. eapply wp_eval; [rewrite decide_False by (destruct Hvl as [-> | ->]; done); done|].
  assert (HQ : same_blocks (ssd_of d') s /\
    forall k, nth k (ints (page (ssd_of d') (u32 qid))) 0 =
      i32 (nth k (ints (page (ssd_of (w_dev w)) (u32 qid))) 0 + sls_term s tid vl flat k i)).
  { rewrite Hd. split.
    - etransitivity; [apply same_blocks_set_page|done].
    - intros k. rewrite page_set_eq, Hk by done. by rewrite (sls_term_blocks _ s). }
  destruct HQ as [HA HB].
  destruct (bool_decide _); [apply wp_printf|apply wp_ret];
    (split; [split; [exact HA|reflexivity]|exact HB]).
Qed.

(** The requests and the page read: every integer of the fetched page is the
    initial one plus the contributions of all the pairs. *)
Lemma sls_fetch_wp st flat tid qid n addr page_buf s w :
  flat_ok tid vl flat n -> length page_buf = PGSIZE -> same_blocks (ssd_of (w_dev w)) s ->
  wp o (sls_fetch st flat vl tid qid (Z.of_nat n) addr page_buf) w (fun m w' =>
    (same_blocks (ssd_of (w_dev w')) s /\ w_tick w' = w_tick w) /\
    forall k, nth k (ints m) 0 =
      i32 (nth k (ints (page (ssd_of (w_dev w)) (u32 qid))) 0 +
           zsum n (sls_term s tid vl flat k))).
Proof.
  intros Hok Hl Hs. unfold sls_fetch. rewrite Nat2Z.id. apply wp_bind.
  apply (wp_loop o (fun i _ w' =>
    (same_blocks (ssd_of (w_dev w')) s /\ w_tick w' = w_tick w) /\
    forall k, nth k (ints (page (ssd_of (w_dev w')) (u32 qid))) 0 =
      i32 (nth k (ints (page (ssd_of (w_dev w)) (u32 qid))) 0 +
           zsum i (sls_term s tid vl flat k)))).
  - split; [done|]. intros k. simpl. rewrite Z.add_0_r, i32_small; [done|]. apply nth_ints_ok.
  - intros i [] w1 Hi [[Hs1 Ht1] Hk1].
    eapply wp_mono; [apply (sls_request_wp st flat tid qid i n s); done|].
    intros _ w2 [[Hs2 Ht2] Hk2]. split; [by rewrite Ht2|]. intros k. rewrite Hk2, Hk1, i32_add_l.
    replace (i + 1)%nat with (S i) by lia. simpl. f_equal. lia.
  - intros _ w1 [[Hs1 Ht1] Hk1]. apply wp_bind. apply wp_page_read; [done| |].
    { apply orb_prop_intro. right. apply bool_decide_pack.
      change (pc_data_len _) with 4096. rewrite Hl, PGSIZE_eq. lia. }
    intros d' res Hd. apply wp_bind. apply wp_ret. apply wp_ret.
    change (pc_cdw15 _) with (u32 qid).
    rewrite overlay_full by (by rewrite length_page, Hl). split; [|done].
    cbn [set_dev w_dev w_tick]. by rewrite Hd.
Qed.
End sls.

(** ** Reading one embedding *)

(** A time stamp counter that advances between the first [N] readings. *)
Definition tsc_advances (o : oracle) (N : nat) : Prop :=
  forall n m, (n < m < N)%nat -> 0 <= or_tsc o n < or_tsc o m /\ or_tsc o m < 2 ^ 62.

Section read.
Context {D : Type} {prog0 : isp_prog} `{Reliable D prog0} (o : oracle).
Variable N : nat.
Hypothesis Htsc : tsc_advances o N.
Implicit Types (w : world D).

(** One reading is enough. *)
Lemma rdtsc_elapse_wp fuel n w (Q : Z -> world D -> Prop) :
  (n < w_tick w < N)%nat -> (forall t, 0 < t -> Q t (tick w)) ->
  wp o (rdtsc_elapse (S fuel) (or_tsc o n)) w Q.
Proof.
  intros Hn HQ. cbn [rdtsc_elapse]. apply wp_bind. eapply wp_call; [done|].
  destruct (Htsc n (w_tick w) Hn) as [Hlt Hmax].
  assert (E : i64 (or_tsc o (w_tick w) - or_tsc o n) = or_tsc o (w_tick w) - or_tsc o n).
  { unfold wraps. rewrite Z.mod_small; lia. }
  rewrite E, decide_False by lia. apply wp_ret. apply HQ.
  rewrite wrapu_small; lia.
Qed.

Lemma rdtsc_second_wp ps w (Q : Z -> world D -> Prop) :
  (forall t w', w_dev w' = w_dev w -> (w_tick w' <= w_tick w + 2)%nat -> Q t w') ->
  wp o (rdtsc_second ps) w Q.
Proof.
  intros HQ. unfold rdtsc_second. case_decide; [|apply wp_ret, HQ; [done|lia]].
  apply wp_bind. eapply wp_call; [done|]. apply wp_bind. eapply wp_call; [done|].
  apply wp_bind. eapply wp_call; [done|]. apply wp_ret. apply HQ; [done|].
  cbn [tick w_tick]. lia.
Qed.

Lemma embedding_offset_ok vl idx :
  vl_ok vl -> 0 <= idx ->
  embedding_offset vl idx = Some (4 * (vl * (idx `mod` per_page vl))).
Proof.
  intros Hok Hi. destruct (per_page_pos vl Hok) as [Hq Hv]. unfold embedding_offset.
  rewrite i32_small by (unfold i32_ok; lia).
  assert (E : Z.quot 4096 (4 * vl) = per_page vl).
  { rewrite Z.quot_div_nonneg by lia. change 4096 with (4 * 1024).
    rewrite Z.div_mul_cancel_l by lia. done. }
  rewrite E, decide_False by lia. f_equal.
  rewrite Z.rem_mod_nonneg by lia. lia.
Qed.

(** Everything up to the store of the elapsed time. *)
Lemma read_embedding_run fuel st idx vl tid qid w
    (R : option ((Z * embed_state) * world D) -> Prop) :
  (S (w_tick w) < N)%nat ->
  vl_ok vl -> id_ok tid vl idx -> length (es_from_page st) = PGSIZE ->
  (forall v ps w', ssd_of (w_dev w') = ssd_of (w_dev w) -> (w_tick w' <= w_tick w + 4)%nat ->
     R (match st32 (block (ssd_of (w_dev w)) (embed_block tid vl idx))
               (Z.to_nat (vl * (idx `mod` per_page vl) + vl)) v with
        | Some p' => Some ((4 * (vl * (idx `mod` per_page vl)),
                            EmbedState (es_fd st) (es_from_addr st) p' ps), w')
        | None => None
        end)) ->
  R (run o (unvme_read_embedding (S fuel) st idx vl tid qid) w).
Proof.
  intros HN Hok Hid Hl HR. destruct (per_page_pos vl Hok) as [Hq Hv].
  pose proof (Z.mod_pos_bound idx (per_page vl) Hq) as Hm.
  unfold unvme_read_embedding. rewrite embedding_offset_ok by (done || apply Hid).
  apply (run_via o _ _ _ (fun off w1 => off = 4 * (vl * (idx `mod` per_page vl)) /\ w1 = w)).
  { by eapply wp_eval. }
  intros off ? [-> ->].
  apply (run_via o _ _ _ (fun t w1 => t = or_tsc o (w_tick w) /\ w1 = tick w)).
  { by eapply wp_call. }
  intros t ? [-> ->].
  apply (run_via o _ _ _ (fun x w1 =>
    x = (0, block (ssd_of (w_dev w)) (embed_block tid vl idx)) /\
    ssd_of (w_dev w1) = ssd_of (w_dev w) /\ w_tick w1 = S (w_tick w))).
  { rewrite embedding_lba_ok by done. pose proof (embed_block_u32 tid vl idx Hok Hid).
    apply wp_io_read; [done| |].
    - apply bool_decide_pack. change (io_nblocks _) with 0. rewrite Hl, PGSIZE_eq. lia.
    - intros d' Hd. split; [|done]. cbn [mk_io io_slba]. rewrite wrapu_small by lia.
      assert (E : forall a, io_len (mk_io 2 0 (es_from_addr st) a) = 1%nat)
        by (intros a; vm_compute; done).
      rewrite E. cbn [read_blocks]. rewrite app_nil_r, overlay_full; [done|].
      by rewrite length_block, Hl. }
  intros [err pg] w1 ([= -> ->] & Hd1 & Ht).
  apply (run_via o _ _ _ (fun _ w2 => w2 = w1)).
  { by apply wp_ret. }
  intros _ ? ->.
  apply (run_via o _ _ _ (fun _ w2 => w2 = tick w1)).
  { apply rdtsc_elapse_wp; [lia|done]. }
  intros te ? ->.
  apply (run_via o _ _ _ (fun _ w3 => w_dev w3 = w_dev w1 /\ (w_tick w3 <= w_tick w + 4)%nat)).
  { apply rdtsc_second_wp. intros t w3 -> Hw3. split; [done|].
    cbn [tick w_tick] in Hw3. lia. }
  intros ps w3 [Hd3 Ht3]. cbv zeta.
  replace (4 * (vl * (idx `mod` per_page vl)) / 4) with (vl * (idx `mod` per_page vl))
    by (rewrite (Z.mul_comm 4), Z.div_mul; lia).
  rewrite decide_True by nia.
  rewrite run_bind, run_eval. specialize (HR (float_div te ps) ps w3).
  rewrite Hd3 in HR. specialize (HR Hd1 Ht3).
  destruct (st32 _ _ _); done.
Qed.
End read.

(** A call for any embedding but the last of its page. *)
Lemma read_embedding_wp {D : Type} {prog0 : isp_prog} `{Reliable D prog0} (o : oracle)
    (fuel N : nat) (st : embed_state) (idx vl tid qid : Z) (w : world D) :
  tsc_advances o N -> (S (w_tick w) < N)%nat -> vl_ok vl -> id_ok tid vl idx ->
  length (es_from_page st) = PGSIZE -> idx `mod` per_page vl < per_page vl - 1 ->
  exists v st' w',
    run o (unvme_read_embedding (S fuel) st idx vl tid qid) w =
      Some ((4 * (vl * (idx `mod` per_page vl)), st'), w') /\
    length (es_from_page st') = PGSIZE /\
    ints (es_from_page st') = <[Z.to_nat (vl * (idx `mod` per_page vl) + vl) := i32 v]>
      (ints (block (ssd_of (w_dev w)) (embed_block tid vl idx))) /\
    ssd_of (w_dev w') = ssd_of (w_dev w) /\ (w_tick w' <= w_tick w + 4)%nat.
Proof.
  intros Htsc HN Hok Hid Hl Hlast. destruct (per_page_pos vl Hok) as [Hq Hv].
  pose proof (proj2 Hok) as Evl. pose proof (Z.mod_pos_bound idx (per_page vl) Hq) as Hm.
  pattern (run o (unvme_read_embedding (S fuel) st idx vl tid qid) w).
  apply (read_embedding_run o _ Htsc); [lia|done..|]. intros v ps w' Hd Ht.
  destruct (st32_ints (block (ssd_of (w_dev w)) (embed_block tid vl idx))
              (Z.to_nat (vl * (idx `mod` per_page vl) + vl)) v)
    as (p' & -> & Hl' & Hp'); [rewrite length_ints_block; nia|].
  exists v. do 2 eexists. split; [done|]. cbn [es_from_page].
  split_and!; [rewrite Hl'; apply length_block|exact Hp'|exact Hd|exact Ht].
Qed.

(** The components of the embedding are before the time stamp. *)
Lemma read_embedding_row s p tid vl idx v k :
  vl_ok vl -> 0 <= k < vl -> idx `mod` per_page vl < per_page vl - 1 ->
  ints p = <[Z.to_nat (vl * (idx `mod` per_page vl) + vl) := i32 v]>
    (ints (block s (embed_block tid vl idx))) ->
  nth (Z.to_nat (4 * (vl * (idx `mod` per_page vl)) / 4 + k)) (ints p) 0 =
    embed_row s tid vl idx k.
Proof.
  intros Hok Hk Hlast ->. destruct (per_page_pos vl Hok) as [Hq Hv].
  pose proof (proj2 Hok) as Evl. pose proof (Z.mod_pos_bound idx (per_page vl) Hq) as Hm.
  rewrite nth_insert by (rewrite length_ints_block; nia).
  rewrite (Z.mul_comm 4), Z.div_mul by lia. by rewrite decide_False by nia.
Qed.

(** The last embedding of a page: the elapsed time is stored at byte 4096 of the
    4096-byte page. *)
Lemma read_embedding_last {D : Type} {prog0 : isp_prog} `{Reliable D prog0} (o : oracle)
    (fuel N : nat) (st : embed_state) (idx vl tid qid : Z) (w : world D) :
  tsc_advances o N -> (S (w_tick w) < N)%nat -> vl_ok vl -> id_ok tid vl idx ->
  length (es_from_page st) = PGSIZE -> idx `mod` per_page vl = per_page vl - 1 ->
  run o (unvme_read_embedding (S fuel) st idx vl tid qid) w = None.
Proof.
  intros Htsc HN Hok Hid Hl Hlast.
  destruct (per_page_pos vl Hok) as [Hq Hv]. pose proof (proj2 Hok) as Evl.
  apply (read_embedding_run o _ Htsc fuel st idx vl tid qid w (fun r => r = None));
    [lia|done..|].
  intros v ps w' _ _. unfold st32. rewrite decide_False; [done|].
  rewrite length_block, PGSIZE_eq. nia.
Qed.

(** * Properties *)

(** storing a table writes exactly its full pages.  After
    [unvme_write_table], which does not fault, the [i]-th 4096-byte page of the
    caller's table is block [1024 + 250000 table_id + i] of the SSD for every
    full page [i], and every other block and every map page is unchanged; in
    particular the rows behind the last full page are not stored. *)
Theorem write_table_stores {D : Type} {prog0 : isp_prog} `{Reliable D prog0} (o : oracle)
    (st : embed_state) (table : list Z) (vl tl tid : Z) (w : world D) :
  0 < vl -> 0 <= tl -> vl * tl <= 1024 * 250000 -> 0 <= tid < 8000 ->
  Z.of_nat (length table) = vl * tl -> Forall i32_ok table ->
  exists w', run o (unvme_write_table st table vl tl tid) w = Some (tt, w') /\
    table_stored (ssd_of (w_dev w)) (ssd_of (w_dev w')) tid (Z.to_nat (vl * tl / 1024)) table.
Proof.
  intros. destruct (write_table_wp o st table vl tl tid w) as ([] & w' & E & HT & _); eauto.
Qed.

(** [n] bytes of uninitialised memory, from the allocation at oracle call [t]. *)
Definition garbage (o : oracle) (t n : nat) : list Z := resize n 0 (or_heap o t).

(** A whole sparse length sum: it returns, leaves every block as it was and
    map page [qid] cleared, but the buffer it returns is the freshly allocated
    [convert_float], whatever the SSD answered. *)
Lemma sls_wp (vl ret : Z) {D : Type} `{Reliable D (Embedding.embedding vl ret)}
    (o : oracle) (fuel : nat) (st : embed_state) (flat : list Z) (batch per tid qid : Z) (n : nat)
    (w : world D) :
  (vl = 32 \/ vl = 64) -> flat_ok tid vl flat n -> tsc_advances o (w_tick w + 4) ->
  wp o (unvme_sparse_length_sum (S fuel) st flat vl batch per tid qid (Z.of_nat n)) w
    (fun res w' => same_blocks (ssd_of (w_dev w')) (ssd_of (w_dev w)) /\
       page (ssd_of (w_dev w')) (u32 qid) = zeros PGSIZE /\
       res = garbage o (S (w_tick w)) (length res)).
Proof.
  intros Hvl Hflat Htsc. unfold unvme_sparse_length_sum.
  apply wp_bind. eapply wp_call; [done|]. apply wp_bind. eapply wp_call; [done|].
  apply wp_bind. eapply wp_call; [done|]. apply wp_bind. cbn [tick w_tick w_dev].
  eapply wp_mono.
  { apply (sls_fetch_wp vl ret Hvl o st flat tid qid n _ _ (ssd_of (w_dev w))); [done| |done].
    apply length_resize. }
  intros m w1 [[Hs1 Ht1] _]. cbn [tick w_tick w_dev] in *.
  apply wp_bind. apply wp_page_clear; [done|done|]. intros d' res' buf' Hd.
  apply wp_bind. unfold when. rewrite bool_decide_false by tauto. apply wp_ret.
  apply wp_bind. apply (rdtsc_elapse_wp o _ Htsc); [cbn [set_dev w_tick]; lia|].
  intros t _. apply wp_ret. cbn [tick set_dev w_dev]. rewrite Hd. split_and!.
  - etransitivity; [apply same_blocks_set_page|done].
  - apply page_set_eq, length_zeros.
  - unfold garbage. by rewrite length_resize.
Qed.

(** C6: storing a table and then summing over it, on a device running the
    embedding program of vector length 32 or 64, for pairs [(r, e)] whose
    result row is inside the map page and whose row id is in range
    ([flat_ok]).  With a cleared map page the requests of the sparse length sum
    ([sls_fetch]: [unvme_sparse_length_sum] up to its page read) fetch a page
    whose row [r], component [c] is the sum modulo [2^32], over all pairs
    [(r, e)], of component [c] of row [e]: the caller's row where [e] lies in a
    full page of the table, and for the rows behind the last full page, which
    are never stored, what the SSD held before ([table_entry]).  The whole
    [unvme_sparse_length_sum] returns and leaves the map page cleared and the
    stored rows as they are, but what it returns is not that page: it is a
    fresh allocation no one has written to. *)
Theorem table_sls_correct (vl ret : Z) {D : Type} `{Reliable D (Embedding.embedding vl ret)}
    (o : oracle) (fuel : nat) (st : embed_state) (table flat : list Z)
    (tl tid qid addr batch per : Z) (n : nat) (page_buf : list Z) (w : world D) :
  (vl = 32 \/ vl = 64) ->
  0 <= tl -> vl * tl <= 1024 * 250000 -> 0 <= tid < 8000 ->
  Z.of_nat (length table) = vl * tl -> Forall i32_ok table ->
  flat_ok tid vl flat n ->
  length page_buf = PGSIZE -> page (ssd_of (w_dev w)) (u32 qid) = zeros PGSIZE ->
  tsc_advances o (w_tick w + 6) ->
  (exists m w',
    run o (unvme_write_table st table vl tl tid ≫= fun _ =>
           sls_fetch st flat vl tid qid (Z.of_nat n) addr page_buf) w = Some (m, w') /\
    forall k, (k < Z.to_nat 1024)%nat -> nth k (ints m) 0 =
      i32 (zsum n (fun i =>
        if decide (Z.of_nat k / vl = nth (i * 2) flat 0)
        then table_entry (ssd_of (w_dev w)) tid vl tl table (nth (i * 2 + 1) flat 0)
               (Z.of_nat k `mod` vl)
        else 0))) /\
  (exists res w',
    run o (unvme_write_table st table vl tl tid ≫= fun _ =>
           unvme_sparse_length_sum (S fuel) st flat vl batch per tid qid (Z.of_nat n)) w =
      Some (res, w') /\
    page (ssd_of (w_dev w')) (u32 qid) = zeros PGSIZE /\
    (forall e k, id_ok tid vl e -> 0 <= k < vl ->
       embed_row (ssd_of (w_dev w')) tid vl e k =
         table_entry (ssd_of (w_dev w)) tid vl tl table e k) /\
    res = garbage o (w_tick w + 3) (length res)).
Proof.
  intros Hvl Htl Hsz Htid Hlen Hok Hflat Hl Hz Htsc.
  assert (Hvok : vl_ok vl) by (destruct Hvl as [-> | ->]; done).
  assert (Hv0 : 0 < vl) by apply Hvok.
  destruct (write_table_wp o st table vl tl tid w) as ([] & w1 & E1 & HT & Ht1); [done..|].
  split.
  - destruct (sls_fetch_wp vl ret Hvl o st flat tid qid n addr page_buf
      (ssd_of (w_dev w1)) w1) as (m & w2 & E2 & _ & Hm); [done..|].
    exists m, w2. split; [by rewrite run_bind, E1|]. intros k Hk. rewrite Hm.
    rewrite (ts_maps _ _ _ _ _ HT), Hz, nth_ints_zero_page, Z.add_0_l. f_equal.
    apply zsum_ext. intros i Hi. unfold sls_term. case_decide; [|done].
    apply stored_table_entry; [done|done|apply Z.mod_pos_bound; lia|].
    apply (proj2 Hflat i Hi).
  - replace (w_tick w + 6)%nat with (w_tick w1 + 4)%nat in Htsc by lia.
    destruct (sls_wp vl ret o fuel st flat batch per tid qid n w1 Hvl Hflat Htsc)
      as (res & w2 & E2 & Hs & Hp & Hg).
    exists res, w2. split; [by rewrite run_bind, E1|]. split; [done|]. split.
    + intros e k He Hk. rewrite (embed_row_blocks _ _ _ _ _ _ Hs).
      by apply stored_table_entry.
    + rewrite Hg at 1. do 2 f_equal. lia.
Qed.

(** reading an embedding.  For every embedding except the last of its page,
    [unvme_read_embedding] returns an offset into the shared page at which the
    [vl] components of the stored embedding are found.  For the last embedding
    of a page the elapsed time is stored at byte 4096 of the 4096-byte page:
    the call is a heap overflow on every device and for every clock. *)
Theorem read_embedding_correct {D : Type} {prog0 : isp_prog} `{Reliable D prog0} (o : oracle)
    (fuel : nat) (st : embed_state) (idx vl tid qid : Z) (w : world D) :
  tsc_advances o (w_tick w + 2) -> vl_ok vl -> id_ok tid vl idx -> length (es_from_page st) = PGSIZE ->
  (idx `mod` per_page vl < per_page vl - 1 ->
   exists off st' w',
     run o (unvme_read_embedding (S fuel) st idx vl tid qid) w = Some ((off, st'), w') /\
     length (es_from_page st') = PGSIZE /\
     forall k, 0 <= k < vl ->
       nth (Z.to_nat (off / 4 + k)) (ints (es_from_page st')) 0 =
         embed_row (ssd_of (w_dev w)) tid vl idx k) /\
  (idx `mod` per_page vl = per_page vl - 1 ->
   run o (unvme_read_embedding (S fuel) st idx vl tid qid) w = None).
Proof.
  intros Htsc Hok Hid Hl. split; intros Hlast.
  - destruct (read_embedding_wp o fuel _ st idx vl tid qid w Htsc) as (v & st' & w' & E & Hl' & Hp & _);
      [lia|done..|].
    do 3 eexists. split; [exact E|]. split; [exact Hl'|]. intros k Hk.
    by eapply read_embedding_row.
  - eapply (read_embedding_last o fuel); [exact Htsc|lia|done..].
Qed.

(** ** Witnesses: the reference device and small tables *)

Definition ones (n : nat) : list Z := replicate n 1.

Lemma ones_ok n : Forall i32_ok (ones n).
Proof. apply Forall_replicate. unfold i32_ok. lia. Qed.

Definition state0 : embed_state := EmbedState 3 4096 (zeros PGSIZE) 0.

Lemma write_table_stores_witness :
  exists w', run null_oracle (unvme_write_table state0 (ones (Z.to_nat 1056)) 32 33 1)
               (blank_world pass_prog) = Some (tt, w') /\
    table_stored (ssd_of (w_dev (blank_world pass_prog))) (ssd_of (w_dev w')) 1 (Z.to_nat (32 * 33 / 1024))
      (ones (Z.to_nat 1056)).
Proof.
  apply (write_table_stores null_oracle state0 (ones (Z.to_nat 1056)) 32 33 1
           (blank_world pass_prog)).
  - lia.
  - lia.
  - lia.
  - lia.
  - unfold ones. rewrite length_replicate. lia.
  - apply ones_ok.
Defined.

Lemma table_sls_correct_witness :
  (exists m w', run null_oracle
    (unvme_write_table state0 (ones (Z.to_nat 1056)) 32 33 0 ≫= fun _ =>
     sls_fetch state0 [5; 3; 6; 32] 32 0 0 2 4096 (zeros PGSIZE))
    (blank_world (Embedding.embedding 32 0)) = Some (m, w') /\
    nth (Z.to_nat 160) (ints m) 0 = 1 /\ nth (Z.to_nat 192) (ints m) 0 = 0) /\
  (exists res w', run null_oracle
    (unvme_write_table state0 (ones (Z.to_nat 1056)) 32 33 0 ≫= fun _ =>
     unvme_sparse_length_sum 1 state0 [5; 3; 6; 32] 32 1 1 0 0 2)
    (blank_world (Embedding.embedding 32 0)) = Some (res, w') /\
    res = garbage null_oracle 3 (length res)).
Proof.
  destruct (table_sls_correct 32 0 null_oracle 0 state0 (ones (Z.to_nat 1056)) [5; 3; 6; 32]
              33 0 0 4096 1 1 2 (zeros PGSIZE) (blank_world (Embedding.embedding 32 0)))
    as ((m & w' & E & Hm) & (res & w2 & E2 & _ & _ & Hg)).
  - by left.
  - lia.
  - lia.
  - lia.
  - unfold ones. rewrite length_replicate. lia.
  - apply ones_ok.
  - split; [simpl; lia|]. intros i Hi. destruct i as [|[|i]]; [done|done|lia].
  - apply length_zeros.
  - vm_compute. reflexivity.
  - intros n m Hnm. simpl in *. lia.
  - split.
    + exists m, w'. split; [exact E|].
      split; (rewrite Hm by lia; vm_compute; reflexivity).
    + exists res, w2. split; [exact E2|exact Hg].
Defined.

Lemma read_embedding_correct_witness :
  run null_oracle (unvme_read_embedding 1 state0 31 32 0 0) (blank_world pass_prog) = None.
Proof.
  destruct (read_embedding_correct null_oracle 0 state0 31 32 0 0 (blank_world pass_prog))
    as [_ H].
  - intros n m Hnm. simpl in *. lia.
  - apply vl_ok_32.
  - done.
  - apply length_zeros.
  - apply H. reflexivity.
Defined.
