(* ===== verification/EmbedSession.v ===== *)
(** * Sequences of calls to the embedding library

    What the library's callers rely on between calls: the full pages of a table
    that was stored are read back, except the last row of each page, also after
    other tables were stored; and what they must not
    rely on: the pointer [unvme_read_embedding] returns points into the one
    page [fromPageAlloc], which the next call overwrites. *)

From S2P Require Import Prelude Mem Ebpf Nvme Prog NpsumIsp NpsumProofs EmbedLib EmbedProofs.

Open Scope string_scope.
Open Scope list_scope.
Open Scope Z_scope.

(** A table the library can store: rows of [vl] integers in at most 250000
    pages. *)
Record storable (vl tl tid : Z) (table : list Z) : Prop := Storable {
  sto_rows : 0 <= tl;
  sto_size : vl * tl <= 1024 * 250000;
  sto_id : 0 <= tid < 8000;
  sto_length : Z.of_nat (length table) = vl * tl;
  sto_ints : Forall i32_ok table
}.

(** Storing another table leaves the rows of a stored one alone. *)
Lemma stored_other s s' tid tid' vl tl' table' idx k :
  vl_ok vl -> storable vl tl' tid' table' -> tid <> tid' -> id_ok tid vl idx ->
  table_stored s s' tid' (Z.to_nat (vl * tl' / 1024)) table' ->
  embed_row s' tid vl idx k = embed_row s tid vl idx k.
Proof.
  intros Hvl [Htl Hsz Hid _ _] Hne [Ht Hi] [_ Hother _]. unfold embed_row.
  rewrite Hother; [done|]. unfold embed_block.
  pose proof (embed_page_range vl idx Hvl Hi) as Hr.
  assert (Hv0 : 0 < vl) by apply Hvl.
  assert (Hp : 0 <= vl * tl' / 1024 <= 250000)
    by (split; [apply Z.div_pos; nia|apply Z.div_le_upper_bound; lia]).
  rewrite Z2Nat.id by lia. lia.
Qed.

(** The row at position [r] of the page that holds row [idx]. *)
Definition page_row (vl idx r : Z) : Z := idx / per_page vl * per_page vl + r.

Lemma page_row_block tid vl idx r :
  vl_ok vl -> 0 <= r < per_page vl ->
  embed_block tid vl (page_row vl idx r) = embed_block tid vl idx /\
  page_row vl idx r `mod` per_page vl = r.
Proof.
  intros Hvl Hr. unfold embed_block, page_row. split.
  - rewrite Z.div_add_l, (Z.div_small r), Z.add_0_r by lia. done.
  - rewrite Z.add_comm, Z.mod_add by lia. apply Z.mod_small. done.
Qed.

(** * Properties *)

(** C31: what is stored is read back, as far as it was stored and can be read.
    After storing table [a] and then table [b] under another id, for every row
    id in range: if the row is the last of its page, reading it is a heap
    overflow (the elapsed time is stored behind the page); otherwise the call
    returns where the row is found, and it is the caller's row of [a] if it
    lies in a full page of [a], else what the SSD held there before
    ([table_entry]): the rows behind the last full page are never stored.  The
    tables do not interfere. *)
Theorem tables_roundtrip {D : Type} {prog0 : isp_prog} `{Reliable D prog0} (o : oracle)
    (fuel : nat) (st : embed_state) (vl tla tlb tida tidb qid idx : Z) (a b : list Z) (w : world D) :
  vl_ok vl -> storable vl tla tida a -> storable vl tlb tidb b -> tida <> tidb ->
  id_ok tida vl idx -> length (es_from_page st) = PGSIZE ->
  tsc_advances o (w_tick w + 6) ->
  let session :=
    unvme_write_table st a vl tla tida ≫= fun _ =>
    unvme_write_table st b vl tlb tidb ≫= fun _ =>
    unvme_read_embedding (S fuel) st idx vl tida qid in
  (idx `mod` per_page vl = per_page vl - 1 -> run o session w = None) /\
  (idx `mod` per_page vl <> per_page vl - 1 ->
   exists off st' w', run o session w = Some ((off, st'), w') /\
     forall k, 0 <= k < vl ->
       nth (Z.to_nat (off / 4 + k)) (ints (es_from_page st')) 0 =
         table_entry (ssd_of (w_dev w)) tida vl tla a idx k).
Proof.
  intros Hvl Ha Hb Hne Hid Hl Htsc session.
  assert (Hv0 : 0 < vl) by apply Hvl.
  destruct (per_page_pos vl Hvl) as [Hq _].
  pose proof (Z.mod_pos_bound idx (per_page vl) Hq) as Hm.
  destruct (write_table_wp o st a vl tla tida w) as ([] & w1 & E1 & HTa & Ht1); [done|apply Ha..|].
  destruct (write_table_wp o st b vl tlb tidb w1) as ([] & w2 & E2 & HTb & Ht2); [done|apply Hb..|].
  unfold session. rewrite run_bind, E1, run_bind, E2. split; intros Hlast.
  - eapply (read_embedding_last o fuel); [exact Htsc|lia|done..].
  - destruct (read_embedding_wp o fuel _ st idx vl tida qid w2 Htsc)
      as (v & st' & w3 & E3 & _ & Hp & _); [lia|done|done|done|lia|].
    do 3 eexists. split; [exact E3|].
    assert (Hbefore : idx `mod` per_page vl < per_page vl - 1) by lia.
    intros k Hk. rewrite (read_embedding_row _ _ _ _ _ _ _ Hvl Hk Hbefore Hp).
    rewrite (stored_other _ _ _ _ _ _ _ _ _ Hvl Hb Hne Hid HTb).
    by apply stored_table_entry.
Qed.

(** the result of [unvme_read_embedding] does not survive the next call.
    After reading row [i] and then row [j], the memory the first call returned
    holds the row at [i]'s position in [j]'s page, whatever row [i] was (unless
    it is the row right behind [j], where the second call's time stamp is). *)
Theorem read_embedding_aliases {D : Type} {prog0 : isp_prog} `{Reliable D prog0} (o : oracle)
    (fuel : nat) (st : embed_state) (vl ti tj qid i j : Z) (w : world D) :
  vl_ok vl -> id_ok ti vl i -> id_ok tj vl j -> length (es_from_page st) = PGSIZE ->
  i `mod` per_page vl < per_page vl - 1 -> j `mod` per_page vl < per_page vl - 1 ->
  i `mod` per_page vl <> j `mod` per_page vl + 1 ->
  tsc_advances o (w_tick w + 6) ->
  exists offi offj st' w',
    run o ('(offi, st1) ← unvme_read_embedding (S fuel) st i vl ti qid;
           '(offj, st2) ← unvme_read_embedding (S fuel) st1 j vl tj qid;
           mret (offi, offj, st2)) w = Some ((offi, offj, st'), w') /\
    forall k, 0 <= k < vl ->
      nth (Z.to_nat (offi / 4 + k)) (ints (es_from_page st')) 0 =
        embed_row (ssd_of (w_dev w)) tj vl (page_row vl j (i `mod` per_page vl)) k.
Proof.
  intros Hvl Hi Hj Hl Hil Hjl Hij Htsc. destruct (per_page_pos vl Hvl) as [Hq Hv].
  pose proof (proj2 Hvl) as Evl. pose proof (Z.mod_pos_bound i (per_page vl) Hq) as Hmi.
  pose proof (Z.mod_pos_bound j (per_page vl) Hq) as Hmj.
  destruct (read_embedding_wp o fuel _ st i vl ti qid w Htsc)
    as (v & st1 & w1 & E1 & Hl1 & _ & Hd1 & Ht1); [lia|done..|].
  destruct (read_embedding_wp o fuel _ st1 j vl tj qid w1 Htsc)
    as (v2 & st2 & w2 & E2 & _ & Hp2 & _); [lia|done..|].
  do 4 eexists. split; [by rewrite run_bind, E1, run_bind, E2|].
  intros k Hk. destruct (page_row_block tj vl j (i `mod` per_page vl) Hvl Hmi) as [Eb Em].
  unfold embed_row. rewrite Eb, Em, Hp2, Hd1.
  rewrite nth_insert by (rewrite length_ints_block; nia).
  rewrite (Z.mul_comm 4), Z.div_mul by lia. by rewrite decide_False by nia.
Qed.

(** ** Witnesses *)

(** A table of one page: row [i] is 32 times [c]. *)
Definition const_table (c : Z) : list Z := replicate (Z.to_nat 1024) c.

Lemma const_table_storable tid c : 0 <= tid < 8000 -> i32_ok c -> storable 32 32 tid (const_table c).
Proof.
  intros Ht Hc. split; [lia|lia|done| |by apply Forall_replicate].
  unfold const_table. rewrite length_replicate. lia.
Qed.

Lemma tables_roundtrip_witness :
  exists off st' w',
    run null_oracle
      (unvme_write_table state0 (const_table 7) 32 32 0 ≫= fun _ =>
       unvme_write_table state0 (const_table 9) 32 32 1 ≫= fun _ =>
       unvme_read_embedding 1 state0 3 32 0 0) (blank_world pass_prog) = Some ((off, st'), w') /\
    nth (Z.to_nat (off / 4 + 5)) (ints (es_from_page st')) 0 = 7.
Proof.
  destruct (tables_roundtrip null_oracle 0 state0 32 32 32 0 1 0 3 (const_table 7) (const_table 9)
              (blank_world pass_prog)) as [_ H].
  - apply vl_ok_32.
  - apply const_table_storable; [lia|unfold i32_ok; lia].
  - apply const_table_storable; [lia|unfold i32_ok; lia].
  - lia.
  - done.
  - apply length_zeros.
  - intros n m Hnm. simpl in *. lia.
  - destruct H as (off & st' & w' & E & Hk); [done|].
    exists off, st', w'. split; [exact E|].
    rewrite (Hk 5 ltac:(clear; lia)). vm_compute. reflexivity.
Defined.

Lemma read_embedding_aliases_witness :
  exists offi offj st' w',
    run null_oracle ('(offi, st1) ← unvme_read_embedding 1 state0 3 32 0 0;
                     '(offj, st2) ← unvme_read_embedding 1 st1 40 32 1 0;
                     mret (offi, offj, st2)) (blank_world pass_prog) =
      Some ((offi, offj, st'), w') /\
    nth (Z.to_nat (offi / 4)) (ints (es_from_page st')) 0 =
      embed_row blank_ssd 1 32 (page_row 32 40 3) 0.
Proof.
  destruct (read_embedding_aliases null_oracle 0 state0 32 0 1 0 3 40 (blank_world pass_prog))
    as (offi & offj & st' & w' & E & Hk).
  - apply vl_ok_32.
  - done.
  - done.
  - apply length_zeros.
  - reflexivity.
  - reflexivity.
  - done.
  - intros n m Hnm. simpl in *. lia.
  - exists offi, offj, st', w'. split; [exact E|].
    specialize (Hk 0 ltac:(lia)). rewrite Z.add_0_r in Hk. exact Hk.
Defined.
