(* ===== verification/PatternMatch.v ===== *)
(** * The pattern-matching drivers (src/pattern_match, src/ioctl/mywc.c)

    They count "Lorem" in 32 MB of data from block 1024 on: hostread_pm.c reads
    everything with one [pread] and scans it, hostside_pm_pread.c and
    hostside_pm_ioctl.c scan it in chunks of 64 blocks, ssdside_pm.c and
    offloaded_pm.c let the SSD run strfilter.c on chunks of 128 blocks and of
    one block.  (mtssd_pm.c, which forks, is in [Forking].) *)

From S2P Require Import Prelude Mem Ebpf Nvme Prog NpsumIsp.

Open Scope string_scope.
Open Scope list_scope.
Open Scope Z_scope.

(** [strncmp(a, b, n)] on byte arrays; it stops at a common NUL and faults when
    it runs off either array. *)
Fixpoint strncmp (a b : list Z) (n : nat) {struct n} : option Z :=
  match n with
  | O => Some 0
  | S n' =>
      match a, b with
      | x :: a', y :: b' =>
          if decide (x <> y) then Some (x - y)
          else if decide (x = 0) then Some 0 else strncmp a' b' n'
      | _, _ => None
      end
  end.

(** [char target_data[MAX_TARGET_LEN] = "Lorem"; target_len = strlen(target_data)]. *)
Definition target_data : list Z := lorem ++ zeros 11.
Definition target_len : nat := 5.

(** [for (i = 0; i < n; i++) if (data[i] == target_data[0])
     if (strncmp(data + i, target_data, len) == 0) cnt++]. *)
Definition scan (data target : list Z) (len n : nat) (cnt : Z) : option Z :=
  for_ n (fun i cnt =>
    c ← data !! i;
    t ← target !! 0%nat;
    if decide (c = t) then
      r ← strncmp (drop i data) target len;
      Some (if decide (r = 0) then i32 (cnt + 1) else cnt)
    else Some cnt) cnt.

Definition data_blk : Z := 8 * 1024.
Definition data_size : Z := 4096 * data_blk.

(** ** hostread_pm.c *)
Definition hostread_main : prog ioE Z :=
  dev ← call (Open NVME_PATH ["O_RDWR"]);
  '(_, data) ← call (Malloc (Z.to_nat data_size));
  if decide (dev < 0) then
    call (Printf "dev : %d\n" [AInt dev]) ;; mret 0
  else
    let data := overlay (zeros (Z.to_nat data_size)) data in
    start ← now_us;
    io_start ← now_us;
    '(_, data) ← call (Pread dev data data_size (1024 * 4096));
    io_end ← now_us;
    let io_time := io_end - io_start in
    comp_start ← now_us;
    cnt ← eval (scan data target_data target_len
                  (Z.to_nat (data_size - Z.of_nat target_len + 1)) 0);
    comp_end ← now_us;
    let comp_time := comp_end - comp_start in
    end_ ← now_us;
    call (Printf "Result: %d\n" [AInt cnt]) ;;
    call (Printf "I/O time : %.2f ms\n" [AQuot io_time 1000]) ;;
    call (Printf "Computation time : %.2f ms\n" [AQuot comp_time 1000]) ;;
    mret 0.

(** ** hostside_pm_pread.c and hostside_pm_ioctl.c: chunks of 64 blocks *)

Section chunks.
Variables (one_read_blk : Z).

Definition one_read_size : Z := 4096 * one_read_blk.

Definition scan_chunk (data : list Z) (cnt : Z) : prog ioE Z :=
  eval (scan data target_data target_len
          (Z.to_nat (one_read_size - Z.of_nat target_len + 1)) cnt).

(** One chunk read with [pread]; a short read ends the program ([inr]). *)
Definition pread_chunk (dev : Z) (i : nat) (s : list Z * Z * Z * Z)
    : prog ioE ((list Z * Z * Z * Z) + Z)%type :=
  let '(data, cnt, io_time, comp_time) := s in
  io_start ← now_us;
  '(err, data) ← call (Pread dev data one_read_size
                         (i32 ((1024 + Z.of_nat i * one_read_blk) * 4096)));
  io_end ← now_us;
  let io_time := io_time + (io_end - io_start) in
  if decide (err <> one_read_size) then
    call (Printf "iteration %d: err %d\n" [AInt (Z.of_nat i); AInt err]) ;;
    call (Printf "ERROR: %s\n" [AErrno]) ;;
    mret (inr 0)
  else
    comp_start ← now_us;
    cnt ← scan_chunk data cnt;
    comp_end ← now_us;
    mret (inl (data, cnt, io_time, comp_time + (comp_end - comp_start))).

(** One chunk read with [NVME_IOCTL_SUBMIT_IO]; a failed read is skipped. *)
Definition ioctl_chunk (dev addr : Z) (i : nat) (s : list Z * Z * Z * Z)
    : prog ioE (list Z * Z * Z * Z) :=
  let '(data, cnt, io_time, comp_time) := s in
  let io := mk_io 0x02 (one_read_blk - 1) addr (1024 + Z.of_nat i * one_read_blk) in
  io_start ← now_us;
  '(err, data) ← call (SubmitIo dev io data);
  io_end ← now_us;
  let io_time := io_time + (io_end - io_start) in
  if decide (err <> 0) then
    call (Printf "iteration %d: err %d\n" [AInt (Z.of_nat i); AInt err]) ;;
    mret (data, cnt, io_time, comp_time)
  else
    comp_start ← now_us;
    cnt ← scan_chunk data cnt;
    comp_end ← now_us;
    mret (data, cnt, io_time, comp_time + (comp_end - comp_start)).

Definition nchunks (blks : Z) : nat := Z.to_nat (blks / one_read_blk).
End chunks.

(** The memory has [data_size] bytes although a chunk is smaller; the last
    accumulated times are not printed. *)
Definition hostside_pm_pread_main : prog ioE Z :=
  dev ← call (Open NVME_PATH ["O_RDWR"; "O_DIRECT"; "O_SYNC"]);
  '(_, data) ← call (Malloc (Z.to_nat data_size));
  let data := overlay (zeros (Z.to_nat data_size)) data in
  r ← for_exit 16 (fun t (s : list Z * Z * Z) =>
    let '(data, io_acc, comp_acc) := s in
    r ← for_exit (nchunks 64 data_blk) (pread_chunk 64 dev) (data, 0, 0, 0);
    match r with
    | inr code => mret (inr code)
    | inl (data, cnt, io_time, comp_time) =>
        call (Printf "Result: %d\n" [AInt cnt]) ;;
        call (Printf "I/O time : %.2f ms\n" [AQuot io_time 1000]) ;;
        call (Printf "Computation time : %.2f ms\n" [AQuot comp_time 1000]) ;;
        mret (inl (data, io_acc + io_time, comp_acc + comp_time))
    end) (data, 0, 0);
  match r with
  | inr code => mret code
  | inl _ => mret 0
  end.

(** One round of hostside_pm_ioctl.c; [data] is a global array. *)
Definition ioctl_round (dev addr : Z) (s : list Z * Z * Z * Z) : prog ioE (list Z * Z * Z * Z) :=
  let '(data, _, _, _) := s in
  for_ (nchunks 64 data_blk) (ioctl_chunk 64 dev addr) (data, 0, 0, 0).

Definition hostside_pm_ioctl_main (addr : Z) : prog ioE Z :=
  dev ← call (Open NVME_PATH ["O_RDWR"]);
  '(_, total_acc, io_acc, comp_acc) ← for_ 16 (fun t s =>
    let '(data, total_acc, io_acc, comp_acc) := s in
    start ← now_us;
    '(data, _, io_time, comp_time) ← ioctl_round dev addr (data, 0, 0, 0);
    end_ ← now_us;
    mret (data, total_acc + (end_ - start), io_acc + io_time, comp_acc + comp_time))
    (zeros (Z.to_nat (one_read_size 64)), 0, 0, 0);
  call (Printf "---- Test end ----\n" []) ;;
  call (Printf "Average time: %.2f ms\n" [AQuot total_acc (1000 * 16)]) ;;
  call (Printf "Average I/O time: %.2f ms\n" [AQuot io_acc (16 * 1000)]) ;;
  call (Printf "Average Comptation time: %.2f ms\n" [AQuot comp_acc (16 * 1000)]) ;;
  mret 0.

(** ** ssdside_pm.c: the SSD scans chunks of 128 blocks *)

Definition ssd_chunk_cmd (addr one_read_blk : Z) (i : nat) : passthru_cmd :=
  mk_cmd 0x82 0 0 0 addr (one_read_blk * 4096) (1024 + Z.of_nat i * one_read_blk)
    (one_read_blk - 1) 0 (-1).

Definition ssd_chunk (dev addr : Z) (i : nat) (s : list Z * Z) : prog ioE (list Z * Z) :=
  let '(data, cnt) := s in
  '(err, result, data) ← call (IoCmd dev (ssd_chunk_cmd addr 128 i) data);
  if decide (err <> 0) then
    call (Printf "iteration %d: err %d\n" [AInt (Z.of_nat i); AInt err]) ;;
    mret (data, cnt)
  else mret (data, i32 (cnt + result)).

Definition ssd_round (dev addr : Z) (data : list Z) : prog ioE (list Z * Z) :=
  for_ (nchunks 128 data_blk) (ssd_chunk dev addr) (data, 0).

(** [time_acc] is not initialised. *)
Definition ssdside_pm_main (addr time_acc0 : Z) : prog ioE Z :=
  dev ← call (Open NVME_PATH ["O_RDWR"]);
  '(_, time_acc) ← for_ 1 (fun t s =>
    let '(data, time_acc) := s in
    start ← now_us;
    '(data, _) ← ssd_round dev addr data;
    end_ ← now_us;
    mret (data, time_acc + (end_ - start))) (zeros (Z.to_nat (one_read_size 128)), time_acc0);
  report_avg true time_acc 1 ;;
  mret 0.

(** ** offloaded_pm.c: the SSD scans one block at a time *)

Definition offloaded_cmd (slba nlb p0 p1 : Z) : passthru_cmd :=
  mk_cmd 0x82 p0 p1 0 0 (nlb * 4096) slba (nlb - 1) 0 (-1).

(** Returns [cmd.result], also after an error. *)
Definition offloaded_callprog (dev slba nlb p0 p1 : Z) : prog ioE Z :=
  read_fd ← call (Open "./read.txt" ["O_CREAT"; "O_RDWR"]);
  '(err, result, _) ← call (IoCmd dev (offloaded_cmd slba nlb p0 p1) []);
  when (bool_decide (err <> 0)) (call (Printf "ioctl issued err %d\n" [AInt err])) ;;
  mret (i32 result).

(** [start = (tv.tv_sec) * 1000 + (tv.tv_usec) / 1000]. *)
Definition now_ms : prog ioE Z :=
  '(sec, usec) ← call Gettimeofday; Ret (sec * 1000 + Z.quot usec 1000).

Definition offloaded_pm_main : prog ioE Z :=
  dev ← call (Open NVME_PATH ["O_RDWR"]);
  start ← now_ms;
  '(cnt, _) ← for_ (nchunks 1 data_blk) (fun i s =>
    let '(cnt, slba) := s in
    r ← offloaded_callprog dev slba 1 0 0;
    mret (i32 (cnt + r), slba + 1)) (0, 1024);
  end_ ← now_ms;
  call (Printf "ioctl time : %f\n" [AQuot (end_ - start) 1000]) ;;
  call (Printf "result: %d\n" [AInt cnt]) ;;
  mret 0.

(** ** mywc.c: counts in a local file *)

Definition mywc_main (buf0 : list Z) : prog ioE Z :=
  fd ← call (Open "./data.txt" ["O_RDONLY"]);
  '(_, buf) ← call (Read fd buf0 32768);
  cnt ← eval (scan buf (lorem ++ zeros 5) 5 (Z.to_nat (32768 - 10)) 0);
  call (Printf "%s: %d\n" [AStr "Lorem"; AInt cnt]) ;;
  mret 0.
