(* ===== verification/PatternProofs.v ===== *)
(** * How many occurrences each pattern-matching driver counts

    [occurrences] is the specification: the number of positions at which
    "Lorem" occurs in a byte string.  The host drivers count it exactly on
    what they scan; scanning in chunks misses what straddles a chunk boundary,
    and the in-storage filter additionally never looks at the last position of
    its chunk. *)

From S2P Require Import Prelude Mem Ebpf Nvme Prog NpsumIsp NpsumProofs PatternMatch.

Open Scope string_scope.
Open Scope list_scope.
Open Scope Z_scope.

(** The occurrences at the first [n] positions, and all of them. *)
Definition occ_at (d : list Z) (n : nat) : Z := zcount n (lorem_at d).
Definition occurrences (d : list Z) : Z := occ_at d (length d - 4).

(** ** The scanning loop *)

Lemma strncmp_prefix (a t : list Z) n :
  (n <= length t)%nat -> (n <= length a)%nat -> Forall (fun x => x <> 0) (take n t) ->
  exists r, strncmp a (t : list Z) n = Some r /\ (r = 0 <-> take n a = take n t).
Proof.
  revert a t. induction n as [|n IH]; intros a t Ht Ha Hnz.
  - exists 0. split; [done|]. by rewrite !take_0.
  - destruct a as [|x a]; [simpl in Ha; lia|]. destruct t as [|y t]; [simpl in Ht; lia|].
    simpl in *. apply Forall_cons in Hnz as [Hy Hnz]. case_decide as Hxy.
    + exists (x - y). split; [done|]. split; [lia|]. intros [= -> _]. done.
    + subst y. rewrite decide_False by done.
      destruct (IH a t) as (r & E & Hr); [lia|lia|done|].
      exists r. split; [done|]. rewrite Hr. split; [by intros ->|by intros [= ->]].
Qed.

(** The positions below [n] at which the first [len] bytes of [target] occur. *)
Definition prefix_at (d target : list Z) (len i : nat) : bool :=
  bool_decide (take len (drop i d) = take len target).

Lemma scan_gen d target len n c :
  (0 < len <= length target)%nat -> Forall (fun x => x <> 0) (take len target) ->
  (n + len <= length d + 1)%nat -> i32_ok c ->
  scan d target len n c = Some (i32 (c + zcount n (prefix_at d target len))).
Proof.
  intros Hlt Hnz Hn Hc. unfold scan. apply count_loop; [|done].
  intros i c' Hi. destruct (lookup_lt_is_Some_2 d i) as [x Hx]; [lia|].
  destruct (lookup_lt_is_Some_2 target 0) as [t Ht0]; [lia|].
  rewrite Hx, Ht0. cbn [mbind option_bind]. unfold prefix_at.
  destruct (strncmp_prefix (drop i d) target len) as (r & E & Hr).
  { lia. }
  { rewrite length_drop. lia. }
  { done. }
  case_decide as Hx0.
  - rewrite E. cbn [mbind option_bind]. f_equal. destruct (decide (r = 0)) as [Hz|Hz].
    + by rewrite bool_decide_true by tauto.
    + by rewrite bool_decide_false by tauto.
  - rewrite bool_decide_false; [done|]. intros E'. apply Hx0.
    apply (f_equal (.!! 0%nat)) in E'. rewrite !lookup_take_lt, lookup_drop in E' by lia.
    rewrite Nat.add_0_r, Hx, Ht0 in E'. by injection E'.
Qed.

(** A target buffer that starts with "Lorem". *)
Lemma scan_spec d target n c :
  take 5 target = lorem -> (5 <= length target)%nat ->
  (n + 4 <= length d)%nat -> i32_ok c ->
  scan d target 5 n c = Some (i32 (c + occ_at d n)).
Proof.
  intros Ht Hlt Hn Hc. rewrite scan_gen; [|lia| |lia|done].
  - do 3 f_equal. apply zcount_ext. intros i Hi. unfold prefix_at. by rewrite Ht.
  - rewrite Ht. repeat constructor; done.
Qed.

Lemma take_target_data : take 5 target_data = lorem.
Proof. done. Qed.

Lemma length_target_data : (5 <= length target_data)%nat.
Proof. simpl. lia. Qed.

Lemma occ_at_bounds d n : 0 <= occ_at d n <= Z.of_nat n.
Proof. apply zcount_bounds. Qed.

(** ** Chunks *)

(** Position [i] of chunk [j] of a string cut every [c] bytes. *)
Lemma lorem_at_take d c i :
  (i + 5 <= c)%nat -> lorem_at (take c d) i = lorem_at d i.
Proof.
  intros Hi. unfold lorem_at. rewrite skipn_firstn_comm, take_take.
  by rewrite Nat.min_l by lia.
Qed.

Lemma lorem_at_drop d m i : lorem_at (drop m d) i = lorem_at d (m + i).
Proof. unfold lorem_at. by rewrite drop_drop. Qed.

(** Nothing occurs in the last four positions. *)
Lemma lorem_at_end d i : (length d < i + 5)%nat -> lorem_at d i = false.
Proof.
  intros Hi. apply bool_decide_false. intros E. apply (f_equal length) in E.
  rewrite length_take, length_drop in E. change (length lorem) with 5%nat in E. lia.
Qed.

Lemma zcount_plus n m P : zcount (n + m) P = zcount n P + zcount m (fun i => P (n + i)%nat).
Proof. apply zsum_plus. Qed.

Lemma zcount_0 n P : (forall i, (i < n)%nat -> P i = false) -> zcount n P = 0.
Proof.
  intros HP. unfold zcount. induction n as [|n IH]; simpl; [done|].
  rewrite HP, IH by auto. done.
Qed.

(** Counting up to the end of the string counts everything. *)
Lemma occurrences_all d : occurrences d = zcount (length d) (lorem_at d).
Proof.
  unfold occurrences, occ_at. destruct (decide (length d < 4)%nat).
  - replace (length d - 4)%nat with 0%nat by lia. symmetry. apply zcount_0.
    intros i Hi. apply lorem_at_end. lia.
  - replace (length d) with ((length d - 4) + 4)%nat at 2 by lia.
    rewrite zcount_plus, (zcount_0 4); [lia|]. intros i Hi. apply lorem_at_end. lia.
Qed.

Lemma zcount_chunks c n P :
  zcount (c * n) P = zsum n (fun j => zcount c (fun i => P (c * j + i)%nat)).
Proof.
  induction n as [|n IH]; [by rewrite Nat.mul_0_r|].
  rewrite Nat.mul_succ_r, zcount_plus, IH. done.
Qed.

(** Chunk [j], and what a scan that stops [e] positions before the end of each
    chunk does not see in it. *)
Definition chunk (d : list Z) (c j : nat) : list Z := take c (drop (c * j) d).
Definition missed (d : list Z) (c e j : nat) : Z :=
  zcount e (fun i => lorem_at d (c * j + ((c - e) + i))%nat).

(** A scan by chunks finds everything except what it does not look at. *)
Lemma chunk_count d c n e :
  (4 <= e <= c)%nat -> length d = (c * n)%nat ->
  occurrences d = zsum n (fun j => occ_at (chunk d c j) (c - e)) + zsum n (missed d c e).
Proof.
  intros He Hl. rewrite occurrences_all, Hl, zcount_chunks, <- zsum_add.
  apply zsum_ext. intros j Hj. replace c with ((c - e) + e)%nat at 1 by lia.
  rewrite zcount_plus. f_equal.
  apply zcount_ext. intros i Hi. unfold chunk.
  rewrite lorem_at_take, lorem_at_drop by lia. done.
Qed.

(** ** The data set *)

Definition region (s : ssd) : list Z := read_blocks s 1024 (Z.to_nat data_blk).

Lemma length_region s : length (region s) = Z.to_nat data_size.
Proof.
  unfold region. rewrite length_read_blocks, PGSIZE_eq.
  change data_size with 33554432. change data_blk with 8192. lia.
Qed.

Lemma drop_read_blocks s l a b :
  (a <= b)%nat -> drop (PGSIZE * a) (read_blocks s l b) = read_blocks s (l + Z.of_nat a) (b - a).
Proof.
  intros Hab. replace b with (a + (b - a))%nat at 1 by lia. rewrite read_blocks_app.
  by rewrite drop_app_length' by (by rewrite length_read_blocks).
Qed.

Lemma take_read_blocks s l a b :
  (a <= b)%nat -> take (PGSIZE * a) (read_blocks s l b) = read_blocks s l a.
Proof.
  intros Hab. replace b with (a + (b - a))%nat by lia. rewrite read_blocks_app.
  by rewrite take_app_length' by (by rewrite length_read_blocks).
Qed.

Lemma chunk_blocks s n nb j :
  (nb * (j + 1) <= n)%nat ->
  chunk (read_blocks s 1024 n) (PGSIZE * nb) j =
    read_blocks s (1024 + Z.of_nat j * Z.of_nat nb) nb.
Proof.
  intros Hj. unfold chunk. rewrite <- Nat.mul_assoc, drop_read_blocks by lia.
  rewrite take_read_blocks by lia. f_equal. lia.
Qed.

(** ** The drivers *)

Lemma region_proper s s' : same_blocks s s' -> region s = region s'.
Proof. intros H. by apply read_blocks_proper. Qed.

Lemma occurrences_region_ok s : i32_ok (occurrences (region s)).
Proof.
  unfold occurrences. rewrite length_region.
  assert (Hn : Z.of_nat (Z.to_nat data_size - 4) <= 33554432)
    by (change data_size with 33554432; lia).
  revert Hn. generalize (Z.to_nat data_size - 4)%nat. intros n Hn.
  pose proof (occ_at_bounds (region s) n) as Hb. revert Hb.
  generalize (occ_at (region s) n). intros z Hb. unfold i32_ok. lia.
Qed.

(** A sum of counts over the chunks of the data set never overflows an [int]. *)
Lemma chunk_counts_ok d c n e :
  (c * n <= Z.to_nat data_size)%nat ->
  forall m, (m <= n)%nat -> i32_ok (zsum m (fun j => occ_at (chunk d c j) (c - e))).
Proof.
  intros Hc m Hm.
  pose proof (zsum_bounds m (fun j => occ_at (chunk d c j) (c - e)) 0 (Z.of_nat (c - e))
    ltac:(intros; apply occ_at_bounds)) as Hb.
  revert Hb. generalize (zsum m (fun j => occ_at (chunk d c j) (c - e))). intros z Hb.
  change data_size with 33554432 in Hc. unfold i32_ok. nia.
Qed.

Definition lines_of (fmt : string) (out : list line) : list (list arg) :=
  snd <$> filter (fun l => l.1 = fmt) out.

Lemma lines_of_app fmt a b : lines_of fmt (a ++ b) = lines_of fmt a ++ lines_of fmt b.
Proof. unfold lines_of. by rewrite filter_app, fmap_app. Qed.

Section host.
Context {D : Type} {prog0 : isp_prog} `{Reliable D prog0} (o : oracle).
Implicit Types (w : world D).

Lemma hostread_wp w :
  0 <= or_fd o NVME_PATH ->
  wp o hostread_main w (fun r w' => r = 0 /\
    lines_of "Result: %d\n" (w_out w') = lines_of "Result: %d\n" (w_out w) ++
      [[AInt (occurrences (region (ssd_of (w_dev w))))]]).
Proof.
  intros Hfd. unfold hostread_main. apply wp_bind. eapply wp_call; [done|].
  apply wp_bind. eapply wp_call; [done|]. cbv beta iota. rewrite decide_False by lia.
  wp_time. wp_time. apply wp_bind. apply wp_pread; [|done|done|].
  { rewrite length_overlay, length_resize. change data_size with 33554432. lia. }
  intros d' Hd. change (1024 * 4096 / 4096) with 1024.
  change (data_size / 4096) with data_blk. cbn [tick w_dev].
  fold (region (ssd_of (w_dev w))).
  rewrite overlay_full by (by rewrite length_region, length_overlay, length_resize).
  wp_time. wp_time. apply wp_bind. eapply wp_eval.
  { apply (scan_spec _ _ _ _ take_target_data length_target_data); [|done].
    rewrite length_region. change data_size with 33554432. unfold target_len. lia. }
  assert (Eocc : occ_at (region (ssd_of (w_dev w)))
            (Z.to_nat (data_size - Z.of_nat target_len + 1)) =
          occurrences (region (ssd_of (w_dev w)))).
  { unfold occurrences. rewrite length_region. apply (f_equal (occ_at _)).
    change data_size with 33554432. unfold target_len. lia. }
  rewrite Eocc, Z.add_0_l, i32_small.
  - wp_time. wp_time. apply wp_bind, wp_printf, wp_bind, wp_printf, wp_bind, wp_printf, wp_ret.
    split; [done|]. generalize (occurrences (region (ssd_of (w_dev w)))). intros z.
    cbn [emit w_out tick set_dev]. rewrite !lines_of_app. simpl. by rewrite !app_nil_r.
  - apply occurrences_region_ok.
Qed.

(** One round of hostside_pm_ioctl.c. *)
Lemma ioctl_round_wp fd addr data a b c w :
  length data = Z.to_nat (one_read_size 64) ->
  wp o (ioctl_round fd addr (data, a, b, c)) w (fun r _ =>
    let '(_, cnt, _, _) := r in
    cnt = zsum (Z.to_nat 128) (fun j =>
      occ_at (chunk (region (ssd_of (w_dev w))) (PGSIZE * Z.to_nat 64) j)
        (PGSIZE * Z.to_nat 64 - 4))).
Proof.
  intros Hl. unfold ioctl_round, nchunks. change (data_blk / 64) with 128.
  set (s := ssd_of (w_dev w)).
  set (f := fun j => occ_at (chunk (region s) (PGSIZE * Z.to_nat 64) j)
                       (PGSIZE * Z.to_nat 64 - 4)).
  assert (Hn : (PGSIZE * Z.to_nat 64 * Z.to_nat 128 <= Z.to_nat data_size)%nat).
  { change data_size with 33554432. rewrite PGSIZE_eq. lia. }
  pose proof (chunk_counts_ok (region s) (PGSIZE * Z.to_nat 64) (Z.to_nat 128) 4 Hn) as Hf.
  fold f in Hf.
  apply (wp_loop o (fun i r w' => let '(data, cnt, _, _) := r in
    length data = Z.to_nat (one_read_size 64) /\ ssd_of (w_dev w') = s /\ cnt = zsum i f)).
  - done.
  - intros i [[[d cnt] it] ct] w1 Hi (Hd & Hs & ->). unfold ioctl_chunk.
    wp_time. apply wp_bind. apply wp_io_read; [done| |].
    { apply bool_decide_pack. change (io_nblocks _) with 63. rewrite Hd.
      change (one_read_size 64) with 262144. lia. }
    intros d1 Hd1. wp_time. rewrite decide_False by tauto. wp_time.
    change (io_len _) with (Z.to_nat 64).
    change (io_slba _) with (u64 (1024 + Z.of_nat i * 64)). rewrite wrapu_small by lia.
    cbn [tick w_dev] in *. rewrite Hs in *.
    assert (Ec : read_blocks s (1024 + Z.of_nat i * 64) (Z.to_nat 64) =
                 chunk (region s) (PGSIZE * Z.to_nat 64) i).
    { unfold region; rewrite chunk_blocks by (change data_blk with 8192; lia). done. }
    assert (Elen : length (read_blocks s (1024 + Z.of_nat i * 64) (Z.to_nat 64)) = length d).
    { rewrite length_read_blocks, Hd, PGSIZE_eq. change (one_read_size 64) with 262144. lia. }
    rewrite overlay_full by done. unfold scan_chunk. apply wp_bind. eapply wp_eval.
    { apply (scan_spec _ _ _ _ take_target_data length_target_data); [|apply Hf; lia].
      rewrite Elen, Hd. change (one_read_size 64) with 262144. unfold target_len. lia. }
    wp_time. apply wp_ret. split_and!; [by rewrite Elen|done|].
    replace (i + 1)%nat with (S i) by lia. rewrite <- (i32_small (zsum (S i) f))
      by (apply Hf; lia).
    change (zsum (S i) f) with (zsum i f + f i).
    apply (f_equal (fun z => i32 (zsum i f + z))). unfold f. rewrite Ec.
    apply (f_equal (occ_at _)).
    change (one_read_size 64) with 262144. unfold target_len. rewrite PGSIZE_eq. lia.
  - intros [[[d cnt] it] ct] w1 (_ & _ & E). exact E.
Qed.
End host.

Section ssd.
Context {D : Type} `{Reliable D Strfilter.strfilter} (o : oracle).
Implicit Types (w : world D).

(** What the SSD reports for the 128 blocks from block [1024 + 128 i] on. *)
Definition ssd_count (s : ssd) (i : nat) : Z :=
  occ_at (read_blocks s (1024 + Z.of_nat i * 128) (Z.to_nat 128)) (PGSIZE * Z.to_nat 128 - 5).

(** One request of ssdside_pm.c or ispread.c. *)
Lemma wp_ssd_chunk_call fd addr i buf w (Q : Z * Z * list Z -> world D -> Prop) :
  (i < Z.to_nat 16777216)%nat -> length buf = Z.to_nat (one_read_size 128) ->
  (forall d' buf', same_blocks (ssd_of d') (ssd_of (w_dev w)) -> length buf' = length buf ->
     Q (0, u32 (ssd_count (ssd_of (w_dev w)) i), buf') (set_dev w d')) ->
  wp o (call (IoCmd fd (ssd_chunk_cmd addr 128 i) buf)) w Q.
Proof.
  intros Hi Hd HQ. apply wp_isp_read; [done| |].
  { apply orb_prop_intro. right. apply bool_decide_pack.
    change (pc_data_len _) with 524288. rewrite Hd.
    change (one_read_size 128) with 524288. lia. }
  intros p2 p3 p4.
  assert (Ed : data (isp_ctx_of (ssd_chunk_cmd addr 128 i) (ssd_of (w_dev w)) p2 p3 p4) =
               read_blocks (ssd_of (w_dev w)) (1024 + Z.of_nat i * 128) (Z.to_nat 128)).
  { cbn [isp_ctx_of data]. change (cmd_len _) with (Z.to_nat 128).
    change (pc_cdw10 _) with (u32 (1024 + Z.of_nat i * 128)).
    rewrite wrapu_small by lia. reflexivity. }
  do 2 eexists. split.
  { apply strfilter_gen_spec; [lia|]. rewrite Ed, length_read_blocks. apply Nat.le_refl. }
  intros d1 buf1 Hd1 Hb1. rewrite Ed. apply HQ; [|exact Hb1].
  rewrite Hd1. apply same_blocks_set_page.
Qed.

Lemma ssd_count_proper s s' i : same_blocks s s' -> ssd_count s i = ssd_count s' i.
Proof.
  intros Hs. unfold ssd_count.
  rewrite (read_blocks_proper _ _ Hs _ _ eq_refl _ _ eq_refl). reflexivity.
Qed.

(** The counts of successive requests over a string of blocks, and their sum. *)
Lemma ssd_count_chunk s n i :
  (Z.to_nat 128 * (i + 1) <= n)%nat ->
  ssd_count s i = occ_at (chunk (read_blocks s 1024 n) (PGSIZE * Z.to_nat 128) i)
                    (PGSIZE * Z.to_nat 128 - 5).
Proof. intros Hi. unfold ssd_count. rewrite chunk_blocks by done. reflexivity. Qed.

Lemma ssd_count_bounds s i : 0 <= ssd_count s i <= 524283.
Proof.
  unfold ssd_count. pose proof (occ_at_bounds
    (read_blocks s (1024 + Z.of_nat i * 128) (Z.to_nat 128)) (PGSIZE * Z.to_nat 128 - 5)) as Hb.
  revert Hb. generalize (occ_at (read_blocks s (1024 + Z.of_nat i * 128) (Z.to_nat 128))
    (PGSIZE * Z.to_nat 128 - 5)). intros z. rewrite PGSIZE_eq. lia.
Qed.

Lemma ssd_counts_ok s n : (n <= Z.to_nat 2048)%nat -> i32_ok (zsum n (ssd_count s)).
Proof.
  intros Hn. pose proof (zsum_bounds n (ssd_count s) 0 524283
    ltac:(intros; apply ssd_count_bounds)) as Hb.
  revert Hb. generalize (zsum n (ssd_count s)). intros z Hb. unfold i32_ok. lia.
Qed.

(** [cnt += cmd.result]. *)
Lemma ssd_count_step s n :
  (n < Z.to_nat 2048)%nat ->
  i32 (zsum n (ssd_count s) + u32 (ssd_count s n)) = zsum (n + 1) (ssd_count s).
Proof.
  intros Hn. rewrite Nat.add_1_r. rewrite <- (i32_small (zsum (S n) (ssd_count s)))
    by (apply ssd_counts_ok; lia).
  change (zsum (S n) (ssd_count s)) with (zsum n (ssd_count s) + ssd_count s n).
  apply i32_eq_iff. unfold wrapu. rewrite Zplus_mod_idemp_r. reflexivity.
Qed.

(** One round of ssdside_pm.c. *)
Lemma ssd_round_wp fd addr buf w :
  length buf = Z.to_nat (one_read_size 128) ->
  wp o (ssd_round fd addr buf) w (fun r _ =>
    r.2 = zsum (Z.to_nat 64) (ssd_count (ssd_of (w_dev w)))).
Proof.
  intros Hl. unfold ssd_round, nchunks. change (data_blk / 128) with 64.
  set (s := ssd_of (w_dev w)).
  apply (wp_loop o (fun i r w' =>
    length r.1 = Z.to_nat (one_read_size 128) /\ same_blocks (ssd_of (w_dev w')) s /\
    r.2 = zsum i (ssd_count s))).
  - done.
  - intros i [d cnt] w1 Hi (Hd & Hs & Hc). cbn [fst snd] in *. subst cnt.
    unfold ssd_chunk. apply wp_bind. apply wp_ssd_chunk_call; [lia|done|].
    intros d1 buf1 Hd1 Hb1. rewrite decide_False by tauto. apply wp_ret.
    cbn [fst snd set_dev w_dev]. split_and!.
    + by rewrite Hb1.
    + etransitivity; [exact Hd1|exact Hs].
    + rewrite (ssd_count_proper _ _ i Hs). apply ssd_count_step. lia.
  - intros [d cnt] w1 (_ & _ & Hc). exact Hc.
Qed.

(** The occurrences that the SSD's scan over [n] requests does not report. *)
Lemma ssd_counts_missed s n :
  occurrences (read_blocks s 1024 (Z.to_nat 128 * n)) =
    zsum n (ssd_count s) +
    zsum n (missed (read_blocks s 1024 (Z.to_nat 128 * n)) (PGSIZE * Z.to_nat 128) 5).
Proof.
  rewrite (chunk_count _ (PGSIZE * Z.to_nat 128) n 5).
  - apply (f_equal (fun z => z + _)). apply zsum_ext. intros j Hj. symmetry.
    apply ssd_count_chunk. nia.
  - rewrite PGSIZE_eq. lia.
  - rewrite length_read_blocks. lia.
Qed.
End ssd.

(** * Properties *)

(** Hostread_pm.c runs without a memory error on a reliable device and
    prints the exact number of occurrences of "Lorem" in the 8192 blocks from
    block 1024 on. *)
Theorem hostread_counts {D : Type} {prog0 : isp_prog} `{Reliable D prog0} (o : oracle)
    (w : world D) :
  0 <= or_fd o NVME_PATH ->
  exists w', run o hostread_main w = Some (0, w') /\
    lines_of "Result: %d\n" (w_out w') = lines_of "Result: %d\n" (w_out w) ++
      [[AInt (occurrences (region (ssd_of (w_dev w))))]].
Proof. intros Hfd. destruct (hostread_wp o w Hfd) as (r & w' & E & -> & HL). eauto. Qed.

(** Scanning on the SSD versus scanning on the host.  Both chunked scans
    complete without a memory error, and each count differs from the number of
    occurrences in the data set by exactly the occurrences it does not look at:
    for hostside_pm_ioctl.c (64-block chunks) those that start in the last 4
    positions of a chunk, for ssdside_pm.c on strfilter.c (128-block chunks)
    those that start in the last 5.  Neither counts anything twice. *)
Theorem chunked_scans_agree {D1 D2 : Type} {p1 : isp_prog}
    `{Reliable D1 p1} `{Reliable D2 Strfilter.strfilter} (o : oracle)
    (w1 : world D1) (w2 : world D2) (fd addr : Z) (data1 data2 : list Z) :
  same_blocks (ssd_of (w_dev w1)) (ssd_of (w_dev w2)) ->
  length data1 = Z.to_nat (one_read_size 64) ->
  length data2 = Z.to_nat (one_read_size 128) ->
  let d := region (ssd_of (w_dev w1)) in
  exists b1 cnt1 t1 t1' w1' b2 cnt2 w2',
    run o (ioctl_round fd addr (data1, 0, 0, 0)) w1 = Some ((b1, cnt1, t1, t1'), w1') /\
    run o (ssd_round fd addr data2) w2 = Some ((b2, cnt2), w2') /\
    occurrences d = cnt1 + zsum (Z.to_nat 128) (missed d (PGSIZE * Z.to_nat 64) 4) /\
    occurrences d = cnt2 + zsum (Z.to_nat 64) (missed d (PGSIZE * Z.to_nat 128) 5).
Proof.
  intros Hs Hl1 Hl2 d.
  destruct (ioctl_round_wp o fd addr data1 0 0 0 w1 Hl1) as ([[[b1 c1] t1] t1'] & w1' & E1 & ->).
  destruct (ssd_round_wp o fd addr data2 w2 Hl2) as ([b2 c2] & w2' & E2 & Hc).
  cbn [snd] in Hc. subst c2.
  do 8 eexists. split; [exact E1|]. split; [exact E2|].
  split.
  - apply chunk_count; unfold d; rewrite ?length_region, ?PGSIZE_eq;
      try (change data_size with 33554432); lia.
  - assert (E : d = read_blocks (ssd_of (w_dev w2)) 1024 (Z.to_nat 128 * Z.to_nat 64)).
    { unfold d. rewrite (region_proper _ _ Hs). unfold region. apply f_equal.
      change data_blk with 8192. lia. }
    rewrite E. apply ssd_counts_missed.
Qed.

Lemma hostread_counts_witness :
  exists w', run null_oracle hostread_main (blank_world pass_prog) = Some (0, w').
Proof.
  destruct (hostread_counts null_oracle (blank_world pass_prog)) as (w' & E & _).
  - simpl. lia.
  - exists w'. exact E.
Defined.

Lemma chunked_scans_agree_witness :
  exists b1 cnt1 t1 t1' w1',
    run null_oracle (ioctl_round 3 0 (zeros (Z.to_nat (one_read_size 64)), 0, 0, 0))
      (blank_world pass_prog) = Some ((b1, cnt1, t1, t1'), w1').
Proof.
  destruct (chunked_scans_agree null_oracle (blank_world pass_prog)
    (blank_world Strfilter.strfilter) 3 0 (zeros (Z.to_nat (one_read_size 64)))
    (zeros (Z.to_nat (one_read_size 128)))) as (b1 & c1 & t1 & t1' & w1' & _ & _ & _ & E & _).
  - reflexivity.
  - apply length_zeros.
  - apply length_zeros.
  - exists b1, c1, t1, t1', w1'. exact E.
Defined.

(** ** hostside_pm_pread.c counts like the ioctl version

    The driver reads chunks of 64 blocks with [pread] into a buffer of the
    size of the whole data set; what is behind the chunk in the buffer does
    not matter. *)

Open Scope string_scope.
Open Scope list_scope.

(** What a scan of the 64-block chunks finds in chunk [j] of the data set. *)
Definition host_count (s : ssd) (j : nat) : Z :=
  occ_at (chunk (region s) (PGSIZE * Z.to_nat 64) j) (PGSIZE * Z.to_nat 64 - 4).

Lemma host_counts_ok s n : (n <= Z.to_nat 128)%nat -> i32_ok (zsum n (host_count s)).
Proof.
  intros Hn. apply (chunk_counts_ok (region s) (PGSIZE * Z.to_nat 64) (Z.to_nat 128) 4); [|done].
  change data_size with 33554432. rewrite PGSIZE_eq. lia.
Qed.

(** Counting below the end of what was read does not see the rest. *)
Lemma occ_at_overlay c d n :
  (n + 4 <= length c)%nat -> (length c <= length d)%nat -> occ_at (overlay c d) n = occ_at c n.
Proof.
  intros Hn Hc. apply zcount_ext. intros i Hi.
  rewrite <- (lorem_at_take (overlay c d) (length c)) by lia. f_equal.
  unfold overlay. rewrite (take_ge c) by lia. apply take_app_length.
Qed.

Lemma host_count_scan s i buf :
  (i < Z.to_nat 128)%nat -> length buf = Z.to_nat data_size ->
  scan (overlay (read_blocks s (1024 + Z.of_nat i * 64) (Z.to_nat 64)) buf) target_data target_len
    (Z.to_nat (one_read_size 64 - Z.of_nat target_len + 1)) (zsum i (host_count s)) =
  Some (zsum (i + 1) (host_count s)).
Proof.
  intros Hi Hl.
  assert (Ec : read_blocks s (1024 + Z.of_nat i * 64) (Z.to_nat 64) =
               chunk (region s) (PGSIZE * Z.to_nat 64) i).
  { unfold region. rewrite chunk_blocks by (change data_blk with 8192; lia). done. }
  assert (Elen : length (chunk (region s) (PGSIZE * Z.to_nat 64) i) = Z.to_nat 262144).
  { rewrite <- Ec, length_read_blocks, PGSIZE_eq. lia. }
  replace (Z.to_nat (one_read_size 64 - Z.of_nat target_len + 1))
    with (PGSIZE * Z.to_nat 64 - 4)%nat
    by (change (one_read_size 64) with 262144; unfold target_len; rewrite PGSIZE_eq; lia).
  assert (Hd : length buf = Z.to_nat 33554432) by exact Hl.
  rewrite (scan_spec _ _ _ _ take_target_data length_target_data).
  - rewrite Ec, occ_at_overlay by (rewrite Elen, ?PGSIZE_eq, ?Hd; lia).
    fold (host_count s i). rewrite Nat.add_1_r. cbn [zsum]. apply (f_equal Some), i32_small.
    apply (host_counts_ok s (S i)). lia.
  - rewrite length_overlay, Hd, PGSIZE_eq. lia.
  - apply host_counts_ok. lia.
Qed.

Section pread.
Context {D : Type} {prog0 : isp_prog} `{Reliable D prog0} (o : oracle).
Implicit Types (w : world D).

Lemma pread_chunk_wp fd i buf it ct w (Q : (list Z * Z * Z * Z) + Z -> world D -> Prop) :
  (i < Z.to_nat 128)%nat -> length buf = Z.to_nat data_size ->
  (forall buf' it' ct' w', length buf' = Z.to_nat data_size ->
     ssd_of (w_dev w') = ssd_of (w_dev w) -> w_out w' = w_out w ->
     Q (inl (buf', zsum (i + 1) (host_count (ssd_of (w_dev w))), it', ct')) w') ->
  wp o (pread_chunk 64 fd i (buf, zsum i (host_count (ssd_of (w_dev w))), it, ct)) w Q.
Proof.
  intros Hi Hl HQ. unfold pread_chunk.
  rewrite (i32_small ((1024 + Z.of_nat i * 64) * 4096)) by (unfold i32_ok; lia).
  wp_time. apply wp_bind, wp_pread.
  - rewrite Hl. change (one_read_size 64) with 262144. change data_size with 33554432. lia.
  - apply Z.mod_mul. lia.
  - done.
  - intros d' Hd. rewrite Z.div_mul by lia. change (one_read_size 64 / 4096) with 64.
    wp_time. rewrite decide_False by tauto. wp_time. unfold scan_chunk. apply wp_bind.
    cbn [tick w_dev] in *. eapply wp_eval; [by apply host_count_scan|].
    wp_time. apply wp_ret. apply HQ; [by rewrite length_overlay|exact Hd|done].
Qed.

Lemma pread_round_wp fd buf w (Q : (list Z * Z * Z * Z) + Z -> world D -> Prop) :
  length buf = Z.to_nat data_size ->
  (forall buf' it ct w', length buf' = Z.to_nat data_size ->
     ssd_of (w_dev w') = ssd_of (w_dev w) -> w_out w' = w_out w ->
     Q (inl (buf', zsum (Z.to_nat 128) (host_count (ssd_of (w_dev w))), it, ct)) w') ->
  wp o (for_exit (nchunks 64 data_blk) (pread_chunk 64 fd) (buf, 0, 0, 0)) w Q.
Proof.
  intros Hl HQ. unfold nchunks. change (data_blk / 64) with 128.
  apply (wp_for_exit o (fun i r w' => let '(b, cnt, _, _) := r in
    length b = Z.to_nat data_size /\ cnt = zsum i (host_count (ssd_of (w_dev w))) /\
    ssd_of (w_dev w') = ssd_of (w_dev w) /\ w_out w' = w_out w)).
  - split_and!; [exact Hl|reflexivity..].
  - intros i [[[b cnt] it] ct] w1 Hi (Hb & -> & Hs & Ho). rewrite <- Hs.
    apply pread_chunk_wp; [done|done|]. intros b' it' ct' w2 Hb' Hs2 Ho2.
    split_and!; [done|done|congruence|congruence].
  - intros [[[b cnt] it] ct] w1 (Hb & -> & Hs & Ho). by apply HQ.
Qed.

Lemma hostside_pread_wp w :
  wp o hostside_pm_pread_main w (fun r w' => r = 0 /\
    lines_of "Result: %d\n" (w_out w') = lines_of "Result: %d\n" (w_out w) ++
      replicate 16 [AInt (zsum (Z.to_nat 128) (host_count (ssd_of (w_dev w))))]).
Proof.
  unfold hostside_pm_pread_main. apply wp_bind. eapply wp_call; [done|].
  apply wp_bind. eapply wp_call; [done|]. apply wp_bind.
  apply (wp_for_exit o (fun i r w' => let '(b, _, _) := r in
    length b = Z.to_nat data_size /\ ssd_of (w_dev w') = ssd_of (w_dev w) /\
    lines_of "Result: %d\n" (w_out w') = lines_of "Result: %d\n" (w_out w) ++
      replicate i [AInt (zsum (Z.to_nat 128) (host_count (ssd_of (w_dev w))))])).
  - split_and!; [by rewrite length_overlay, length_resize|done|by rewrite app_nil_r].
  - intros t [[b ia] ca] w1 _ (Hb & Hs & Ho). apply wp_bind. apply pread_round_wp; [done|].
    intros b' it ct w2 Hb' Hs2 Ho2. rewrite Hs in *.
    apply wp_bind, wp_printf, wp_bind, wp_printf, wp_bind, wp_printf, wp_ret.
    revert Ho. generalize (zsum (Z.to_nat 128) (host_count (ssd_of (w_dev w)))). intros z Ho.
    split_and!; [done|done|]. cbn [emit w_out]. rewrite !lines_of_app, Ho2, Ho.
    rewrite replicate_add. cbn. by rewrite !app_nil_r, app_assoc.
  - intros [[b ia] ca] w1 (_ & _ & Ho). by apply wp_ret.
Qed.
End pread.

(** hostside_pm_pread.c runs without a memory error on a reliable device
    and prints sixteen times the same count, which is the number of occurrences
    of "Lorem" in the data set less those that start in the last 4 positions of
    a 64-block chunk. *)
Theorem hostside_pread_counts {D : Type} {prog0 : isp_prog} `{Reliable D prog0} (o : oracle)
    (w : world D) :
  let d := region (ssd_of (w_dev w)) in
  exists w' cnt, run o hostside_pm_pread_main w = Some (0, w') /\
    lines_of "Result: %d\n" (w_out w') =
      lines_of "Result: %d\n" (w_out w) ++ replicate 16 [AInt cnt] /\
    cnt = zsum (Z.to_nat 128) (host_count (ssd_of (w_dev w))) /\
    occurrences d = cnt + zsum (Z.to_nat 128) (missed d (PGSIZE * Z.to_nat 64) 4).
Proof.
  intros d. destruct (hostside_pread_wp o w) as (r & w' & E & -> & HL).
  do 2 eexists. split; [exact E|]. split; [exact HL|]. split; [reflexivity|].
  apply chunk_count; unfold d; rewrite ?length_region, ?PGSIZE_eq;
    try (change data_size with 33554432); lia.
Qed.

Lemma hostside_pread_counts_witness :
  exists w', run null_oracle hostside_pm_pread_main (blank_world pass_prog) = Some (0, w').
Proof.
  destruct (hostside_pread_counts null_oracle (blank_world pass_prog)) as (w' & _ & E & _).
  exists w'. exact E.
Defined.
