(* ===== verification/Tools.v ===== *)
(** * The command-line tools (src/ioctl, src/tpage)

    Single-shot programs around one ioctl: submit_prog.c (opcode 0x81),
    submit_op.c, embedding.c and embedding_backup.c (0x82), page_read.c (0x84),
    submit_io.c (a plain read), mywc.c (the word count wc.c does in storage, on a
    local file) and tpage/gen.c (a test page).  page_read.c, submit_io.c and
    submit_op.c also exist, byte for byte, under src/pattern_match.
    (submit_op_fork.c is in [Forking].) *)

From Stdlib Require Import Ascii.
From S2P Require Import Prelude Mem Ebpf Nvme Prog NpsumIsp PatternMatch.

Open Scope string_scope.
Open Scope list_scope.
Open Scope Z_scope.

(** ** [atoi]: white space, a sign, digits; glibc's [(int) strtol(s, NULL, 10)] *)

Definition is_space (c : ascii) : bool :=
  let n := Z.of_nat (nat_of_ascii c) in (n =? 32) || ((9 <=? n) && (n <=? 13)).

Definition digit (c : ascii) : option Z :=
  let n := Z.of_nat (nat_of_ascii c) in
  if (48 <=? n) && (n <=? 57) then Some (n - 48) else None.

Fixpoint skip_spaces (s : list ascii) : list ascii :=
  match s with
  | c :: s' => if is_space c then skip_spaces s' else s
  | [] => []
  end.

Fixpoint digits (s : list ascii) (acc : Z) : Z :=
  match s with
  | c :: s' => match digit c with Some d => digits s' (10 * acc + d) | None => acc end
  | [] => acc
  end.

Definition clamp_long (z : Z) : Z := Z.max (- 2 ^ 63) (Z.min (2 ^ 63 - 1) z).

Definition atoi (s : string) : Z :=
  i32 (clamp_long
    match skip_spaces (String.list_ascii_of_string s) with
    | "-"%char :: s' => - digits s' 0
    | "+"%char :: s' => digits s' 0
    | s' => digits s' 0
    end).

(** ** Parameters *)

(** [int param[5]] read at a constant index. *)
Definition par (param : list Z) (i : nat) : Z := nth i param 0.

(** [(__u64)param[2] << 32 | param[3]]: both operands are sign-extended. *)
Definition metadata_of (param : list Z) : Z :=
  Z.lor (u64 (Z.shiftl (u64 (par param 2)) 32)) (u64 (par param 3)).

(** embedding.c: [__u64 param23 = param[2]; param23<<32; param23 |= param[3];].
    The second statement computes a value and drops it. *)
Definition param23_of (param : list Z) : Z :=
  let param23 := u64 (par param 2) in
  Z.lor param23 (u64 (par param 3)).

(** [for (i = 1; i < argc; i++) param[i-1] = atoi(argv[i]);] the array has five
    elements. *)
Definition parse_params (argv : list string) : option (list Z) :=
  for_ (length argv - 1) (fun i param =>
    s ← argv !! (i + 1)%nat;
    if decide (i < length param)%nat then Some (<[i := atoi s]> param) else None)
    [0; 0; 0; 0; 0].

(** ** embedding.c and embedding_backup.c *)

Definition embedding_cmd (nlb : Z) (param : list Z) : passthru_cmd :=
  mk_cmd 0x82 (par param 0) (par param 1) 0 (param23_of param) 0 1024 (nlb - 1) 0 (-1).

Definition embedding_callprog (dev slba nlb : Z) (param : list Z) : prog ioE Z :=
  start ← now_ms;
  '(ret, result, _) ← call (IoCmd dev (embedding_cmd nlb param) []);
  end_ ← now_ms;
  call (Printf "ioctl time : %f\n" [AQuot (end_ - start) 1000]) ;;
  call (Printf "eBPF result: %d\n" [AInt (i32 result)]) ;;
  mret ret.

(** The argument check, the parameters and the report around [callprog]. *)
Definition embedding_tool (callprog : Z -> Z -> Z -> list Z -> prog ioE Z)
    (report : Z -> prog ioE unit) (argv : list string) : prog ioE Z :=
  if decide (length argv < 3)%nat then
    call (Printf "usage: ./embedding [param0] [param1] ...\n" []) ;; mret 0
  else
    dev ← call (Open NVME_PATH ["O_RDWR"]);
    param ← eval (parse_params argv);
    err ← callprog dev 1024 1 param;
    report err ;;
    mret 0.

Definition embedding_main : list string -> prog ioE Z :=
  embedding_tool embedding_callprog
    (fun err => call (Printf "error code: 0x%x\n" [AInt err])).

Definition embedding_backup_cmd (nlb : Z) (param : list Z) (addr : Z) : passthru_cmd :=
  mk_cmd 0x82 (par param 0) (par param 1) (metadata_of param) addr (4096 * nlb) 1024
    (nlb - 1) 0 123.

(** The 512 KB buffer is filled with 'i'; [read.txt] is created and not used. *)
Definition embedding_backup_callprog (dev slba nlb : Z) (param : list Z) : prog ioE Z :=
  read_fd ← call (Open "./read.txt" ["O_CREAT"; "O_RDWR"]);
  '(addr, data) ← call (Malloc (Z.to_nat (32768 * 16)));
  let data := overlay (replicate (Z.to_nat (32768 * 16)) 105) data in
  start ← now_ms;
  '(ret, result, _) ← call (IoCmd dev (embedding_backup_cmd nlb param addr) data);
  end_ ← now_ms;
  call (Printf "ioctl time : %f\n" [AQuot (end_ - start) 1000]) ;;
  call (Printf "eBPF result: %d\n" [AInt (i32 result)]) ;;
  mret ret.

Definition embedding_backup_main : list string -> prog ioE Z :=
  embedding_tool embedding_backup_callprog
    (fun err => call (Printf "error code: %d - %x\n" [AInt err; AInt err])).

(** ** page_read.c: reads map page 0 into a file and prints its first 32 ints *)

Definition map_page_cmd (nlb : Z) (param : list Z) (addr : Z) : passthru_cmd :=
  mk_cmd 0x84 (par param 0) (par param 1) (metadata_of param) addr (4096 * nlb) 1024 0 0 123.

Definition print_ints (data : list Z) (n : nat) : prog ioE unit :=
  for_ n (fun i (_ : unit) =>
    v ← eval (ld32 data i);
    call (Printf "%d " [AInt v]) ;;
    when (bool_decide (i `mod` 8 = 7)%nat) (call (Printf "\n" []))) tt.

Definition page_read_callprog (dev slba nlb : Z) (param : list Z) : prog ioE Z :=
  read_fd ← call (Open "./page.txt" ["O_CREAT"; "O_RDWR"]);
  '(addr, data) ← call (Malloc PGSIZE);
  let data := overlay (zeros PGSIZE) data in
  '(ret, _, data) ← call (IoCmd dev (map_page_cmd nlb param addr) data);
  call (Write read_fd data 4096) ;;
  print_ints data 32 ;;
  mret ret.

Definition page_read_main : prog ioE Z :=
  dev ← call (Open NVME_PATH ["O_RDWR"]);
  err ← page_read_callprog dev 1024 1 [2; 8; 0; 0; 0];
  call (Printf "error code: %d\n" [AInt err]) ;;
  mret 0.

(** ** submit_io.c: reads eight blocks *)
Definition submit_io_main : prog ioE Z :=
  dev ← call (Open NVME_PATH ["O_RDWR"]);
  call (Printf "dev is %d\n" [AInt dev]) ;;
  '(addr, data) ← call (Malloc (Z.to_nat 32768));
  '(err, _) ← call (SubmitIo dev (mk_io 0x02 7 addr 1024) data);
  call (Printf "error code: %x\n" [AInt err]) ;;
  mret 0.

(** ** submit_op.c: runs the loaded program on one block *)

Definition submit_op_cmd (nlb : Z) (param : list Z) : passthru_cmd :=
  mk_cmd 0x82 (par param 0) (par param 1) (metadata_of param) 0 0 1024 (nlb - 1) 0 123.

(** The pointer [data] is not initialised: [data] is the memory it happens to
    point to, [None] when it points nowhere ([write] then fails). *)
Definition submit_op_callprog (data : option (list Z)) (dev slba nlb : Z) (param : list Z)
    : prog ioE Z :=
  read_fd ← call (Open "./read.txt" ["O_CREAT"; "O_RDWR"]);
  start ← now_ms;
  '(ret, result, _) ← call (IoCmd dev (submit_op_cmd nlb param) []);
  end_ ← now_ms;
  call (Printf "ioctl time : %f\n" [AQuot (end_ - start) 1000]) ;;
  call (Printf "eBPF result: %d\n" [AInt (i32 result)]) ;;
  match data with
  | Some bytes => call (Write read_fd bytes (4096 * nlb))
  | None => mret (-1)
  end ;;
  mret ret.

Definition submit_op_main (data : option (list Z)) : prog ioE Z :=
  dev ← call (Open NVME_PATH ["O_RDWR"]);
  err ← submit_op_callprog data dev 1024 1 [0; 1; 0; 0; 0];
  call (Printf "error code: %d\n" [AInt err]) ;;
  mret 0.

(** ** submit_prog.c: opcode 0x81 with four blocks of 'y' *)

Definition submit_prog_cmd (slba nlb : Z) (param : list Z) (addr : Z) : passthru_cmd :=
  mk_cmd 0x81 (par param 0) (par param 1) (metadata_of param) addr (4096 * nlb) slba
    (nlb - 1) 0 2.

Definition submit_prog_callprog (dev slba nlb : Z) (param : list Z) : prog ioE Z :=
  read_fd ← call (Open "./read.txt" ["O_CREAT"; "O_RDWR"]);
  '(addr, data) ← call (Malloc (Z.to_nat (4096 * 4)));
  let data := overlay (replicate (Z.to_nat (4096 * 4)) 121) data in
  start ← now_ms;
  '(ret, _, data) ← call (IoCmd dev (submit_prog_cmd slba nlb param addr) data);
  end_ ← now_ms;
  call (Printf "ioctl time : %f\n" [AQuot (end_ - start) 1000]) ;;
  call (Write read_fd data (4096 * nlb)) ;;
  mret ret.

Definition submit_prog_main : prog ioE Z :=
  dev ← call (Open NVME_PATH ["O_RDWR"]);
  err ← submit_prog_callprog dev 10 4 [1; 4; 0; 0; 0];
  call (Printf "error code: %d\n" [AInt err]) ;;
  mret 0.

(** ** mywc.c: counts what is not a space in eight pages of a file *)

(** [for (j = 0; j < 4096; j++) if (buf[j] != ' ') cnt++]. *)
Definition count_nonspace (buf : list Z) (n : nat) : option Z :=
  for_ n (fun j cnt =>
    c ← buf !! j;
    Some (if decide (c <> 32) then i32 (cnt + 1) else cnt)) 0.

Definition wc_page (fd : Z) (i : nat) (s : list Z * Z) : prog ioE (list Z * Z) :=
  let '(buf, ret) := s in
  '(_, buf) ← call (Read fd buf 4096);
  cnt ← eval (count_nonspace buf PGSIZE);
  call (Printf "%d\n" [AInt cnt]) ;;
  mret (buf, i32 (ret + cnt)).

(** [buf0] is the uninitialised [char buf[5000]]. *)
Definition mywc_main (buf0 : list Z) : prog ioE Z :=
  fd ← call (Open "./read.txt" ["O_RDONLY"]);
  '(_, ret) ← for_ 8 (wc_page fd) (buf0, 0);
  call (Printf "result: %d\n" [AInt ret]) ;;
  mret 0.

(** ** tpage/gen.c: a page of the ints 0, 1, ..., 1023 *)
Definition gen_main : prog ioE Z :=
  '(_, data) ← call (Malloc PGSIZE);
  data ← eval (for_ (Z.to_nat (4096 / 4)) (fun i data => st32 data i (Z.of_nat i)) data);
  fd ← call (Open "data.txt" ["O_CREAT"; "O_RDWR"]);
  call (Write fd data 4096) ;;
  mret 0.

(** ** The copies under src/pattern_match *)
Module Pm.
Definition page_read_main : prog ioE Z := page_read_main.
Definition submit_io_main : prog ioE Z := submit_io_main.
Definition submit_op_main : option (list Z) -> prog ioE Z := submit_op_main.
End Pm.
