(* ===== verification/Rband.v ===== *)
(** * The bandwidth benchmarks (src/rband)

    ispread.c lets the SSD run its program over 1 GB in requests of 128 blocks;
    pread.c reads the same gigabyte to the host and scans the last chunk it
    read.  (pread_local.c, which forks, is in [Forking].) *)

From S2P Require Import Prelude Mem Ebpf Nvme Prog NpsumIsp NpsumProofs PatternMatch PatternProofs.

Open Scope string_scope.
Open Scope list_scope.
Open Scope Z_scope.

(** [#define data_blk 256*1024]: 1 GB. *)
Definition rband_blk : Z := 256 * 1024.

(** ** ispread.c *)

(** One request; an error ends the program. *)
Definition ispread_chunk (dev addr : Z) (i : nat) (s : list Z * Z)
    : prog ioE ((list Z * Z) + Z)%type :=
  let '(data, cnt) := s in
  '(err, result, data) ← call (IoCmd dev (ssd_chunk_cmd addr 128 i) data);
  if decide (err <> 0) then
    call (Printf "iteration %d: err %d\n" [AInt (Z.of_nat i); AInt err]) ;;
    mret (inr 0)
  else mret (inl (data, i32 (cnt + result))).

Definition ispread_main (addr : Z) : prog ioE Z :=
  dev ← call (Open NVME_PATH ["O_RDWR"; "O_SYNC"]);
  start ← now_us;
  r ← for_exit (nchunks 128 rband_blk) (ispread_chunk dev addr)
        (zeros (Z.to_nat (one_read_size 128)), 0);
  match r with
  | inr code => mret code
  | inl (_, cnt) =>
      end_ ← now_us;
      call (Printf "Result: %d\n" [AInt cnt]) ;;
      call (Printf "1GB isp read time : %.2f ms\n" [AQuot (end_ - start) 1000]) ;;
      mret 0
  end.

(** ** pread.c *)

(** [int off = (1024+i*one_read_blk)*4096]. *)
Definition pread_off (i : nat) : Z := i32 ((1024 + Z.of_nat i * 128) * 4096).

(** A failed or short read is reported and skipped. *)
Definition rband_pread_chunk (dev : Z) (i : nat) (data : list Z) : prog ioE (list Z) :=
  '(err, data) ← call (Pread dev data (one_read_size 128) (pread_off i));
  when (bool_decide (err <> one_read_size 128))
    (call (Printf "iteration %d: err %d, off 0x%x\n"
       [AInt (Z.of_nat i); AInt err; AInt (pread_off i)]) ;;
     call (Printf "ERROR: %s\n" [AErrno])) ;;
  mret data.

(** One of the four loops; [cnt] counts the first four characters of the
    target in the chunk that is left in the buffer. *)
Definition pread_loop (dev : Z) (t : nat) (s : list Z * Z) : prog ioE (list Z * Z) :=
  let '(data, time_acc) := s in
  let data := overlay (zeros (Z.to_nat (one_read_size 128))) data in
  start ← now_us;
  data ← for_ (nchunks 128 rband_blk) (rband_pread_chunk dev) data;
  end_ ← now_us;
  call (Printf "1GB pread time : %.2f ms\n" [AQuot (end_ - start) 1000]) ;;
  cnt ← eval (scan data (lorem ++ zeros 3) 4 (Z.to_nat (one_read_size 128 - 8 + 1)) 0);
  call (Printf "Result : %d\n" [AInt cnt]) ;;
  mret (data, time_acc + (end_ - start)).

(** [time_acc] is not initialised. *)
Definition pread_main (time_acc0 : Z) : prog ioE Z :=
  dev ← call (Open NVME_PATH ["O_RDWR"; "O_SYNC"; "O_DIRECT"]);
  '(_, data) ← call (Malloc (Z.to_nat (one_read_size 128)));
  let data := overlay (zeros (Z.to_nat (one_read_size 128))) data in
  '(_, time_acc) ← for_ 4 (pread_loop dev) (data, time_acc0);
  report_avg true time_acc 4 ;;
  mret 0.

(** ** What the two bandwidth benchmarks report

    ispread.c prints what the in-storage filter finds in the gigabyte; pread.c
    scans only the chunk its last read left in the buffer, for the first four
    characters of the target. *)

Open Scope string_scope.
Open Scope list_scope.

(** The gigabyte both benchmarks read. *)
Definition gigabyte (s : ssd) : list Z := read_blocks s 1024 (Z.to_nat 128 * Z.to_nat 2048).

(** ** ispread.c *)

Section ispread.
Context {D : Type} `{Reliable D Strfilter.strfilter} (o : oracle).
Implicit Types (w : world D).

Lemma ispread_wp addr w :
  wp o (ispread_main addr) w (fun r w' => r = 0 /\
    lines_of "Result: %d\n" (w_out w') = lines_of "Result: %d\n" (w_out w) ++
      [[AInt (zsum (Z.to_nat 2048) (ssd_count (ssd_of (w_dev w))))]]).
Proof.
  unfold ispread_main. apply wp_bind. eapply wp_call; [done|]. wp_time. apply wp_bind.
  unfold nchunks. change (rband_blk / 128) with 2048.
  set (s := ssd_of (w_dev w)).
  apply (wp_for_exit o (fun i r w' => length r.1 = Z.to_nat (one_read_size 128) /\
    same_blocks (ssd_of (w_dev w')) s /\ w_out w' = w_out w /\ r.2 = zsum i (ssd_count s))).
  - split_and!; [apply length_zeros|done|done|done].
  - intros i [d cnt] w1 Hi (Hd & Hs & Ho & Hc). cbn [fst snd] in *. subst cnt.
    unfold ispread_chunk. apply wp_bind. apply wp_ssd_chunk_call; [lia|done|].
    intros d1 buf1 Hd1 Hb1. rewrite decide_False by tauto. apply wp_ret.
    cbn [fst snd set_dev w_dev w_out]. split_and!; [by rewrite Hb1| |done|].
    + etransitivity; [exact Hd1|exact Hs].
    + rewrite (ssd_count_proper _ _ i Hs). apply ssd_count_step. lia.
  - intros [d cnt] w1 (_ & _ & Ho & Hc). cbn [snd] in Hc. subst cnt. wp_time.
    apply wp_bind, wp_printf, wp_bind, wp_printf, wp_ret. split; [done|].
    generalize (zsum (Z.to_nat 2048) (ssd_count s)). intros z.
    cbn [emit tick w_out]. rewrite Ho, !lines_of_app. simpl. by rewrite app_nil_r.
Qed.
End ispread.

(** ** pread.c *)

(** The offsets fit an [int]: the last chunk starts just above 1 GB. *)
Lemma pread_off_exact i :
  (i < Z.to_nat 2048)%nat -> pread_off i = (1024 + Z.of_nat i * 128) * 4096.
Proof. intros Hi. apply i32_small. unfold i32_ok. lia. Qed.

(** "Lore" in the last chunk, up to its last eight bytes. *)
Definition last_chunk (s : ssd) : list Z := read_blocks s (1024 + 2047 * 128) (Z.to_nat 128).
Definition lore_count (s : ssd) : Z :=
  zcount (Z.to_nat 524281) (prefix_at (last_chunk s) (lorem ++ zeros 3) 4).

Lemma lore_count_ok s : i32_ok (lore_count s).
Proof.
  pose proof (zcount_bounds (Z.to_nat 524281)
    (prefix_at (last_chunk s) (lorem ++ zeros 3) 4)) as Hb.
  unfold lore_count. revert Hb. generalize (zcount (Z.to_nat 524281)
    (prefix_at (last_chunk s) (lorem ++ zeros 3) 4)). intros z Hb. unfold i32_ok. lia.
Qed.

Lemma scan_last_chunk s :
  scan (last_chunk s) (lorem ++ zeros 3) 4 (Z.to_nat (one_read_size 128 - 8 + 1)) 0 =
  Some (lore_count s).
Proof.
  change (one_read_size 128 - 8 + 1) with 524281.
  assert (Hl : length (last_chunk s) = (PGSIZE * Z.to_nat 128)%nat)
    by apply length_read_blocks.
  revert Hl. rewrite PGSIZE_eq. intros Hl. rewrite scan_gen.
  - rewrite Z.add_0_l. fold (lore_count s). by rewrite i32_small by apply lore_count_ok.
  - cbn. lia.
  - repeat constructor; done.
  - rewrite Hl. lia.
  - unfold i32_ok. lia.
Qed.

Section pread.
Context {D : Type} {prog0 : isp_prog} `{Reliable D prog0} (o : oracle).
Implicit Types (w : world D).

Lemma rband_pread_chunk_wp fd i data w :
  (i < Z.to_nat 2048)%nat -> length data = Z.to_nat (one_read_size 128) ->
  wp o (rband_pread_chunk fd i data) w (fun data' w' =>
    data' = read_blocks (ssd_of (w_dev w)) (1024 + Z.of_nat i * 128) (Z.to_nat 128) /\
    ssd_of (w_dev w') = ssd_of (w_dev w) /\ w_out w' = w_out w).
Proof.
  intros Hi Hl. unfold rband_pread_chunk. rewrite pread_off_exact by done.
  apply wp_bind, wp_pread.
  - rewrite Hl. change (one_read_size 128) with 524288. lia.
  - apply Z.mod_mul. lia.
  - done.
  - intros d' Hd. rewrite Z.div_mul by lia. change (one_read_size 128 / 4096) with 128.
    rewrite overlay_full.
    + unfold when. rewrite bool_decide_false by tauto. apply wp_bind, wp_ret, wp_ret.
      split_and!; [reflexivity|exact Hd|reflexivity].
    + rewrite length_read_blocks, Hl, PGSIZE_eq. change (one_read_size 128) with 524288. lia.
Qed.

(** The last read decides what is in the buffer. *)
Lemma pread_reads_wp fd data w :
  length data = Z.to_nat (one_read_size 128) ->
  wp o (for_ (nchunks 128 rband_blk) (rband_pread_chunk fd) data) w (fun data' w' =>
    data' = last_chunk (ssd_of (w_dev w)) /\
    ssd_of (w_dev w') = ssd_of (w_dev w) /\ w_out w' = w_out w).
Proof.
  intros Hl. unfold nchunks. change (rband_blk / 128) with 2048.
  apply (wp_loop o (fun i data' w' => length data' = Z.to_nat (one_read_size 128) /\
    (i = Z.to_nat 2048 -> data' = last_chunk (ssd_of (w_dev w))) /\
    ssd_of (w_dev w') = ssd_of (w_dev w) /\ w_out w' = w_out w)).
  - split_and!; [done|lia|done|done].
  - intros i d w1 Hi (Hd & _ & Hs & Ho). eapply wp_mono; [by apply rband_pread_chunk_wp|].
    intros d1 w2 (-> & Hs1 & Ho1). split_and!.
    + rewrite length_read_blocks, PGSIZE_eq. change (one_read_size 128) with 524288. lia.
    + intros E. rewrite Hs. unfold last_chunk. replace (Z.of_nat i) with 2047 by lia. reflexivity.
    + congruence.
    + congruence.
  - intros d w1 (_ & Hd & HR). split; [by apply Hd|done].
Qed.

Lemma pread_loop_wp fd t data acc w :
  length data = Z.to_nat (one_read_size 128) ->
  wp o (pread_loop fd t (data, acc)) w (fun r w' =>
    length r.1 = Z.to_nat (one_read_size 128) /\ ssd_of (w_dev w') = ssd_of (w_dev w) /\
    lines_of "Result : %d\n" (w_out w') = lines_of "Result : %d\n" (w_out w) ++
      [[AInt (lore_count (ssd_of (w_dev w)))]]).
Proof.
  intros Hl. unfold pread_loop. wp_time. apply wp_bind. eapply wp_mono.
  { apply pread_reads_wp. by rewrite length_overlay. }
  intros d w1 (-> & Hs & Ho). wp_time. apply wp_bind, wp_printf, wp_bind.
  cbn [tick w_dev] in *. eapply wp_eval; [apply scan_last_chunk|].
  apply wp_bind, wp_printf, wp_ret. cbn [fst snd emit tick w_dev w_out]. split_and!.
  - unfold last_chunk. rewrite length_read_blocks, PGSIZE_eq.
    change (one_read_size 128) with 524288. lia.
  - exact Hs.
  - generalize (lore_count (ssd_of (w_dev w))). intros z.
    rewrite Ho, !lines_of_app. cbn [tick w_out]. simpl. by rewrite app_nil_r.
Qed.

Lemma pread_main_wp t0 w :
  wp o (pread_main t0) w (fun r w' => r = 0 /\
    lines_of "Result : %d\n" (w_out w') = lines_of "Result : %d\n" (w_out w) ++
      replicate 4 [AInt (lore_count (ssd_of (w_dev w)))]).
Proof.
  unfold pread_main. apply wp_bind. eapply wp_call; [done|].
  apply wp_bind. eapply wp_call; [done|]. apply wp_bind.
  apply (wp_loop o (fun i r w' => length r.1 = Z.to_nat (one_read_size 128) /\
    ssd_of (w_dev w') = ssd_of (w_dev w) /\
    lines_of "Result : %d\n" (w_out w') = lines_of "Result : %d\n" (w_out w) ++
      replicate i [AInt (lore_count (ssd_of (w_dev w)))])).
  - split_and!; [|done|by rewrite app_nil_r]. cbn [fst].
    by rewrite length_overlay, length_resize.
  - intros i [d acc] w1 Hi (Hd & Hs & Ho). cbn [fst] in *.
    eapply wp_mono; [by apply pread_loop_wp|].
    intros [d1 acc1] w2 (Hd1 & Hs1 & Ho1). cbn [fst] in *. split_and!; [done|congruence|].
    rewrite Ho1, Ho, Hs, replicate_add, <- app_assoc. reflexivity.
  - intros [d acc] w1 (_ & _ & Ho). unfold report_avg, when.
    apply wp_bind, wp_bind, wp_printf, wp_printf, wp_ret. split; [done|].
    cbn [emit w_out]. rewrite !lines_of_app, Ho.
    generalize (replicate 4 [AInt (lore_count (ssd_of (w_dev w)))]). intros l.
    simpl. by rewrite !app_nil_r.
Qed.
End pread.

(** Ispread.c prints a count that differs from the number of occurrences
    of "Lorem" in the gigabyte it covers by exactly the occurrences that start
    in the last five positions of one of its 2048 requests; the count cannot
    overflow an [int]. *)
Theorem ispread_counts {D : Type} `{Reliable D Strfilter.strfilter} (o : oracle)
    (w : world D) (addr : Z) :
  let d := gigabyte (ssd_of (w_dev w)) in
  exists w' cnt, run o (ispread_main addr) w = Some (0, w') /\
    lines_of "Result: %d\n" (w_out w') = lines_of "Result: %d\n" (w_out w) ++ [[AInt cnt]] /\
    occurrences d = cnt + zsum (Z.to_nat 2048) (missed d (PGSIZE * Z.to_nat 128) 5).
Proof.
  intros d. destruct (ispread_wp o addr w) as (r & w' & E & -> & HL).
  exists w', (zsum (Z.to_nat 2048) (ssd_count (ssd_of (w_dev w)))).
  split; [exact E|]. split; [exact HL|]. apply ssd_counts_missed.
Qed.

(** pread.c of the benchmark, although it reads the whole gigabyte, prints
    four times the number of occurrences of the four characters "Lore" in the
    128 blocks of its last read only. *)
Theorem pread_last_chunk_only {D : Type} {prog0 : isp_prog} `{Reliable D prog0} (o : oracle)
    (w : world D) (t0 : Z) :
  exists w', run o (pread_main t0) w = Some (0, w') /\
    lines_of "Result : %d\n" (w_out w') = lines_of "Result : %d\n" (w_out w) ++
      replicate 4 [AInt (lore_count (ssd_of (w_dev w)))].
Proof. destruct (pread_main_wp o t0 w) as (r & w' & E & -> & HL). eauto. Qed.

Lemma ispread_counts_witness :
  exists w', run null_oracle (ispread_main 0) (blank_world Strfilter.strfilter) = Some (0, w').
Proof.
  destruct (ispread_counts null_oracle (blank_world Strfilter.strfilter) 0)
    as (w' & cnt & E & _).
  exists w'. exact E.
Defined.

Lemma pread_last_chunk_only_witness :
  exists w', run null_oracle (pread_main 0) (blank_world pass_prog) = Some (0, w').
Proof.
  destruct (pread_last_chunk_only null_oracle (blank_world pass_prog) 0) as (w' & E & _).
  exists w'. exact E.
Defined.
