(* ===== verification/ToolsProofs.v ===== *)
(** * What the command-line tools do

    Parameter parsing and packing, and the agreement of mywc.c with the
    in-storage wc.c. *)

From Stdlib Require Import Ascii.
From stdpp Require Import pretty.
From S2P Require Import Prelude Mem Ebpf Nvme Prog NpsumIsp NpsumHost NpsumProofs.
From S2P Require Import PatternMatch PatternProofs Tools Rband.

Open Scope string_scope.
Open Scope list_scope.
Open Scope Z_scope.

(** ** Packing two parameters into one 64-bit field *)

Definition hi32 (z : Z) : Z := Z.shiftr z 32.
Definition lo32 (z : Z) : Z := Z.land z (Z.ones 32).

Lemma lo32_mod z : lo32 z = z `mod` 2 ^ 32.
Proof. apply Z.land_ones. lia. Qed.

Lemma hi32_div z : hi32 z = z / 2 ^ 32.
Proof. apply Z.shiftr_div_pow2. lia. Qed.

Lemma hi32_lor a b : hi32 (Z.lor a b) = Z.lor (hi32 a) (hi32 b).
Proof. apply Z.shiftr_lor. Qed.

Lemma lo32_lor a b : lo32 (Z.lor a b) = Z.lor (lo32 a) (lo32 b).
Proof. apply Z.land_lor_distr_l. Qed.

Lemma u64_shifted p : u64 (Z.shiftl (u64 p) 32) = u32 p * 2 ^ 32.
Proof.
  rewrite Z.shiftl_mul_pow2 by lia. unfold wrapu.
  change (2 ^ 64) with (2 ^ 32 * 2 ^ 32) at 1 2.
  rewrite Z.mul_mod_distr_r by lia. f_equal.
  apply Z.mod_mod_divide. exists (2 ^ 32). lia.
Qed.

Lemma hi32_shifted p : hi32 (u64 (Z.shiftl (u64 p) 32)) = u32 p.
Proof. rewrite u64_shifted, hi32_div. apply Z.div_mul. lia. Qed.

Lemma lo32_shifted p : lo32 (u64 (Z.shiftl (u64 p) 32)) = 0.
Proof. rewrite u64_shifted, lo32_mod. apply Z.mod_mul. lia. Qed.

Lemma lo32_u64 p : lo32 (u64 p) = u32 p.
Proof.
  rewrite lo32_mod. unfold wrapu. apply Z.mod_mod_divide.
  exists (2 ^ 32). lia.
Qed.

Lemma hi32_u64 p : i32_ok p -> hi32 (u64 p) = if decide (0 <= p) then 0 else Z.ones 32.
Proof.
  unfold i32_ok. intros Hp. rewrite hi32_div. unfold wrapu. case_decide.
  - rewrite Z.mod_small by lia. apply Z.div_small. lia.
  - change (Z.ones 32) with (2 ^ 32 - 1). lia.
Qed.

(** the two ways the tools pack [param[2]] and [param[3]] into one 64-bit
    field.  The metadata word of submit_op.c, page_read.c, submit_prog.c and
    embedding_backup.c gives both parameters back, the first one only if the
    second is not negative (its sign extension sets every bit above it).  The
    address word of embedding.c, whose shift statement has no effect, is the
    bitwise or of the two: it is the same for the swapped parameters, and the
    upper half is empty when both are not negative. *)
Theorem param_packing (p0 p1 p2 p3 p4 : Z) :
  i32_ok p2 -> i32_ok p3 ->
  let m := metadata_of [p0; p1; p2; p3; p4] in
  let a := param23_of [p0; p1; p2; p3; p4] in
  lo32 m = u32 p3 /\
  (0 <= p3 -> hi32 m = u32 p2) /\
  (p3 < 0 -> hi32 m = Z.ones 32) /\
  a = param23_of [p0; p1; p3; p2; p4] /\
  (0 <= p2 -> 0 <= p3 -> hi32 a = 0 /\ lo32 a = Z.lor p2 p3).
Proof.
  intros H2 H3 m a. subst m a. unfold metadata_of, param23_of, par. cbn [nth].
  rewrite !hi32_lor, !lo32_lor, hi32_shifted, lo32_shifted, !lo32_u64, !hi32_u64 by done.
  split; [done|]. split; [intros; by rewrite decide_True, Z.lor_0_r by lia|].
  split; [|split; [apply Z.lor_comm|]].
  - intros Hn. rewrite decide_False by lia. apply Z.bits_inj'. intros n Hn0.
    rewrite Z.lor_spec. destruct (decide (n < 32)).
    + rewrite Z.ones_spec_low by lia. apply orb_true_r.
    + rewrite Z.ones_spec_high by lia. unfold wrapu. by rewrite Z.mod_pow2_bits_high by lia.
  - intros. rewrite !decide_True by lia. split; [done|].
    unfold i32_ok in *. by rewrite !wrapu_small by lia.
Qed.

Lemma param_packing_witness :
  hi32 (metadata_of [0; 1; 7; 9; 0]) = 7 /\ hi32 (param23_of [0; 1; 7; 9; 0]) = 0.
Proof.
  destruct (param_packing 0 1 7 9 0) as (_ & H1 & _ & _ & H2).
  - unfold i32_ok. lia.
  - unfold i32_ok. lia.
  - split; [apply H1; lia | apply H2; lia].
Defined.

(** ** Decimal arguments *)

Lemma digit_char d : (d < 10)%N -> digit (pretty_N_char d) = Some (Z.of_N d).
Proof.
  intros Hd. assert (d = 0 \/ d = 1 \/ d = 2 \/ d = 3 \/ d = 4 \/ d = 5 \/ d = 6 \/
    d = 7 \/ d = 8 \/ d = 9)%N as Hc by lia.
  by repeat destruct Hc as [->|Hc]; [..|subst d].
Qed.

Lemma digits_go x s :
  digits (String.list_ascii_of_string (pretty_N_go x s)) 0 =
  digits (String.list_ascii_of_string s) (Z.of_N x).
Proof.
  revert s. induction (N.lt_wf_0 x) as [x _ IH]; intros s.
  destruct (decide (x = 0)%N) as [->|Hx]; [by rewrite pretty_N_go_0|].
  rewrite pretty_N_go_step by lia. rewrite IH by (apply N.div_lt; lia). cbn.
  rewrite digit_char by (apply N.mod_lt; done). f_equal.
  rewrite N2Z.inj_div, N2Z.inj_mod. change (Z.of_N 10) with 10.
  pose proof (Z.div_mod (Z.of_N x) 10). lia.
Qed.

(** A printed number starts with a digit. *)
Definition digit_head (s : string) : Prop :=
  exists d s', (d < 10)%N /\ s = String (pretty_N_char d) s'.

Lemma go_head x s : (0 < x)%N \/ digit_head s -> digit_head (pretty_N_go x s).
Proof.
  revert s. induction (N.lt_wf_0 x) as [x _ IH]; intros s Hs.
  destruct (decide (x = 0)%N) as [->|Hx].
  { rewrite pretty_N_go_0. destruct Hs; [lia|done]. }
  rewrite pretty_N_go_step by lia. apply IH; [apply N.div_lt; lia|]. right.
  eexists _, _. split; [|done]. by apply N.mod_lt.
Qed.

(** [atoi] reads a string of digits after an optional minus sign. *)
Lemma atoi_digits s z :
  digit_head s -> digits (String.list_ascii_of_string s) 0 = z ->
  atoi s = i32 (clamp_long z) /\ atoi (String "-" s) = i32 (clamp_long (- z)).
Proof.
  intros (d & s' & Hd & ->) Hz. unfold atoi.
  assert (d = 0 \/ d = 1 \/ d = 2 \/ d = 3 \/ d = 4 \/ d = 5 \/ d = 6 \/
    d = 7 \/ d = 8 \/ d = 9)%N as Hc by lia.
  subst z. by repeat destruct Hc as [->|Hc]; [..|subst d].
Qed.

Lemma atoi_N n : atoi (pretty n) = i32 (clamp_long (Z.of_N n)) /\
  atoi (String "-" (pretty n)) = i32 (clamp_long (- Z.of_N n)).
Proof.
  apply atoi_digits; unfold pretty, pretty_N; case_decide as Hn; try subst n.
  - by exists 0%N, "".
  - apply go_head. left. lia.
  - done.
  - by rewrite digits_go.
Qed.

Lemma clamp_small z : i32_ok z -> clamp_long z = z.
Proof. unfold i32_ok, clamp_long. lia. Qed.

(** [atoi] inverts decimal printing on [int]. *)
Lemma atoi_pretty (z : Z) : i32_ok z -> atoi (pretty z) = z.
Proof.
  intros Hz. rewrite <- (i32_small z Hz) at 2. rewrite <- (clamp_small z Hz) at 2.
  destruct z as [|p|p]; [done|apply (atoi_N (Npos p))|apply (atoi_N (Npos p))].
Qed.

Lemma insert_params (ps : list Z) i p n :
  length ps = i -> (i < n)%nat ->
  <[i := p]> (ps ++ zeros (n - i)) = (ps ++ [p]) ++ zeros (n - (i + 1)).
Proof.
  intros <- Hi. rewrite insert_app_r_alt, Nat.sub_diag by lia.
  destruct (n - length ps)%nat as [|k] eqn:E; [lia|].
  replace (n - (length ps + 1))%nat with k by lia. by rewrite <- app_assoc.
Qed.

(** The five parameters, the missing ones 0. *)
Definition padded (ps : list Z) : list Z := ps ++ zeros (5 - length ps).

(** The parameters of embedding.c.  Decimal arguments that are ints are
    read back exactly, the missing ones are 0; a sixth argument is stored
    outside [param]: undefined behaviour. *)
Theorem parse_params_decimal (name : string) (ps : list Z) :
  Forall i32_ok ps ->
  parse_params (name :: (pretty <$> ps)) =
    if decide (length ps <= 5)%nat then Some (padded ps) else None.
Proof.
  intros Hps. unfold parse_params, padded.
  replace (length (name :: (pretty <$> ps)) - 1)%nat with (length ps)
    by (simpl; rewrite length_fmap; lia).
  assert (Hstep : forall i param, (i < length ps)%nat ->
    (s ← (name :: (pretty <$> ps)) !! (i + 1)%nat;
     if decide (i < length param)%nat then Some (<[i := atoi s]> param) else None) =
    if decide (i < length param)%nat then Some (<[i := nth i ps 0]> param) else None).
  { intros i param Hi. rewrite Nat.add_1_r.
    change ((name :: (pretty <$> ps)) !! S i) with ((pretty <$> ps) !! i).
    destruct (lookup_lt_is_Some_2 ps i Hi) as [p Hp].
    rewrite list_lookup_fmap, Hp. cbn. rewrite (nth_lookup_Some _ _ _ _ Hp).
    rewrite atoi_pretty; [done|]. by eapply Forall_lookup_1. }
  set (body := fun i param => _) in *.
  assert (Hpre : forall n, (n <= length ps)%nat -> (n <= 5)%nat ->
    for_ n body [0; 0; 0; 0; 0] = Some (take n ps ++ zeros (5 - n))).
  { intros n Hn H5.
    destruct (for_opt_ind (fun i r => r = take i ps ++ zeros (5 - i)) body n [0; 0; 0; 0; 0])
      as (r & -> & ->); [done| |done].
    intros i param Hi ->. unfold body. rewrite Hstep by lia.
    rewrite decide_True by (rewrite length_app, length_take, length_zeros; lia).
    eexists. split; [done|]. rewrite insert_params by (rewrite ?length_take; lia).
    f_equal. destruct (lookup_lt_is_Some_2 ps i) as [p Hp]; [lia|].
    rewrite (nth_lookup_Some _ _ _ _ Hp), Nat.add_1_r. by erewrite take_S_r. }
  case_decide as H5.
  - rewrite Hpre by lia. by rewrite take_ge.
  - apply (for_opt_fault _ _ 5 _ (take 5 ps)); [lia| |].
    + rewrite Hpre by lia. by rewrite app_nil_r.
    + unfold body. rewrite Hstep by lia. by rewrite decide_False by (rewrite length_take; lia).
Qed.

Lemma parse_params_decimal_witness :
  parse_params ["./embedding"; "3"; "-7"] = Some [3; -7; 0; 0; 0].
Proof.
  apply (parse_params_decimal "./embedding" [3; -7]).
  repeat constructor; unfold i32_ok; lia.
Defined.

(** ** Counting words on the host and in storage *)

Lemma nonspace_ext d d' n :
  (forall i, (i < n)%nat -> d !! i = d' !! i) -> nonspace d n = nonspace d' n.
Proof. intros Hd. apply zcount_ext. intros i Hi. by rewrite Hd. Qed.

Lemma lookup_overlay_lt {A} (p buf : list A) i :
  (i < length p)%nat -> (length p <= length buf)%nat -> overlay p buf !! i = p !! i.
Proof.
  intros Hi Hl. unfold overlay. rewrite take_ge by done. by rewrite lookup_app_l.
Qed.

Lemma nonspace_chunks d c n :
  nonspace d (c * n) = zsum n (fun j => nonspace (chunk d c j) c).
Proof.
  unfold nonspace at 1. rewrite zcount_chunks. apply zsum_ext. intros j Hj.
  apply zcount_ext. intros i Hi. unfold chunk. rewrite lookup_take_lt, lookup_drop by lia. done.
Qed.

Lemma nonspace_bounds d n : 0 <= nonspace d n <= Z.of_nat n.
Proof. apply zcount_bounds. Qed.

(** The lines mywc.c prints for a file: one count per page. *)
Definition wc_lines (content : list Z) (n : nat) : list line :=
  (fun j => ("%d\n", [AInt (nonspace (chunk content PGSIZE j) PGSIZE)])) <$> seq 0 n.

Lemma wc_lines_S content n :
  wc_lines content (n + 1) =
  wc_lines content n ++ [("%d\n", [AInt (nonspace (chunk content PGSIZE n) PGSIZE)])].
Proof. unfold wc_lines. by rewrite seq_app, fmap_app. Qed.

(** The reads of [./read.txt] from oracle call [t] on deliver [content] page by
    page. *)
Definition file_pages (o : oracle) (fd : Z) (t : nat) (content : list Z) (n : nat) : Prop :=
  length content = (PGSIZE * n)%nat /\
  forall i, (i < n)%nat -> take PGSIZE (or_file o fd (t + i)%nat) = chunk content PGSIZE i.

Lemma length_chunk d c j n : (j < n)%nat -> length d = (c * n)%nat -> length (chunk d c j) = c.
Proof. intros Hj Hd. unfold chunk. rewrite length_take, length_drop. nia. Qed.

Section tools.
Context {D : Type} {prog0 : isp_prog} `{Reliable D prog0} (o : oracle).
Implicit Types (w : world D).

Lemma wc_page_wp fd content i buf ret w :
  (i < 8)%nat -> length buf = Z.to_nat 5000 ->
  take PGSIZE (or_file o fd (w_tick w)) = chunk content PGSIZE i ->
  length content = (PGSIZE * 8)%nat ->
  wp o (wc_page fd i (buf, ret)) w (fun r w' =>
    length r.1 = Z.to_nat 5000 /\
    r.2 = i32 (ret + nonspace (chunk content PGSIZE i) PGSIZE) /\
    w_tick w' = S (w_tick w) /\
    w_out w' = w_out w ++ [("%d\n", [AInt (nonspace (chunk content PGSIZE i) PGSIZE)])]).
Proof.
  intros Hi Hb Hf Hc. unfold wc_page. apply wp_bind.
  assert (Hp : length (chunk content PGSIZE i) = PGSIZE) by (by apply (length_chunk _ _ _ 8)).
  assert (Hpb : (PGSIZE <= length buf)%nat) by (rewrite Hb, PGSIZE_eq; lia).
  eapply wp_call.
  { cbn [handle]. rewrite bool_decide_true by lia. rewrite <- PGSIZE_eq, Hf. reflexivity. }
  apply wp_bind. eapply wp_eval.
  { apply nonspace_loop; [by rewrite length_overlay|]. unfold i32_ok. rewrite PGSIZE_eq. lia. }
  rewrite (nonspace_ext _ (chunk content PGSIZE i))
    by (intros j Hj; apply lookup_overlay_lt; lia).
  apply wp_bind, wp_printf, wp_ret. cbn [fst snd tick emit w_tick w_out].
  rewrite length_overlay. done.
Qed.

Lemma mywc_wp content buf0 w :
  length buf0 = Z.to_nat 5000 ->
  file_pages o (or_fd o "./read.txt") (w_tick w) content 8 ->
  wp o (Tools.mywc_main buf0) w (fun r w' => r = 0 /\
    w_out w' = w_out w ++ wc_lines content 8 ++
      [("result: %d\n", [AInt (nonspace content (PGSIZE * 8))])]).
Proof.
  intros Hb (Hc & Hf). unfold Tools.mywc_main. apply wp_bind. eapply wp_call; [done|].
  apply wp_bind.
  set (f := fun j => nonspace (chunk content PGSIZE j) PGSIZE).
  assert (Hok : forall n, (n <= 8)%nat -> i32_ok (zsum n f)).
  { intros n Hn. pose proof (zsum_bounds n f 0 (Z.of_nat PGSIZE)
      ltac:(intros; apply nonspace_bounds)) as Hz.
    revert Hz. generalize (zsum n f). intros z. unfold i32_ok. rewrite PGSIZE_eq. lia. }
  apply (wp_loop o (fun i r w' => length r.1 = Z.to_nat 5000 /\ r.2 = zsum i f /\
    w_tick w' = (w_tick w + i)%nat /\ w_out w' = w_out w ++ wc_lines content i)).
  - simpl. rewrite app_nil_r. split_and!; [done|done|lia|done].
  - intros i [buf ret] w1 Hi (Hl & Hr & Ht & Ho). simpl in Hl, Hr. subst ret.
    eapply wp_mono; [eapply wc_page_wp; [done|done| |done]|].
    { rewrite Ht. by apply Hf. }
    intros [buf1 ret1] w2 (Hl1 & Hr1 & Ht1 & Ho1). cbn [fst snd] in *.
    split_and!; [done| |lia|].
    + rewrite Hr1, Nat.add_1_r. change (zsum (S i) f) with (zsum i f + f i).
      apply i32_small. apply (Hok (S i)). lia.
    + by rewrite Ho1, Ho, wc_lines_S, app_assoc.
  - intros [buf ret] w1 (_ & Hr & _ & Ho). cbn [snd] in Hr. subst ret.
    apply wp_bind, wp_printf, wp_ret. split; [done|]. cbn [emit w_out].
    rewrite Ho, (nonspace_chunks content PGSIZE 8), <- app_assoc. done.
Qed.
End tools.

(** Ioctl/mywc.c on a local file and wc.c inside the SSD agree: if the
    program's eight reads deliver the pages of [content], it prints one count
    per page and then exactly the number the in-storage program returns for
    the same eight pages. *)
Theorem wc_offload_equiv {D : Type} {prog0 : isp_prog} `{Reliable D prog0} (o : oracle)
    (w : world D) (content buf0 : list Z) (p0 p1 p2 p3 p4 : Z) (mp : list Z) :
  length buf0 = Z.to_nat 5000 ->
  file_pages o (or_fd o "./read.txt") (w_tick w) content 8 ->
  exists w' n,
    run o (Tools.mywc_main buf0) w = Some (0, w') /\
    w_out w' = w_out w ++ wc_lines content 8 ++ [("result: %d\n", [AInt n])] /\
    Wc.wc (IspCtx p0 p1 p2 p3 p4 content mp) = Some (n, mp).
Proof.
  intros Hb Hf. destruct (mywc_wp o content buf0 w Hb Hf) as (r & w' & E & -> & Ho).
  exists w', (nonspace content (PGSIZE * 8)). split_and!; [done|done|].
  apply (wc_gen_spec 8 (IspCtx p0 p1 p2 p3 p4 content mp)); [done|].
  cbn [data]. by rewrite (proj1 Hf).
Qed.

(** An oracle whose files are full of zeros. *)
Definition zero_files : oracle :=
  Oracle (fun _ => 3) (fun _ => []) (fun _ => 4096) (fun _ => (0, 0)) (fun n => Z.of_nat n)
    (fun _ => 0) (fun _ _ => zeros PGSIZE).

Lemma wc_offload_equiv_witness :
  exists w' n,
    run zero_files (Tools.mywc_main (zeros (Z.to_nat 5000))) (blank_world pass_prog) =
      Some (0, w') /\
    Wc.wc (IspCtx 0 0 0 0 0 (zeros (PGSIZE * 8)) []) = Some (n, []).
Proof.
  destruct (wc_offload_equiv zero_files (blank_world pass_prog) (zeros (PGSIZE * 8))
    (zeros (Z.to_nat 5000)) 0 0 0 0 0 []) as (w' & n & E & _ & Ew).
  - apply length_zeros.
  - split; [apply length_zeros|]. intros i Hi. cbn [or_file zero_files].
    unfold chunk, zeros. rewrite drop_replicate, !take_replicate. f_equal.
    rewrite PGSIZE_eq. lia.
  - exists w', n. split; [exact E|exact Ew].
Defined.
