(* ===== verification/GenProofs.v ===== *)
(** * The data generators and the page dump

    generate_random_matrix.c fills the SSD with the matrices the npsum drivers
    sum, and keeps a copy of each in a file; tpage/gen.c writes a test page;
    page_read.c dumps a map page. *)

From S2P Require Import Prelude Mem Ebpf Nvme Prog NpsumIsp NpsumHost NpsumProofs.
From S2P Require Import PatternMatch Tools.

Open Scope string_scope.
Open Scope list_scope.
Open Scope Z_scope.

(** ** Random matrices *)

(** Element [k] of matrix [i], when the generator's first [rand()] is oracle
    call [t]. *)
Definition rand_element (o : oracle) (t i k : nat) : Z :=
  or_rand o (t + Z.to_nat MATRIX_ELEMENTS * i + k) `mod` RANDOM_RANGE.

Definition generated (o : oracle) (t : nat) (s : ssd) (i : nat) : Prop :=
  forall k, (k < Z.to_nat MATRIX_ELEMENTS)%nat ->
    nth k (ints (matrix s i)) 0 = rand_element o t i k.

(** The copies in the files. *)
Definition matrix_files (o : oracle) (s : ssd) (n : nat) : list (Z * list Z) :=
  (fun i => (or_fd o (matrix_filename i), matrix s i)) <$> seq 0 n.

Lemma matrix_files_S o s n :
  matrix_files o s (n + 1) =
  matrix_files o s n ++ [(or_fd o (matrix_filename n), matrix s n)].
Proof. unfold matrix_files. by rewrite seq_app, fmap_app. Qed.

Lemma matrix_files_ext o s s' n :
  (forall j, (j < n)%nat -> matrix s j = matrix s' j) -> matrix_files o s n = matrix_files o s' n.
Proof.
  intros Hm. unfold matrix_files. apply list_fmap_ext. intros i j Hj.
  apply lookup_seq in Hj as [-> Hj]. by rewrite Hm.
Qed.

Lemma rand_element_range o t i k : 0 <= rand_element o t i k < 1024.
Proof. apply Z.mod_pos_bound. done. Qed.

(** Small elements: their sum is exact. *)
Lemma generated_sum o t s i :
  generated o t s i ->
  matrix_sum s i = zsum (Z.to_nat MATRIX_ELEMENTS) (rand_element o t i) /\
  0 <= matrix_sum s i <= 65536 * 1023.
Proof.
  intros Hg. unfold matrix_sum.
  rewrite (zsum_ext _ _ (rand_element o t i)) by exact Hg.
  pose proof (zsum_bounds (Z.to_nat MATRIX_ELEMENTS) (rand_element o t i) 0 1023
    ltac:(intros k; pose proof (rand_element_range o t i k); lia)) as Hz.
  revert Hz. generalize (zsum (Z.to_nat MATRIX_ELEMENTS) (rand_element o t i)). intros z.
  change MATRIX_ELEMENTS with 65536. intros Hz.
  rewrite i32_small by (unfold i32_ok; lia). lia.
Qed.

Lemma matrix_write_same s i buf :
  length buf = Z.to_nat MATRIX_SIZE ->
  matrix (write_blocks s (1024 + 64 * Z.of_nat i) (Z.to_nat 64) buf) i = buf.
Proof.
  intros Hl. unfold matrix. replace (Z.of_nat i * 64) with (64 * Z.of_nat i) by lia.
  assert (E : (PGSIZE * Z.to_nat 64)%nat = length buf).
  { rewrite Hl, PGSIZE_eq. change MATRIX_SIZE with 262144. lia. }
  rewrite read_write_blocks by lia. rewrite E. by apply take_ge.
Qed.

Lemma matrix_write_other s i j buf :
  i <> j -> matrix (write_blocks s (1024 + 64 * Z.of_nat i) (Z.to_nat 64) buf) j = matrix s j.
Proof.
  intros Hij. unfold matrix. apply read_blocks_ext. intros l Hl.
  apply write_blocks_other. lia.
Qed.

Section generator.
Context {D : Type} {prog0 : isp_prog} `{Reliable D prog0} (o : oracle).
Context (Hrand : forall n, 0 <= or_rand o n).
Implicit Types (w : world D).

Lemma gen_element_wp buf sum k w :
  (k < length (ints buf))%nat ->
  wp o (gen_element k (buf, sum)) w (fun r w' =>
    length r.1 = length buf /\
    ints r.1 = <[k := or_rand o (w_tick w) `mod` RANDOM_RANGE]> (ints buf) /\ w' = tick w).
Proof.
  intros Hk. unfold gen_element. apply wp_bind. eapply wp_call; [done|].
  destruct (st32_ints buf k (Z.rem (or_rand o (w_tick w)) RANDOM_RANGE) Hk)
    as (buf' & E & Hl & Hi).
  apply wp_bind. eapply wp_eval; [exact E|].
  assert (Hr : i32 (Z.rem (or_rand o (w_tick w)) RANDOM_RANGE) =
               or_rand o (w_tick w) `mod` RANDOM_RANGE).
  { rewrite Z.rem_mod_nonneg by (try apply Hrand; done).
    apply i32_small. pose proof (Z.mod_pos_bound (or_rand o (w_tick w)) RANDOM_RANGE eq_refl).
    unfold RANDOM_RANGE, i32_ok in *. lia. }
  rewrite Hr in Hi. apply wp_bind. eapply wp_eval.
  { rewrite ld32_ints, Hi. by rewrite list_lookup_insert_eq. }
  by apply wp_ret.
Qed.

Lemma gen_elements_wp nelem buf w :
  length (ints buf) = nelem ->
  wp o (for_ nelem gen_element (buf, 0)) w (fun r w' =>
    length r.1 = length buf /\ w_dev w' = w_dev w /\ w_out w' = w_out w /\
    w_files w' = w_files w /\ w_tick w' = (w_tick w + nelem)%nat /\
    forall k, (k < nelem)%nat ->
      nth k (ints r.1) 0 = or_rand o (w_tick w + k) `mod` RANDOM_RANGE).
Proof.
  intros Hn. apply (wp_loop o (fun i r w' =>
    length (ints r.1) = nelem /\
    length r.1 = length buf /\ w_dev w' = w_dev w /\ w_out w' = w_out w /\
    w_files w' = w_files w /\ w_tick w' = (w_tick w + i)%nat /\
    forall k, (k < i)%nat ->
      nth k (ints r.1) 0 = or_rand o (w_tick w + k) `mod` RANDOM_RANGE)).
  - split_and!; try done. cbn. lia.
  - intros i [b sum] w1 Hi (Hb & Hl & Hd & Ho & Hf & Ht & HI). cbn [fst] in *.
    eapply wp_mono; [apply gen_element_wp; lia|].
    intros [b1 sum1] w2 (Hl1 & Hi1 & ->). cbn [fst tick w_dev w_out w_files w_tick] in *.
    split_and!; [by rewrite Hi1, length_insert|congruence|done|done|done|lia|].
    intros k Hk. rewrite Hi1, nth_insert by lia. case_decide as Hki.
    + subst. by rewrite Ht.
    + apply HI. lia.
  - intros [b sum] w1 (_ & HI). exact HI.
Qed.
End generator.

Section generator_main.
Context {D : Type} {prog0 : isp_prog} `{Reliable D prog0} (o : oracle).
Context (Hrand : forall n, 0 <= or_rand o n).
Implicit Types (w : world D).

(** One matrix: stored in its 64 blocks and copied to its file. *)
Lemma gen_matrix_wp dev addr i buf w :
  (i < NUM_MATRIX)%nat -> length buf = Z.to_nat MATRIX_SIZE ->
  wp o (gen_matrix dev addr (Z.to_nat MATRIX_ELEMENTS) i buf) w (fun buf' w' =>
    length buf' = Z.to_nat MATRIX_SIZE /\
    ssd_of (w_dev w') =
      write_blocks (ssd_of (w_dev w)) (1024 + 64 * Z.of_nat i) (Z.to_nat 64) buf' /\
    w_files w' = w_files w ++ [(or_fd o (matrix_filename i), buf')] /\
    w_tick w' = (w_tick w + Z.to_nat MATRIX_ELEMENTS)%nat /\
    forall k, (k < Z.to_nat MATRIX_ELEMENTS)%nat ->
      nth k (ints buf') 0 = or_rand o (w_tick w + k) `mod` RANDOM_RANGE).
Proof.
  intros Hi Hl. unfold gen_matrix. apply wp_bind. eapply wp_mono.
  { apply (gen_elements_wp o Hrand). rewrite length_ints, Hl.
    change MATRIX_SIZE with 262144. change MATRIX_ELEMENTS with 65536.
    apply Nat2Z.inj. rewrite Nat2Z.inj_div, !Z2Nat.id by lia. reflexivity. }
  intros [b sum] w1 (Hb & Hd & _ & Hf & Ht & HI). cbn [fst] in *. rewrite Hl in Hb.
  apply wp_bind. eapply wp_call; [done|]. apply wp_bind. eapply wp_call.
  { cbn [handle]. rewrite bool_decide_true by (rewrite Hb; change MATRIX_SIZE with 262144; lia).
    rewrite (take_ge b) by (rewrite Hb; done). reflexivity. }
  apply wp_bind. eapply wp_call; [done|]. apply wp_bind.
  apply wp_io_write; [done| |].
  { apply bool_decide_pack. change (io_nblocks _) with 63. rewrite Hb.
    change MATRIX_SIZE with 262144. lia. }
  intros d' Hs. apply wp_bind. unfold when. rewrite bool_decide_false by tauto.
  apply wp_ret, wp_ret. cbn [set_dev log_write w_dev w_files w_tick] in *.
  split_and!; [done| |by rewrite Hf|done|done].
  rewrite Hs, Hd. change (io_len _) with (Z.to_nat 64).
  change (io_slba _) with (u64 (1024 + 64 * Z.of_nat i)). unfold NUM_MATRIX in Hi.
  by rewrite wrapu_small by lia.
Qed.

(** What holds after [n] matrices. *)
Record gen_inv (t : nat) (s0 : ssd) (f0 : list (Z * list Z)) (n : nat) (w : world D) : Prop := {
  gi_gen : forall i, (i < n)%nat -> generated o t (ssd_of (w_dev w)) i;
  gi_files : w_files w = f0 ++ matrix_files o (ssd_of (w_dev w)) n;
  gi_tick : w_tick w = (t + Z.to_nat MATRIX_ELEMENTS * n)%nat;
  gi_frame : forall l, ~ (1024 <= l < 1024 + 64 * Z.of_nat n) ->
    block (ssd_of (w_dev w)) l = block s0 l
}.

Lemma gen_inv_step t s0 f0 n w w' buf :
  gen_inv t s0 f0 n w -> length buf = Z.to_nat MATRIX_SIZE ->
  ssd_of (w_dev w') =
    write_blocks (ssd_of (w_dev w)) (1024 + 64 * Z.of_nat n) (Z.to_nat 64) buf ->
  w_files w' = w_files w ++ [(or_fd o (matrix_filename n), buf)] ->
  w_tick w' = (w_tick w + Z.to_nat MATRIX_ELEMENTS)%nat ->
  (forall k, (k < Z.to_nat MATRIX_ELEMENTS)%nat ->
      nth k (ints buf) 0 = or_rand o (w_tick w + k) `mod` RANDOM_RANGE) ->
  gen_inv t s0 f0 (n + 1) w'.
Proof.
  intros [Hg Hf Ht Hb] Hl Hs Hf' Ht' HI. split.
  - intros i Hi k Hk. rewrite Hs. destruct (decide (n = i)) as [<-|Hne].
    + rewrite matrix_write_same by done. unfold rand_element. rewrite HI, Ht by done. done.
    + rewrite matrix_write_other by done. apply Hg; [lia|done].
  - rewrite Hf', Hf, matrix_files_S, app_assoc, Hs, matrix_write_same by done.
    rewrite (matrix_files_ext o (write_blocks _ _ _ _) (ssd_of (w_dev w)) n); [done|].
    intros j Hj. apply matrix_write_other. lia.
  - rewrite Ht', Ht. lia.
  - intros l Hll. rewrite Hs, write_blocks_other by lia. apply Hb. lia.
Qed.

Lemma generator_wp NUM w :
  (NUM <= NUM_MATRIX)%nat ->
  wp o (generate_random_matrix_gen NUM) w (fun r w' =>
    r = 0 /\ gen_inv (S (w_tick w)) (ssd_of (w_dev w)) (w_files w) NUM w').
Proof.
  intros HN. unfold generate_random_matrix_gen. apply wp_bind. eapply wp_call; [done|].
  apply wp_bind. eapply wp_call; [done|]. apply wp_bind.
  apply (wp_loop o (fun i buf w' => length buf = Z.to_nat MATRIX_SIZE /\
    gen_inv (S (w_tick w)) (ssd_of (w_dev w)) (w_files w) i w')).
  - split; [apply length_resize|]. split.
    + intros i Hi. lia.
    + cbn. by rewrite app_nil_r.
    + cbn [tick w_tick]. lia.
    + done.
  - intros i buf w1 Hi (Hl & Hinv). eapply wp_mono; [apply gen_matrix_wp; [lia|done]|].
    intros buf' w2 (Hl' & Hs & Hf & Ht & HI). split; [done|]. by eapply gen_inv_step.
  - intros buf w1 (_ & Hinv). by apply wp_ret.
Qed.
End generator_main.

(** C32: generate_random_matrix.c prepares the data set the npsum drivers read.
    If [rand()] is never negative, the program completes without a memory
    error; matrix [i] of the SSD then holds [rand() % 1024] of successive
    calls, its sum is exact (it fits an [int] without wrapping), the file of
    matrix [i] holds the same bytes as its blocks, and no block outside the
    data set is touched. *)
Theorem generator_stores {D : Type} {prog0 : isp_prog} `{Reliable D prog0} (o : oracle)
    (w : world D) :
  (forall n, 0 <= or_rand o n) ->
  exists w', run o generate_random_matrix_main w = Some (0, w') /\
    (forall i, (i < NUM_MATRIX)%nat ->
       generated o (S (w_tick w)) (ssd_of (w_dev w')) i /\
       matrix_sum (ssd_of (w_dev w')) i =
         zsum (Z.to_nat MATRIX_ELEMENTS) (rand_element o (S (w_tick w)) i)) /\
    w_files w' = w_files w ++ matrix_files o (ssd_of (w_dev w')) NUM_MATRIX /\
    (forall l, ~ (1024 <= l < 1024 + 64 * Z.of_nat NUM_MATRIX) ->
       block (ssd_of (w_dev w')) l = block (ssd_of (w_dev w)) l).
Proof.
  intros Hr. destruct (generator_wp o Hr NUM_MATRIX w (Nat.le_refl _)) as (r & w' & E & -> & I).
  exists w'. split; [exact E|]. split; [|split].
  - intros i Hi. pose proof (gi_gen _ _ _ _ _ _ I i Hi) as Hg. split; [done|].
    by apply generated_sum.
  - apply (gi_files _ _ _ _ _ _ I).
  - apply (gi_frame _ _ _ _ _ _ I).
Qed.

Lemma generator_stores_witness :
  exists w', run null_oracle generate_random_matrix_main (blank_world pass_prog) = Some (0, w').
Proof.
  destruct (generator_stores null_oracle (blank_world pass_prog)) as (w' & E & _).
  - intros n. cbn. lia.
  - exists w'. exact E.
Defined.

(** ** tpage/gen.c *)

Lemma gen_loop data n :
  length (ints data) = n -> i32_ok (Z.of_nat n) ->
  exists data', for_ n (fun i data => st32 data i (Z.of_nat i)) data = Some data' /\
    length data' = length data /\ ints data' = Z.of_nat <$> seq 0 n.
Proof.
  intros Hl Hn.
  destruct (for_opt_ind (fun i d => length (ints d) = n /\ length d = length data /\
      forall k, (k < i)%nat -> ints d !! k = Some (Z.of_nat k))
    (fun i data => st32 data i (Z.of_nat i)) n data) as (d & E & Hd & Hlen & HI).
  - split_and!; [done|done|]. intros k Hk. lia.
  - intros i d Hi (Hd & Hlen & HI).
    destruct (st32_ints d i (Z.of_nat i)) as (d' & E & Hl' & Hi'); [lia|].
    exists d'. split; [done|]. rewrite Hi', length_insert. split_and!; [done|congruence|].
    intros k Hk. destruct (decide (k = i)) as [->|Hne].
    + rewrite list_lookup_insert_eq by lia. rewrite i32_small; [done|].
      unfold i32_ok in *. lia.
    + rewrite list_lookup_insert_ne by lia. apply HI. lia.
  - exists d. split_and!; [done|done|]. apply list_eq. intros k.
    destruct (decide (k < n)%nat) as [Hk|Hk].
    + rewrite HI by done. rewrite list_lookup_fmap, lookup_seq_lt by done. done.
    + rewrite !lookup_ge_None_2; [done| |]; rewrite ?length_fmap, ?length_seq; lia.
Qed.

(** A page of the ints 0 to 1023. *)
Definition test_page (p : list Z) : Prop :=
  length p = PGSIZE /\ ints p = Z.of_nat <$> seq 0 (Z.to_nat 1024).

(** tpage/gen.c writes one page that holds the ints 0 to 1023, whatever the
    allocated memory held. *)
Theorem gen_page {D : Type} {prog0 : isp_prog} `{Reliable D prog0} (o : oracle) (w : world D) :
  exists w' page, run o gen_main w = Some (0, w') /\
    w_files w' = w_files w ++ [(or_fd o "data.txt", page)] /\ test_page page.
Proof.
  enough (Hwp : wp o gen_main w (fun r w' => r = 0 /\ exists page,
    w_files w' = w_files w ++ [(or_fd o "data.txt", page)] /\
    length page = PGSIZE /\ ints page = Z.of_nat <$> seq 0 (Z.to_nat 1024))).
  { destruct Hwp as (r & w' & E & -> & page & HP). by exists w', page. }
  unfold gen_main. apply wp_bind. eapply wp_call; [done|].
  set (mem := resize PGSIZE 0 (or_heap o (w_tick w))).
  assert (Hm : length mem = PGSIZE) by apply length_resize.
  destruct (gen_loop mem (Z.to_nat 1024)) as (d & E & Hl & Hi).
  { rewrite length_ints, Hm, PGSIZE_eq. done. }
  { unfold i32_ok. lia. }
  apply wp_bind. eapply wp_eval; [exact E|]. apply wp_bind. eapply wp_call; [done|].
  apply wp_bind. eapply wp_call.
  { cbn [handle]. rewrite bool_decide_true by (rewrite Hl, Hm, PGSIZE_eq; lia).
    rewrite <- PGSIZE_eq, (take_ge d) by (rewrite Hl, Hm; done). reflexivity. }
  apply wp_ret. split; [done|]. exists d. by rewrite Hl.
Qed.

(** ** page_read.c *)

Definition int_lines (l : list Z) (n : nat) : list line :=
  mjoin ((fun i => ("%d ", [AInt (nth i l 0)]) ::
           (if bool_decide (i `mod` 8 = 7)%nat then [("\n", [])] else [])) <$> seq 0 n).

Lemma int_lines_S l n :
  int_lines l (n + 1) = int_lines l n ++ ("%d ", [AInt (nth n l 0)]) ::
    (if bool_decide (n `mod` 8 = 7)%nat then [("\n", [])] else []).
Proof. unfold int_lines. rewrite seq_app, fmap_app, join_app. cbn. by rewrite app_nil_r. Qed.

Section page_read.
Context {D : Type} {prog0 : isp_prog} `{Reliable D prog0} (o : oracle).
Implicit Types (w : world D).

Lemma print_ints_wp data n w :
  (n <= length (ints data))%nat ->
  wp o (print_ints data n) w (fun _ w' =>
    w_dev w' = w_dev w /\ w_files w' = w_files w /\
    w_out w' = w_out w ++ int_lines (ints data) n).
Proof.
  intros Hn. unfold print_ints.
  apply (wp_loop o (fun i _ w' => w_dev w' = w_dev w /\ w_files w' = w_files w /\
    w_out w' = w_out w ++ int_lines (ints data) i)).
  - by rewrite app_nil_r.
  - intros i _ w1 Hi (Hd & Hf & Ho). apply wp_bind. eapply wp_eval.
    { rewrite ld32_ints. apply nth_default_lookup. lia. }
    apply wp_bind, wp_printf. rewrite int_lines_S. unfold when.
    destruct (bool_decide (i `mod` 8 = 7)%nat).
    + apply wp_printf. cbn [emit w_dev w_files w_out].
      split_and!; [done|done|]. by rewrite Ho, <- !app_assoc.
    + apply wp_ret. cbn [emit w_dev w_files w_out].
      split_and!; [done|done|]. by rewrite Ho, <- !app_assoc.
  - done.
Qed.

Lemma page_read_wp w :
  let p := page (ssd_of (w_dev w)) 0 in
  wp o page_read_main w (fun r w' => r = 0 /\ ssd_of (w_dev w') = ssd_of (w_dev w) /\
    w_files w' = w_files w ++ [(or_fd o "./page.txt", p)] /\
    w_out w' = w_out w ++ int_lines (ints p) 32 ++ [("error code: %d\n", [AInt 0])]).
Proof.
  intros p. unfold page_read_main. apply wp_bind. eapply wp_call; [done|].
  unfold page_read_callprog. apply wp_bind, wp_bind. eapply wp_call; [done|].
  apply wp_bind. eapply wp_call; [done|]. apply wp_bind.
  apply wp_page_read; [done| |].
  { apply orb_prop_intro. right. apply bool_decide_pack.
    rewrite length_overlay, length_resize. change (pc_data_len _) with 4096.
    rewrite PGSIZE_eq. lia. }
  intros d' res Hs. change (pc_cdw15 _) with 0. cbn [tick w_dev] in *. fold p.
  assert (Hp : length p = PGSIZE) by apply length_page.
  rewrite overlay_full by (by rewrite Hp, length_overlay, length_resize).
  apply wp_bind. eapply wp_call.
  { cbn [handle]. rewrite bool_decide_true by (rewrite Hp, PGSIZE_eq; lia).
    rewrite <- PGSIZE_eq, (take_ge p) by (rewrite Hp; done). reflexivity. }
  apply wp_bind. eapply wp_mono.
  { apply print_ints_wp. rewrite (length_ints_page p Hp). lia. }
  intros _ w1 (Hd & Hf & Ho). apply wp_ret, wp_bind, wp_printf, wp_ret.
  cbn [set_dev log_write emit tick w_dev w_files w_out] in *.
  split_and!; [done|by rewrite Hd|done|]. by rewrite Ho, <- app_assoc.
Qed.
End page_read.

(** page_read.c dumps map page 0: on a reliable device the file gets its
    4096 bytes, the screen its first 32 integers in rows of eight and the
    error code 0, and the SSD is left as it was. *)
Theorem page_read_dumps {D : Type} {prog0 : isp_prog} `{Reliable D prog0} (o : oracle)
    (w : world D) :
  let p := page (ssd_of (w_dev w)) 0 in
  exists w', run o page_read_main w = Some (0, w') /\
    ssd_of (w_dev w') = ssd_of (w_dev w) /\
    w_files w' = w_files w ++ [(or_fd o "./page.txt", p)] /\
    w_out w' = w_out w ++ int_lines (ints p) 32 ++ [("error code: %d\n", [AInt 0])].
Proof. intros p. destruct (page_read_wp o w) as (r & w' & E & -> & HP). by exists w'. Qed.

Lemma gen_page_witness :
  exists w' page, run null_oracle gen_main (blank_world pass_prog) = Some (0, w') /\
    ints page = Z.of_nat <$> seq 0 (Z.to_nat 1024).
Proof.
  destruct (gen_page null_oracle (blank_world pass_prog)) as (w' & page & E & _ & _ & Hi).
  exists w', page. split; [exact E|exact Hi].
Defined.

Lemma page_read_dumps_witness :
  exists w', run null_oracle page_read_main (blank_world pass_prog) = Some (0, w').
Proof.
  destruct (page_read_dumps null_oracle (blank_world pass_prog)) as (w' & E & _).
  exists w'. exact E.
Defined.
