(* ===== verification/Procs.v ===== *)
(** * Processes: fork, wait and exit

    Five drivers fork.  A process is a tree of calls that may also fork, wait
    and exit; because the tree owns its local variables and buffers, [fork]
    gives the child a copy of them.  The device, the files and the terminal
    are shared.  [step] interleaves the processes call by call; [step_pid]
    is executable.

    The only form of waiting in the repository is a loop with an empty body,
    [while (wait(&status) > 0);] or [while (wait(&status) < 0);], which is one
    node of the tree that a process may execute again and again.

    [pw] is the plan of a process tree: whatever the calls answer and however
    the processes are scheduled, the tree and its descendants issue the listed
    requests, each exactly once, and stop within the given number of steps. *)

From S2P Require Import Prelude Mem Ebpf Nvme Prog.

Open Scope list_scope.

(** ** Calls of a process *)

Inductive procE : Type -> Type :=
| Io {X : Type} (e : ioE X) : procE X
| Fork : procE bool                         (* [fork() == 0] *)
| WaitWhile (pos : bool) : procE unit       (* [while (wait(&status) > 0);] or [< 0] *)
| Exit (code : Z) : procE Empty_set.

Fixpoint lift {A} (p : prog ioE A) : prog procE A :=
  match p with
  | Ret a => Ret a
  | Vis e k => Vis (Io e) (fun x => lift (k x))
  end.

Definition io {X} (e : ioE X) : prog procE X := call (Io e).
Definition exit {A} (code : Z) : prog procE A :=
  Vis (Exit code) (fun e : Empty_set => match e with end).

(** ** The process table *)

(** Slot [i] is the [i]-th process created. *)
Inductive slot :=
| Running (parent : option nat) (t : prog procE Z)
| Zombie (parent : option nat) (code : Z)
| Reaped.

(** What a call asks of the device, without the host addresses. *)
Inductive req :=
| RCmd (opcode param0 param1 slba nlb page : Z)
| RIo (opcode slba nblocks : Z)
| RPread (len off : Z).

Definition cmd_req (c : passthru_cmd) : req :=
  RCmd (pc_opcode c) (pc_cdw2 c) (pc_cdw3 c) (pc_cdw10 c) (pc_cdw12 c) (pc_cdw15 c).
Definition io_req (i : user_io) : req := RIo (io_opcode i) (io_slba i) (io_nblocks i).

Definition request {X} (e : ioE X) : list req :=
  match e with
  | IoCmd _ c _ => [cmd_req c]
  | SubmitIo _ i _ => [io_req i]
  | Pread _ _ len off => [RPread len off]
  | _ => []
  end.

Record sys (D : Type) := Sys { slots : list slot; wrld : world D; trace : list req }.
Arguments Sys {D}.
Arguments slots {D}.
Arguments wrld {D}.
Arguments trace {D}.

Definition child_of (pid : nat) (parent : option nat) : bool := bool_decide (parent = Some pid).
Definition zombie_of (pid : nat) (s : slot) : bool :=
  match s with Zombie p _ => child_of pid p | _ => false end.
Definition live_child_of (pid : nat) (s : slot) : bool :=
  match s with Running p _ => child_of pid p | _ => false end.

(** The position of the first slot that satisfies [f]. *)
Fixpoint find_slot (f : slot -> bool) (l : list slot) : option nat :=
  match l with
  | [] => None
  | s :: l' => if f s then Some O else S <$> find_slot f l'
  end.

Inductive outcome (D : Type) :=
| Next (s : sys D)       (* one step *)
| Blocked                (* waiting, or not running *)
| Crash.                 (* undefined behaviour *)
Arguments Next {D}.
Arguments Blocked {D}.
Arguments Crash {D}.

Section step.
Context {D : Type} `{Device D} (o : oracle).
Implicit Types (s : sys D).

Definition set_slot s (pid : nat) (x : slot) : sys D :=
  Sys (<[pid := x]> (slots s)) (wrld s) (trace s).

Definition perform s (pid : nat) (par : option nat) {X} (e : procE X)
    : (X -> prog procE Z) -> outcome D :=
  match e in procE X return (X -> prog procE Z) -> outcome D with
  | Io e => fun k =>
      match handle o e (wrld s) with
      | Some (x, w') =>
          Next (Sys (<[pid := Running par (k x)]> (slots s)) w' (trace s ++ request e))
      | None => Crash
      end
  | Fork => fun k =>
      Next (Sys (<[pid := Running par (k false)]> (slots s) ++ [Running (Some pid) (k true)])
              (wrld s) (trace s))
  | WaitWhile pos => fun k =>
      match find_slot (zombie_of pid) (slots s) with
      | Some z =>
          let s' := set_slot s z Reaped in
          Next (if pos then s' else set_slot s' pid (Running par (k tt)))
      | None =>
          if existsb (live_child_of pid) (slots s) then Blocked
          else Next (if pos then set_slot s pid (Running par (k tt)) else s)
      end
  | Exit code => fun _ => Next (set_slot s pid (Zombie par code))
  end.

Definition step_pid s (pid : nat) : outcome D :=
  match slots s !! pid with
  | Some (Running par (Ret code)) => Next (set_slot s pid (Zombie par code))
  | Some (Running par (Vis e k)) => perform s pid par e k
  | _ => Blocked
  end.

Definition step s s' : Prop := exists pid, step_pid s pid = Next s'.

Definition init (t : prog procE Z) (w : world D) : sys D := Sys [Running None t] w [].

(** Nothing runs any more. *)
Definition finished s : Prop :=
  Forall (fun x => match x with Running _ _ => False | _ => True end) (slots s).
End step.

(** A program whose every execution ends, within [N] steps and without
    undefined behaviour or deadlock, having issued exactly the requests [L], in
    some order.  *)
Definition settles {D} `{Device D} (o : oracle) (t : prog procE Z) (w : world D)
    (L : list req) (N : nat) : Prop :=
  forall k s, nsteps (step o) k (init t w) s ->
    (k <= N)%nat /\ (forall pid, step_pid o s pid <> Crash) /\
    ((finished s /\ trace s ≡ₚ L) \/ exists s', step o s s').

(** In particular it can be run to its end. *)
Lemma settles_ends {D} `{Device D} (o : oracle) t (w : world D) L N :
  settles o t w L N ->
  exists s, rtc (step o) (init t w) s /\ finished s /\ trace s ≡ₚ L.
Proof.
  intros Hset.
  assert (Hgen : forall m k s, (k + m = S N)%nat -> nsteps (step o) k (init t w) s ->
    exists s', rtc (step o) (init t w) s' /\ finished s' /\ trace s' ≡ₚ L).
  { induction m as [|m IH]; intros k s Hk Hs; destruct (Hset k s Hs) as (Hb & _ & Hend); [lia|].
    destruct Hend as [Hf|(s' & Hstep)].
    - exists s. split; [|done]. by apply (rtc_nsteps_2 k).
    - apply (IH (S k) s'); [lia|]. by eapply nsteps_r. }
  apply (Hgen (S N) 0%nat (init t w)); [lia|apply nsteps_O].
Qed.

(** ** Plans *)

(** A call that stays inside its buffers. *)
Definition fits {X} (e : ioE X) : bool :=
  match e with
  | IoCmd _ c buf => cmd_fits c buf
  | SubmitIo _ i buf => io_fits i buf
  | Pread _ buf len _ => bool_decide (len <= Z.of_nat (length buf))
  | Read _ buf len => bool_decide (len <= Z.of_nat (length buf))
  | Write _ buf len => bool_decide (len <= Z.of_nat (length buf))
  | Fault => false
  | _ => true
  end.

Lemma handle_fits {D} `{Device D} (o : oracle) {X} (e : ioE X) (w : world D) :
  fits e = true -> exists x w', handle o e w = Some (x, w').
Proof.
  intros Hf. destruct e; cbn [fits] in Hf; cbn [handle]; rewrite ?Hf; try done; eauto.
  - destruct (dev_io_cmd _ _ _) as [r d]. eauto.
  - destruct (dev_submit_io _ _ _) as [r d]. eauto.
  - destruct (dev_pread _ _ _ _) as [r d]. eauto.
Qed.

Section plans.
(** What the environment promises about the answers of calls. *)
Context (A : forall X, ioE X -> X -> Prop).
Arguments A {X}.

Definition pwE {X} (e : procE X) : (X -> list req -> nat -> Prop) -> list req -> nat -> Prop :=
  match e in procE X return (X -> list req -> nat -> Prop) -> list req -> nat -> Prop with
  | Io e => fun K l n =>
      fits e = true /\ exists l' n', l ≡ₚ request e ++ l' /\ (n' < n)%nat /\
        forall x, A e x -> K x l' n'
  | Fork => fun K l n =>
      exists lc nc lp np, l ≡ₚ lc ++ lp /\ (nc + np + 2 < n)%nat /\ K true lc nc /\ K false lp np
  | WaitWhile pos => fun K l n => pos = true /\ exists n', (n' < n)%nat /\ K tt l n'
  | Exit _ => fun _ l _ => l = []
  end.

Fixpoint pw {B} (t : prog procE B) (Q : B -> list req -> nat -> Prop) {struct t}
  : list req -> nat -> Prop :=
  match t with
  | Ret b => Q b
  | Vis e k => pwE e (fun x => pw (k x) Q)
  end.

(** A whole process: nothing is left to request when it returns. *)
Definition done_post (_ : Z) (l : list req) (_ : nat) : Prop := l = [].
Definition plan (t : prog procE Z) (l : list req) (n : nat) : Prop := pw t done_post l n.

Lemma pwE_mono {X} (e : procE X) (K K' : X -> list req -> nat -> Prop) l n :
  (forall x l n, K x l n -> K' x l n) -> pwE e K l n -> pwE e K' l n.
Proof.
  intros HK. destruct e; simpl.
  - intros (Hf & l' & n' & Hl & Hn & Hx). split; [done|]. exists l', n'. auto.
  - intros (lc & nc & lp & np & Hl & Hn & Hc & Hp). exists lc, nc, lp, np. auto.
  - intros (Hp & n' & Hn & HKn). eauto.
  - done.
Qed.

Lemma pw_mono {B} (t : prog procE B) (Q Q' : B -> list req -> nat -> Prop) l n :
  (forall b l n, Q b l n -> Q' b l n) -> pw t Q l n -> pw t Q' l n.
Proof.
  intros HQ. revert l n. induction t as [b|X e k IH]; intros l n; simpl; [auto|].
  apply pwE_mono. intros x l' n'. apply IH.
Qed.

Lemma pw_bind {B C} (t : prog procE B) (f : B -> prog procE C) Q l n :
  pw t (fun b => pw (f b) Q) l n -> pw (t ≫= f) Q l n.
Proof.
  change (t ≫= f) with (prog_bind f t). revert l n.
  induction t as [b|X e k IH]; intros l n; simpl; [done|].
  apply pwE_mono. intros x l' n'. apply IH.
Qed.

Lemma pw_ret {B} (b : B) (Q : B -> list req -> nat -> Prop) l n :
  Q b l n -> pw (mret b) Q l n.
Proof. done. Qed.

(** A call: its request is the first of the plan. *)
Lemma pw_io {X} (e : ioE X) Q l l' n :
  fits e = true -> l = request e ++ l' -> (0 < n)%nat ->
  (forall x, A e x -> Q x l' (n - 1)%nat) ->
  pw (io e) Q l n.
Proof. intros Hf -> Hn HQ. split; [done|]. exists l', (n - 1)%nat. split_and!; [done|lia|done]. Qed.

(** Sequential code inside a process. *)
Definition pl {B} (p : prog ioE B) (Q : B -> list req -> nat -> Prop) (l : list req) (n : nat)
  : Prop := pw (lift p) Q l n.

Lemma pl_call {X} (e : ioE X) Q l l' n :
  fits e = true -> l = request e ++ l' -> (0 < n)%nat ->
  (forall x, A e x -> Q x l' (n - 1)%nat) ->
  pl (call e) Q l n.
Proof. apply pw_io. Qed.

Lemma pl_ret {B} (b : B) (Q : B -> list req -> nat -> Prop) l n : Q b l n -> pl (mret b) Q l n.
Proof. done. Qed.

Lemma pl_mono {B} (t : prog ioE B) (Q Q' : B -> list req -> nat -> Prop) l n :
  (forall b l n, Q b l n -> Q' b l n) -> pl t Q l n -> pl t Q' l n.
Proof. apply pw_mono. Qed.

Lemma pl_bind {B C} (t : prog ioE B) (f : B -> prog ioE C) Q l n :
  pl t (fun b => pl (f b) Q) l n -> pl (t ≫= f) Q l n.
Proof.
  change (t ≫= f) with (prog_bind f t). unfold pl. revert l n.
  induction t as [b|X e k IH]; intros l n; simpl; [done|].
  intros (Hf & l' & n' & Hl & Hn & Hx). split; [done|]. exists l', n'. auto.
Qed.

Lemma pl_for {St} (R : nat -> St -> list req -> nat -> Prop) (f : nat -> St -> prog ioE St)
    cnt s (Q : St -> list req -> nat -> Prop) l n :
  R 0%nat s l n ->
  (forall i s l n, (i < cnt)%nat -> R i s l n -> pl (f i s) (R (i + 1)%nat) l n) ->
  (forall s l n, R cnt s l n -> Q s l n) ->
  pl (for_ cnt f s) Q l n.
Proof.
  intros H0 Hs HQ. unfold for_.
  assert (Hgen : forall m a s l n, (a + m = cnt)%nat -> R a s l n ->
    pl (foldlM f (seq a m) s) Q l n).
  { induction m as [|m IH]; intros a s1 l1 n1 Ha HR; simpl.
    - apply HQ. by replace cnt with a by lia.
    - apply (pl_bind (f a s1)). eapply pl_mono; [|apply Hs; [lia|done]].
      intros s2 l2 n2 H2. apply IH; [lia|]. by rewrite <- Nat.add_1_r. }
  by apply Hgen.
Qed.

(** A reading of the clock. *)
Lemma pl_now (Q : Z -> list req -> nat -> Prop) l n :
  (0 < n)%nat -> (forall t, Q t l (n - 1)%nat) -> pl now_us Q l n.
Proof.
  intros Hn HQ. apply pl_bind. eapply pl_call; [done|done|done|].
  intros [sec usec] _. apply HQ.
Qed.

Lemma pw_fork Q lc nc lp np n :
  (nc + np + 2 < n)%nat -> Q true lc nc -> Q false lp np ->
  pw (call Fork) Q (lc ++ lp) n.
Proof. intros Hn Hc Hp. exists lc, nc, lp, np. auto. Qed.

Lemma pw_wait Q l n : (0 < n)%nat -> Q tt l (n - 1)%nat -> pw (call (WaitWhile true)) Q l n.
Proof. intros Hn HQ. split; [done|]. exists (n - 1)%nat. split; [lia|done]. Qed.

Lemma pw_exit {B} code (Q : B -> list req -> nat -> Prop) n : pw (exit code) Q [] n.
Proof. done. Qed.

(** The rule for counted loops: [R i] is what is left at iteration [i]. *)
Lemma pw_for {St} (R : nat -> St -> list req -> nat -> Prop) (f : nat -> St -> prog procE St)
    cnt s (Q : St -> list req -> nat -> Prop) l n :
  R 0%nat s l n ->
  (forall i s l n, (i < cnt)%nat -> R i s l n -> pw (f i s) (R (i + 1)%nat) l n) ->
  (forall s l n, R cnt s l n -> Q s l n) ->
  pw (for_ cnt f s) Q l n.
Proof.
  intros H0 Hs HQ. unfold for_.
  assert (Hgen : forall m a s l n, (a + m = cnt)%nat -> R a s l n ->
    pw (foldlM f (seq a m) s) Q l n).
  { induction m as [|m IH]; intros a s1 l1 n1 Ha HR; simpl.
    - apply HQ. by replace cnt with a by lia.
    - apply (pw_bind (f a s1)). eapply pw_mono; [|apply Hs; [lia|done]].
      intros s2 l2 n2 H2. apply IH; [lia|]. by rewrite <- Nat.add_1_r. }
  by apply Hgen.
Qed.

(** More time never hurts. *)
Lemma pw_more {B} (t : prog procE B) (Q : B -> list req -> nat -> Prop) l n n' :
  (forall b l m m', (m <= m')%nat -> Q b l m -> Q b l m') ->
  (n <= n')%nat -> pw t Q l n -> pw t Q l n'.
Proof.
  intros HQ. revert l n n'. induction t as [b|X e k IH]; intros l n n' Hn; simpl; [by apply HQ|].
  destruct e; simpl.
  - intros (Hf & l' & m & Hl & Hm & Hx). split; [done|]. exists l', m. split_and!; [done|lia|done].
  - intros (lc & nc & lp & np & Hl & Hm & Hc & Hp). exists lc, nc, lp, np.
    split_and!; [done|lia|done|done].
  - intros (Hp & m & Hm & HK). split; [done|]. exists m. split; [lia|done].
  - done.
Qed.
End plans.

(** ** Adequacy of plans *)

(** Replacing one entry of a list of (requests, weight) pairs. *)
Lemma concat_insert (gs : list (list req * nat)) i g g' :
  gs !! i = Some g ->
  concat (<[i := g']> gs).*1 ++ g.1 ≡ₚ concat gs.*1 ++ g'.1.
Proof.
  intros Hg. rewrite <- (take_drop_middle gs i g Hg) at 2.
  rewrite insert_take_drop by (by eapply lookup_lt_Some).
  rewrite !fmap_app, !fmap_cons, !concat_app, !concat_cons.
  set (a := concat (take i gs).*1). set (b := concat (drop (S i) gs).*1). solve_Permutation.
Qed.

Lemma sum_insert (gs : list (list req * nat)) i g g' :
  gs !! i = Some g ->
  (sum_list (<[i := g']> gs).*2 + g.2 = sum_list gs.*2 + g'.2)%nat.
Proof.
  intros Hg. rewrite <- (take_drop_middle gs i g Hg) at 2.
  rewrite insert_take_drop by (by eapply lookup_lt_Some).
  rewrite !fmap_app, !fmap_cons, !sum_list_with_app. simpl. lia.
Qed.

Lemma find_slot_Some f l i : find_slot f l = Some i -> exists s, l !! i = Some s /\ f s = true.
Proof.
  revert i. induction l as [|s l IH]; intros i; simpl; [done|].
  destruct (f s) eqn:E; [intros [= <-]; eauto|].
  destruct (find_slot f l) as [j|]; [|done]. intros [= <-]. simpl. auto.
Qed.

(** The last running process of a table. *)
Lemma last_running (l : list slot) :
  Forall (fun x => match x with Running _ _ => False | _ => True end) l \/
  exists i par t, l !! i = Some (Running par t) /\
    forall j p u, l !! j = Some (Running p u) -> (j <= i)%nat.
Proof.
  induction l as [|x l IH] using rev_ind; [left; constructor|].
  destruct x as [par t| |].
  - right. exists (length l), par, t. rewrite lookup_app_r, Nat.sub_diag by done.
    split; [done|]. intros j p u Hj. apply lookup_lt_Some in Hj. rewrite length_app in Hj.
    simpl in Hj. lia.
  - destruct IH as [IH|(i & par & t & Hi & Hmax)]; [left; apply Forall_app; auto|].
    right. exists i, par, t. split; [by apply lookup_app_l_Some|].
    intros j p u [Hj|[_ Hj]]%lookup_app_Some; [eauto|].
    by apply list_lookup_singleton_Some in Hj as [_ ?].
  - destruct IH as [IH|(i & par & t & Hi & Hmax)]; [left; apply Forall_app; auto|].
    right. exists i, par, t. split; [by apply lookup_app_l_Some|].
    intros j p u [Hj|[_ Hj]]%lookup_app_Some; [eauto|].
    by apply list_lookup_singleton_Some in Hj as [_ ?].
Qed.

Section adequacy.
Context (A : forall X, ioE X -> X -> Prop) {D : Type} `{Device D} (o : oracle).
Context (A_ok : forall X (e : ioE X) (w : world D) x w',
  fits e = true -> handle o e w = Some (x, w') -> A X e x).
Implicit Types (s : sys D) (gs : list (list req * nat)).

(** A slot and what is left of its plan: a running process weighs two more
    than its steps, a zombie one (it is yet to be reaped). *)
Definition slot_plan (x : slot) (g : list req * nat) : Prop :=
  match x with
  | Running _ t => exists n, g.2 = (n + 2)%nat /\ plan A t g.1 n
  | Zombie _ _ => g = ([], 1%nat)
  | Reaped => g = ([], 0%nat)
  end.

Definition parents_ok (l : list slot) : Prop :=
  forall i p t, l !! i = Some (Running (Some p) t) -> (p < i)%nat.

(** Requests issued so far and requests planned make up [L]; at most [N] steps
    are left. *)
Inductive inv (L : list req) (N : nat) (s : sys D) : Prop :=
| Inv (gs : list (list req * nat)) :
    Forall2 slot_plan (slots s) gs ->
    trace s ++ concat gs.*1 ≡ₚ L ->
    (sum_list gs.*2 <= N)%nat ->
    parents_ok (slots s) ->
    inv L N s.

Lemma parents_insert l i x :
  parents_ok l ->
  (forall p t, x = Running (Some p) t -> (p < i)%nat) ->
  parents_ok (<[i := x]> l).
Proof.
  intros Hl Hx j p t. rewrite list_lookup_insert. case_decide as E.
  - destruct E as [-> _]. intros [= Ex]. by eapply Hx.
  - apply Hl.
Qed.

(** One slot moves on: its requests are issued or stay, its weight drops. *)
Lemma inv_update L N s i x x' tr w :
  inv L N s -> slots s !! i = Some x ->
  (forall g, slot_plan x g -> exists g', slot_plan x' g' /\
     (g'.2 < g.2)%nat /\ g.1 ≡ₚ tr ++ g'.1) ->
  (forall p t, x' = Running (Some p) t -> (p < i)%nat) ->
  exists N', (N' < N)%nat /\
    inv L N' (Sys (<[i := x']> (slots s)) w (trace s ++ tr)).
Proof.
  intros [gs Hs Ht Hw Hp] Hi Hx Hpar.
  destruct (Forall2_lookup_l _ _ _ _ _ Hs Hi) as (g0 & Hg & Hxg).
  destruct (Hx g0 Hxg) as (g1 & Hg1 & Hlt & Hperm).
  pose proof (sum_insert gs i g0 g1 Hg) as Hsum.
  pose proof (concat_insert gs i g0 g1 Hg) as Hcat.
  assert (Hge : (g0.2 <= sum_list gs.*2)%nat).
  { rewrite <- (take_drop_middle gs i g0 Hg), fmap_app, fmap_cons, sum_list_with_app. simpl. lia. }
  exists (N - 1)%nat. split; [lia|].
  apply (Inv _ _ _ (<[i := g1]> gs)); simpl.
  - by apply Forall2_insert.
  - rewrite <- Ht. apply (Permutation_app_inv_r g0.1).
    rewrite <- !app_assoc, Hcat, Hperm. rewrite (Permutation_app_comm (concat _) g1.1).
    set (a := concat gs.*1). solve_Permutation.
  - lia.
  - by apply parents_insert.
Qed.

Lemma inv_quiet L N s i x x' :
  inv L N s -> slots s !! i = Some x ->
  (forall g, slot_plan x g -> exists g', slot_plan x' g' /\ (g'.2 < g.2)%nat /\ g.1 = g'.1) ->
  (forall p t, x' = Running (Some p) t -> (p < i)%nat) ->
  exists N', (N' < N)%nat /\ inv L N' (set_slot s i x').
Proof.
  intros Hinv Hi Hx Hp. unfold set_slot. rewrite <- (app_nil_r (trace s)).
  eapply inv_update; [done..| |done].
  intros g Hg. destruct (Hx g Hg) as (g' & ? & ? & E). exists g'. by rewrite E.
Qed.

Lemma inv_parent L N s i par t p :
  inv L N s -> slots s !! i = Some (Running par t) -> par = Some p -> (p < i)%nat.
Proof. intros [gs _ _ _ Hp] Hi ->. by eapply Hp. Qed.

Lemma inv_plan L N s i par t :
  inv L N s -> slots s !! i = Some (Running par t) -> exists l n, plan A t l n.
Proof.
  intros [gs Hs _ _ _] Hi. destruct (Forall2_lookup_l _ _ _ _ _ Hs Hi) as (g & _ & n & _ & Hp).
  eauto.
Qed.

Lemma inv_fork L N s pid par (k : bool -> prog procE Z) :
  inv L N s -> slots s !! pid = Some (Running par (Vis Fork k)) ->
  exists N', (N' < N)%nat /\ inv L N'
    (Sys (<[pid := Running par (k false)]> (slots s) ++ [Running (Some pid) (k true)])
       (wrld s) (trace s)).
Proof.
  intros Hinv Hi. pose proof (fun p => inv_parent _ _ _ _ _ _ p Hinv Hi) as Hpar.
  destruct Hinv as [gs Hs Ht Hw Hp].
  destruct (Forall2_lookup_l _ _ _ _ _ Hs Hi) as ([l0 m0] & Hg & n & Hn & Hpl).
  destruct Hpl as (lc & nc & lp & np & Hl & Hlt & Hc & Hpp). cbn [fst snd] in *. subst m0.
  pose proof (sum_insert gs pid _ (lp, np + 2)%nat Hg) as Hsum.
  pose proof (concat_insert gs pid _ (lp, np + 2)%nat Hg) as Hcat.
  cbn [fst snd] in *. exists (N - 1)%nat. split; [lia|].
  apply (Inv _ _ _ (<[pid := (lp, np + 2)%nat]> gs ++ [(lc, nc + 2)%nat])); simpl.
  - apply Forall2_app; [apply Forall2_insert; [done|]|repeat constructor].
    + exists np. done.
    + exists nc. done.
  - rewrite <- Ht, fmap_app, concat_app. simpl. apply (Permutation_app_inv_r l0).
    rewrite app_nil_r, <- !app_assoc. rewrite (Permutation_app_comm lc l0).
    rewrite (app_assoc (concat _) l0), Hcat, Hl.
    set (a := concat gs.*1). solve_Permutation.
  - rewrite fmap_app, sum_list_with_app. simpl. lia.
  - intros i p t. rewrite lookup_app. destruct (<[_:=_]> _ !! i) as [x|] eqn:E.
    + intros [= ->]. revert E. apply (parents_insert _ _ _ Hp). intros q t' [= -> _].
      by apply Hpar.
    + rewrite length_insert. apply lookup_ge_None in E. rewrite length_insert in E.
      destruct (i - length (slots s))%nat eqn:Ei; simpl; [|done]. intros [= <- _].
      apply lookup_lt_Some in Hi. lia.
Qed.

(** Every step of a planned system is planned and uses up time. *)
Lemma inv_step L N s pid s' :
  inv L N s -> step_pid o s pid = Next s' -> exists N', (N' < N)%nat /\ inv L N' s'.
Proof.
  intros Hinv. unfold step_pid. destruct (slots s !! pid) as [[par t| |]|] eqn:Hi; try done.
  pose proof (fun p => inv_parent _ _ _ _ _ _ p Hinv Hi) as Hpar.
  assert (Hpar' : forall u p t', Running par u = Running (Some p) t' -> (p < pid)%nat).
  { intros u p t' [= -> _]. by apply Hpar. }
  destruct t as [code|X e k].
  { intros [= <-]. apply (inv_quiet _ _ _ _ _ _ Hinv Hi); [|done].
    intros [l m] (n & Hm & Hl). exists ([], 1%nat). simpl in *. split_and!; [done|lia|done]. }
  destruct e as [X e| |pos|code]; simpl.
  - destruct (handle o e (wrld s)) as [[x w']|] eqn:Eh; [|done]. intros [= <-].
    apply (inv_update _ _ _ _ _ _ _ _ Hinv Hi); [|apply Hpar'].
    intros [l m] (n & Hm & Hf & l' & n' & Hl & Hn & Hx). cbn [fst snd] in *.
    exists (l', n' + 2)%nat. cbn [fst snd]. split_and!; [|lia|done].
    exists n'. split; [done|]. apply Hx. by eapply A_ok.
  - intros [= <-]. by apply inv_fork.
  - destruct (inv_plan _ _ _ _ _ _ Hinv Hi) as (l0 & n0 & -> & _).
    destruct (find_slot _ _) as [z|] eqn:Ez.
    + intros [= <-]. apply find_slot_Some in Ez as (x & Hz & Hx).
      apply (inv_quiet _ _ _ _ _ _ Hinv Hz); [|done].
      destruct x; try done. intros g ->. exists ([], 0%nat). simpl. split_and!; [done|lia|done].
    + destruct (existsb _ _); [done|]. intros [= <-].
      apply (inv_quiet _ _ _ _ _ _ Hinv Hi); [|apply Hpar'].
      intros [l m] (n & Hm & _ & n' & Hn & HK). cbn [fst snd] in *.
      exists (l, n' + 2)%nat. cbn [fst snd]. split_and!; [|lia|done]. exists n'. done.
  - intros [= <-]. apply (inv_quiet _ _ _ _ _ _ Hinv Hi); [|done].
    intros [l m] (n & Hm & Hl). exists ([], 1%nat). simpl in *. split_and!; [done|lia|done].
Qed.

Lemma inv_no_crash L N s pid : inv L N s -> step_pid o s pid <> Crash.
Proof.
  intros Hinv. unfold step_pid. destruct (slots s !! pid) as [[par [code|X e k]| |]|] eqn:Hi; try done.
  destruct (inv_plan _ _ _ _ _ _ Hinv Hi) as (l & n & Hp).
  destruct e as [X e| |pos|code]; simpl; try done.
  - destruct Hp as (Hf & _). destruct (handle_fits o e (wrld s) Hf) as (x & w' & ->). done.
  - destruct (find_slot _ _); [done|]. by destruct (existsb _ _).
Qed.

(** A planned system never deadlocks: the last running process has no running
    children, so its wait is not blocked. *)
Lemma inv_progress L N s : inv L N s -> finished s \/ exists s', step o s s'.
Proof.
  intros Hinv. destruct (last_running (slots s)) as [Hf|(i & par & t & Hi & Hmax)]; [by left|].
  right. unfold step. enough (step_pid o s i <> Blocked) as Hb.
  { destruct (step_pid o s i) as [s'| |] eqn:E; [eauto|done|].
    by destruct (inv_no_crash _ _ _ i Hinv). }
  unfold step_pid. rewrite Hi. destruct t as [code|X e k]; [done|].
  destruct e as [X e| |pos|code]; simpl; try done.
  - by destruct (handle o e (wrld s)) as [[x w']|].
  - destruct (find_slot _ _); [done|]. destruct (existsb _ _) eqn:E; [|done].
    apply existsb_exists in E as (x & Hx & Hc). apply list_elem_of_In in Hx.
    apply list_elem_of_lookup in Hx as (j & Hj). destruct x as [p u| |]; try done.
    apply bool_decide_eq_true in Hc as ->. pose proof (Hmax _ _ _ Hj).
    destruct Hinv as [gs _ _ _ Hp]. pose proof (Hp _ _ _ Hj). lia.
Qed.

Lemma inv_finished L N s : inv L N s -> finished s -> trace s ≡ₚ L.
Proof.
  intros [gs Hs Ht _ _] Hf. rewrite <- Ht.
  enough (concat gs.*1 = []) as -> by (by rewrite app_nil_r).
  clear Ht. unfold finished in Hf. induction Hs as [|x g l gs' Hx _ IH]; [done|].
  rewrite fmap_cons, concat_cons. apply Forall_cons in Hf as [Hf1 Hf2]. rewrite IH by done. rewrite app_nil_r.
  destruct x; [done|..]; simpl in Hx; by subst g.
Qed.

Lemma inv_init t w l n : plan A t l n -> inv l (n + 2) (init t w).
Proof.
  intros Hp. apply (Inv _ _ _ [(l, n + 2)%nat]); simpl.
  - repeat constructor. exists n. done.
  - by rewrite app_nil_r.
  - lia.
  - intros [|i] p u; done.
Qed.

Lemma inv_nsteps L N s k s' :
  inv L N s -> nsteps (step o) k s s' -> exists N', (N' + k <= N)%nat /\ inv L N' s'.
Proof.
  intros Hinv Hk. revert N Hinv. induction Hk as [s|k s s1 s' [pid Hs] _ IH]; intros N Hinv.
  - exists N. split; [lia|done].
  - destruct (inv_step _ _ _ _ _ Hinv Hs) as (N1 & HN & H1).
    destruct (IH N1 H1) as (N2 & H2 & H3). exists N2. split; [lia|done].
Qed.

(** A planned program settles. *)
Lemma plan_settles t w L n : plan A t L n -> settles o t w L (n + 2).
Proof.
  intros Hp k s Hk. destruct (inv_nsteps _ _ _ _ _ (inv_init t w L n Hp) Hk) as (N & HN & Hinv).
  split_and!; [lia|intros pid; by apply (inv_no_crash L N)|].
  destruct (inv_progress _ _ _ Hinv) as [Hf|Hs]; [left|by right].
  split; [done|]. by apply (inv_finished L N).
Qed.
End adequacy.

(** ** Output

    [says Q t]: whatever the calls answer, every line the process and its
    descendants print satisfies [Q]. *)

Definition printed {X} (e : ioE X) : list line :=
  match e with Printf fmt args => [(fmt, args)] | _ => [] end.

Lemma handle_out {D} `{Device D} (o : oracle) {X} (e : ioE X) (w w' : world D) x :
  handle o e w = Some (x, w') -> w_out w' = w_out w ++ printed e.
Proof.
  destruct e; cbn [handle printed]; rewrite ?app_nil_r;
    repeat (case_match; try done); intros ?; by simplify_eq.
Qed.

Section says.
Context (Q : line -> Prop).

Definition saysE {X} (e : procE X) : (X -> Prop) -> Prop :=
  match e in procE X return (X -> Prop) -> Prop with
  | Io e => fun K => Forall Q (printed e) /\ forall x, K x
  | Fork => fun K => K true /\ K false
  | WaitWhile _ => fun K => K tt
  | Exit _ => fun _ => True
  end.

Fixpoint says {B} (t : prog procE B) (P : B -> Prop) {struct t} : Prop :=
  match t with
  | Ret b => P b
  | Vis e k => saysE e (fun x => says (k x) P)
  end.

Lemma says_mono {B} (t : prog procE B) (P P' : B -> Prop) :
  (forall b, P b -> P' b) -> says t P -> says t P'.
Proof.
  intros HP. induction t as [b|X e k IH]; simpl; [auto|].
  destruct e; simpl; [intros [? ?]; auto|intros [? ?]; auto|auto|done].
Qed.

Lemma says_bind {B C} (t : prog procE B) (f : B -> prog procE C) P :
  says t (fun b => says (f b) P) -> says (t ≫= f) P.
Proof.
  change (t ≫= f) with (prog_bind f t). induction t as [b|X e k IH]; simpl; [done|].
  destruct e; simpl; [intros [? ?]; auto|intros [? ?]; auto|auto|done].
Qed.

Lemma says_for {St} (I : St -> Prop) n (f : nat -> St -> prog procE St) s :
  I s -> (forall i s, (i < n)%nat -> I s -> says (f i s) I) -> says (for_ n f s) I.
Proof.
  intros H0 Hs. unfold for_.
  assert (Hgen : forall m a s, (a + m <= n)%nat -> I s -> says (foldlM f (seq a m) s) I).
  { induction m as [|m IH]; intros a s1 Ha HI; simpl; [done|].
    apply (says_bind (f a s1)). eapply says_mono; [|apply Hs; [lia|done]].
    intros s2 H2. apply IH; [lia|done]. }
  by apply Hgen.
Qed.

(** Sequential code that prints nothing of interest. *)
Lemma says_now (P : Z -> Prop) : (forall t, P t) -> says (lift now_us) P.
Proof. intros HP. split; [constructor|]. intros [sec usec]. apply HP. Qed.

Lemma says_io {X} (e : ioE X) (P : X -> Prop) :
  Forall Q (printed e) -> (forall x, P x) -> says (io e) P.
Proof. intros Hp HP. by split. Qed.

Lemma says_wait pos (P : unit -> Prop) : P tt -> says (call (WaitWhile pos)) P.
Proof. done. Qed.

Definition slot_says (x : slot) : Prop :=
  match x with Running _ t => says t (fun _ => True) | _ => True end.

Context {D : Type} `{Device D} (o : oracle).
Implicit Types (s : sys D).

Lemma says_step s s' :
  Forall slot_says (slots s) -> step o s s' ->
  Forall slot_says (slots s') /\
  exists ls, w_out (wrld s') = w_out (wrld s) ++ ls /\ Forall Q ls.
Proof.
  intros Hs (pid & Hp). unfold step_pid in Hp.
  destruct (slots s !! pid) as [[par [code|X e k]| |]|] eqn:Hi; try done.
  { injection Hp as <-. split; [by apply Forall_insert|]. exists []. by rewrite app_nil_r. }
  pose proof (Forall_lookup_1 _ _ _ _ Hs Hi) as Hsay. cbn [slot_says says] in Hsay.
  destruct e as [X e| |pos|code]; simpl in Hp, Hsay.
  - destruct Hsay as [Hpr Hk]. destruct (handle o e (wrld s)) as [[x w']|] eqn:Eh; [|done].
    injection Hp as <-. split; [apply Forall_insert; [done|apply Hk]|].
    exists (printed e). split; [|done]. by apply (handle_out o e _ _ x).
  - destruct Hsay as [Hc Hk]. injection Hp as <-. split.
    + apply Forall_app. split; [by apply Forall_insert|]. repeat constructor. exact Hc.
    + exists []. by rewrite app_nil_r.
  - destruct (find_slot _ _) as [z|].
    + injection Hp as <-. split; [|exists []; destruct pos; by rewrite app_nil_r].
      destruct pos; simpl; [by apply Forall_insert|]. by do 2 (apply Forall_insert; [|done]).
    + destruct (existsb _ _); [done|]. injection Hp as <-.
      split; [|exists []; destruct pos; by rewrite app_nil_r].
      destruct pos; [by apply Forall_insert|done].
  - injection Hp as <-. split; [by apply Forall_insert|]. exists []. by rewrite app_nil_r.
Qed.

Lemma says_adequate t w s :
  says t (fun _ => True) -> rtc (step o) (init t w) s ->
  exists ls, w_out (wrld s) = w_out w ++ ls /\ Forall Q ls.
Proof.
  intros Ht Hr.
  enough (Forall slot_says (slots s) /\
    exists ls, w_out (wrld s) = w_out w ++ ls /\ Forall Q ls) as [_ ?]; [done|].
  revert s Hr. apply (rtc_ind_r (fun s => Forall slot_says (slots s) /\
    exists ls, w_out (wrld s) = w_out w ++ ls /\ Forall Q ls)).
  - split; [by repeat constructor|]. exists []. by rewrite app_nil_r.
  - intros s s' _ Hstep (Hs & ls & E & HQ).
    destruct (says_step s s' Hs Hstep) as (Hs' & ls' & E' & HQ'). split; [done|].
    exists (ls ++ ls'). rewrite E', E, app_assoc. split; [done|]. by apply Forall_app.
Qed.
End says.
