(* ===== verification/Forking.v ===== *)
(** * The drivers that fork

    npsum/ISP_noaxis_mt.c and npsum/host_noaxis_mt.c split the matrices among
    child processes, pattern_match/mtssd_pm.c forks one child per chunk,
    ioctl/submit_op_fork.c one per request and rband/pread_local.c one per
    benchmark. *)

From S2P Require Import Prelude Mem Ebpf Nvme Prog NpsumIsp NpsumHost PatternMatch.
From S2P Require Import Tools Rband Procs.

Open Scope string_scope.
Open Scope list_scope.
Open Scope Z_scope.

(** ** npsum/ISP_noaxis_mt.c *)

(** [NUM_MATRIX / num_threads]. *)
Definition per_thread (num_threads : Z) : nat := Z.to_nat (1024 / num_threads).

(** [1024 + i*64 + (NUM_MATRIX / num_threads) * 64 *t]. *)
Definition mt_slba (num_threads : Z) (t i : nat) : Z :=
  1024 + Z.of_nat i * 64 + 1024 / num_threads * 64 * Z.of_nat t.

Definition mt_cmd (num_threads : Z) (t i : nat) : passthru_cmd :=
  mk_cmd 0x82 3 0 0 0 MATRIX_SIZE (mt_slba num_threads t i) (64 - 1) 0 (-1).

Definition mt_matrix (num_threads dev : Z) (t i : nat) (_ : unit) : prog ioE unit :=
  '(err, result, _) ← call (IoCmd dev (mt_cmd num_threads t i) []);
  if decide (err <> 0) then
    call (Printf "iteration %d: err %d\n" [AInt (Z.of_nat i); AInt err])
  else
    let sum := i32 result in
    when (bool_decide (sum < 30000000) || bool_decide (sum > 40000000))
      (call (Printf "Warning: sum out of range: %d\n" [AInt sum])).

(** The body of one child. *)
Definition mt_child (num_threads dev : Z) (t : nat) : prog procE unit :=
  lift (for_ (per_thread num_threads) (mt_matrix num_threads dev t) tt) ;;
  exit 0.

(** [for (t = 0; t < num_threads; t++) if (fork() == 0) { ...; exit(0); }]. *)
Definition fork_all (n : nat) (child : nat -> prog procE unit) : prog procE unit :=
  for_ n (fun t (_ : unit) => c ← call Fork; if (c : bool) then child t else mret tt) tt.

Definition ISP_noaxis_mt_main (argv : list string) : prog procE Z :=
  dev ← io (Open NVME_PATH ["O_RDWR"]);
  match argv !! 1%nat with
  | None => io (Printf "usage: ./a.out [num_threads]\n" []) ;; mret 0
  | Some a =>
      let num_threads := atoi a in
      io (IoCmd dev cmd_stats_clear []) ;;
      time_acc ← for_ 16 (fun it time_acc =>
        start ← lift now_us;
        fork_all (Z.to_nat num_threads) (mt_child num_threads dev) ;;
        call (WaitWhile true) ;;
        end_ ← lift now_us;
        io (Sleep 1) ;;
        mret (time_acc + (end_ - start))) 0;
      io (Printf "---- Test end ----\n" []) ;;
      io (Printf "Execution time : %.2f ms\n" [AQuot time_acc (1000 * 16)]) ;;
      mret 0
  end.

(** ** npsum/host_noaxis_mt.c *)

Definition mt_io (num_threads addr : Z) (t i : nat) : user_io :=
  mk_io 0x02 (64 - 1) addr (1024 + Z.of_nat i * 64 + Z.of_nat t * 64 * (1024 / num_threads)).

(** The child's buffer is its copy of [buf]; the times are not used after it
    exits. *)
Definition host_mt_matrix (num_threads dev addr : Z) (t i : nat) (buf : list Z)
    : prog ioE (list Z) :=
  start_read ← now_us;
  '(err, buf) ← call (SubmitIo dev (mt_io num_threads addr t i) buf);
  end_read ← now_us;
  if decide (err <> 0) then
    call (Printf "iteration %d: err %d\n" [AInt (Z.of_nat i); AInt err]) ;;
    mret buf
  else
    start_comp ← now_us;
    sum ← eval (sum_loop buf (Z.to_nat MATRIX_ELEMENTS) 0);
    end_comp ← now_us;
    when (bool_decide (sum < 33000000) || bool_decide (sum > 34000000))
      (call (Printf "Warning: sum out of range: %d\n" [AInt sum])) ;;
    mret buf.

Definition host_mt_child (num_threads dev addr : Z) (buf : list Z) (t : nat)
    : prog procE unit :=
  lift (for_ (per_thread num_threads) (host_mt_matrix num_threads dev addr t) buf) ;;
  exit 0.

(** Without an argument the usage is printed and one thread is used. *)
Definition host_noaxis_mt_main (argv : list string) : prog procE Z :=
  dev ← io (Open NVME_PATH ["O_RDWR"; "O_DIRECT"]);
  num_threads ← match argv !! 1%nat with
                | Some a => mret (atoi a)
                | None => io (Printf "usage: ./a.out [num_threads]\n" []) ;; mret 1
                end;
  '(addr, buf) ← io (Malloc (Z.to_nat MATRIX_SIZE));
  time_acc ← for_ 32 (fun it time_acc =>
    start ← lift now_us;
    fork_all (Z.to_nat num_threads) (host_mt_child num_threads dev addr buf) ;;
    call (WaitWhile true) ;;
    end_ ← lift now_us;
    io (Sleep 1) ;;
    mret (time_acc + (end_ - start))) 0;
  io (Printf "---- Test end ----\n" []) ;;
  io (Printf "Average time : %.2f ms\n" [AQuot time_acc (1000 * 32)]) ;;
  mret 0.

(** ** pattern_match/mtssd_pm.c *)

(** One pass of the chunk loop; the state is the global [cnt].  A child whose
    request fails continues the loop instead of exiting. *)
Definition mtssd_chunk (dev addr : Z) (i : nat) (s : list Z * Z) : prog procE (list Z * Z) :=
  let '(data, cnt) := s in
  c ← call Fork;
  if (c : bool) then
    '(err, result, data) ← io (IoCmd dev (ssd_chunk_cmd addr 64 i) data);
    if decide (err <> 0) then
      io (Printf "iteration %d: err %d\n" [AInt (Z.of_nat i); AInt err]) ;;
      mret (data, cnt)
    else
      (if decide (result <> 64) then
         io (Printf "iteration %d: result error: %d\n" [AInt (Z.of_nat i); AInt (i32 result)])
       else mret tt) ;;
      let cnt := i32 (cnt + result) in
      exit 0
  else mret (data, cnt).

(** [time_acc] is not initialised; [addr] is the address of the global [data]. *)
Definition mtssd_pm_main (addr time_acc0 : Z) : prog procE Z :=
  dev ← io (Open NVME_PATH ["O_RDWR"]);
  '(_, time_acc) ← for_ 16 (fun t (s : list Z * Z) =>
    let '(data, time_acc) := s in
    io (Printf "Iteration %d\n" [AInt (Z.of_nat t)]) ;;
    start ← lift now_us;
    '(data, cnt) ← for_ (nchunks 64 data_blk) (mtssd_chunk dev addr) (data, 0);
    call (WaitWhile true) ;;
    end_ ← lift now_us;
    io (Printf "Result: %d\n" [AInt cnt]) ;;
    io (Printf "ioctl time : %.2f ms\n" [AQuot (end_ - start) 1000]) ;;
    mret (data, time_acc + (end_ - start))) (zeros (Z.to_nat (one_read_size 64)), time_acc0);
  io (Printf "---- Test end ----\n" []) ;;
  io (Printf "Average time : %.2f ms\n" [AQuot time_acc (1000 * 16)]) ;;
  mret 0.

(** ** ioctl/submit_op_fork.c *)

Definition fork_cmd (slba nlb : Z) (param : list Z) (addr : Z) : passthru_cmd :=
  mk_cmd 0x82 (par param 0) (par param 1) (metadata_of param) addr (4096 * nlb) slba
    (nlb - 1) 0 0.

Definition fork_callprog (dev slba nlb : Z) (param : list Z) : prog ioE Z :=
  read_fd ← call (Open "./read.txt" ["O_CREAT"; "O_RDWR"]);
  '(addr, data) ← call (Malloc (Z.to_nat (32768 * 16)));
  let data := overlay (replicate (Z.to_nat (32768 * 16)) 105) data in
  '(ret, _, _) ← call (IoCmd dev (fork_cmd slba nlb param addr) data);
  mret ret.

(** The parent increments [param[0]] after each fork. *)
Definition submit_op_fork_main : prog procE Z :=
  dev ← io (Open NVME_PATH ["O_RDWR"]);
  start ← lift now_ms;
  for_ 8 (fun i (param : list Z) =>
    c ← call Fork;
    if (c : bool) then
      io (Printf "param[0]: %d\n" [AInt (par param 0)]) ;;
      err ← lift (fork_callprog dev 1024 1 param);
      io (Printf "ISP request %d\n" [AInt (Z.of_nat i)]) ;;
      exit err
    else mret (<[0%nat := i32 (par param 0 + 1)]> param)) [1; 8; 0; 0; 0] ;;
  call (WaitWhile true) ;;
  end_ ← lift now_ms;
  io (Printf "time: %f\n" [AQuot (end_ - start) 1000]) ;;
  mret 0.

(** ** rband/pread_local.c *)

Definition local_chunk (dev : Z) (i : nat) (data : list Z) : prog ioE (list Z) :=
  rband_pread_chunk dev i data.

(** What a child does before it falls into the parent's wait: four passes over
    the gigabyte; [time_acc] is not initialised. *)
Definition local_child (time_acc0 : Z) : prog ioE unit :=
  dev ← call (Open "/dev/sda6" ["O_RDWR"; "O_DIRECT"]);
  '(_, data) ← call (Malloc (Z.to_nat (4096 * rband_blk)));
  let data := overlay (zeros (Z.to_nat (4096 * rband_blk))) data in
  '(_, time_acc) ← for_ 4 (fun t (s : list Z * Z) =>
    let '(data, time_acc) := s in
    start ← now_us;
    data ← for_ (nchunks 128 rband_blk) (local_chunk dev) data;
    end_ ← now_us;
    call (Printf "1GB pread time : %.2f ms\n" [AQuot (end_ - start) 1000]) ;;
    mret (data, time_acc + (end_ - start))) (data, time_acc0);
  report_avg true time_acc 4.

(** [while(wait(&status)<0);] and the final message. *)
Definition local_wait : prog procE unit :=
  call (WaitWhile false) ;;
  io (Printf "---- All processes Finished ----\n" []).

(** A child does not exit: it falls through to the wait. *)
Definition local_iter (time_acc0 : Z) (i : nat) (_ : unit) : prog procE unit :=
  c ← call Fork;
  (if (c : bool) then lift (local_child time_acc0) else mret tt) ;;
  local_wait.

Definition pread_local_main (time_acc0 : Z) : prog procE Z :=
  for_ 2 (local_iter time_acc0) tt ;;
  mret 0.
