(* ===== verification/ForkProofs.v ===== *)
(** * What the forking drivers do under every schedule

    The plans of the five programs, and with [plan_settles] their behaviour:
    which requests reach the device, that the programs end, and what they
    print. *)

From S2P Require Import Prelude Mem Ebpf Nvme Prog NpsumIsp NpsumHost NpsumProofs.
From S2P Require Import PatternMatch PatternProofs Tools Rband Procs Forking.

Open Scope string_scope.
Open Scope list_scope.
Open Scope Z_scope.

(** ** Requests still to come *)

(** The requests of iterations [i, ..., n - 1] of a loop. *)
Definition left_over (f : nat -> list req) (i n : nat) : list req := concat (f <$> seq i (n - i)).

Lemma left_over_step f i n : (i < n)%nat -> left_over f i n = f i ++ left_over f (i + 1) n.
Proof.
  intros Hi. unfold left_over. replace (n - i)%nat with (S (n - (i + 1))) by lia.
  rewrite Nat.add_1_r. done.
Qed.

Lemma left_over_end f n : left_over f n n = [].
Proof. unfold left_over. by rewrite Nat.sub_diag. Qed.

Lemma left_over_const (l : list req) n : left_over (fun _ => l) 0 n = concat (replicate n l).
Proof.
  unfold left_over. rewrite Nat.sub_0_r. generalize 0%nat.
  induction n as [|n IH]; intros a; simpl; [done|]. by rewrite IH.
Qed.

(** ** What the device promises about answers *)

(** Reads keep the length of the buffer, fresh memory has the size asked for. *)
Definition answers (X : Type) (e : ioE X) : X -> Prop :=
  match e in ioE X return X -> Prop with
  | SubmitIo _ i buf => fun r => io_opcode i = 2 -> length r.2 = length buf
  | Malloc n => fun r => length r.2 = n
  | _ => fun _ => True
  end.

Lemma answers_ok {D : Type} {prog0 : isp_prog} `{Reliable D prog0} (o : oracle)
    X (e : ioE X) (w : world D) x w' :
  fits e = true -> handle o e w = Some (x, w') -> answers X e x.
Proof.
  intros Hf Hh. destruct e; try exact I; cbn [answers handle fits] in *.
  - intros Ho. rewrite Hf in Hh. destruct (dev_submit_io _ _ _) as [[err buf'] d'] eqn:Ed.
    injection Hh as <- <-. by destruct (io_read_law _ _ _ _ _ _ Ho Ed) as [Hl _].
  - injection Hh as <- <-. apply length_resize.
Qed.

(** ** Plans of the shared pieces *)

Section pieces.
Context (A : forall X, ioE X -> X -> Prop).

(** Forking [n] children that exit, each with its own plan. *)
Lemma pw_fork_all n (child : nat -> prog procE unit) (creq : nat -> list req) c Q l m :
  (forall t Q', (t < n)%nat -> pw A (child t) Q' (creq t) c) ->
  (n * (c + 3) <= m)%nat -> Q tt l (m - n * (c + 3))%nat ->
  pw A (fork_all n child) Q (left_over creq 0 n ++ l) m.
Proof.
  intros Hc Hm HQ. unfold fork_all.
  apply (pw_for A (fun t _ l' k =>
    l' = left_over creq t n ++ l /\ k = (m - t * (c + 3))%nat)).
  - split; [done|]. lia.
  - intros t _ l' k Ht (-> & ->). apply pw_bind. rewrite (left_over_step creq t n) by exact Ht.
    assert (Hb : ((t + 1) * (c + 3) <= m)%nat) by nia.
    rewrite <- app_assoc. apply (pw_fork A _ _ c _ (m - (t + 1) * (c + 3))%nat); [lia| |].
    + by apply Hc.
    + by apply pw_ret.
  - intros [] l' k (-> & ->). by rewrite left_over_end.
Qed.

(** [when c (printf(...))]. *)
Lemma pl_when_printf (b : bool) fmt args Q l n :
  (1 <= n)%nat -> Q tt l n -> Q tt l (n - 1)%nat ->
  pl A (when b (call (Printf fmt args))) Q l n.
Proof.
  intros Hn H0 H1. unfold when. destruct b; [|done].
  eapply pl_call; [done|done|lia|]. by intros [] _.
Qed.

(** A round: start the clock, fork, wait, stop the clock, sleep. *)
Lemma pw_round n (child : nat -> prog procE unit) (creq : nat -> list req) c acc
    (Q : Z -> list req -> nat -> Prop) l m :
  (forall t Q', (t < n)%nat -> pw A (child t) Q' (creq t) c) ->
  (n * (c + 3) + 4 <= m)%nat ->
  (forall acc', Q acc' l (m - (n * (c + 3) + 4))%nat) ->
  pw A (start ← lift now_us;
        fork_all n child ;;
        call (WaitWhile true) ;;
        end_ ← lift now_us;
        io (Sleep 1) ;;
        mret (acc + (end_ - start))) Q (left_over creq 0 n ++ l) m.
Proof.
  intros Hc Hm HQ. apply pw_bind, pl_now; [lia|]. intros start.
  apply pw_bind, (pw_fork_all _ _ _ c); [done|lia|].
  apply pw_bind, pw_wait; [lia|]. apply pw_bind, pl_now; [lia|]. intros end_.
  apply pw_bind. eapply pw_io; [done|done|lia|]. intros [] _. apply pw_ret.
  replace (m - 1 - n * (c + 3) - 1 - 1 - 1)%nat with (m - (n * (c + 3) + 4))%nat by lia.
  apply HQ.
Qed.

(** All rounds of a driver. *)
Lemma pw_rounds IT n (child : nat -> prog procE unit) (creq : nat -> list req) c
    (Q : Z -> list req -> nat -> Prop) m :
  (forall t Q', (t < n)%nat -> pw A (child t) Q' (creq t) c) ->
  (IT * (n * (c + 3) + 4) <= m)%nat ->
  (forall acc k, (m - IT * (n * (c + 3) + 4) <= k)%nat -> Q acc [] k) ->
  pw A (for_ IT (fun it acc =>
    start ← lift now_us;
    fork_all n child ;;
    call (WaitWhile true) ;;
    end_ ← lift now_us;
    io (Sleep 1) ;;
    mret (acc + (end_ - start))) 0) Q (concat (replicate IT (left_over creq 0 n))) m.
Proof.
  set (C := (n * (c + 3) + 4)%nat). intros Hc Hm HQ. rewrite <- left_over_const.
  apply (pw_for A (fun it _ l k =>
    l = left_over (fun _ => left_over creq 0 n) it IT /\
    ((IT - it) * C + (m - IT * C) <= k)%nat)).
  - split; [done|]. rewrite Nat.sub_0_r. lia.
  - intros it acc l k Hit (-> & Hk). rewrite (left_over_step _ it) by exact Hit.
    assert (HC : (C + ((IT - (it + 1)) * C + (m - IT * C)) <= k)%nat) by nia.
    revert HC. generalize ((IT - (it + 1)) * C)%nat. intros r HC.
    apply (pw_round n _ _ c); [done|fold C; lia|].
    intros acc'. fold C. split; [done|lia].
  - intros acc l k (-> & Hk). rewrite left_over_end. apply HQ.
    rewrite Nat.sub_diag in Hk. lia.
Qed.

Lemma pl_eval {B} (x : option B) b (Q : B -> list req -> nat -> Prop) l n :
  x = Some b -> Q b l n -> pl A (eval x) Q l n.
Proof. intros -> HQ. done. Qed.
End pieces.

(** ** The two multi-process matrix sums *)

(** Thread [t], matrix [i] of the split is matrix [t * per_thread + i]. *)
Definition mt_index (n : Z) (t i : nat) : nat := (t * per_thread n + i)%nat.

Lemma mt_slba_index n t i :
  0 < n -> mt_slba n t i = 1024 + Z.of_nat (mt_index n t i) * 64.
Proof.
  intros Hn. unfold mt_slba, mt_index, per_thread.
  pose proof (Z.div_pos 1024 n ltac:(lia) Hn). lia.
Qed.

Lemma host_slba_index n t i :
  0 < n -> 1024 + Z.of_nat i * 64 + Z.of_nat t * 64 * (1024 / n) =
           1024 + Z.of_nat (mt_index n t i) * 64.
Proof. intros Hn. rewrite <- mt_slba_index by done. unfold mt_slba. lia. Qed.

(** Consecutive pieces of [seq] make up the whole. *)
Lemma concat_pieces {B} (f : nat -> B) per n :
  concat ((fun t => (fun i => f (t * per + i)%nat) <$> seq 0 per) <$> seq 0 n) =
  f <$> seq 0 (n * per).
Proof.
  induction n as [|n IH]; [done|].
  rewrite seq_S, fmap_app, concat_app, IH. cbn [fmap list_fmap concat].
  replace (S n * per)%nat with (n * per + per)%nat by lia. rewrite seq_app, fmap_app.
  f_equal. rewrite app_nil_r. replace (0 + n * per)%nat with (n * per + 0)%nat by lia.
  rewrite <- (fmap_add_seq (n * per) 0 per), <- list_fmap_compose. reflexivity.
Qed.

(** The requests of one child, and of all of them. *)
Definition isp_creq (n : Z) (t : nat) : list req :=
  (fun i => cmd_req (noaxis_cmd 64 (mt_index n t i))) <$> seq 0 (per_thread n).
Definition host_creq (n : Z) (t : nat) : list req :=
  (fun i => io_req (matrix_read_io 0 (mt_index n t i))) <$> seq 0 (per_thread n).

Lemma left_over_singletons (f : nat -> req) n : left_over (fun i => [f i]) 0 n = f <$> seq 0 n.
Proof.
  unfold left_over. rewrite Nat.sub_0_r. generalize (seq 0 n). intros l.
  induction l as [|i l IH]; [done|]. rewrite !fmap_cons, concat_cons, IH. done.
Qed.

Lemma isp_creq_all n k :
  left_over (isp_creq n) 0 k = (fun j => cmd_req (noaxis_cmd 64 j)) <$> seq 0 (k * per_thread n).
Proof.
  unfold left_over. rewrite Nat.sub_0_r.
  apply (concat_pieces (fun j => cmd_req (noaxis_cmd 64 j))).
Qed.

Lemma host_creq_all n k :
  left_over (host_creq n) 0 k =
  (fun j => io_req (matrix_read_io 0 j)) <$> seq 0 (k * per_thread n).
Proof.
  unfold left_over. rewrite Nat.sub_0_r.
  apply (concat_pieces (fun j => io_req (matrix_read_io 0 j))).
Qed.

Section mt.
Context (A : forall X, ioE X -> X -> Prop).

Lemma mt_child_plan n dev t Q :
  0 < n -> pw A (mt_child n dev t) Q (isp_creq n t) (2 * per_thread n + 1).
Proof.
  intros Hn. unfold mt_child. apply pw_bind. unfold isp_creq.
  rewrite <- left_over_singletons.
  set (f := fun i => [cmd_req (noaxis_cmd 64 (mt_index n t i))]).
  apply (pl_for A (fun i _ l k => l = left_over f i (per_thread n) /\
    (2 * (per_thread n - i) <= k)%nat)).
  - split; [done|lia].
  - intros i [] l k Hi (-> & Hk). rewrite (left_over_step f i) by exact Hi.
    unfold mt_matrix. apply pl_bind. eapply pl_call; [done| |lia|].
    { unfold f, mt_cmd. rewrite mt_slba_index by done. reflexivity. }
    intros [[err res] b] _. case_decide.
    + eapply pl_call; [done|done|lia|]. intros [] _. split; [done|lia].
    + apply pl_when_printf; [lia|split; [done|lia]|split; [done|lia]].
  - intros [] l k (-> & _). rewrite left_over_end. apply pw_exit.
Qed.

Definition isp_mt_steps (n : nat) (c : nat) : nat := (16 * (n * (c + 3) + 4) + 5)%nat.

Lemma isp_mt_plan argv a :
  argv !! 1%nat = Some a -> 0 < atoi a ->
  let n := Z.to_nat (atoi a) in
  plan A (ISP_noaxis_mt_main argv)
    (cmd_req cmd_stats_clear ::
       concat (replicate 16 ((fun j => cmd_req (noaxis_cmd 64 j)) <$>
                             seq 0 (n * per_thread (atoi a)))))
    (isp_mt_steps n (2 * per_thread (atoi a) + 1)).
Proof.
  intros Ha Hn n. unfold isp_mt_steps. set (c := (2 * per_thread (atoi a) + 1)%nat).
  set (C := (n * (c + 3) + 4)%nat). unfold plan, ISP_noaxis_mt_main. rewrite Ha.
  apply pw_bind. eapply pw_io; [done|done|lia|]. intros dev _.
  apply pw_bind. eapply pw_io; [done|done|lia|]. intros _ _.
  rewrite <- isp_creq_all. apply pw_bind.
  apply (pw_rounds A 16 n _ _ c).
  - intros t Q' Ht. by apply mt_child_plan.
  - fold C. lia.
  - intros acc k Hk. fold C in Hk.
    apply pw_bind. eapply pw_io; [done|done|lia|]. intros [] _.
    apply pw_bind. eapply pw_io; [done|done|lia|]. intros [] _. done.
Qed.
End mt.

(** The host version: buffers keep their length, so every read fits. *)
Lemma host_mt_child_plan n dev addr buf t Q :
  0 < n -> length buf = Z.to_nat MATRIX_SIZE ->
  pw answers (host_mt_child n dev addr buf t) Q (host_creq n t) (6 * per_thread n + 1).
Proof.
  intros Hn Hl. unfold host_mt_child. apply pw_bind. unfold host_creq.
  rewrite <- left_over_singletons.
  set (f := fun i => [io_req (matrix_read_io 0 (mt_index n t i))]).
  apply (pl_for answers (fun i b l k => length b = Z.to_nat MATRIX_SIZE /\
    l = left_over f i (per_thread n) /\ (6 * (per_thread n - i) <= k)%nat)).
  - split_and!; [done|done|lia].
  - intros i b l k Hi (Hb & -> & Hk). rewrite (left_over_step f i) by exact Hi.
    unfold host_mt_matrix. apply pl_bind, pl_now; [lia|]. intros _.
    apply pl_bind. eapply pl_call; [| |lia|].
    { cbn [fits]. apply bool_decide_eq_true. change (io_nblocks _) with 63. rewrite Hb.
      change MATRIX_SIZE with 262144. lia. }
    { unfold f, mt_io. rewrite (host_slba_index n t i Hn). reflexivity. }
    intros [err b'] Hb'. cbn [answers snd] in Hb'. specialize (Hb' eq_refl). rewrite Hb in Hb'.
    apply pl_bind, pl_now; [lia|]. intros _. case_decide.
    + apply pl_bind. eapply pl_call; [done|done|lia|]. intros [] _. apply pl_ret.
      split_and!; [done|done|lia].
    + apply pl_bind, pl_now; [lia|]. intros _. apply pl_bind. eapply pl_eval.
      { apply sum_loop_spec; [|done]. rewrite length_ints, Hb'.
        change MATRIX_SIZE with 262144. change MATRIX_ELEMENTS with 65536.
        apply Nat2Z.inj_le. rewrite Nat2Z.inj_div, !Z2Nat.id by lia. reflexivity. }
      apply pl_bind, pl_now; [lia|]. intros _.
      apply pl_bind, pl_when_printf; [lia| |]; (apply pl_ret; split_and!; [done|done|lia]).
  - intros b l k (_ & -> & _). rewrite left_over_end. apply pw_exit.
Qed.

Lemma host_mt_plan argv a :
  argv !! 1%nat = Some a -> 0 < atoi a ->
  let n := Z.to_nat (atoi a) in
  plan answers (host_noaxis_mt_main argv)
    (concat (replicate 32 ((fun j => io_req (matrix_read_io 0 j)) <$>
                           seq 0 (n * per_thread (atoi a)))))
    (32 * (n * (6 * per_thread (atoi a) + 1 + 3) + 4) + 5).
Proof.
  intros Ha Hn n. set (c := (6 * per_thread (atoi a) + 1)%nat).
  set (C := (n * (c + 3) + 4)%nat). unfold plan, host_noaxis_mt_main. rewrite Ha.
  apply pw_bind. eapply pw_io; [done|done|lia|]. intros dev _. apply pw_bind, pw_ret.
  apply pw_bind. eapply pw_io; [done|done|lia|]. intros [addr buf] Hbuf.
  rewrite <- host_creq_all. apply pw_bind.
  apply (pw_rounds answers 32 n _ _ c).
  - intros t Q' Ht. by apply host_mt_child_plan.
  - fold C. lia.
  - intros acc k Hk. fold C in Hk.
    apply pw_bind. eapply pw_io; [done|done|lia|]. intros [] _.
    apply pw_bind. eapply pw_io; [done|done|lia|]. intros [] _. done.
Qed.

(** ** submit_op_fork.c *)

Lemma pl_now_ms A (Q : Z -> list req -> nat -> Prop) l n :
  (0 < n)%nat -> (forall t, Q t l (n - 1)%nat) -> pl A now_ms Q l n.
Proof.
  intros Hn HQ. apply pl_bind. eapply pl_call; [done|done|done|].
  intros [sec usec] _. apply HQ.
Qed.

(** The request of child [i]: its first parameter is [i + 1]. *)
Definition fork_req (i : nat) : req := RCmd 130 (Z.of_nat i + 1) 8 1024 0 0.

Lemma fork_callprog_plan dev i Q l n :
  (i < 8)%nat -> (3 <= n)%nat -> (forall err, Q err l (n - 3)%nat) ->
  pl answers (fork_callprog dev 1024 1 [Z.of_nat i + 1; 8; 0; 0; 0]) Q (fork_req i :: l) n.
Proof.
  intros Hi Hn HQ. unfold fork_callprog.
  apply pl_bind. eapply pl_call; [done|done|lia|]. intros fd _.
  apply pl_bind. eapply pl_call; [done|done|lia|]. intros [addr data] Hd. cbn in Hd.
  apply pl_bind. eapply (pl_call _ _ _ _ l); [| |lia|].
  - cbn [fits]. apply orb_true_intro. right. apply bool_decide_eq_true.
    rewrite length_overlay, Hd. change (pc_data_len _) with 4096. lia.
  - unfold fork_req, fork_cmd, par, cmd_req, mk_cmd. cbn [nth request pc_opcode pc_cdw2 pc_cdw3 pc_cdw10
      pc_cdw12 pc_cdw15]. rewrite (wrapu_small 32 (Z.of_nat i + 1)) by lia. reflexivity.
  - intros [[err res] b] _. apply pl_ret.
    replace (n - 1 - 1 - 1)%nat with (n - 3)%nat by lia. apply HQ.
Qed.

Lemma submit_op_fork_plan : plan answers submit_op_fork_main (fork_req <$> seq 0 8) 77.
Proof.
  rewrite <- left_over_singletons. set (f := fun i => [fork_req i]).
  unfold plan, submit_op_fork_main. apply pw_bind. eapply pw_io; [done|done|lia|]. intros dev _.
  apply pw_bind, pl_now_ms; [lia|]. intros start. apply pw_bind.
  apply (pw_for answers (fun i param l k => param = [Z.of_nat i + 1; 8; 0; 0; 0] /\
    l = left_over f i 8 /\ (8 * (8 - i) + 3 <= k)%nat)).
  - split_and!; [done|done|lia].
  - intros i param l k Hi (-> & -> & Hk). rewrite (left_over_step f i) by exact Hi.
    apply pw_bind, (pw_fork _ _ _ 5 _ (k - 8)); [lia| |].
    + apply pw_bind. eapply pw_io; [done|done|lia|]. intros [] _. apply pw_bind.
      apply fork_callprog_plan; [done|lia|]. intros err.
      apply pw_bind. eapply pw_io; [done|done|lia|]. intros [] _. apply pw_exit.
    + apply pw_ret. split_and!; [|done|lia].
      cbn [par nth insert list_insert]. rewrite i32_small by (unfold i32_ok; lia).
      f_equal. lia.
  - intros param l k (-> & -> & Hk). rewrite left_over_end.
    apply pw_bind, pw_wait; [lia|]. apply pw_bind, pl_now_ms; [lia|]. intros end_.
    apply pw_bind. eapply pw_io; [done|done|lia|]. intros [] _. done.
Qed.

(** ** mtssd_pm.c *)

(** A device on which no passthru command fails. *)
Definition no_failures (X : Type) (e : ioE X) : X -> Prop :=
  match e in ioE X return X -> Prop with
  | IoCmd _ _ _ => fun r => r.1.1 = 0
  | _ => fun _ => True
  end.

Definition mtssd_req (i : nat) : req := cmd_req (ssd_chunk_cmd 0 64 i).

Lemma mtssd_chunk_plan dev addr i data Q l k :
  length data = Z.to_nat (one_read_size 64) -> (5 <= k)%nat ->
  Q (data, 0) l (k - 5)%nat ->
  pw no_failures (mtssd_chunk dev addr i (data, 0)) Q (mtssd_req i :: l) k.
Proof.
  intros Hl Hk HQ. apply pw_bind. change (mtssd_req i :: l) with ([mtssd_req i] ++ l).
  apply (pw_fork _ _ _ 2 _ (k - 5)); [lia| |done].
  apply pw_bind. eapply (pw_io _ _ _ _ []); [|done|lia|].
  - cbn [fits]. apply orb_true_intro. right. apply bool_decide_eq_true.
    change (pc_data_len _) with 262144. rewrite Hl. change (one_read_size 64) with 262144. lia.
  - intros [[err res] b] Herr. cbn in Herr. subst err. rewrite decide_False by tauto.
    apply pw_bind. case_decide.
    + eapply pw_io; [done|done|lia|]. intros [] _. apply pw_exit.
    + apply pw_exit.
Qed.

Lemma mtssd_plan addr t0 :
  plan no_failures (mtssd_pm_main addr t0)
    (concat (replicate 16 (mtssd_req <$> seq 0 (Z.to_nat 128)))) (16 * 646 + 3).
Proof.
  rewrite <- left_over_singletons. set (f := fun i => [mtssd_req i]).
  unfold plan, mtssd_pm_main. apply pw_bind. eapply pw_io; [done|done|lia|]. intros dev _.
  rewrite <- left_over_const. apply pw_bind.
  apply (pw_for no_failures (fun it s l k => length s.1 = Z.to_nat (one_read_size 64) /\
    l = left_over (fun _ => left_over f 0 (Z.to_nat 128)) it 16 /\
    (646 * (16 - it) + 2 <= k)%nat)).
  - split_and!; [apply length_zeros|done|lia].
  - intros it [data acc] l k Hit (Hd & -> & Hk). cbn [fst] in Hd.
    rewrite (left_over_step _ it) by exact Hit.
    apply pw_bind. eapply pw_io; [done|done|lia|]. intros [] _.
    apply pw_bind, pl_now; [lia|]. intros start. apply pw_bind.
    change (nchunks 64 data_blk) with (Z.to_nat 128).
    apply (pw_for no_failures (fun i s l k' => s = (data, 0) /\
      l = left_over f i (Z.to_nat 128) ++
          left_over (fun _ => left_over f 0 (Z.to_nat 128)) (it + 1) 16 /\
      (5 * (Z.to_nat 128 - i) + (k - 642) <= k')%nat)).
    + split_and!; [done|done|lia].
    + intros i s l k' Hi (-> & -> & Hk'). rewrite (left_over_step f i) by exact Hi.
      apply mtssd_chunk_plan; [done|lia|]. split_and!; [done|done|lia].
    + intros s l k' (-> & -> & Hk'). rewrite left_over_end.
      apply pw_bind, pw_wait; [lia|]. apply pw_bind, pl_now; [lia|]. intros end_.
      apply pw_bind. eapply pw_io; [done|done|lia|]. intros [] _.
      apply pw_bind. eapply pw_io; [done|done|lia|]. intros [] _. apply pw_ret.
      split_and!; [done|done|lia].
  - intros [data acc] l k (_ & -> & Hk). rewrite left_over_end.
    apply pw_bind. eapply pw_io; [done|done|lia|]. intros [] _.
    apply pw_bind. eapply pw_io; [done|done|lia|]. intros [] _. done.
Qed.

(** The lines a count is printed on show zero. *)
Definition zero_result (l : line) : Prop := l.1 = "Result: %d\n" -> l.2 = [AInt 0].

Lemma mtssd_says addr t0 : says zero_result (mtssd_pm_main addr t0) (fun _ => True).
Proof.
  assert (Hother : forall fmt args, fmt <> "Result: %d\n" -> Forall zero_result [(fmt, args)]).
  { intros fmt args Hf. constructor; [|constructor]. intros E. by destruct (Hf E). }
  unfold mtssd_pm_main. apply says_bind, says_io; [constructor|]. intros dev.
  apply says_bind. eapply says_mono; [|apply (says_for _ (fun _ => True)); [done|]].
  - intros [data acc] _. apply says_bind, says_io; [by apply Hother|]. intros [].
    apply says_bind, says_io; [by apply Hother|]. by intros [].
  - intros t [data acc] Ht _. apply says_bind, says_io; [by apply Hother|]. intros [].
    apply says_bind, says_now. intros start. apply says_bind.
    eapply says_mono; [|apply (says_for _ (fun s : list Z * Z => s.2 = 0)); [done|]].
    + intros [d cnt] Hc. cbn [snd] in Hc. subst cnt. apply says_bind, says_wait.
      apply says_bind, says_now. intros end_.
      apply says_bind, says_io; [repeat constructor|]. intros [].
      apply says_bind, says_io; [by apply Hother|]. by intros [].
    + intros i [d cnt] Hi Hc. cbn [snd] in Hc. subst cnt. apply says_bind. split; [|done].
      apply says_bind, says_io; [constructor|]. intros [[err res] b]. case_decide.
      * apply says_bind, says_io; [by apply Hother|]. by intros [].
      * apply says_bind. case_decide; [|done]. apply says_io; [by apply Hother|]. done.
Qed.

(** ** pread_local.c *)

Section local.
(** Lines other than the final message. *)
Definition not_final (l : line) : Prop := l.1 <> "---- All processes Finished ----\n".

(** Sequential code that does not print the final message. *)
Fixpoint quiet {B} (p : prog ioE B) (P : B -> Prop) : Prop :=
  match p with
  | Ret b => P b
  | Vis e k => Forall not_final (printed e) /\ forall x, quiet (k x) P
  end.

(** A process that does calls until it waits for [wait] to stop failing. *)
Fixpoint until_wait {B} (t : prog procE B) (P : B -> Prop) : Prop :=
  match t with
  | Ret b => P b
  | Vis e k =>
      match e in procE X return (X -> Prop) -> Prop with
      | Io e => fun K => Forall not_final (printed e) /\ forall x, K x
      | WaitWhile pos => fun _ => pos = false
      | _ => fun _ => False
      end (fun x => until_wait (k x) P)
  end.

Lemma quiet_mono {B} (p : prog ioE B) (P P' : B -> Prop) :
  (forall b, P b -> P' b) -> quiet p P -> quiet p P'.
Proof. intros HP. induction p as [b|X e k IH]; simpl; [auto|]. intros [? ?]. auto. Qed.

Lemma quiet_bind {B C} (p : prog ioE B) (f : B -> prog ioE C) P :
  quiet p (fun b => quiet (f b) P) -> quiet (p ≫= f) P.
Proof.
  change (p ≫= f) with (prog_bind f p).
  induction p as [b|X e k IH]; simpl; [done|]. intros [? ?]. auto.
Qed.

Lemma quiet_for {St} n (f : nat -> St -> prog ioE St) s P :
  (forall i s, quiet (f i s) (fun _ => True)) -> (forall s, P s) -> quiet (for_ n f s) P.
Proof.
  intros Hf HP. unfold for_. generalize (seq 0 n). intros l. revert s.
  induction l as [|i l IH]; intros s; simpl; [apply HP|].
  apply (quiet_bind (f i s)). eapply quiet_mono; [|apply Hf]. intros s' _. apply IH.
Qed.

Lemma quiet_call {X} (e : ioE X) (P : X -> Prop) :
  Forall not_final (printed e) -> (forall x, P x) -> quiet (call e) P.
Proof. by split. Qed.

Lemma quiet_printf fmt args (P : unit -> Prop) :
  fmt <> "---- All processes Finished ----\n" -> P tt -> quiet (call (Printf fmt args)) P.
Proof. intros Hf HP. apply quiet_call; [by repeat constructor|]. by intros []. Qed.

Lemma quiet_now (P : Z -> Prop) : (forall t, P t) -> quiet now_us P.
Proof. intros HP. apply quiet_bind, quiet_call; [constructor|]. intros [sec usec]. apply HP. Qed.

Lemma until_wait_lift {B C} (p : prog ioE B) (f : B -> prog procE C) P :
  quiet p (fun b => until_wait (f b) P) -> until_wait (lift p ≫= f) P.
Proof.
  change (lift p ≫= f) with (prog_bind f (lift p)).
  induction p as [b|X e k IH]; simpl; [done|]. intros [? ?]. auto.
Qed.

Lemma local_chunk_quiet dev i data : quiet (local_chunk dev i data) (fun _ => True).
Proof.
  unfold local_chunk, rband_pread_chunk. apply quiet_bind, quiet_call; [constructor|].
  intros [err d]. apply quiet_bind. unfold when. destruct (bool_decide _); [|done].
  by apply quiet_bind, quiet_printf, quiet_printf.
Qed.

Lemma local_child_quiet t0 P : P tt -> quiet (local_child t0) P.
Proof.
  intros HP. unfold local_child. apply quiet_bind, quiet_call; [constructor|]. intros dev.
  apply quiet_bind, quiet_call; [constructor|]. intros [addr data]. apply quiet_bind.
  apply quiet_for.
  - intros t [d acc]. apply quiet_bind, quiet_now. intros start. apply quiet_bind.
    apply quiet_for; [intros; apply local_chunk_quiet|]. intros d'.
    apply quiet_bind, quiet_now. intros end_. by apply quiet_bind, quiet_printf.
  - intros [d acc]. unfold report_avg, when. by apply quiet_bind, quiet_printf, quiet_printf.
Qed.

Lemma until_wait_bind {B C} (t : prog procE B) (f : B -> prog procE C) P :
  until_wait t (fun b => until_wait (f b) P) -> until_wait (t ≫= f) P.
Proof.
  change (t ≫= f) with (prog_bind f t). induction t as [b|X e k IH]; simpl; [done|].
  destruct e; simpl; [intros [? ?]; auto|done|done|done].
Qed.

(** The first step forks; both processes then wait, the child after its work. *)
Definition after_fork (t0 : Z) (c : bool) : prog procE Z :=
  (((if c then lift (local_child t0) else mret tt) ;; local_wait) ≫=
     foldlM (local_iter t0) [1%nat]) ≫= fun _ => mret 0.

Lemma pread_local_forks t0 : pread_local_main t0 = Vis Fork (after_fork t0).
Proof. reflexivity. Qed.

Lemma after_fork_child t0 : until_wait (after_fork t0 true) (fun _ => False).
Proof.
  unfold after_fork. apply until_wait_bind, until_wait_bind, until_wait_lift.
  by apply local_child_quiet.
Qed.

(** The states of the program: not started, or the parent waiting for a child
    that runs or waits in vain. *)
Inductive local_state (t0 : Z) (out : list line) {D} (s : sys D) : Prop :=
| LocalInit :
    slots s = [Running None (pread_local_main t0)] -> w_out (wrld s) = out ->
    local_state t0 out s
| LocalForked k t ls :
    slots s = [Running None (Vis (WaitWhile false) k); Running (Some 0%nat) t] ->
    until_wait t (fun _ => False) -> w_out (wrld s) = out ++ ls -> Forall not_final ls ->
    local_state t0 out s.

Lemma local_step t0 out {D} `{Device D} (o : oracle) (s s' : sys D) :
  local_state t0 out s -> step o s s' -> local_state t0 out s'.
Proof.
  intros [Hs Hw|k t ls Hs Ht Hw Hls] (pid & Hp); unfold step_pid in Hp; rewrite Hs in Hp.
  - destruct pid as [|pid]; [|done]. rewrite pread_local_forks in Hs, Hp.
    cbn [lookup list_lookup perform] in Hp. rewrite Hs in Hp. injection Hp as <-.
    eapply (LocalForked _ _ _ _ _ []); [reflexivity| |by rewrite app_nil_r|constructor].
    apply after_fork_child.
  - destruct pid as [|[|pid]]; [| |done].
    + cbn in Hp. rewrite Hs in Hp. done.
    + cbn [lookup list_lookup] in Hp. destruct t as [b|X e kt]; [done|].
      destruct e as [X e| |pos|code]; cbn in Ht; try done.
      * destruct Ht as [Hpr Hk]. cbn [perform] in Hp.
        destruct (handle o e (wrld s)) as [[x w']|] eqn:Eh; [|done]. injection Hp as <-.
        eapply (LocalForked _ _ _ _ _ (ls ++ printed e)); cbn [slots wrld];
          [by rewrite Hs|apply Hk| |by apply Forall_app].
        by rewrite (handle_out o e _ _ x Eh), Hw, app_assoc.
      * subst pos. cbn [perform] in Hp. rewrite Hs in Hp. cbn in Hp. injection Hp as <-.
        by eapply LocalForked.
Qed.
End local.

(** ** Properties *)

(** How many matrices [n] processes sum. *)
Definition summed (n : Z) : nat := (Z.to_nat n * per_thread n)%nat.

Lemma summed_le n : 0 < n -> (summed n <= NUM_MATRIX)%nat.
Proof.
  intros Hn. unfold summed, per_thread, NUM_MATRIX. rewrite <- Z2Nat.inj_mul; [|lia|].
  - apply Z2Nat.inj_le; [|lia|].
    + pose proof (Z.div_pos 1024 n ltac:(lia) Hn). nia.
    + apply Z.mul_div_le. lia.
  - apply Z.div_pos; lia.
Qed.

Lemma summed_all n : 0 < n -> (n | 1024) -> summed n = NUM_MATRIX.
Proof.
  intros Hn [q Hq]. unfold summed, per_thread, NUM_MATRIX.
  rewrite <- Z2Nat.inj_mul; [|lia|apply Z.div_pos; lia].
  rewrite Hq, Z.div_mul by lia. f_equal. lia.
Qed.

(** C33: ISP_noaxis_mt.c under every interleaving of its processes, on every
    device, failing ones included: with [n] > 0 processes every execution ends
    within the stated number of steps, without undefined behaviour or
    deadlock, and the requests issued are, up to order, the initial statistics
    command and sixteen rounds of exactly one request of ISP_noaxis.c per
    matrix below [n * (1024 / n)]; that is every matrix if [n] divides 1024,
    and otherwise the last [1024 mod n] matrices are never summed. *)
Theorem isp_mt_covers {D : Type} `{Device D} (o : oracle) (w : world D)
    (argv : list string) (a : string) :
  argv !! 1%nat = Some a -> 0 < atoi a ->
  settles o (ISP_noaxis_mt_main argv) w
    (cmd_req cmd_stats_clear ::
       concat (replicate 16 ((fun j => cmd_req (noaxis_cmd 64 j)) <$> seq 0 (summed (atoi a)))))
    (isp_mt_steps (Z.to_nat (atoi a)) (2 * per_thread (atoi a) + 1) + 2) /\
  (summed (atoi a) <= NUM_MATRIX)%nat /\
  ((atoi a | 1024) -> summed (atoi a) = NUM_MATRIX).
Proof.
  intros Ha Hn. split_and!; [|by apply summed_le|by apply summed_all].
  apply (plan_settles (fun _ _ _ => True)); [done|]. by apply isp_mt_plan.
Qed.

(** the same for host_noaxis_mt.c on a device whose reads keep the buffer
    length: thirty-two rounds of one read per matrix below [n * (1024 / n)]. *)
Theorem host_mt_covers {D : Type} {prog0 : isp_prog} `{Reliable D prog0} (o : oracle)
    (w : world D) (argv : list string) (a : string) :
  argv !! 1%nat = Some a -> 0 < atoi a ->
  settles o (host_noaxis_mt_main argv) w
    (concat (replicate 32 ((fun j => io_req (matrix_read_io 0 j)) <$> seq 0 (summed (atoi a)))))
    (32 * (Z.to_nat (atoi a) * (6 * per_thread (atoi a) + 1 + 3) + 4) + 5 + 2).
Proof.
  intros Ha Hn. apply (plan_settles answers); [apply answers_ok|]. by apply host_mt_plan.
Qed.

(** submit_op_fork.c: under every interleaving it ends, and the eight
    children have issued eight requests whose first parameters are 1 to 8, each
    once: a child works on the copy of [param] it was forked with. *)
Theorem submit_op_fork_requests {D : Type} {prog0 : isp_prog} `{Reliable D prog0} (o : oracle)
    (w : world D) : settles o submit_op_fork_main w (fork_req <$> seq 0 8) 79.
Proof.
  change 79%nat with (77 + 2)%nat. apply (plan_settles answers); [apply answers_ok|].
  apply submit_op_fork_plan.
Qed.

(** Mtssd_pm.c on a device on which no request fails: under every
    interleaving it ends after sixteen rounds in which each of the 128 chunks
    is requested exactly once. *)
Theorem mtssd_covers {D : Type} `{Device D} (o : oracle) (w : world D) (addr t0 : Z) :
  (forall c buf (d : D), (dev_io_cmd c buf d).1.1.1 = 0) ->
  settles o (mtssd_pm_main addr t0) w
    (concat (replicate 16 (mtssd_req <$> seq 0 (Z.to_nat 128)))) (16 * 646 + 5).
Proof.
  intros Hok. replace (16 * 646 + 5)%nat with (16 * 646 + 3 + 2)%nat by lia.
  apply (plan_settles no_failures).
  - intros X e w1 x w' Hf Hh. destruct e; try exact I. cbn [no_failures handle fits] in *.
    rewrite Hf in Hh. pose proof (Hok c buf (w_dev w1)) as Hz.
    destruct (dev_io_cmd c buf (w_dev w1)) as [r d]. injection Hh as <- <-. exact Hz.
  - apply mtssd_plan.
Qed.

(** mtssd_pm.c never reports a count: the children add to their own copy
    of [cnt], so on every device and under every interleaving every result
    line it prints says 0. *)
Theorem mtssd_result_lost {D : Type} `{Device D} (o : oracle) (w : world D) (addr t0 : Z)
    (s : sys D) :
  rtc (step o) (init (mtssd_pm_main addr t0) w) s ->
  exists out, w_out (wrld s) = w_out w ++ out /\ Forall zero_result out.
Proof. apply says_adequate, mtssd_says. Qed.

(** pread_local.c never ends.  A child does not exit but enters the
    parent's wait loop, where [wait] fails forever, and the parent waits for
    it: under every interleaving, in every reachable state, the final message
    has not been printed and the program has not finished. *)
Theorem pread_local_never_ends {D : Type} `{Device D} (o : oracle) (w : world D) (t0 : Z)
    (s : sys D) :
  rtc (step o) (init (pread_local_main t0) w) s ->
  ~ finished s /\ exists out, w_out (wrld s) = w_out w ++ out /\ Forall not_final out.
Proof.
  intros Hr. assert (Hs : local_state t0 (w_out w) s).
  { revert s Hr. apply rtc_ind_r; [by apply LocalInit|].
    intros s s' _ Hstep IH. by eapply local_step. }
  destruct Hs as [Hs Hw|k t ls Hs _ Hw Hls].
  - split; [|exists []; by rewrite app_nil_r]. unfold finished. rewrite Hs.
    intros Hf. by apply Forall_cons in Hf as [? _].
  - split; [|eauto]. unfold finished. rewrite Hs. intros Hf. by apply Forall_cons in Hf as [? _].
Qed.

(** ** Witnesses *)

(** A device that accepts everything and does nothing. *)
Definition yes_device : Type := unit.

#[export] Instance yes_device_ops : Device yes_device := {|
  dev_io_cmd c buf d := ((0, 0, buf), d);
  dev_submit_io i buf d := ((0, buf), d);
  dev_pread len off buf d := ((len, buf), d)
|}.

Definition yes_world : world yes_device := World tt [] [] 0.
Definition argv_four : list string := ["./a.out"; "4"].

Lemma isp_mt_covers_witness :
  exists s : sys (refdev pass_prog),
    rtc (step null_oracle) (init (ISP_noaxis_mt_main argv_four) (blank_world pass_prog)) s /\
    finished s /\
    trace s ≡ₚ cmd_req cmd_stats_clear ::
      concat (replicate 16 ((fun j => cmd_req (noaxis_cmd 64 j)) <$> seq 0 NUM_MATRIX)).
Proof.
  destruct (isp_mt_covers null_oracle (blank_world pass_prog) argv_four "4") as (Hs & _ & Hall).
  - reflexivity.
  - vm_compute. reflexivity.
  - rewrite Hall in Hs by (exists 256; vm_compute; reflexivity).
    exact (settles_ends _ _ _ _ _ Hs).
Defined.

Lemma host_mt_covers_witness :
  exists s : sys (refdev pass_prog),
    rtc (step null_oracle) (init (host_noaxis_mt_main argv_four) (blank_world pass_prog)) s /\
    finished s /\
    trace s ≡ₚ concat (replicate 32 ((fun j => io_req (matrix_read_io 0 j)) <$>
                                     seq 0 (summed (atoi "4")))).
Proof.
  eapply settles_ends.
  apply (host_mt_covers null_oracle (blank_world pass_prog) argv_four "4").
  - reflexivity.
  - vm_compute. reflexivity.
Defined.

Lemma submit_op_fork_requests_witness :
  exists s : sys (refdev pass_prog),
    rtc (step null_oracle) (init submit_op_fork_main (blank_world pass_prog)) s /\
    finished s /\ trace s ≡ₚ fork_req <$> seq 0 8.
Proof.
  eapply settles_ends. apply (submit_op_fork_requests null_oracle (blank_world pass_prog)).
Defined.

Lemma mtssd_covers_witness :
  exists s : sys yes_device,
    rtc (step null_oracle) (init (mtssd_pm_main 0 0) yes_world) s /\
    finished s /\ trace s ≡ₚ concat (replicate 16 (mtssd_req <$> seq 0 (Z.to_nat 128))).
Proof.
  eapply settles_ends. apply (mtssd_covers null_oracle yes_world 0 0).
  intros c buf d. reflexivity.
Defined.

Lemma mtssd_result_lost_witness :
  exists out, w_out (wrld (init (mtssd_pm_main 0 0) yes_world)) = w_out yes_world ++ out /\
    Forall zero_result out.
Proof. apply (mtssd_result_lost null_oracle yes_world 0 0). apply rtc_refl. Defined.

Lemma pread_local_never_ends_witness :
  exists out, w_out (wrld (init (pread_local_main 0) yes_world)) = w_out yes_world ++ out /\
    Forall not_final out.
Proof. apply (pread_local_never_ends null_oracle yes_world 0). apply rtc_refl. Defined.
