(* ===== verification/FioSync.v ===== *)
(** * The synchronous I/O engines of the bundled fio (src/fio/engines/sync.c)

    The repository adds the engine "ispsync" to fio's synchronous engines: its
    reads are in-storage requests (opcode 0x82) instead of [pread].  This file
    models the whole engine file: positions and completion ([fio_syncio_prep],
    [fio_io_end]), the one-call engines, the vectored batching engine and the
    operation tables, with [do_io_u_sync] and [do_io_u_trim] of io_u.c.

    The kernel is the class [Kernel]; a system call sets [errno] exactly when
    it returns -1.  The data transferred is not modelled, only its amount:
    the engines never look at it.  Zoned block devices, the parent thread and
    the log output are left out, as are the compile-time variants without
    [fdatasync] or trim support.  [None] is an abort ([fio_ro_check]'s
    assertion) or an access outside an array. *)

From S2P Require Import Prelude Mem Ebpf Nvme.

Open Scope string_scope.
Open Scope list_scope.
Open Scope Z_scope.

(** ** Data *)

Inductive fio_ddir :=
| DDIR_READ | DDIR_WRITE | DDIR_TRIM | DDIR_SYNC | DDIR_DATASYNC
| DDIR_SYNC_FILE_RANGE | DDIR_WAIT | DDIR_LAST | DDIR_INVAL.

#[export] Instance fio_ddir_eq_dec : EqDecision fio_ddir.
Proof. solve_decision. Defined.

Definition ddir_sync (d : fio_ddir) : bool :=
  match d with DDIR_SYNC | DDIR_DATASYNC | DDIR_SYNC_FILE_RANGE => true | _ => false end.
Definition ddir_rw (d : fio_ddir) : bool :=
  match d with DDIR_READ | DDIR_WRITE | DDIR_TRIM => true | _ => false end.

Inductive fio_q_status := FIO_Q_COMPLETED | FIO_Q_QUEUED | FIO_Q_BUSY.

Record fio_file := FioFile {
  f_fd : Z; engine_pos : Z; first_write : Z; last_write : Z
}.

(** [file] is a pointer: the number of a file. *)
Record io_u := IoU {
  ddir : fio_ddir; file : nat; offset : Z; xfer_buf : Z; xfer_buflen : Z;
  resid : Z; error : Z
}.

Record syncio_data := SyncioData {
  iovecs : list (Z * Z); io_us : list nat; queued : nat; events : nat;
  queued_bytes : Z; last_offset : Z; last_file : option nat; last_ddir : fio_ddir
}.

(** The options the engines read; the options of pvsync2. *)
Record options := Options {
  iodepth : nat; td_write : bool; td_trim : bool; odirect : bool; sync_range_flags : Z;
  hipri : bool; hipri_percentage : Z; uncached : bool; nowait : bool
}.

(** ** The kernel *)

Class Kernel (K : Type) := {
  sys_lseek : Z -> Z -> K -> (Z * Z) * K;                   (* fd, offset *)
  sys_read : Z -> Z -> K -> (Z * Z) * K;                    (* fd, length *)
  sys_write : Z -> Z -> K -> (Z * Z) * K;
  sys_pread : Z -> Z -> Z -> K -> (Z * Z) * K;              (* fd, length, offset *)
  sys_pwrite : Z -> Z -> Z -> K -> (Z * Z) * K;
  sys_preadv : Z -> list (Z * Z) -> Z -> Z -> K -> (Z * Z) * K;  (* fd, iov, offset, flags *)
  sys_pwritev : Z -> list (Z * Z) -> Z -> Z -> K -> (Z * Z) * K;
  sys_readv : Z -> list (Z * Z) -> K -> (Z * Z) * K;
  sys_writev : Z -> list (Z * Z) -> K -> (Z * Z) * K;
  sys_nvme : Z -> passthru_cmd -> K -> (Z * Z) * K;         (* NVME_IOCTL_IO_CMD *)
  sys_fsync : Z -> K -> (Z * Z) * K;
  sys_fdatasync : Z -> K -> (Z * Z) * K;
  sys_sync_range : Z -> Z -> Z -> Z -> K -> (Z * Z) * K;
  sys_trim : Z -> Z -> Z -> K -> Z * K;                     (* 0 or an error number *)
  sys_rand : K -> Z * K                                     (* rand_between(.., 1, 100) *)
}.

Definition EINVAL : Z := 22.

Section engine.
Context {K : Type} `{Kernel K}.

(** A thread: its options, files and I/O units by number, the engine's data
    and the first error, and the kernel with [errno]. *)
Record thread := Thread {
  o : options; files : gmap nat fio_file; ious : gmap nat io_u; sd : syncio_data;
  td_error : Z; errno : Z; kern : K
}.
Implicit Types (td : thread) (u : io_u).

Definition set_kern (r : (Z * Z) * K) td : Z * thread :=
  let '((ret, e), k) := r in
  (ret, Thread (o td) (files td) (ious td) (sd td) (td_error td)
          (if decide (ret = -1) then e else errno td) k).

Definition set_sd (s : syncio_data) td : thread :=
  Thread (o td) (files td) (ious td) s (td_error td) (errno td) (kern td).
Definition set_iou (id : nat) u td : thread :=
  Thread (o td) (files td) (<[id := u]> (ious td)) (sd td) (td_error td) (errno td) (kern td).
Definition set_file (n : nat) (f : fio_file) td : thread :=
  Thread (o td) (<[n := f]> (files td)) (ious td) (sd td) (td_error td) (errno td) (kern td).

(** Only the first error of a thread is kept. *)
Definition td_verror (e : Z) td : thread :=
  if decide (td_error td = 0)
  then Thread (o td) (files td) (ious td) (sd td) e (errno td) (kern td)
  else td.

Definition set_result u (r e : Z) : io_u :=
  IoU (ddir u) (file u) (offset u) (xfer_buf u) (xfer_buflen u) r e.

(** ** Positions and completion *)

Definition set_engine_pos (f : fio_file) (p : Z) : fio_file :=
  FioFile (f_fd f) p (first_write f) (last_write f).

Definition fio_syncio_prep (id : nat) td : option (Z * thread) :=
  u ← ious td !! id;
  if negb (ddir_rw (ddir u)) then Some (0, td)
  else
    f ← files td !! file u;
    if bool_decide (engine_pos f <> 2 ^ 64 - 1) && bool_decide (engine_pos f = offset u)
    then Some (0, td)
    else
      let '(r, td) := set_kern (sys_lseek (f_fd f) (offset u) (kern td)) td in
      if decide (r = -1) then Some (1, td_verror (errno td) td) else Some (0, td).

(** [ret] is an [int]. *)
Definition fio_io_end (id : nat) (ret : Z) td : option (fio_q_status * thread) :=
  u ← ious td !! id;
  let td := match files td !! file u with
            | Some f => if bool_decide (0 <= ret) && ddir_rw (ddir u)
                        then set_file (file u) (set_engine_pos f (u64 (offset u + ret))) td
                        else td
            | None => td
            end in
  if bool_decide (ret <> i32 (xfer_buflen u)) && bool_decide (0 <= ret) then
    Some (FIO_Q_COMPLETED, set_iou id (set_result u (u64 (xfer_buflen u - ret)) 0) td)
  else
    let u := if decide (ret <> i32 (xfer_buflen u)) then set_result u (resid u) (errno td) else u in
    let td := set_iou id u td in
    Some (FIO_Q_COMPLETED,
          if decide (error u <> 0) then td_verror (error u) td else td).

(** ** io_u.c *)

Definition do_sync_file_range (f : fio_file) td : Z * thread :=
  let nbytes := u64 (last_write f - first_write f) in
  if decide (nbytes = 0) then (0, td)
  else set_kern (sys_sync_range (f_fd f) (first_write f) nbytes (sync_range_flags (o td))
                   (kern td)) td.

Definition do_io_u_sync (id : nat) td : option (Z * thread) :=
  u ← ious td !! id;
  f ← files td !! file u;
  let '(ret, td) :=
    match ddir u with
    | DDIR_SYNC => set_kern (sys_fsync (f_fd f) (kern td)) td
    | DDIR_DATASYNC => set_kern (sys_fdatasync (f_fd f) (kern td)) td
    | DDIR_SYNC_FILE_RANGE => do_sync_file_range f td
    | _ => (i32 (xfer_buflen u), set_iou id (set_result u (resid u) EINVAL) td)
    end in
  u ← ious td !! id;
  Some (ret, if decide (ret < 0) then set_iou id (set_result u (resid u) (errno td)) td else td).

Definition do_io_u_trim (id : nat) td : option thread :=
  u ← ious td !! id;
  f ← files td !! file u;
  let '(ret, k) := sys_trim (f_fd f) (offset u) (xfer_buflen u) (kern td) in
  let td := Thread (o td) (files td) (ious td) (sd td) (td_error td) (errno td) k in
  Some (if decide (ret = 0) then td else set_iou id (set_result u (resid u) ret) td).

(** ** The one-call engines *)

Definition fio_ro_check u td : bool :=
  negb (bool_decide (ddir u = DDIR_WRITE) && negb (td_write (o td))) &&
  negb (bool_decide (ddir u = DDIR_TRIM) && negb (td_trim (o td))).

(** The shared frame: check, read, write, trim or sync, complete.  [ret] is
    stored in an [int]. *)
Definition queue_frame (do_read do_write : io_u -> fio_file -> thread -> Z * thread)
    (do_trim : nat -> thread -> option thread) (id : nat) td : option (fio_q_status * thread) :=
  u ← ious td !! id;
  f ← files td !! file u;
  if negb (fio_ro_check u td) then None
  else match ddir u with
       | DDIR_READ => let '(ret, td) := do_read u f td in fio_io_end id (i32 ret) td
       | DDIR_WRITE => let '(ret, td) := do_write u f td in fio_io_end id (i32 ret) td
       | DDIR_TRIM => td ← do_trim id td; Some (FIO_Q_COMPLETED, td)
       | _ => '(ret, td) ← do_io_u_sync id td; fio_io_end id ret td
       end.

Definition fio_psyncio_queue : nat -> thread -> option (fio_q_status * thread) :=
  queue_frame
    (fun u f td => set_kern (sys_pread (f_fd f) (xfer_buflen u) (offset u) (kern td)) td)
    (fun u f td => set_kern (sys_pwrite (f_fd f) (xfer_buflen u) (offset u) (kern td)) td)
    do_io_u_trim.

Definition fio_syncio_queue : nat -> thread -> option (fio_q_status * thread) :=
  queue_frame
    (fun u f td => set_kern (sys_read (f_fd f) (xfer_buflen u) (kern td)) td)
    (fun u f td => set_kern (sys_write (f_fd f) (xfer_buflen u) (kern td)) td)
    do_io_u_trim.

(** The in-storage read: the block address and count of the request. *)
Definition isp_read_cmd u : passthru_cmd :=
  mk_cmd 0x82 0 0 0 (xfer_buf u) (xfer_buflen u) (offset u / 4096)
    (u64 (xfer_buflen u / 4096 - 1)) 0 0.

(** A trim completes without doing anything. *)
Definition fio_ispsyncio_queue : nat -> thread -> option (fio_q_status * thread) :=
  queue_frame
    (fun u f td =>
       let '(err, td) := set_kern (sys_nvme (f_fd f) (isp_read_cmd u) (kern td)) td in
       (if decide (err = 0) then xfer_buflen u else -1, td))
    (fun u f td => (-1, td))
    (fun id td => Some td).

(** [iov] is the first entry of the engine's vector; it is set after the check
    and before the direction is looked at. *)
Definition with_iov0 (q : nat -> thread -> option (fio_q_status * thread)) (id : nat) td
    : option (fio_q_status * thread) :=
  u ← ious td !! id;
  let s := sd td in
  if negb (fio_ro_check u td) then None
  else if decide (length (iovecs s) = 0%nat) then None
  else q id (set_sd (SyncioData (<[0%nat := (xfer_buf u, xfer_buflen u)]> (iovecs s)) (io_us s)
                       (queued s) (events s) (queued_bytes s) (last_offset s) (last_file s)
                       (last_ddir s)) td).

Definition pv_read (flags : Z) u f td : Z * thread :=
  set_kern (sys_preadv (f_fd f) (take 1 (iovecs (sd td))) (offset u) flags (kern td)) td.
Definition pv_write (flags : Z) u f td : Z * thread :=
  set_kern (sys_pwritev (f_fd f) (take 1 (iovecs (sd td))) (offset u) flags (kern td)) td.

Definition fio_pvsyncio_queue : nat -> thread -> option (fio_q_status * thread) :=
  with_iov0 (queue_frame (pv_read 0) (pv_write 0) do_io_u_trim).

(** [RWF_HIPRI] 1, [RWF_NOWAIT] 8, [RWF_UNCACHED] 64; the random number is
    drawn only with [hipri]. *)
Definition pv2_flags td : Z * thread :=
  let '(hi, td) :=
    if hipri (o td) then
      let '(r, k) := sys_rand (kern td) in
      (bool_decide (r <= hipri_percentage (o td)),
       Thread (o td) (files td) (ious td) (sd td) (td_error td) (errno td) k)
    else (false, td) in
  let flags := if (hi : bool) then 1 else 0 in
  let flags := if negb (odirect (o td)) && uncached (o td) then Z.lor flags 64 else flags in
  (if nowait (o td) then Z.lor flags 8 else flags, td).

Definition fio_pvsyncio2_queue : nat -> thread -> option (fio_q_status * thread) :=
  with_iov0 (fun id td =>
    let '(flags, td) := pv2_flags td in
    queue_frame (pv_read flags) (pv_write flags) do_io_u_trim id td).

(** ** The batching engine "vsync" *)

Definition fio_vsyncio_init td : thread :=
  set_sd (SyncioData (replicate (iodepth (o td)) (0, 0)) (replicate (iodepth (o td)) 0%nat)
            0 0 0 (2 ^ 64 - 1) None DDIR_READ) td.

Definition fio_vsyncio_getevents (min : nat) td : nat * thread :=
  if decide (min <> 0%nat) then
    let s := sd td in
    (events s, set_sd (SyncioData (iovecs s) (io_us s) (queued s) 0 (queued_bytes s)
                         (last_offset s) (last_file s) (last_ddir s)) td)
  else (0%nat, td).

Definition fio_vsyncio_event (event : nat) td : option nat := io_us (sd td) !! event.

Definition fio_vsyncio_append u (s : syncio_data) : bool :=
  if ddir_sync (ddir u) then false
  else bool_decide (offset u = last_offset s) && bool_decide (Some (file u) = last_file s) &&
       bool_decide (ddir u = last_ddir s).

Definition fio_vsyncio_set_iov (s : syncio_data) (id : nat) u (idx : nat) : option syncio_data :=
  if decide (idx < length (io_us s) /\ idx < length (iovecs s))%nat then
    Some (SyncioData (<[idx := (xfer_buf u, xfer_buflen u)]> (iovecs s)) (<[idx := id]> (io_us s))
            (S (queued s)) (events s) (u64 (queued_bytes s + xfer_buflen u))
            (u64 (offset u + xfer_buflen u)) (Some (file u)) (ddir u))
  else None.

Definition reset_queue (s : syncio_data) : syncio_data :=
  SyncioData (iovecs s) (io_us s) 0 (events s) 0 (last_offset s) (last_file s) (last_ddir s).

Definition fio_vsyncio_queue (id : nat) td : option (fio_q_status * thread) :=
  u ← ious td !! id;
  if negb (fio_ro_check u td) then None
  else if negb (fio_vsyncio_append u (sd td)) then
    if decide (queued (sd td) <> 0%nat) then Some (FIO_Q_BUSY, td)
    else if ddir_sync (ddir u) then
      '(ret, td) ← do_io_u_sync id td;
      fio_io_end id ret td
    else
      s ← fio_vsyncio_set_iov (reset_queue (sd td)) id u 0;
      Some (FIO_Q_QUEUED, set_sd s td)
  else if decide (queued (sd td) = iodepth (o td)) then Some (FIO_Q_BUSY, td)
  else
    s ← fio_vsyncio_set_iov (sd td) id u (queued (sd td));
    Some (FIO_Q_QUEUED, set_sd s td).

(** One io_u of the completion loop; [bytes] is what is left of the transfer. *)
Definition vsyncio_end_one (err : Z) (i : nat) (s : Z * thread) : option (Z * thread) :=
  let '(bytes, td) := s in
  id ← io_us (sd td) !! i;
  u ← ious td !! id;
  if decide (bytes = -1) then Some (bytes, set_iou id (set_result u (resid u) err) td)
  else
    let this_io := u32 bytes in
    let this_io := if decide (this_io > xfer_buflen u) then u32 (xfer_buflen u) else this_io in
    Some (bytes - this_io, set_iou id (set_result u (u64 (xfer_buflen u - this_io)) 0) td).

Definition fio_vsyncio_end (bytes : Z) td : option (Z * thread) :=
  if decide (u64 bytes = queued_bytes (sd td)) then Some (0, td)
  else
    let err := errno td in
    '(bytes, td) ← for_ (queued (sd td)) (vsyncio_end_one err) (bytes, td);
    if decide (bytes = -1) then Some (i32 (- err), td_verror err td) else Some (0, td).

Definition fio_vsyncio_commit td : option (Z * thread) :=
  if decide (queued (sd td) = 0%nat) then Some (0, td)
  else
    fid ← last_file (sd td);
    f ← files td !! fid;
    id0 ← io_us (sd td) !! 0%nat;
    u0 ← ious td !! id0;
    let '(r, td) := set_kern (sys_lseek (f_fd f) (offset u0) (kern td)) td in
    if decide (r = -1) then Some (i32 (- errno td), td_verror (errno td) td)
    else
      let iov := take (queued (sd td)) (iovecs (sd td)) in
      let '(ret, td) :=
        if decide (last_ddir (sd td) = DDIR_READ)
        then set_kern (sys_readv (f_fd f) iov (kern td)) td
        else set_kern (sys_writev (f_fd f) iov (kern td)) td in
      let s := sd td in
      let td := set_sd (SyncioData (iovecs s) (io_us s) 0 (queued s) (queued_bytes s)
                          (last_offset s) (last_file s) (last_ddir s)) td in
      fio_vsyncio_end ret td.

(** ** The operation tables *)

Record ioengine_ops := IoengineOps {
  name : string;
  init_ : option (thread -> thread);
  prep : option (nat -> thread -> option (Z * thread));
  queue : nat -> thread -> option (fio_q_status * thread);
  commit : option (thread -> option (Z * thread))
}.

Definition ioengine_rw : ioengine_ops :=
  IoengineOps "sync" None (Some fio_syncio_prep) fio_syncio_queue None.
Definition ioengine_prw : ioengine_ops :=
  IoengineOps "psync" None None fio_psyncio_queue None.
Definition ioengine_ispr : ioengine_ops :=
  IoengineOps "ispsync" None None fio_ispsyncio_queue None.
Definition ioengine_vrw : ioengine_ops :=
  IoengineOps "vsync" (Some fio_vsyncio_init) None fio_vsyncio_queue (Some fio_vsyncio_commit).
Definition ioengine_pvrw : ioengine_ops :=
  IoengineOps "pvsync" (Some fio_vsyncio_init) None fio_pvsyncio_queue None.
Definition ioengine_pvrw2 : ioengine_ops :=
  IoengineOps "pvsync2" (Some fio_vsyncio_init) None fio_pvsyncio2_queue None.

(** The registration order of [fio_syncio_register]. *)
Definition fio_syncio_register : list ioengine_ops :=
  [ioengine_rw; ioengine_prw; ioengine_ispr; ioengine_vrw; ioengine_pvrw; ioengine_pvrw2].
End engine.
Arguments thread K : clear implicits.
