(* ===== verification/FioProofs.v ===== *)
(** * Properties of the synchronous fio engines

    The request the ispsync engine makes of a read, the completion of an io_u
    on every outcome of a call, the batch the vsync engine builds, and what
    its commit does to the io_us of the batch. *)

From S2P Require Import Prelude Mem Ebpf Nvme FioSync.

Open Scope string_scope.
Open Scope list_scope.
Open Scope Z_scope.

(** ** The in-storage read request *)

(** The bytes of the device a command addresses: first byte and length. *)
Definition byte_range (c : passthru_cmd) : Z * Z :=
  (pc_cdw10 c * 4096, Z.of_nat (cmd_len c) * 4096).

(** the bytes an ispsync read asks for.  The start is the file offset
    rounded down to a block, modulo 16 TB: the upper half of the 64-bit block
    address is always 0.  For an aligned transfer of 1 to 65536 whole blocks
    below 16 TB the request covers exactly the bytes fio asked for; one smaller
    than a block asks for 65536 blocks. *)
Theorem isp_request_blocks (u : io_u) :
  0 <= offset u < 2 ^ 64 -> 0 <= xfer_buflen u < 2 ^ 64 ->
  (byte_range (isp_read_cmd u)).1 = (offset u / 4096 * 4096) `mod` 2 ^ 44 /\
  (offset u `mod` 4096 = 0 -> offset u < 2 ^ 44 ->
   xfer_buflen u `mod` 4096 = 0 -> 0 < xfer_buflen u <= 65536 * 4096 ->
   byte_range (isp_read_cmd u) = (offset u, xfer_buflen u)) /\
  (xfer_buflen u < 4096 -> (byte_range (isp_read_cmd u)).2 = 65536 * 4096).
Proof.
  intros Ho Hl. unfold byte_range, isp_read_cmd, cmd_len, mk_cmd.
  cbn [fst snd pc_cdw10 pc_cdw12]. unfold wrapu. split_and!.
  - change (2 ^ 44) with (2 ^ 32 * 4096). by rewrite Z.mul_mod_distr_r by lia.
  - intros Hm Hlt Hm' Hlt'. assert (Hq : 0 <= xfer_buflen u / 4096 - 1 < 65536) by dlia.
    rewrite (Z.mod_small (offset u / 4096)) by dlia.
    rewrite !(Z.mod_small (xfer_buflen u / 4096 - 1)) by lia. f_equal; [dlia|].
    rewrite Z2Nat.id by lia. dlia.
  - intros Hlt. rewrite (Z.div_small (xfer_buflen u)) by lia. reflexivity.
Qed.

Lemma isp_request_blocks_witness :
  byte_range (isp_read_cmd (IoU DDIR_READ 0 8192 0 16384 0 0)) = (8192, 16384) /\
  (byte_range (isp_read_cmd (IoU DDIR_READ 0 0 0 512 0 0))).2 = 65536 * 4096.
Proof.
  split.
  - apply (isp_request_blocks (IoU DDIR_READ 0 8192 0 16384 0 0)); cbn; lia.
  - apply (isp_request_blocks (IoU DDIR_READ 0 0 0 512 0 0)); cbn; lia.
Defined.

Section engine.
Context {K : Type} `{Kernel K}.
Implicit Types (td : thread K) (u : io_u).

(** ** Completion *)

(** The first error a thread sees. *)
Definition first_error (old new : Z) : Z := if decide (old = 0) then new else old.

Lemma td_verror_error e td : td_error (td_verror e td) = first_error (td_error td) e.
Proof. unfold td_verror, first_error. by case_decide. Qed.

Lemma td_verror_ious e td : ious (td_verror e td) = ious td.
Proof. unfold td_verror. by case_decide. Qed.

Lemma td_verror_files e td : files (td_verror e td) = files td.
Proof. unfold td_verror. by case_decide. Qed.

Lemma td_verror_kern e td : kern (td_verror e td) = kern td.
Proof. unfold td_verror. by case_decide. Qed.

Lemma td_verror_sd e td : sd (td_verror e td) = sd td.
Proof. unfold td_verror. by case_decide. Qed.

(** The io_u after a transfer that returned [ret], when [errno] is [e]. *)
Definition completed u (ret e : Z) : io_u :=
  if decide (ret = xfer_buflen u) then u
  else if decide (0 <= ret) then set_result u (xfer_buflen u - ret) 0
  else set_result u (resid u) e.

(** The file position the engine remembers. *)
Definition moved u (f : fio_file) (ret : Z) : fio_file :=
  if decide (0 <= ret /\ ddir_rw (ddir u)) then set_engine_pos f (u64 (offset u + ret)) else f.

Lemma fio_io_end_spec id ret td u f :
  ious td !! id = Some u -> files td !! file u = Some f ->
  i32_ok ret -> ret <= xfer_buflen u -> 0 <= xfer_buflen u < 2 ^ 31 ->
  exists td', fio_io_end id ret td = Some (FIO_Q_COMPLETED, td') /\
    ious td' = <[id := completed u ret (errno td)]> (ious td) /\
    files td' = <[file u := moved u f ret]> (files td) /\
    kern td' = kern td /\ sd td' = sd td /\
    td_error td' = if decide (ret = xfer_buflen u \/ ret < 0)
                   then first_error (td_error td) (error (completed u ret (errno td)))
                   else td_error td.
Proof.
  intros Hu Hf Hr Hle Hb. unfold fio_io_end. rewrite Hu. cbn [mbind option_bind]. rewrite Hf.
  rewrite (i32_small (xfer_buflen u)) by (unfold i32_ok; lia).
  set (td1 := if _ && _ then _ else td).
  assert (E1 : ious td1 = ious td /\ files td1 = <[file u := moved u f ret]> (files td) /\
    errno td1 = errno td /\ td_error td1 = td_error td /\ kern td1 = kern td /\ sd td1 = sd td).
  { unfold td1, moved. destruct (bool_decide (0 <= ret)) eqn:E0; simpl.
    - apply bool_decide_eq_true in E0. destruct (ddir_rw (ddir u)) eqn:Ed; simpl.
      + by rewrite decide_True.
      + rewrite decide_False by tauto. by rewrite insert_id.
    - apply bool_decide_eq_false in E0. rewrite decide_False by tauto. by rewrite insert_id. }
  clearbody td1. destruct E1 as (Ei & Efi & Ee & Et & Ek & Es).
  unfold completed. destruct (decide (ret = xfer_buflen u)) as [Heq|Hne].
  - rewrite (bool_decide_false (ret <> xfer_buflen u)) by tauto. cbn [andb].
    rewrite (decide_False (P := ret <> xfer_buflen u)) by tauto.
    rewrite (decide_True (P := ret = xfer_buflen u \/ ret < 0)) by tauto.
    eexists. split; [done|]. unfold first_error.
    destruct (decide (error u <> 0)).
    + rewrite td_verror_ious, td_verror_files, td_verror_kern, td_verror_sd, td_verror_error.
      cbn [set_iou ious files kern sd td_error]. unfold first_error.
      rewrite Ei, Efi, Ek, Es, Et. done.
    + cbn [set_iou ious files kern sd td_error]. rewrite Ei, Efi, Ek, Es, Et.
      split_and!; try done. case_decide; lia.
  - rewrite (bool_decide_true (ret <> xfer_buflen u)) by done. cbn [andb].
    rewrite (decide_True (P := ret <> xfer_buflen u)) by done.
    destruct (decide (0 <= ret)) as [H0|H0].
    + rewrite bool_decide_true by done.
      rewrite (decide_False (P := ret = xfer_buflen u \/ ret < 0)) by lia.
      eexists. split; [done|]. cbn [set_iou ious files kern sd td_error].
      rewrite Ei, wrapu_small by lia. done.
    + rewrite bool_decide_false by done.
      rewrite (decide_True (P := ret = xfer_buflen u \/ ret < 0)) by lia.
      eexists. split; [done|]. rewrite Ee. cbn [set_result error]. unfold first_error.
      destruct (decide (errno td <> 0)).
      * rewrite td_verror_ious, td_verror_files, td_verror_kern, td_verror_sd, td_verror_error.
        cbn [set_iou ious files kern sd td_error]. unfold first_error.
        rewrite Ei, Efi, Ek, Es, Et. done.
      * cbn [set_iou ious files kern sd td_error]. rewrite Ei, Efi, Ek, Es, Et.
        split_and!; try done. case_decide; lia.
Qed.

Lemma set_kern_frame r td ret td' :
  set_kern r td = (ret, td') ->
  ret = r.1.1 /\ o td' = o td /\ ious td' = ious td /\ files td' = files td /\ sd td' = sd td /\
  td_error td' = td_error td /\ kern td' = r.2 /\
  errno td' = if decide (r.1.1 = -1) then r.1.2 else errno td.
Proof. destruct r as [[r e] k]. cbn. intros [= <- <-]. done. Qed.

(** ** Batches of the vsync engine *)

(** The io_us [ids] are queued: they are the first entries of the arrays, have
    one file and direction, and follow each other on disk. *)
Record batch td (ids : list nat) : Prop := {
  b_queued : queued (sd td) = length ids;
  b_ids : take (length ids) (io_us (sd td)) = ids;
  b_io_us : length (io_us (sd td)) = iodepth (o td);
  b_iovecs : length (iovecs (sd td)) = iodepth (o td);
  b_iov : forall i id, ids !! i = Some id -> exists u,
    ious td !! id = Some u /\ iovecs (sd td) !! i = Some (xfer_buf u, xfer_buflen u) /\
    last_file (sd td) = Some (file u) /\ last_ddir (sd td) = ddir u /\
    ddir_sync (ddir u) = false;
  b_chain : forall i id id' u u',
    ids !! i = Some id -> ids !! S i = Some id' -> ious td !! id = Some u ->
    ious td !! id' = Some u' -> offset u' = u64 (offset u + xfer_buflen u);
  b_last : forall id u, last ids = Some id -> ious td !! id = Some u ->
    last_offset (sd td) = u64 (offset u + xfer_buflen u)
}.

Lemma batch_len td ids : batch td ids -> (length ids <= iodepth (o td))%nat.
Proof.
  intros Hb. rewrite <- (b_io_us _ _ Hb), <- (b_ids _ _ Hb) at 1. rewrite length_take. lia.
Qed.

(** Appending a unit to a batch with room; [s0] is the engine data before. *)
Lemma batch_append td ids id u s0 :
  batch td ids -> (length ids < iodepth (o td))%nat -> ious td !! id = Some u ->
  ddir_sync (ddir u) = false ->
  (ids <> [] -> fio_vsyncio_append u (sd td) = true) ->
  io_us s0 = io_us (sd td) -> iovecs s0 = iovecs (sd td) -> queued s0 = length ids ->
  exists s, fio_vsyncio_set_iov s0 id u (length ids) = Some s /\ batch (set_sd s td) (ids ++ [id]).
Proof.
  intros [Hq Hids Hio Hiv Hiov Hch Hl] Hlen Hu Hd Happ Eio Eiv Eq.
  unfold fio_vsyncio_set_iov. rewrite Eio, Eiv, Eq, decide_True by lia.
  eexists. split; [done|].
  assert (Hlook : forall i x, (ids ++ [id]) !! i = Some x ->
    ids !! i = Some x \/ i = length ids /\ x = id).
  { intros i x [Hx|[Hge Hx]]%lookup_app_Some; [by left|right].
    apply list_lookup_singleton_Some in Hx as [? ->]. split; [lia|done]. }
  assert (Hprev : ids <> [] -> offset u = last_offset (sd td) /\
    Some (file u) = last_file (sd td) /\ ddir u = last_ddir (sd td)).
  { intros Hne. specialize (Happ Hne). unfold fio_vsyncio_append in Happ. rewrite Hd in Happ.
    by repeat (apply andb_prop in Happ as [Happ ?]; repeat case_bool_decide). }
  split; cbn [set_sd sd o ious queued io_us iovecs last_file last_ddir last_offset].
  - rewrite length_app. simpl. lia.
  - rewrite length_app. simpl. apply list_eq. intros i.
    destruct (decide (i < length ids)%nat) as [Hi|Hi].
    + rewrite lookup_take_lt by lia. rewrite list_lookup_insert_ne by lia.
      rewrite lookup_app_l by done.
      rewrite <- (lookup_take_lt (io_us (sd td)) (length ids) i) by done. by rewrite Hids.
    + destruct (decide (i = length ids)) as [->|Hne].
      * rewrite lookup_take_lt by lia. rewrite list_lookup_insert_eq by lia.
        by rewrite lookup_app_r, Nat.sub_diag.
      * rewrite lookup_take_ge by lia. rewrite lookup_ge_None_2; [done|].
        rewrite length_app. simpl. lia.
  - by rewrite length_insert.
  - by rewrite length_insert.
  - intros i x Hx. destruct (Hlook i x Hx) as [Hx'|[-> ->]].
    + destruct (Hiov i x Hx') as (u' & Hu' & Hi' & Hf' & Hd' & Hs').
      apply lookup_lt_Some in Hx' as Hlt.
      destruct Hprev as (_ & Ef & Ed); [by intros ->|].
      exists u'. rewrite list_lookup_insert_ne by lia. split_and!; try done; congruence.
    + exists u. rewrite list_lookup_insert_eq by lia. done.
  - intros i x x' ux ux' Hx Hx' Hux Hux'. destruct (Hlook _ _ Hx') as [Hx1|[Ei ->]].
    + destruct (Hlook _ _ Hx) as [Hx2|[-> _]]; [by eapply Hch|].
      apply lookup_lt_Some in Hx1. lia.
    + destruct (Hlook _ _ Hx) as [Hx2|[-> _]]; [|lia].
      rewrite Hu in Hux'. injection Hux' as <-.
      destruct Hprev as (Eo & _); [by intros ->|]. rewrite Eo. apply (Hl x ux); [|done].
      rewrite last_lookup. by rewrite <- Ei.
  - intros x ux. rewrite last_snoc. intros [= <-] Hux. rewrite Hu in Hux. by injection Hux as <-.
Qed.

Lemma vsync_queue_cases id td u ids :
  batch td ids -> (0 < iodepth (o td))%nat -> ious td !! id = Some u ->
  fio_ro_check u td = true -> ddir_sync (ddir u) = false ->
  (exists td', fio_vsyncio_queue id td = Some (FIO_Q_QUEUED, td') /\
     batch td' (ids ++ [id]) /\ kern td' = kern td /\ ious td' = ious td) \/
  (fio_vsyncio_queue id td = Some (FIO_Q_BUSY, td) /\ ids <> []).
Proof.
  intros Hb Hd0 Hu Hro Hs. pose proof (b_queued _ _ Hb) as Hq. pose proof (batch_len _ _ Hb).
  unfold fio_vsyncio_queue. rewrite Hu. cbn [mbind option_bind]. rewrite Hro, Hs. cbn [negb].
  destruct (fio_vsyncio_append u (sd td)) eqn:Ea; cbn [negb].
  - rewrite Hq. case_decide as Hfull.
    + right. split; [done|]. intros ->. simpl in Hfull. lia.
    + left. destruct (batch_append td ids id u (sd td)) as (s & E & Hb'); [done|lia|done..|].
      rewrite E. eexists. split; [done|]. done.
  - rewrite Hq. case_decide as Hne.
    + right. split; [done|]. by intros ->.
    + destruct ids as [|x ids]; [|simpl in Hne; lia]. left.
      destruct (batch_append td [] id u (reset_queue (sd td))) as (s & E & Hb'); [done..|].
      simpl in E. rewrite E. eexists. split; [done|]. done.
Qed.

Lemma batch_verror e td ids : batch td ids -> batch (td_verror e td) ids.
Proof. intros [Hq Hids Hio Hiv Hiov Hch Hl]. unfold td_verror. by case_decide. Qed.

(** Commit with the queue already emptied: the completion loop does nothing. *)
Lemma vsyncio_end_empty bytes td :
  queued (sd td) = 0%nat ->
  fio_vsyncio_end bytes td =
    Some (if decide (u64 bytes = queued_bytes (sd td)) then (0, td)
          else if decide (bytes = -1) then (i32 (- errno td), td_verror (errno td) td)
          else (0, td)).
Proof.
  intros Hq. unfold fio_vsyncio_end. case_decide; [done|]. rewrite Hq. cbn.
  by case_decide.
Qed.

(** The vectors of a batch. *)
Definition batch_iov td (ids : list nat) : list (Z * Z) :=
  omap (fun id => (fun u => (xfer_buf u, xfer_buflen u)) <$> ious td !! id) ids.

Lemma omap_all {B C} (f : B -> option C) (l : list B) (l' : list C) :
  length l = length l' ->
  (forall i x, l !! i = Some x -> exists y, f x = Some y /\ l' !! i = Some y) -> omap f l = l'.
Proof.
  revert l'. induction l as [|x l IH]; intros [|y l'] Hlen Hf; try done.
  destruct (Hf 0%nat x eq_refl) as (z & Hz & Hy). injection Hy as <-. simpl. rewrite Hz.
  f_equal. apply IH; [simpl in Hlen; lia|]. intros i a Ha. by apply (Hf (S i)).
Qed.

Lemma batch_iovecs td ids : batch td ids -> batch_iov td ids = take (length ids) (iovecs (sd td)).
Proof.
  intros Hb. apply omap_all.
  - rewrite length_take, (b_iovecs _ _ Hb). pose proof (batch_len _ _ Hb). lia.
  - intros i id Hi. destruct (b_iov _ _ Hb i id Hi) as (u & Hu & Hv & _).
    exists (xfer_buf u, xfer_buflen u). rewrite Hu. split; [done|].
    apply lookup_lt_Some in Hi. by rewrite lookup_take_lt.
Qed.

Lemma if_set_kern {P} `{Decision P} (fr fw : Z -> list (Z * Z) -> K -> (Z * Z) * K) fd iov k td :
  set_kern ((if decide P then fr else fw) fd iov k) td =
  if decide P then set_kern (fr fd iov k) td else set_kern (fw fd iov k) td.
Proof. by case_decide. Qed.

Lemma vsync_commit_spec td id0 ids u0 f :
  batch td (id0 :: ids) -> ious td !! id0 = Some u0 -> files td !! file u0 = Some f ->
  let '((pos, e1), k1) := sys_lseek (f_fd f) (offset u0) (kern td) in
  pos <> -1 ->
  let '((ret, e2), k2) :=
    (if decide (ddir u0 = DDIR_READ) then sys_readv else sys_writev)
      (f_fd f) (batch_iov td (id0 :: ids)) k1 in
  exists r td', fio_vsyncio_commit td = Some (r, td') /\
    ious td' = ious td /\ kern td' = k2 /\ batch td' [] /\
    events (sd td') = S (length ids) /\ io_us (sd td') = io_us (sd td) /\
    (ret <> -1 -> r = 0 /\ td_error td' = td_error td).
Proof.
  intros Hb Hu0 Hf.
  destruct (sys_lseek (f_fd f) (offset u0) (kern td)) as [[pos e1] k1] eqn:El. intros Hpos.
  destruct ((if decide (ddir u0 = DDIR_READ) then _ else _) _ _ _) as [[ret e2] k2] eqn:Er.
  destruct (b_iov _ _ Hb 0%nat id0 eq_refl) as (u & Hu & _ & Hfile & Hddir & _).
  rewrite Hu0 in Hu. injection Hu as <-.
  assert (Hid : io_us (sd td) !! 0%nat = Some id0).
  { rewrite <- (lookup_take_lt _ (length (id0 :: ids))) by (simpl; lia).
    by rewrite (b_ids _ _ Hb). }
  unfold fio_vsyncio_commit. rewrite (b_queued _ _ Hb), decide_False by (simpl; lia).
  rewrite Hfile. cbn [mbind option_bind]. rewrite Hf. cbn [mbind option_bind]. rewrite Hid.
  cbn [mbind option_bind]. rewrite Hu0. cbn [mbind option_bind]. rewrite El.
  cbn [set_kern]. rewrite (decide_False (P := pos = -1)) by done.
  cbn [sd kern]. rewrite (b_queued _ _ Hb), <- (batch_iovecs _ _ Hb), Hddir.
  rewrite <- if_set_kern, Er. cbn [set_kern].
  rewrite vsyncio_end_empty by done.
  set (s' := SyncioData _ _ _ _ _ _ _ _).
  assert (Hb' : forall d t e k, batch (Thread (o td) d (ious td) s' t e k) []).
  { intros. split; cbn; [done|done|apply (b_io_us _ _ Hb)|apply (b_iovecs _ _ Hb)|done..]. }
  assert (Hev : events s' = S (length ids)) by apply (b_queued _ _ Hb).
  assert (Hus : io_us s' = io_us (sd td)) by done.
  clearbody s'. cbn [set_sd sd queued_bytes errno].
  destruct (decide (u64 ret = _)); [|destruct (decide (ret = -1)) as [Hm|Hm]].
  - do 2 eexists. split; [done|]. split_and!; try done. apply Hb'.
  - do 2 eexists. split; [done|].
    rewrite td_verror_ious, td_verror_kern, td_verror_sd. split_and!; try done.
    apply batch_verror, Hb'.
  - do 2 eexists. split; [done|]. split_and!; try done. apply Hb'.
Qed.
End engine.

(** ** Properties *)

Section queue.
Context {K : Type} `{Kernel K}.
Implicit Types (td : thread K) (u : io_u).

(** The read branch of a one-call engine. *)
Lemma queue_read_spec do_read do_write do_trim id td u f ret td1 :
  ious td !! id = Some u -> files td !! file u = Some f -> ddir u = DDIR_READ ->
  0 <= xfer_buflen u < 2 ^ 31 ->
  do_read u f td = (ret, td1) -> ious td1 = ious td -> files td1 = files td ->
  - 2 ^ 31 <= ret <= xfer_buflen u ->
  exists td', queue_frame do_read do_write do_trim id td = Some (FIO_Q_COMPLETED, td') /\
    ious td' = <[id := completed u ret (errno td1)]> (ious td) /\
    files td' = <[file u := moved u f ret]> (files td) /\ kern td' = kern td1 /\
    td_error td' = if decide (ret = xfer_buflen u \/ ret < 0)
                   then first_error (td_error td1) (error (completed u ret (errno td1)))
                   else td_error td1.
Proof.
  intros Hu Hf Hd Hb Er Ei Ef Hr. unfold queue_frame. rewrite Hu. cbn [mbind option_bind].
  rewrite Hf. cbn [mbind option_bind]. unfold fio_ro_check. rewrite Hd, !bool_decide_false by done.
  cbn [andb negb]. rewrite Er. rewrite i32_small by (unfold i32_ok; lia).
  destruct (fio_io_end_spec id ret td1 u f) as (td' & E & H1 & H2 & H3 & _ & H5);
    [by rewrite Ei|by rewrite Ef|unfold i32_ok; lia|lia|done|].
  exists td'. rewrite Ei, Ef in *. done.
Qed.

End queue.

(** a psync read completes on every outcome of [pread]: a full transfer
    leaves the io_u as it is, a short one records what is missing and clears
    the error, a failed one records [errno]; the remembered file position
    moves past what was read, and the first error stays with the thread. *)
Theorem psync_read_completes {K : Type} `{Kernel K} (td : thread K) (id : nat) (u : io_u)
    (f : fio_file) (ret e : Z) (k' : K) :
  ious td !! id = Some u -> files td !! file u = Some f -> ddir u = DDIR_READ ->
  0 <= xfer_buflen u < 2 ^ 31 ->
  sys_pread (f_fd f) (xfer_buflen u) (offset u) (kern td) = ((ret, e), k') ->
  -1 <= ret <= xfer_buflen u ->
  exists td', fio_psyncio_queue id td = Some (FIO_Q_COMPLETED, td') /\ kern td' = k' /\
    ious td' = <[id := completed u ret (if decide (ret = -1) then e else errno td)]> (ious td) /\
    files td' = <[file u := moved u f ret]> (files td) /\
    (0 <= ret < xfer_buflen u -> td_error td' = td_error td) /\
    (ret = -1 -> td_error td' = first_error (td_error td) e).
Proof.
  intros Hu Hf Hd Hb Hk Hr.
  destruct (queue_read_spec
    (fun u f td => set_kern (sys_pread (f_fd f) (xfer_buflen u) (offset u) (kern td)) td)
    (fun u f td => set_kern (sys_pwrite (f_fd f) (xfer_buflen u) (offset u) (kern td)) td)
    do_io_u_trim id td u f ret
    (Thread (o td) (files td) (ious td) (sd td) (td_error td)
       (if decide (ret = -1) then e else errno td) k'))
    as (td' & E & Hi & Hfi & Hke & Ht); [done..|by rewrite Hk|done|done|lia|].
  exists td'. cbn [errno td_error kern] in *. split_and!; [done|done|done|done| |].
  - intros Hs. by rewrite decide_False in Ht by lia.
  - intros Hm. subst ret. rewrite decide_True in Ht by lia.
    unfold completed in Ht. rewrite decide_False, decide_False in Ht by lia.
    rewrite decide_True in Ht by done. exact Ht.
Qed.

(** C35: what an ispsync read makes of the ioctl's answer.  0 is a full
    transfer.  -1 is a failure with the kernel's [errno].  A positive answer,
    an NVMe status, leaves [errno] alone: the io_u gets whatever error number
    an earlier call left behind, and with [errno] 0 the failed read is
    completed without any error. *)
Theorem ispsync_read_outcomes {K : Type} `{Kernel K} (td : thread K) (id : nat) (u : io_u)
    (f : fio_file) (err e : Z) (k' : K) :
  ious td !! id = Some u -> files td !! file u = Some f -> ddir u = DDIR_READ ->
  0 < xfer_buflen u < 2 ^ 31 -> error u = 0 ->
  sys_nvme (f_fd f) (isp_read_cmd u) (kern td) = ((err, e), k') ->
  exists td', fio_ispsyncio_queue id td = Some (FIO_Q_COMPLETED, td') /\ kern td' = k' /\
    (err = 0 -> ious td' = <[id := u]> (ious td) /\ td_error td' = td_error td /\
       files td' = <[file u := set_engine_pos f (u64 (offset u + xfer_buflen u))]> (files td)) /\
    (err = -1 -> ious td' = <[id := set_result u (resid u) e]> (ious td) /\
       td_error td' = first_error (td_error td) e) /\
    (0 < err -> ious td' = <[id := set_result u (resid u) (errno td)]> (ious td)) /\
    (0 < err -> errno td = 0 -> ious td' = ious td /\ td_error td' = td_error td).
Proof.
  intros Hu Hf Hd Hb He Hk.
  set (ret := if decide (err = 0) then xfer_buflen u else -1).
  destruct (queue_read_spec
    (fun u f td =>
       let '(err, td) := set_kern (sys_nvme (f_fd f) (isp_read_cmd u) (kern td)) td in
       (if decide (err = 0) then xfer_buflen u else -1, td))
    (fun u f td => (-1, td)) (fun id td => Some td) id td u f ret
    (Thread (o td) (files td) (ious td) (sd td) (td_error td)
       (if decide (err = -1) then e else errno td) k'))
    as (td' & E & Hi & Hfi & Hke & Ht);
    [done|done|done|lia|by rewrite Hk|done|done|unfold ret; case_decide; lia|].
  exists td'. cbn [errno td_error kern] in *. split; [exact E|]. split; [exact Hke|].
  unfold ret, completed, moved in *. split_and!; intros Herr.
  - rewrite (decide_True (P := err = 0)) in * by done.
    rewrite (decide_True (P := xfer_buflen u = xfer_buflen u)) in Hi by done.
    rewrite (decide_True (P := 0 <= xfer_buflen u /\ _)) in Hfi by (rewrite Hd; split; [lia|done]).
    rewrite decide_True, decide_True, He in Ht by tauto. unfold first_error in Ht.
    split_and!; [done| |done]. rewrite Ht. case_decide; lia.
  - subst err. rewrite (decide_False (P := -1 = 0)) in * by done.
    rewrite (decide_False (P := -1 = xfer_buflen u)) in * by lia.
    rewrite (decide_False (P := 0 <= -1)), (decide_True (P := -1 = -1)) in * by lia.
    rewrite decide_True in Ht by lia. done.
  - rewrite (decide_False (P := err = 0)) in * by lia.
    rewrite (decide_False (P := -1 = xfer_buflen u)) in * by lia.
    rewrite (decide_False (P := 0 <= -1)), (decide_False (P := err = -1)) in * by lia. done.
  - intros He0. rewrite (decide_False (P := err = 0)) in * by lia.
    rewrite (decide_False (P := -1 = xfer_buflen u)) in * by lia.
    rewrite (decide_False (P := 0 <= -1)), (decide_False (P := err = -1)) in * by lia.
    rewrite He0 in *. rewrite decide_True in Ht by lia. unfold first_error in Ht. cbn in Ht.
    split; [|rewrite Ht; case_decide; lia].
    rewrite Hi. apply insert_id. rewrite Hu. f_equal. rewrite <- He. by destruct u.
Qed.

(** an ispsync write or trim does nothing and says so only by accident.
    A write makes no system call; it is completed with the error number an
    earlier call left in [errno], so that with [errno] 0 it counts as done.  A
    trim is completed with nothing changed at all. *)
Theorem ispsync_write_dropped {K : Type} `{Kernel K} (td : thread K) (id : nat) (u : io_u)
    (f : fio_file) :
  ious td !! id = Some u -> files td !! file u = Some f -> fio_ro_check u td = true ->
  0 < xfer_buflen u < 2 ^ 31 ->
  (ddir u = DDIR_WRITE ->
   exists td', fio_ispsyncio_queue id td = Some (FIO_Q_COMPLETED, td') /\
     kern td' = kern td /\ files td' = files td /\
     ious td' = <[id := set_result u (resid u) (errno td)]> (ious td) /\
     td_error td' = first_error (td_error td) (errno td)) /\
  (ddir u = DDIR_TRIM -> fio_ispsyncio_queue id td = Some (FIO_Q_COMPLETED, td)).
Proof.
  intros Hu Hf Hro Hb. unfold fio_ispsyncio_queue, queue_frame. rewrite Hu. cbn [mbind option_bind].
  rewrite Hf. cbn [mbind option_bind]. rewrite Hro. cbn [negb]. split; intros ->; [|done].
  change (i32 (-1)) with (-1).
  destruct (fio_io_end_spec id (-1) td u f) as (td' & E & Hi & Hfi & Hk & _ & Ht);
    [done|done|unfold i32_ok; lia|lia|lia|].
  exists td'. split; [exact E|]. split; [exact Hk|]. revert Hi Hfi Ht. unfold completed, moved.
  rewrite (decide_False (P := -1 = xfer_buflen u)), (decide_False (P := 0 <= -1)) by lia.
  rewrite decide_False by lia. rewrite decide_True by lia. intros -> -> ->.
  split_and!; [by apply insert_id|done|done].
Qed.

(** the sync engine does not seek between sequential transfers: after a
    transfer that moved the position of the file, preparing a unit that starts
    where the last one ended makes no system call; any other position is
    seeked to first, and a failing seek is reported as 1. *)
Theorem sync_prep_positions {K : Type} `{Kernel K} (td : thread K) (id : nat) (u : io_u)
    (f0 : fio_file) (prev : io_u) (n : Z) :
  ious td !! id = Some u -> ddir_rw (ddir u) = true ->
  files td !! file u = Some (moved prev f0 n) ->
  ddir_rw (ddir prev) = true -> 0 <= n -> u64 (offset prev + n) <> 2 ^ 64 - 1 ->
  (offset u = u64 (offset prev + n) -> fio_syncio_prep id td = Some (0, td)) /\
  (offset u <> u64 (offset prev + n) ->
   forall pos e k', sys_lseek (f_fd f0) (offset u) (kern td) = ((pos, e), k') ->
   exists td', kern td' = k' /\
     fio_syncio_prep id td = Some (if decide (pos = -1) then 1 else 0, td')).
Proof.
  intros Hu Hd Hf Hd' Hn Hmax. unfold moved in Hf.
  rewrite decide_True in Hf by (split; [done|by rewrite Hd']).
  unfold fio_syncio_prep. rewrite Hu. cbn [mbind option_bind]. rewrite Hd. cbn [negb].
  rewrite Hf. cbn [mbind option_bind set_engine_pos engine_pos f_fd].
  rewrite (bool_decide_true (u64 _ <> _)) by done. cbn [andb]. split.
  - intros Ho. by rewrite bool_decide_true by congruence.
  - intros Hne pos e k' Hk. rewrite bool_decide_false by congruence. rewrite Hk. cbn [set_kern].
    destruct (decide (pos = -1)).
    + eexists. split; [|done]. by rewrite td_verror_kern.
    + eexists. split; [|done]. done.
Qed.

(** queueing in the vsync engine.  Initially the batch is empty.  A read,
    write or trim that the job allows is either appended to the batch, which
    stays a run of adjacent units of one file and direction within the queue
    depth, without a system call; or refused as busy with nothing changed, and
    then there is a batch to commit. *)
Theorem vsync_queue_batches {K : Type} `{Kernel K} (td : thread K) (id : nat) (u : io_u)
    (ids : list nat) :
  (0 < iodepth (o td))%nat -> ious td !! id = Some u ->
  fio_ro_check u td = true -> ddir_sync (ddir u) = false ->
  batch (fio_vsyncio_init td) [] /\
  (batch td ids ->
   (exists td', fio_vsyncio_queue id td = Some (FIO_Q_QUEUED, td') /\
      batch td' (ids ++ [id]) /\ kern td' = kern td /\ ious td' = ious td) \/
   (fio_vsyncio_queue id td = Some (FIO_Q_BUSY, td) /\ ids <> [])).
Proof.
  intros Hd0 Hu Hro Hs. split; [|intros Hb; by apply (vsync_queue_cases id td u)].
  split; cbn; rewrite ?length_replicate; try done; by intros [].
Qed.

(** committing a batch.  After a successful seek the engine makes one
    vectored call for exactly the buffers of the batch, in order, and the batch
    is empty with one event per unit.  But no unit is told the outcome: the
    queue length is reset before the completion loop runs, so that whatever
    the call returns, a short transfer or an error included, every io_u keeps
    its residual and error; a short transfer is reported as success. *)
Theorem vsync_commit_loses_outcome {K : Type} `{Kernel K} (td : thread K) (id0 : nat)
    (ids : list nat) (u0 : io_u) (f : fio_file) (pos e1 ret e2 : Z) (k1 k2 : K) :
  batch td (id0 :: ids) -> ious td !! id0 = Some u0 -> files td !! file u0 = Some f ->
  sys_lseek (f_fd f) (offset u0) (kern td) = ((pos, e1), k1) -> pos <> -1 ->
  (if decide (ddir u0 = DDIR_READ) then sys_readv else sys_writev)
    (f_fd f) (batch_iov td (id0 :: ids)) k1 = ((ret, e2), k2) ->
  exists r td', fio_vsyncio_commit td = Some (r, td') /\
    kern td' = k2 /\ batch td' [] /\ events (sd td') = S (length ids) /\
    ious td' = ious td /\ (ret <> -1 -> r = 0 /\ td_error td' = td_error td).
Proof.
  intros Hb Hu Hf El Hpos Er. pose proof (vsync_commit_spec td id0 ids u0 f Hb Hu Hf) as Hc.
  rewrite El in Hc. specialize (Hc Hpos). rewrite Er in Hc.
  destruct Hc as (r & td' & E & Hi & Hk & Hb' & Hev & _ & Hr). exists r, td'. done.
Qed.

(** ** Witnesses *)

(** A kernel that answers every call with the same number, with error 5. *)
Definition answering : Type := Z.

#[export] Instance answering_kernel : Kernel answering := {|
  sys_lseek _ _ k := ((k, 5), k); sys_read _ _ k := ((k, 5), k);
  sys_write _ _ k := ((k, 5), k); sys_pread _ _ _ k := ((k, 5), k);
  sys_pwrite _ _ _ k := ((k, 5), k); sys_preadv _ _ _ _ k := ((k, 5), k);
  sys_pwritev _ _ _ _ k := ((k, 5), k); sys_readv _ _ k := ((k, 5), k);
  sys_writev _ _ k := ((k, 5), k); sys_nvme _ _ k := ((k, 5), k);
  sys_fsync _ k := ((k, 5), k); sys_fdatasync _ k := ((k, 5), k);
  sys_sync_range _ _ _ _ k := ((k, 5), k); sys_trim _ _ _ k := (k, k); sys_rand k := (k, k)
|}.

Definition unit0 : io_u := IoU DDIR_READ 0 8192 0 4096 0 0.
Definition file0 : fio_file := FioFile 3 8192 0 0.

(** A thread with one unit and one file, queue depth 4. *)
Definition thread0 (k : answering) : thread answering :=
  fio_vsyncio_init (Thread (Options 4 true true false 0 false 0 false false)
    {[ 0%nat := file0 ]} {[ 0%nat := unit0 ]} (SyncioData [] [] 0 0 0 0 None DDIR_READ) 0 0 k).

(** The same with one write. *)
Definition write_unit : io_u := IoU DDIR_WRITE 0 8192 0 4096 0 0.
Definition write_thread (k : answering) : thread answering :=
  fio_vsyncio_init (Thread (Options 4 true true false 0 false 0 false false)
    {[ 0%nat := file0 ]} {[ 0%nat := write_unit ]} (SyncioData [] [] 0 0 0 0 None DDIR_READ) 0 0 k).

Lemma psync_read_completes_witness :
  exists td', fio_psyncio_queue 0 (thread0 1000) = Some (FIO_Q_COMPLETED, td') /\
    ious td' !! 0%nat = Some (set_result unit0 3096 0).
Proof.
  destruct (psync_read_completes (thread0 1000) 0 unit0 file0 1000 5 1000)
    as (td' & E & _ & Hi & _).
  - reflexivity.
  - reflexivity.
  - reflexivity.
  - cbn. lia.
  - reflexivity.
  - cbn. lia.
  - exists td'. split; [exact E|]. rewrite Hi. reflexivity.
Defined.

Lemma ispsync_read_outcomes_witness :
  exists td', fio_ispsyncio_queue 0 (thread0 1) = Some (FIO_Q_COMPLETED, td') /\
    ious td' = ious (thread0 1) /\ td_error td' = 0.
Proof.
  destruct (ispsync_read_outcomes (thread0 1) 0 unit0 file0 1 5 1)
    as (td' & E & _ & _ & _ & _ & Hl).
  - reflexivity.
  - reflexivity.
  - reflexivity.
  - cbn. lia.
  - reflexivity.
  - reflexivity.
  - exists td'. split; [exact E|]. apply Hl; [lia|reflexivity].
Defined.

Lemma sync_prep_positions_witness :
  fio_syncio_prep 0 (thread0 7) = Some (0, thread0 7).
Proof.
  apply (sync_prep_positions (thread0 7) 0 unit0 file0 (IoU DDIR_READ 0 4096 0 4096 0 0) 4096).
  - reflexivity.
  - reflexivity.
  - reflexivity.
  - reflexivity.
  - lia.
  - vm_compute. discriminate.
  - reflexivity.
Defined.

Lemma ispsync_write_dropped_witness :
  exists td', fio_ispsyncio_queue 0 (write_thread 7) = Some (FIO_Q_COMPLETED, td') /\
    kern td' = 7 /\ ious td' !! 0%nat = Some write_unit /\ td_error td' = 0.
Proof.
  destruct (ispsync_write_dropped (write_thread 7) 0 write_unit file0) as [H _].
  - reflexivity.
  - reflexivity.
  - reflexivity.
  - cbn. lia.
  - destruct H as (td' & E & Hk & _ & Hi & Ht); [reflexivity|].
    exists td'. split; [exact E|]. split; [exact Hk|]. rewrite Hi, Ht. split; reflexivity.
Defined.

Lemma vsync_queue_batches_witness :
  exists td', fio_vsyncio_queue 0 (thread0 7) = Some (FIO_Q_QUEUED, td') /\ batch td' [0%nat].
Proof.
  destruct (vsync_queue_batches (thread0 7) 0 unit0 []) as (Hinit & Hq).
  - cbn. lia.
  - reflexivity.
  - reflexivity.
  - reflexivity.
  - destruct Hq as [(td' & E & Hb & _)|[_ Hne]].
    + exact Hinit.
    + exists td'. split; [exact E|exact Hb].
    + by destruct Hne.
Defined.

Lemma vsync_commit_loses_outcome_witness :
  exists td r td', fio_vsyncio_queue 0 (thread0 7) = Some (FIO_Q_QUEUED, td) /\
    fio_vsyncio_commit td = Some (r, td') /\ ious td' = ious td /\ td_error td' = 0.
Proof.
  destruct (vsync_queue_cases 0 (thread0 7) unit0 [] ) as [(td & E & Hb & Hk & Hi)|[_ Hne]].
  - split; cbn; rewrite ?length_replicate; try done; by intros [].
  - cbn. lia.
  - reflexivity.
  - reflexivity.
  - reflexivity.
  - exists td. vm_compute in E. injection E as <-.
    edestruct (vsync_commit_loses_outcome _ 0%nat [] unit0 file0 7 5 7 5 7 7 Hb)
      as (r & td' & Ec & _ & _ & _ & Hio & Hr).
    + reflexivity.
    + reflexivity.
    + reflexivity.
    + lia.
    + reflexivity.
    + exists r, td'. split; [vm_compute; reflexivity|]. split; [exact Ec|]. split; [exact Hio|].
      apply Hr. lia.
  - by destruct Hne.
Defined.

(** ** A whole cycle of the vsync engine: queue, commit, reap

    fio hands an engine one unit at a time, asks it to commit, and then reaps
    the completed units with [getevents] and [event].  For a run of adjacent
    units the cycle is proved as a whole: one seek, one vectored call for the
    buffers in order, and the units come back in the order they were queued. *)

Open Scope string_scope.
Open Scope list_scope.

Section cycle.
Context {K : Type} `{Kernel K}.
Implicit Types (td : thread K) (u : io_u).

(** Queue the units one after the other; the statuses and the final state. *)
Fixpoint queue_all (ids : list nat) td : option (list fio_q_status * thread K) :=
  match ids with
  | [] => Some ([], td)
  | id :: ids' =>
      '(q, td) ← fio_vsyncio_queue id td;
      '(qs, td) ← queue_all ids' td;
      Some (q :: qs, td)
  end.

(** Unit [u'] continues [u]: same file and direction, next byte. *)
Definition follows u u' : Prop :=
  file u' = file u /\ ddir u' = ddir u /\ offset u' = u64 (offset u + xfer_buflen u).

(** The job may issue the unit, and it is not a sync. *)
Definition issuable td (id : nat) : Prop :=
  exists u, ious td !! id = Some u /\ fio_ro_check u td = true /\ ddir_sync (ddir u) = false.

(** A run of adjacent units. *)
Record adjacent td (ids : list nat) : Prop := {
  adj_units : forall id, id ∈ ids -> issuable td id;
  adj_chain : forall i id id' u u', ids !! i = Some id -> ids !! S i = Some id' ->
    ious td !! id = Some u -> ious td !! id' = Some u' -> follows u u'
}.

(** A unit that continues the batch is queued while there is room. *)
Lemma vsync_queue_next id td u ids :
  batch td ids -> (length ids < iodepth (o td))%nat -> ious td !! id = Some u ->
  fio_ro_check u td = true -> ddir_sync (ddir u) = false ->
  (forall last_id ul, last ids = Some last_id -> ious td !! last_id = Some ul -> follows ul u) ->
  exists s, fio_vsyncio_queue id td = Some (FIO_Q_QUEUED, set_sd s td) /\
    batch (set_sd s td) (ids ++ [id]).
Proof.
  intros Hb Hroom Hu Hro Hs Hlast.
  assert (Happ : ids <> [] -> fio_vsyncio_append u (sd td) = true).
  { intros Hne. destruct (last ids) as [l|] eqn:El; [|by apply last_None in El].
    rewrite last_lookup in El. destruct (b_iov _ _ Hb _ _ El) as (ul & Hul & _ & Hf & Hd & _).
    rewrite <- last_lookup in El. destruct (Hlast l ul eq_refl Hul) as (Ef & Ed & Eo).
    unfold fio_vsyncio_append. rewrite Hs, (b_last _ _ Hb l ul El Hul), Hf, Hd, Ef, Ed, Eo.
    by rewrite !bool_decide_true. }
  destruct (vsync_queue_cases id td u ids Hb) as [(td' & E & Hb' & _)|[E Hne]];
    [lia|done..| |].
  - revert E Hb'. unfold fio_vsyncio_queue. rewrite Hu. cbn [mbind option_bind]. rewrite Hro, Hs.
    cbn [negb]. repeat case_match; try done; intros E Hb';
      (destruct (fio_vsyncio_set_iov _ _ _ _) as [s|]; [|done]);
      injection E as <-; eauto.
  - revert E. unfold fio_vsyncio_queue. rewrite Hu. cbn [mbind option_bind]. rewrite Hro.
    rewrite (Happ Hne). cbn [negb]. rewrite (b_queued _ _ Hb), decide_False by lia.
    by destruct (fio_vsyncio_set_iov _ _ _ _).
Qed.

Lemma queue_all_batch ids td done_ids :
  batch td done_ids -> adjacent td (done_ids ++ ids) ->
  (length (done_ids ++ ids) <= iodepth (o td))%nat ->
  exists s, queue_all ids td = Some (replicate (length ids) FIO_Q_QUEUED, set_sd s td) /\
    batch (set_sd s td) (done_ids ++ ids).
Proof.
  revert td done_ids. induction ids as [|id ids IH]; intros td done_ids Hb Hadj Hlen.
  - exists (sd td). rewrite app_nil_r. cbn. by destruct td.
  - destruct (adj_units _ _ Hadj id) as (u & Hu & Hro & Hs); [set_solver|].
    destruct (vsync_queue_next id td u done_ids Hb) as (s1 & E1 & Hb1); [|done..| |].
    { rewrite length_app in Hlen. simpl in Hlen. lia. }
    { intros l ul Hl Hul. eapply (adj_chain _ _ Hadj (Nat.pred (length done_ids)) l id ul u);
        [| |done|done]; rewrite last_lookup in Hl; apply lookup_lt_Some in Hl as Hlt.
      - by rewrite lookup_app_l.
      - rewrite lookup_app_r by lia.
        by replace (S (Nat.pred (length done_ids)) - length done_ids)%nat with 0%nat by lia. }
    destruct (IH (set_sd s1 td) (done_ids ++ [id]) Hb1) as (s2 & E2 & Hb2).
    { rewrite <- app_assoc. destruct Hadj as [Ha1 Ha2]. by split. }
    { by rewrite <- app_assoc. }
    exists s2. rewrite <- app_assoc in Hb2. cbn. rewrite E1. cbn. rewrite E2. by split.
Qed.
End cycle.

(** C36: a whole cycle.  From an empty batch, any run of adjacent units that
    fits the queue depth is accepted unit by unit without a system call; the
    commit seeks to the first unit and makes one vectored call for the buffers
    in order; [getevents] then reports as many events as units were queued,
    [event] hands the units back in the order they were queued, and the engine
    is ready for the next batch. *)
Theorem vsync_cycle {K : Type} `{Kernel K} (td : thread K) (id0 : nat) (ids : list nat)
    (u0 : io_u) (f : fio_file) (pos e1 ret e2 : Z) (k1 k2 : K) :
  batch td [] -> adjacent td (id0 :: ids) -> (length (id0 :: ids) <= iodepth (o td))%nat ->
  ious td !! id0 = Some u0 -> files td !! file u0 = Some f ->
  sys_lseek (f_fd f) (offset u0) (kern td) = ((pos, e1), k1) -> pos <> -1 ->
  (if decide (ddir u0 = DDIR_READ) then sys_readv else sys_writev)
    (f_fd f) (batch_iov td (id0 :: ids)) k1 = ((ret, e2), k2) ->
  exists td1 r td2 td3,
    queue_all (id0 :: ids) td = Some (replicate (length (id0 :: ids)) FIO_Q_QUEUED, td1) /\
    kern td1 = kern td /\
    fio_vsyncio_commit td1 = Some (r, td2) /\ kern td2 = k2 /\
    fio_vsyncio_getevents 1 td2 = (length (id0 :: ids), td3) /\
    (forall i, (i < length (id0 :: ids))%nat -> fio_vsyncio_event i td3 = (id0 :: ids) !! i) /\
    batch td3 [].
Proof.
  intros Hb Hadj Hlen Hu Hf El Hpos Er.
  destruct (queue_all_batch (id0 :: ids) td [] Hb Hadj Hlen) as (s & Eq & Hb1).
  pose proof (vsync_commit_spec (set_sd s td) id0 ids u0 f Hb1 Hu Hf) as Hc.
  cbn [set_sd kern] in Hc. rewrite El in Hc. specialize (Hc Hpos).
  change (batch_iov (set_sd s td) (id0 :: ids)) with (batch_iov td (id0 :: ids)) in Hc.
  rewrite Er in Hc. destruct Hc as (r & td2 & E & _ & Hk & Hb2 & Hev & Hus & _).
  exists (set_sd s td), r, td2.
  eexists. split_and!; [exact Eq|done|exact E|exact Hk| | |].
  - unfold fio_vsyncio_getevents. rewrite decide_True by lia. by rewrite Hev.
  - intros i Hi. unfold fio_vsyncio_event. cbn [set_sd sd io_us]. rewrite Hus.
    pose proof (b_ids _ _ Hb1) as Eids. cbn [app] in Eids. cbn [set_sd sd].
    rewrite <- (lookup_take_lt (io_us s) (length (id0 :: ids)) i Hi). exact (f_equal (.!! i) Eids).
  - destruct Hb2 as [H1 H2 H3 H4 H5 H6 H7]. by split.
Qed.

(** Two units, one after the other. *)
Definition unit1 : io_u := IoU DDIR_READ 0 12288 4096 4096 0 0.
Definition pair_thread : thread answering :=
  fio_vsyncio_init (Thread (Options 4 true true false 0 false 0 false false)
    {[ 0%nat := file0 ]} {[ 0%nat := unit0; 1%nat := unit1 ]}
    (SyncioData [] [] 0 0 0 0 None DDIR_READ) 0 0 8192).

Lemma pair_adjacent : adjacent pair_thread [0%nat; 1%nat].
Proof.
  split.
  - intros id Hid. rewrite !elem_of_cons in Hid. destruct Hid as [->|[->|[]%elem_of_nil]].
    + exists unit0. done.
    + exists unit1. done.
  - intros [|[|i]] id id' u u' H1 H2 Hu Hu'; try done.
    injection H1 as <-. injection H2 as <-. vm_compute in Hu, Hu'.
    injection Hu as <-. injection Hu' as <-. done.
Qed.

Lemma vsync_cycle_witness :
  exists td1 r td2 td3,
    queue_all [0%nat; 1%nat] pair_thread = Some ([FIO_Q_QUEUED; FIO_Q_QUEUED], td1) /\
    fio_vsyncio_commit td1 = Some (r, td2) /\
    fio_vsyncio_getevents 1 td2 = (2%nat, td3) /\ fio_vsyncio_event 1 td3 = Some 1%nat.
Proof.
  destruct (vsync_cycle pair_thread 0 [1%nat] unit0 file0 8192 5 8192 5 8192 8192)
    as (td1 & r & td2 & td3 & E1 & _ & E2 & _ & E3 & Hev & _).
  - split; try reflexivity; by intros [].
  - apply pair_adjacent.
  - cbn. lia.
  - reflexivity.
  - reflexivity.
  - reflexivity.
  - lia.
  - reflexivity.
  - exists td1, r, td2, td3. split; [exact E1|]. split; [exact E2|]. split; [exact E3|].
    rewrite Hev by (cbn; lia). reflexivity.
Defined.
