(* ===== verification/Bits.v ===== *)
(** * Bits of machine words, and fio's bit helpers (src/fio/lib/ffz.h, pow2.h)

    Words are [Z] values below [2^64]; their bits are [Z.testbit].  The lemmas
    reduce the operations the data structures use (and, or, complement, shifts,
    masks of low ones) to statements about single bits. *)

From Stdlib Require Import Btauto.
From S2P Require Import Prelude.

Definition word64 (z : Z) : Prop := 0 <= z < 2 ^ 64.

(** [~x] on [uint64_t]. *)
Definition lnot64 (x : Z) : Z := u64 (Z.lnot x).

(** ** ffz.h *)

(** The index of the lowest set bit, by halving. *)
Definition ffs64 (word : Z) : Z :=
  let '(r, word) := if decide (Z.land word 0xffffffff = 0)
                    then (32, Z.shiftr word 32) else (0, word) in
  let '(r, word) := if decide (Z.land word 0xffff = 0)
                    then (r + 16, Z.shiftr word 16) else (r, word) in
  let '(r, word) := if decide (Z.land word 0xff = 0)
                    then (r + 8, Z.shiftr word 8) else (r, word) in
  let '(r, word) := if decide (Z.land word 0xf = 0)
                    then (r + 4, Z.shiftr word 4) else (r, word) in
  let '(r, word) := if decide (Z.land word 3 = 0)
                    then (r + 2, Z.shiftr word 2) else (r, word) in
  if decide (Z.land word 1 = 0) then r + 1 else r.

(** The portable [ffz] and [ffz64]. *)
Definition ffz (bitmask : Z) : Z := ffs64 (lnot64 bitmask).
Definition ffz64 (bitmask : Z) : Z := ffs64 (lnot64 bitmask).

(** ** pow2.h *)

Definition is_power_of_2 (val : Z) : bool :=
  bool_decide (val <> 0 /\ Z.land val (u64 (val - 1)) = 0).

Lemma pow2_log2 v : 0 < v < 2 ^ 64 -> is_power_of_2 v = true -> v = 2 ^ Z.log2 v.
Proof.
  intros Hv H. unfold is_power_of_2 in H. apply bool_decide_eq_true in H as [_ H].
  rewrite wrapu_small in H by lia. pose proof (Z.log2_spec v ltac:(lia)) as [Hlo Hhi].
  set (k := Z.log2 v) in *. destruct (decide (v = 2 ^ k)) as [|Hne]; [done|exfalso].
  assert (Hk : 0 <= k) by apply Z.log2_nonneg.
  assert (Hb : Z.testbit (Z.land v (v - 1)) k = true); [|by rewrite H, Z.bits_0 in Hb].
  rewrite Z.land_spec. apply andb_true_iff. split; [apply Z.bit_log2; lia|].
  assert (Hl : Z.log2 (v - 1) = k) by (apply Z.log2_unique; [done|lia]).
  rewrite <- Hl. apply Z.bit_log2. pose proof (Z.pow_pos_nonneg 2 k). lia.
Qed.

(** ** Single bits *)

Lemma testbit_wrapu w x i :
  0 <= w -> 0 <= i -> Z.testbit (wrapu w x) i = bool_decide (i < w) && Z.testbit x i.
Proof.
  intros Hw Hi. unfold wrapu. destruct (decide (i < w)) as [Hlt|Hge].
  - rewrite Z.mod_pow2_bits_low by lia. by rewrite bool_decide_true.
  - rewrite Z.mod_pow2_bits_high by lia. by rewrite bool_decide_false.
Qed.

Lemma testbit_lnot64 x i :
  0 <= i -> Z.testbit (lnot64 x) i = bool_decide (i < 64) && negb (Z.testbit x i).
Proof.
  intros Hi. unfold lnot64. rewrite testbit_wrapu by lia. by rewrite Z.lnot_spec.
Qed.

Lemma testbit_ones n i :
  0 <= n -> 0 <= i -> Z.testbit (Z.ones n) i = bool_decide (i < n).
Proof.
  intros Hn Hi. destruct (decide (i < n)).
  - rewrite Z.ones_spec_low by lia. by rewrite bool_decide_true.
  - rewrite Z.ones_spec_high by lia. by rewrite bool_decide_false.
Qed.

(** A run of [n] ones starting at bit [b]. *)
Lemma testbit_run n b i :
  0 <= n -> 0 <= b -> 0 <= i ->
  Z.testbit (Z.shiftl (Z.ones n) b) i = bool_decide (b <= i < b + n).
Proof.
  intros Hn Hb Hi. rewrite Z.shiftl_spec by done. destruct (decide (i < b)).
  - rewrite Z.testbit_neg_r by lia. by rewrite bool_decide_false by lia.
  - rewrite testbit_ones by lia. apply bool_decide_ext. lia.
Qed.

Lemma testbit_pow2 b i : 0 <= b -> Z.testbit (2 ^ b) i = bool_decide (i = b).
Proof.
  intros Hb. rewrite Z.pow2_bits_eqb by done.
  destruct (decide (i = b)) as [->|Hne].
  - by rewrite Z.eqb_refl, bool_decide_true.
  - rewrite bool_decide_false by done. apply Z.eqb_neq. congruence.
Qed.

Lemma word64_bits_high x i : word64 x -> 64 <= i -> Z.testbit x i = false.
Proof.
  intros Hx Hi. destruct (decide (x = 0)) as [->|Hne]; [apply Z.bits_0|].
  unfold word64 in Hx. apply Z.bits_above_log2; [lia|].
  assert (Z.log2 x < 64) by (apply Z.log2_lt_pow2; lia). lia.
Qed.

(** Words are equal when their 64 bits are. *)
Lemma word64_ext x y :
  word64 x -> word64 y -> (forall i, 0 <= i < 64 -> Z.testbit x i = Z.testbit y i) -> x = y.
Proof.
  intros Hx Hy H. apply Z.bits_inj'. intros i Hi. destruct (decide (i < 64)); [apply H; lia|].
  rewrite !word64_bits_high by (done || lia). done.
Qed.

(** A number with no bit above position 63 is a word. *)
Lemma word64_intro x : 0 <= x -> (forall i, 64 <= i -> Z.testbit x i = false) -> word64 x.
Proof.
  intros Hx H. split; [done|]. destruct (decide (x = 0)) as [->|Hne]; [lia|].
  apply Z.log2_lt_pow2; [lia|]. destruct (decide (Z.log2 x < 64)) as [|Hge]; [done|].
  pose proof (Z.bit_log2 x ltac:(lia)) as Hb. rewrite H in Hb by lia. done.
Qed.

Lemma word64_u64 x : word64 (u64 x).
Proof. apply wrapu_range. lia. Qed.
Lemma word64_lnot64 x : word64 (lnot64 x).
Proof. apply word64_u64. Qed.

Lemma word64_lor x y : word64 x -> word64 y -> word64 (Z.lor x y).
Proof.
  intros Hx Hy. apply word64_intro; [apply Z.lor_nonneg; unfold word64 in *; lia|].
  intros i Hi. by rewrite Z.lor_spec, !word64_bits_high.
Qed.

Lemma word64_land_l x y : word64 x -> word64 (Z.land x y).
Proof.
  intros Hx. apply word64_intro; [apply Z.land_nonneg; unfold word64 in *; lia|].
  intros i Hi. by rewrite Z.land_spec, (word64_bits_high x).
Qed.

Lemma word64_land_r x y : word64 y -> word64 (Z.land x y).
Proof. rewrite Z.land_comm. apply word64_land_l. Qed.

Lemma word64_0 : word64 0.
Proof. unfold word64. lia. Qed.

Lemma word64_full : word64 (2 ^ 64 - 1).
Proof. unfold word64. lia. Qed.

Create HintDb bits.
#[export] Hint Resolve word64_u64 word64_lnot64 word64_lor word64_land_l word64_land_r
  word64_0 word64_full : bits.

Lemma testbit_full i : 0 <= i < 64 -> Z.testbit (2 ^ 64 - 1) i = true.
Proof.
  intros Hi. change (2 ^ 64 - 1) with (Z.ones 64). by apply Z.ones_spec_low.
Qed.

(** A word is zero, or full, exactly when all its bits are clear, or set. *)
Lemma word64_zero_iff x :
  word64 x -> x = 0 <-> (forall i, 0 <= i < 64 -> Z.testbit x i = false).
Proof.
  intros Hx. split; [intros -> i _; apply Z.bits_0|].
  intros H. apply word64_ext; [done|apply word64_0|]. intros i Hi. by rewrite Z.bits_0, H.
Qed.

Lemma word64_full_iff x :
  word64 x -> x = 2 ^ 64 - 1 <-> (forall i, 0 <= i < 64 -> Z.testbit x i = true).
Proof.
  intros Hx. split; [intros -> i Hi; by apply testbit_full|].
  intros H. apply word64_ext; [done|apply word64_full|]. intros i Hi. by rewrite testbit_full, H.
Qed.

Lemma word64_nonzero_bit x :
  word64 x -> x <> 0 -> exists i, 0 <= i < 64 /\ Z.testbit x i = true.
Proof.
  intros Hx Hne. exists (Z.log2 x). unfold word64 in Hx. split.
  - split; [apply Z.log2_nonneg|]. apply Z.log2_lt_pow2; lia.
  - apply Z.bit_log2. lia.
Qed.

(** Numbers of [n] bits. *)
Lemma bits_bound n x :
  0 <= n -> (0 <= x < 2 ^ n) <-> (0 <= x /\ forall i, n <= i -> Z.testbit x i = false).
Proof.
  intros Hn. split; intros [Hx H]; (split; [done|]).
  - intros i Hi. destruct (decide (x = 0)) as [->|Hne]; [apply Z.bits_0|].
    apply Z.bits_above_log2; [done|]. assert (Z.log2 x < n) by (apply Z.log2_lt_pow2; lia). lia.
  - destruct (decide (x = 0)) as [->|Hne]; [apply Z.pow_pos_nonneg; lia|].
    apply Z.log2_lt_pow2; [lia|]. destruct (decide (Z.log2 x < n)) as [|Hge]; [done|].
    pose proof (Z.bit_log2 x ltac:(lia)) as Hb. rewrite H in Hb by lia. done.
Qed.

Lemma lxor_bound n a b : 0 <= n -> 0 <= a < 2 ^ n -> 0 <= b < 2 ^ n -> 0 <= Z.lxor a b < 2 ^ n.
Proof.
  intros Hn [Ha0 Ha]%bits_bound [Hb0 Hb]%bits_bound; [|done|done]. apply bits_bound; [done|].
  split; [apply Z.lxor_nonneg; tauto|]. intros i Hi. by rewrite Z.lxor_spec, Ha, Hb.
Qed.

(** ** The lowest set bit *)

Definition lowest (x i : Z) : Prop :=
  0 <= i /\ Z.testbit x i = true /\ forall j, 0 <= j < i -> Z.testbit x j = false.

Lemma lowest_unique x i j : lowest x i -> lowest x j -> i = j.
Proof.
  intros (Hi & Hti & Hbi) (Hj & Htj & Hbj).
  destruct (Z.lt_trichotomy i j) as [Hlt|[Heq|Hlt]]; [|done|].
  - rewrite Hbj in Hti by lia. done.
  - rewrite Hbi in Htj by lia. done.
Qed.

Lemma land_ones_zero x k j :
  0 <= k -> Z.land x (Z.ones k) = 0 -> 0 <= j < k -> Z.testbit x j = false.
Proof.
  intros Hk H Hj. apply (f_equal (fun z => Z.testbit z j)) in H.
  rewrite Z.land_spec, Z.bits_0, testbit_ones, bool_decide_true, andb_true_r in H by lia. done.
Qed.

(** One halving step. *)
Lemma lowest_shift x k i :
  0 <= k -> Z.land x (Z.ones k) = 0 -> lowest (Z.shiftr x k) i -> lowest x (i + k).
Proof.
  intros Hk H (Hi & Ht & Hb). rewrite Z.shiftr_spec in Ht by done. split_and!; [lia|done|].
  intros j Hj. destruct (decide (j < k)); [apply (land_ones_zero x k); [done|done|lia]|].
  rewrite <- (Hb (j - k)) by lia. rewrite Z.shiftr_spec by lia. f_equal. lia.
Qed.

(** [low_below x n]: the lowest set bit of [x] is below [n]. *)
Definition low_below (x n : Z) : Prop := exists i, 0 <= i < n /\ Z.testbit x i = true.

Lemma low_below_shift x k n :
  0 <= k -> low_below x n -> Z.land x (Z.ones k) = 0 -> low_below (Z.shiftr x k) (n - k).
Proof.
  intros Hk (i & Hi & Ht) H. assert (Hik : k <= i).
  { destruct (decide (i < k)); [|lia]. rewrite (land_ones_zero x k i) in Ht; [done|done|done|lia]. }
  exists (i - k). split; [lia|]. rewrite Z.shiftr_spec by lia. rewrite <- Ht. f_equal. lia.
Qed.

Lemma low_below_keep x k : 0 <= k -> Z.land x (Z.ones k) <> 0 -> low_below x k.
Proof.
  intros Hk Hne. destruct (decide (0 <= Z.land x (Z.ones k))) as [Hpos|Hneg].
  - exists (Z.log2 (Z.land x (Z.ones k))).
    assert (Hb : Z.testbit (Z.land x (Z.ones k)) (Z.log2 (Z.land x (Z.ones k))) = true)
      by (apply Z.bit_log2; lia).
    pose proof (Z.log2_nonneg (Z.land x (Z.ones k))) as Hl.
    rewrite Z.land_spec, testbit_ones in Hb by lia.
    apply andb_true_iff in Hb as [Hb1 Hb2]. apply bool_decide_eq_true in Hb2. done.
  - exfalso. apply Hneg, Z.land_nonneg. right. rewrite Z.ones_equiv.
    pose proof (Z.pow_pos_nonneg 2 k). lia.
Qed.

(** Where [ffs64] stands after some halvings: the lowest bit of [x] is the
    lowest bit of [w], which is below [n], plus [r]. *)
Definition halved (x n : Z) (s : Z * Z) : Prop :=
  low_below s.2 n /\ forall i, lowest s.2 i -> lowest x (i + s.1).

Lemma halved_step x k r w :
  0 < k -> halved x (2 * k) (r, w) ->
  halved x k (if decide (Z.land w (Z.ones k) = 0) then (r + k, Z.shiftr w k) else (r, w)).
Proof.
  intros Hk [Hlow Hlowest]. cbn [fst snd] in *. case_decide as E; split; cbn [fst snd].
  - replace k with (2 * k - k) at 2 by lia. apply low_below_shift; [lia|done|done].
  - intros i Hi. rewrite (Z.add_comm r), Z.add_assoc. apply Hlowest.
    apply lowest_shift; [lia|done|done].
  - apply low_below_keep; [lia|done].
  - done.
Qed.

(** [ffs64] of a word with a set bit is the position of the lowest one. *)
Lemma ffs64_lowest x : word64 x -> x <> 0 -> lowest x (ffs64 x).
Proof.
  intros Hx Hne. unfold ffs64.
  assert (H0 : halved x (2 * 32) (0, x)).
  { split; [by apply word64_nonzero_bit|]. intros i. by rewrite Z.add_0_r. }
  apply halved_step in H0; [|lia]. change (Z.ones 32) with 0xffffffff in H0.
  cbn [Z.add] in H0. destruct (if decide (Z.land x 0xffffffff = 0) then _ else _) as [r1 w1].
  apply (halved_step x 16) in H0; [|lia]. change (Z.ones 16) with 0xffff in H0.
  destruct (if decide (Z.land w1 0xffff = 0) then _ else _) as [r2 w2].
  apply (halved_step x 8) in H0; [|lia]. change (Z.ones 8) with 0xff in H0.
  destruct (if decide (Z.land w2 0xff = 0) then _ else _) as [r3 w3].
  apply (halved_step x 4) in H0; [|lia]. change (Z.ones 4) with 0xf in H0.
  destruct (if decide (Z.land w3 0xf = 0) then _ else _) as [r4 w4].
  apply (halved_step x 2) in H0; [|lia]. change (Z.ones 2) with 3 in H0.
  destruct (if decide (Z.land w4 3 = 0) then _ else _) as [r5 w5].
  destruct H0 as [(i & Hi & Ht) Hlowest]. cbn [fst snd] in *.
  assert (Hb0 : Z.land w5 1 = 0 <-> Z.testbit w5 0 = false).
  { change 1 with (Z.ones 1). rewrite Z.land_ones, Z.bit0_odd by lia. change (2 ^ 1) with 2.
    rewrite Zmod_odd. by destruct (Z.odd w5). }
  case_decide as E.
  - rewrite Z.add_comm. apply Hlowest. assert (Hi1 : i = 1).
    { destruct (decide (i = 0)) as [->|]; [|lia]. rewrite (proj1 Hb0 E) in Ht. done. }
    subst i. split_and!; [lia|done|]. intros j Hj. replace j with 0 by lia. by apply Hb0.
  - rewrite <- (Z.add_0_l r5). apply Hlowest. split_and!; [lia| |lia].
    destruct (Z.testbit w5 0); [done|]. by destruct E; apply Hb0.
Qed.

(** [ffz] of a word that is not full is the position of its lowest clear bit. *)
Lemma ffz_spec x :
  word64 x -> x <> 2 ^ 64 - 1 ->
  0 <= ffz x < 64 /\ Z.testbit x (ffz x) = false /\
  forall j, 0 <= j < ffz x -> Z.testbit x j = true.
Proof.
  intros Hx Hne. assert (Hnz : lnot64 x <> 0).
  { intros E. apply Hne, word64_full_iff; [done|]. intros i Hi.
    apply (f_equal (fun z => Z.testbit z i)) in E.
    rewrite testbit_lnot64, Z.bits_0, bool_decide_true in E by lia. by destruct (Z.testbit x i). }
  destruct (ffs64_lowest _ (word64_lnot64 x) Hnz) as (Hi & Ht & Hb). fold (ffz x) in *.
  assert (Hlt : ffz x < 64).
  { destruct (decide (ffz x < 64)); [done|].
    by rewrite word64_bits_high in Ht by (apply word64_lnot64 || lia). }
  rewrite testbit_lnot64, bool_decide_true in Ht by lia.
  split_and!; [done|done|by destruct (Z.testbit x (ffz x))|].
  intros j Hj. specialize (Hb j Hj). rewrite testbit_lnot64, bool_decide_true in Hb by lia.
  by destruct (Z.testbit x j).
Qed.
