(* ===== verification/Gf2.v ===== *)
(** * Bit vectors as polynomials over the field of two elements

    Shift registers and cyclic redundancy codes are linear maps over bit
    vectors: they commute with exclusive or. *)

From Stdlib Require Import Btauto.
From S2P Require Import Prelude Bits.

Open Scope Z_scope.

Definition linear (f : Z -> Z) : Prop := forall a b, f (Z.lxor a b) = Z.lxor (f a) (f b).

Lemma linear_0 f : linear f -> f 0 = 0.
Proof. intros Hf. rewrite <- (Z.lxor_nilpotent 0) at 1. by rewrite Hf, Z.lxor_nilpotent. Qed.

Definition bounded (f : Z -> Z) (n : nat) : Prop :=
  forall w, 0 <= w < 2 ^ Z.of_nat n -> 0 <= f w < 2 ^ Z.of_nat n.

(** One step of a register that shifts right: the mask is added when a one
    falls out. *)
Definition gstep (m w : Z) : Z := Z.lxor (Z.shiftr w 1) (if Z.odd w then m else 0).

Lemma gstep_linear m : linear (gstep m).
Proof.
  intros a b. unfold gstep. rewrite Z.shiftr_lxor.
  rewrite <- !Z.bit0_odd, Z.lxor_spec. apply Z.bits_inj'. intros i _. rewrite !Z.lxor_spec.
  destruct (Z.testbit a 0), (Z.testbit b 0); simpl; rewrite ?Z.bits_0; btauto.
Qed.

Lemma gstep_bounded m n : 0 <= m < 2 ^ Z.of_nat n -> bounded (gstep m) n.
Proof.
  intros Hm w Hw. apply bits_bound in Hm as [Hm0 Hm]; [|lia]. apply bits_bound in Hw as [Hw0 Hw]; [|lia].
  apply bits_bound; [lia|]. unfold gstep. split.
  - apply Z.lxor_nonneg. rewrite Z.shiftr_nonneg. destruct (Z.odd w); lia.
  - intros i Hi. rewrite Z.lxor_spec, Z.shiftr_spec, Hw by lia.
    destruct (Z.odd w); [by rewrite Hm|by rewrite Z.bits_0].
Qed.


Lemma linear_iter f k : linear f -> linear (Nat.iter k f).
Proof. intros Hf. induction k as [|k IH]; intros a b; simpl; [done|]. by rewrite IH, Hf. Qed.

(** Bits that have not reached the end are only shifted. *)
Lemma gstep_shift m k x : 0 <= x -> Nat.iter k (gstep m) (Z.shiftl x (Z.of_nat k)) = x.
Proof.
  revert x. induction k as [|k IH]; intros x Hx; [apply Z.shiftl_0_r|].
  rewrite Nat.iter_succ_r. rewrite <- (IH x) at 2 by done. f_equal. unfold gstep.
  assert (Ho : Z.odd (Z.shiftl x (Z.of_nat (S k))) = false).
  { rewrite <- Z.bit0_odd, Z.shiftl_spec by done. apply Z.testbit_neg_r. lia. }
  rewrite Ho, Z.lxor_0_r. rewrite Z.shiftr_shiftl_l by lia. f_equal. lia.
Qed.

(** One step of a register of [w] bits that shifts left. *)
Definition mstep (w m c : Z) : Z :=
  Z.lxor (wrapu w (Z.shiftl c 1)) (if Z.testbit c (w - 1) then m else 0).

Lemma wrapu_lxor w a b : 0 <= w -> wrapu w (Z.lxor a b) = Z.lxor (wrapu w a) (wrapu w b).
Proof.
  intros Hw. apply Z.bits_inj'. intros i Hi. rewrite Z.lxor_spec, !testbit_wrapu, Z.lxor_spec by done.
  btauto.
Qed.

Lemma mstep_linear w m : 0 <= w -> linear (mstep w m).
Proof.
  intros Hw a b. unfold mstep. rewrite Z.shiftl_lxor, wrapu_lxor, Z.lxor_spec by done.
  apply Z.bits_inj'. intros i _. rewrite !Z.lxor_spec.
  destruct (Z.testbit a (w - 1)), (Z.testbit b (w - 1)); simpl; rewrite ?Z.bits_0; btauto.
Qed.

Lemma mstep_shift w m k x :
  0 <= x -> Z.of_nat k <= w -> x < 2 ^ (w - Z.of_nat k) ->
  Nat.iter k (mstep w m) x = Z.shiftl x (Z.of_nat k).
Proof.
  intros Hx. induction k as [|k IH]; intros Hk Hlt; [symmetry; apply Z.shiftl_0_r|]. simpl.
  rewrite IH; [|lia|eapply Z.lt_le_trans; [exact Hlt|apply Z.pow_le_mono_r; lia]].
  unfold mstep.
  assert (Hx' : Z.shiftl x (Z.of_nat (S k)) < 2 ^ w).
  { rewrite Z.shiftl_mul_pow2 by lia. replace w with ((w - Z.of_nat (S k)) + Z.of_nat (S k)) at 1 by lia.
    rewrite Z.pow_add_r by lia. apply Z.mul_lt_mono_pos_r; [apply Z.pow_pos_nonneg; lia|done]. }
  assert (Hb : Z.testbit (Z.shiftl x (Z.of_nat k)) (w - 1) = false).
  { rewrite Z.shiftl_spec by lia.
    destruct (proj1 (bits_bound (w - Z.of_nat (S k)) x ltac:(lia)) ltac:(lia)) as [_ Hb]. apply Hb. lia. }
  rewrite Hb, Z.lxor_0_r, Z.shiftl_shiftl by lia.
  replace (Z.of_nat k + 1) with (Z.of_nat (S k)) by lia. apply wrapu_small.
  split; [by apply Z.shiftl_nonneg|done].
Qed.

(** The linear step loses nothing: the top bit tells which way it went. *)
Lemma gstep_injective n m a b :
  1 <= n -> Z.testbit m (n - 1) = true -> 0 <= a < 2 ^ n -> 0 <= b < 2 ^ n ->
  gstep m a = gstep m b -> a = b.
Proof.
  intros Hn Ht Ha Hb E. apply bits_bound in Ha as [Ha0 Ha]; [|lia].
  apply bits_bound in Hb as [Hb0 Hb]; [|lia].
  assert (Hbits : forall w i, 0 <= i -> Z.testbit (gstep m w) i =
                    xorb (Z.testbit w (i + 1)) (Z.testbit w 0 && Z.testbit m i)).
  { intros w i Hi. unfold gstep. rewrite Z.lxor_spec, Z.shiftr_spec, <- Z.bit0_odd by done.
    destruct (Z.testbit w 0); [done|by rewrite Z.bits_0]. }
  assert (H0 : Z.testbit a 0 = Z.testbit b 0).
  { pose proof (f_equal (fun z => Z.testbit z (n - 1)) E) as H. cbn beta in H.
    rewrite !Hbits, Ha, Hb, Ht, !andb_true_r in H by lia. by rewrite !Bool.xorb_false_l in H. }
  apply Z.bits_inj'. intros i Hi. destruct (decide (i = 0)) as [->|]; [done|].
  pose proof (f_equal (fun z => Z.testbit z (i - 1)) E) as H. cbn beta in H.
  rewrite !Hbits, H0 in H by lia. replace (i - 1 + 1) with i in H by lia.
  by destruct (Z.testbit a i), (Z.testbit b i), (Z.testbit b 0 && Z.testbit m (i - 1)).
Qed.

(** The same for a register that shifts left: the lowest bit tells. *)
Lemma mstep_injective w m a b :
  1 <= w -> Z.testbit m 0 = true -> 0 <= a < 2 ^ w -> 0 <= b < 2 ^ w ->
  mstep w m a = mstep w m b -> a = b.
Proof.
  intros Hw Hm Ha Hb E. apply bits_bound in Ha as [Ha0 Ha]; [|lia]. apply bits_bound in Hb as [Hb0 Hb]; [|lia].
  assert (Hbits : forall x i, 0 <= i < w -> Z.testbit (mstep w m x) i =
                    xorb (Z.testbit x (i - 1)) (Z.testbit x (w - 1) && Z.testbit m i)).
  { intros x i Hi. unfold mstep. rewrite Z.lxor_spec, testbit_wrapu, bool_decide_true, Z.shiftl_spec by lia.
    cbn [andb]. destruct (Z.testbit x (w - 1)); [done|]. by rewrite Z.bits_0. }
  assert (Htop : Z.testbit a (w - 1) = Z.testbit b (w - 1)).
  { pose proof (f_equal (fun z => Z.testbit z 0) E) as H. cbn beta in H.
    rewrite !Hbits, Hm, !andb_true_r, !(Z.testbit_neg_r _ (0 - 1)) in H by lia.
    by rewrite !Bool.xorb_false_l in H. }
  apply Z.bits_inj'. intros i Hi. destruct (decide (i < w)) as [Hlt|]; [|by rewrite Ha, Hb by lia].
  destruct (decide (i = w - 1)) as [->|]; [done|].
  pose proof (f_equal (fun z => Z.testbit z (i + 1)) E) as H. cbn beta in H.
  rewrite !Hbits, Htop in H by lia. replace (i + 1 - 1) with i in H by lia.
  by destruct (Z.testbit a i), (Z.testbit b i), (Z.testbit b (w - 1) && Z.testbit m (i + 1)).
Qed.

Lemma mstep_bounded w m c : 0 <= w -> 0 <= m < 2 ^ w -> 0 <= mstep w m c < 2 ^ w.
Proof.
  intros Hw Hm. unfold mstep. apply lxor_bound; [done|by apply wrapu_range|].
  destruct (Z.testbit c (w - 1)); [done|]. split; [done|]. by apply Z.pow_pos_nonneg.
Qed.

(** Iterating keeps what every step keeps. *)
Lemma iter_inj (D : Z -> Prop) f k :
  (forall a, D a -> D (f a)) -> (forall a b, D a -> D b -> f a = f b -> a = b) ->
  (forall a, D a -> D (Nat.iter k f a)) /\
  forall a b, D a -> D b -> Nat.iter k f a = Nat.iter k f b -> a = b.
Proof.
  intros Hd Hi. induction k as [|k [IHd IHi]]; simpl; [done|]. split; [auto|].
  intros a b Ha Hb E. apply IHi; [done|done|]. apply Hi; auto.
Qed.
