(* ===== verification/Axmap.v ===== *)
(** * The bitmap of bitmaps (src/fio/lib/axmap.c)

    fio marks the blocks a random workload has already used in an axmap: level 0
    has one bit per block, and a set bit at level [N] says that the
    corresponding word of level [N - 1] is full.  The functions follow the
    source for 64-bit longs with the portable [ffz]; [None] is an access
    outside an array or a failed assertion. *)

From S2P Require Import Prelude Bits.

Open Scope Z_scope.

Definition UNIT_SHIFT : Z := 6.
Definition BLOCKS_PER_UNIT : Z := 64.
Definition BLOCKS_PER_UNIT_MASK : Z := 63.

(** The table of masks: entry [n] has the low [n] bits set. *)
Definition bit_masks : list Z :=
  [0x0000000000000000; 0x0000000000000001; 0x0000000000000003; 0x0000000000000007;
   0x000000000000000f; 0x000000000000001f; 0x000000000000003f; 0x000000000000007f;
   0x00000000000000ff; 0x00000000000001ff; 0x00000000000003ff; 0x00000000000007ff;
   0x0000000000000fff; 0x0000000000001fff; 0x0000000000003fff; 0x0000000000007fff;
   0x000000000000ffff; 0x000000000001ffff; 0x000000000003ffff; 0x000000000007ffff;
   0x00000000000fffff; 0x00000000001fffff; 0x00000000003fffff; 0x00000000007fffff;
   0x0000000000ffffff; 0x0000000001ffffff; 0x0000000003ffffff; 0x0000000007ffffff;
   0x000000000fffffff; 0x000000001fffffff; 0x000000003fffffff; 0x000000007fffffff;
   0x00000000ffffffff;
   0x00000001ffffffff; 0x00000003ffffffff; 0x00000007ffffffff; 0x0000000fffffffff;
   0x0000001fffffffff; 0x0000003fffffffff; 0x0000007fffffffff; 0x000000ffffffffff;
   0x000001ffffffffff; 0x000003ffffffffff; 0x000007ffffffffff; 0x00000fffffffffff;
   0x00001fffffffffff; 0x00003fffffffffff; 0x00007fffffffffff; 0x0000ffffffffffff;
   0x0001ffffffffffff; 0x0003ffffffffffff; 0x0007ffffffffffff; 0x000fffffffffffff;
   0x001fffffffffffff; 0x003fffffffffffff; 0x007fffffffffffff; 0x00ffffffffffffff;
   0x01ffffffffffffff; 0x03ffffffffffffff; 0x07ffffffffffffff; 0x0fffffffffffffff;
   0x1fffffffffffffff; 0x3fffffffffffffff; 0x7fffffffffffffff; 0xffffffffffffffff].

Record axmap_level := AxmapLevel { level : Z; map_size : Z; map_ : list Z }.

(** [nr_levels] is the number of elements of [levels]. *)
Record axmap := Axmap { levels : list axmap_level; nr_bits : Z }.

Definition nr_levels (m : axmap) : nat := length (levels m).

(** [a[i]] for an unsigned index. *)
Definition at_ {A} (l : list A) (i : Z) : option A :=
  if decide (0 <= i) then l !! Z.to_nat i else None.

Definition set_word (al : axmap_level) (offset w : Z) : axmap_level :=
  AxmapLevel (level al) (map_size al) (<[Z.to_nat offset := w]> (map_ al)).

(** ** Reset and allocation *)

Definition reset_level (al : axmap_level) : axmap_level :=
  AxmapLevel (level al) (map_size al) (replicate (Z.to_nat (map_size al)) 0).

Definition axmap_reset (m : axmap) : axmap :=
  Axmap (reset_level <$> levels m) (nr_bits m).

(** [(n + BLOCKS_PER_UNIT - 1) >> UNIT_SHIFT] at width [w]. *)
Definition units (w n : Z) : Z := Z.shiftr (wrapu w (n + BLOCKS_PER_UNIT - 1)) UNIT_SHIFT.

(** [while (i > 1) { i = units(i); levels++; }] on an [unsigned int]. *)
Fixpoint count_levels (fuel : nat) (i : Z) (lv : nat) : option nat :=
  if decide (1 < i) then
    match fuel with
    | O => None
    | S fuel' => count_levels fuel' (units 32 i) (S lv)
    end
  else Some lv.

(** The level structures; [mem k] is the [k]-th map allocation: its contents, or
    [None] when [malloc] fails.  The inner [None] is the [goto free_levels]. *)
Fixpoint alloc_levels (mem : nat -> option (list Z)) (n k : nat) (bits : Z)
    : option (list axmap_level) :=
  match n with
  | O => Some []
  | S n' =>
      let bits := units 64 bits in
      contents ← mem k;
      rest ← alloc_levels mem n' (S k) bits;
      Some (AxmapLevel (Z.of_nat k) bits (resize (Z.to_nat bits) 0 contents) :: rest)
  end.

(** The outer option is a fault, the inner one [NULL]; [ok_map] and [ok_levels]
    say whether the first two allocations succeed. *)
Definition axmap_new (ok_map ok_levels : bool) (mem : nat -> option (list Z)) (bits : Z)
    : option (option axmap) :=
  if negb ok_map then Some None
  else
    n ← count_levels 32 (u32 (units 64 bits)) 1;
    if negb ok_levels then Some None
    else Some (ls ← alloc_levels mem n 0 bits; Some (axmap_reset (Axmap ls bits))).

(** ** Walking the levels *)

Section handler.
Context {Data : Type}.
Variable func : axmap_level -> Z -> Z -> Data -> option (bool * axmap_level * Data).

(** From level 0 up, until [func] returns true. *)
Fixpoint axmap_handler (ls : list axmap_level) (index : Z) (data : Data)
    : option (bool * list axmap_level * Data) :=
  match ls with
  | [] => Some (false, [], data)
  | al :: ls' =>
      let offset := Z.shiftr index UNIT_SHIFT in
      let bit := Z.land index BLOCKS_PER_UNIT_MASK in
      '(r, al, data) ← func al offset bit data;
      if (r : bool) then Some (true, al :: ls', data)
      else
        let index := if decide (index <> 0) then Z.shiftr index UNIT_SHIFT else index in
        '(r, ls', data) ← axmap_handler ls' index data;
        Some (r, al :: ls', data)
  end.

(** From the highest level down; [ls] is the levels from [i - 1] down to 0. *)
Fixpoint axmap_handler_topdown (test : axmap_level -> Z -> Z -> option bool)
    (ls : list axmap_level) (bit_nr : Z) : option bool :=
  match ls with
  | [] => Some false
  | al :: ls' =>
      let index := Z.shiftr bit_nr (UNIT_SHIFT * Z.of_nat (length ls')) in
      let offset := Z.shiftr index UNIT_SHIFT in
      let bit := Z.land index BLOCKS_PER_UNIT_MASK in
      r ← test al offset bit;
      if (r : bool) then Some true else axmap_handler_topdown test ls' bit_nr
  end.
End handler.

(** ** Setting bits *)

Record axmap_set_data := SetData { sd_nr_bits : Z; set_bits : Z }.

Definition axmap_set_fn (al : axmap_level) (offset bit : Z) (data : axmap_set_data)
    : option (bool * axmap_level * axmap_set_data) :=
  let n := Z.min (sd_nr_bits data) (BLOCKS_PER_UNIT - bit) in
  bm ← at_ bit_masks n;
  let mask := u64 (Z.shiftl bm bit) in
  w ← at_ (map_ al) offset;
  let overlap := Z.land w mask in
  if decide (overlap = mask) then Some (true, al, SetData (sd_nr_bits data) 0)
  else
    let n' := if decide (overlap <> 0) then u32 (ffz (lnot64 overlap) - bit) else n in
    if decide (n' = 0) then Some (true, al, data)
    else
      bm ← at_ bit_masks n';
      let mask := if decide (overlap <> 0) then u64 (Z.shiftl bm bit) else mask in
      if decide (mask <> 0 /\ Z.land w mask = 0) then
        let w := Z.lor w mask in
        let data := SetData 1 (if decide (level al = 0) then n' else set_bits data) in
        Some (bool_decide (w <> 2 ^ 64 - 1), set_word al offset w, data)
      else None.

(** The clipped [nr_bits] is only used by the assertion. *)
Definition axmap_set_ (m : axmap) (bit_nr : Z) (data : axmap_set_data)
    : option (axmap * axmap_set_data) :=
  if decide (bit_nr > nr_bits m) then Some (m, data)
  else
    let n := if decide (u64 (bit_nr + sd_nr_bits data) > nr_bits m)
             then u32 (nr_bits m - bit_nr) else sd_nr_bits data in
    if decide (n <= BLOCKS_PER_UNIT) then
      '(_, ls, data) ← axmap_handler axmap_set_fn (levels m) bit_nr data;
      Some (Axmap ls (nr_bits m), data)
    else None.

Definition axmap_set (m : axmap) (bit_nr : Z) : option axmap :=
  '(m, _) ← axmap_set_ m bit_nr (SetData 1 0); Some m.

(** The [do ... while (nr_bits)] loop: each round but the last sets all the
    bits up to a word boundary. *)
Fixpoint axmap_set_nr_loop (fuel : nat) (m : axmap) (bit_nr n sb : Z) : option (Z * axmap) :=
  match fuel with
  | O => None
  | S fuel' =>
      let max_bits := BLOCKS_PER_UNIT - Z.land bit_nr BLOCKS_PER_UNIT_MASK in
      let this_set := if decide (n > max_bits) then max_bits else n in
      '(m, data) ← axmap_set_ m bit_nr (SetData this_set 0);
      let sb := u32 (sb + set_bits data) in
      if decide (set_bits data <> this_set) then Some (sb, m)
      else
        let n := u32 (n - set_bits data) in
        let bit_nr := u64 (bit_nr + set_bits data) in
        if decide (n <> 0) then axmap_set_nr_loop fuel' m bit_nr n sb else Some (sb, m)
  end.

Definition axmap_set_nr (m : axmap) (bit_nr n : Z) : option (Z * axmap) :=
  axmap_set_nr_loop (S (S (Z.to_nat (n / BLOCKS_PER_UNIT)))) m bit_nr n 0.

(** ** Looking *)

Definition axmap_isset_fn (al : axmap_level) (offset bit : Z) : option bool :=
  w ← at_ (map_ al) offset;
  Some (bool_decide (Z.land w (Z.shiftl 1 bit) <> 0)).

Definition axmap_isset (m : axmap) (bit_nr : Z) : option bool :=
  if decide (bit_nr <= nr_bits m)
  then axmap_handler_topdown axmap_isset_fn (rev (levels m)) bit_nr
  else Some false.

(** [for (; offset < map_size; offset++) if (~map[offset]) goto found;]: the
    offset and the complement of the first word that is not full. *)
Fixpoint next_word (words : list Z) (offset : Z) : option (Z * Z) :=
  match words with
  | [] => None
  | w :: words' =>
      if decide (lnot64 w <> 0) then Some (offset, lnot64 w) else next_word words' (offset + 1)
  end.

(** One level of the search; [i] is its number, the inner [None] a return of
    [-1ULL]. *)
Definition find_in_level (al : axmap_level) (i : nat) (bit_nr index : Z) : option (option Z) :=
  let index := u64 (Z.shiftl index UNIT_SHIFT) in
  let base_index := Z.shiftr bit_nr (UNIT_SHIFT * Z.of_nat i) in
  let index := if decide (index < base_index) then base_index else index in
  let offset := Z.shiftr index UNIT_SHIFT in
  let bit := Z.land index BLOCKS_PER_UNIT_MASK in
  if decide (offset >= map_size al) then Some None
  else
    bm ← at_ bit_masks bit;
    w ← at_ (map_ al) offset;
    let temp := Z.land (lnot64 bm) (lnot64 w) in
    let found := if decide (temp <> 0) then Some (offset, temp)
                 else next_word (drop (Z.to_nat (offset + 1)) (map_ al)) (offset + 1) in
    Some ('(offset, temp) ← found;
          Some (u64 (u64 (Z.shiftl offset UNIT_SHIFT) + ffz (lnot64 temp)))).

(** [-1ULL] is [None]. *)
Fixpoint find_loop (ls : list axmap_level) (bit_nr index : Z) : option (option Z) :=
  match ls with
  | [] => Some (Some index)
  | al :: ls' =>
      r ← find_in_level al (length ls') bit_nr index;
      match r with
      | None => Some None
      | Some index => find_loop ls' bit_nr index
      end
  end.

Definition axmap_find_first_free (m : axmap) (bit_nr : Z) : option (option Z) :=
  r ← find_loop (rev (levels m)) bit_nr 0;
  Some (index ← r; if decide (index >= nr_bits m) then None else Some index).

Definition axmap_next_free (m : axmap) (bit_nr : Z) : option (option Z) :=
  let next_bit := u64 (bit_nr + 1) in
  if decide (bit_nr >= nr_bits m) then Some None
  else
    let next_bit := if decide (next_bit = nr_bits m) then 0 else next_bit in
    let offset := Z.shiftr next_bit UNIT_SHIFT in
    let bit := Z.land next_bit BLOCKS_PER_UNIT_MASK in
    bm ← at_ bit_masks bit;
    l0 ← levels m !! 0%nat;
    w ← at_ (map_ l0) offset;
    let temp := Z.land (lnot64 bm) (lnot64 w) in
    ret ← (if decide (temp <> 0) then
             let ret := u64 (u64 (Z.shiftl offset UNIT_SHIFT) + ffz (lnot64 temp)) in
             Some (if decide (ret >= nr_bits m) then None else Some ret)
           else axmap_find_first_free m next_bit);
    match ret with
    | None => if decide (next_bit <> 0) then axmap_find_first_free m 0 else Some None
    | Some _ => Some ret
    end.

(** A small map behaves as the comments say. *)
Example axmap_small :
  (m ← axmap_new true true (fun _ => Some []) 130;
   m ← m; '(a, m) ← axmap_set_nr m 60 10; '(b, m) ← axmap_set_nr m 55 10;
   x ← axmap_isset m 69; y ← axmap_isset m 70; z ← axmap_next_free m 59;
   Some (a, b, x, y, z)) = Some (10, 5, true, false, Some 70).
Proof. vm_compute. reflexivity. Qed.
