(* ===== verification/AxmapProofs.v ===== *)
(** * The axmap is a set of block numbers

    [wf] is the representation invariant: sizes, the meaning of a set bit at
    each level, and that nothing is stored beyond the last block.  [elem m] is
    the set a map represents.  Every operation is proved against that set. *)

From S2P Require Import Prelude Bits Axmap.

Open Scope Z_scope.

(** ** Levels as arrays of bits *)

Definition lword (al : axmap_level) (j : Z) : Z := nth (Z.to_nat j) (map_ al) 0.
Definition lbit (al : axmap_level) (j : Z) : bool := Z.testbit (lword al (j / 64)) (j `mod` 64).

Record level_ok (al : axmap_level) : Prop := {
  lo_size : 0 <= map_size al <= 2 ^ 57;
  lo_length : length (map_ al) = Z.to_nat (map_size al);
  lo_words : Forall word64 (map_ al)
}.

Lemma lword_word64 al j : level_ok al -> word64 (lword al j).
Proof.
  intros [_ _ Hw]. unfold lword. rewrite nth_lookup.
  destruct (map_ al !! Z.to_nat j) eqn:E; simpl; [|apply word64_0].
  by eapply (proj1 (Forall_lookup _ _) Hw).
Qed.

Lemma at_word al j : level_ok al -> 0 <= j < map_size al -> at_ (map_ al) j = Some (lword al j).
Proof.
  intros [_ Hl _] Hj. unfold at_. rewrite decide_True by lia. apply nth_default_lookup. lia.
Qed.

Lemma shift_div x : Z.shiftr x UNIT_SHIFT = x / 64.
Proof. unfold UNIT_SHIFT. by rewrite Z.shiftr_div_pow2. Qed.
Lemma mask_mod x : Z.land x BLOCKS_PER_UNIT_MASK = x `mod` 64.
Proof. unfold BLOCKS_PER_UNIT_MASK. change 63 with (Z.ones 6). by rewrite Z.land_ones. Qed.

Lemma bit_masks_ones n : 0 <= n <= 64 -> at_ bit_masks n = Some (Z.ones n).
Proof.
  intros Hn. assert (Hall : forall k, (k < 65)%nat -> bit_masks !! k = Some (Z.ones (Z.of_nat k))).
  { intros k Hk. do 65 (destruct k as [|k]; [reflexivity|]). lia. }
  unfold at_. rewrite decide_True by lia. rewrite Hall by lia. by rewrite Z2Nat.id by lia.
Qed.

(** The mask of a run inside a word needs no truncation. *)
Lemma run_word64 n b : 0 <= n -> 0 <= b -> b + n <= 64 -> word64 (Z.shiftl (Z.ones n) b).
Proof.
  intros Hn Hb Hs. apply word64_intro.
  - apply Z.shiftl_nonneg. rewrite Z.ones_equiv. pose proof (Z.pow_pos_nonneg 2 n). lia.
  - intros i Hi. rewrite testbit_run, bool_decide_false by lia. done.
Qed.

Lemma u64_run n b :
  0 <= n -> 0 <= b -> b + n <= 64 -> u64 (Z.shiftl (Z.ones n) b) = Z.shiftl (Z.ones n) b.
Proof. intros. apply wrapu_small. by apply run_word64. Qed.

Lemma lword_set al off w j :
  level_ok al -> 0 <= off < map_size al -> 0 <= j ->
  lword (set_word al off w) j = if decide (off = j) then w else lword al j.
Proof.
  intros [_ Hl _] Ho Hj. unfold lword, set_word. cbn [map_]. rewrite nth_insert by lia.
  destruct (decide (off = j)) as [->|]; [by rewrite decide_True|]. rewrite decide_False; [done|lia].
Qed.

Lemma lbit_set al off w j :
  level_ok al -> 0 <= off < map_size al -> 0 <= j ->
  lbit (set_word al off w) j =
    if decide (j / 64 = off) then Z.testbit w (j `mod` 64) else lbit al j.
Proof.
  intros Hok Ho Hj. unfold lbit. rewrite lword_set by (done || dlia).
  destruct (decide (j / 64 = off)) as [<-|]; [by rewrite decide_True|by rewrite decide_False].
Qed.

Lemma level_ok_set al off w : level_ok al -> word64 w -> level_ok (set_word al off w).
Proof.
  intros [Hs Hl Hw] Hw64. split; cbn [set_word map_ map_size]; [done|by rewrite length_insert|].
  by apply Forall_insert.
Qed.

(** ** One level of a set operation *)

(** The run of [k] free bits that starts at [b] in a word, out of [n]. *)
Definition free_run (w b n k : Z) : Prop :=
  0 <= k <= n /\ (forall i, b <= i < b + k -> Z.testbit w i = false) /\
  (k < n -> Z.testbit w (b + k) = true).

(** The overlap of a word with the run of [n] ones at [b]. *)
Lemma testbit_overlap w n b i :
  0 <= n -> 0 <= b -> 0 <= i ->
  Z.testbit (Z.land w (Z.shiftl (Z.ones n) b)) i = Z.testbit w i && bool_decide (b <= i < b + n).
Proof. intros. by rewrite Z.land_spec, testbit_run. Qed.

Lemma overlap_zero w n b :
  word64 w -> 0 <= n -> 0 <= b -> b + n <= 64 ->
  Z.land w (Z.shiftl (Z.ones n) b) = 0 <-> forall i, b <= i < b + n -> Z.testbit w i = false.
Proof.
  intros Hw Hn Hb Hs. rewrite word64_zero_iff by auto with bits. split; intros H i Hi.
  - specialize (H i ltac:(lia)). rewrite testbit_overlap, bool_decide_true, andb_true_r in H by lia.
    done.
  - rewrite testbit_overlap by lia. destruct (decide (b <= i < b + n)).
    + by rewrite H.
    + by rewrite bool_decide_false, andb_false_r.
Qed.

(** The lowest bit of a nonzero overlap ends the free run. *)
Lemma overlap_run w n b :
  word64 w -> 0 <= n -> 0 <= b -> b + n <= 64 ->
  let o := Z.land w (Z.shiftl (Z.ones n) b) in
  o <> 0 -> b <= ffz (lnot64 o) < b + n /\ free_run w b n (ffz (lnot64 o) - b).
Proof.
  intros Hw Hn Hb Hs o Ho. set (f := ffz (lnot64 o)).
  assert (Hwo : word64 o) by (unfold o; auto with bits).
  destruct (word64_nonzero_bit o Hwo Ho) as (p & Hp & Hpt).
  assert (Hnf : lnot64 o <> 2 ^ 64 - 1).
  { intros E. apply (f_equal (fun z => Z.testbit z p)) in E.
    by rewrite testbit_lnot64, Hpt, testbit_full, andb_false_r in E by lia. }
  destruct (ffz_spec _ (word64_lnot64 o) Hnf) as (Hf & Hft & Hfb). fold f in Hf, Hft, Hfb.
  rewrite testbit_lnot64, bool_decide_true in Hft by lia. cbn [andb] in Hft.
  apply negb_false_iff in Hft. unfold o in Hft. rewrite testbit_overlap in Hft by lia.
  apply andb_true_iff in Hft as [Hft Hr]. apply bool_decide_eq_true in Hr.
  split; [done|]. split_and!; [lia|lia| |].
  - intros i Hi. specialize (Hfb i ltac:(lia)).
    rewrite testbit_lnot64, bool_decide_true in Hfb by lia. cbn [andb] in Hfb.
    apply negb_true_iff in Hfb. unfold o in Hfb.
    rewrite testbit_overlap, bool_decide_true, andb_true_r in Hfb by lia. done.
  - intros _. by replace (b + (f - b)) with f by lia.
Qed.

Lemma axmap_set_fn_spec al off bit n sb :
  level_ok al -> 0 <= off < map_size al -> 0 <= bit -> 1 <= n -> bit + n <= 64 ->
  exists k, free_run (lword al off) bit n k /\
    (k = 0 -> exists sb', (sb' = 0 \/ sb' = sb) /\
       axmap_set_fn al off bit (SetData n sb) = Some (true, al, SetData n sb')) /\
    (0 < k ->
       let w := Z.lor (lword al off) (Z.shiftl (Z.ones k) bit) in
       axmap_set_fn al off bit (SetData n sb) =
         Some (bool_decide (w <> 2 ^ 64 - 1), set_word al off w,
               SetData 1 (if decide (level al = 0) then k else sb))).
Proof.
  intros Hok Ho Hb Hn Hs. unfold axmap_set_fn. cbn [sd_nr_bits set_bits].
  rewrite (Z.min_l n) by (unfold BLOCKS_PER_UNIT; lia).
  rewrite bit_masks_ones by lia. cbn [mbind option_bind]. rewrite at_word by done.
  cbn [mbind option_bind]. rewrite u64_run by lia.
  set (w := lword al off). assert (Hw : word64 w) by (by apply lword_word64).
  set (o := Z.land w (Z.shiftl (Z.ones n) bit)).
  assert (Hbit0 : Z.testbit (Z.shiftl (Z.ones n) bit) bit = true)
    by (rewrite testbit_run, bool_decide_true by lia; done).
  destruct (decide (o = Z.shiftl (Z.ones n) bit)) as [Efull|Efull].
  - exists 0. split; [|split; [intros _; exists 0; auto|lia]]. split_and!; [lia|lia|lia|].
    intros _. rewrite Z.add_0_r, <- Hbit0, <- Efull. unfold o.
    rewrite testbit_overlap, bool_decide_true, andb_true_r by lia. done.
  - destruct (decide (o <> 0)) as [Hne|Hz%dec_stable].
    + destruct (overlap_run w n bit Hw ltac:(lia) Hb Hs Hne) as [Hf Hfr]. fold o in Hf, Hfr.
      set (k := ffz (lnot64 o) - bit) in *. exists k. split; [done|].
      rewrite (wrapu_small 32 k) by (unfold k; lia). split; intros Hk.
      * rewrite decide_True by done. exists sb. auto.
      * rewrite decide_False by lia. rewrite bit_masks_ones by (unfold k; lia).
        cbn [mbind option_bind]. rewrite u64_run by (unfold k in *; lia).
        rewrite decide_True; [done|]. split.
        -- intros E. apply (f_equal (fun z => Z.testbit z bit)) in E.
           rewrite testbit_run, bool_decide_true, Z.bits_0 in E by lia. done.
        -- apply overlap_zero; [done|lia|lia|unfold k; lia|]. apply Hfr.
    + exists n. pose proof (proj1 (overlap_zero w n bit Hw ltac:(lia) Hb Hs) Hz) as Hfree.
      split; [split_and!; [lia|lia|done|lia]|]. split; [lia|]. intros _.
      rewrite decide_False by lia. rewrite bit_masks_ones by lia. cbn [mbind option_bind].
      rewrite decide_True; [done|]. split; [|done].
      intros E. rewrite E, Z.bits_0 in Hbit0. done.
Qed.

(** ** The invariant *)

Definition ceil64 (n : Z) : Z := (n + 63) / 64.

(** What a bit of level [b] says about the words of the level [a] below. *)
Definition link (a b : axmap_level) : Prop :=
  forall j, 0 <= j < 64 * map_size b ->
    lbit b j = bool_decide (j < map_size a /\ lword a j = 2 ^ 64 - 1).

(** The levels from number [lv] up, above [below]. *)
Fixpoint chain (lv : Z) (below : axmap_level) (ls : list axmap_level) : Prop :=
  match ls with
  | [] => True
  | al :: ls' => level al = lv /\ level_ok al /\ map_size al = ceil64 (map_size below) /\
                 link below al /\ chain (lv + 1) al ls'
  end.

Record wf_with (m : axmap) (a : axmap_level) (ls : list axmap_level) : Prop := {
  wf_levels : levels m = a :: ls;
  wf_nr : 0 <= nr_bits m < 2 ^ 63;
  wf_level0 : level a = 0;
  wf_ok : level_ok a;
  wf_size : map_size a = ceil64 (nr_bits m);
  wf_chain : chain 1 a ls;
  wf_tail : forall j, nr_bits m <= j < 64 * map_size a -> lbit a j = false
}.

Definition wf (m : axmap) : Prop := exists a ls, wf_with m a ls.

(** The set of blocks a map stands for. *)
Definition elem (m : axmap) (j : Z) : bool :=
  match levels m with
  | a :: _ => lbit a j
  | [] => false
  end.

Lemma chain_ext lv a a' ls :
  chain lv a ls -> map_size a' = map_size a ->
  (forall j, 0 <= j < map_size a -> lword a' j = 2 ^ 64 - 1 <-> lword a j = 2 ^ 64 - 1) ->
  chain lv a' ls.
Proof.
  intros Hc Hsz Hfull. destruct ls as [|b ls]; [done|].
  destruct Hc as (Hlv & Hok & Hs & Hl & Hc). rewrite <- Hsz in Hs. split_and!; try done.
  intros j Hj. rewrite Hl by done. apply bool_decide_ext. rewrite Hsz.
  split; intros [H1 H2]; (split; [done|]); apply Hfull; (done || lia).
Qed.

(** Bits that a word gains when a run is set in it. *)
Lemma testbit_or_run w b k i :
  0 <= k -> 0 <= b -> 0 <= i ->
  Z.testbit (Z.lor w (Z.shiftl (Z.ones k) b)) i = Z.testbit w i || bool_decide (b <= i < b + k).
Proof. intros. by rewrite Z.lor_spec, testbit_run. Qed.

(** A level after a run of [k] bits was set at position [64 off + bit]. *)
Lemma lbit_set_run al off bit k j :
  level_ok al -> 0 <= off < map_size al -> 0 <= bit -> 0 <= k -> bit + k <= 64 -> 0 <= j ->
  lbit (set_word al off (Z.lor (lword al off) (Z.shiftl (Z.ones k) bit))) j =
    lbit al j || bool_decide (64 * off + bit <= j < 64 * off + bit + k).
Proof.
  intros Hok Ho Hb Hk Hs Hj. rewrite lbit_set by done. case_decide as E.
  - rewrite testbit_or_run by dlia. unfold lbit. rewrite E. f_equal. apply bool_decide_ext. dlia.
  - rewrite bool_decide_false by dlia. by rewrite orb_false_r.
Qed.

(** The levels above [a] when its word [j] has just become full: only the bit for that word is behind. *)
Definition pending (lv : Z) (a : axmap_level) (j : Z) (ls : list axmap_level) : Prop :=
  match ls with
  | [] => True
  | b :: ls' => level b = lv /\ level_ok b /\ map_size b = ceil64 (map_size a) /\ lbit b j = false /\
      (forall i, 0 <= i < 64 * map_size b -> i <> j -> lbit b i = bool_decide (i < map_size a /\ lword a i = 2 ^ 64 - 1)) /\
      chain (lv + 1) b ls'
  end.

(** A word that was not full changes: the levels above are pending, or still right when it is not full now either. *)
Lemma chain_pending lv a j w ls : chain lv a ls -> level_ok a -> 0 <= j < map_size a -> lword a j <> 2 ^ 64 - 1 ->
  pending lv (set_word a j w) j ls.
Proof.
  intros Hc Hok Hj Hnf. destruct ls as [|c ls]; [done|]. destruct Hc as (Hlc & Hokc & Hszc & Hlc' & Hc).
  split_and!; [done|done|done| | |done].
  - rewrite Hlc' by (rewrite Hszc; unfold ceil64; dlia). apply bool_decide_false. tauto.
  - intros i Hi Hne. rewrite Hlc' by done. apply bool_decide_ext. change (map_size (set_word a j w)) with (map_size a).
    rewrite lword_set by (done || lia). by rewrite decide_False by congruence.
Qed.

Lemma chain_not_full lv a j w ls : chain lv a ls -> level_ok a -> 0 <= j < map_size a -> lword a j <> 2 ^ 64 - 1 ->
  w <> 2 ^ 64 - 1 -> chain lv (set_word a j w) ls.
Proof.
  intros Hc Hok Hj Hnf Hw. apply (chain_ext _ a); [done|done|]. intros i Hi. rewrite lword_set by (done || lia).
  case_decide as E; [|done]. subst i. done.
Qed.

(** The number of the word above, as the handler computes it. *)
Lemma up_index j : (if decide (j <> 0) then j / 64 else j) = j / 64.
Proof. case_decide; [done|]. assert (j = 0) as -> by lia. done. Qed.

(** Setting the bit for a word that has just become full, level by level. *)
Lemma handler_up ls : forall lv a j sb,
  0 < lv -> level_ok a -> 0 <= j < map_size a -> lword a j = 2 ^ 64 - 1 ->
  pending lv a j ls ->
  exists r ls' n, axmap_handler axmap_set_fn ls j (SetData 1 sb) = Some (r, ls', SetData n sb) /\
    chain lv a ls'.
Proof.
  induction ls as [|b ls IH]; intros lv a j sb Hlv Hok Hj Hfull Hpend.
  - exists false, [], 1. done.
  - destruct Hpend as (Hlb & Hokb & Hsz & Hclear & Hlink & Hc). cbn [axmap_handler].
    rewrite shift_div, mask_mod.
    assert (Hoff : 0 <= j / 64 < map_size b) by (rewrite Hsz; unfold ceil64; dlia).
    destruct (axmap_set_fn_spec b (j / 64) (j `mod` 64) 1 sb) as (k & (Hk & Hrun & Hend) & _ & Hset);
      [done|done|dlia|lia|dlia|].
    assert (k = 1) as ->.
    { destruct (decide (k = 1)); [done|]. assert (k = 0) as -> by lia.
      rewrite Z.add_0_r in Hend. unfold lbit in Hclear. by rewrite Hend in Hclear by lia. }
    rewrite Hset by lia. cbn [mbind option_bind]. rewrite decide_False by lia. clear Hset.
    set (w := Z.lor _ _).
    assert (Hw : word64 w).
    { apply word64_lor; [by apply lword_word64|apply run_word64; dlia]. }
    set (b' := set_word b (j / 64) w).
    assert (Hok' : level_ok b') by (by apply level_ok_set).
    assert (Hnf : lword b (j / 64) <> 2 ^ 64 - 1).
    { intros E. unfold lbit in Hclear. rewrite E, testbit_full in Hclear by dlia. done. }
    assert (Hl' : link a b').
    { intros i Hi. change (map_size b') with (map_size b) in Hi. unfold b', w.
      rewrite lbit_set_run by (done || dlia).
      replace (64 * (j / 64) + j `mod` 64) with j by dlia.
      destruct (decide (i = j)) as [->|Hne].
      - rewrite bool_decide_true, orb_true_r by lia. symmetry.
        apply bool_decide_true. split; [lia|done].
      - rewrite (bool_decide_false (j <= i < j + 1)), orb_false_r by lia. by apply Hlink. }
    destruct (decide (w = 2 ^ 64 - 1)) as [Ew|Ew].
    + rewrite bool_decide_false by tauto. cbv iota.
      rewrite up_index. destruct (IH (lv + 1) b' (j / 64) sb) as (r & ls' & n & E & Hc'); [lia|done|done| |by apply chain_pending|].
      * unfold b'. rewrite lword_set by (done || lia). by rewrite decide_True.
      * rewrite E. cbn [mbind option_bind]. by exists r, (b' :: ls'), n.
    + rewrite bool_decide_true by done. exists true, (b' :: ls), 1.
      split; [done|]. split_and!; [done|done|done|done|]. by apply chain_not_full.
Qed.

(** ** Setting bits *)

(** The free run of at most [n] blocks that starts at block [b] of a map. *)
Definition map_run (m : axmap) (b n k : Z) : Prop :=
  0 <= k <= n /\ (forall j, b <= j < b + k -> elem m j = false) /\
  (k < n -> elem m (b + k) = true).

(** [m'] is [m] with the blocks from [b] to [b + k - 1] added. *)
Definition added (m m' : axmap) (b k : Z) : Prop :=
  wf m' /\ nr_bits m' = nr_bits m /\
  forall j, 0 <= j -> elem m' j = elem m j || bool_decide (b <= j < b + k).

Lemma axmap_set_spec m b n :
  wf m -> 0 <= b -> 1 <= n -> b `mod` 64 + n <= 64 -> b + n <= nr_bits m ->
  exists k m' n', map_run m b n k /\
    axmap_set_ m b (SetData n 0) = Some (m', SetData n' k) /\ added m m' b k.
Proof.
  intros (a & ls & Hwf) Hb Hn Hs Hle. pose proof Hwf as [El Hnr Hlv Hok Hsz Hc Ht].
  assert (Hoff : 0 <= b / 64 < map_size a) by (rewrite Hsz; unfold ceil64; dlia).
  unfold axmap_set_. cbn [sd_nr_bits]. rewrite (decide_False (P := b > _)) by lia.
  rewrite (wrapu_small 64) by lia. rewrite (decide_False (P := b + n > _)) by lia.
  rewrite decide_True by (unfold BLOCKS_PER_UNIT; dlia). rewrite El. cbn [axmap_handler].
  rewrite shift_div, mask_mod.
  destruct (axmap_set_fn_spec a (b / 64) (b `mod` 64) n 0) as (k & (Hk & Hrun & Hend) & Hk0 & Hset);
    [done|done|dlia|done|done|].
  assert (Hbit : forall i, b <= i < b + n -> lbit a i = Z.testbit (lword a (b / 64)) (b `mod` 64 + (i - b))).
  { intros i Hi. unfold lbit. assert (i / 64 = b / 64) as -> by dlia. f_equal. dlia. }
  assert (Hmr : map_run m b n k).
  { unfold map_run, elem. rewrite El. split_and!; [lia|lia| |].
    - intros j Hj. rewrite Hbit by lia. apply Hrun. lia.
    - intros Hlt. rewrite Hbit by lia. rewrite <- Hend by done. f_equal. lia. }
  destruct (decide (k = 0)) as [->|Hkp].
  - destruct (Hk0 eq_refl) as (sb' & Hsb & ->). cbn [mbind option_bind].
    exists 0, m, n. split; [done|]. split.
    + destruct m as [lsm nr]. cbn in *. subst lsm. by destruct Hsb as [-> | ->].
    + split; [by exists a, ls|]. split; [done|]. intros j Hj.
      rewrite bool_decide_false by lia. by rewrite orb_false_r.
  - rewrite Hset by lia. clear Hset Hk0. cbn [mbind option_bind]. rewrite Hlv, decide_True by done.
    set (w := Z.lor _ _). set (a' := set_word a (b / 64) w).
    assert (Hw : word64 w)
      by (apply word64_lor; [by apply lword_word64|apply run_word64; dlia]).
    assert (Hok' : level_ok a') by (by apply level_ok_set).
    assert (Hbits : forall j, 0 <= j -> lbit a' j = lbit a j || bool_decide (b <= j < b + k)).
    { intros j Hj. unfold a', w. rewrite lbit_set_run by (done || dlia).
      replace (64 * (b / 64) + b `mod` 64) with b by dlia. done. }
    assert (Hnf : lword a (b / 64) <> 2 ^ 64 - 1).
    { intros E. specialize (Hrun (b `mod` 64) ltac:(lia)).
      rewrite E, testbit_full in Hrun by dlia. done. }
    assert (Hwf' : forall ls', chain 1 a' ls' -> added m (Axmap (a' :: ls') (nr_bits m)) b k).
    { intros ls' Hc'. split; [|split; [done|]].
      - exists a', ls'. split; [done..|]. cbn [nr_bits]. intros j Hj.
        rewrite Hbits by lia. rewrite Ht by done. apply bool_decide_false. lia.
      - intros j Hj. unfold elem. cbn [levels]. rewrite El. by apply Hbits. }
    destruct (decide (w = 2 ^ 64 - 1)) as [Ew|Ew].
    + rewrite bool_decide_false by tauto. cbv iota.
      rewrite up_index. destruct (handler_up ls 1 a' (b / 64) k) as (r & ls' & n' & E & Hc'); [lia|done|done| |by apply chain_pending|].
      * unfold a'. rewrite lword_set by (done || lia). by rewrite decide_True.
      * rewrite E. cbn [mbind option_bind]. exists k, (Axmap (a' :: ls') (nr_bits m)), n'.
        split; [done|]. split; [done|]. by apply Hwf'.
    + rewrite bool_decide_true by done. exists k, (Axmap (a' :: ls) (nr_bits m)), 1.
      split; [done|]. split; [done|]. apply Hwf'. by apply chain_not_full.
Qed.

Lemma map_run_proper m m' b n k :
  (forall j, b <= j <= b + n -> elem m' j = elem m j) -> map_run m b n k -> map_run m' b n k.
Proof.
  intros He (Hk & Hf & Hend). split_and!; [lia|lia| |].
  - intros j Hj. rewrite He by lia. by apply Hf.
  - intros Hlt. rewrite He by lia. by apply Hend.
Qed.

Lemma set_nr_loop_spec fuel : forall m b n sb,
  wf m -> 0 <= b -> 1 <= n < 2 ^ 32 -> b + n <= nr_bits m -> 0 <= sb -> sb + n < 2 ^ 32 ->
  b `mod` 64 + n <= 64 * Z.of_nat fuel ->
  exists k m', map_run m b n k /\
    axmap_set_nr_loop fuel m b n sb = Some (sb + k, m') /\ added m m' b k.
Proof.
  induction fuel as [|fuel IH]; intros m b n sb Hwf Hb Hn Hle Hsb Hsum Hfuel; [dlia|].
  cbn [axmap_set_nr_loop]. rewrite mask_mod. unfold BLOCKS_PER_UNIT.
  set (t := if decide (n > 64 - b `mod` 64) then 64 - b `mod` 64 else n).
  assert (Ht : 1 <= t <= n /\ b `mod` 64 + t <= 64 /\ (t < n -> b `mod` 64 + t = 64))
    by (unfold t; case_decide; dlia).
  destruct (axmap_set_spec m b t Hwf Hb) as (k & m1 & n' & (Hk & Hfree & Hend) & E & Hadd);
    [lia|lia|lia|].
  rewrite E. cbn [mbind option_bind set_bits]. rewrite (wrapu_small 32 (sb + k)) by lia.
  case_decide as Hkt.
  - exists k, m1. split; [|done]. split_and!; [lia|lia|done|]. intros _. apply Hend. lia.
  - subst k. rewrite (wrapu_small 32) by lia.
    rewrite (wrapu_small 64) by (destruct Hwf as (a & ls & [_ Hnr _ _ _ _ _]); lia).
    case_decide as Hmore.
    + destruct Hadd as (Hwf1 & Hnr1 & Hel1).
      destruct (IH m1 (b + t) (n - t) (sb + t)) as (k & m2 & Hrun & E2 & Hadd2);
        [done|lia|lia|lia|lia|lia|dlia|].
      destruct Hadd2 as (Hwf2 & Hnr2 & Hel2). exists (t + k), m2.
      split; [|split; [|split; [done|split; [congruence|]]]].
      * destruct (map_run_proper m1 m (b + t) (n - t) k) as (Hk' & Hf' & He').
        { intros j Hj. rewrite Hel1 by lia. rewrite bool_decide_false by lia. by rewrite orb_false_r. }
        { done. }
        split_and!; [lia|lia| |].
        -- intros j Hj. destruct (decide (j < b + t)); [apply Hfree; lia|apply Hf'; lia].
        -- intros Hlt. rewrite Z.add_assoc. apply He'. lia.
      * by rewrite E2, Z.add_assoc.
      * intros j Hj. rewrite Hel2, Hel1 by done. rewrite <- orb_assoc. f_equal.
        destruct Hrun as (Hk' & _). rewrite <- bool_decide_or. apply bool_decide_ext. lia.
    + exists t, m1. split; [|done]. replace t with n in * by lia. done.
Qed.

(** [axmap_set_nr] marks exactly the free run at [bit_nr], cut at the first
    block already in the set, and returns its length; nothing else changes. *)
Lemma axmap_set_nr_run m b n :
  wf m -> 0 <= b -> 1 <= n < 2 ^ 32 -> b + n <= nr_bits m ->
  exists k m', axmap_set_nr m b n = Some (k, m') /\ map_run m b n k /\ added m m' b k.
Proof.
  intros Hwf Hb Hn Hle. unfold axmap_set_nr, BLOCKS_PER_UNIT.
  destruct (set_nr_loop_spec (S (S (Z.to_nat (n / 64)))) m b n 0) as (k & m' & Hrun & E & Hadd);
    [done|lia|lia|lia|lia|lia|dlia|]. by exists k, m'.
Qed.

(** ** A new map *)

Lemma units_ceil w n : 0 <= n -> n + 63 < 2 ^ w -> units w n = ceil64 n.
Proof.
  intros Hn Hw. unfold units, ceil64, BLOCKS_PER_UNIT. rewrite wrapu_small by lia.
  rewrite shift_div. f_equal. lia.
Qed.

(** The loop that counts the levels ends: six rounds are enough for any
    [unsigned int]. *)
Lemma count_levels_ends fuel : forall i lv,
  0 <= i < 2 ^ 32 -> i <= 2 ^ (6 * Z.of_nat fuel) ->
  is_Some (count_levels fuel i lv).
Proof.
  induction fuel as [|fuel IH]; intros i lv Hi Hf; cbn [count_levels]; case_decide; try (by eexists).
  - change (2 ^ (6 * Z.of_nat 0)) with 1 in Hf. lia.
  - assert (Hu : 0 <= units 32 i < 2 ^ 32).
    { unfold units. rewrite shift_div. pose proof (wrapu_range 32 (i + BLOCKS_PER_UNIT - 1)). dlia. }
    apply IH; [done|]. pose proof (Z.pow_pos_nonneg 2 (6 * Z.of_nat fuel) ltac:(lia) ltac:(lia)) as Hp.
    destruct (decide (i + 63 < 2 ^ 32)) as [Hs|Hs].
    + rewrite units_ceil by lia. unfold ceil64.
      replace (6 * Z.of_nat (S fuel)) with (6 + 6 * Z.of_nat fuel) in Hf by lia.
      rewrite Z.pow_add_r in Hf by lia. change (2 ^ 6) with 64 in Hf.
      generalize dependent (2 ^ (6 * Z.of_nat fuel)). intros. dlia.
    + assert (units 32 i = 0); [|lia]. unfold units, wrapu, BLOCKS_PER_UNIT. rewrite shift_div.
      rewrite Z.mod_eq by lia. assert ((i + 64 - 1) / 2 ^ 32 = 1) as -> by dlia. dlia.
Qed.

(** An all-zero level. *)
Definition zero_level (al : axmap_level) : Prop := forall j, lword al j = 0.

Lemma zero_lbit al j : zero_level al -> lbit al j = false.
Proof. intros H. unfold lbit. rewrite H. apply Z.bits_0. Qed.

Lemma reset_level_zero al : zero_level (reset_level al).
Proof.
  intros j. unfold lword. cbn [map_ reset_level]. rewrite nth_lookup.
  destruct (replicate _ 0 !! _) as [x|] eqn:E; [|done]. by apply lookup_replicate in E as [-> _].
Qed.

Lemma level_ok_reset al : 0 <= map_size al <= 2 ^ 57 -> level_ok (reset_level al).
Proof.
  intros H. split; cbn [map_size map_ reset_level]; [done|len|].
  apply Forall_replicate, word64_0.
Qed.

(** Levels of the sizes [axmap_new] computes, before or after the reset. *)
Fixpoint sized (lv bits : Z) (ls : list axmap_level) : Prop :=
  match ls with
  | [] => True
  | al :: ls' => level al = lv /\ map_size al = ceil64 bits /\ sized (lv + 1) (ceil64 bits) ls'
  end.

Lemma alloc_levels_sized mem n : forall k bits ls,
  0 <= bits < 2 ^ 63 -> alloc_levels mem n k bits = Some ls ->
  length ls = n /\ sized (Z.of_nat k) bits ls.
Proof.
  induction n as [|n IH]; intros k bits ls Hb E; cbn [alloc_levels] in E; [by simplify_eq/=|].
  rewrite units_ceil in E by lia. destruct (mem k) as [c|]; cbn in E; [|done].
  destruct (alloc_levels mem n (S k) (ceil64 bits)) as [rest|] eqn:Er; cbn in E; [|done].
  injection E as <-. apply IH in Er as [Hl Hs]; [|unfold ceil64; dlia].
  split; [cbn; by rewrite Hl|]. cbn [sized level map_size]. split_and!; [done|done|].
  by replace (Z.of_nat k + 1) with (Z.of_nat (S k)) by lia.
Qed.

Lemma zero_chain lv a ls :
  level_ok a -> zero_level a -> sized lv (map_size a) ls -> chain lv a (reset_level <$> ls).
Proof.
  revert lv a. induction ls as [|b ls IH]; intros lv a Hok Hz Hs; cbn; [done|].
  destruct Hs as (Hlv & Hsz & Hs).
  assert (Hokb : level_ok (reset_level b)).
  { apply level_ok_reset. rewrite Hsz. pose proof (lo_size a Hok). unfold ceil64. dlia. }
  split_and!; [done|done|done| |].
  - intros j Hj. rewrite zero_lbit by apply reset_level_zero. symmetry. apply bool_decide_false.
    rewrite Hz. lia.
  - apply IH; [done|apply reset_level_zero|]. cbn [map_size reset_level]. by rewrite Hsz.
Qed.

Lemma axmap_new_cases mem bits :
  0 <= bits < 2 ^ 63 ->
  (exists n, (1 <= n)%nat /\ count_levels 32 (u32 (units 64 bits)) 1 = Some n /\
  match alloc_levels mem n 0 bits with
  | None => axmap_new true true mem bits = Some None
  | Some _ => exists m, axmap_new true true mem bits = Some (Some m) /\ wf m /\
      nr_bits m = bits /\ forall j, elem m j = false
  end).
Proof.
  intros Hb. destruct (count_levels_ends 32 (u32 (units 64 bits)) 1) as [n En].
  { apply wrapu_range. lia. }
  { pose proof (wrapu_range 32 (units 64 bits)). change (2 ^ (6 * Z.of_nat 32)) with (2 ^ 192). lia. }
  assert (Hn : (1 <= n)%nat).
  { clear -En. revert En. generalize (u32 (units 64 bits)). generalize 32%nat.
    assert (forall f i lv, count_levels f i lv = Some n -> (lv <= n)%nat); [|eauto].
    intros f. induction f as [|f IH]; intros i lv; cbn [count_levels]; case_decide; try congruence.
    - intros E. injection E. lia.
    - intros E. apply IH in E. lia.
    - intros E. injection E. lia. }
  exists n. split; [done|]. split; [done|]. unfold axmap_new. cbn [negb]. rewrite En.
  cbn [mbind option_bind]. destruct (alloc_levels mem n 0 bits) as [ls|] eqn:Ea; [|done].
  cbn [mbind option_bind]. eexists. split; [done|].
  apply alloc_levels_sized in Ea as [Hl Hs]; [|done].
  destruct ls as [|a ls]; [cbn in Hl; lia|]. destruct Hs as (Hlv & Hsz & Hs).
  assert (Hok : level_ok (reset_level a)).
  { apply level_ok_reset. rewrite Hsz. unfold ceil64. dlia. }
  split_and!; [|done|].
  - exists (reset_level a), (reset_level <$> ls). split; cbn [levels nr_bits axmap_reset fmap list_fmap];
      [done|done|done|done|done| |].
    + apply zero_chain; [done|apply reset_level_zero|]. cbn [map_size reset_level].
      rewrite Hsz. by replace (Z.of_nat 0 + 1) with 1 in Hs.
    + intros j _. apply zero_lbit, reset_level_zero.
  - intros j. cbn. apply zero_lbit, reset_level_zero.
Qed.
