(* ===== verification/AxmapFind.v ===== *)
(** * Looking up blocks in an axmap

    Membership and the search for a free block, against the set a map stands
    for: the shortcuts through the upper levels find what a scan of level 0
    would. *)

From S2P Require Import Prelude Bits Axmap AxmapProofs.

Open Scope Z_scope.

(** ** Membership *)

Lemma isset_fn_bit al j :
  level_ok al -> 0 <= j < 64 * map_size al ->
  axmap_isset_fn al (j / 64) (j `mod` 64) = Some (lbit al j).
Proof.
  intros Hok Hj. unfold axmap_isset_fn. rewrite at_word by (done || dlia).
  cbn [mbind option_bind]. f_equal. unfold lbit. rewrite Z.shiftl_1_l.
  assert (Hm : 0 <= j `mod` 64 < 64) by dlia.
  destruct (Z.testbit (lword al (j / 64)) (j `mod` 64)) eqn:E.
  - apply bool_decide_true. intros H. apply (f_equal (fun z => Z.testbit z (j `mod` 64))) in H.
    by rewrite Z.land_spec, testbit_pow2, bool_decide_true, E, Z.bits_0 in H by lia.
  - apply bool_decide_false. intros H. apply H. apply Z.bits_inj'. intros i Hi.
    rewrite Z.land_spec, testbit_pow2, Z.bits_0 by lia.
    destruct (decide (i = j `mod` 64)) as [->|Hne]; [by rewrite E|].
    by rewrite bool_decide_false, andb_false_r.
Qed.

(** The index of a block at the level above [below]. *)
Definition index_at (below : list axmap_level) (b : Z) : Z :=
  Z.shiftr b (UNIT_SHIFT * Z.of_nat (length below)).

Lemma index_at_cons a below b : index_at (a :: below) b = index_at below b / 64.
Proof.
  unfold index_at. cbn [length].
  replace (UNIT_SHIFT * Z.of_nat (S (length below)))
    with (UNIT_SHIFT * Z.of_nat (length below) + UNIT_SHIFT) by (unfold UNIT_SHIFT; lia).
  rewrite <- Z.shiftr_shiftr by (unfold UNIT_SHIFT; lia). apply shift_div.
Qed.

Lemma index_at_nil b : index_at [] b = b.
Proof. apply Z.shiftr_0_r. Qed.

Lemma index_at_nonneg below b : 0 <= b -> 0 <= index_at below b.
Proof. intros. unfold index_at. by apply Z.shiftr_nonneg. Qed.

Lemma topdown_cons al ls b :
  axmap_handler_topdown axmap_isset_fn (al :: ls) b =
    r ← axmap_isset_fn al (index_at ls b / 64) (index_at ls b `mod` 64);
    if (r : bool) then Some true else axmap_handler_topdown axmap_isset_fn ls b.
Proof. cbn [axmap_handler_topdown]. by rewrite shift_div, mask_mod. Qed.

(** A bit of an upper level only says what the level below says anyway. *)
Lemma topdown_upper ls : forall lv a below b,
  level_ok a -> chain lv a ls -> 0 <= b -> index_at below b < 64 * map_size a ->
  axmap_handler_topdown axmap_isset_fn (rev ls ++ a :: below) b =
  axmap_handler_topdown axmap_isset_fn (a :: below) b.
Proof.
  induction ls as [|c ls IH]; intros lv a below b Hok Hc Hb Hi; [done|].
  destruct Hc as (Hlv & Hokc & Hsz & Hlink & Hc).
  pose proof (index_at_nonneg below b Hb) as Hnn.
  assert (Hic : index_at (a :: below) b < 64 * map_size c).
  { rewrite index_at_cons, Hsz. unfold ceil64. dlia. }
  cbn [rev]. rewrite <- app_assoc. cbn [app].
  rewrite (IH (lv + 1)) by done. rewrite topdown_cons.
  rewrite isset_fn_bit by (done || (rewrite index_at_cons in *; dlia)).
  cbn [mbind option_bind]. destruct (lbit c (index_at (a :: below) b)) eqn:Eb; [|done].
  rewrite topdown_cons, isset_fn_bit by (done || lia). cbn [mbind option_bind].
  rewrite index_at_cons in *. rewrite Hlink in Eb by dlia.
  apply bool_decide_eq_true in Eb as [_ Hfull]. unfold lbit.
  by rewrite Hfull, testbit_full by dlia.
Qed.

Lemma topdown_past_end ls : forall lv a below b,
  level_ok a -> chain lv a ls -> 0 <= b -> index_at below b = 64 * map_size a ->
  axmap_handler_topdown axmap_isset_fn (rev ls ++ a :: below) b = None.
Proof.
  assert (Hbase : forall a below b, level_ok a -> 0 <= b -> index_at below b = 64 * map_size a ->
            axmap_handler_topdown axmap_isset_fn (a :: below) b = None).
  { intros a below b Hok Hb Hi. rewrite topdown_cons. unfold axmap_isset_fn.
    assert (Hnone : at_ (map_ a) (index_at below b / 64) = None); [|by rewrite Hnone].
    pose proof (lo_size a Hok). unfold at_. rewrite decide_True by dlia. apply lookup_ge_None.
    rewrite (lo_length a Hok). dlia. }
  induction ls as [|c ls IH]; intros lv a below b Hok Hc Hb Hi; [by apply Hbase|].
  destruct Hc as (Hlv & Hokc & Hsz & Hlink & Hc).
  assert (Hic : index_at (a :: below) b = map_size a) by (rewrite index_at_cons; dlia).
  pose proof (lo_size a Hok).
  cbn [rev]. rewrite <- app_assoc. cbn [app].
  destruct (decide (map_size a = 64 * map_size c)) as [E|Hne].
  - apply (IH (lv + 1)); [done|done|done|lia].
  - assert (Hlt : map_size a < 64 * map_size c) by (rewrite Hsz in *; unfold ceil64 in *; dlia).
    rewrite (topdown_upper ls (lv + 1)) by (done || lia). rewrite topdown_cons.
    rewrite isset_fn_bit by (done || lia). cbn [mbind option_bind].
    rewrite Hlink by lia. rewrite bool_decide_false by lia. by apply Hbase.
Qed.

(** [axmap_isset] decides membership for every block of the map, and is false
    beyond [nr_bits]. *)
Lemma axmap_isset_elem m b :
  wf m -> 0 <= b ->
  axmap_isset m b = if decide (b < nr_bits m) then Some (elem m b)
                    else if decide (b = nr_bits m /\ nr_bits m `mod` 64 = 0) then None
                    else Some false.
Proof.
  intros (a & ls & Hwf) Hb. destruct Hwf as [El Hnr Hlv Hok Hsz Hc Ht].
  unfold axmap_isset, elem. rewrite El. cbn [rev].
  assert (Hin : b < 64 * map_size a ->
    axmap_handler_topdown axmap_isset_fn (rev ls ++ [a]) b = Some (lbit a b)).
  { intros Hi. rewrite (topdown_upper ls 1) by (done || by rewrite index_at_nil).
    rewrite topdown_cons, index_at_nil, isset_fn_bit by done. cbn. by destruct (lbit a b). }
  case_decide as Hle; destruct (decide (b < nr_bits m)) as [Hlt|Hge].
  - apply Hin. rewrite Hsz. unfold ceil64. dlia.
  - assert (b = nr_bits m) as -> by lia. case_decide as Hm.
    + apply (topdown_past_end ls 1); [done|done|done|].
      rewrite index_at_nil, Hsz. unfold ceil64. dlia.
    + assert (nr_bits m < 64 * map_size a) by (rewrite Hsz; unfold ceil64; dlia).
      rewrite Hin by done. f_equal. apply Ht. lia.
  - lia.
  - rewrite decide_False by lia. done.
Qed.

(** ** Searching for a free block *)

(** The first clear bit of a level at or after [s], if there is one. *)
Definition first_clear (al : axmap_level) (s : Z) (r : option Z) : Prop :=
  match r with
  | Some j => s <= j < 64 * map_size al /\ lbit al j = false /\
              forall i, s <= i < j -> lbit al i = true
  | None => forall i, s <= i < 64 * map_size al -> lbit al i = true
  end.

Lemma first_clear_skip al s s' r :
  s <= s' -> (forall i, s <= i < s' -> i < 64 * map_size al -> lbit al i = true) ->
  first_clear al s' r -> first_clear al s r.
Proof.
  intros Hs Hset. destruct r as [j|]; cbn [first_clear].
  - intros (Hj & Hc & Hb). split_and!; [lia|lia|done|]. intros i Hi.
    destruct (decide (i < s')); [apply Hset; lia|apply Hb; lia].
  - intros Hb i Hi. destruct (decide (i < s')); [apply Hset; lia|apply Hb; lia].
Qed.

(** The lowest set bit of a nonzero [temp], as [ffz(~temp)]. *)
Lemma ffz_lnot_lowest t : word64 t -> t <> 0 -> lowest t (ffz (lnot64 t)) /\ ffz (lnot64 t) < 64.
Proof.
  intros Ht Hne. unfold ffz.
  assert (Hinv : lnot64 (lnot64 t) = t).
  { apply word64_ext; [apply word64_lnot64|done|]. intros i Hi.
    rewrite !testbit_lnot64, bool_decide_true by lia. cbn. by destruct (Z.testbit t i). }
  rewrite Hinv. pose proof (ffs64_lowest t Ht Hne) as Hl. split; [done|].
  destruct Hl as (H0 & Hb & _). destruct (decide (ffs64 t < 64)); [done|].
  by rewrite word64_bits_high in Hb by (done || lia).
Qed.

(** The complement of a word, below [bit] masked off: which of its bits are set. *)
Lemma testbit_temp w bit i :
  0 <= bit -> 0 <= i < 64 ->
  Z.testbit (Z.land (lnot64 (Z.ones bit)) (lnot64 w)) i =
    bool_decide (bit <= i) && negb (Z.testbit w i).
Proof.
  intros Hb Hi. rewrite Z.land_spec, !testbit_lnot64, testbit_ones by lia.
  rewrite bool_decide_true by lia. cbn. f_equal. rewrite <- bool_decide_not.
  apply bool_decide_ext. lia.
Qed.

(** A word with a clear bit at [bit] or above gives the first clear bit there. *)
Lemma first_clear_word al off bit t :
  level_ok al -> 0 <= off < map_size al -> 0 <= bit < 64 -> word64 t -> t <> 0 ->
  (forall i, 0 <= i < 64 ->
     Z.testbit t i = bool_decide (bit <= i) && negb (Z.testbit (lword al off) i)) ->
  first_clear al (64 * off + bit) (Some (64 * off + ffz (lnot64 t))).
Proof.
  intros Hok Ho Hb Hwt Hne Ht.
  destruct (ffz_lnot_lowest t Hwt Hne) as [(H0 & Hset & Hlow) Hlt].
  set (k := ffz (lnot64 t)) in *. rewrite Ht in Hset by lia.
  apply andb_true_iff in Hset as [Hbk%bool_decide_eq_true Hck%negb_true_iff].
  assert (Hbits : forall i, 0 <= i < 64 -> lbit al (64 * off + i) = Z.testbit (lword al off) i).
  { intros i Hi. unfold lbit. f_equal; [f_equal|]; dlia. }
  split_and!; [lia|lia|by rewrite Hbits by lia|]. intros i Hi.
  specialize (Hlow (i - 64 * off) ltac:(lia)). rewrite Ht, bool_decide_true in Hlow by lia.
  cbn in Hlow. apply negb_false_iff in Hlow. rewrite <- Hlow, <- Hbits by lia. f_equal. lia.
Qed.

Lemma lnot64_zero w : word64 w -> lnot64 w = 0 -> w = 2 ^ 64 - 1.
Proof.
  intros Hw E. apply word64_full_iff; [done|]. intros i Hi.
  apply (f_equal (fun z => Z.testbit z i)) in E.
  rewrite testbit_lnot64, Z.bits_0, bool_decide_true in E by lia. by destruct (Z.testbit w i).
Qed.

Lemma full_word_bits al j : lword al (j / 64) = 2 ^ 64 - 1 -> lbit al j = true.
Proof. intros E. unfold lbit. rewrite E. apply testbit_full. dlia. Qed.

Lemma next_word_clear al n : forall off,
  level_ok al -> 0 <= off -> Z.of_nat n = map_size al - off ->
  match next_word (drop (Z.to_nat off) (map_ al)) off with
  | Some (o, t) => off <= o < map_size al /\
                   first_clear al (64 * off) (Some (64 * o + ffz (lnot64 t)))
  | None => first_clear al (64 * off) None
  end.
Proof.
  induction n as [|n IH]; intros off Hok Ho Hn.
  - rewrite drop_ge by (rewrite (lo_length al Hok); lia). cbn [next_word first_clear]. lia.
  - assert (Hw : word64 (lword al off)) by (by apply lword_word64).
    rewrite (drop_S _ (lword al off)).
    2:{ pose proof (at_word al off Hok ltac:(lia)) as Hat. unfold at_ in Hat.
        by rewrite decide_True in Hat by lia. }
    cbn [next_word]. case_decide as E.
    + split; [lia|]. rewrite <- (Z.add_0_r (64 * off)) at 1. apply first_clear_word;
        [done|lia|lia|apply word64_lnot64|done|]. intros i Hi.
      rewrite testbit_lnot64, !bool_decide_true by lia. done.
    + apply lnot64_zero in E; [|done].
      specialize (IH (off + 1) Hok ltac:(lia) ltac:(lia)).
      replace (S (Z.to_nat off)) with (Z.to_nat (off + 1)) by lia.
      assert (Hskip : forall r, first_clear al (64 * (off + 1)) r -> first_clear al (64 * off) r).
      { intros r. apply first_clear_skip; [lia|]. intros i Hi _. apply full_word_bits.
        by replace (i / 64) with off by dlia. }
      destruct (next_word _ _) as [[o t]|]; [|by apply Hskip].
      destruct IH as [Ho' IH]. split; [lia|by apply Hskip].
Qed.

(** One level of the search, when everything it skips is known to be set. *)
Lemma find_in_level_clear al i b idx :
  level_ok al -> 0 <= b < 2 ^ 64 -> 0 <= idx < 2 ^ 58 ->
  let base := Z.shiftr b (UNIT_SHIFT * Z.of_nat i) in
  (forall j, base <= j < 64 * idx -> j < 64 * map_size al -> lbit al j = true) ->
  exists r, find_in_level al i b idx = Some r /\ first_clear al base r.
Proof.
  intros Hok Hb Hidx base Hskip. unfold find_in_level. fold base.
  assert (Hbase : 0 <= base) by (apply Z.shiftr_nonneg; lia).
  assert (Hsh : u64 (Z.shiftl idx UNIT_SHIFT) = 64 * idx).
  { unfold UNIT_SHIFT. rewrite Z.shiftl_mul_pow2 by lia. rewrite wrapu_small by lia. lia. }
  rewrite Hsh. set (s := if decide (64 * idx < base) then base else 64 * idx).
  assert (Hs : base <= s /\ forall j, base <= j < s -> j < 64 * map_size al -> lbit al j = true).
  { unfold s. case_decide; split; try lia. intros j Hj. apply Hskip. lia. }
  clearbody s. destruct Hs as [Hs Hskip']. rewrite shift_div, mask_mod.
  pose proof (lo_size al Hok). case_decide as Hoff.
  - exists None. split; [done|]. intros j Hj. apply Hskip'; dlia.
  - assert (Ho : 0 <= s / 64 < map_size al) by dlia.
    rewrite bit_masks_ones, at_word by (done || dlia). cbn [mbind option_bind].
    set (t := Z.land _ _).
    assert (Hwrap : forall k, first_clear al s (Some k) -> forall o t, k = 64 * o + ffz (lnot64 t) ->
              0 <= o < 2 ^ 57 -> u64 (u64 (Z.shiftl o UNIT_SHIFT) + ffz (lnot64 t)) = k).
    { intros k (Hk & _) o t' -> Ho'. unfold UNIT_SHIFT. rewrite Z.shiftl_mul_pow2 by lia.
      rewrite (wrapu_small 64 (o * _)) by lia. rewrite wrapu_small; lia. }
    case_decide as Et.
    + assert (Hc : first_clear al s (Some (64 * (s / 64) + ffz (lnot64 t)))).
      { replace s with (64 * (s / 64) + s `mod` 64) at 1 by dlia.
        apply first_clear_word; [done|done|dlia|by apply word64_land_l, word64_lnot64|done|].
        intros j Hj. unfold t. apply testbit_temp; dlia. }
      eexists. split; [done|]. cbn [mbind option_bind]. rewrite (Hwrap _ Hc _ _ eq_refl) by lia.
      by apply (first_clear_skip al base s).
    + assert (Hfirst : forall j, s <= j < 64 * (s / 64 + 1) -> lbit al j = true).
      { intros j Hj. apply (f_equal (fun z => Z.testbit z (j `mod` 64))) in Et. unfold t in Et.
        rewrite testbit_temp, Z.bits_0, bool_decide_true in Et by dlia. cbn in Et.
        unfold lbit. replace (j / 64) with (s / 64) by dlia. by apply negb_false_iff in Et. }
      pose proof (next_word_clear al (Z.to_nat (map_size al - (s / 64 + 1))) (s / 64 + 1) Hok
        ltac:(lia) ltac:(lia)) as Hn.
      destruct (next_word _ _) as [[o t']|] eqn:En; eexists; (split; [done|]);
        cbn [mbind option_bind].
      * destruct Hn as [Ho' Hn].
        assert (Hc : first_clear al s (Some (64 * o + ffz (lnot64 t')))).
        { eapply first_clear_skip; [..|exact Hn]; [dlia|]. intros j Hj _. by apply Hfirst. }
        rewrite (Hwrap _ Hc _ _ eq_refl) by lia. by apply (first_clear_skip al base s).
      * apply (first_clear_skip al base (64 * (s / 64 + 1))); [dlia| |done].
        intros j Hj Hj'. destruct (decide (j < s)); [apply Hskip'; lia|apply Hfirst; lia].
Qed.

(** The levels above [a] only tell the search which words of [a] to skip. *)
Lemma find_loop_upper ls : forall lv a below b,
  level_ok a -> chain lv a ls -> 0 <= b < 2 ^ 64 ->
  exists r, first_clear a (index_at below b) r /\
    find_loop (rev ls ++ a :: below) b 0 =
      match r with None => Some None | Some j => find_loop below b j end.
Proof.
  induction ls as [|c ls IH]; intros lv a below b Hok Hc Hb.
  - destruct (find_in_level_clear a (length below) b 0) as (r & E & Hr); [done|done|lia| |].
    { intros j Hj. pose proof (index_at_nonneg below b). unfold index_at in *. lia. }
    exists r. split; [done|]. cbn [rev app find_loop]. rewrite E. by destruct r.
  - destruct Hc as (Hlv & Hokc & Hsz & Hlink & Hc).
    pose proof (index_at_nonneg below b ltac:(lia)) as Hnn. pose proof (lo_size a Hok) as Hsa.
    cbn [rev]. rewrite <- app_assoc. cbn [app].
    destruct (IH (lv + 1) c (a :: below) b Hokc Hc Hb) as (rc & Hrc & Ec). rewrite Ec.
    rewrite index_at_cons in Hrc.
    assert (Hfull : forall i, 0 <= i < 64 * map_size a -> lbit c (i / 64) = true -> lbit a i = true).
    { intros i Hi Ht. rewrite Hlink in Ht by (rewrite Hsz; unfold ceil64; dlia).
      apply bool_decide_eq_true in Ht as [_ Ht]. by apply full_word_bits. }
    destruct rc as [j|].
    + destruct Hrc as (Hj & Hcl & Hset). cbn [find_loop].
      destruct (find_in_level_clear a (length below) b j) as (r & E & Hr);
        [done|done|rewrite Hsz in Hj; unfold ceil64 in Hj; dlia| |].
      { intros i Hi Hi'. fold (index_at below b) in Hi. apply Hfull; [lia|]. apply Hset. dlia. }
      exists r. split; [done|]. rewrite E. by destruct r.
    + exists None. split; [|done]. intros i Hi. apply Hfull; [lia|].
      apply Hrc. rewrite Hsz. unfold ceil64. dlia.
Qed.

(** The first free block at or after [s]. *)
Definition first_free (m : axmap) (s : Z) (r : option Z) : Prop :=
  match r with
  | Some j => s <= j < nr_bits m /\ elem m j = false /\ forall i, s <= i < j -> elem m i = true
  | None => forall i, s <= i < nr_bits m -> elem m i = true
  end.

(** Bits beyond the last block do not count. *)
Definition below_nr (m : axmap) (r : option Z) : option Z :=
  index ← r; if decide (index >= nr_bits m) then None else Some index.

Lemma first_clear_free m a ls s r :
  wf_with m a ls -> first_clear a s r -> first_free m s (below_nr m r).
Proof.
  intros [El Hnr Hlv Hok Hsz Hc Ht] Hr. unfold first_free, elem, below_nr. rewrite El.
  assert (Hcap : nr_bits m <= 64 * map_size a) by (rewrite Hsz; unfold ceil64; dlia).
  destruct r as [j|]; cbn [mbind option_bind] in *.
  - destruct Hr as (Hj & Hcl & Hset). case_decide.
    + intros i Hi. apply Hset. lia.
    + split_and!; [lia|lia|done|done].
  - intros i Hi. apply Hr. lia.
Qed.

Lemma find_first_free_ok m s :
  wf m -> 0 <= s < 2 ^ 64 -> exists r, axmap_find_first_free m s = Some r /\ first_free m s r.
Proof.
  intros (a & ls & Hwf) Hs. pose proof Hwf as [El Hnr Hlv Hok Hsz Hc Ht].
  unfold axmap_find_first_free. rewrite El. cbn [rev].
  destruct (find_loop_upper ls 1 a [] s Hok Hc Hs) as (r & Hr & E).
  rewrite index_at_nil in Hr. rewrite E. exists (below_nr m r).
  split; [by destruct r|by eapply first_clear_free].
Qed.

(** The quick look at the word of level 0 where the search starts. *)
Lemma quick_look m a ls s :
  wf_with m a ls -> 0 <= s < nr_bits m ->
  let t := Z.land (lnot64 (Z.ones (s `mod` 64))) (lnot64 (lword a (s / 64))) in
  t <> 0 ->
  let ret := u64 (u64 (Z.shiftl (s / 64) UNIT_SHIFT) + ffz (lnot64 t)) in
  first_free m s (if decide (ret >= nr_bits m) then None else Some ret).
Proof.
  intros Hwf Hs t Et. pose proof Hwf as [_ Hnr _ Hok Hsz _ _].
  assert (Hfc : first_clear a s (Some (64 * (s / 64) + ffz (lnot64 t)))).
  { replace s with (64 * (s / 64) + s `mod` 64) at 1 by dlia.
    apply first_clear_word; [done|rewrite Hsz; unfold ceil64; dlia|dlia| |done|].
    - by apply word64_land_l, word64_lnot64.
    - intros j Hj. unfold t. apply testbit_temp; dlia. }
  pose proof (lo_size a Hok). destruct (Hfc) as (Hj & _).
  cbv zeta. unfold UNIT_SHIFT. rewrite Z.shiftl_mul_pow2 by lia. change (2 ^ 6) with 64.
  rewrite (wrapu_small 64 (s / 64 * 64)) by dlia. rewrite wrapu_small by lia.
  replace (s / 64 * 64) with (64 * (s / 64)) by lia. apply (first_clear_free m a ls s _ Hwf Hfc).
Qed.

(** [axmap_next_free] returns the next free block after [bit_nr] in cyclic
    order, and [-1] exactly when every block is taken. *)
Lemma axmap_next_free_cyclic m b :
  wf m -> 0 <= b < nr_bits m ->
  exists r, axmap_next_free m b = Some r /\
    match r with
    | Some j => 0 <= j < nr_bits m /\ elem m j = false /\
        if decide (b < j) then forall i, b < i < j -> elem m i = true
        else (forall i, b < i < nr_bits m -> elem m i = true) /\
             (forall i, 0 <= i < j -> elem m i = true)
    | None => forall i, 0 <= i < nr_bits m -> elem m i = true
    end.
Proof.
  intros Hwfm Hb. destruct (Hwfm) as (a & ls & Hwf). pose proof Hwf as [El Hnr Hlv Hok Hsz Hc Ht].
  unfold axmap_next_free. rewrite (wrapu_small 64 (b + 1)) by lia. rewrite decide_False by lia.
  set (s := if decide (b + 1 = nr_bits m) then 0 else b + 1).
  assert (Hs : 0 <= s < nr_bits m /\ (s = b + 1 \/ s = 0 /\ b + 1 = nr_bits m))
    by (unfold s; case_decide; lia).
  clearbody s. rewrite shift_div, mask_mod, bit_masks_ones by dlia. cbn [mbind option_bind].
  assert (Hoff : 0 <= s / 64 < map_size a) by (rewrite Hsz; unfold ceil64; dlia).
  rewrite El. cbn [lookup list_lookup mbind option_bind]. rewrite at_word by done.
  cbn [mbind option_bind]. set (t := Z.land _ _).
  assert (Hret : exists r,
    (if decide (t <> 0) then
       Some (if decide (u64 (u64 (Z.shiftl (s / 64) UNIT_SHIFT) + ffz (lnot64 t)) >= nr_bits m)
             then None else Some (u64 (u64 (Z.shiftl (s / 64) UNIT_SHIFT) + ffz (lnot64 t))))
     else axmap_find_first_free m s) = Some r /\ first_free m s r).
  { case_decide; [|apply find_first_free_ok; [done|lia]].
    eexists. split; [done|]. apply (quick_look m a ls s Hwf); [lia|done]. }
  destruct Hret as (r & -> & Hr). cbn [mbind option_bind]. destruct r as [j|].
  - exists (Some j). split; [done|]. destruct Hr as (Hj & Hfr & Hset).
    split_and!; [lia|lia|done|]. destruct Hs as [Hs [->|[-> Hlast]]].
    + rewrite decide_True by lia. intros i Hi. apply Hset. lia.
    + rewrite decide_False by lia. split; [lia|]. intros i Hi. apply Hset. lia.
  - destruct (decide (s <> 0)) as [Hne|Hz].
    + destruct (find_first_free_ok m 0 Hwfm ltac:(lia)) as (r & E & Hr0). exists r.
      split; [done|]. destruct r as [j|]; cbn in Hr0.
      * destruct Hr0 as (Hj & Hfr & Hset). split_and!; [lia|lia|done|].
        assert (j <= b).
        { destruct (decide (j <= b)); [done|]. specialize (Hr j ltac:(lia)). congruence. }
        rewrite decide_False by lia. split; [intros i Hi; apply Hr; lia|done].
      * intros i Hi. apply Hr0. lia.
    + exists None. split; [done|]. intros i Hi. apply Hr. lia.
Qed.
