(* ===== verification/AxmapSpec.v ===== *)
(** * The axmap implements a set of blocks

    The abstract map is a finite set of block numbers with the three operations
    fio uses.  [BlockMap] states what a client may rely on; the axmap is an
    instance, and any sequence of operations on it answers as the set does. *)

From S2P Require Import Prelude Bits Axmap AxmapProofs AxmapFind.

Open Scope Z_scope.

(** ** The abstract map *)

(** How many of the [n] blocks from [b] on are free before the first taken one. *)
Fixpoint run_len (s : gset Z) (b : Z) (n : nat) : Z :=
  match n with
  | O => 0
  | S n' => if decide (b ∈ s) then 0 else 1 + run_len s (b + 1) n'
  end.

Definition spec_set_nr (s : gset Z) (b c : Z) : Z * gset Z :=
  let k := run_len s b (Z.to_nat c) in (k, s ∪ list_to_set (seqZ b k)).

(** The first free block after [b], in cyclic order, of the [n] blocks. *)
Definition spec_next (s : gset Z) (n b : Z) : option Z :=
  head (filter (fun j => j ∉ s) (seqZ (b + 1) (n - b - 1) ++ seqZ 0 (b + 1))).

(** ** The interface *)

Class BlockMap (M : Type) := {
  bm_set_nr : M -> Z -> Z -> option (Z * M);
  bm_isset : M -> Z -> option bool;
  bm_next_free : M -> Z -> option (option Z);
  bm_reset : M -> M;
  (** [bm_rep m n s]: the map [m] of [n] blocks holds the set [s]. *)
  bm_rep : M -> Z -> gset Z -> Prop;
  bm_range m n s j : bm_rep m n s -> j ∈ s -> 0 <= j < n;
  bm_set_nr_law m n s b c :
    bm_rep m n s -> 0 <= b -> 1 <= c < 2 ^ 32 -> b + c <= n ->
    exists m', bm_set_nr m b c = Some ((spec_set_nr s b c).1, m') /\
               bm_rep m' n (spec_set_nr s b c).2;
  bm_isset_law m n s b :
    bm_rep m n s -> 0 <= b < n -> bm_isset m b = Some (bool_decide (b ∈ s));
  bm_next_free_law m n s b :
    bm_rep m n s -> 0 <= b < n -> bm_next_free m b = Some (spec_next s n b);
  bm_reset_law m n s : bm_rep m n s -> bm_rep (bm_reset m) n ∅
}.

(** ** The axmap as an instance *)

Definition axmap_rep (m : axmap) (n : Z) (s : gset Z) : Prop :=
  wf m /\ nr_bits m = n /\ (forall j, j ∈ s -> 0 <= j < n) /\
  forall j, 0 <= j < n -> elem m j = bool_decide (j ∈ s).

Lemma run_len_free s n : forall b k,
  0 <= k <= Z.of_nat n -> (forall j, b <= j < b + k -> j ∉ s) -> (k < Z.of_nat n -> b + k ∈ s) ->
  run_len s b n = k.
Proof.
  induction n as [|n IH]; intros b k Hk Hfree Hend; cbn [run_len]; [lia|].
  case_decide as Hb.
  - destruct (decide (k = 0)); [done|]. exfalso. apply (Hfree b); [lia|done].
  - destruct (decide (k = 0)) as [->|Hne].
    { exfalso. apply Hb. replace b with (b + 0) by lia. apply Hend. lia. }
    rewrite (IH (b + 1) (k - 1)); [lia|lia| |].
    + intros j Hj. apply Hfree. lia.
    + intros Hlt. replace (b + 1 + (k - 1)) with (b + k) by lia. apply Hend. lia.
Qed.

(** The first element of a range that satisfies a predicate. *)
Lemma head_filter_first (P : Z -> Prop) `{forall x, Decision (P x)} l1 j l2 :
  P j -> (forall i, i ∈ l1 -> ~ P i) -> head (filter P (l1 ++ j :: l2)) = Some j.
Proof.
  intros Hj Hl. induction l1 as [|x l1 IH]; cbn [app].
  - by rewrite filter_cons_True.
  - rewrite filter_cons_False by (apply Hl; by left). apply IH. intros i Hi. apply Hl. by right.
Qed.

Lemma head_filter_none (P : Z -> Prop) `{forall x, Decision (P x)} l :
  (forall i, i ∈ l -> ~ P i) -> head (filter P l) = None.
Proof.
  intros Hl. induction l as [|x l IH]; [done|].
  rewrite filter_cons_False by (apply Hl; by left). apply IH. intros i Hi. apply Hl. by right.
Qed.

Lemma seqZ_split a n j : a <= j < a + n -> seqZ a n = seqZ a (j - a) ++ j :: seqZ (j + 1) (n - (j - a) - 1).
Proof.
  intros Hj. replace n with ((j - a) + (n - (j - a))) at 1 by lia. rewrite seqZ_app by lia.
  f_equal. replace (a + (j - a)) with j by lia. rewrite seqZ_cons by lia. f_equal.
Qed.

Lemma axmap_set_nr_law m n s b c :
  axmap_rep m n s -> 0 <= b -> 1 <= c < 2 ^ 32 -> b + c <= n ->
  exists m', axmap_set_nr m b c = Some ((spec_set_nr s b c).1, m') /\
             axmap_rep m' n (spec_set_nr s b c).2.
Proof.
  intros (Hwf & Hn & Hrange & Hel) Hb Hc Hle. subst n.
  destruct (axmap_set_nr_run m b c Hwf Hb Hc Hle) as (k & m' & E & (Hk & Hfree & Hend) & (Hwf' & Hnr & Hel')).
  assert (Hrun : run_len s b (Z.to_nat c) = k).
  { apply run_len_free; [lia| |].
    - intros j Hj Hjs. specialize (Hfree j Hj). rewrite Hel in Hfree by lia.
      by apply bool_decide_eq_false in Hfree.
    - intros Hlt. specialize (Hend ltac:(lia)). rewrite Hel in Hend by lia.
      by apply bool_decide_eq_true in Hend. }
  unfold spec_set_nr. cbn [fst snd]. rewrite Hrun. exists m'. split; [done|].
  split; [done|]. split; [done|]. split.
  - intros j [Hj|Hj]%elem_of_union; [by apply Hrange|].
    apply elem_of_list_to_set, elem_of_seqZ in Hj. lia.
  - intros j Hj. rewrite Hel' by lia. rewrite Hel by done. rewrite <- bool_decide_or.
    apply bool_decide_ext. rewrite elem_of_union, elem_of_list_to_set, elem_of_seqZ. done.
Qed.

Lemma axmap_isset_law m n s b :
  axmap_rep m n s -> 0 <= b < n -> axmap_isset m b = Some (bool_decide (b ∈ s)).
Proof.
  intros (Hwf & Hn & _ & Hel) Hb. rewrite axmap_isset_elem by (done || lia).
  rewrite decide_True by lia. f_equal. by apply Hel.
Qed.

Lemma axmap_next_free_law m n s b :
  axmap_rep m n s -> 0 <= b < n -> axmap_next_free m b = Some (spec_next s n b).
Proof.
  intros (Hwf & Hn & _ & Hel) Hb. subst n.
  destruct (axmap_next_free_cyclic m b Hwf Hb) as (r & -> & Hr). f_equal. symmetry.
  assert (Hin : forall i, 0 <= i < nr_bits m -> elem m i = true -> ~ (i ∉ s)).
  { intros i Hi Ht. rewrite Hel in Ht by done. apply bool_decide_eq_true in Ht. tauto. }
  unfold spec_next. destruct r as [j|].
  - destruct Hr as (Hj & Hfr & Hset). rewrite Hel in Hfr by done. apply bool_decide_eq_false in Hfr.
    case_decide as Hbj.
    + rewrite (seqZ_split (b + 1) (nr_bits m - b - 1) j) by lia. rewrite <- app_assoc. cbn [app].
      apply head_filter_first; [done|]. intros i Hi%elem_of_seqZ. apply Hin; [lia|apply Hset; lia].
    + destruct Hset as [Hhi Hlo]. rewrite (seqZ_split 0 (b + 1) j) by lia. rewrite app_assoc.
      apply head_filter_first; [done|]. intros i [Hi|Hi]%elem_of_app; apply elem_of_seqZ in Hi;
        apply Hin; first [lia | apply Hhi; lia | apply Hlo; lia].
  - apply head_filter_none. intros i [Hi|Hi]%elem_of_app; apply elem_of_seqZ in Hi;
      (apply Hin; [lia|apply Hr; lia]).
Qed.

Lemma chain_sized ls : forall lv a, chain lv a ls -> sized lv (map_size a) ls.
Proof.
  induction ls as [|b ls IH]; intros lv a Hc; [done|]. destruct Hc as (Hlv & _ & Hsz & _ & Hc).
  split_and!; [done|done|]. rewrite <- Hsz. by apply IH.
Qed.

Lemma axmap_reset_law m n s : axmap_rep m n s -> axmap_rep (axmap_reset m) n ∅.
Proof.
  intros ((a & ls & [El Hnr Hlv Hok Hsz Hc Ht]) & Hn & _ & _).
  assert (Hz : zero_level (reset_level a)) by apply reset_level_zero.
  assert (Hok' : level_ok (reset_level a)) by apply level_ok_reset, (lo_size a Hok).
  split; [|split; [done|split]].
  - exists (reset_level a), (reset_level <$> ls). unfold axmap_reset. rewrite El.
    split; cbn [levels nr_bits fmap list_fmap]; [done|done|done|done|done| |].
    + apply zero_chain; [done|done|]. exact (chain_sized ls 1 a Hc).
    + intros j _. by apply zero_lbit.
  - intros j Hj. by apply not_elem_of_empty in Hj.
  - intros j Hj. unfold elem, axmap_reset. rewrite El. cbn [levels fmap list_fmap].
    rewrite zero_lbit by done. symmetry. apply bool_decide_false, not_elem_of_empty.
Qed.

#[export] Instance axmap_BlockMap : BlockMap axmap := {
  bm_set_nr := axmap_set_nr;
  bm_isset := axmap_isset;
  bm_next_free := axmap_next_free;
  bm_reset := axmap_reset;
  bm_rep := axmap_rep;
  bm_range m n s j H := proj1 (proj2 (proj2 H)) j;
  bm_set_nr_law := axmap_set_nr_law;
  bm_isset_law := axmap_isset_law;
  bm_next_free_law := axmap_next_free_law;
  bm_reset_law := axmap_reset_law
}.

Lemma axmap_new_rep mem bits m :
  0 <= bits < 2 ^ 63 -> axmap_new true true mem bits = Some (Some m) -> axmap_rep m bits ∅.
Proof.
  intros Hb E. destruct (axmap_new_cases mem bits Hb) as (n & _ & _ & H).
  destruct (alloc_levels mem n 0 bits); [|congruence].
  destruct H as (m' & E' & Hwf & Hnr & Hel). assert (m' = m) as -> by congruence.
  split; [done|]. split; [done|]. split; [intros j Hj; by apply not_elem_of_empty in Hj|].
  intros j _. rewrite Hel. symmetry. apply bool_decide_false, not_elem_of_empty.
Qed.

(** ** Sequences of operations *)

Inductive map_op :=
  | OpSetNr (b c : Z)
  | OpIsset (b : Z)
  | OpNext (b : Z)
  | OpReset.

Inductive map_out :=
  | OutCount (k : Z)
  | OutBool (r : bool)
  | OutBlock (r : option Z)
  | OutNone.

(** The operations fio may call on a map of [n] blocks. *)
Definition valid_op (n : Z) (p : map_op) : Prop :=
  match p with
  | OpSetNr b c => 0 <= b /\ 1 <= c < 2 ^ 32 /\ b + c <= n
  | OpIsset b | OpNext b => 0 <= b < n
  | OpReset => True
  end.

Definition axmap_op (m : axmap) (p : map_op) : option (map_out * axmap) :=
  match p with
  | OpSetNr b c => '(k, m) ← axmap_set_nr m b c; Some (OutCount k, m)
  | OpIsset b => r ← axmap_isset m b; Some (OutBool r, m)
  | OpNext b => r ← axmap_next_free m b; Some (OutBlock r, m)
  | OpReset => Some (OutNone, axmap_reset m)
  end.

Definition spec_op (n : Z) (s : gset Z) (p : map_op) : map_out * gset Z :=
  match p with
  | OpSetNr b c => let '(k, s) := spec_set_nr s b c in (OutCount k, s)
  | OpIsset b => (OutBool (bool_decide (b ∈ s)), s)
  | OpNext b => (OutBlock (spec_next s n b), s)
  | OpReset => (OutNone, ∅)
  end.

Fixpoint axmap_ops (m : axmap) (ps : list map_op) : option (list map_out) :=
  match ps with
  | [] => Some []
  | p :: ps' => '(r, m) ← axmap_op m p; rs ← axmap_ops m ps'; Some (r :: rs)
  end.

Fixpoint spec_ops (n : Z) (s : gset Z) (ps : list map_op) : list map_out :=
  match ps with
  | [] => []
  | p :: ps' => let '(r, s) := spec_op n s p in r :: spec_ops n s ps'
  end.

Lemma axmap_op_simulates m n s p :
  axmap_rep m n s -> valid_op n p ->
  exists m', axmap_op m p = Some ((spec_op n s p).1, m') /\ axmap_rep m' n (spec_op n s p).2.
Proof.
  intros Hr Hv. destruct p as [b c|b|b|]; cbn [axmap_op spec_op valid_op] in *.
  - destruct Hv as (Hb & Hc & Hle). destruct (axmap_set_nr_law m n s b c Hr Hb Hc Hle) as (m' & E & Hr').
    rewrite E. destruct (spec_set_nr s b c) as [k s']. by exists m'.
  - exists m. by rewrite (axmap_isset_law m n s).
  - exists m. by rewrite (axmap_next_free_law m n s).
  - exists (axmap_reset m). split; [done|]. by eapply axmap_reset_law.
Qed.

Lemma axmap_ops_simulate ps : forall m n s,
  axmap_rep m n s -> Forall (valid_op n) ps -> axmap_ops m ps = Some (spec_ops n s ps).
Proof.
  induction ps as [|p ps IH]; intros m n s Hr Hv; [done|]. inversion_clear Hv as [|? ? Hp Hps].
  cbn [axmap_ops spec_ops]. destruct (axmap_op_simulates m n s p Hr Hp) as (m' & -> & Hr').
  destruct (spec_op n s p) as [r s']. cbn [mbind option_bind fst snd] in *.
  by rewrite (IH m' n s').
Qed.

(** C8: A map from [axmap_new] refines a finite set: any sequence of marking,
    testing, searching and resetting, at blocks of the map, gives the answers
    of the set, whatever the allocated memory held. *)
Theorem axmap_refines_set mem bits m ps :
  0 <= bits < 2 ^ 63 -> axmap_new true true mem bits = Some (Some m) ->
  Forall (valid_op bits) ps -> axmap_ops m ps = Some (spec_ops bits ∅ ps).
Proof.
  intros Hb E Hv. apply axmap_ops_simulate; [|done]. by eapply axmap_new_rep.
Qed.

Lemma axmap_refines_set_witness :
  exists m, axmap_new true true (fun _ => Some [7; 9]) 5000 = Some (Some m) /\
    axmap_ops m [OpSetNr 60 200; OpIsset 259; OpSetNr 0 100; OpNext 3; OpReset; OpNext 4999] =
      Some (spec_ops 5000 ∅ [OpSetNr 60 200; OpIsset 259; OpSetNr 0 100; OpNext 3; OpReset; OpNext 4999]).
Proof.
  eexists. split; [vm_compute; reflexivity|].
  apply (axmap_refines_set (fun _ => Some [7; 9]) 5000); [lia|vm_compute; reflexivity|].
  repeat constructor; cbn; lia.
Defined.

(** ** Beyond the end of the map *)

(** A fresh map, the memory for it granted. *)
Definition zeroed_map (bits : Z) : option axmap :=
  m ← axmap_new true true (fun _ => Some []) bits; m.

(** [axmap_set_nr] does not clip at the end of the map although it computes the
    clipped length: marking 10 blocks at block 65 of 70 also sets bits for blocks
    that do not exist, and at block 60 of 64 it runs off the array; testing block
    [nr_bits] does too when that is a multiple of 64. *)
Theorem axmap_past_end :
  (m ← zeroed_map 70; '(k, m) ← axmap_set_nr m 65 10; Some (k, elem m 69, elem m 74)) = Some (10, true, true) /\
  (m ← zeroed_map 64; axmap_set_nr m 60 10) = None /\
  (m ← zeroed_map 64; axmap_isset m 64) = None.
Proof. vm_compute. auto. Qed.
