(* ===== verification/Lfsr.v ===== *)
(** * The linear-feedback shift register (src/fio/lib/lfsr.c)

    fio's alternative to a random map: a register of [n] bits whose states visit
    every value but the all-ones one, in an order that looks random.  The
    functions follow the source; a [fio_lfsr] is changed by returning the new
    one. *)

From S2P Require Import Prelude Bits.

Open Scope Z_scope.

Definition FIO_MAX_TAPS : nat := 6.

(** Rows are written without their trailing zeros. *)
Definition lfsr_taps : list (list Z) :=
  [[0]; [0]; [0]; [3; 2]; [4; 3]; [5; 3]; [6; 5]; [7; 6]; [8; 6; 5; 4]; [9; 5]; [10; 7];
   [11; 9]; [12; 6; 4; 1]; [13; 4; 3; 1]; [14; 5; 3; 1]; [15; 14]; [16; 15; 13; 4]; [17; 14];
   [18; 11]; [19; 6; 2; 1]; [20; 17]; [21; 19]; [22; 21]; [23; 18]; [24; 23; 22; 17]; [25; 22];
   [26; 6; 2; 1]; [27; 5; 2; 1]; [28; 25]; [29; 27]; [30; 6; 4; 1]; [31; 28]; [32; 31; 29; 1];
   [33; 20]; [34; 27; 2; 1]; [35; 33]; [36; 25]; [37; 5; 4; 3; 2; 1]; [38; 6; 5; 1]; [39; 35];
   [40; 38; 21; 19]; [41; 38]; [42; 41; 20; 19]; [43; 42; 38; 37]; [44; 43; 18; 17];
   [45; 44; 42; 41]; [46; 45; 26; 25]; [47; 42]; [48; 47; 21; 20]; [49; 40]; [50; 49; 24; 23];
   [51; 50; 36; 35]; [52; 49]; [53; 52; 38; 37]; [54; 53; 18; 17]; [55; 31]; [56; 55; 35; 34];
   [57; 50]; [58; 39]; [59; 58; 38; 37]; [60; 59]; [61; 60; 46; 45]; [62; 61; 6; 5]; [63; 62]].

Record fio_lfsr := Lfsr {
  xormask : Z;
  last_val : Z;
  cached_bit : Z;
  max_val : Z;
  num_vals : Z;
  cycle_length : Z;
  cached_cycle_length : Z;
  spin : Z
}.

Definition set_last_val (fl : fio_lfsr) (v : Z) : fio_lfsr :=
  Lfsr (xormask fl) v (cached_bit fl) (max_val fl) (num_vals fl) (cycle_length fl)
       (cached_cycle_length fl) (spin fl).
Definition set_cycle_length (fl : fio_lfsr) (c : Z) : fio_lfsr :=
  Lfsr (xormask fl) (last_val fl) (cached_bit fl) (max_val fl) (num_vals fl) c
       (cached_cycle_length fl) (spin fl).
Definition set_num_vals (fl : fio_lfsr) (n : Z) : fio_lfsr :=
  Lfsr (xormask fl) (last_val fl) (cached_bit fl) (max_val fl) n (cycle_length fl)
       (cached_cycle_length fl) (spin fl).

(** The macro [__LFSR_NEXT]. *)
Definition LFSR_NEXT (fl : fio_lfsr) (v : Z) : Z :=
  Z.lxor (Z.lor (Z.shiftr v 1) (cached_bit fl))
         (Z.land (u64 (Z.land v 1 - 1)) (xormask fl)).

(** The switch falls through: [spin + 1] steps, and none for a [spin] over 15. *)
Definition lfsr_next_ (fl : fio_lfsr) (sp : Z) : fio_lfsr :=
  if decide (0 <= sp <= 15)
  then set_last_val fl (Nat.iter (S (Z.to_nat sp)) (LFSR_NEXT fl) (last_val fl))
  else fl.

(** One round of the [do ... while] loop. *)
Definition lfsr_round (fl : fio_lfsr) : fio_lfsr :=
  if decide (cycle_length fl <> 0) then
    let fl := set_cycle_length fl (cycle_length fl - 1) in
    if decide (cycle_length fl = 0) then
      let fl := lfsr_next_ fl (u32 (spin fl + 1)) in
      set_cycle_length fl (cached_cycle_length fl)
    else lfsr_next_ fl (spin fl)
  else lfsr_next_ fl (spin fl).

Definition lfsr_body (fl : fio_lfsr) : fio_lfsr + fio_lfsr :=
  let fl := lfsr_round fl in
  if decide (last_val fl > max_val fl) then inl fl else inr fl.

(** The inner [None] is the return value 1; the outer one means that the loop
    did not end in [2^64] rounds. *)
Definition lfsr_next (fl : fio_lfsr) : option (option Z * fio_lfsr) :=
  let n := num_vals fl in
  let fl := set_num_vals fl (u64 (n + 1)) in
  if decide (n > max_val fl) then Some (None, fl)
  else match loop2 lfsr_body 64 fl with
       | inr fl => Some (Some (last_val fl), fl)
       | inl _ => None
       end.

Fixpoint create_xormask (taps : list Z) (xm : Z) : Z :=
  match taps with
  | [] => xm
  | t :: taps' => if decide (t <> 0) then create_xormask taps' (Z.lor xm (Z.shiftl 1 (t - 1))) else xm
  end.

Definition lfsr_create_xormask (taps : list Z) : Z := create_xormask (take FIO_MAX_TAPS taps) 0.

(** [for (i = 3; i < 64; i++) if ((1ULL << i) > size) return lfsr_taps[i];] *)
Fixpoint find_lfsr_from (k : nat) (i : Z) (size : Z) : option (list Z) :=
  match k with
  | O => None
  | S k' => if decide (Z.shiftl 1 i > size) then lfsr_taps !! Z.to_nat i
            else find_lfsr_from k' (i + 1) size
  end.

Definition find_lfsr (size : Z) : option (list Z) := find_lfsr_from 61 3 size.

(** [for (i = 1; i <= spin; i++)] with its [break]; [k] counts the rounds left. *)
Fixpoint find_cycle (k : nat) (i sp x y : Z) : Z :=
  match k with
  | O => 0
  | S k' => if decide (u64 (y * i) `mod` (sp + 1) = 0)
            then u64 (u64 (x * i) + u64 (y * i) / (sp + 1))
            else find_cycle k' (i + 1) sp x y
  end.

Definition prepare_spin (fl : fio_lfsr) (sp : Z) : option fio_lfsr :=
  let max := u64 (u64 (Z.shiftl (cached_bit fl) 1) - 1) in
  if decide (sp > 15) then None
  else
    let x := max / (sp + 1) in
    let y := max `mod` (sp + 1) in
    let c := find_cycle (Z.to_nat sp) 1 sp x y in
    Some (Lfsr (xormask fl) (last_val fl) (cached_bit fl) (max_val fl) (num_vals fl)
               (u64 (c + 1)) c sp).

(** The register after the reset, and whether the seed was usable. *)
Definition lfsr_reset (fl : fio_lfsr) (seed : Z) : bool * fio_lfsr :=
  let bitmask := u64 (u64 (Z.shiftl (cached_bit fl) 1) - 1) in
  let fl := set_last_val (set_num_vals fl 0) (Z.land seed bitmask) in
  (bool_decide (last_val fl <> bitmask), fl).

(** [fl0] is what the structure held before; [None] is the return value 1. *)
Definition lfsr_init (fl0 : fio_lfsr) (nums seed sp : Z) : option fio_lfsr :=
  taps ← find_lfsr nums;
  t0 ← head taps;
  let fl := Lfsr (lfsr_create_xormask taps) (last_val fl0) (Z.shiftl 1 (t0 - 1)) (u64 (nums - 1))
                 (num_vals fl0) (cycle_length fl0) (cached_cycle_length fl0) (spin fl0) in
  fl ← prepare_spin fl sp;
  let '(ok, fl) := lfsr_reset fl seed in
  if (ok : bool) then Some fl else None.

(** [n] calls of [lfsr_next]: the values delivered. *)
Fixpoint lfsr_run (n : nat) (fl : fio_lfsr) : option (list Z * fio_lfsr) :=
  match n with
  | O => Some ([], fl)
  | S n' =>
      '(r, fl) ← lfsr_next fl;
      v ← r;
      '(vs, fl) ← lfsr_run n' fl;
      Some (v :: vs, fl)
  end.

Example lfsr_small :
  (fl ← lfsr_init (Lfsr 0 0 0 0 0 0 0 0) 10 5 0;
   '(vs, fl) ← lfsr_run 10 fl; '(r, _) ← lfsr_next fl; Some (vs, r))
  = Some ([1; 8; 0; 4; 6; 7; 3; 9; 2; 5], None).
Proof. vm_compute. reflexivity. Qed.
