(* ===== verification/LfsrMax.v ===== *)
(** * The tap table gives registers of maximal length

    A register of [n] bits in its complemented form is a linear map over bit
    vectors.  Its order is decided without walking the orbit: the map is raised
    to the powers [2^n - 1] and [(2^n - 1) / q] for the primes [q] that divide
    [2^n - 1], by repeated squaring of its matrix. *)

From Stdlib Require Import Zdivisibility.
From S2P Require Import Prelude Bits Gf2 Lfsr.

Open Scope Z_scope.

(** ** Periods of an iterated function *)

Section periods.
Context {A : Type} (f : A -> A) (x : A).

Definition per (k : nat) : Prop := Nat.iter k f x = x.

Lemma iter_plus i j y : Nat.iter (i + j) f y = Nat.iter i f (Nat.iter j f y).
Proof. induction i as [|i IH]; simpl; [done|]. by rewrite IH. Qed.

Lemma per_mul p c : per p -> per (c * p).
Proof.
  intros Hp. unfold per in *. induction c as [|c IH]; [done|].
  change (S c * p)%nat with (p + c * p)%nat. by rewrite iter_plus, IH.
Qed.

Lemma per_mod p k : per p -> per k -> per (k mod p).
Proof.
  intros Hp Hk. unfold per in *. rewrite (Nat.div_mod_eq k p), Nat.add_comm in Hk.
  rewrite iter_plus in Hk. rewrite (Nat.mul_comm p) in Hk. by rewrite (per_mul p _ Hp) in Hk.
Qed.

Lemma least_period N :
  (forall a b : A, Decision (a = b)) -> (0 < N)%nat -> per N ->
  exists p, (0 < p)%nat /\ per p /\ forall k, (0 < k < p)%nat -> ~ per k.
Proof.
  intros Hdec. induction N as [N IH] using lt_wf_ind. intros HN Hper.
  destruct (decide (Exists per (seq 1 (N - 1)))) as [He|Hne].
  - apply Exists_exists in He as (k & Hk%elem_of_seq & Hpk). apply (IH k); [lia|lia|done].
  - exists N. split_and!; [done|done|]. intros k Hk Hpk. apply Hne, Exists_exists. exists k.
    split; [apply elem_of_seq; lia|done].
Qed.

(** The least period divides every period. *)
Lemma least_divides p k :
  (0 < p)%nat -> per p -> (forall k, (0 < k < p)%nat -> ~ per k) -> per k -> (k mod p = 0)%nat.
Proof.
  intros Hp0 Hp Hmin Hk. destruct (decide (k mod p = 0)%nat) as [|Hne]; [done|].
  exfalso. apply (Hmin (k mod p)%nat); [|by apply per_mod].
  pose proof (Nat.mod_upper_bound k p). lia.
Qed.
End periods.

(** ** Primes *)

(** A product of primes has no other prime factors. *)
Lemma prime_in_product l q :
  Z.prime q -> Forall Z.prime l -> (q | foldr Z.mul 1 l) -> q ∈ l.
Proof.
  intros Hq Hl. induction Hl as [|r l Hr Hl IH]; cbn [foldr]; intros Hd.
  - apply Z.prime_ge_2 in Hq. apply Z.divide_1_r in Hd. lia.
  - apply Z.divide_prime_mul in Hd as [Hd|Hd]; [| |done].
    + apply Z.divide_prime_prime in Hd as ->; [|done|done]. by left.
    + right. by apply IH.
Qed.

Lemma prime_factor c : 1 < c -> exists q, Z.prime q /\ (q | c).
Proof.
  intros Hc. assert (Hpos : 0 <= c) by lia. revert Hc. pattern c.
  apply Z_lt_induction; [|done]. clear. intros c IH Hc.
  destruct (decide (Exists (fun d => c mod d = 0) (seqZ 2 (c - 2)))) as [He|Hn].
  - apply Exists_exists in He as (d & Hd%elem_of_seqZ & Hdiv).
    apply Z.mod_divide in Hdiv; [|lia]. destruct (IH d) as (q & Hq & Hqd); [lia|lia|]. exists q. split; [done|]. by etransitivity.
  - exists c. split; [|done]. split; [done|]. intros d Hd Hdiv. apply Hn, Exists_exists. exists d.
    split; [apply elem_of_seqZ; lia|]. apply Z.mod_divide; [lia|done].
Qed.

(** Trial division by [d], [d + 1], ... *)
Fixpoint trial (k : nat) (d q : Z) : bool :=
  match k with
  | O => true
  | S k' => negb (q mod d =? 0) && trial k' (d + 1) q
  end.

Lemma trial_spec k : forall d q n,
  0 < d -> trial k d q = true -> d <= n < d + Z.of_nat k -> ~ (n | q).
Proof.
  induction k as [|k IH]; intros d q n Hd Ht Hn; [lia|]. cbn [trial] in Ht.
  apply andb_true_iff in Ht as [Hq%negb_true_iff%Z.eqb_neq Ht].
  destruct (decide (n = d)) as [->|Hne].
  - intros [c ->]. rewrite Z.mod_mul in Hq by lia. done.
  - apply (IH (d + 1)); [lia|done|lia].
Qed.

Lemma prime_trial k q :
  1 < q < (Z.of_nat k + 2) * (Z.of_nat k + 2) -> trial k 2 q = true -> Z.prime q.
Proof.
  intros Hq Ht. split; [lia|]. intros n Hn [m Hm].
  assert (Hm1 : 1 < m) by nia.
  destruct (decide (n < Z.of_nat k + 2)) as [Hs|Hs].
  - apply (trial_spec k 2 q n); [lia|done|lia|by exists m].
  - apply (trial_spec k 2 q m); [lia|done| |exists n; lia].
    split; [lia|]. assert (m < Z.of_nat k + 2) by nia. lia.
Qed.

(** If [N] is a period and no [N / q] is, for the primes [q] of [N], then [N]
    is the least period. *)
Lemma full_period {A} (f : A -> A) (x : A) (N : nat) (l : list Z) :
  (forall a b : A, Decision (a = b)) -> (0 < N)%nat -> Forall Z.prime l -> Z.of_nat N = foldr Z.mul 1 l ->
  per f x N -> (forall q, q ∈ l -> ~ per f x (Z.to_nat (Z.of_nat N / q))) ->
  forall k, (0 < k < N)%nat -> ~ per f x k.
Proof.
  intros Hdec HN Hl Hprod Hper Hq.
  destruct (least_period f x N Hdec HN Hper) as (p & Hp0 & Hp & Hmin).
  assert (HpN : p = N).
  { pose proof (least_divides f x p N Hp0 Hp Hmin Hper) as Hmod.
    apply Nat.Div0.div_exact in Hmod. generalize dependent (N / p)%nat. intros c Hc'.
    destruct (decide (c <= 1)%nat) as [Hc|Hc].
    { destruct c as [|[|]]; lia. }
    exfalso.
    destruct (prime_factor (Z.of_nat c)) as (q & Hqp & [d Hd]); [lia|].
    pose proof (Z.prime_ge_2 q Hqp) as Hq2.
    assert (Hin : q ∈ l).
    { apply prime_in_product; [done|done|]. rewrite <- Hprod. exists (Z.of_nat p * d). nia. }
    apply (Hq q Hin). replace (Z.of_nat N / q) with (Z.of_nat (Z.to_nat d * p)).
    - rewrite Nat2Z.id. by apply per_mul.
    - apply Z.div_unique_exact; [lia|]. rewrite Nat2Z.inj_mul, Z2Nat.id by nia. nia. }
  subst p. intros k Hk. by apply Hmin.
Qed.

(** ** Matrices over bit vectors *)

(** A matrix as its columns, applied to the bits of [w]. *)
Fixpoint apply_cols (cols : list Z) (w : Z) : Z :=
  match cols with
  | [] => 0
  | c :: cols' => if Z.odd w then Z.lxor c (apply_cols cols' (Z.div2 w))
                  else apply_cols cols' (Z.div2 w)
  end.

Fixpoint cols_from (f : Z -> Z) (i : Z) (n : nat) : list Z :=
  match n with
  | O => []
  | S n' => f (2 ^ i) :: cols_from f (i + 1) n'
  end.

Definition cols_of (f : Z -> Z) (n : nat) : list Z := cols_from f 0 n.

Lemma apply_cols_from f n : linear f -> forall i w,
  0 <= i -> 0 <= w < 2 ^ Z.of_nat n -> apply_cols (cols_from f i n) w = f (w * 2 ^ i).
Proof.
  intros Hf. induction n as [|n IH]; intros i w Hi Hw; cbn [cols_from apply_cols].
  - change (2 ^ Z.of_nat 0) with 1 in Hw. assert (w = 0) as -> by lia. by rewrite linear_0.
  - assert (Hd : 0 <= Z.div2 w < 2 ^ Z.of_nat n).
    { rewrite Z.div2_div. rewrite Nat2Z.inj_succ, Z.pow_succ_r in Hw by lia. dlia. }
    rewrite IH by (done || lia). rewrite Z.pow_add_r by lia. change (2 ^ 1) with 2.
    pose proof (Z.div2_odd w) as Ew. destruct (Z.odd w); cbn [Z.b2z] in Ew.
    + rewrite <- Hf. f_equal.
      assert (Hdis : Z.land (2 ^ i) (Z.div2 w * (2 ^ i * 2)) = 0).
      { apply Z.bits_inj'. intros j Hj. rewrite Z.land_spec, Z.bits_0, testbit_pow2 by done.
        destruct (decide (j = i)) as [->|]; [|by rewrite bool_decide_false].
        replace (Z.div2 w * (2 ^ i * 2)) with (2 * Z.div2 w * 2 ^ i) by lia.
        rewrite Z.mul_pow2_bits, Z.sub_diag, Z.testbit_even_0, andb_false_r by done. done. }
      rewrite <- Z.add_nocarry_lxor by done. nia.
    + f_equal. nia.
Qed.

Lemma apply_cols_of f n w :
  linear f -> 0 <= w < 2 ^ Z.of_nat n -> apply_cols (cols_of f n) w = f w.
Proof. intros Hf Hw. unfold cols_of. rewrite apply_cols_from by (done || lia). f_equal. lia. Qed.

Definition square (cols : list Z) : list Z := apply_cols cols <$> cols.

Lemma square_cols f n :
  linear f -> bounded f n -> square (cols_of f n) = cols_of (fun w => f (f w)) n.
Proof.
  intros Hf Hb. unfold square.
  assert (H : forall k i, 0 <= i -> i + Z.of_nat k = Z.of_nat n ->
            apply_cols (cols_of f n) <$> cols_from f i k = cols_from (fun w => f (f w)) i k).
  { induction k as [|k IH]; intros i Hi Hk; [done|]. cbn [cols_from fmap list_fmap]. f_equal.
    - apply apply_cols_of; [done|]. apply Hb. split; [apply Z.pow_nonneg; lia|].
      apply Z.pow_lt_mono_r; lia.
    - apply IH; lia. }
  apply H; lia.
Qed.

(** The matrices of [f], [f^2], [f^4], ... *)
Fixpoint squares (k : nat) (cols : list Z) : list (list Z) :=
  match k with
  | O => []
  | S k' => cols :: squares k' (square cols)
  end.

(** [f^p] at [w], from those matrices. *)
Fixpoint pow_apply (p : positive) (tbl : list (list Z)) (w : Z) : Z :=
  match tbl with
  | [] => 0
  | cols :: tbl' =>
      match p with
      | xH => apply_cols cols w
      | xO p' => pow_apply p' tbl' w
      | xI p' => pow_apply p' tbl' (apply_cols cols w)
      end
  end.

Lemma iter_double {A} (f : A -> A) k x : Nat.iter (k + k) f x = Nat.iter k (fun y => f (f y)) x.
Proof.
  induction k as [|k IH]; [done|]. replace (S k + S k)%nat with (S (S (k + k))) by lia.
  change (f (f (Nat.iter (k + k) f x)) = f (f (Nat.iter k (fun y => f (f y)) x))). by rewrite IH.
Qed.

Lemma pow_apply_spec k : forall p f n w,
  linear f -> bounded f n -> 0 <= w < 2 ^ Z.of_nat n -> (Pos.size_nat p <= k)%nat ->
  pow_apply p (squares k (cols_of f n)) w = Nat.iter (Pos.to_nat p) f w.
Proof.
  induction k as [|k IH]; intros p f n w Hf Hb Hw Hp; [destruct p; cbn in Hp; lia|].
  assert (Hf2 : linear (fun w => f (f w))) by (intros a b; by rewrite Hf, Hf).
  assert (Hb2 : bounded (fun w => f (f w)) n) by (intros v Hv; by apply Hb, Hb).
  destruct p as [p|p|]; cbn [squares pow_apply]; cbn [Pos.size_nat] in Hp.
  - rewrite apply_cols_of, square_cols by done. rewrite IH; [|done|done|by apply Hb|lia].
    replace (Pos.to_nat (xI p)) with (Pos.to_nat p + Pos.to_nat p + 1)%nat by lia.
    by rewrite iter_plus, iter_double.
  - rewrite square_cols by done. rewrite IH by (done || lia).
    replace (Pos.to_nat (xO p)) with (Pos.to_nat p + Pos.to_nat p)%nat by lia. by rewrite iter_double.
  - by rewrite apply_cols_of by done.
Qed.

(** ** The table *)

(** The prime factors of [2^n - 1]. *)
Definition factors : list (list Z) :=
  [[]; []; []; [7]; [3; 5]; [31]; [3; 3; 7]; [127]; [3; 5; 17]; [7; 73]; [3; 11; 31]; [23; 89];
   [3; 3; 5; 7; 13]; [8191]; [3; 43; 127]; [7; 31; 151]; [3; 5; 17; 257]; [131071];
   [3; 3; 3; 7; 19; 73]; [524287]; [3; 5; 5; 11; 31; 41]; [7; 7; 127; 337]; [3; 23; 89; 683];
   [47; 178481]; [3; 3; 5; 7; 13; 17; 241]; [31; 601; 1801]; [3; 2731; 8191]; [7; 73; 262657];
   [3; 5; 29; 43; 113; 127]; [233; 1103; 2089]; [3; 3; 7; 11; 31; 151; 331]].

Definition prime_check (q : Z) : bool := (1 <? q) && trial (Z.to_nat (Z.sqrt q)) 2 q.

Definition row_mask (n : nat) : Z := lfsr_create_xormask (nth n lfsr_taps []).

Definition row_check (n : nat) : bool :=
  let m := row_mask n in
  let N := 2 ^ Z.of_nat n - 1 in
  let tbl := squares n (cols_of (gstep m) n) in
  let l := nth n factors [] in
  bool_decide (head (nth n lfsr_taps []) = Some (Z.of_nat n)) &&
  (0 <=? m) && (m <=? N) && Z.testbit m (Z.of_nat n - 1) &&
  (foldr Z.mul 1 l =? N) && forallb prime_check l &&
  (pow_apply (Z.to_pos N) tbl 1 =? 1) &&
  forallb (fun q => negb (pow_apply (Z.to_pos (N / q)) tbl 1 =? 1)) l.

(** Every row of the table for 3 to 30 bits. *)
Lemma rows_checked : forallb row_check (seq 3 28) = true.
Proof. vm_compute. reflexivity. Qed.

Lemma prime_check_spec q : prime_check q = true -> Z.prime q.
Proof.
  intros [H1%Z.ltb_lt H2]%andb_true_iff. apply (prime_trial (Z.to_nat (Z.sqrt q))); [|done].
  pose proof (Z.sqrt_spec q ltac:(lia)). pose proof (Z.sqrt_nonneg q). rewrite Z2Nat.id by done.
  generalize dependent (Z.sqrt q). intros r Hr Hr0. unfold Z.succ in *. nia.
Qed.

Lemma size_nat_bound p n : Z.pos p < 2 ^ Z.of_nat n -> (Pos.size_nat p <= n)%nat.
Proof.
  revert n. induction p as [p IH|p IH|]; intros [|n] Hp;
    try (change (2 ^ Z.of_nat 0) with 1 in Hp; lia); cbn [Pos.size_nat]; apply le_n_S; [| |lia];
    apply IH; rewrite Nat2Z.inj_succ, Z.pow_succ_r in Hp by lia; lia.
Qed.

(** The row of width [n] has its first tap at [n], a mask of [n] bits, and the
    register it gives has the period [2^n - 1] and no smaller one. *)
Lemma row_maximal n :
  (3 <= n <= 30)%nat ->
  let m := row_mask n in
  let N := Z.to_nat (2 ^ Z.of_nat n - 1) in
  head (nth n lfsr_taps []) = Some (Z.of_nat n) /\
  0 <= m < 2 ^ Z.of_nat n /\ Z.testbit m (Z.of_nat n - 1) = true /\
  per (gstep m) 1 N /\ forall k, (0 < k < N)%nat -> ~ per (gstep m) 1 k.
Proof.
  intros Hn m N. pose proof rows_checked as Hall. rewrite forallb_forall in Hall.
  specialize (Hall n (proj2 (in_seq 28 3 n) ltac:(lia))). unfold row_check in Hall. fold m in Hall.
  rewrite !andb_true_iff in Hall.
  destruct Hall as [[[[[[[Hh%bool_decide_eq_true Hm0] HmN] Htop] Hprod] Hprimes] Hper] Hnper].
  apply Z.leb_le in Hm0, HmN. apply Z.eqb_eq in Hprod, Hper.
  assert (Hm : 0 <= m < 2 ^ Z.of_nat n) by lia.
  assert (HN : 2 ^ 3 <= 2 ^ Z.of_nat n) by (apply Z.pow_le_mono_r; lia). change (2 ^ 3) with 8 in HN.
  assert (Hpow : forall e, 0 < e <= 2 ^ Z.of_nat n - 1 ->
    pow_apply (Z.to_pos e) (squares n (cols_of (gstep m) n)) 1 = Nat.iter (Z.to_nat e) (gstep m) 1).
  { intros e He. rewrite pow_apply_spec;
      [|apply gstep_linear|by apply gstep_bounded|lia|apply size_nat_bound; lia].
    f_equal. lia. }
  assert (HP : Forall Z.prime (nth n factors [])).
  { apply Forall_forall. intros q Hq. apply prime_check_spec. rewrite forallb_forall in Hprimes.
    apply Hprimes, list_elem_of_In, Hq. }
  assert (HperN : per (gstep m) 1 N) by (unfold per, N; rewrite <- Hpow by lia; done).
  split_and!; [done|lia|lia|done|done|].
  apply (full_period _ _ N (nth n factors [])); [apply _|lia|done|lia|done|].
  intros q Hq. unfold per. pose proof (proj1 (Forall_forall _ _) HP q Hq) as Hqp.
  apply Z.prime_ge_2 in Hqp. replace (Z.of_nat N) with (2 ^ Z.of_nat n - 1) by lia.
  assert (Hdiv : 0 < (2 ^ Z.of_nat n - 1) / q).
  { apply Z.div_str_pos. split; [lia|]. apply Z.divide_pos_le; [lia|]. rewrite <- Hprod.
    clear -Hq. induction Hq as [q l|q r l Hq IH]; cbn [foldr]; [by apply Z.divide_factor_l|].
    by apply Z.divide_mul_r. }
  rewrite <- Hpow by (split; [done|]; apply Z.div_le_upper_bound; nia).
  rewrite forallb_forall in Hnper. specialize (Hnper q (proj1 (list_elem_of_In _ _) Hq)).
  by apply negb_true_iff, Z.eqb_neq in Hnper.
Qed.
