(* ===== verification/LfsrProofs.v ===== *)
(** * The register visits every value once

    The states of a register are the complements of the states of a linear map
    of maximal period, so the [nums] values below [nums] all turn up before one
    does again; [lfsr_next] skips the states in between. *)

From Stdlib Require Import Btauto.
From S2P Require Import Prelude Bits Gf2 Lfsr LfsrMax.

Open Scope Z_scope.

(** ** One step *)

(** A register of [n] bits with the feedback mask [m]. *)
Record register (n : Z) (m : Z) (fl : fio_lfsr) : Prop := {
  reg_width : 1 <= n <= 63;
  reg_bit : cached_bit fl = 2 ^ (n - 1);
  reg_mask : xormask fl = m;
  reg_range : 0 <= m < 2 ^ n;
  reg_top : Z.testbit m (n - 1) = true
}.

Definition compl (n v : Z) : Z := Z.lxor (Z.ones n) v.

Lemma compl_compl n v : compl n (compl n v) = v.
Proof. unfold compl. by rewrite <- Z.lxor_assoc, Z.lxor_nilpotent, Z.lxor_0_l. Qed.

Lemma compl_sub n v : 0 <= n -> 0 <= v < 2 ^ n -> compl n v = 2 ^ n - 1 - v.
Proof.
  intros Hn Hv. unfold compl. apply bits_bound in Hv as [Hv0 Hv]; [|done].
  assert (Hdis : Z.land (Z.lxor (Z.ones n) v) v = 0).
  { apply Z.bits_inj'. intros i Hi. rewrite Z.land_spec, Z.lxor_spec, Z.bits_0.
    rewrite testbit_ones by done. destruct (decide (i < n)).
    - rewrite bool_decide_true by done. by destruct (Z.testbit v i).
    - rewrite Hv by lia. btauto. }
  apply Z.add_nocarry_lxor in Hdis. rewrite Z.lxor_assoc, Z.lxor_nilpotent, Z.lxor_0_r in Hdis.
  rewrite Z.ones_equiv in *. lia.
Qed.

(** The complement of the next state is the linear step of the complement. *)
Lemma lfsr_step n m fl v :
  register n m fl -> 0 <= v < 2 ^ n -> LFSR_NEXT fl v = compl n (gstep m (compl n v)).
Proof.
  intros [Hw Hb Hx Hr Ht] Hv. unfold LFSR_NEXT, compl, gstep. rewrite Hb, Hx.
  apply bits_bound in Hv as [Hv0 Hv]; [|lia]. apply bits_bound in Hr as [Hm0 Hm]; [|lia].
  assert (Hsel : Z.land (u64 (Z.land v 1 - 1)) m = if Z.testbit v 0 then 0 else m).
  { change 1 with (Z.ones 1) at 1. rewrite Z.land_ones by lia. change (2 ^ 1) with 2.
    rewrite Zmod_odd, <- Z.bit0_odd. destruct (Z.testbit v 0); [done|].
    change (u64 (0 - 1)) with (Z.ones 64). rewrite Z.land_comm. rewrite Z.land_ones by lia.
    apply Z.mod_small. split; [done|].
    apply (bits_bound 64); [lia|]. split; [done|]. intros i Hi. apply Hm. lia. }
  rewrite Hsel. rewrite <- Z.bit0_odd, Z.lxor_spec, testbit_ones, bool_decide_true by lia.
  rewrite Bool.xorb_true_l.
  apply Z.bits_inj'. intros i Hi. rewrite !Z.lxor_spec, Z.lor_spec, !Z.shiftr_spec, Z.lxor_spec by lia.
  rewrite testbit_pow2, !testbit_ones by lia.
  replace (if negb (Z.testbit v 0) then m else 0) with (if Z.testbit v 0 then 0 else m)
    by (by destruct (Z.testbit v 0)).
  generalize (Z.testbit (if Z.testbit v 0 then 0 else m) i). intros c.
  destruct (decide (i = n - 1)) as [->|Hne].
  - rewrite (bool_decide_true (n - 1 = n - 1)), (bool_decide_true (n - 1 < n)) by lia.
    rewrite (bool_decide_false (n - 1 + 1 < n)) by lia. rewrite Hv by lia. btauto.
  - rewrite (bool_decide_false (i = n - 1)) by done. destruct (decide (i < n)).
    + rewrite !bool_decide_true by lia. btauto.
    + rewrite !bool_decide_false by lia. btauto.
Qed.

Lemma gstep_positive n m w :
  1 <= n -> Z.testbit m (n - 1) = true -> 0 <= m < 2 ^ n -> 0 < w < 2 ^ n -> 0 < gstep m w < 2 ^ n.
Proof.
  intros Hn Ht Hm Hw. assert (Hz : gstep m 0 = 0) by done.
  pose proof (gstep_bounded m (Z.to_nat n)) as Hb. rewrite Z2Nat.id in Hb by lia.
  pose proof (Hb Hm w) as Hr. rewrite Z2Nat.id in Hr by lia. specialize (Hr ltac:(lia)).
  destruct (decide (gstep m w = 0)) as [E|]; [|lia].
  rewrite <- Hz in E. apply (gstep_injective n) in E; (done || lia).
Qed.

(** ** The orbit of a maximal map *)

Section orbit.
Context (f : Z -> Z) (N : nat).
Hypothesis f_range : forall w, 0 < w <= Z.of_nat N -> 0 < f w <= Z.of_nat N.
Hypothesis f_inj : forall a b, 0 < a <= Z.of_nat N -> 0 < b <= Z.of_nat N -> f a = f b -> a = b.
Hypothesis f_min : forall k, (0 < k < N)%nat -> ~ per f 1 k.
Hypothesis N_pos : (0 < N)%nat.

Lemma iter_range k w : 0 < w <= Z.of_nat N -> 0 < Nat.iter k f w <= Z.of_nat N.
Proof. intros Hw. induction k as [|k IH]; simpl; [done|]. by apply f_range. Qed.

Lemma iter_cancel i k w w' :
  0 < w <= Z.of_nat N -> 0 < w' <= Z.of_nat N ->
  Nat.iter (i + k) f w = Nat.iter i f w' -> Nat.iter k f w = w'.
Proof.
  intros Hw Hw' E. induction i as [|i IH]; [done|]. apply IH, f_inj; [by apply iter_range..|done].
Qed.

(** The states from [w] on, [k] of them. *)
Definition orbit (w : Z) (k : nat) : list Z := (fun i => Nat.iter i f w) <$> seq 0 k.

Lemma orbit_NoDup w :
  0 < w <= Z.of_nat N -> (forall k, (0 < k < N)%nat -> ~ per f w k) -> NoDup (orbit w N).
Proof.
  intros Hw Hmin. apply NoDup_fmap_2_strong; [|apply NoDup_seq].
  assert (Hlt : forall i j, (i < j < N)%nat -> Nat.iter i f w <> Nat.iter j f w).
  { intros i j Hij E. replace j with (i + (j - i))%nat in E by lia. symmetry in E.
    apply iter_cancel in E; [|done|done]. apply (Hmin (j - i)%nat); [lia|done]. }
  intros i j Hi%elem_of_seq Hj%elem_of_seq E.
  destruct (lt_eq_lt_dec i j) as [[Hlt'|]|Hlt']; [|done|].
  - exfalso. apply (Hlt i j); [lia|done].
  - exfalso. apply (Hlt j i); [lia|done].
Qed.

Lemma orbit_all w :
  0 < w <= Z.of_nat N -> NoDup (orbit w N) -> orbit w N ≡ₚ seqZ 1 (Z.of_nat N).
Proof.
  intros Hw Hnd. apply NoDup_Permutation_bis; [by apply NoDup_ListNoDup| |].
  - unfold orbit. rewrite length_fmap, length_seq, length_seqZ. lia.
  - intros x Hx%list_elem_of_In. apply list_elem_of_In.
    apply list_elem_of_fmap in Hx as (i & -> & _). apply elem_of_seqZ.
    pose proof (iter_range i w Hw). lia.
Qed.

(** Every state lies on the orbit of 1, so its own orbit is as long. *)
Lemma orbit_perm w : 0 < w <= Z.of_nat N -> orbit w N ≡ₚ seqZ 1 (Z.of_nat N).
Proof.
  intros Hw. apply orbit_all; [done|]. apply orbit_NoDup; [done|]. intros k Hk Hper.
  assert (Hin : w ∈ orbit 1 N).
  { rewrite orbit_all; [|lia|apply orbit_NoDup; [lia|done]]. apply elem_of_seqZ. lia. }
  apply list_elem_of_fmap in Hin as (i & -> & _). apply (f_min k Hk). unfold per in *.
  rewrite <- iter_plus, Nat.add_comm in Hper. apply iter_cancel in Hper; [done|lia|lia].
Qed.
End orbit.

(** ** The values delivered *)

(** [l] is what the register goes through after [v]. *)
Fixpoint walk (fl : fio_lfsr) (v : Z) (l : list Z) : Prop :=
  match l with
  | [] => True
  | x :: l' => x = LFSR_NEXT fl v /\ walk fl x l'
  end.

(** With no spin and no pending extra step, a round is one step. *)
Definition plain (fl : fio_lfsr) : Prop :=
  spin fl = 0 /\ cached_cycle_length fl = 0 /\ cycle_length fl = 0.

Lemma plain_round fl : plain fl -> lfsr_round fl = set_last_val fl (LFSR_NEXT fl (last_val fl)).
Proof.
  intros (Hs & _ & Hc). unfold lfsr_round. rewrite Hc, Hs. rewrite decide_False by lia. done.
Qed.

(** The loop skips the states above [max_val]. *)
Lemma skip_large fl l1 : forall v x,
  plain fl -> walk fl v (l1 ++ [x]) -> Forall (fun y => y > max_val fl) l1 -> x <= max_val fl ->
  loopn lfsr_body (S (length l1)) (set_last_val fl v) = inr (set_last_val fl x).
Proof.
  induction l1 as [|y l1 IH]; intros v x Hp Hw Hall Hx; destruct Hw as [Hy Hw].
  - cbn [loopn length]. unfold lfsr_body. rewrite plain_round by done.
    cbn [last_val max_val set_last_val]. change (LFSR_NEXT (set_last_val fl v) v) with (LFSR_NEXT fl v).
    rewrite <- Hy. rewrite decide_False by lia. done.
  - inversion_clear Hall as [|? ? Hbig Hall'].
    replace (S (length (y :: l1))) with (1 + S (length l1))%nat by done. rewrite loopn_app.
    assert (E : loopn lfsr_body 1 (set_last_val fl v) = inl (set_last_val fl y)).
    { cbn [loopn]. unfold lfsr_body. rewrite plain_round by done.
      cbn [last_val max_val set_last_val]. change (LFSR_NEXT (set_last_val fl v) v) with (LFSR_NEXT fl v).
      rewrite <- Hy. rewrite decide_True by done. done. }
    rewrite E. by apply IH.
Qed.

Lemma walk_app fl l1 l2 v : walk fl v (l1 ++ l2) <-> walk fl v l1 /\ walk fl (default v (last l1)) l2.
Proof.
  revert v. induction l1 as [|x l1 IH]; intros v; cbn [walk app]; [cbn; tauto|].
  rewrite IH. destruct l1 as [|y l1]; [cbn; tauto|].
  change (last (x :: y :: l1)) with (last (y :: l1)).
  destruct (last (y :: l1)) eqn:E; [cbn; tauto|]. by apply last_None in E.
Qed.

Lemma walk_ext fl fl' l : forall v,
  (forall v, LFSR_NEXT fl v = LFSR_NEXT fl' v) -> walk fl v l -> walk fl' v l.
Proof.
  induction l as [|x l IH]; intros v He Hw; [done|]. destruct Hw as [-> Hw].
  split; [apply He|by apply IH].
Qed.

(** The first value in range splits the states to come. *)
Lemma filter_split (P : Z -> Prop) `{forall x, Decision (P x)} l x rest :
  filter P l = x :: rest ->
  exists l1 l2, l = l1 ++ x :: l2 /\ Forall (fun y => ~ P y) l1 /\ P x /\ filter P l2 = rest.
Proof.
  induction l as [|y l IH]; [done|]. rewrite filter_cons. case_decide as Hy; intros E.
  - injection E as -> <-. exists [], l. auto.
  - destruct (IH E) as (l1 & l2 & -> & Hall & Hx & Hr). exists (y :: l1), l2. split_and!; auto.
Qed.

Definition in_range (fl : fio_lfsr) (y : Z) : Prop := y <= max_val fl.
#[local] Instance in_range_dec fl y : Decision (in_range fl y).
Proof. unfold in_range. apply _. Defined.

(** Runs of [lfsr_next] deliver the states in range, in order. *)
Lemma run_delivers c : forall fl v l,
  plain fl -> walk fl v l -> Z.of_nat (length l) <= 2 ^ 64 -> length (filter (in_range fl) l) = c ->
  0 <= num_vals fl -> num_vals fl + Z.of_nat c <= max_val fl + 1 -> max_val fl < 2 ^ 63 ->
  exists v', lfsr_run c (set_last_val fl v) =
    Some (filter (in_range fl) l, set_last_val (set_num_vals fl (num_vals fl + Z.of_nat c)) v').
Proof.
  induction c as [|c IH]; intros fl v l Hp Hw Hlen Hc Hnum Hmax Hbig.
  - apply nil_length_inv in Hc. exists v. cbn [lfsr_run]. rewrite Hc, Z.add_0_r. by destruct fl.
  - destruct (filter (in_range fl) l) as [|x rest] eqn:E; [done|].
    apply filter_split in E as (l1 & l2 & -> & Hall & Hx & Hrest).
    cbn [lfsr_run]. unfold lfsr_next. cbn [num_vals set_last_val set_num_vals max_val].
    rewrite decide_False by lia. rewrite wrapu_small by lia.
    set (fl1 := set_num_vals fl (num_vals fl + 1)).
    change (set_num_vals (set_last_val fl v) (num_vals fl + 1)) with (set_last_val fl1 v).
    assert (Hw' : walk fl1 v (l1 ++ [x]) /\ walk fl1 x l2).
    { replace (l1 ++ x :: l2) with ((l1 ++ [x]) ++ l2) in Hw by by rewrite <- app_assoc.
      apply walk_app in Hw as [Hw1 Hw2]. rewrite last_snoc in Hw2.
      split; (apply (walk_ext fl); [done|]); done. }
    destruct Hw' as [Hw1 Hw2].
    rewrite (loop2_exit lfsr_body 64 (S (length l1)) _ (set_last_val fl1 x)).
    2:{ apply skip_large; [done|done| |done]. eapply Forall_impl; [exact Hall|].
        unfold in_range. intros y Hy. change (max_val fl1) with (max_val fl). lia. }
    2:{ rewrite length_app in Hlen. cbn [length] in Hlen. change (Z.of_nat 64) with 64. lia. }
    cbn [mbind option_bind]. destruct (IH fl1 x l2) as (v' & Er); [done|done| | | | |done|].
    { rewrite length_app in Hlen. cbn [length] in Hlen. lia. }
    { change (length (filter (in_range fl) l2) = c). rewrite Hrest. by injection Hc. }
    { cbn. lia. }
    { change (num_vals fl + 1 + Z.of_nat c <= max_val fl + 1). lia. }
    rewrite Er. cbn [mbind option_bind]. exists v'. f_equal. f_equal.
    + cbn [last_val set_last_val]. f_equal. exact Hrest.
    + change (num_vals fl1) with (num_vals fl + 1).
      replace (num_vals fl + 1 + Z.of_nat c) with (num_vals fl + Z.of_nat (S c)) by lia. done.
Qed.

(** ** A whole cycle *)

Lemma loop2_first {S R} (body : S -> S + R) k s s' : body s = body s' -> loop2 body k s = loop2 body k s'.
Proof. intros E. induction k as [|k IH]; cbn [loop2]; [done|]. by rewrite IH. Qed.

Section cycle.
Context (n : nat) (fl : fio_lfsr).
Hypothesis width : (3 <= n <= 30)%nat.
Hypothesis reg : register (Z.of_nat n) (row_mask n) fl.
Let T : Z := 2 ^ Z.of_nat n - 1.

(** A state is any value but the all-ones one. *)
Definition state (v : Z) : Prop := 0 <= v < 2 ^ Z.of_nat n - 1.

Lemma T_bound : 7 <= T < 2 ^ 30.
Proof.
  unfold T. assert (2 ^ 3 <= 2 ^ Z.of_nat n <= 2 ^ 30) by (split; apply Z.pow_le_mono_r; lia). lia.
Qed.

Lemma state_compl v : state v -> 0 < compl (Z.of_nat n) v <= T.
Proof. intros Hv. unfold state in Hv. rewrite compl_sub by lia. unfold T. lia. Qed.

Lemma iter_compl k v :
  state v -> Nat.iter k (LFSR_NEXT fl) v =
             compl (Z.of_nat n) (Nat.iter k (gstep (row_mask n)) (compl (Z.of_nat n) v)).
Proof.
  intros Hv. induction k as [|k IH]; [cbn; by rewrite compl_compl|].
  change (Nat.iter (S k) (LFSR_NEXT fl) v) with (LFSR_NEXT fl (Nat.iter k (LFSR_NEXT fl) v)).
  rewrite IH. pose proof reg as [Hw _ _ Hr Ht]. pose proof (state_compl v Hv) as Hc.
  assert (Hk : 0 < Nat.iter k (gstep (row_mask n)) (compl (Z.of_nat n) v) <= Z.of_nat (Z.to_nat T)).
  { apply iter_range; [|unfold T in *; lia]. intros w Hw'.
    pose proof (gstep_positive (Z.of_nat n) (row_mask n) w). unfold T in *. lia. }
  rewrite (lfsr_step (Z.of_nat n) (row_mask n)); [by rewrite compl_compl|done|].
  pose proof T_bound. rewrite compl_sub by (unfold T in *; lia). unfold T in *. lia.
Qed.

(** The states after [v], once round. *)
Definition cycle (v : Z) : list Z := (fun i => Nat.iter i (LFSR_NEXT fl) v) <$> seq 1 (Z.to_nat T).

Lemma cycle_walk v : walk fl v (cycle v).
Proof.
  unfold cycle. assert (H : forall k i, walk fl (Nat.iter i (LFSR_NEXT fl) v)
            ((fun i => Nat.iter i (LFSR_NEXT fl) v) <$> seq (S i) k)).
  { induction k as [|k IH]; intros i; [done|]. cbn [seq fmap list_fmap walk]. split; [done|apply IH]. }
  apply (H _ 0%nat).
Qed.

Lemma cycle_perm v : state v -> cycle v ≡ₚ seqZ 0 T.
Proof.
  intros Hv. pose proof T_bound as HT. pose proof reg as [Hw _ _ Hr Ht].
  destruct (row_maximal n width) as (_ & _ & _ & Hper & Hmin). fold T in Hper, Hmin.
  set (m := row_mask n) in *. set (w := compl (Z.of_nat n) v).
  pose proof (state_compl v Hv) as Hwr. fold w in Hwr.
  assert (Hpos : forall u, 0 < u <= Z.of_nat (Z.to_nat T) -> 0 < gstep m u <= Z.of_nat (Z.to_nat T)).
  { intros u Hu. pose proof (gstep_positive (Z.of_nat n) m u). unfold T in *. lia. }
  assert (E : cycle v = compl (Z.of_nat n) <$> orbit (gstep m) (gstep m w) (Z.to_nat T)).
  { unfold cycle, orbit. rewrite <- list_fmap_compose. rewrite <- (fmap_S_seq 0), <- list_fmap_compose.
    apply list_fmap_ext. intros _ i _. unfold compose. rewrite iter_compl by done. f_equal.
    by rewrite (Nat.iter_succ_r i). }
  rewrite E. rewrite (orbit_perm (gstep m) (Z.to_nat T)); [|exact Hpos| |exact Hmin|lia|apply Hpos; lia].
  2:{ intros a b Ha Hb. apply (gstep_injective (Z.of_nat n)); unfold T in *; (done || lia). }
  rewrite Z2Nat.id by lia.
  apply NoDup_Permutation.
  - apply NoDup_fmap_2_strong; [|apply NoDup_seqZ].
    intros a b Ha%elem_of_seqZ Hb%elem_of_seqZ Eab. rewrite !compl_sub in Eab by (unfold T in *; lia). lia.
  - apply NoDup_seqZ.
  - intros x. rewrite list_elem_of_fmap. setoid_rewrite elem_of_seqZ. split.
    + intros (y & -> & Hy). rewrite compl_sub by (unfold T in *; lia). unfold T in *. lia.
    + intros Hx. exists (T - x). split; [|lia]. rewrite compl_sub by (unfold T in *; lia). unfold T. lia.
Qed.
End cycle.

Lemma filter_all (P : Z -> Prop) `{forall x, Decision (P x)} l : Forall P l -> filter P l = l.
Proof. induction 1 as [|x l Hx Hl IH]; [done|]. by rewrite filter_cons_True, IH. Qed.

Lemma filter_none (P : Z -> Prop) `{forall x, Decision (P x)} l :
  Forall (fun x => ~ P x) l -> filter P l = [].
Proof. induction 1 as [|x l Hx Hl IH]; [done|]. by rewrite filter_cons_False. Qed.

Lemma filter_prefix (k T : Z) (P : Z -> Prop) `{forall x, Decision (P x)} :
  0 <= k <= T -> (forall y, P y <-> y <= k - 1) -> filter P (seqZ 0 T) = seqZ 0 k.
Proof.
  intros Hk HP. replace T with (k + (T - k)) by lia. rewrite seqZ_app, filter_app by lia.
  rewrite filter_all, filter_none.
  - apply app_nil_r.
  - apply Forall_forall. intros y Hy%elem_of_seqZ. rewrite HP. lia.
  - apply Forall_forall. intros y Hy%elem_of_seqZ. rewrite HP. lia.
Qed.

Lemma find_lfsr_width size : 0 <= size < 2 ^ 30 ->
  exists n, (3 <= n <= 30)%nat /\ size < 2 ^ Z.of_nat n /\ find_lfsr size = lfsr_taps !! n.
Proof.
  intros Hs. unfold find_lfsr.
  assert (H : forall k i, (k + i = 64)%nat -> (3 <= i)%nat ->
            (exists n, (i <= n <= 30)%nat /\ size < 2 ^ Z.of_nat n) ->
            exists n, (3 <= n <= 30)%nat /\ size < 2 ^ Z.of_nat n /\
                      find_lfsr_from k (Z.of_nat i) size = lfsr_taps !! n).
  { induction k as [|k IH]; intros i Hki Hi (n & Hn & Hsn); [lia|]. cbn [find_lfsr_from].
    rewrite Z.shiftl_1_l. case_decide as Hd.
    - exists i. rewrite Nat2Z.id. split_and!; (done || lia).
    - destruct (decide (n = i)) as [->|Hne]; [lia|].
      replace (Z.of_nat i + 1) with (Z.of_nat (S i)) by lia. apply IH; [lia|lia|].
      exists n. split; [lia|done]. }
  apply (H 61%nat 3%nat); [done|lia|]. exists 30%nat. split; [lia|]. by destruct Hs.
Qed.

(** ** From the initialisation on *)

(** What [lfsr_init] leaves for a register of [n] bits and no spin. *)
Definition fresh (n : nat) (nums seed : Z) : fio_lfsr :=
  Lfsr (row_mask n) (seed mod 2 ^ Z.of_nat n) (2 ^ (Z.of_nat n - 1)) (nums - 1) 0 1 0 0.

Lemma lfsr_init_fresh nums :
  1 <= nums < 2 ^ 30 ->
  exists n, (3 <= n <= 30)%nat /\ nums < 2 ^ Z.of_nat n /\ forall fl0 seed,
    lfsr_init fl0 nums seed 0 =
      if decide (seed mod 2 ^ Z.of_nat n = 2 ^ Z.of_nat n - 1) then None
      else Some (fresh n nums seed).
Proof.
  intros Hn. destruct (find_lfsr_width nums ltac:(lia)) as (n & Hw & Hlt & E). exists n.
  split_and!; [lia|lia|done|]. intros fl0 seed. unfold lfsr_init. rewrite E.
  rewrite (nth_default_lookup lfsr_taps []) by (change (length lfsr_taps) with 64%nat; lia).
  cbn [mbind option_bind]. destruct (row_maximal n Hw) as (Hh & _). rewrite Hh.
  cbn [mbind option_bind]. rewrite Z.shiftl_1_l. unfold prepare_spin.
  assert (Hp : 2 ^ (Z.of_nat n - 1) * 2 = 2 ^ Z.of_nat n).
  { rewrite <- (Z.pow_add_r 2 _ 1) by lia. f_equal. lia. }
  assert (Hb : 2 ^ 3 <= 2 ^ Z.of_nat n <= 2 ^ 30) by (split; apply Z.pow_le_mono_r; lia).
  assert (Hmask : u64 (u64 (Z.shiftl (2 ^ (Z.of_nat n - 1)) 1) - 1) = 2 ^ Z.of_nat n - 1).
  { rewrite Z.shiftl_mul_pow2 by lia. change (2 ^ 1) with 2. rewrite Hp.
    rewrite (wrapu_small 64 (2 ^ Z.of_nat n)) by lia. rewrite wrapu_small by lia. done. }
  rewrite decide_False by lia. cbn [mbind option_bind]. unfold lfsr_reset.
  cbn [cached_bit set_num_vals set_last_val last_val]. rewrite Hmask.
  assert (Hland : Z.land seed (2 ^ Z.of_nat n - 1) = seed mod 2 ^ Z.of_nat n).
  { replace (2 ^ Z.of_nat n - 1) with (Z.ones (Z.of_nat n)) by (rewrite Z.ones_equiv; lia).
    apply Z.land_ones. lia. }
  rewrite Hland. rewrite (wrapu_small 64 (nums - 1)) by lia.
  case_decide as Hs.
  - rewrite bool_decide_false; [done|]. tauto.
  - rewrite bool_decide_true by done. done.
Qed.

Lemma fresh_register n nums seed : (3 <= n <= 30)%nat -> register (Z.of_nat n) (row_mask n) (fresh n nums seed).
Proof. intros Hn. destruct (row_maximal n Hn) as (_ & Hm & Ht & _). split; (done || lia). Qed.

(** The first call takes two steps, the later ones one: the extra step is the
    [cycle_length++] of [prepare_spin]. *)
Lemma first_call n nums seed :
  1 <= nums ->
  let fl := fresh n nums seed in
  lfsr_next fl = lfsr_next (set_last_val (set_cycle_length fl 0) (LFSR_NEXT fl (last_val fl))).
Proof.
  intros Hn fl. unfold lfsr_next.
  cbn [num_vals max_val set_num_vals set_last_val set_cycle_length fl fresh].
  rewrite !decide_False by lia. erewrite loop2_first; [done|]. done.
Qed.

(** After a successful [lfsr_init] the next [nums] calls deliver every value once. *)
Lemma lfsr_cycle_complete fl0 nums seed fl :
  1 <= nums < 2 ^ 30 -> lfsr_init fl0 nums seed 0 = Some fl ->
  exists (vs : list Z) (fl' fl'' : fio_lfsr), lfsr_run (Z.to_nat nums) fl = Some (vs, fl') /\
    (vs ≡ₚ seqZ 0 nums) /\ lfsr_next fl' = Some (None, fl'').
Proof.
  intros Hn Hi. destruct (lfsr_init_fresh nums Hn) as (n & Hw & Hlt & E).
  rewrite E in Hi. clear E. case_decide as Hs; [done|]. injection Hi as <-.
  set (fl := fresh n nums seed). set (v := last_val fl). set (T := 2 ^ Z.of_nat n - 1).
  pose proof (T_bound n Hw) as HT. fold T in HT.
  assert (Hreg : register (Z.of_nat n) (row_mask n) fl) by (by apply fresh_register).
  assert (Hv : state n v).
  { unfold state, v. cbn [last_val fl fresh]. pose proof (Z.mod_pos_bound seed (2 ^ Z.of_nat n)). lia. }
  set (v1 := LFSR_NEXT fl v). set (fl1 := set_cycle_length fl 0).
  assert (Hv1 : state n v1).
  { assert (Hin : v1 ∈ cycle n fl v).
    { apply list_elem_of_fmap. exists 1%nat. split; [done|]. apply elem_of_seq. lia. }
    rewrite (cycle_perm n fl Hw Hreg v Hv) in Hin. apply elem_of_seqZ in Hin. unfold state. lia. }
  assert (Hf : filter (in_range fl1) (cycle n fl v1) ≡ₚ seqZ 0 nums).
  { rewrite (cycle_perm n fl Hw Hreg v1 Hv1).
    rewrite (filter_prefix nums); [done|unfold T in *; lia|]. intros y. unfold in_range. cbn. lia. }
  destruct (run_delivers (Z.to_nat nums) fl1 v1 (cycle n fl v1)) as (v' & Er).
  - done.
  - eapply (walk_ext fl); [done|]. apply cycle_walk.
  - unfold cycle. rewrite length_fmap, length_seq. unfold T in *. lia.
  - rewrite Hf, length_seqZ. done.
  - done.
  - cbn. lia.
  - cbn. lia.
  - eexists _, _, _. split; [|split; [exact Hf|]].
    + rewrite <- Er. destruct (Z.to_nat nums) as [|c] eqn:Ec; [lia|]. cbn [lfsr_run].
      unfold fl. rewrite first_call by lia. done.
    + unfold lfsr_next. cbn [num_vals set_last_val set_num_vals max_val].
      rewrite decide_True; [done|]. cbn. lia.
Qed.

(** [nums] calls of [lfsr_next] deliver every value below [nums] exactly once and
    the next one reports the end. *)
Definition delivers (nums : Z) (fl : fio_lfsr) : Prop :=
  exists vs fl' fl'', lfsr_run (Z.to_nat nums) fl = Some (vs, fl') /\
    vs ≡ₚ seqZ 0 nums /\ lfsr_next fl' = Some (None, fl'').

(** C26: [lfsr_init] for [nums] values, fewer than 2^30, without spin, picks a register with more states than that
    and fails only for seeds whose low bits are all ones; otherwise the next
    [nums] calls of [lfsr_next] deliver every value below [nums] exactly once, the
    call after them reports the end, and every call ends. *)
Theorem lfsr_covers fl0 nums seed :
  1 <= nums < 2 ^ 30 ->
  exists n, 3 <= n <= 30 /\ nums < 2 ^ n /\
  match lfsr_init fl0 nums seed 0 with
  | None => seed mod 2 ^ n = 2 ^ n - 1
  | Some fl => delivers nums fl
  end.
Proof.
  intros Hn. destruct (lfsr_init_fresh nums Hn) as (n & Hw & Hlt & E).
  exists (Z.of_nat n). split; [lia|]. split; [done|].
  destruct (lfsr_init fl0 nums seed 0) as [fl|] eqn:Ei.
  - by eapply lfsr_cycle_complete.
  - rewrite E in Ei. by case_decide.
Qed.

Lemma lfsr_covers_witness :
  exists n, 3 <= n <= 30 /\ 1000 < 2 ^ n /\
  match lfsr_init (Lfsr 0 0 0 0 0 0 0 0) 1000 12345 0 with
  | None => 12345 mod 2 ^ n = 2 ^ n - 1
  | Some fl => delivers 1000 fl
  end.
Proof. apply (lfsr_covers (Lfsr 0 0 0 0 0 0 0 0) 1000 12345). lia. Defined.

(** ** The state with no way out *)

(** A register stuck in the all-ones state, which is out of range. *)
Definition stuck (n m : Z) (fl : fio_lfsr) : Prop :=
  register n m fl /\ last_val fl = 2 ^ n - 1 /\ max_val fl < 2 ^ n - 1.

Lemma all_ones_step n m fl : register n m fl -> LFSR_NEXT fl (2 ^ n - 1) = 2 ^ n - 1.
Proof.
  intros Hr. pose proof Hr as [Hw _ _ _ _]. pose proof (Z.pow_pos_nonneg 2 n).
  rewrite (lfsr_step n m) by (done || lia). rewrite (compl_sub n (2 ^ n - 1)) by lia.
  rewrite Z.sub_diag. change (gstep m 0) with 0. rewrite compl_sub by lia. lia.
Qed.

Lemma stuck_spin n m fl sp : stuck n m fl -> stuck n m (lfsr_next_ fl sp).
Proof.
  intros (Hr & Hl & Hm). unfold lfsr_next_. case_decide; [|done].
  assert (E : Nat.iter (S (Z.to_nat sp)) (LFSR_NEXT fl) (last_val fl) = 2 ^ n - 1).
  { rewrite Hl. generalize (S (Z.to_nat sp)). induction n0 as [|k IH]; [done|].
    simpl. rewrite IH. by apply (all_ones_step n m). }
  rewrite E. split; [|done]. by destruct Hr.
Qed.

Lemma stuck_body n m fl : stuck n m fl -> exists fl', lfsr_body fl = inl fl' /\ stuck n m fl'.
Proof.
  intros Hs. assert (Hcl : forall fl c, stuck n m fl -> stuck n m (set_cycle_length fl c)).
  { intros fl1 c (Hr & Hl & Hm). split; [|done]. by destruct Hr. }
  assert (Hr : stuck n m (lfsr_round fl)).
  { unfold lfsr_round. repeat case_decide; [apply Hcl|..]; by apply stuck_spin; try apply Hcl. }
  exists (lfsr_round fl). split; [|done]. unfold lfsr_body. destruct Hr as (_ & Hl & Hm).
  rewrite decide_True by lia. done.
Qed.

Lemma stuck_loop n m k : forall fl, stuck n m fl -> exists fl', loop2 lfsr_body k fl = inl fl' /\ stuck n m fl'.
Proof.
  induction k as [|k IH]; intros fl Hs; cbn [loop2]; [by apply stuck_body|].
  destruct (IH fl Hs) as (fl1 & -> & Hs1). by apply IH.
Qed.

(** The low bits of a seed that are kept are all ones. *)
Definition prohibited (fl : fio_lfsr) (seed : Z) : Prop :=
  let bitmask := 2 * cached_bit fl - 1 in Z.land seed bitmask = bitmask.

(** The all-ones state is the one the register never leaves: a seed that gives
    it is refused by [lfsr_init], and after [lfsr_reset] with such a seed the next
    call does not end. *)
Theorem lfsr_all_ones_stuck fl0 fl nums seed seed' :
  1 <= nums < 2 ^ 30 -> lfsr_init fl0 nums seed 0 = Some fl ->
  prohibited fl seed' ->
  lfsr_init fl0 nums seed' 0 = None /\
  exists fl', lfsr_reset fl seed' = (false, fl') /\ lfsr_next fl' = None.
Proof.
  intros Hn Hi Hb. unfold prohibited in Hb. set (bitmask := 2 * cached_bit fl - 1) in Hb. destruct (lfsr_init_fresh nums Hn) as (n & Hw & Hlt & E).
  rewrite E in Hi. case_decide as Hs; [done|]. injection Hi as <-.
  pose proof (fresh_register n nums seed Hw) as Hr. pose proof (T_bound n Hw) as HT.
  assert (Hmask : bitmask = 2 ^ Z.of_nat n - 1).
  { unfold bitmask. cbn [cached_bit fresh]. rewrite <- Z.pow_succ_r by lia. f_equal. f_equal. lia. }
  rewrite Hmask in Hb. assert (Hm : Z.land seed' (2 ^ Z.of_nat n - 1) = seed' mod 2 ^ Z.of_nat n).
  { replace (2 ^ Z.of_nat n - 1) with (Z.ones (Z.of_nat n)) by (rewrite Z.ones_equiv; lia).
    apply Z.land_ones. lia. }
  rewrite E, decide_True by lia. split; [done|]. unfold lfsr_reset.
  cbn [cached_bit fresh]. rewrite Z.shiftl_mul_pow2 by lia.
  replace (2 ^ (Z.of_nat n - 1) * 2 ^ 1) with (2 ^ Z.of_nat n)
    by (rewrite <- Z.pow_add_r by lia; f_equal; lia).
  rewrite (wrapu_small 64 (2 ^ Z.of_nat n)) by lia. rewrite wrapu_small by lia. rewrite Hb.
  eexists. split; [rewrite bool_decide_false; [done|cbn [last_val set_last_val]; tauto]|].
  set (fl' := set_last_val _ _). destruct (stuck_loop (Z.of_nat n) (row_mask n) 64
    (set_num_vals fl' 1)) as (fl2 & E2 & _).
  { split; [|cbn; lia]. by destruct Hr. }
  unfold lfsr_next. cbn [num_vals max_val fl' fresh set_last_val set_num_vals].
  rewrite decide_False by lia. change (u64 (0 + 1)) with 1. by rewrite E2.
Qed.

Lemma lfsr_all_ones_stuck_witness :
  lfsr_init (Lfsr 0 0 0 0 0 0 0 0) 10 15 0 = None /\
  exists fl', lfsr_reset (fresh 4 10 5) 15 = (false, fl') /\ lfsr_next fl' = None.
Proof.
  apply (lfsr_all_ones_stuck (Lfsr 0 0 0 0 0 0 0 0) (fresh 4 10 5) 10 5 15);
    [lia|vm_compute; reflexivity|vm_compute; reflexivity].
Defined.
