(* ===== verification/Rand.v ===== *)
(** * Tausworthe random numbers (src/fio/lib/rand.c, rand.h)

    The two generators, their seeding, values in a range, and the buffers filled
    from a seed.  Values in a range go through doubles: products of integers are
    rounded to 53 significant bits, to nearest with ties to even. *)

From S2P Require Import Prelude Bits.

Open Scope Z_scope.

(** ** Doubles that hold non-negative integers *)

Definition round53 (x : Z) : Z :=
  if decide (x < 2 ^ 53) then x
  else
    let e := Z.log2 x - 52 in
    let q := x / 2 ^ e in
    let r := x mod 2 ^ e in
    let h := 2 ^ (e - 1) in
    let q := if decide (r > h \/ r = h /\ Z.odd q = true) then q + 1 else q in
    q * 2 ^ e.

(** [(double) e * (r / 2^k)], truncated to an integer. *)
Definition scale (k e r : Z) : Z := Z.shiftr (round53 (round53 e * round53 r)) k.

(** ** The generators *)

Record taus88_state := Taus88 { s1 : Z; s2 : Z; s3 : Z }.
Record taus258_state := Taus258 { t1 : Z; t2 : Z; t3 : Z; t4 : Z; t5 : Z }.

(** The union is a sum: [use64] is its tag. *)
Inductive frand_state :=
  | State32 (s : taus88_state)
  | State64 (s : taus258_state).

Definition rand_max (fs : frand_state) : Z :=
  match fs with State64 _ => 2 ^ 64 - 1 | State32 _ => 2 ^ 32 - 1 end.

Definition TAUSWORTHE (s a b c d : Z) : Z :=
  u32 (Z.lxor (u64 (Z.shiftl (Z.land s c) d)) (Z.shiftr (Z.lxor (u32 (Z.shiftl s a)) s) b)).

Definition rand32 (st : taus88_state) : Z * taus88_state :=
  let s1' := TAUSWORTHE (s1 st) 13 19 4294967294 12 in
  let s2' := TAUSWORTHE (s2 st) 2 25 4294967288 4 in
  let s3' := TAUSWORTHE (s3 st) 3 11 4294967280 17 in
  (Z.lxor (Z.lxor s1' s2') s3', Taus88 s1' s2' s3').

Definition taus64 (s a b c d : Z) : Z :=
  let xval := Z.shiftr (Z.lxor (u64 (Z.shiftl s a)) s) b in
  Z.lxor (u64 (Z.shiftl (Z.land s c) d)) xval.

Definition rand64 (st : taus258_state) : Z * taus258_state :=
  let s1' := taus64 (t1 st) 1 53 18446744073709551614 10 in
  let s2' := taus64 (t2 st) 24 50 18446744073709551104 5 in
  let s3' := taus64 (t3 st) 3 23 18446744073709547520 29 in
  let s4' := taus64 (t4 st) 5 24 18446744073709420544 23 in
  let s5' := taus64 (t5 st) 3 33 18446744073701163008 8 in
  (Z.lxor (Z.lxor (Z.lxor (Z.lxor s1' s2') s3') s4') s5', Taus258 s1' s2' s3' s4' s5').

Definition rand_ (fs : frand_state) : Z * frand_state :=
  match fs with
  | State64 s => let '(r, s) := rand64 s in (r, State64 s)
  | State32 s => let '(r, s) := rand32 s in (r, State32 s)
  end.

(** [None]: the conversion to [int] is undefined. *)
Definition rand32_upto (s : taus88_state) (e : Z) : option (Z * taus88_state) :=
  let '(r, s) := rand32 s in
  let v := scale 32 (u32 (u32 e + 1)) r in
  if decide (v < 2 ^ 31) then Some (v, s) else None.

Definition rand64_upto (s : taus258_state) (e : Z) : Z * taus258_state :=
  let '(r, s) := rand64 s in (scale 64 (u64 (e + 1)) r, s).

Definition rand_between (fs : frand_state) (start end_ : Z) : option (Z * frand_state) :=
  match fs with
  | State64 s => let '(v, s) := rand64_upto s (u64 (end_ - start)) in
                 Some (u64 (start + v), State64 s)
  | State32 s => '(v, s) ← rand32_upto s (u64 (end_ - start)); Some (u64 (start + v), State32 s)
  end.

Definition get_next_seed (fs : frand_state) : Z * frand_state :=
  let '(r, fs) := rand_ fs in
  let '(r', fs) := rand_ fs in
  (u64 (r * r'), fs).

(** ** Seeding *)

Definition seed_ (x m : Z) : Z := if decide (x < m) then x + m else x.

(** The [^] between the constants of the source is C's exclusive or. *)
Definition lcg_start : Z := Z.lxor 2 31 + Z.lxor 2 17 + Z.lxor 2 7.

Definition LCG (x seed : Z) : Z := Z.lxor (u32 (x * 69069)) seed.
Definition LCG64 (x seed : Z) : Z := Z.lxor (u64 (x * 6906969069)) seed.

Definition init_rand32 (seed : Z) : taus88_state :=
  let a := seed_ (LCG lcg_start seed) 1 in
  let b := seed_ (LCG a seed) 7 in
  let c := seed_ (LCG b seed) 15 in
  Nat.iter 6 (fun s => (rand32 s).2) (Taus88 a b c).

Definition init_rand64 (seed : Z) : taus258_state :=
  let a := seed_ (LCG64 lcg_start seed) 1 in
  let b := seed_ (LCG64 a seed) 7 in
  let c := seed_ (LCG64 b seed) 15 in
  let d := seed_ (LCG64 c seed) 33 in
  let e := seed_ (LCG64 d seed) 49 in
  Nat.iter 6 (fun s => (rand64 s).2) (Taus258 a b c d e).

Definition init_rand (use64 : bool) : frand_state :=
  if use64 then State64 (init_rand64 1) else State32 (init_rand32 1).

Definition init_rand_seed (seed : Z) (use64 : bool) : frand_state :=
  if use64 then State64 (init_rand64 seed) else State32 (init_rand32 (u32 seed)).

(** ** Buffers *)

Definition GOLDEN_RATIO_PRIME : Z := 0x9e37fffffffc0001.

(** The low [n] bytes of [v], little-endian. *)
Fixpoint le_bytes (n : nat) (v : Z) : list Z :=
  match n with
  | O => []
  | S n' => v mod 256 :: le_bytes n' (v / 256)
  end.

(** The width of the next store. *)
Definition this_len (len : nat) : nat :=
  if decide (8 <= len)%nat then 8%nat
  else if decide (4 <= len)%nat then 4%nat
  else if decide (2 <= len)%nat then 2%nat else 1%nat.

(** The bytes stored; every round stores at least one, so [len] rounds are enough. *)
Fixpoint fill_bytes (fuel len : nat) (seed : Z) : list Z :=
  match fuel, len with
  | O, _ | _, O => []
  | S fuel', _ =>
      let n := this_len len in
      le_bytes n seed ++
      fill_bytes fuel' (len - n)%nat (Z.shiftr (u64 (seed * GOLDEN_RATIO_PRIME)) 3)
  end.

Definition fill_random_buf_ (len : nat) (seed : Z) : list Z := fill_bytes len len seed.

Definition fill_random_buf (fs : frand_state) (len : nat) : Z * list Z * frand_state :=
  let '(r, fs) := get_next_seed fs in (r, fill_random_buf_ len r, fs).

Example rand_first : (rand_ (init_rand false)).1 = 2634262343.
Proof. vm_compute. reflexivity. Qed.

(** ** Random values stay in their range, or do not *)

(** ** Rounding *)

(** Rounding to 53 bits moves a number up by at most [2^-53] of it. *)
Lemma round53_above x : 0 <= x -> 0 <= round53 x /\ 2 ^ 53 * (round53 x - x) <= x.
Proof.
  intros Hx. unfold round53. case_decide as Hs; [lia|].
  set (e := Z.log2 x - 52).
  assert (Hl : 2 ^ (e + 52) <= x) by (unfold e; replace (Z.log2 x - 52 + 52) with (Z.log2 x) by lia; apply Z.log2_spec; lia).
  assert (He : 1 <= e).
  { unfold e. assert (53 <= Z.log2 x) by (apply Z.log2_le_pow2; lia). lia. }
  assert (Hp : 2 ^ e = 2 * 2 ^ (e - 1)) by (rewrite <- Z.pow_succ_r by lia; f_equal; lia).
  rewrite Z.pow_add_r in Hl by lia. change (2 ^ 52) with 4503599627370496 in Hl.
  pose proof (Z.pow_pos_nonneg 2 (e - 1) ltac:(lia) ltac:(lia)) as Hh.
  pose proof (Z.div_mod x (2 ^ e) ltac:(lia)) as Hdm.
  pose proof (Z.mod_pos_bound x (2 ^ e) ltac:(lia)) as Hm.
  pose proof (Z.div_pos x (2 ^ e) ltac:(lia) ltac:(lia)) as Hq.
  generalize dependent (x / 2 ^ e). generalize dependent (x mod 2 ^ e). intros r Hr q Hdm Hq.
  change (2 ^ 53) with 9007199254740992. case_decide as Hup; nia.
Qed.

Lemma round53_small x : 0 <= x <= 2 ^ 53 -> round53 x = x.
Proof.
  intros Hx. unfold round53. case_decide; [done|]. assert (x = 2 ^ 53) as -> by lia. done.
Qed.

(** ** The 32-bit generator *)

Lemma scale32_bound e r : 0 < e <= 2 ^ 32 -> 0 <= r < 2 ^ 32 -> 0 <= scale 32 e r < e.
Proof.
  intros He Hr. unfold scale. rewrite (round53_small e), (round53_small r) by lia.
  assert (Hp : 0 <= e * r <= e * 2 ^ 32 - e) by nia.
  destruct (round53_above (e * r)) as [H0 H1]; [lia|].
  rewrite Z.shiftr_div_pow2 by lia. split; [by apply Z.div_pos|].
  apply Z.div_lt_upper_bound; [lia|]. lia.
Qed.

Lemma rand32_range s : 0 <= (rand32 s).1 < 2 ^ 32.
Proof. unfold rand32, TAUSWORTHE. cbn [fst]. apply lxor_bound; [lia|apply lxor_bound; [lia|..]|]; apply wrapu_range; lia. Qed.

Definition between (start end_ v : Z) : Prop := start <= v <= end_.

(** With the 32-bit generator, [rand_between] returns a value between its two
    bounds, both included, as long as they are less than [2^31] apart. *)
Theorem rand_between_range s start end_ :
  0 <= start <= end_ -> end_ < 2 ^ 64 -> end_ - start < 2 ^ 31 ->
  exists v s', rand_between (State32 s) start end_ = Some (v, s') /\ between start end_ v.
Proof.
  intros Hse He Hspan. unfold rand_between, rand32_upto.
  pose proof (rand32_range s) as Hr. destruct (rand32 s) as [r s']. cbn [fst] in Hr.
  rewrite (wrapu_small 64 (end_ - start)) by lia. rewrite (wrapu_small 32 (end_ - start)) by lia.
  rewrite wrapu_small by lia.
  pose proof (scale32_bound (end_ - start + 1) r ltac:(lia) Hr) as Hv.
  rewrite decide_True by lia. cbn [mbind option_bind]. eexists _, _. split; [done|].
  unfold between. rewrite wrapu_small by lia. lia.
Qed.

Lemma rand_between_range_witness :
  exists v s', rand_between (init_rand false) 1 100 = Some (v, s') /\ between 1 100 v.
Proof. apply (rand_between_range (init_rand32 1)); lia. Defined.

(** ** The 64-bit generator *)

(** Numbers of at most 53 bits, shifted, are doubles. *)
Lemma round53_exact a j : 0 < a < 2 ^ 53 -> 0 <= j -> round53 (a * 2 ^ j) = a * 2 ^ j.
Proof.
  intros Ha Hj. unfold round53. case_decide as Hs; [done|]. cbv zeta.
  assert (Hkj : 53 <= Z.log2 (a * 2 ^ j)) by (apply Z.log2_le_pow2; lia).
  rewrite Z.log2_mul_pow2 in * by lia. set (k := Z.log2 a) in *.
  assert (Hk : 0 <= k < 53) by (split; [apply Z.log2_nonneg|apply Z.log2_lt_pow2; lia]).
  set (e := j + k - 52).
  assert (E : a * 2 ^ j = a * 2 ^ (j - e) * 2 ^ e).
  { rewrite <- Z.mul_assoc, <- Z.pow_add_r by (unfold e; lia). f_equal. f_equal. lia. }
  pose proof (Z.pow_pos_nonneg 2 e ltac:(lia) ltac:(unfold e; lia)).
  pose proof (Z.pow_pos_nonneg 2 (e - 1) ltac:(lia) ltac:(unfold e; lia)).
  rewrite E, Z.mod_mul, Z.div_mul by lia. rewrite decide_False by lia. done.
Qed.

(** Draws within [2^10] of the top become [2^64] as doubles. *)
Lemma round53_top r : 2 ^ 64 - 2 ^ 10 <= r < 2 ^ 64 -> round53 r = 2 ^ 64.
Proof.
  intros Hr. unfold round53. rewrite decide_False by lia.
  assert (Z.log2 r = 63) as -> by (apply Z.log2_unique; lia). cbv zeta.
  change (2 ^ (63 - 52)) with 2048. change (2 ^ (63 - 52 - 1)) with 1024.
  assert (r / 2048 = 2 ^ 53 - 1) as -> by dlia. rewrite decide_True; [done|].
  assert (1024 <= r mod 2048) by dlia. change (Z.odd (2 ^ 53 - 1)) with true.
  destruct (decide (r mod 2048 = 1024)); [by right|left; lia].
Qed.

Lemma round53_below r : 0 <= r < 2 ^ 64 - 2 ^ 10 -> 0 <= round53 r <= 2 ^ 64 - 2 ^ 11.
Proof.
  intros Hr. destruct (decide (r < 2 ^ 63)) as [Hs|Hs].
  - pose proof (round53_above r ltac:(lia)). lia.
  - unfold round53. rewrite decide_False by lia.
    assert (Z.log2 r = 63) as -> by (apply Z.log2_unique; lia). cbv zeta.
    change (2 ^ (63 - 52)) with 2048. change (2 ^ (63 - 52 - 1)) with 1024.
    case_decide as Hup; [|dlia]. change (2 ^ 64) with 18446744073709551616 in *.
    change (2 ^ 10) with 1024 in *. change (2 ^ 11) with 2048. dlia.
Qed.

Lemma scale64_value e r :
  0 < e < 2 ^ 53 -> 0 <= r < 2 ^ 64 ->
  if decide (r < 2 ^ 64 - 2 ^ 10) then 0 <= scale 64 e r < e else scale 64 e r = e.
Proof.
  intros He Hr. unfold scale. rewrite (round53_small e) by lia.
  rewrite Z.shiftr_div_pow2 by lia. case_decide as Hlt.
  - pose proof (round53_below r ltac:(lia)) as Hb.
    assert (Hp : 0 <= e * round53 r <= e * 2 ^ 64 - e * 2 ^ 11) by nia.
    destruct (round53_above (e * round53 r)) as [H0 H1]; [lia|].
    split; [by apply Z.div_pos|]. apply Z.div_lt_upper_bound; [lia|]. lia.
  - rewrite (round53_top r) by lia. by rewrite round53_exact, Z.div_mul by lia.
Qed.

Lemma taus64_range s a b c d : 0 <= s < 2 ^ 64 -> 0 <= b -> 0 <= taus64 s a b c d < 2 ^ 64.
Proof.
  intros Hs Hb. unfold taus64. apply lxor_bound; [lia|apply wrapu_range; lia|].
  assert (H : 0 <= Z.lxor (u64 (Z.shiftl s a)) s < 2 ^ 64)
    by (apply lxor_bound; [lia|apply wrapu_range; lia|done]).
  rewrite Z.shiftr_div_pow2 by done. pose proof (Z.pow_pos_nonneg 2 b ltac:(lia) Hb).
  split; [apply Z.div_pos; lia|]. apply Z.div_lt_upper_bound; nia.
Qed.

Definition words258 (s : taus258_state) : Prop :=
  word64 (t1 s) /\ word64 (t2 s) /\ word64 (t3 s) /\ word64 (t4 s) /\ word64 (t5 s).

Lemma rand64_words s : words258 s -> word64 (rand64 s).1 /\ words258 (rand64 s).2.
Proof.
  intros (H1 & H2 & H3 & H4 & H5). unfold rand64, words258, word64 in *. cbn [fst snd t1 t2 t3 t4 t5].
  split; [|split; [|split; [|split; [|split]]]]; try (apply taus64_range; (done || lia)).
  apply lxor_bound; [lia| |by apply taus64_range].
  apply lxor_bound; [lia| |by apply taus64_range].
  apply lxor_bound; [lia| |by apply taus64_range].
  apply lxor_bound; [lia|..]; by apply taus64_range.
Qed.

(** With the 64-bit generator, [rand64_upto] stays within its bound except for
    the [2^10] highest draws, which are rounded up to [2^64] and give the bound
    plus one. *)
Theorem rand64_upto_range s e :
  words258 s -> 0 <= e < 2 ^ 53 - 1 ->
  let '(v, _) := rand64_upto s e in
  if decide ((rand64 s).1 < 2 ^ 64 - 2 ^ 10) then 0 <= v <= e else v = e + 1.
Proof.
  intros Hs He. unfold rand64_upto. destruct (rand64_words s Hs) as [Hr _].
  destruct (rand64 s) as [r s']. cbn [fst] in *. rewrite wrapu_small by lia.
  pose proof (scale64_value (e + 1) r ltac:(lia) Hr) as Hv. case_decide; lia.
Qed.

Lemma rand64_upto_range_witness :
  let s := Taus258 18013565285793790 1048576 1048576 1048576 1099511627776 in
  (rand64_upto s 99).1 = 100 /\ 0 <= (rand64_upto (init_rand64 1) 99).1 <= 99.
Proof.
  split.
  - pose proof (rand64_upto_range (Taus258 18013565285793790 1048576 1048576 1048576 1099511627776) 99) as H.
    vm_compute in H. apply H; repeat split; discriminate.
  - vm_compute. split; discriminate.
Defined.

(** ** Seeding *)

(** The seeding keeps the components at or above 1, 7 and 15, not above them
    as the generator requires: for some seeds the first component is 1, the shift
    register empties, and it stays 0 for good. *)
Theorem seed_collapses seed :
  seed ∈ [3660657; Z.lxor 3660657 1] ->
  s1 (init_rand32 seed) = 0 /\ forall k, s1 (Nat.iter k (fun s => (rand32 s).2) (init_rand32 seed)) = 0.
Proof.
  intros Hs. assert (H0 : s1 (init_rand32 seed) = 0).
  { apply list_elem_of_In in Hs. destruct Hs as [<-|[<-|[]]]; vm_compute; reflexivity. }
  split; [done|]. intros k. induction k as [|k IH]; [done|].
  change (TAUSWORTHE (s1 (Nat.iter k (fun s => (rand32 s).2) (init_rand32 seed))) 13 19 4294967294 12 = 0).
  by rewrite IH.
Qed.

Lemma seed_collapses_witness :
  s1 (init_rand32 3660657) = 0 /\
  forall k, s1 (Nat.iter k (fun s => (rand32 s).2) (init_rand32 3660657)) = 0.
Proof. apply (seed_collapses 3660657). left. Defined.

(** ** Buffers *)

Lemma length_le_bytes n v : length (le_bytes n v) = n.
Proof. revert v. induction n as [|n IH]; intros v; cbn; [done|]. by rewrite IH. Qed.

Lemma this_len_le len : (0 < len)%nat -> (1 <= this_len len <= len)%nat.
Proof. intros H. unfold this_len. repeat case_decide; lia. Qed.

Lemma fill_bytes_length fuel : forall len seed, (len <= fuel)%nat -> length (fill_bytes fuel len seed) = len.
Proof.
  induction fuel as [|fuel IH]; intros len seed Hl; [by destruct len; [|lia]|].
  destruct len as [|len]; [done|]. cbn [fill_bytes]. pose proof (this_len_le (S len) ltac:(lia)).
  rewrite length_app, length_le_bytes, IH by lia. lia.
Qed.

Lemma fill_bytes_fuel fuel fuel' : forall len seed,
  (len <= fuel)%nat -> (len <= fuel')%nat -> fill_bytes fuel len seed = fill_bytes fuel' len seed.
Proof.
  revert fuel'. induction fuel as [|fuel IH]; intros [|fuel'] len seed H1 H2;
    destruct len as [|len]; try done; try lia.
  cbn [fill_bytes]. f_equal. pose proof (this_len_le (S len) ltac:(lia)). apply IH; lia.
Qed.

(** The first [8 w] bytes do not depend on how many more are asked for. *)
Lemma fill_bytes_prefix w : forall len seed,
  (8 * w <= len)%nat -> take (8 * w) (fill_random_buf_ len seed) = fill_random_buf_ (8 * w) seed.
Proof.
  unfold fill_random_buf_. induction w as [|w IH]; intros len seed Hl; [done|].
  replace (8 * S w)%nat with (8 + 8 * w)%nat in * by lia.
  destruct len as [|len]; [lia|]. change (8 + 8 * w)%nat with (S (7 + 8 * w)) at 2 3.
  cbn [fill_bytes].
  assert (E1 : this_len (S len) = 8%nat) by (unfold this_len; rewrite decide_True by lia; done).
  assert (E2 : this_len (S (7 + 8 * w)) = 8%nat) by (unfold this_len; rewrite decide_True by lia; done).
  rewrite E1, E2. rewrite take_app, length_le_bytes, take_ge by (rewrite length_le_bytes; lia).
  replace (8 + 8 * w - 8)%nat with (8 * w)%nat by lia.
  replace (S (7 + 8 * w) - 8)%nat with (8 * w)%nat by lia. f_equal.
  rewrite (fill_bytes_fuel len (S len - 8)) by lia. rewrite IH by lia.
  apply fill_bytes_fuel; lia.
Qed.

(** The words of 64 bits that fit into [len] bytes. *)
Definition whole_words (len : nat) (buf : list Z) : list Z := take (8 * (len / 8)) buf.

(** [__fill_random_buf] fills exactly the bytes asked for, and the whole words
    of a shorter buffer are the beginning of a longer one from the same seed. *)
Theorem fill_random_buf_agrees len len' seed :
  (len <= len')%nat ->
  length (fill_random_buf_ len seed) = len /\
  whole_words len (fill_random_buf_ len seed) = whole_words len (fill_random_buf_ len' seed).
Proof.
  intros Hl. pose proof (Nat.Div0.mul_div_le len 8). split; [by apply fill_bytes_length|].
  unfold whole_words. rewrite !fill_bytes_prefix by lia. done.
Qed.

Lemma fill_random_buf_agrees_witness :
  length (fill_random_buf_ 11 77) = 11%nat /\
  take 8 (fill_random_buf_ 11 77) = take 8 (fill_random_buf_ 21 77).
Proof. apply (fill_random_buf_agrees 11 21 77). lia. Defined.
