(* ===== verification/RandMap.v ===== *)
(** * Choosing the next block (src/fio/io_u.c, filesetup.c)

    How fio picks the blocks of a random workload: from a Tausworthe generator
    with a map of the blocks already used, or from a shift register.  The map is
    used through [BlockMap].  Arrays indexed by the data direction are taken at
    the direction of the unit at hand; [None] is a failed assertion or an access
    out of bounds. *)

From S2P Require Import Prelude Bits Axmap AxmapSpec Lfsr Rand.

Open Scope Z_scope.

Inductive rand_gen := FIO_RAND_GEN_TAUSWORTHE | FIO_RAND_GEN_LFSR | FIO_RAND_GEN_TAUSWORTHE64.
Inductive rand_dist :=
  | FIO_RAND_DIST_RANDOM | FIO_RAND_DIST_ZIPF | FIO_RAND_DIST_PARETO
  | FIO_RAND_DIST_GAUSS | FIO_RAND_DIST_ZONED | FIO_RAND_DIST_ZONED_ABS.

#[export] Instance rand_gen_eq_dec : EqDecision rand_gen.
Proof. solve_decision. Defined.

Record rand_opts := RandOpts {
  random_generator : rand_gen;
  random_distribution : rand_dist;
  norandommap : bool;
  softrandommap : bool;
  time_based : bool;
  service_nonuniform : bool;
  zone_strided : bool;
  zone_range : Z;
  zone_split_nr : Z;
  min_bs : Z;
  ba : Z;
  rw_min_bs : Z;
  rand_seed_block_off : Z
}.

Record zone_split_index := Zsi { size_perc : Z; size_perc_prev : Z; size : Z; size_prev : Z }.

Section randmap.
Context {M : Type} {BM : BlockMap M}.

(** [io_axmap] and [lfsr] are present when the flag of the file says so. *)
Record rand_file := RandFile {
  file_offset : Z;
  io_size : Z;
  real_file_size : Z;
  io_axmap : option M;
  lfsr : option fio_lfsr;
  last_pos : Z;
  last_start : Z
}.

(** [dist_next] is what the generator of a non-uniform distribution would yield. *)
Record rand_td := RandTd {
  o : rand_opts;
  random_state : frand_state;
  zone_state : frand_state;
  zone_state_index : list zone_split_index;
  dist_next : Z;
  f : rand_file
}.

Definition set_axmap (fi : rand_file) (m : M) : rand_file :=
  RandFile (file_offset fi) (io_size fi) (real_file_size fi) (Some m) (lfsr fi)
           (last_pos fi) (last_start fi).
Definition set_lfsr (fi : rand_file) (l : fio_lfsr) : rand_file :=
  RandFile (file_offset fi) (io_size fi) (real_file_size fi) (io_axmap fi) (Some l)
           (last_pos fi) (last_start fi).
Definition set_file (td : rand_td) (fi : rand_file) : rand_td :=
  RandTd (o td) (random_state td) (zone_state td) (zone_state_index td) (dist_next td) fi.
Definition set_random_state (td : rand_td) (s : frand_state) : rand_td :=
  RandTd (o td) s (zone_state td) (zone_state_index td) (dist_next td) (f td).
Definition set_zone_state (td : rand_td) (s : frand_state) : rand_td :=
  RandTd (o td) (random_state td) s (zone_state_index td) (dist_next td) (f td).

(** [!norandommap && fio_file_axmap(f)]. *)
Definition file_randommap (td : rand_td) : option M :=
  if norandommap (o td) then None else io_axmap (f td).

Definition random_map_free (m : M) (block : Z) : option bool :=
  r ← bm_isset m block; Some (negb r).

(** Marks the blocks of a unit; the length it may have.  [axmap_set_nr] takes an
    [unsigned int]. *)
Definition mark_random_map (td : rand_td) (busy_ok : bool) (offset buflen : Z)
    : option (Z * rand_td) :=
  let bs := min_bs (o td) in
  if decide (bs = 0) then None
  else
    let block := u64 (offset - file_offset (f td)) / bs in
    let nr_blocks := u64 (u64 (buflen + bs) - 1) / bs in
    if decide (nr_blocks = 0) then None
    else
      '(nr_blocks, td) ←
        (if busy_ok then Some (nr_blocks, td)
         else
           m ← io_axmap (f td);
           '(k, m) ← bm_set_nr m block (u32 nr_blocks);
           if decide (k = 0) then None else Some (k, set_file td (set_axmap (f td) m)));
      let buflen := if decide (u64 (nr_blocks * bs) < buflen) then u64 (nr_blocks * bs) else buflen in
      Some (buflen, td).

Definition last_block (td : rand_td) : option Z :=
  let max_size := io_size (f td) in
  let max_size := if decide (max_size > real_file_size (f td)) then real_file_size (f td) else max_size in
  let max_size := if decide (zone_strided (o td) = true /\ zone_range (o td) <> 0)
                  then zone_range (o td) else max_size in
  let max_size := if decide (min_bs (o td) > ba (o td))
                  then u64 (max_size - (min_bs (o td) - ba (o td))) else max_size in
  if decide (ba (o td) = 0) then None
  else Some (max_size / ba (o td)).

(** The inner option is [Some b] for a return of 0 and [None] for a return of 1. *)
Definition get_next_rand_offset_ (td : rand_td) (lastb : Z) : option (option Z * rand_td) :=
  '(r, td) ←
    (match random_generator (o td) with
     | FIO_RAND_GEN_TAUSWORTHE | FIO_RAND_GEN_TAUSWORTHE64 =>
         let '(r, s) := rand_ (random_state td) in
         let k := match s with State64 _ => 64 | State32 _ => 32 end in
         Some (Some (scale k lastb r), set_random_state td s)
     | FIO_RAND_GEN_LFSR =>
         l ← lfsr (f td);
         '(off, l) ← lfsr_next l;
         Some (off, set_file td (set_lfsr (f td) l))
     end);
  match r with
  | None => Some (None, td)
  | Some b =>
      match file_randommap td with
      | None => Some (Some b, td)
      | Some m =>
          free ← random_map_free m b;
          if (free : bool) then Some (Some b, td)
          else b ← bm_next_free m b; Some (b, td)
      end
  end.

(** [-1U], the mark of an unset entry. *)
Definition perc_unset : Z := 2 ^ 32 - 1.

Definition get_next_rand_offset_zoned_abs (td : rand_td) : option (option Z * rand_td) :=
  lastb ← (last_block td : option Z);
  if decide (lastb = 0) then Some (None, td)
  else if decide (zone_split_nr (o td) = 0) then get_next_rand_offset_ td lastb
  else
    '(v, s) ← rand_between (zone_state td) 1 100;
    let td := set_zone_state td s in
    zsi ← at_ (zone_state_index td) (u32 (u32 v - 1));
    let stotal := size_prev zsi / ba (o td) in
    let send := size zsi / ba (o td) in
    if decide (send = perc_unset) then get_next_rand_offset_ td lastb
    else if decide (send > lastb) then Some (None, td)
    else
      '(r, td) ← get_next_rand_offset_ td (u64 (send - stotal));
      Some (b ← r; Some (u64 (b + stotal)), td).

Definition get_next_rand_offset_zoned (td : rand_td) : option (option Z * rand_td) :=
  lastb ← (last_block td : option Z);
  if decide (lastb = 0) then Some (None, td)
  else if decide (zone_split_nr (o td) = 0) then get_next_rand_offset_ td lastb
  else
    '(v, s) ← rand_between (zone_state td) 1 100;
    let td := set_zone_state td s in
    zsi ← at_ (zone_state_index td) (u32 (u32 v - 1));
    let stotal := u32 (size_perc_prev zsi) in
    let send := u32 (size_perc zsi) in
    if decide (send = perc_unset) then get_next_rand_offset_ td lastb
    else
      let offset := if decide (stotal <> 0) then u64 (stotal * lastb) / 100 else 0 in
      let lastb := u64 (lastb * u32 (send - stotal)) / 100 in
      '(r, td) ← get_next_rand_offset_ td lastb;
      Some (b ← r; Some (if decide (offset <> 0) then u64 (b + offset) else b), td).

Definition get_next_rand_offset (td : rand_td) : option (option Z * rand_td) :=
  match random_distribution (o td) with
  | FIO_RAND_DIST_RANDOM =>
      lastb ← last_block td;
      if decide (lastb = 0) then Some (None, td) else get_next_rand_offset_ td lastb
  | FIO_RAND_DIST_ZIPF | FIO_RAND_DIST_PARETO | FIO_RAND_DIST_GAUSS => Some (Some (dist_next td), td)
  | FIO_RAND_DIST_ZONED => get_next_rand_offset_zoned td
  | FIO_RAND_DIST_ZONED_ABS => get_next_rand_offset_zoned_abs td
  end.

(** The result of [lfsr_reset] is not looked at. *)
Definition fio_file_reset (td : rand_td) : rand_td :=
  let fi := f td in
  let fi := RandFile (file_offset fi) (io_size fi) (real_file_size fi) (io_axmap fi) (lfsr fi)
                     (file_offset fi) (2 ^ 64 - 1) in
  match io_axmap fi, lfsr fi with
  | Some m, _ => set_file td (set_axmap fi (bm_reset m))
  | None, Some l => set_file td (set_lfsr fi (lfsr_reset l (rand_seed_block_off (o td))).2)
  | None, None => set_file td fi
  end.

Definition get_next_rand_block (td : rand_td) : option (option Z * rand_td) :=
  '(r, td) ← get_next_rand_offset td;
  match r with
  | Some b => Some (Some b, td)
  | None =>
      if time_based (o td) || service_nonuniform (o td)
      then get_next_rand_offset (fio_file_reset td)
      else Some (None, td)
  end.

(** ** Setting up a file *)

(** [new] allocates a map; the result is false when the set-up fails.  The
    switch of the generator is the one of [check_rand_gen_limits]; [gen_set] says
    whether the user chose it. *)
Definition check_rand_gen_limits (gen_set : bool) (op : rand_opts) (blocks : Z) : rand_opts :=
  if decide (blocks <= 2 ^ 32 - 1) then op
  else if decide (random_generator op <> FIO_RAND_GEN_TAUSWORTHE) then op
  else if gen_set then op
  else RandOpts FIO_RAND_GEN_TAUSWORTHE64 (random_distribution op) (norandommap op)
         (softrandommap op) (time_based op) (service_nonuniform op) (zone_strided op)
         (zone_range op) (zone_split_nr op) (min_bs op) (ba op) (rw_min_bs op)
         (rand_seed_block_off op).

Definition init_random_map_file (new : Z -> option (option M)) (gen_set : bool) (fl0 : fio_lfsr)
    (td : rand_td) : option (bool * rand_td) :=
  let fsize := Z.min (real_file_size (f td)) (io_size (f td)) in
  let fsize := if zone_strided (o td) then zone_range (o td) else fsize in
  if decide (rw_min_bs (o td) = 0) then None
  else
    let blocks := fsize / rw_min_bs (o td) in
    let td := RandTd (check_rand_gen_limits gen_set (o td) blocks) (random_state td) (zone_state td)
                     (zone_state_index td) (dist_next td) (f td) in
    if decide (random_generator (o td) = FIO_RAND_GEN_LFSR) then
      match lfsr_init fl0 blocks (rand_seed_block_off (o td)) 0 with
      | Some l => Some (true, set_file td (set_lfsr (f td) l))
      | None => Some (false, td)
      end
    else if norandommap (o td) then Some (true, td)
    else
      m ← new blocks;
      match m with
      | Some m => Some (true, set_file td (set_axmap (f td) m))
      | None => Some (softrandommap (o td), td)
      end.

(** ** A random workload

    One unit: choose a block, then mark it, with the smallest block size. *)
Definition next_unit (td : rand_td) : option (option Z * rand_td) :=
  '(r, td) ← get_next_rand_offset td;
  match r with
  | None => Some (None, td)
  | Some b =>
      let offset := u64 (u64 (b * ba (o td)) + file_offset (f td)) in
      match file_randommap td with
      | None => Some (Some b, td)
      | Some _ => '(_, td) ← mark_random_map td false offset (min_bs (o td)); Some (Some b, td)
      end
  end.

Fixpoint units_run (k : nat) (td : rand_td) : option (list Z * rand_td) :=
  match k with
  | O => Some ([], td)
  | S k' =>
      '(r, td) ← next_unit td;
      b ← r;
      '(bs, td) ← units_run k' td;
      Some (b :: bs, td)
  end.
End randmap.

Arguments rand_file : clear implicits.
Arguments rand_td : clear implicits.
