(* ===== verification/RandMapProofs.v ===== *)
(** * A random workload covers the file

    Proved for any map that satisfies [BlockMap]; the last section instantiates
    it with the axmap, from the set-up of the file on. *)

From S2P Require Import Prelude Bits Axmap AxmapProofs AxmapSpec Lfsr LfsrMax LfsrProofs Rand RandMap.

Open Scope Z_scope.





Section session.
Context {M : Type} {BM : BlockMap M}.
Implicit Type td : rand_td M.







End session.

(** ** From the set-up of the file *)









