(* ===== verification/IoOffset.v ===== *)
(** * Offset and length of a unit (src/fio/io_u.c, filesetup.c)

    From the choice of the next block to a filled unit: the random side is
    [RandMap], this file adds sequential offsets, the mix of both, block sizes
    drawn from a range or a split, strided zones and the checks against the file,
    and the position the job goes on from.  What [set_rw_ddir] decides is given:
    the fields of the state are those of the unit's direction.  The calls into
    zbd.c are parameters: [Zbd] models that file over its own state. *)

From S2P Require Import Prelude Bits Axmap AxmapSpec Lfsr Rand RandMap.

Open Scope Z_scope.

Inductive rw_seq_mode := RW_SEQ_SEQ | RW_SEQ_IDENT.

Record bssplit := Bssplit { bs : Z; perc : Z }.

(** The block sizes of one direction: [min_bs], [max_bs] and [bssplit]. *)
Record bs_range := BsRange { range_min : Z; range_max : Z; range_splits : list bssplit }.

(** With [bs_is_seq_rand] the sizes of the read direction are used for sequential
    offsets and those of the write direction for random ones, whatever the
    direction of the unit. *)
Inductive bs_dir := BsOwn | BsRead | BsWrite.

Record io_opts := IoOpts {
  td_random : bool;
  perc_rand : Z;
  rw_seq : rw_seq_mode;
  opt_ddir_seq_nr : Z;
  ddir_seq_add : Z;
  nr_files : Z;
  max_bs : Z;
  bssplits : list bssplit;
  bs_is_seq_rand : bool;
  bs_read : bs_range;
  bs_write : bs_range;
  bs_unaligned : bool;
  zone_mode_zbd : bool;
  file_append : bool;
  offset_increment_percent : Z;
  offset_increment : Z;
  start_offset_percent : Z;
  start_offset : Z;
  start_offset_align : option Z;
  zone_size : Z;
  zone_skip : Z
}.

Section offsets.
Context {M : Type} {BM : BlockMap M}.

(** [io_u_busy_ok] is the flag [IO_U_F_BUSY_OK] of the unit.  [bsrange_state] is the
    generator of the unit's direction; the other two are used with
    [bs_is_seq_rand] only, and then it is not. *)
Record io_td := IoTd {
  r : rand_td M;
  io : io_opts;
  regular_file : bool;
  min_bs_all : Z;
  subjob_number : Z;
  ddir_seq_nr : Z;
  seq_rand_state : frand_state;
  bsrange_state : frand_state;
  bsrange_read : frand_state;
  bsrange_write : frand_state;
  zone_bytes : Z;
  io_skip_bytes : Z;
  io_u_busy_ok : bool;
  io_u_offset : Z;
  io_u_buflen : Z
}.

Definition set_r (td : io_td) (x : rand_td M) : io_td :=
  IoTd x (io td) (regular_file td) (min_bs_all td) (subjob_number td) (ddir_seq_nr td)
       (seq_rand_state td) (bsrange_state td) (bsrange_read td) (bsrange_write td) (zone_bytes td) (io_skip_bytes td)
       (io_u_busy_ok td) (io_u_offset td) (io_u_buflen td).
Definition set_busy_ok (td : io_td) : io_td :=
  IoTd (r td) (io td) (regular_file td) (min_bs_all td) (subjob_number td) (ddir_seq_nr td)
       (seq_rand_state td) (bsrange_state td) (bsrange_read td) (bsrange_write td) (zone_bytes td) (io_skip_bytes td)
       true (io_u_offset td) (io_u_buflen td).
Definition set_offset (td : io_td) (x : Z) : io_td :=
  IoTd (r td) (io td) (regular_file td) (min_bs_all td) (subjob_number td) (ddir_seq_nr td)
       (seq_rand_state td) (bsrange_state td) (bsrange_read td) (bsrange_write td) (zone_bytes td) (io_skip_bytes td)
       (io_u_busy_ok td) x (io_u_buflen td).
Definition set_buflen (td : io_td) (x : Z) : io_td :=
  IoTd (r td) (io td) (regular_file td) (min_bs_all td) (subjob_number td) (ddir_seq_nr td)
       (seq_rand_state td) (bsrange_state td) (bsrange_read td) (bsrange_write td) (zone_bytes td) (io_skip_bytes td)
       (io_u_busy_ok td) (io_u_offset td) x.
Definition set_seq_nr (td : io_td) (x : Z) : io_td :=
  IoTd (r td) (io td) (regular_file td) (min_bs_all td) (subjob_number td) x
       (seq_rand_state td) (bsrange_state td) (bsrange_read td) (bsrange_write td) (zone_bytes td) (io_skip_bytes td)
       (io_u_busy_ok td) (io_u_offset td) (io_u_buflen td).
Definition set_seq_rand (td : io_td) (x : frand_state) : io_td :=
  IoTd (r td) (io td) (regular_file td) (min_bs_all td) (subjob_number td) (ddir_seq_nr td)
       x (bsrange_state td) (bsrange_read td) (bsrange_write td) (zone_bytes td) (io_skip_bytes td)
       (io_u_busy_ok td) (io_u_offset td) (io_u_buflen td).
Definition bsrange_of (d : bs_dir) (td : io_td) : frand_state :=
  match d with BsOwn => bsrange_state td | BsRead => bsrange_read td | BsWrite => bsrange_write td end.
Definition set_bsrange (d : bs_dir) (td : io_td) (x : frand_state) : io_td :=
  IoTd (r td) (io td) (regular_file td) (min_bs_all td) (subjob_number td) (ddir_seq_nr td)
       (seq_rand_state td)
       (match d with BsOwn => x | _ => bsrange_state td end)
       (match d with BsRead => x | _ => bsrange_read td end)
       (match d with BsWrite => x | _ => bsrange_write td end)
       (zone_bytes td) (io_skip_bytes td)
       (io_u_busy_ok td) (io_u_offset td) (io_u_buflen td).
Definition set_zone (td : io_td) (x y : Z) : io_td :=
  IoTd (r td) (io td) (regular_file td) (min_bs_all td) (subjob_number td) (ddir_seq_nr td)
       (seq_rand_state td) (bsrange_state td) (bsrange_read td) (bsrange_write td) x y
       (io_u_busy_ok td) (io_u_offset td) (io_u_buflen td).

Definition fi (td : io_td) : rand_file M := f (r td).
Definition set_pos (td : io_td) (off pos : Z) : io_td :=
  let x := fi td in
  set_r td (set_file (r td) (RandFile off (io_size x) (real_file_size x) (io_axmap x) (lfsr x)
                                      pos (last_start x))).

(** [None]: the assertion, or a division by zero. *)
Definition get_start_offset (td : io_td) : option Z :=
  let opt := io td in
  let real := real_file_size (fi td) in
  if file_append opt && regular_file td then Some real
  else
    '(increment, align) ←
      (if decide (offset_increment_percent opt <> 0) then
         if decide (offset_increment opt <> 0) then None
         else Some (u64 (offset_increment_percent opt * real) / 100, true)
       else Some (offset_increment opt, false));
    let sub := u64 (subjob_number td * increment) in
    let '(offset, align) :=
      if decide (start_offset_percent opt > 0)
      then (u64 (u64 (real * start_offset_percent opt) / 100 + sub), true)
      else (u64 (start_offset opt + sub), align) in
    if (align : bool) then
      let align_bs := default (min_bs_all td) (start_offset_align opt) in
      if decide (align_bs = 0) then None
      else Some (u64 (u64 (offset / align_bs + (if decide (offset mod align_bs <> 0) then 1 else 0))
                      * align_bs))
    else Some offset.

Definition should_do_random (td : io_td) : option (bool * io_td) :=
  if decide (perc_rand (io td) = 100) then Some (true, td)
  else
    '(v, s) ← rand_between (seq_rand_state td) 1 100;
    Some (bool_decide (u32 v <= perc_rand (io td)), set_seq_rand td s).

(** The cache invalidation only affects the kernel. *)
Definition get_next_seq_offset (td : io_td) : option (option Z * io_td) :=
  start ← get_start_offset td;
  let rewound := bool_decide (last_pos (fi td) >= u64 (io_size (fi td) + start)) &&
                 time_based (o (r td)) && bool_decide (nr_files (io td) = 1) in
  let td := if rewound then set_pos td (file_offset (fi td)) (file_offset (fi td)) else td in
  if decide (last_pos (fi td) < real_file_size (fi td)) then
    let end_ := if decide (real_file_size (fi td) > io_size (fi td))
                then io_size (fi td) else real_file_size (fi td) in
    let td := if decide (last_pos (fi td) = file_offset (fi td) /\ file_offset (fi td) <> 0 /\
                         ddir_seq_add (io td) < 0)
              then set_pos td (file_offset (fi td)) end_ else td in
    let pos := u64 (last_pos (fi td) - file_offset (fi td)) in
    let pos :=
      if decide (pos <> 0 /\ ddir_seq_add (io td) <> 0) then
        let pos := u64 (pos + ddir_seq_add (io td)) in
        if decide (pos >= real_file_size (fi td)) then
          if decide (ddir_seq_add (io td) > 0) then file_offset (fi td)
          else u64 (end_ + ddir_seq_add (io td))
        else pos
      else pos in
    Some (Some pos, td)
  else Some (None, td).

Definition rand_block (td : io_td) : option (option Z * io_td) :=
  '(b, x) ← get_next_rand_block (r td); Some (b, set_r td x).

(** Either an offset or a block number; the flag is [*is_random]. *)
Inductive choice := Offset (x : Z) | Block (b : Z).

Definition seq_or_rand (td : io_td) : option (option choice * io_td) :=
  '(x, td) ← get_next_seq_offset td;
  match x with
  | Some x => Some (Some (Offset x), td)
  | None => '(b, td) ← rand_block td; Some (option_map Block b, td)
  end.

Definition get_next_block (td : io_td) (rw_seq_hit : bool) : option (bool * bool * io_td) :=
  '(c, is_random, td) ←
    (if rw_seq_hit then
       if td_random (io td) then
         '(rnd, td) ← should_do_random td;
         if (rnd : bool) then '(b, td) ← rand_block td; Some (option_map Block b, true, td)
         else '(c, td) ← seq_or_rand (set_busy_ok td); Some (c, false, td)
       else '(x, td) ← get_next_seq_offset td; Some (option_map Offset x, false, td)
     else
       let td := set_busy_ok td in
       match rw_seq (io td) with
       | RW_SEQ_SEQ => '(c, td) ← seq_or_rand td; Some (c, false, td)
       | RW_SEQ_IDENT =>
           let x := if decide (last_start (fi td) <> 2 ^ 64 - 1)
                    then u64 (last_start (fi td) - file_offset (fi td)) else 0 in
           Some (Some (Offset x), false, td)
       end);
  match c with
  | None => Some (false, is_random, td)
  | Some c =>
      match (match c with
             | Offset x => if decide (x <> 2 ^ 64 - 1) then Some x else None
             | Block b => if decide (b <> 2 ^ 64 - 1) then Some (u64 (b * ba (o (r td)))) else None
             end) with
      | Some x => Some (true, is_random, set_offset td x)
      | None => Some (false, is_random, td)
      end
  end.

(** The result is whether an offset was found, and [*is_random]. *)
Definition get_next_offset (td : io_td) : option (bool * bool * io_td) :=
  let '(hit, td) :=
    if decide (opt_ddir_seq_nr (io td) <> 0) then
      let td := set_seq_nr td (u32 (ddir_seq_nr td - 1)) in
      if decide (ddir_seq_nr td = 0) then (true, set_seq_nr td (opt_ddir_seq_nr (io td)))
      else (false, td)
    else (false, td) in
  '(ok, is_random, td) ← get_next_block td hit;
  if negb ok then Some (false, is_random, td)
  else if decide (io_u_offset td >= io_size (fi td)) then Some (false, is_random, td)
  else
    let td := set_offset td (u64 (io_u_offset td + file_offset (fi td))) in
    if decide (io_u_offset td >= real_file_size (fi td)) then Some (false, is_random, td)
    else Some (true, is_random, td).

Definition io_u_fits (td : io_td) (buflen : Z) : option bool :=
  start ← get_start_offset td;
  Some (bool_decide (u64 (io_u_offset td + buflen) <= u64 (io_size (fi td) + start))).

(** The split: the first entry the draw selects and that fits, or the last one. *)
Fixpoint choose_split (td : io_td) (rv frand_max : Z) (l : list bssplit) (p buflen : Z) : option Z :=
  match l with
  | [] => Some buflen
  | e :: l' =>
      if decide (perc e = 0) then choose_split td rv frand_max l' p buflen
      else
        fits ← io_u_fits td (bs e);
        let p := p + perc e in
        if bool_decide (rv / p <= frand_max / 100) && fits then Some (bs e)
        else choose_split td rv frand_max l' p (bs e)
  end.

(** One round of the [do ... while]: the length drawn. *)
Definition draw_buflen (d : bs_dir) (td : io_td) (minbs maxbs : Z) (splits : list bssplit) : option (Z * io_td) :=
  let '(rv, s) := rand_ (bsrange_of d td) in
  let td := set_bsrange d td s in
  buflen ← (match splits with
            | [] => let k := match s with State64 _ => 64 | State32 _ => 32 end in
                    Some (u64 (minbs + scale k maxbs rv))
            | l => choose_split td rv (rand_max s) l 0 0
            end);
  let buflen := if bs_unaligned (io td) then buflen
                else if is_power_of_2 minbs then Z.land buflen (lnot64 (minbs - 1))
                else buflen - buflen mod minbs in
  Some (if decide (buflen > maxbs) then maxbs else buflen, td).

(** The loop, for at most [fuel] draws: the length, or that it is still drawing. *)
Fixpoint buflen_loop (fuel : nat) (d : bs_dir) (td : io_td) (minbs maxbs : Z) (splits : list bssplit)
  : option (option Z * io_td) :=
  match fuel with
  | O => Some (None, td)
  | S fuel' =>
      '(buflen, td) ← draw_buflen d td minbs maxbs splits;
      fits ← io_u_fits td buflen;
      if (fits : bool) then Some (Some buflen, td) else buflen_loop fuel' d td minbs maxbs splits
  end.

(** Which block sizes are used. *)
Definition bs_ddir (td : io_td) (is_random : bool) : bs_dir :=
  if bs_is_seq_rand (io td) then if is_random then BsWrite else BsRead else BsOwn.

Definition bs_sizes (td : io_td) (d : bs_dir) : bs_range :=
  match d with
  | BsOwn => BsRange (min_bs (o (r td))) (max_bs (io td)) (bssplits (io td))
  | BsRead => bs_read (io td)
  | BsWrite => bs_write (io td)
  end.

Definition get_next_buflen (fuel : nat) (td : io_td) (is_random : bool) : option (option Z * io_td) :=
  let d := bs_ddir td is_random in
  let '(BsRange minbs maxbs splits) := bs_sizes td d in
  if decide (minbs = maxbs) then Some (Some minbs, td)
  else
    fits ← io_u_fits td minbs;
    if negb fits then Some (Some 0, td) else buflen_loop fuel d td minbs maxbs splits.

Definition setup_strided_zone_mode (td : io_td) : option io_td :=
  let opt := io td in
  let range := zone_range (o (r td)) in
  if decide (zone_size opt = 0 \/ range = 0) then None
  else
    td ← (if decide (zone_bytes td >= zone_size opt) then
            let off := u64 (file_offset (fi td) + u64 (range + zone_skip opt)) in
            off ← (if decide (off >= real_file_size (fi td)) then get_start_offset td else Some off);
            Some (set_zone (set_pos td off off) 0 (u64 (io_skip_bytes td + zone_skip opt)))
          else Some td);
    let td := if decide (last_pos (fi td) >= u64 (file_offset (fi td) + range))
              then set_pos td (file_offset (fi td)) (file_offset (fi td)) else td in
    Some (if decide (zone_bytes td mod range = 0) then set_r td (fio_file_reset (r td)) else td).

(** What [set_rw_ddir] leaves in the unit: no direction, a read, write or trim, or
    another one (a sync, a wait). *)
Inductive unit_ddir := DdirInval | DdirRw | DdirOther.

(** A return of 0 or of 1; a third outcome is that the length is still being drawn
    after [fuel] draws. *)
Inductive filled := Filled | Unfilled | Drawing.

(** [setup_zbd_zone_mode] and [zbd_adjust_block], the latter with whether it answers
    [io_u_eof]. *)
Context (setup_zbd : io_td -> option io_td) (adjust_zbd : io_td -> option (bool * io_td)).

Definition fill_out (td : io_td) : option (filled * io_td) :=
  Some (Filled, set_zone td (u64 (zone_bytes td + io_u_buflen td)) (io_skip_bytes td)).

Definition fill_io_u (noio : bool) (ddir : unit_ddir) (fuel : nat) (td : io_td) : option (filled * io_td) :=
  if noio then fill_out td
  else
    match ddir with
    | DdirInval => Some (Unfilled, td)
    | DdirOther => fill_out td
    | DdirRw =>
        td ← (if zone_strided (o (r td)) then setup_strided_zone_mode td
              else if zone_mode_zbd (io td) then setup_zbd td else Some td);
        '(ok, is_random, td) ← get_next_offset td;
        if negb ok then Some (Unfilled, td)
        else
          '(buflen, td) ← get_next_buflen fuel td is_random;
          match buflen with
          | None => Some (Drawing, td)
          | Some buflen =>
              let td := set_buflen td buflen in
              if decide (buflen = 0) then Some (Unfilled, td)
              else
                let offset := io_u_offset td in
                '(eof, td) ← (if zone_mode_zbd (io td) then adjust_zbd td else Some (false, td));
                if (eof : bool) then Some (Unfilled, td)
                else if decide (u64 (io_u_offset td + io_u_buflen td) > real_file_size (fi td)) then Some (Unfilled, td)
                else
                  td ← (match td_random (io td), file_randommap (r td) with
                        | true, Some _ =>
                            '(len, x) ← mark_random_map (r td) (io_u_busy_ok td) offset (io_u_buflen td);
                            Some (set_buflen (set_r td x) len)
                        | _, _ => Some td
                        end);
                  fill_out td
          end
    end.

(** What [get_io_u] notes of the unit it returns: where the next one continues. *)
Definition note_position (td : io_td) : io_td :=
  let x := fi td in
  set_r td (set_file (r td) (RandFile (file_offset x) (io_size x) (real_file_size x) (io_axmap x) (lfsr x)
                                      (u64 (io_u_offset td + io_u_buflen td)) (io_u_offset td))).
End offsets.

Arguments io_td : clear implicits.
