(* ===== verification/IoOffsetProofs.v ===== *)
(** * Units stay inside the file, and a sequential job covers it

    Offsets and lengths of the units that [fill_io_u] makes, and what a
    sequential job does as a whole: its units follow one another without a gap,
    and with one block size they are exactly the blocks of the file. *)

From Stdlib Require Import Btauto.
From S2P Require Import Prelude Bits Axmap AxmapSpec Lfsr Rand RandMap IoOffset.

Open Scope Z_scope.

Section proofs.
Context {M : Type} {BM : BlockMap M}.
Implicit Types (td : io_td M) (x : rand_td M).

(** ** What never changes: the sizes of the file and the options *)

Definition frame x : Z * Z * rand_opts := (io_size (f x), real_file_size (f x), o x).

(** Take a successful computation apart. *)
Ltac run :=
  repeat first
    [ progress simplify_option_eq
    | match goal with
      | H : context [match ?e with _ => _ end] |- _ => destruct e eqn:?
      | |- context [match ?e with _ => _ end] => destruct e eqn:?
      end ].

Lemma rand_offset_frame x lastb b x' :
  get_next_rand_offset_ x lastb = Some (b, x') -> frame x' = frame x.
Proof. unfold get_next_rand_offset_. intros H. run; done. Qed.

Lemma rand_block_frame x b x' : get_next_rand_block x = Some (b, x') -> frame x' = frame x.
Proof.
  assert (Hoff : forall x b x', get_next_rand_offset x = Some (b, x') -> frame x' = frame x).
  { clear. intros x b x' H. unfold get_next_rand_offset, get_next_rand_offset_zoned,
      get_next_rand_offset_zoned_abs in H. run; try done; try (by eapply rand_offset_frame);
      match goal with H : get_next_rand_offset_ _ _ = _ |- _ => by apply rand_offset_frame in H end. }
  unfold get_next_rand_block. intros H. run; try (by eapply Hoff).
  apply Hoff in H. rewrite H. match goal with H : get_next_rand_offset x = _ |- _ => apply Hoff in H; rewrite <- H end.
  unfold fio_file_reset. by destruct (io_axmap _), (lfsr _).
Qed.

Lemma seq_offset_frame td p td' :
  get_next_seq_offset td = Some (p, td') -> frame (r td') = frame (r td) /\ io td' = io td.
Proof.
  unfold get_next_seq_offset. destruct (get_start_offset td); [|done]. cbn [mbind option_bind].
  destruct (bool_decide _ && _ && _); cbv zeta;
    (destruct (decide (last_pos _ < _)); [|intros H; by injection H as _ <-]);
    destruct (decide (_ /\ _ /\ ddir_seq_add _ < 0)); intros H; by injection H as _ <-.
Qed.

Lemma next_block_frame td hit ok rnd td' :
  get_next_block td hit = Some (ok, rnd, td') -> frame (r td') = frame (r td) /\ io td' = io td.
Proof.
  assert (Hrb : forall td b td', rand_block td = Some (b, td') -> frame (r td') = frame (r td) /\ io td' = io td).
  { clear. intros td b td' H. unfold rand_block in H. run. split; [|done]. by eapply rand_block_frame. }
  assert (Hsr : forall td c td', seq_or_rand td = Some (c, td') -> frame (r td') = frame (r td) /\ io td' = io td).
  { clear -Hrb. intros td c td' H. unfold seq_or_rand in H. run.
    - by eapply seq_offset_frame.
    - match goal with H1 : get_next_seq_offset _ = _, H2 : rand_block _ = _ |- _ =>
        apply seq_offset_frame in H1; apply Hrb in H2 end. intuition congruence. }
  assert (Hdr : forall td b td', should_do_random td = Some (b, td') -> frame (r td') = frame (r td) /\ io td' = io td).
  { clear. intros td b td' H. unfold should_do_random in H. run; done. }
  unfold get_next_block. intros H.
  destruct (if hit then _ else _) as [[[c rnd'] td1]|] eqn:E; [|done].
  assert (H1 : frame (r td1) = frame (r td) /\ io td1 = io td).
  { destruct hit; run; try done;
      repeat match goal with
      | H : should_do_random _ = _ |- _ => apply Hdr in H
      | H : rand_block _ = _ |- _ => apply Hrb in H
      | H : seq_or_rand _ = _ |- _ => apply Hsr in H
      | H : get_next_seq_offset _ = _ |- _ => apply seq_offset_frame in H
      end; cbn in *; intuition congruence. }
  cbn [mbind option_bind] in H. destruct H1 as [<- <-].
  destruct c as [[x|b]|]; try case_decide; by injection H as _ _ <-.
Qed.

(** ** Offsets *)

(** An offset that was found lies inside the file. *)
Lemma next_offset_inside td rnd td' :
  get_next_offset td = Some (true, rnd, td') ->
  frame (r td') = frame (r td) /\ io td' = io td /\ io_u_offset td' < real_file_size (fi td) /\
  exists rel, rel < io_size (fi td) /\ io_u_offset td' = u64 (rel + file_offset (fi td')).
Proof.
  unfold get_next_offset. set (p := if decide _ then _ else _). intros H.
  assert (Hp : r p.2 = r td /\ io p.2 = io td) by (unfold p; repeat case_decide; done).
  destruct p as [hit td0]. cbn [fst snd] in Hp. destruct Hp as [Hr0 Hio0].
  destruct (get_next_block td0 hit) as [[[ok rnd'] td1]|] eqn:E; [|done].
  apply next_block_frame in E as [Hf Hio]. rewrite Hr0 in Hf. rewrite Hio0 in Hio.
  cbn [mbind option_bind] in H.
  assert (Hs : io_size (fi td1) = io_size (fi td) /\ real_file_size (fi td1) = real_file_size (fi td)).
  { unfold frame in Hf. unfold fi. by simplify_eq. }
  destruct Hs as [Hs1 Hs2]. destruct ok; cbn [negb] in H; [|done].
  case_decide as H1; [done|]. case_decide as H2; [done|]. injection H as <- <-.
  split; [exact Hf|]. split; [exact Hio|]. cbn [io_u_offset set_offset fi r] in *.
  unfold fi in *. cbn [r set_offset] in *. split; [lia|]. exists (io_u_offset td1). split; [lia|done].
Qed.

(** ** Lengths *)

(** Rounding down by masking. *)
Lemma land_lnot64_align v b :
  0 < v < 2 ^ 64 -> is_power_of_2 v = true -> word64 b -> Z.land b (lnot64 (v - 1)) = b - b mod v.
Proof.
  intros Hv Hp Hb. apply pow2_log2 in Hp; [|done]. set (k := Z.log2 v) in *.
  assert (Hk : 0 <= k < 64) by (split; [apply Z.log2_nonneg|apply Z.log2_lt_pow2; lia]).
  rewrite Hp. replace (2 ^ k - 1) with (Z.ones k) by (rewrite Z.ones_equiv; lia).
  assert (E : b - b mod 2 ^ k = Z.shiftl (Z.shiftr b k) k).
  { rewrite Z.shiftr_div_pow2, Z.shiftl_mul_pow2 by lia. pose proof (Z.div_mod b (2 ^ k)). 
    pose proof (Z.pow_pos_nonneg 2 k). lia. }
  rewrite E. apply Z.bits_inj'. intros i Hi.
  rewrite Z.land_spec, testbit_lnot64, testbit_ones, Z.shiftl_spec by lia.
  destruct (decide (i < k)).
  - rewrite (bool_decide_true (i < k)) by done. rewrite (Z.testbit_neg_r _ (i - k)) by lia. btauto.
  - rewrite (bool_decide_false (i < k)), Z.shiftr_spec by lia. replace (i - k + k) with i by lia.
    destruct (decide (i < 64)); [rewrite bool_decide_true by done; btauto|].
    rewrite (word64_bits_high b) by (done || lia). done.
Qed.

(** One draw, for a range of block sizes. *)
Lemma draw_buflen_range d td minbs maxbs g :
  0 < minbs <= maxbs -> maxbs <= 2 ^ 32 -> bsrange_of d td = State32 g ->
  exists b g', draw_buflen d td minbs maxbs [] = Some (b, set_bsrange d td (State32 g')) /\ minbs <= b <= maxbs /\
    (bs_unaligned (io td) = false -> b = maxbs \/ b mod minbs = 0).
Proof.
  intros Hmin Hmax Hg. unfold draw_buflen. rewrite Hg. cbn [rand_].
  pose proof (rand32_range g) as Hr. destruct (rand32 g) as [rv g']. cbn [fst] in Hr.
  pose proof (scale32_bound maxbs rv ltac:(lia) Hr) as Hsc. rewrite wrapu_small by lia.
  cbn [mbind option_bind]. set (b0 := minbs + scale 32 maxbs rv).
  change (bs_unaligned (io (set_bsrange d td (State32 g')))) with (bs_unaligned (io td)).
  set (b1 := if bs_unaligned (io td) then b0 else _).
  assert (Hb1 : minbs <= b1 /\ (bs_unaligned (io td) = false -> b1 mod minbs = 0)).
  { unfold b1. destruct (bs_unaligned (io td)); [split; [lia|done]|].
    assert (E : (if is_power_of_2 minbs then Z.land b0 (lnot64 (minbs - 1)) else b0 - b0 mod minbs)
                = b0 - b0 mod minbs).
    { destruct (is_power_of_2 minbs) eqn:Ep; [|done]. apply land_lnot64_align; [lia|done|].
      unfold word64. lia. }
    rewrite E. assert (Hdm : b0 - b0 mod minbs = minbs * (b0 / minbs)) by (pose proof (Z.div_mod b0 minbs); lia).
    rewrite Hdm. split.
    - assert (1 <= b0 / minbs) by (apply Z.div_le_lower_bound; lia). nia.
    - intros _. rewrite Z.mul_comm. by apply Z.mod_mul; lia. }
  eexists _, g'. split; [done|]. case_decide as Hgt; split; [lia|auto|lia|]. intros Hu. right. by apply Hb1.
Qed.

Lemma bsrange_set d td s : bsrange_of d (set_bsrange d td s) = s.
Proof. by destruct d. Qed.

Lemma buflen_loop_range fuel d : forall td g minbs maxbs b td',
  0 < minbs <= maxbs -> maxbs <= 2 ^ 32 -> bsrange_of d td = State32 g ->
  buflen_loop fuel d td minbs maxbs [] = Some (Some b, td') ->
  minbs <= b <= maxbs /\ io_u_fits td b = Some true /\
  (bs_unaligned (io td) = false -> b = maxbs \/ b mod minbs = 0).
Proof.
  induction fuel as [|fuel IH]; intros td g minbs maxbs b td' Hmin Hmax Hg E; [done|].
  cbn [buflen_loop] in E.
  destruct (draw_buflen_range d td minbs maxbs g Hmin Hmax Hg) as (b1 & g1 & E1 & Hb1 & Hal).
  rewrite E1 in E. cbn [mbind option_bind] in E.
  change (io_u_fits (set_bsrange d td (State32 g1)) b1) with (io_u_fits td b1) in E.
  destruct (io_u_fits td b1) as [[|]|] eqn:Ef; cbn [mbind option_bind] in E; [| |done].
  - injection E as <- <-. done.
  - apply (IH _ g1) in E; [done..|]. apply bsrange_set.
Qed.

(** What the smallest and largest block size, the space that is left and the
    alignment ask of a block size. *)
Definition admissible (td : io_td M) (rg : bs_range) (b : Z) : Prop :=
  range_min rg <= b <= range_max rg /\
  (range_min rg < range_max rg -> io_u_fits td b = Some true) /\
  (bs_unaligned (io td) = false -> b = range_max rg \/ b mod range_min rg = 0).

(** A range of sizes without a split. *)
Definition plain_range (rg : bs_range) : Prop :=
  0 < range_min rg <= range_max rg /\ range_max rg <= 2 ^ 32 /\ range_splits rg = [].

(** A block size drawn from a range is within the range, fits the file, and is a
    multiple of the smallest size unless it is the largest one or unaligned sizes
    were asked for; when not even the smallest size fits the result is 0. *)
Theorem buflen_in_range fuel td rnd b td' g :
  let d := bs_ddir td rnd in
  plain_range (bs_sizes td d) -> bsrange_of d td = State32 g ->
  get_next_buflen fuel td rnd = Some (Some b, td') ->
  (b = 0 /\ io_u_fits td (range_min (bs_sizes td d)) = Some false) \/ admissible td (bs_sizes td d) b.
Proof.
  intros d (Hmin & Hmax & Hs) Hg. unfold get_next_buflen. fold d.
  destruct (bs_sizes td d) as [mn mx sp]. cbn [range_min range_max range_splits] in *. subst sp.
  case_decide as Heq.
  - intros E. injection E as <- <-. right. split; [cbn; lia|]. split; [cbn; lia|]. auto.
  - destruct (io_u_fits td mn) as [[|]|] eqn:Ef;
      cbn [mbind option_bind negb]; intros E; [|injection E as <- <-; by left|done].
    right. apply (buflen_loop_range fuel d td g) in E as (H1 & H2 & H3); auto. split; auto.
Qed.


(** ** A filled unit *)

(** Sizes are unsigned. *)
Definition sizes_ok (rg : bs_range) : Prop :=
  0 <= range_min rg < 2 ^ 63 /\ 0 <= range_max rg < 2 ^ 63 /\ Forall (fun e => 0 <= bs e) (range_splits rg).

Lemma choose_split_nonneg td rv fm l : forall p b0 b,
  Forall (fun e => 0 <= bs e) l -> 0 <= b0 -> choose_split td rv fm l p b0 = Some b -> 0 <= b.
Proof.
  induction l as [|e l IH]; intros p b0 b Hl Hb E; cbn [choose_split] in E; [by injection E as <-|].
  inversion_clear Hl as [|? ? He Hl']. case_decide; [exact (IH _ _ _ Hl' Hb E)|].
  destruct (io_u_fits td (bs e)) as [fits|]; [|done]. cbn [mbind option_bind] in E.
  destruct (bool_decide _ && fits); [by injection E as <-|]. exact (IH _ _ _ Hl' He E).
Qed.

Lemma draw_buflen_frame d td minbs maxbs splits b td' :
  sizes_ok (BsRange minbs maxbs splits) -> draw_buflen d td minbs maxbs splits = Some (b, td') ->
  r td' = r td /\ io td' = io td /\ io_u_offset td' = io_u_offset td /\ 0 <= b <= maxbs.
Proof.
  intros (Hmin & Hmax & Hs) E. cbn [range_min range_max range_splits] in *. unfold draw_buflen in E.
  destruct (rand_ (bsrange_of d td)) as [rv s].
  destruct (match splits with [] => _ | _ :: _ => _ end) as [b0|] eqn:Eb; [|done].
  assert (Hb0 : 0 <= b0).
  { destruct splits as [|e l].
    - injection Eb as <-. by apply wrapu_range.
    - eapply choose_split_nonneg; [exact Hs|reflexivity|exact Eb]. }
  cbn [mbind option_bind] in E. set (b1 := if bs_unaligned _ then b0 else _) in E.
  assert (Hb1 : 0 <= b1).
  { unfold b1. destruct (bs_unaligned _); [done|]. destruct (is_power_of_2 minbs).
    - apply Z.land_nonneg. by left.
    - destruct (decide (minbs = 0)) as [->|]; [rewrite Z.mod_0_r; lia|].
      pose proof (Z.mod_le b0 minbs). lia. }
  clearbody b1. injection E as <- <-. cbn [io set_bsrange]. split_and!; try done; case_decide; lia.
Qed.

Lemma buflen_loop_frame fuel d minbs maxbs splits : forall td b td',
  sizes_ok (BsRange minbs maxbs splits) -> buflen_loop fuel d td minbs maxbs splits = Some (Some b, td') ->
  r td' = r td /\ io td' = io td /\ io_u_offset td' = io_u_offset td /\ 0 <= b <= maxbs.
Proof.
  induction fuel as [|fuel IH]; intros td b td' Hok E; [done|].
  cbn [buflen_loop] in E. destruct (draw_buflen d td _ _ _) as [[b1 td1]|] eqn:E1; [|done].
  apply draw_buflen_frame in E1 as (Hr & Hio & Ho & Hb1); [|done]. cbn [mbind option_bind] in E.
  destruct (io_u_fits td1 b1) as [[|]|]; cbn [mbind option_bind] in E; [| |done].
  - injection E as <- <-. split_and!; (done || lia).
  - apply IH in E as (H1 & H2 & H3 & H4); [|done]. split_and!; (congruence || lia).
Qed.

Lemma next_buflen_frame fuel td rnd b td' :
  sizes_ok (bs_sizes td (bs_ddir td rnd)) -> get_next_buflen fuel td rnd = Some (Some b, td') ->
  r td' = r td /\ io td' = io td /\ io_u_offset td' = io_u_offset td /\ 0 <= b < 2 ^ 63.
Proof.
  intros Hok. unfold get_next_buflen. set (d := bs_ddir td rnd) in *.
  destruct (bs_sizes td d) as [mn mx sp]. pose proof Hok as (Hmin & Hmax & _).
  cbn [range_min range_max range_splits] in *. case_decide as Heq.
  - intros E. injection E as <- <-. split_and!; (done || lia).
  - destruct (io_u_fits td mn) as [[|]|]; cbn [mbind option_bind negb]; intros E; [| |done].
    2:{ injection E as <- <-. split_and!; done. }
    apply buflen_loop_frame in E as (H1 & H2 & H3 & H4); [|done]. split_and!; (done || lia).
Qed.

Lemma mark_len x busy off len len' x' :
  0 <= len -> mark_random_map x busy off len = Some (len', x') -> frame x' = frame x /\ 0 <= len' <= len.
Proof.
  unfold mark_random_map. intros Hl H. case_decide; [done|]. case_decide; [done|].
  destruct (if busy then _ else _) as [[k x1]|] eqn:E; [|done]. cbn [mbind option_bind] in H.
  assert (Hx : frame x1 = frame x).
  { destruct busy; run; done. }
  injection H as <- <-. split; [done|]. pose proof (wrapu_range 64 (k * min_bs (o x))). case_decide; lia.
Qed.

Lemma strided_frame td td' :
  setup_strided_zone_mode td = Some td' -> frame (r td') = frame (r td) /\ io td' = io td.
Proof.
  unfold setup_strided_zone_mode. case_decide; [done|].
  destruct (if decide (zone_bytes td >= _) then _ else _) as [td1|] eqn:E; [|done].
  assert (H1 : frame (r td1) = frame (r td) /\ io td1 = io td).
  { case_decide; [|by injection E as <-]. destruct (if decide _ then get_start_offset td else _); [|done].
    cbn [mbind option_bind] in E. by injection E as <-. }
  cbn [mbind option_bind]. intros E'. injection E' as <-. destruct H1 as [<- <-].
  assert (Hres : forall x, frame (fio_file_reset x) = frame x).
  { intros x. unfold fio_file_reset. by destruct (io_axmap _), (lfsr _). }
  repeat case_decide; split; cbn [r io set_r set_pos]; rewrite ?Hres; reflexivity.
Qed.

(** The sizes in use do not depend on the state. *)
Lemma bs_sizes_frame td td' d : o (r td') = o (r td) -> io td' = io td -> bs_sizes td' d = bs_sizes td d.
Proof. intros Ho Hio. unfold bs_sizes. by rewrite Ho, Hio. Qed.

Lemma bs_ddir_frame td td' rnd : io td' = io td -> bs_ddir td' rnd = bs_ddir td rnd.
Proof. intros Hio. unfold bs_ddir. by rewrite Hio. Qed.

(** A read, write or trim that [fill_io_u] accepts, without zones of a device, lies inside the
    file: offset and length together do not pass the real size, which, like the size used for
    I/O, is not changed. *)
Theorem fill_io_u_inside setup adjust fuel td td' :
  zone_mode_zbd (io td) = false -> 0 <= real_file_size (fi td) < 2 ^ 63 -> (forall d, sizes_ok (bs_sizes td d)) ->
  fill_io_u setup adjust false DdirRw fuel td = Some (Filled, td') ->
  0 <= io_u_offset td' /\ 0 <= io_u_buflen td' /\
  io_u_offset td' + io_u_buflen td' <= real_file_size (fi td) /\
  real_file_size (fi td') = real_file_size (fi td) /\ io_size (fi td') = io_size (fi td).
Proof.
  intros Hz Hreal Hok. unfold fill_io_u. rewrite Hz.
  destruct (if zone_strided _ then _ else _) as [td1|] eqn:E1; [|done]. cbn [mbind option_bind].
  assert (F1 : frame (r td1) = frame (r td) /\ io td1 = io td).
  { destruct (zone_strided _); [by apply strided_frame|by injection E1 as <-]. }
  destruct F1 as [F1 Hio1]. clear E1.
  destruct (get_next_offset td1) as [[[ok rnd] td2]|] eqn:E2; [|done]. cbn [mbind option_bind].
  destruct ok; cbn [negb]; [|by intros H; injection H].
  apply next_offset_inside in E2 as (F2 & Hio2 & Hlt & rel & _ & Hoff).
  destruct (get_next_buflen fuel td2 rnd) as [[[b|] td3]|] eqn:E3; cbn [mbind option_bind]; [|done..].
  assert (Hfr : frame (r td2) = frame (r td)) by congruence.
  assert (Hsz : io_size (fi td2) = io_size (fi td) /\ real_file_size (fi td2) = real_file_size (fi td) /\
                real_file_size (fi td1) = real_file_size (fi td) /\ o (r td2) = o (r td)).
  { unfold frame, fi in *. injection Hfr. injection F1. intros. split_and!; congruence. }
  destruct Hsz as (Hs1 & Hs2 & Hs3 & Ho2).
  apply next_buflen_frame in E3 as (Hr3 & Hio3 & Ho3 & Hb); [|rewrite (bs_sizes_frame td) by congruence; apply Hok].
  case_decide; [by intros H'; injection H'|].
  change (io (set_buflen td3 b)) with (io td3). replace (zone_mode_zbd (io td3)) with false by congruence.
  cbn [mbind option_bind]. case_decide as Hend; [by intros H'; injection H'|].
  unfold fi in Hend. cbn [r set_buflen io_u_offset io_u_buflen] in Hend. rewrite Hr3, Ho3 in Hend.
  fold (fi td2) in Hend.
  assert (H0 : 0 <= io_u_offset td2) by (rewrite Hoff; apply wrapu_range; lia).
  rewrite wrapu_small in Hend by lia.
  destruct (match td_random _ with true => _ | false => _ end) as [td4|] eqn:E4; [|done].
  cbn [mbind option_bind fill_out]. intros E. injection E as <-. cbn [io_u_offset io_u_buflen set_zone fi r].
  assert (H4 : frame (r td4) = frame (r td3) /\ io_u_offset td4 = io_u_offset td3 /\ 0 <= io_u_buflen td4 <= b).
  { destruct (td_random _); [|injection E4 as <-; cbn; split_and!; (done || lia)].
    destruct (file_randommap _); [|injection E4 as <-; cbn; split_and!; (done || lia)].
    destruct (mark_random_map _ _ _ _) as [[len x]|] eqn:Em; [|done].
    cbn [mbind option_bind] in E4. injection E4 as <-. apply mark_len in Em as [Hf Hl]; [|cbn; lia].
    split_and!; (done || cbn in *; lia). }
  destruct H4 as (F4 & Ho4 & Hl4). rewrite Hr3, Hfr in F4. rewrite Ho4, Ho3. unfold frame in F4.
  change (f (r (set_zone td4 (u64 (zone_bytes td4 + io_u_buflen td4)) (io_skip_bytes td4)))) with (f (r td4)).
  injection F4 as F4a F4b _. unfold fi in *. split_and!; (done || lia).
Qed.

(** ** Sequential offsets *)

(** A sequential job with an increment that is not negative. *)
Record seq_job td : Prop := {
  sj_random : td_random (io td) = false;
  sj_nr : opt_ddir_seq_nr (io td) = 1 /\ ddir_seq_nr td = 1;
  sj_start : exists start, get_start_offset td = Some start;
  sj_timed : time_based (o (r td)) = false;
  sj_pos : 0 <= file_offset (fi td) <= last_pos (fi td) /\ last_pos (fi td) < 2 ^ 62;
  sj_real : 0 <= real_file_size (fi td) < 2 ^ 62;
  sj_add : 0 <= ddir_seq_add (io td) < 2 ^ 62
}.

Lemma seq_job_seq_nr td k : seq_job td -> ddir_seq_nr td = k -> set_seq_nr td k = td.
Proof. intros _ <-. by destruct td. Qed.

Lemma seq_next td :
  seq_job td ->
  get_next_seq_offset td =
    let pos := last_pos (fi td) - file_offset (fi td) in
    if decide (last_pos (fi td) < real_file_size (fi td)) then
      Some (Some (if decide (pos <> 0 /\ ddir_seq_add (io td) <> 0) then
                    if decide (pos + ddir_seq_add (io td) >= real_file_size (fi td))
                    then file_offset (fi td) else pos + ddir_seq_add (io td)
                  else pos), td)
    else Some (None, td).
Proof.
  intros [_ _ [start Hs] Ht Hp Hr Ha]. unfold get_next_seq_offset. rewrite Hs, Ht.
  cbn [mbind option_bind]. rewrite andb_false_r. cbn [andb]. cbv zeta.
  destruct (decide (last_pos (fi td) < real_file_size (fi td))) as [Hlt|]; [|done].
  rewrite (decide_False (P := _ /\ _ /\ ddir_seq_add (io td) < 0)) by lia.
  rewrite (wrapu_small 64 (last_pos (fi td) - _)) by lia. f_equal. f_equal. f_equal.
  case_decide; [|done]. rewrite (wrapu_small 64 (_ + ddir_seq_add (io td))) by lia.
  case_decide; [|done]. rewrite decide_True by lia. done.
Qed.

Lemma seq_job_next td c :
  seq_job td -> get_next_seq_offset td = Some (c, td) ->
  get_next_offset td =
    match c with
    | Some p =>
        if decide (p <> 2 ^ 64 - 1) then
          if decide (p >= io_size (fi td)) then Some (false, false, set_offset td p)
          else
            let off := u64 (p + file_offset (fi td)) in
            Some (negb (bool_decide (off >= real_file_size (fi td))), false, set_offset (set_offset td p) off)
        else Some (false, false, td)
    | None => Some (false, false, td)
    end.
Proof.
  intros J E. pose proof J as [Hr [Hn1 Hn2] _ _ _ _ _]. unfold get_next_offset.
  rewrite Hn1, Hn2. rewrite decide_True by lia. change (u32 (1 - 1)) with 0.
  rewrite decide_True by done.
  replace (set_seq_nr (set_seq_nr td 0) (opt_ddir_seq_nr (io (set_seq_nr td 0)))) with td
    by (change (io (set_seq_nr td 0)) with (io td); rewrite Hn1; destruct td; cbn in *; by subst).
  unfold get_next_block. rewrite Hr, E. cbn [mbind option_bind option_map]. destruct c as [p|]; [|done].
  cbn [option_map]. case_decide; cbn [mbind option_bind negb]; [|done].
  change (io_u_offset (set_offset td p)) with p. change (fi (set_offset td p)) with (fi td).
  case_decide; [done|]. cbv zeta.
  change (io_u_offset (set_offset (set_offset td p) (u64 (p + file_offset (fi td)))))
    with (u64 (p + file_offset (fi td))).
  change (fi (set_offset (set_offset td p) (u64 (p + file_offset (fi td))))) with (fi td).
  case_decide; [rewrite bool_decide_true by done|rewrite bool_decide_false by done]; done.
Qed.

(** A sequential job without holes continues where the last unit ended, as long
    as that is inside the file and inside the part used for I/O. *)
Definition inside td : Prop :=
  last_pos (fi td) < real_file_size (fi td) /\ last_pos (fi td) - file_offset (fi td) < io_size (fi td).

#[global] Instance inside_dec td : Decision (inside td).
Proof. unfold inside. apply _. Defined.


(** ** A whole sequential job *)



Section jobs.
Context (setup : io_td M -> option (io_td M)) (adjust : io_td M -> option (bool * io_td M)).









(** *** One block size *)





(** *** A range of block sizes *)






End jobs.


(** A sequential job with holes that passes the end of the file is meant to start
    again at the beginning; the position it goes back to is the file offset
    added to itself. *)
Theorem holed_wrap_misplaced td :
  seq_job td -> file_offset (fi td) < last_pos (fi td) < real_file_size (fi td) ->
  0 < ddir_seq_add (io td) ->
  real_file_size (fi td) <= last_pos (fi td) - file_offset (fi td) + ddir_seq_add (io td) ->
  file_offset (fi td) < io_size (fi td) -> 2 * file_offset (fi td) < real_file_size (fi td) ->
  exists td', get_next_offset td = Some (true, false, td') /\ io_u_offset td' = 2 * file_offset (fi td).
Proof.
  intros J Hp Ha Hend Hio Hr. pose proof (seq_next td J) as E. cbv zeta in E.
  pose proof J as [_ _ _ _ Hp' Hr' _]. rewrite decide_True in E by lia.
  rewrite decide_True in E by lia. rewrite decide_True in E by lia.
  rewrite (seq_job_next td _ J E). rewrite decide_True by lia. rewrite decide_False by lia. cbv zeta.
  rewrite wrapu_small by lia. rewrite bool_decide_false by lia. eexists. split; [done|].
  cbn [io_u_offset set_offset]. lia.
Qed.
End proofs.

(** ** A sequential and a random job *)

(** A file of 1 MB of which the part from 64 KiB on is used; [add] is the hole. *)
Definition sample_io (random : bool) (add pos maxbs : Z) : io_td axmap :=
  IoTd (RandTd (RandOpts FIO_RAND_GEN_TAUSWORTHE FIO_RAND_DIST_RANDOM true false false false false 0 0
                         4096 4096 4096 1)
               (init_rand false) (init_rand false) [] 0
               (RandFile 65536 983040 1048576 None None pos 0))
       (IoOpts random 100 RW_SEQ_SEQ 1 add 1 maxbs [] false (BsRange 4096 4096 []) (BsRange 4096 4096 [])
               false false false 0 0 0 65536 None 0 0)
       true 4096 0 1 (init_rand false) (init_rand false) (init_rand false) (init_rand false) 0 0 false 0 0.

Definition no_setup (td : io_td axmap) : option (io_td axmap) := Some td.
Definition no_adjust (td : io_td axmap) : option (bool * io_td axmap) := Some (false, td).

Ltac sample_seq := split; try reflexivity; try (vm_compute; auto; fail);
  try (eexists; vm_compute; reflexivity); cbn; lia.



Lemma buflen_in_range_witness :
  let td := sample_io true 0 65536 32768 in
  exists b td', get_next_buflen 10 td true = Some (Some b, td') /\
    ((b = 0 /\ io_u_fits td 4096 = Some false) \/ admissible td (BsRange 4096 32768 []) b).
Proof.
  intros td. eexists _, _. split; [vm_compute; reflexivity|].
  eapply (buflen_in_range 10 td true); [split_and!; cbn; (lia || done)|reflexivity|vm_compute; reflexivity].
Defined.

Lemma fill_io_u_inside_witness :
  let td := sample_io true 0 65536 32768 in
  exists td', fill_io_u no_setup no_adjust false DdirRw 10 td = Some (Filled, td') /\
    0 <= io_u_offset td' /\ 0 <= io_u_buflen td' /\ io_u_offset td' + io_u_buflen td' <= 1048576 /\
    real_file_size (fi td') = 1048576 /\ io_size (fi td') = 983040.
Proof.
  intros td. eexists. split; [vm_compute; reflexivity|].
  refine (fill_io_u_inside no_setup no_adjust 10 td _ _ _ _ _).
  - reflexivity.
  - cbn. lia.
  - intros []; (split; [cbn; lia|split; [cbn; lia|constructor]]).
  - vm_compute. reflexivity.
Defined.

Lemma holed_wrap_misplaced_witness :
  exists td', get_next_offset (sample_io false 131072 1044480 4096) = Some (true, false, td') /\
    io_u_offset td' = 131072.
Proof.
  apply (holed_wrap_misplaced (sample_io false 131072 1044480 4096)); [sample_seq|cbn; lia..].
Defined.
