(* ===== verification/Fifo.v ===== *)
(** * The byte queue (src/fio/fifo.c, fifo.h)

    A ring buffer with free-running 32-bit indices.  [None] is an access outside
    the buffer.  The queue is proved to hold a sequence of bytes: what is put in
    comes out in order, however the indices wrap. *)

From S2P Require Import Prelude Bits.

Open Scope Z_scope.

Module Fifo.

Record fifo := Mk { buffer : list Z; size : Z; in_ : Z; out : Z }.

(** [garbage] is what [malloc] returns for the buffer. *)
Definition fifo_alloc (garbage : list Z) (sz : Z) : fifo := Mk (resize (Z.to_nat sz) 0 garbage) sz 0 0.

Definition fifo_len (q : fifo) : Z := u32 (in_ q - out q).
Definition fifo_room (q : fifo) : Z := u32 (size q - in_ q + out q).

(** [memcpy(buf + p, data, length data)] *)
Definition copy_to (buf : list Z) (p : Z) (data : list Z) : option (list Z) :=
  if decide (0 <= p /\ p + Z.of_nat (length data) <= Z.of_nat (length buf))
  then Some (take (Z.to_nat p) buf ++ data ++ drop (Z.to_nat p + length data) buf)
  else None.

(** [memcpy(_, buf + p, n)] *)
Definition copy_from (buf : list Z) (p n : Z) : option (list Z) :=
  if decide (0 <= p /\ 0 <= n /\ p + n <= Z.of_nat (length buf))
  then Some (take (Z.to_nat n) (drop (Z.to_nat p) buf))
  else None.

(** [data] holds at least [len] bytes. *)
Definition fifo_put (q : fifo) (data : list Z) (len : Z) : option (Z * fifo) :=
  let len := Z.min len (fifo_room q) in
  let p := Z.land (in_ q) (u32 (size q - 1)) in
  let l := Z.min len (u32 (size q - p)) in
  buf ← copy_to (buffer q) p (take (Z.to_nat l) data);
  buf ← copy_to buf 0 (take (Z.to_nat (u32 (len - l))) (drop (Z.to_nat l) data));
  Some (len, Mk buf (size q) (u32 (in_ q + len)) (out q)).

(** With [want] unset ([buf == NULL]) the bytes are only dropped. *)
Definition fifo_get (q : fifo) (want : bool) (len : Z) : option (Z * list Z * fifo) :=
  let len := Z.min len (u32 (in_ q - out q)) in
  data ← (if want then
            let p := Z.land (out q) (u32 (size q - 1)) in
            let l := Z.min len (u32 (size q - p)) in
            a ← copy_from (buffer q) p l;
            b ← copy_from (buffer q) 0 (u32 (len - l));
            Some (a ++ b)
          else Some []);
  let out' := u32 (out q + len) in
  let q' := if decide (in_ q = out') then Mk (buffer q) (size q) 0 0
            else Mk (buffer q) (size q) (in_ q) out' in
  Some (len, data, q').

(** ** The bytes a queue holds *)

(** The byte [i] places after the read position. *)
Definition byte_at (q : fifo) (i : Z) : Z := nth (Z.to_nat ((out q + i) mod size q)) (buffer q) 0.

Definition contents (q : fifo) : list Z := byte_at q <$> seqZ 0 (fifo_len q).

Record ok (q : fifo) : Prop := {
  ok_size : exists k, 0 <= k <= 31 /\ size q = 2 ^ k;
  ok_buffer : Z.of_nat (length (buffer q)) = size q;
  ok_in : 0 <= in_ q < 2 ^ 32;
  ok_out : 0 <= out q < 2 ^ 32;
  ok_len : fifo_len q <= size q
}.

Lemma size_bounds q : ok q -> 1 <= size q <= 2 ^ 31.
Proof.
  intros [[k [Hk ->]] _ _ _ _]. split.
  - pose proof (Z.pow_pos_nonneg 2 k). lia.
  - by apply Z.pow_le_mono_r; lia.
Qed.

(** The size divides [2^32], so that indices may wrap. *)
Lemma mod_u32 q x : ok q -> (u32 x) mod size q = x mod size q.
Proof.
  intros [[k [Hk ->]] _ _ _ _]. unfold wrapu. pose proof (Z.pow_pos_nonneg 2 k).
  apply Z.mod_mod_divide. exists (2 ^ (32 - k)). rewrite <- Z.pow_add_r by lia.
  f_equal. lia.
Qed.

Lemma size_mask q x : ok q -> Z.land x (u32 (size q - 1)) = x mod size q.
Proof.
  intros H. pose proof (size_bounds q H). destruct (ok_size q H) as [k [Hk E]]. rewrite E in *.
  rewrite wrapu_small by lia. replace (2 ^ k - 1) with (Z.ones k) by (rewrite Z.ones_equiv; lia).
  apply Z.land_ones. lia.
Qed.

Lemma len_bounds q : ok q -> 0 <= fifo_len q <= size q.
Proof. intros H. split; [apply wrapu_range; lia|apply (ok_len q H)]. Qed.

Lemma room_eq q : ok q -> fifo_room q = size q - fifo_len q.
Proof.
  intros H. pose proof (len_bounds q H) as Hl. pose proof (size_bounds q H).
  unfold fifo_room. replace (size q - in_ q + out q) with (size q - (in_ q - out q)) by lia.
  unfold fifo_len, wrapu in *. rewrite <- Zminus_mod_idemp_r. rewrite Z.mod_small; lia.
Qed.

(** ** Copies, byte by byte *)

Lemma copy_to_nth buf p data buf' :
  copy_to buf p data = Some buf' ->
  length buf' = length buf /\
  forall j, 0 <= j -> nth (Z.to_nat j) buf' 0 =
    if decide (p <= j < p + Z.of_nat (length data)) then nth (Z.to_nat (j - p)) data 0 else nth (Z.to_nat j) buf 0.
Proof.
  unfold copy_to. case_decide as H; [|done]. intros E. injection E as <-. split.
  - rewrite !length_app, length_take, length_drop. lia.
  - intros j Hj. rewrite !nth_lookup. case_decide as Hc.
    + rewrite lookup_app_r by (rewrite length_take; lia). rewrite length_take.
      rewrite lookup_app_l by lia. do 2 f_equal. lia.
    + destruct (decide (j < p)).
      * rewrite lookup_app_l by (rewrite length_take; lia). rewrite lookup_take_lt by lia. done.
      * rewrite lookup_app_r by (rewrite length_take; lia). rewrite length_take.
        rewrite lookup_app_r by lia. rewrite lookup_drop. do 2 f_equal. lia.
Qed.

(** One turn round the ring at most. *)
Lemma wrap_once a i s : 0 <= a < s -> 0 <= i <= s -> (a + i) mod s = if decide (a + i < s) then a + i else a + i - s.
Proof.
  intros Ha Hi. case_decide; [by apply Z.mod_small; lia|].
  symmetry. apply (Z.mod_unique _ _ 1); lia.
Qed.

(** Position [i] after the read position, and after the write position. *)
Lemma read_pos q i : ok q -> 0 <= i <= size q ->
  (out q + i) mod size q = if decide (out q mod size q + i < size q) then out q mod size q + i
                           else out q mod size q + i - size q.
Proof.
  intros H Hi. pose proof (size_bounds q H). rewrite <- wrap_once; [|apply Z.mod_pos_bound; lia|lia].
  by rewrite Zplus_mod_idemp_l.
Qed.

Lemma write_pos q : ok q -> in_ q mod size q = (out q + fifo_len q) mod size q.
Proof.
  intros H. rewrite <- Zplus_mod_idemp_r. unfold fifo_len. rewrite (mod_u32 q) by done.
  rewrite Zplus_mod_idemp_r. f_equal. lia.
Qed.

Lemma fmap_seqZ_take (g : Z -> Z) a n data :
  0 <= n <= Z.of_nat (length data) -> (forall i, 0 <= i < n -> g (a + i) = nth (Z.to_nat i) data 0) ->
  g <$> seqZ a n = take (Z.to_nat n) data.
Proof.
  intros Hn Hg. apply list_eq. intros i. rewrite list_lookup_fmap.
  destruct (decide (Z.of_nat i < n)) as [Hi|Hi].
  - rewrite lookup_take_lt by lia. rewrite lookup_seqZ_lt by lia. cbn. rewrite Hg by lia.
    symmetry. rewrite Nat2Z.id. apply nth_default_lookup. lia.
  - rewrite lookup_seqZ_ge by lia. symmetry. apply lookup_take_ge. lia.
Qed.

Lemma contents_length q : ok q -> Z.of_nat (length (contents q)) = fifo_len q.
Proof.
  intros H. unfold contents. rewrite length_fmap, length_seqZ. pose proof (len_bounds q H). lia.
Qed.

(** ** Putting *)

Lemma put_buffer q data n :
  ok q -> 0 <= n <= size q - fifo_len q -> n <= Z.of_nat (length data) ->
  let p := in_ q mod size q in
  let l := Z.min n (size q - p) in
  exists buf1 buf2,
    copy_to (buffer q) p (take (Z.to_nat l) data) = Some buf1 /\
    copy_to buf1 0 (take (Z.to_nat (n - l)) (drop (Z.to_nat l) data)) = Some buf2 /\
    length buf2 = length (buffer q) /\
    (forall i, 0 <= i < fifo_len q ->
       nth (Z.to_nat ((out q + i) mod size q)) buf2 0 = byte_at q i) /\
    (forall i, 0 <= i < n ->
       nth (Z.to_nat ((out q + (fifo_len q + i)) mod size q)) buf2 0 = nth (Z.to_nat i) data 0).
Proof.
  intros H Hn Hd p l. pose proof (size_bounds q H) as Hs. pose proof (len_bounds q H) as Hl0.
  pose proof (ok_buffer q H) as Hb. assert (Hp : 0 <= p < size q) by (apply Z.mod_pos_bound; lia).
  assert (Hlen1 : Z.of_nat (length (take (Z.to_nat l) data)) = l) by (rewrite length_take; lia).
  assert (Hlen2 : Z.of_nat (length (take (Z.to_nat (n - l)) (drop (Z.to_nat l) data))) = n - l)
    by (rewrite length_take, length_drop; lia).
  destruct (copy_to (buffer q) p (take (Z.to_nat l) data)) as [buf1|] eqn:E1.
  2:{ exfalso. unfold copy_to in E1. case_decide; [done|]. lia. }
  destruct (copy_to_nth _ _ _ _ E1) as [L1 N1].
  destruct (copy_to buf1 0 (take (Z.to_nat (n - l)) (drop (Z.to_nat l) data))) as [buf2|] eqn:E2.
  2:{ exfalso. unfold copy_to in E2. case_decide; [done|]. lia. }
  destruct (copy_to_nth _ _ _ _ E2) as [L2 N2]. exists buf1, buf2.
  split; [done|]. split; [done|]. split; [lia|].
  assert (Hwp : out q mod size q + fifo_len q < size q /\ p = out q mod size q + fifo_len q \/
                size q <= out q mod size q + fifo_len q /\ p = out q mod size q + fifo_len q - size q).
  { unfold p. rewrite write_pos, read_pos by (done || lia). case_decide; lia. }
  assert (Hl : l = Z.min n (size q - p)) by done. clearbody l p.
  pose proof (Z.mod_pos_bound (out q) (size q) ltac:(lia)) as Ho.
  assert (Hget : forall j, 0 <= j < size q -> nth (Z.to_nat j) buf2 0 =
    if decide (p <= j < p + l) then nth (Z.to_nat (j - p)) data 0
    else if decide (j < n - l) then nth (Z.to_nat (j + l)) data 0 else nth (Z.to_nat j) (buffer q) 0).
  { intros j Hj. rewrite N2 by lia. rewrite Hlen2. case_decide as Ha.
    - rewrite (decide_False (P := p <= j < p + l)) by lia. rewrite decide_True by lia.
      rewrite !nth_lookup, lookup_take_lt, lookup_drop by lia. do 2 f_equal. lia.
    - rewrite N1 by lia. rewrite Hlen1. case_decide as Hb'.
      + rewrite !nth_lookup, lookup_take_lt by lia. done.
      + rewrite decide_False by lia. done. }
  split; intros i Hi.
  - unfold byte_at. rewrite read_pos by (done || lia). rewrite Hget by (case_decide; lia).
    destruct (decide (out q mod size q + i < size q)); rewrite !decide_False by lia; done.
  - rewrite read_pos by (done || lia). rewrite Hget by (case_decide; lia).
    destruct (decide (out q mod size q + (fifo_len q + i) < size q)) as [Ha|Ha];
      [|destruct (decide (size q <= out q mod size q + fifo_len q))].
    + rewrite decide_True by lia. f_equal. lia.
    + rewrite decide_True by lia. f_equal. lia.
    + rewrite decide_False by lia. rewrite decide_True by lia. f_equal. lia.
Qed.

Lemma fifo_put_spec q data len :
  ok q -> 0 <= len < 2 ^ 32 -> len <= Z.of_nat (length data) ->
  let n := Z.min len (size q - fifo_len q) in
  exists q', fifo_put q data len = Some (n, q') /\ ok q' /\ size q' = size q /\
    contents q' = contents q ++ take (Z.to_nat n) data.
Proof.
  intros H Hlen Hd n. pose proof (size_bounds q H) as Hs. pose proof (len_bounds q H) as Hl0.
  unfold fifo_put. rewrite room_eq, size_mask by done. fold n.
  pose proof (Z.mod_pos_bound (in_ q) (size q) ltac:(lia)) as Hp.
  rewrite (wrapu_small 32 (size q - _)) by lia. rewrite (wrapu_small 32 (n - _)) by lia.
  destruct (put_buffer q data n H) as (buf1 & buf2 & E1 & E2 & Hlb & Hold & Hnew); [lia|lia|].
  rewrite E1. cbn [mbind option_bind]. rewrite E2. cbn [mbind option_bind].
  eexists. split; [done|].
  assert (Hlen' : fifo_len (Mk buf2 (size q) (u32 (in_ q + n)) (out q)) = fifo_len q + n).
  { unfold fifo_len. cbn [in_ out]. unfold wrapu. rewrite Zminus_mod_idemp_l.
    replace (in_ q + n - out q) with ((in_ q - out q) + n) by lia. rewrite <- Zplus_mod_idemp_l.
    fold (wrapu 32 (in_ q - out q)). fold (fifo_len q). apply Z.mod_small. lia. }
  split; [|split; [done|]].
  - destruct H as [Hsz Hb Hi Ho Hl]. split; cbn [size buffer in_ out]; [done|lia|apply wrapu_range; lia|done|].
    rewrite Hlen'. lia.
  - unfold contents. rewrite Hlen', seqZ_app by lia. rewrite fmap_app. f_equal.
    + apply list_fmap_ext. intros k i Hi%lookup_seqZ. unfold byte_at at 1. cbn [size out buffer].
      apply Hold. lia.
    + apply fmap_seqZ_take; [lia|]. intros i Hi. unfold byte_at. cbn [size out buffer].
      rewrite Z.add_0_l. by apply Hnew.
Qed.

(** ** Getting *)

Lemma copy_from_nth buf p n : 0 <= p -> 0 <= n -> p + n <= Z.of_nat (length buf) ->
  copy_from buf p n = Some ((fun i => nth (Z.to_nat i) buf 0) <$> seqZ p n).
Proof.
  intros Hp Hn Hl. unfold copy_from. rewrite decide_True by lia. f_equal. symmetry.
  apply fmap_seqZ_take; [rewrite length_drop; lia|]. intros i Hi. rewrite nth_app_drop. f_equal. lia.
Qed.

Lemma get_data q n :
  ok q -> 0 <= n <= fifo_len q ->
  let p := out q mod size q in
  let l := Z.min n (size q - p) in
  exists a b, copy_from (buffer q) p l = Some a /\ copy_from (buffer q) 0 (n - l) = Some b /\
    a ++ b = byte_at q <$> seqZ 0 n.
Proof.
  intros H Hn p l. pose proof (size_bounds q H) as Hs. pose proof (len_bounds q H) as Hl0.
  pose proof (ok_buffer q H) as Hb. assert (Hp : 0 <= p < size q) by (apply Z.mod_pos_bound; lia).
  eexists _, _. split; [apply copy_from_nth; lia|]. split; [apply copy_from_nth; lia|].
  replace (seqZ 0 n) with (seqZ 0 (l + (n - l))) by (f_equal; lia). rewrite seqZ_app by lia.
  rewrite fmap_app. assert (Hpos : forall i, 0 <= i < n -> byte_at q i =
    nth (Z.to_nat (if decide (p + i < size q) then p + i else p + i - size q)) (buffer q) 0).
  { intros i Hi. unfold byte_at. rewrite read_pos by (done || lia). done. }
  assert (Hl : l = Z.min n (size q - p)) by done. clearbody l p.
  f_equal; apply list_eq; intros k; rewrite !list_lookup_fmap.
  - destruct (decide (Z.of_nat k < l)); [|by rewrite !lookup_seqZ_ge by lia].
    rewrite !lookup_seqZ_lt by lia. cbn [fmap option_fmap option_map]. rewrite Hpos by lia.
    rewrite decide_True by lia. do 3 f_equal; lia.
  - destruct (decide (Z.of_nat k < n - l)); [|by rewrite !lookup_seqZ_ge by lia].
    rewrite !lookup_seqZ_lt by lia. cbn [fmap option_fmap option_map]. rewrite Hpos by lia.
    rewrite decide_False by lia. do 3 f_equal; lia.
Qed.

Lemma fifo_get_spec q want len :
  ok q -> 0 <= len < 2 ^ 32 ->
  let n := Z.min len (fifo_len q) in
  exists q', fifo_get q want len =
      Some (n, if want then take (Z.to_nat n) (contents q) else [], q') /\
    ok q' /\ size q' = size q /\ contents q' = drop (Z.to_nat n) (contents q).
Proof.
  intros H Hlen n. pose proof (size_bounds q H) as Hs. pose proof (len_bounds q H) as Hl0.
  assert (Hn0 : 0 <= n <= fifo_len q) by (unfold n; lia).
  unfold fifo_get. fold (fifo_len q). fold n. rewrite size_mask by done.
  pose proof (Z.mod_pos_bound (out q) (size q) ltac:(lia)) as Hp.
  rewrite (wrapu_small 32 (size q - _)) by lia. rewrite (wrapu_small 32 (n - _)) by lia.
  destruct (get_data q n H) as (a & b & Ea & Eb & Eab); [lia|].
  assert (Etake : byte_at q <$> seqZ 0 n = take (Z.to_nat n) (contents q)).
  { unfold contents. rewrite <- fmap_take. f_equal.
    replace (fifo_len q) with (n + (fifo_len q - n)) by lia. rewrite seqZ_app by lia.
    by rewrite take_app_length' by (rewrite length_seqZ; done). }
  assert (Edata : (if want then a ← copy_from (buffer q) (out q mod size q) (Z.min n (size q - out q mod size q));
                     b ← copy_from (buffer q) 0 (n - Z.min n (size q - out q mod size q)); Some (a ++ b)
                   else Some []) = Some (if want then take (Z.to_nat n) (contents q) else [])).
  { destruct want; [|done]. rewrite Ea. cbn [mbind option_bind]. rewrite Eb. cbn [mbind option_bind].
    by rewrite Eab, Etake. }
  rewrite Edata. cbn [mbind option_bind]. eexists. split; [done|].
  assert (Hl' : u32 (in_ q - u32 (out q + n)) = fifo_len q - n).
  { unfold wrapu. rewrite Zminus_mod_idemp_r.
    replace (in_ q - (out q + n)) with ((in_ q - out q) - n) by lia. rewrite <- Zminus_mod_idemp_l.
    fold (wrapu 32 (in_ q - out q)). fold (fifo_len q). apply Z.mod_small. lia. }
  case_decide as Heq.
  - assert (Hall : n = fifo_len q).
    { rewrite <- Heq, Z.sub_diag in Hl'. change (u32 0) with 0 in Hl'. lia. }
    split; [|split; [done|]].
    + destruct H. split; try done. change (fifo_len (Mk (buffer q) (size q) 0 0)) with 0. cbn. lia.
    + rewrite drop_ge by (pose proof (contents_length q H); lia). done.
  - split; [|split; [done|]].
    + destruct H. split; try done; [apply wrapu_range; lia|].
      unfold fifo_len at 1. cbn [in_ out]. rewrite Hl'. cbn [size]. lia.
    + unfold contents. rewrite <- fmap_drop.
      replace (fifo_len (Mk (buffer q) (size q) (in_ q) (u32 (out q + n)))) with (fifo_len q - n) by done.
      replace (seqZ 0 (fifo_len q)) with (seqZ 0 (n + (fifo_len q - n))) by (f_equal; lia).
      rewrite seqZ_app by lia. rewrite drop_app_length' by (rewrite length_seqZ; done).
      apply list_eq. intros k. rewrite !list_lookup_fmap.
      destruct (decide (Z.of_nat k < fifo_len q - n)); [|by rewrite !lookup_seqZ_ge by lia].
      rewrite !lookup_seqZ_lt by lia. cbn [fmap option_fmap option_map]. unfold byte_at. cbn [out size buffer].
      do 3 f_equal. rewrite <- Zplus_mod_idemp_l, (mod_u32 q), Zplus_mod_idemp_l by done. f_equal. lia.
Qed.

(** ** A queue of bytes *)

Inductive fop :=
  | Put (data : list Z)
  | Get (len : Z).

Definition fop_ok (p : fop) : Prop :=
  match p with
  | Put data => Z.of_nat (length data) < 2 ^ 32
  | Get len => 0 <= len < 2 ^ 32
  end.

(** The bytes that come out, or how many went in. *)
Definition fifo_op (q : fifo) (p : fop) : option ((Z * list Z) * fifo) :=
  match p with
  | Put data => '(n, q) ← fifo_put q data (Z.of_nat (length data)); Some ((n, []), q)
  | Get len => '(n, data, q) ← fifo_get q true len; Some ((n, data), q)
  end.

(** The same on a list that may hold [cap] bytes. *)
Definition list_op (cap : Z) (l : list Z) (p : fop) : (Z * list Z) * list Z :=
  match p with
  | Put data =>
      let n := Z.min (Z.of_nat (length data)) (cap - Z.of_nat (length l)) in
      ((n, []), l ++ take (Z.to_nat n) data)
  | Get len =>
      let n := Z.min len (Z.of_nat (length l)) in
      ((n, take (Z.to_nat n) l), drop (Z.to_nat n) l)
  end.

Fixpoint fifo_ops (q : fifo) (ps : list fop) : option (list (Z * list Z)) :=
  match ps with
  | [] => Some []
  | p :: ps' => '(r, q) ← fifo_op q p; rs ← fifo_ops q ps'; Some (r :: rs)
  end.

Fixpoint list_ops (cap : Z) (l : list Z) (ps : list fop) : list (Z * list Z) :=
  match ps with
  | [] => []
  | p :: ps' => let '(r, l) := list_op cap l p in r :: list_ops cap l ps'
  end.

Lemma fifo_ops_simulate ps : forall q,
  ok q -> Forall fop_ok ps -> fifo_ops q ps = Some (list_ops (size q) (contents q) ps).
Proof.
  induction ps as [|p ps IH]; intros q H Hps; [done|]. inversion_clear Hps as [|? ? Hp Hps'].
  cbn [fifo_ops list_ops]. pose proof (contents_length q H) as Hc. destruct p as [data|len]; cbn [fifo_op list_op fop_ok] in *.
  - destruct (fifo_put_spec q data (Z.of_nat (length data)) H) as (q' & E & H' & Hs & Ec); [lia|lia|].
    rewrite E, Hc. cbn [mbind option_bind]. rewrite (IH q' H' Hps'), Hs, Ec. done.
  - destruct (fifo_get_spec q true len H Hp) as (q' & E & H' & Hs & Ec).
    rewrite E, Hc. cbn [mbind option_bind]. rewrite (IH q' H' Hps'), Hs, Ec. done.
Qed.

(** C30: A queue allocated with a power of two as its size behaves as a list of at most
    that many bytes: for every sequence of puts and gets the counts and the bytes
    returned are those of the list, whatever the buffer held and however often
    the 32-bit indices wrap. *)
Theorem fifo_refines_list garbage k ps :
  0 <= k <= 31 -> Forall fop_ok ps ->
  fifo_ops (fifo_alloc garbage (2 ^ k)) ps = Some (list_ops (2 ^ k) [] ps).
Proof.
  intros Hk Hps. pose proof (Z.pow_pos_nonneg 2 k).
  assert (Hmax : 2 ^ k <= 2 ^ 31) by (apply Z.pow_le_mono_r; lia).
  rewrite (fifo_ops_simulate ps); [done| |done]. split; cbn [size buffer in_ out fifo_alloc].
  - by exists k.
  - rewrite length_resize. lia.
  - lia.
  - lia.
  - change (fifo_len (fifo_alloc garbage (2 ^ k))) with 0. lia.
Qed.

Lemma fifo_refines_list_witness :
  fifo_ops (fifo_alloc [9; 9] (2 ^ 3)) [Put [1; 2; 3; 4; 5; 6]; Get 4; Put [7; 8; 9; 10; 11; 12; 13; 14]; Get 20]
  = Some (list_ops (2 ^ 3) [] [Put [1; 2; 3; 4; 5; 6]; Get 4; Put [7; 8; 9; 10; 11; 12; 13; 14]; Get 20]).
Proof. apply (fifo_refines_list [9; 9] 3); [lia|]. repeat constructor; cbn; lia. Defined.

(** A size that is not a power of two is accepted and mixes the bytes up. *)
Lemma fifo_size_three :
  fifo_ops (fifo_alloc [] 3) [Put [1; 2]; Get 1; Put [3; 4]; Get 3] = Some [(2, []); (1, [1]); (2, []); (3, [4; 2; 3])].
Proof. vm_compute. reflexivity. Qed.

End Fifo.
