(* ===== verification/FlistSort.v ===== *)
(** * Merge sort of linked lists (src/fio/lib/flist_sort.c)

    A chain of nodes is the list of its nodes; [NULL] is the empty list.  Only
    the order of the nodes matters to the callers, so that the [prev] links,
    which [merge_and_restore_back_links] rebuilds, are the order read backwards. *)

From S2P Require Import Prelude.

Open Scope Z_scope.

Definition MAX_LIST_LENGTH_BITS : nat := 20.

Section sort.
Context {A : Type} (cmp : A -> A -> Z).

(** Takes from [a] when the heads are equal. *)
Fixpoint merge (a : list A) : list A -> list A :=
  fix merge_a (b : list A) : list A :=
    match a, b with
    | [], _ => b
    | _, [] => a
    | x :: a', y :: b' => if decide (cmp x y <= 0) then x :: merge a' b else y :: merge_a b'
    end.

(** [for (lev = 0; part[lev]; lev++) { cur = merge(part[lev], cur); part[lev] = NULL; }]
    from slot [lev] on: the level reached, [cur] and the slots.  [None]: the loop
    ran past the array. *)
Fixpoint carry (lev : nat) (part : list (list A)) (cur : list A)
    : option (nat * list A * list (list A)) :=
  match part with
  | [] => None
  | [] :: _ => Some (lev, cur, part)
  | p :: part' => '(l, cur, part') ← carry (S lev) part' (merge p cur); Some (l, cur, [] :: part')
  end.

(** One element: carry, the check for the highest level, and the store. *)
Definition add (part : list (list A)) (max_lev : nat) (x : A) : option (list (list A) * nat) :=
  '(lev, cur, part) ← carry 0 part [x];
  let '(lev, max_lev) :=
    if decide (max_lev < lev)%nat then
      let lev := if decide (MAX_LIST_LENGTH_BITS <= lev)%nat then (lev - 1)%nat else lev in (lev, lev)
    else (lev, max_lev) in
  Some (<[lev := cur]> part, max_lev).

Fixpoint adds (part : list (list A)) (max_lev : nat) (l : list A) : option (list (list A) * nat) :=
  match l with
  | [] => Some (part, max_lev)
  | x :: l' => '(part, max_lev) ← add part max_lev x; adds part max_lev l'
  end.

(** [for (lev = 0; lev < max_lev; lev++) if (part[lev]) list = merge(part[lev], list);] *)
Fixpoint collect (n : nat) (part : list (list A)) (l : list A) : list A :=
  match n, part with
  | S n', p :: part' => collect n' part' (match p with [] => l | _ => merge p l end)
  | _, _ => l
  end.

Definition flist_sort (l : list A) : option (list A) :=
  match l with
  | [] => Some []
  | _ =>
      '(part, max_lev) ← adds (replicate (S MAX_LIST_LENGTH_BITS) []) 0 l;
      p ← part !! max_lev;
      Some (merge p (collect max_lev part []))
  end.

(** ** The reference: stable insertion sort *)

Fixpoint insert (x : A) (l : list A) : list A :=
  match l with
  | [] => [x]
  | y :: l' => if decide (cmp x y <= 0) then x :: l else y :: insert x l'
  end.

Fixpoint isort (l : list A) : list A :=
  match l with
  | [] => []
  | x :: l' => insert x (isort l')
  end.

(** A comparison function: a total preorder. *)
Class Comparison : Prop := {
  cmp_total x y : cmp x y <= 0 \/ cmp y x <= 0;
  cmp_trans x y z : cmp x y <= 0 -> cmp y z <= 0 -> cmp x z <= 0
}.

Lemma merge_nil_l b : merge [] b = b.
Proof. by destruct b. Qed.
Lemma merge_nil_r a : merge a [] = a.
Proof. by destruct a. Qed.
Lemma merge_cons x a y b :
  merge (x :: a) (y :: b) = if decide (cmp x y <= 0) then x :: merge a (y :: b) else y :: merge (x :: a) b.
Proof. done. Qed.

Context {CMP : Comparison}.

(** The head of a list is minimal. *)
Definition le_all (x : A) (l : list A) : Prop := Forall (fun y => cmp x y <= 0) l.

Inductive sorted : list A -> Prop :=
  | sorted_nil : sorted []
  | sorted_cons x l : le_all x l -> sorted l -> sorted (x :: l).

Lemma le_all_trans x y l : cmp x y <= 0 -> le_all y l -> le_all x l.
Proof. intros H Hl. eapply Forall_impl; [exact Hl|]. intros z Hz. by eapply cmp_trans. Qed.

Lemma insert_le_all x y l : cmp y x <= 0 -> le_all y l -> le_all y (insert x l).
Proof.
  intros Hx Hl. induction Hl as [|z l Hz Hl IH]; cbn [insert]; [by repeat constructor|].
  case_decide; repeat constructor; auto.
Qed.

Lemma insert_sorted x l : sorted l -> sorted (insert x l).
Proof.
  induction 1 as [|y l Hy Hl IH]; cbn [insert]; [by repeat constructor|]. case_decide as E.
  - constructor; [|by constructor]. constructor; [done|]. by eapply le_all_trans.
  - constructor; [|done]. apply insert_le_all; [|done]. destruct (cmp_total x y); [lia|done].
Qed.

Lemma isort_sorted l : sorted (isort l).
Proof. induction l as [|x l IH]; cbn; [constructor|]. by apply insert_sorted. Qed.

Lemma insert_le x l : le_all x l -> insert x l = x :: l.
Proof. intros H. destruct H as [|y l Hy]; cbn [insert]; [done|]. by rewrite decide_True. Qed.

(** Inserting into the first list of a merge. *)
Lemma merge_insert x a b : sorted a -> sorted b -> merge (insert x a) b = insert x (merge a b).
Proof.
  intros Ha. revert b. induction Ha as [|y a Hy Ha IHa]; intros b Hb.
  - cbn [insert]. rewrite merge_nil_l. induction Hb as [|z b Hz Hb IHb]; [done|].
    rewrite merge_cons. cbn [insert]. case_decide; [by rewrite merge_nil_l|]. by rewrite IHb.
  - induction Hb as [|z b Hz Hb IHb].
    + by rewrite !merge_nil_r.
    + cbn [insert]. rewrite (merge_cons y a z b). destruct (decide (cmp x y <= 0)) as [Hxy|Hxy].
      * rewrite merge_cons. destruct (decide (cmp x z <= 0)) as [Hxz|Hxz].
        -- rewrite merge_cons. case_decide as Hyz; cbn [insert].
           ++ by rewrite decide_True.
           ++ by rewrite decide_True.
        -- rewrite decide_False by (intros Hyz; apply Hxz; by eapply cmp_trans).
           cbn [insert]. rewrite decide_False by done. f_equal. rewrite <- IHb. cbn [insert].
           by rewrite decide_True.
      * rewrite merge_cons. case_decide as Hyz; cbn [insert].
        -- rewrite decide_False by done. f_equal. rewrite IHa by by constructor. done.
        -- rewrite decide_False.
           ++ f_equal. rewrite <- IHb. cbn [insert]. by rewrite decide_False.
           ++ intros Hxz. apply Hxy. destruct (cmp_total y z) as [|Hzy]; [done|]. by eapply cmp_trans.
Qed.

Lemma merge_isort s t : merge (isort s) (isort t) = isort (s ++ t).
Proof.
  induction s as [|x s IH]; cbn [isort app]; [apply merge_nil_l|].
  rewrite merge_insert by apply isort_sorted. by rewrite IH.
Qed.

(** ** The slots hold sorted runs of the input *)

Lemma insert_nonnil x l : insert x l <> [].
Proof. destruct l; cbn [insert]; [done|]. by case_decide. Qed.

Lemma isort_nil s : isort s = [] <-> s = [].
Proof. destruct s; [done|]. split; [|done]. intros E. by apply insert_nonnil in E. Qed.

(** The input the slots hold: higher slots are older. *)
Definition held (segs : list (list A)) : list A := concat (rev segs).

Lemma held_cons g segs : held (g :: segs) = held segs ++ g.
Proof. unfold held. cbn [rev]. rewrite concat_app. cbn. by rewrite app_nil_r. Qed.

Lemma held_app s1 s2 : held (s1 ++ s2) = held s2 ++ held s1.
Proof. unfold held. by rewrite rev_app_distr, concat_app. Qed.

Lemma held_empty n : held (replicate n []) = [].
Proof. induction n as [|n IH]; [done|]. cbn [replicate]. by rewrite held_cons, IH. Qed.

Lemma carry_spec segs : forall lev c k,
  (forall i, (i < k)%nat -> segs !! i <> Some []) -> segs !! k = Some [] ->
  carry lev (isort <$> segs) (isort c) =
    Some ((lev + k)%nat, isort (held (take k segs) ++ c),
          isort <$> (replicate k [] ++ drop k segs)).
Proof.
  induction segs as [|g segs IH]; intros lev c k Hlt Hk; [done|]. destruct k as [|k].
  - injection Hk as ->. cbn. by rewrite Nat.add_0_r.
  - cbn [fmap list_fmap carry]. destruct (isort g) as [|y g'] eqn:Eg.
    { apply (proj1 (isort_nil g)) in Eg. subst g. by destruct (Hlt 0%nat ltac:(lia)). }
    rewrite <- Eg, merge_isort. rewrite (IH (S lev) (g ++ c) k); [|intros i Hi; apply (Hlt (S i)); lia|done].
    cbn [mbind option_bind take drop replicate app]. rewrite held_cons, <- app_assoc.
    f_equal. f_equal. f_equal. lia.
Qed.

(** The slots after [l] has been added: the highest one in use is [m]. *)
Record slots (l : list A) (segs : list (list A)) (m : nat) : Prop := {
  sl_length : length segs = S MAX_LIST_LENGTH_BITS;
  sl_max : (m < MAX_LIST_LENGTH_BITS)%nat;
  sl_above : drop (S m) segs = replicate (MAX_LIST_LENGTH_BITS - m) [];
  sl_held : held segs = l
}.

Lemma first_empty (segs : list (list A)) k :
  segs !! k = Some [] ->
  exists j, (j <= k)%nat /\ segs !! j = Some [] /\ forall i, (i < j)%nat -> segs !! i <> Some [].
Proof.
  revert k. induction segs as [|g segs IH]; intros k Hk; [done|]. destruct g as [|y g].
  - exists 0%nat. split_and!; [lia|done|lia].
  - destruct k as [|k]; [done|]. destruct (IH k Hk) as (j & Hj & Hs & Hb).
    exists (S j). split_and!; [lia|done|]. intros [|i] Hi; [done|]. apply Hb. lia.
Qed.

Lemma slot_above l segs m i :
  slots l segs m -> (m < i <= MAX_LIST_LENGTH_BITS)%nat -> segs !! i = Some [].
Proof.
  intros [Hl Hm Ha _] Hi. replace i with (S m + (i - S m))%nat by lia. rewrite <- lookup_drop, Ha.
  apply lookup_replicate. split; [done|lia].
Qed.

Lemma insert_at {B} (l1 l2 : list B) x y n : length l1 = n -> <[n := y]> (l1 ++ x :: l2) = l1 ++ y :: l2.
Proof. intros <-. by rewrite insert_app_r_alt, Nat.sub_diag by lia. Qed.

Lemma add_spec l segs m x :
  slots l segs m ->
  exists segs' m', add (isort <$> segs) m x = Some (isort <$> segs', m') /\ slots (l ++ [x]) segs' m'.
Proof.
  intros S. pose proof S as [Hl Hm Ha Hh]. unfold add.
  destruct (first_empty segs MAX_LIST_LENGTH_BITS) as (k & Hk & Hk0 & Hlt).
  { apply (slot_above l segs m); [done|lia]. }
  assert (Hkm : (k <= Datatypes.S m)%nat).
  { destruct (decide (k <= Datatypes.S m)%nat); [done|]. exfalso. apply (Hlt (Datatypes.S m)); [lia|].
    apply (slot_above l segs m); [done|lia]. }
  change [x] with (isort [x]). rewrite (carry_spec segs 0 [x] k) by done.
  cbn [mbind option_bind]. rewrite Nat.add_0_l. set (c := held (take k segs) ++ [x]).
  assert (Esegs : segs = take k segs ++ [] :: drop (Datatypes.S k) segs) by (by rewrite take_drop_middle).
  set (rest := drop (Datatypes.S k) segs) in *.
  assert (Edrop : drop k segs = [] :: rest) by (by apply drop_S).
  assert (Hheld : held rest ++ c = l ++ [x]).
  { rewrite <- Hh. rewrite Esegs at 1. rewrite held_app, held_cons, app_nil_r. unfold c.
    by rewrite app_assoc. }
  assert (Hlr : length rest = (MAX_LIST_LENGTH_BITS - k)%nat) by (unfold rest; rewrite length_drop; lia).
  rewrite Edrop. destruct (decide (k = MAX_LIST_LENGTH_BITS)) as [E20|Hne].
  - (* the last slot but one takes everything *)
    assert (Em : m = 19%nat) by (unfold MAX_LIST_LENGTH_BITS in *; lia).
    assert (rest = []) as -> by (apply nil_length_inv; lia).
    rewrite decide_True by lia. rewrite decide_True by lia. cbn [fmap list_fmap].
    exists (replicate 19 [] ++ c :: [[]]), 19%nat. rewrite E20.
    change (MAX_LIST_LENGTH_BITS - 1)%nat with 19%nat. split.
    + reflexivity.
    + split; [done|unfold MAX_LIST_LENGTH_BITS; lia|done|].
      rewrite held_app, held_cons, held_empty, app_nil_r. exact Hheld.
  - set (m' := if decide (m < k)%nat then k else m).
    assert (Em : (if decide (m < k)%nat then
        (if decide (MAX_LIST_LENGTH_BITS <= k)%nat then (k - 1)%nat else k,
         if decide (MAX_LIST_LENGTH_BITS <= k)%nat then (k - 1)%nat else k)
      else (k, m)) = (k, m')).
    { unfold m'. case_decide; [|done]. by rewrite decide_False by lia. }
    rewrite Em. exists (replicate k [] ++ c :: rest), m'. split.
    + rewrite <- list_fmap_insert. by rewrite insert_at by apply length_replicate.
    + split.
      * rewrite length_app, length_replicate. cbn [length]. lia.
      * unfold m'. case_decide; lia.
      * rewrite drop_app, length_replicate, drop_ge by (rewrite length_replicate; unfold m'; case_decide; lia).
        cbn [app]. unfold m'. case_decide as Hmk.
        -- assert (k = Datatypes.S m) as -> by lia. replace (Datatypes.S (Datatypes.S m) - Datatypes.S m)%nat with 1%nat by lia.
           cbn [drop]. unfold rest. replace (Datatypes.S (Datatypes.S m)) with (Datatypes.S m + 1)%nat by lia.
           rewrite <- drop_drop, Ha, drop_replicate. rewrite drop_0. f_equal. lia.
        -- replace (Datatypes.S m - k)%nat with (Datatypes.S (m - k)) by lia. cbn [drop].
           unfold rest. rewrite drop_drop. rewrite <- Ha. f_equal. lia.
      * rewrite held_app, held_cons, held_empty, app_nil_r. done.
Qed.

Lemma adds_spec l : forall done segs m,
  slots done segs m -> exists segs' m', adds (isort <$> segs) m l = Some (isort <$> segs', m') /\
    slots (done ++ l) segs' m'.
Proof.
  induction l as [|x l IH]; intros dn segs m S; cbn [adds].
  - exists segs, m. rewrite app_nil_r. done.
  - destruct (add_spec dn segs m x S) as (segs1 & m1 & -> & S1). cbn [mbind option_bind].
    destruct (IH (dn ++ [x]) segs1 m1 S1) as (segs2 & m2 & E & S2). exists segs2, m2.
    split; [done|]. by rewrite <- app_assoc in S2.
Qed.

Lemma collect_spec n : forall segs c,
  collect n (isort <$> segs) (isort c) = isort (held (take n segs) ++ c).
Proof.
  induction n as [|n IH]; intros segs c; cbn [collect take]; [done|].
  destruct segs as [|g segs]; [done|]. cbn [fmap list_fmap].
  replace (match isort g with [] => isort c | _ => merge (isort g) (isort c) end) with (isort (g ++ c)).
  - rewrite IH. cbn [take]. by rewrite held_cons, <- app_assoc.
  - rewrite <- merge_isort. destruct (isort g); [by rewrite merge_nil_l|done].
Qed.

(** The sort is the reference sort. *)
Lemma flist_sort_isort l : flist_sort l = Some (isort l).
Proof.
  destruct l as [|x l]; [done|]. unfold flist_sort.
  assert (S0 : slots [] (replicate (S MAX_LIST_LENGTH_BITS) []) 0)
    by (split; [done|unfold MAX_LIST_LENGTH_BITS; lia|done|apply held_empty]).
  destruct (adds_spec (x :: l) [] _ 0 S0) as (segs & m & E & S). cbn [app] in S.
  change (isort <$> replicate (Datatypes.S MAX_LIST_LENGTH_BITS) []) with (replicate (Datatypes.S MAX_LIST_LENGTH_BITS) ([] : list A)) in E.
  rewrite E. cbn [mbind option_bind]. pose proof S as [Hl Hm Ha Hh].
  destruct (lookup_lt_is_Some_2 segs m) as [g Hg]; [lia|].
  rewrite list_lookup_fmap, Hg. cbn [fmap option_fmap option_map mbind option_bind]. f_equal.
  change [] with (isort []) at 1. rewrite collect_spec, merge_isort, app_nil_r. f_equal.
  rewrite <- Hh. rewrite <- (take_drop_middle segs m g Hg) at 2. rewrite held_app, held_cons, Ha, held_empty. done.
Qed.

(** ** What the reference sort does *)

Lemma insert_perm x l : insert x l ≡ₚ x :: l.
Proof.
  induction l as [|y l IH]; cbn [insert]; [done|]. case_decide; [done|]. rewrite IH. constructor.
Qed.

Lemma isort_perm l : isort l ≡ₚ l.
Proof. induction l as [|x l IH]; cbn [isort]; [done|]. by rewrite insert_perm, IH. Qed.

(** Elements equivalent to [a] keep their order. *)
Definition equiv_to (a x : A) : Prop := cmp a x <= 0 /\ cmp x a <= 0.

#[export] Instance equiv_to_dec a x : Decision (equiv_to a x).
Proof. unfold equiv_to. apply _. Defined.

Lemma insert_stable a x l :
  sorted l -> filter (equiv_to a) (insert x l) = filter (equiv_to a) (x :: l).
Proof.
  induction 1 as [|y l Hy Hl IH]; cbn [insert]; [done|]. case_decide as E; [done|].
  rewrite filter_cons, IH, !filter_cons. destruct (decide (equiv_to a x)) as [[Hx1 Hx2]|]; [|done].
  destruct (decide (equiv_to a y)) as [[Hy1 Hy2]|]; [|done].
  destruct E. by eapply cmp_trans.
Qed.

Lemma isort_stable a l :
  filter (equiv_to a) (isort l) = filter (equiv_to a) l.
Proof.
  induction l as [|x l IH]; cbn [isort]; [done|]. rewrite insert_stable by apply isort_sorted.
  rewrite !filter_cons, IH. done.
Qed.

(** C29: [flist_sort] ends without running past its 21 slots for a list of any length,
    and gives the elements in increasing order, all of them, equivalent ones in
    their original order. *)
Theorem flist_sort_stable l :
  exists l', flist_sort l = Some l' /\ sorted l' /\ l' ≡ₚ l /\
    forall a, filter (equiv_to a) l' = filter (equiv_to a) l.
Proof.
  exists (isort l). split; [apply flist_sort_isort|]. split; [apply isort_sorted|].
  split; [apply isort_perm|]. intros a. apply isort_stable.
Qed.
End sort.

(** Records compared by their first component. *)
#[export] Instance fst_comparison : Comparison (fun a b : Z * Z => a.1 - b.1).
Proof. split; intros; lia. Qed.

Lemma flist_sort_stable_witness :
  exists l', flist_sort (fun a b : Z * Z => a.1 - b.1) [(3, 1); (1, 2); (3, 0); (2, 5); (1, 1)] = Some l' /\
    sorted (fun a b => a.1 - b.1) l' /\ l' ≡ₚ [(3, 1); (1, 2); (3, 0); (2, 5); (1, 1)] /\
    forall a, filter (equiv_to (fun a b => a.1 - b.1) a) l' =
              filter (equiv_to (fun a b => a.1 - b.1) a) [(3, 1); (1, 2); (3, 0); (2, 5); (1, 1)].
Proof. apply (flist_sort_stable (fun a b : Z * Z => a.1 - b.1)). Defined.

(** Without the order laws the sort still ends; an example of the order it gives. *)
Example flist_sort_runs :
  flist_sort (fun a b : Z * Z => a.1 - b.1) [(3, 1); (1, 2); (3, 0); (2, 5); (1, 1)]
  = Some [(1, 2); (1, 1); (2, 5); (3, 1); (3, 0)].
Proof. reflexivity. Qed.
