(* ===== verification/CrcProofs.v ===== *)
(** * The tables divide by the polynomials

    Every byte step of the table-driven routines is eight steps of the register
    that divides by the polynomial; a change of one byte is always seen. *)

From S2P Require Import Prelude Bits Gf2 Crc.

Open Scope Z_scope.

(** ** Tables *)

Definition table_ok (t : list Z) (g : Z -> Z) : bool :=
  forallb (fun i => tab t i =? g i) (seqZ 0 256).

Lemma table_ok_spec t g i : table_ok t g = true -> 0 <= i < 256 -> tab t i = g i.
Proof.
  intros H Hi. unfold table_ok in H. rewrite forallb_forall in H. apply Z.eqb_eq, H.
  apply list_elem_of_In, elem_of_seqZ. lia.
Qed.

(** Eight steps, towards the low end and towards the high end. *)
Definition refl8 (m c : Z) : Z := Nat.iter 8 (gstep m) c.
Definition msb8 (w m c : Z) : Z := Nat.iter 8 (mstep w m) c.

Lemma crc7_table : table_ok crc7_syndrome_table (fun i => Z.shiftr (msb8 8 0x12 i) 1) = true.
Proof. vm_compute. reflexivity. Qed.
Lemma crc16_table_ok : table_ok crc16_table (refl8 0xa001) = true.
Proof. vm_compute. reflexivity. Qed.
Lemma crctab_ok : table_ok crctab (fun i => msb8 32 0x04c11db7 (Z.shiftl i 24)) = true.
Proof. vm_compute. reflexivity. Qed.
Lemma crctab64_ok : table_ok crctab64 (refl8 0x95ac9329ac4bc9b5) = true.
Proof. vm_compute. reflexivity. Qed.
Lemma crc32c_table_ok : table_ok crc32c_table (refl8 0x82f63b78) = true.
Proof. vm_compute. reflexivity. Qed.

(** ** One byte *)

Lemma low_byte x : Z.land x 0xff = x mod 256.
Proof. change 0xff with (Z.ones 8). by rewrite Z.land_ones. Qed.

Lemma split_byte x : 0 <= x -> x = Z.lxor (x mod 256) (Z.shiftl (Z.shiftr x 8) 8).
Proof.
  intros Hx. rewrite <- low_byte. change 0xff with (Z.ones 8). apply Z.bits_inj'. intros i Hi.
  rewrite Z.lxor_spec, Z.land_spec, testbit_ones, Z.shiftl_spec by lia. destruct (decide (i < 8)).
  - rewrite bool_decide_true, (Z.testbit_neg_r _ (i - 8)) by lia. by rewrite andb_true_r, xorb_false_r.
  - rewrite bool_decide_false, Z.shiftr_spec by lia. rewrite andb_false_r, xorb_false_l. f_equal. lia.
Qed.

(** The byte that is added does not reach the upper part. *)
Lemma shiftr_byte c b : byte_ok b -> Z.shiftr (Z.lxor c b) 8 = Z.shiftr c 8.
Proof.
  intros Hb. rewrite Z.shiftr_lxor. rewrite (Z.shiftr_div_pow2 b) by lia.
  rewrite (Z.div_small b) by (unfold byte_ok in Hb; lia). apply Z.lxor_0_r.
Qed.

Lemma refl_byte t m c b :
  table_ok t (refl8 m) = true -> 0 <= c -> byte_ok b ->
  Z.lxor (tab t (Z.land (Z.lxor c b) 0xff)) (Z.shiftr c 8) = refl8 m (Z.lxor c b).
Proof.
  intros Ht Hc Hb. assert (Hx : 0 <= Z.lxor c b) by (apply Z.lxor_nonneg; unfold byte_ok in Hb; lia).
  rewrite low_byte. rewrite (table_ok_spec _ _ _ Ht) by (apply Z.mod_pos_bound; lia).
  rewrite (split_byte (Z.lxor c b) Hx) at 2. unfold refl8.
  rewrite (linear_iter (gstep m) 8 (gstep_linear m)). f_equal.
  rewrite <- (shiftr_byte c b Hb). symmetry. apply (gstep_shift m 8). by apply Z.shiftr_nonneg.
Qed.

Lemma msb_byte c b :
  0 <= c < 2 ^ 32 -> byte_ok b ->
  crc32_byte c b = msb8 32 0x04c11db7 (Z.lxor c (Z.shiftl b 24)).
Proof.
  intros Hc Hb. unfold crc32_byte. unfold byte_ok in Hb. rewrite low_byte.
  assert (Hhi : 0 <= Z.shiftr c 24 < 256) by (rewrite Z.shiftr_div_pow2 by lia; dlia).
  assert (Hx : 0 <= Z.lxor (Z.shiftr c 24) b < 2 ^ 8) by (apply lxor_bound; lia).
  rewrite Z.mod_small by lia. rewrite (table_ok_spec _ _ _ crctab_ok) by lia.
  assert (E : Z.lxor c (Z.shiftl b 24) = Z.lxor (c mod 2 ^ 24) (Z.shiftl (Z.lxor (Z.shiftr c 24) b) 24)).
  { apply Z.bits_inj'. intros i Hi. rewrite !Z.lxor_spec, !Z.shiftl_spec, Z.lxor_spec by lia.
    rewrite <- Z.land_ones, Z.land_spec, testbit_ones by lia. destruct (decide (i < 24)).
    - rewrite bool_decide_true, !(Z.testbit_neg_r _ (i - 24)) by lia. by rewrite andb_true_r.
    - rewrite bool_decide_false, Z.shiftr_spec by lia. rewrite andb_false_r, xorb_false_l.
      f_equal. f_equal. lia. }
  rewrite E. unfold msb8. rewrite (linear_iter (mstep 32 _) 8 (mstep_linear 32 _ ltac:(lia))). f_equal.
  rewrite (mstep_shift 32 _ 8) by (try apply Z.mod_pos_bound; lia || apply Z.mod_pos_bound; lia).
  unfold wrapu. rewrite !Z.shiftl_mul_pow2 by lia. change (Z.of_nat 8) with 8.
  change (2 ^ 32) with (2 ^ 24 * 2 ^ 8). rewrite Z.mul_mod_distr_r by lia. done.
Qed.

(** ** Whole buffers *)

Lemma foldl_inv_ext (I : Z -> Prop) (f g : Z -> Z -> Z) l : forall c,
  I c -> Forall byte_ok l -> (forall c b, I c -> byte_ok b -> f c b = g c b /\ I (g c b)) ->
  foldl f c l = foldl g c l.
Proof.
  induction l as [|b l IH]; intros c Hc Hl H; [done|]. inversion_clear Hl as [|? ? Hb Hl'].
  cbn [foldl]. destruct (H c b Hc Hb) as [E Hi]. rewrite E. by apply IH.
Qed.

(** A code of [w] bits whose byte step feeds [inj b] into [F]. *)
Record code (w : Z) (F : Z -> Z) (feed : Z -> Z) : Prop := {
  code_width : 0 <= w;
  code_range : forall c, 0 <= c < 2 ^ w -> 0 <= F c < 2 ^ w;
  code_inj : forall a b, 0 <= a < 2 ^ w -> 0 <= b < 2 ^ w -> F a = F b -> a = b;
  code_feed : forall b, byte_ok b -> 0 <= feed b < 2 ^ w;
  code_feed_inj : forall a b, byte_ok a -> byte_ok b -> feed a = feed b -> a = b
}.

Definition code_byte (F feed : Z -> Z) (c b : Z) : Z := F (Z.lxor c (feed b)).

Lemma code_byte_range w F feed c b :
  code w F feed -> 0 <= c < 2 ^ w -> byte_ok b -> 0 <= code_byte F feed c b < 2 ^ w.
Proof.
  intros K Hc Hb. apply (code_range w F feed K), lxor_bound; [apply (code_width w F feed K)|done|].
  by apply (code_feed w F feed K).
Qed.

Lemma lxor_cancel_r a b c : Z.lxor a c = Z.lxor b c -> a = b.
Proof.
  intros E. rewrite <- (Z.lxor_0_r a), <- (Z.lxor_0_r b), <- (Z.lxor_nilpotent c).
  by rewrite <- !Z.lxor_assoc, E.
Qed.

(** Different states stay different, and one different byte makes them so. *)
Lemma code_fold_inj w F feed l : code w F feed -> Forall byte_ok l -> forall a b,
  0 <= a < 2 ^ w -> 0 <= b < 2 ^ w ->
  foldl (code_byte F feed) a l = foldl (code_byte F feed) b l -> a = b.
Proof.
  intros K Hl. induction Hl as [|x l Hx Hl IH]; intros a b Ha Hb E; [done|]. cbn [foldl] in E.
  apply IH in E; [|by apply (code_byte_range w)..]. unfold code_byte in E.
  pose proof (code_width w F feed K) as Hw. pose proof (code_feed w F feed K x Hx) as Hf.
  apply (code_inj w F feed K) in E; [|by apply lxor_bound..]. by apply lxor_cancel_r in E.
Qed.

Lemma code_fold_range w F feed l : code w F feed -> Forall byte_ok l -> forall a,
  0 <= a < 2 ^ w -> 0 <= foldl (code_byte F feed) a l < 2 ^ w.
Proof.
  intros K Hl. induction Hl as [|x l Hx Hl IH]; intros a Ha; [done|]. cbn [foldl].
  apply IH. by apply code_byte_range.
Qed.

Lemma code_detects w F feed init pre x y post :
  code w F feed -> 0 <= init < 2 ^ w -> Forall byte_ok pre -> Forall byte_ok post ->
  byte_ok x -> byte_ok y ->
  foldl (code_byte F feed) init (pre ++ x :: post) = foldl (code_byte F feed) init (pre ++ y :: post) -> x = y.
Proof.
  intros K Hi Hpre Hpost Hx Hy. rewrite !foldl_app. cbn [foldl].
  pose proof (code_fold_range w F feed pre K Hpre init Hi) as Hc.
  generalize dependent (foldl (code_byte F feed) init pre). intros c Hc E.
  apply (code_fold_inj w F feed post K Hpost) in E; [|by apply code_byte_range..]. unfold code_byte in E.
  pose proof (code_width w F feed K) as Hw.
  pose proof (code_feed w F feed K x Hx). pose proof (code_feed w F feed K y Hy).
  apply (code_inj w F feed K) in E; [|by apply lxor_bound..].
  rewrite !(Z.lxor_comm c) in E. apply lxor_cancel_r in E. by apply (code_feed_inj w F feed K).
Qed.

(** ** The codes of the source *)

Lemma refl_code w m :
  8 <= w -> 0 <= m < 2 ^ w -> Z.testbit m (w - 1) = true -> code w (refl8 m) (fun b => b).
Proof.
  intros Hw Hm Ht. pose proof (gstep_bounded m (Z.to_nat w)) as Hb. rewrite Z2Nat.id in Hb by lia.
  destruct (iter_inj (fun c => 0 <= c < 2 ^ w) (gstep m) 8) as [Hr Hi].
  - intros a Ha. pose proof (Hb Hm a) as H. rewrite Z2Nat.id in H by lia. by apply H.
  - intros a b Ha Hb'. apply (gstep_injective w); (done || lia).
  - assert (256 <= 2 ^ w) by (change 256 with (2 ^ 8); apply Z.pow_le_mono_r; lia).
    split; [lia|done|done| |done]. intros b Hb'. unfold byte_ok in Hb'. lia.
Qed.

Lemma crc32_code : code 32 (msb8 32 0x04c11db7) (fun b => Z.shiftl b 24).
Proof.
  destruct (iter_inj (fun c => 0 <= c < 2 ^ 32) (mstep 32 0x04c11db7) 8) as [Hr Hi].
  - intros a Ha. apply mstep_bounded; lia.
  - intros a b Ha Hb. by apply (mstep_injective 32).
  - split; [lia|done|done| |].
    + intros b Hb. unfold byte_ok in Hb. rewrite Z.shiftl_mul_pow2 by lia. lia.
    + intros a b _ _ E. rewrite !Z.shiftl_mul_pow2 in E by lia. lia.
Qed.

Lemma crc16_code : code 16 (refl8 0xa001) (fun b => b).
Proof. apply refl_code; (done || lia). Qed.
Lemma crc64_code : code 64 (refl8 0x95ac9329ac4bc9b5) (fun b => b).
Proof. apply refl_code; (done || lia). Qed.
Lemma crc32c_code : code 32 (refl8 0x82f63b78) (fun b => b).
Proof. apply refl_code; (done || lia). Qed.

Lemma crc16_eq l : Forall byte_ok l -> fio_crc16 l = foldl (code_byte (refl8 0xa001) (fun b => b)) 0 l.
Proof.
  intros Hl. apply (foldl_inv_ext (fun c => 0 <= c < 2 ^ 16)); [lia|done|]. intros c b Hc Hb. split.
  - unfold crc16_byte. rewrite Z.lxor_comm. apply refl_byte; [apply crc16_table_ok|lia|done].
  - by apply (code_byte_range 16 _ _ _ _ crc16_code).
Qed.

Lemma crc64_eq l : Forall byte_ok l -> fio_crc64 l = foldl (code_byte (refl8 0x95ac9329ac4bc9b5) (fun b => b)) 0 l.
Proof.
  intros Hl. apply (foldl_inv_ext (fun c => 0 <= c < 2 ^ 64)); [lia|done|]. intros c b Hc Hb. split.
  - apply refl_byte; [apply crctab64_ok|lia|done].
  - by apply (code_byte_range 64 _ _ _ _ crc64_code).
Qed.

Lemma crc32c_eq l : Forall byte_ok l -> crc32c_sw l = foldl (code_byte (refl8 0x82f63b78) (fun b => b)) (2 ^ 32 - 1) l.
Proof.
  intros Hl. apply (foldl_inv_ext (fun c => 0 <= c < 2 ^ 32)); [lia|done|]. intros c b Hc Hb. split.
  - apply refl_byte; [apply crc32c_table_ok|lia|done].
  - by apply (code_byte_range 32 _ _ _ _ crc32c_code).
Qed.

Lemma crc32_eq l : Forall byte_ok l -> fio_crc32 l = foldl (code_byte (msb8 32 0x04c11db7) (fun b => Z.shiftl b 24)) 0 l.
Proof.
  intros Hl. apply (foldl_inv_ext (fun c => 0 <= c < 2 ^ 32)); [lia|done|]. intros c b Hc Hb. split.
  - by apply msb_byte.
  - by apply (code_byte_range 32 _ _ _ _ crc32_code).
Qed.

(** CRC-7 keeps its seven bits in the upper part of a byte. *)
Lemma crc7_eq l : Forall byte_ok l ->
  fio_crc7 l = foldl (fun c b => Z.shiftr (msb8 8 0x12 (Z.lxor (Z.shiftl c 1) b)) 1) 0 l.
Proof.
  intros Hl. apply (foldl_inv_ext (fun c => 0 <= c < 2 ^ 7)); [lia|done|]. intros c b Hc Hb.
  assert (Hx : 0 <= Z.lxor (Z.shiftl c 1) b < 2 ^ 8).
  { apply lxor_bound; [lia| |unfold byte_ok in Hb; lia]. rewrite Z.shiftl_mul_pow2 by lia. lia. }
  split; [apply (table_ok_spec _ _ _ crc7_table); lia|].
  assert (Hm : 0 <= msb8 8 0x12 (Z.lxor (Z.shiftl c 1) b) < 2 ^ 8).
  { unfold msb8. simpl. apply mstep_bounded; lia. }
  rewrite Z.shiftr_div_pow2 by lia. dlia.
Qed.

(** C28: The five table-driven codes equal the bit-by-bit division by their
    polynomials: [x^7 + x^3 + 1], 0x8005 and 0x1edc6f41 reflected, 0x04c11db7, and
    0x95ac9329ac4bc9b5 as it stands in reflected form. *)
Theorem crc_tables_divide buffer :
  Forall byte_ok buffer ->
  fio_crc7 buffer = foldl (fun c b => Z.shiftr (msb8 8 0x12 (Z.lxor (Z.shiftl c 1) b)) 1) 0 buffer /\
  fio_crc16 buffer = foldl (code_byte (refl8 0xa001) (fun b => b)) 0 buffer /\
  fio_crc32 buffer = foldl (code_byte (msb8 32 0x04c11db7) (fun b => Z.shiftl b 24)) 0 buffer /\
  fio_crc64 buffer = foldl (code_byte (refl8 0x95ac9329ac4bc9b5) (fun b => b)) 0 buffer /\
  crc32c_sw buffer = foldl (code_byte (refl8 0x82f63b78) (fun b => b)) (2 ^ 32 - 1) buffer.
Proof.
  intros H. split; [by apply crc7_eq|]. split; [by apply crc16_eq|]. split; [by apply crc32_eq|].
  split; [by apply crc64_eq|by apply crc32c_eq].
Qed.

Lemma crc_tables_divide_witness :
  fio_crc7 [1; 200; 33] = foldl (fun c b => Z.shiftr (msb8 8 0x12 (Z.lxor (Z.shiftl c 1) b)) 1) 0 [1; 200; 33] /\
  fio_crc16 [1; 200; 33] = foldl (code_byte (refl8 0xa001) (fun b => b)) 0 [1; 200; 33] /\
  fio_crc32 [1; 200; 33] = foldl (code_byte (msb8 32 0x04c11db7) (fun b => Z.shiftl b 24)) 0 [1; 200; 33] /\
  fio_crc64 [1; 200; 33] = foldl (code_byte (refl8 0x95ac9329ac4bc9b5) (fun b => b)) 0 [1; 200; 33] /\
  crc32c_sw [1; 200; 33] = foldl (code_byte (refl8 0x82f63b78) (fun b => b)) (2 ^ 32 - 1) [1; 200; 33].
Proof. apply (crc_tables_divide [1; 200; 33]). repeat constructor; discriminate. Defined.

(** A code that tells the two buffers apart. *)
Definition tells_apart (crc : list Z -> Z) (a b : list Z) : Prop := crc a <> crc b.

(** The 16, 32 and 64-bit codes see every change of a single byte, anywhere in a
    buffer of any length. *)
Theorem crc_detects_byte pre x y post :
  Forall byte_ok pre -> Forall byte_ok post -> byte_ok x -> byte_ok y -> x <> y ->
  Forall (fun crc => tells_apart crc (pre ++ x :: post) (pre ++ y :: post))
    [fio_crc16; fio_crc32; fio_crc64; crc32c_sw].
Proof.
  intros Hpre Hpost Hx Hy Hne. rewrite !Forall_cons, Forall_nil. unfold tells_apart.
  assert (H : forall z, byte_ok z -> Forall byte_ok (pre ++ z :: post))
    by (intros z Hz; apply Forall_app; split; [done|by constructor]).
  rewrite !crc16_eq, !crc32_eq, !crc64_eq, !crc32c_eq by auto.
  split_and!; try done; intros E; apply Hne; revert E.
  - apply (code_detects 16); [apply crc16_code|lia|done..].
  - apply (code_detects 32); [apply crc32_code|lia|done..].
  - apply (code_detects 64); [apply crc64_code|lia|done..].
  - apply (code_detects 32); [apply crc32c_code|lia|done..].
Qed.

Lemma crc_detects_byte_witness :
  Forall (fun crc => tells_apart crc ([7] ++ 1 :: [9; 9]) ([7] ++ 2 :: [9; 9]))
    [fio_crc16; fio_crc32; fio_crc64; crc32c_sw].
Proof. apply (crc_detects_byte [7] 1 2 [9; 9]); repeat constructor; discriminate. Defined.

(** CRC-7 does not: the byte 0x89, the polynomial itself, counts as no byte. *)
Lemma crc7_misses : fio_crc7 [0x89] = fio_crc7 [0].
Proof. reflexivity. Qed.
