(* ===== verification/Stream.v ===== *)
(** * Hashing in blocks

    What the digests of src/fio/crc share: words read from bytes, copies into a
    buffer, and a state that is fed a message block by block.  [eat] is the loop
    over the whole blocks of a message, the remainder is left over; the lemmas
    say that a message may be fed in pieces. *)

From S2P Require Import Prelude.

Open Scope Z_scope.

(** ** Words and bytes *)

(** Little-endian and big-endian words. *)
Definition le_word (bs : list Z) : Z := foldr (fun b acc => b + 256 * acc) 0 bs.
Definition be_word (bs : list Z) : Z := le_word (rev bs).

(** The [k] little-endian bytes of a word. *)
Fixpoint word_bytes (k : nat) (v : Z) : list Z :=
  match k with O => [] | S k' => v mod 256 :: word_bytes k' (v / 256) end.

(** Entry [i] of a buffer read as an array of [k]-byte words. *)
Definition word_at (k i : nat) (buf : list Z) : Z := le_word (take k (drop (k * i) buf)).
Definition be_word_at (k i : nat) (buf : list Z) : Z := be_word (take k (drop (k * i) buf)).

(** [memcpy(buf + p, data, length data)]. *)
Definition put (buf : list Z) (p : nat) (data : list Z) : list Z :=
  take p buf ++ data ++ drop (p + length data) buf.

Definition rol (w x k : Z) : Z := Z.lor (wrapu w (Z.shiftl x k)) (Z.shiftr x (w - k)).
Definition ror (w x k : Z) : Z := Z.lor (Z.shiftr x k) (wrapu w (Z.shiftl x (w - k))).

Definition at0 (l : list Z) (i : nat) : Z := nth i l 0.

Lemma nth_replicate0 n i : nth i (replicate n 0) 0 = 0.
Proof. revert i. induction n; intros [|i]; simpl; auto. Qed.

Lemma length_word_bytes k : forall v, length (word_bytes k v) = k.
Proof. induction k; intros v; simpl; auto. Qed.
#[export] Hint Rewrite length_word_bytes : len.

Lemma word_bytes_byte k : forall v, Forall byte_ok (word_bytes k v).
Proof.
  induction k as [|k IH]; intros v; simpl; constructor; [|apply IH].
  unfold byte_ok. pose proof (Z.mod_pos_bound v 256). lia.
Qed.

Lemma le_word_bytes k : forall v, 0 <= v < 256 ^ Z.of_nat k -> le_word (word_bytes k v) = v.
Proof.
  induction k as [|k IH]; intros v Hv; [simpl in *; lia|].
  cbn [word_bytes le_word foldr]. fold (le_word (word_bytes k (v / 256))). rewrite IH.
  - pose proof (Z.div_mod v 256). lia.
  - rewrite Nat2Z.inj_succ, Z.pow_succ_r in Hv by lia. split; [apply Z.div_pos; lia|].
    apply Z.div_lt_upper_bound; lia.
Qed.

Lemma le_word_range bs : Forall byte_ok bs -> 0 <= le_word bs < 256 ^ Z.of_nat (length bs).
Proof.
  induction bs as [|b bs IH]; intros H; [cbn; lia|]. inversion_clear H as [|? ? Hb Hbs].
  specialize (IH Hbs). cbn [le_word foldr length]. fold (le_word bs).
  rewrite Nat2Z.inj_succ, Z.pow_succ_r by lia. unfold byte_ok in Hb. nia.
Qed.

Lemma word_bytes_le bs : Forall byte_ok bs -> word_bytes (length bs) (le_word bs) = bs.
Proof.
  induction bs as [|b bs IH]; intros H; [done|]. inversion_clear H as [|? ? Hb Hbs].
  cbn [le_word foldr length word_bytes]. fold (le_word bs). unfold byte_ok in Hb. f_equal.
  - rewrite Z.mul_comm, Z.mod_add, Z.mod_small; lia.
  - rewrite Z.mul_comm, Z.div_add, Z.div_small by lia. auto.
Qed.

Lemma length_put buf p data :
  (p + length data <= length buf)%nat -> length (put buf p data) = length buf.
Proof. intros H. unfold put. rewrite !length_app, length_take, length_drop. lia. Qed.

Lemma take_put buf p data :
  (p <= length buf)%nat -> take (p + length data) (put buf p data) = take p buf ++ data.
Proof.
  intros H. unfold put. rewrite app_assoc. apply take_app_length'.
  rewrite length_app, length_take. lia.
Qed.

Lemma put_full buf p data :
  (p + length data = length buf)%nat -> put buf p data = take p buf ++ data.
Proof. intros H. unfold put. rewrite H, drop_all. by rewrite app_nil_r. Qed.

Lemma put_nil buf p : put buf p [] = buf.
Proof. unfold put. cbn [length app]. rewrite Nat.add_0_r. apply take_drop. Qed.

(** ** Blocks *)

Section eat.
Context {H : Type} (B : nat) (T : H -> list Z -> H).

Fixpoint eat_ (fuel : nat) (h : H) (l : list Z) : H * list Z :=
  match fuel with
  | O => (h, l)
  | S fuel' => if decide (B <= length l)%nat then eat_ fuel' (T h (take B l)) (drop B l) else (h, l)
  end.

(** [while (len >= B) { T(h, data); data += B; len -= B; }] *)
Definition eat (h : H) (l : list Z) : H * list Z := eat_ (length l) h l.

Context (HB : (0 < B)%nat).

Lemma eat_fuel n : forall m h l, (length l <= n)%nat -> (length l <= m)%nat -> eat_ n h l = eat_ m h l.
Proof.
  induction n as [|n IH]; intros m h l Hn Hm.
  - destruct m; [done|]. cbn [eat_]. rewrite decide_False by lia. done.
  - destruct m as [|m]; [cbn [eat_]; by rewrite decide_False by lia|]. cbn [eat_].
    case_decide; [|done]. apply IH; rewrite length_drop; lia.
Qed.

Lemma eat_step h l : (B <= length l)%nat -> eat h l = eat (T h (take B l)) (drop B l).
Proof.
  intros Hl. unfold eat. destruct (length l) as [|n] eqn:E; [lia|]. cbn [eat_].
  rewrite decide_True by lia. apply eat_fuel; rewrite length_drop; lia.
Qed.

Lemma eat_short h l : (length l < B)%nat -> eat h l = (h, l).
Proof. intros Hl. unfold eat. destruct (length l) eqn:E; [done|]. cbn [eat_]. by rewrite decide_False by lia. Qed.

(** Induction over the blocks of a message. *)
Lemma blocks_ind (P : list Z -> Prop) :
  (forall l, (length l < B)%nat -> P l) ->
  (forall l, (B <= length l)%nat -> P (drop B l) -> P l) -> forall l, P l.
Proof.
  intros Hs Hl l. remember (length l) as n eqn:E. revert l E.
  induction n as [n IH] using lt_wf_ind. intros l ->.
  destruct (decide (B <= length l)%nat); [apply Hl; [done|]|apply Hs; lia].
  eapply IH; [|reflexivity]. rewrite length_drop. lia.
Qed.

(** A message may be fed in two pieces: what the first leaves over comes before the
    second. *)
Lemma eat_app a : forall h b, eat h (a ++ b) = eat (eat h a).1 ((eat h a).2 ++ b).
Proof.
  induction a as [a Hs|a Hl IH] using blocks_ind; intros h b.
  - by rewrite (eat_short h a).
  - rewrite (eat_step h a), (eat_step h (a ++ b)) by (rewrite ?length_app; lia).
    rewrite take_app_le, drop_app_le by lia. apply IH.
Qed.

Lemma eat_rest_short h l : (length (eat h l).2 < B)%nat.
Proof.
  revert h. induction l as [l Hs|l Hl IH] using blocks_ind; intros h; [by rewrite eat_short|].
  rewrite eat_step by done. apply IH.
Qed.

Lemma eat_rest_length h l : length (eat h l).2 = (length l mod B)%nat.
Proof.
  revert h. induction l as [l Hs|l Hl IH] using blocks_ind; intros h.
  - rewrite eat_short by done. by rewrite Nat.mod_small.
  - rewrite eat_step, IH, length_drop by done.
    replace (length l) with ((length l - B) + 1 * B)%nat at 2 by lia.
    by rewrite Nat.Div0.mod_add.
Qed.

(** What is left over are the last bytes. *)
Lemma eat_rest h l : (eat h l).2 = drop (B * (length l / B)) l.
Proof.
  revert h. induction l as [l Hs|l Hl IH] using blocks_ind; intros h.
  - rewrite eat_short, Nat.div_small, Nat.mul_0_r by done. done.
  - rewrite eat_step, IH, length_drop, drop_drop by done. f_equal.
    replace (length l) with ((length l - B) + 1 * B)%nat at 2 by lia.
    rewrite Nat.div_add by lia. lia.
Qed.

(** More data on top of a buffered remainder. *)
Lemma eat_feed h r d :
  (length r < B)%nat ->
  eat h (r ++ d) =
    if decide (B <= length r + length d)%nat
    then eat (T h (r ++ take (B - length r) d)) (drop (B - length r) d)
    else (h, r ++ d).
Proof.
  intros Hr. case_decide as Hd.
  - rewrite eat_step by (rewrite length_app; lia).
    rewrite take_app_ge, drop_app_ge by lia. done.
  - apply eat_short. rewrite length_app. lia.
Qed.

(** What every block preserves. *)
Lemma eat_inv (P : H -> Prop) l : forall h,
  (forall h d, length d = B -> P h -> P (T h d)) -> P h -> P (eat h l).1.
Proof.
  induction l as [l Hs|l Hl IH] using blocks_ind; intros h HT Hh; [by rewrite eat_short|].
  rewrite eat_step by done. apply IH; [done|]. apply HT; [|done]. rewrite length_take. lia.
Qed.

(** A message of whole blocks leaves nothing over. *)
Lemma eat_whole h l : (length l mod B = 0)%nat -> (eat h l).2 = [].
Proof. intros E. apply length_zero_iff_nil. by rewrite eat_rest_length. Qed.

(** A context with state [h] and buffer [buf] has been fed the message [m]. *)
Definition fed (h0 : H) (m : list Z) (h : H) (buf : list Z) : Prop :=
  (B <= length buf)%nat /\ eat h0 m = (h, take (length m mod B) buf).

Lemma fed_nil h0 buf : (B <= length buf)%nat -> fed h0 [] h0 buf.
Proof. intros Hb. split; [done|]. rewrite eat_short by done. by rewrite Nat.Div0.mod_0_l. Qed.

Lemma mod_add_lt k n d : (k = n mod B -> k + d < B -> (n + d) mod B = k + d)%nat.
Proof.
  intros -> Hd. rewrite <- Nat.Div0.add_mod_idemp_l. by apply Nat.mod_small.
Qed.

Lemma fed_short h0 m h buf d :
  fed h0 m h buf -> (length m mod B + length d < B)%nat ->
  fed h0 (m ++ d) h (put buf (length m mod B) d).
Proof.
  intros [Hb E] Hd. set (k := (length m mod B)%nat) in *.
  split; [rewrite length_put; lia|]. rewrite eat_app, E. cbn [fst snd].
  rewrite eat_short by (rewrite length_app, length_take; lia).
  rewrite length_app, (mod_add_lt k) by done. by rewrite take_put by lia.
Qed.

Lemma fed_long h0 m h buf d buf' h' r :
  fed h0 m h buf -> (B <= length m mod B + length d)%nat -> (B <= length buf')%nat ->
  eat (T h (take (length m mod B) buf ++ take (B - length m mod B) d))
      (drop (B - length m mod B) d) = (h', r) ->
  fed h0 (m ++ d) h' (put buf' 0 r).
Proof.
  intros [Hb E] Hd Hb' Er. set (k := (length m mod B)%nat) in *.
  assert (Hk : (k < B)%nat) by (apply Nat.mod_upper_bound; lia).
  assert (Em : eat h0 (m ++ d) = (h', r)).
  { rewrite eat_app, E. cbn [fst snd]. rewrite eat_feed by (rewrite length_take; lia).
    rewrite length_take, Nat.min_l by lia. by rewrite decide_True by lia. }
  assert (Hr : length r = (length (m ++ d) mod B)%nat)
    by (rewrite <- (eat_rest_length h0 (m ++ d)), Em; done).
  assert (length r < B)%nat by (rewrite Hr; apply Nat.mod_upper_bound; lia).
  split; [rewrite length_put; lia|]. rewrite <- Hr, Em. f_equal.
  change (length r) with (0 + length r)%nat. by rewrite take_put by lia.
Qed.

(** At the end of a block the data is taken as it comes. *)
Lemma fed_direct h0 m h buf d buf' h' r :
  fed h0 m h buf -> (length m mod B = 0)%nat -> (B <= length buf')%nat -> eat h d = (h', r) ->
  fed h0 (m ++ d) h' (put buf' 0 r).
Proof.
  intros [Hb E] Hm Hb' Er. rewrite Hm, take_0 in E.
  assert (Em : eat h0 (m ++ d) = (h', r)) by (by rewrite eat_app, E).
  assert (Hr : length r = (length (m ++ d) mod B)%nat)
    by (rewrite <- (eat_rest_length h0 (m ++ d)), Em; done).
  assert (length r < B)%nat by (rewrite Hr; apply Nat.mod_upper_bound; lia).
  split; [rewrite length_put; lia|]. rewrite <- Hr, Em. f_equal.
  change (length r) with (0 + length r)%nat. by rewrite take_put by lia.
Qed.

(** The state of a message that has been fed. *)
Lemma fed_whole h0 m h buf : fed h0 m h buf -> (eat h0 m).1 = h.
Proof. intros [_ ->]. done. Qed.
End eat.

(** A state that is a part of another one. *)
Lemma eat_map {H H'} B (T : H -> list Z -> H) (T' : H' -> list Z -> H') (f : H -> H') l :
  (0 < B)%nat -> (forall h d, f (T h d) = T' (f h) d) ->
  forall h, eat B T' (f h) l = (f (eat B T h l).1, (eat B T h l).2).
Proof.
  intros HB Hf. induction l as [l Hs|l Hl IH] using (blocks_ind B T HB); intros h.
  - by rewrite !eat_short.
  - rewrite (eat_step B T) by done. rewrite (eat_step B T') by done. rewrite <- Hf. apply IH.
Qed.
