(* ===== verification/Digest.v ===== *)
(** * Message digests (src/fio/crc: md5.c, sha1.c, sha256.c, sha512.c, sha3.c)

    One module per file.  A context is a record that an operation returns
    changed; buffers are lists of bytes.  Words are little-endian, as on the
    machines fio runs on.  The loops over the whole blocks of the input are
    [eat]. *)

From S2P Require Import Prelude Bits Stream.

Open Scope Z_scope.

Definition zeros_ (n : nat) : list Z := replicate n 0.

Module Md5.

Definition F1 (x y z : Z) : Z := Z.lxor z (Z.land x (Z.lxor y z)).
Definition F2 (x y z : Z) : Z := F1 z x y.
Definition F3 (x y z : Z) : Z := Z.lxor (Z.lxor x y) z.
Definition F4 (x y z : Z) : Z := Z.lxor y (Z.lor x (u32 (Z.lnot z))).

(** [w += f(x, y, z) + in, w = (w<<s | w>>(32-s)) + x]: the registers are passed in the
    order of the macro's arguments and handed on rotated, as the next line of the
    source has them. *)
Definition MD5STEP (inp : list Z) (r : Z * Z * Z * Z) (step : (Z -> Z -> Z -> Z) * nat * Z * Z)
  : Z * Z * Z * Z :=
  let '(w, x, y, z) := r in
  let '(f, i, c, s) := step in
  let w := u32 (w + f x y z + (word_at 4 i inp + c)) in
  (z, u32 (rol 32 w s + x), x, y).

Definition steps : list ((Z -> Z -> Z -> Z) * nat * Z * Z) :=
  [(F1, 0%nat, 0xd76aa478, 7); (F1, 1%nat, 0xe8c7b756, 12); (F1, 2%nat, 0x242070db, 17); (F1, 3%nat, 0xc1bdceee, 22);
   (F1, 4%nat, 0xf57c0faf, 7); (F1, 5%nat, 0x4787c62a, 12); (F1, 6%nat, 0xa8304613, 17); (F1, 7%nat, 0xfd469501, 22);
   (F1, 8%nat, 0x698098d8, 7); (F1, 9%nat, 0x8b44f7af, 12); (F1, 10%nat, 0xffff5bb1, 17); (F1, 11%nat, 0x895cd7be, 22);
   (F1, 12%nat, 0x6b901122, 7); (F1, 13%nat, 0xfd987193, 12); (F1, 14%nat, 0xa679438e, 17); (F1, 15%nat, 0x49b40821, 22);
   (F2, 1%nat, 0xf61e2562, 5); (F2, 6%nat, 0xc040b340, 9); (F2, 11%nat, 0x265e5a51, 14); (F2, 0%nat, 0xe9b6c7aa, 20);
   (F2, 5%nat, 0xd62f105d, 5); (F2, 10%nat, 0x02441453, 9); (F2, 15%nat, 0xd8a1e681, 14); (F2, 4%nat, 0xe7d3fbc8, 20);
   (F2, 9%nat, 0x21e1cde6, 5); (F2, 14%nat, 0xc33707d6, 9); (F2, 3%nat, 0xf4d50d87, 14); (F2, 8%nat, 0x455a14ed, 20);
   (F2, 13%nat, 0xa9e3e905, 5); (F2, 2%nat, 0xfcefa3f8, 9); (F2, 7%nat, 0x676f02d9, 14); (F2, 12%nat, 0x8d2a4c8a, 20);
   (F3, 5%nat, 0xfffa3942, 4); (F3, 8%nat, 0x8771f681, 11); (F3, 11%nat, 0x6d9d6122, 16); (F3, 14%nat, 0xfde5380c, 23);
   (F3, 1%nat, 0xa4beea44, 4); (F3, 4%nat, 0x4bdecfa9, 11); (F3, 7%nat, 0xf6bb4b60, 16); (F3, 10%nat, 0xbebfbc70, 23);
   (F3, 13%nat, 0x289b7ec6, 4); (F3, 0%nat, 0xeaa127fa, 11); (F3, 3%nat, 0xd4ef3085, 16); (F3, 6%nat, 0x04881d05, 23);
   (F3, 9%nat, 0xd9d4d039, 4); (F3, 12%nat, 0xe6db99e5, 11); (F3, 15%nat, 0x1fa27cf8, 16); (F3, 2%nat, 0xc4ac5665, 23);
   (F4, 0%nat, 0xf4292244, 6); (F4, 7%nat, 0x432aff97, 10); (F4, 14%nat, 0xab9423a7, 15); (F4, 5%nat, 0xfc93a039, 21);
   (F4, 12%nat, 0x655b59c3, 6); (F4, 3%nat, 0x8f0ccc92, 10); (F4, 10%nat, 0xffeff47d, 15); (F4, 1%nat, 0x85845dd1, 21);
   (F4, 8%nat, 0x6fa87e4f, 6); (F4, 15%nat, 0xfe2ce6e0, 10); (F4, 6%nat, 0xa3014314, 15); (F4, 13%nat, 0x4e0811a1, 21);
   (F4, 4%nat, 0xf7537e82, 6); (F4, 11%nat, 0xbd3af235, 10); (F4, 2%nat, 0x2ad7d2bb, 15); (F4, 9%nat, 0xeb86d391, 21)].

Definition md5_transform (hash : list Z) (inp : list Z) : list Z :=
  let '(a, b, c, d) := foldl (MD5STEP inp) (at0 hash 0, at0 hash 1, at0 hash 2, at0 hash 3) steps in
  [u32 (at0 hash 0 + a); u32 (at0 hash 1 + b); u32 (at0 hash 2 + c); u32 (at0 hash 3 + d)].

(** [block] as its 64 bytes. *)
Record ctx := Ctx { hash : list Z; block : list Z; byte_count : Z }.

Definition fio_md5_init (c : ctx) : ctx :=
  Ctx [0x67452301; 0xefcdab89; 0x98badcfe; 0x10325476] (block c) (byte_count c).

(** The loop copies each block into the context before it is hashed. *)
Definition md5_block (s : list Z * list Z) (data : list Z) : list Z * list Z :=
  (md5_transform s.1 data, data).

Definition fio_md5_update (c : ctx) (data : list Z) : ctx :=
  let avail := (64 - Z.to_nat (Z.land (byte_count c) 0x3f))%nat in
  let count := u64 (byte_count c + Z.of_nat (length data)) in
  if decide (length data < avail)%nat
  then Ctx (hash c) (put (block c) (64 - avail) data) count
  else
    let block := put (block c) (64 - avail) (take avail data) in
    let hash := md5_transform (hash c) block in
    let '(hash, block, data) := eat 64 md5_block (hash, block) (drop avail data) in
    Ctx hash (put block 0 data) count.

Definition fio_md5_final (c : ctx) : ctx :=
  let offset := Z.to_nat (Z.land (byte_count c) 0x3f) in
  let block := put (block c) offset [0x80] in
  let '(hash, block, p, padding) :=
    if decide (56 < offset + 1)%nat then
      let block := put block (offset + 1) (zeros_ (64 - (offset + 1))) in
      (md5_transform (hash c) block, block, 0%nat, 56%nat)
    else (hash c, block, (offset + 1)%nat, (56 - (offset + 1))%nat) in
  let block := put block p (zeros_ padding) in
  let block := put block 56 (word_bytes 4 (u32 (Z.shiftl (byte_count c) 3))) in
  let block := put block 60 (word_bytes 4 (u32 (Z.shiftr (byte_count c) 29))) in
  Ctx (md5_transform hash block) block (byte_count c).

End Md5.

Module Sha1.

Definition H_init : list Z := [0x67452301; 0xefcdab89; 0x98badcfe; 0x10325476; 0xc3d2e1f0].

(** [array] holds the last 16 words of the schedule. *)
Definition W (array : list Z) (x : nat) : Z := at0 array (x mod 16).
Definition SHA_SRC (data : list Z) (t : nat) : Z := be_word_at 4 t data.
Definition SHA_MIX (array : list Z) (t : nat) : Z :=
  rol 32 (Z.lxor (Z.lxor (Z.lxor (W array (t + 13)) (W array (t + 8))) (W array (t + 2))) (W array t)) 1.

(** The registers are handed on rotated, as the next line of the source has them. *)
Definition SHA_ROUND (data : list Z) (s : list Z * (Z * Z * Z * Z * Z)) (t : nat)
  : list Z * (Z * Z * Z * Z * Z) :=
  let '(array, (A, B, C, D, E)) := s in
  let TEMP := if decide (t < 16)%nat then SHA_SRC data t else SHA_MIX array t in
  let array := <[(t mod 16)%nat := TEMP]> array in
  let fn :=
    if decide (t < 20)%nat then Z.lxor (Z.land (Z.lxor C D) B) D
    else if decide (t < 40)%nat then Z.lxor (Z.lxor B C) D
    else if decide (t < 60)%nat then u32 (Z.land B C + Z.land D (Z.lxor B C))
    else Z.lxor (Z.lxor B C) D in
  let constant :=
    if decide (t < 20)%nat then 0x5a827999 else if decide (t < 40)%nat then 0x6ed9eba1
    else if decide (t < 60)%nat then 0x8f1bbcdc else 0xca62c1d6 in
  let E := u32 (E + (TEMP + rol 32 A 5 + fn + constant)) in
  (array, (E, A, ror 32 B 2, C, D)).

Definition blk_SHA1Block (H : list Z) (data : list Z) : list Z :=
  let '(_, (A, B, C, D, E)) :=
    foldl (SHA_ROUND data) (zeros_ 16, (at0 H 0, at0 H 1, at0 H 2, at0 H 3, at0 H 4)) (seq 0 80) in
  [u32 (at0 H 0 + A); u32 (at0 H 1 + B); u32 (at0 H 2 + C); u32 (at0 H 3 + D); u32 (at0 H 4 + E)].

(** [W] as its 64 bytes. *)
Record ctx := Ctx { H : list Z; Wbuf : list Z; size : Z }.

Definition fio_sha1_init (c : ctx) : ctx := Ctx H_init (Wbuf c) 0.

Definition fio_sha1_update (c : ctx) (data : list Z) : ctx :=
  let lenW := Z.to_nat (Z.land (size c) 63) in
  let size := u64 (size c + Z.of_nat (length data)) in
  let blocks (H : list Z) (Wbuf : list Z) (data : list Z) :=
    let '(H, data) := eat 64 blk_SHA1Block H data in
    Ctx H (if decide (length data = O) then Wbuf else put Wbuf 0 data) size in
  if decide (lenW <> O) then
    let left := (64 - lenW)%nat in
    let left := if decide (length data < left)%nat then length data else left in
    let Wbuf := put (Wbuf c) lenW (take left data) in
    if decide ((lenW + left) mod 64 <> 0)%nat then Ctx (H c) Wbuf size
    else blocks (blk_SHA1Block (H c) Wbuf) Wbuf (drop left data)
  else blocks (H c) (Wbuf c) data.

Definition pad : list Z := 0x80 :: zeros_ 63.

Definition fio_sha1_final (c : ctx) : ctx :=
  let padlen := rev (word_bytes 4 (u32 (Z.shiftr (size c) 29))) ++
                rev (word_bytes 4 (u32 (Z.shiftl (size c) 3))) in
  let i := Z.land (size c) 63 in
  let c := fio_sha1_update c (take (1 + Z.to_nat (Z.land 63 (55 - i))) pad) in
  fio_sha1_update c padlen.

End Sha1.

Module Sha256.

Definition Ch (x y z : Z) : Z := Z.lxor z (Z.land x (Z.lxor y z)).
Definition Maj (x y z : Z) : Z := Z.lor (Z.land x y) (Z.land z (Z.lor x y)).
Definition ror32 (word shift : Z) : Z := ror 32 word shift.
Definition e0 (x : Z) : Z := Z.lxor (Z.lxor (ror32 x 2) (ror32 x 13)) (ror32 x 22).
Definition e1 (x : Z) : Z := Z.lxor (Z.lxor (ror32 x 6) (ror32 x 11)) (ror32 x 25).
Definition s0 (x : Z) : Z := Z.lxor (Z.lxor (ror32 x 7) (ror32 x 18)) (Z.shiftr x 3).
Definition s1 (x : Z) : Z := Z.lxor (Z.lxor (ror32 x 17) (ror32 x 19)) (Z.shiftr x 10).

(** The constants of the 64 lines of the transform. *)
Definition K : list Z :=
  concat
   [[0x428a2f98; 0x71374491; 0xb5c0fbcf; 0xe9b5dba5];
    [0x3956c25b; 0x59f111f1; 0x923f82a4; 0xab1c5ed5];
    [0xd807aa98; 0x12835b01; 0x243185be; 0x550c7dc3];
    [0x72be5d74; 0x80deb1fe; 0x9bdc06a7; 0xc19bf174];
    [0xe49b69c1; 0xefbe4786; 0x0fc19dc6; 0x240ca1cc];
    [0x2de92c6f; 0x4a7484aa; 0x5cb0a9dc; 0x76f988da];
    [0x983e5152; 0xa831c66d; 0xb00327c8; 0xbf597fc7];
    [0xc6e00bf3; 0xd5a79147; 0x06ca6351; 0x14292967];
    [0x27b70a85; 0x2e1b2138; 0x4d2c6dfc; 0x53380d13];
    [0x650a7354; 0x766a0abb; 0x81c2c92e; 0x92722c85];
    [0xa2bfe8a1; 0xa81a664b; 0xc24b8b70; 0xc76c51a3];
    [0xd192e819; 0xd6990624; 0xf40e3585; 0x106aa070];
    [0x19a4c116; 0x1e376c08; 0x2748774c; 0x34b0bcb5];
    [0x391c0cb3; 0x4ed8aa4a; 0x5b9cca4f; 0x682e6ff3];
    [0x748f82ee; 0x78a5636f; 0x84c87814; 0x8cc70208];
    [0x90befffa; 0xa4506ceb; 0xbef9a3f7; 0xc67178f2]].

(** [W[i]] for [i] from 16 on is appended to the words before it. *)
Definition BLEND_OP (W : list Z) (i : nat) : list Z :=
  W ++ [u32 (s1 (at0 W (i - 2)) + at0 W (i - 7) + s0 (at0 W (i - 15)) + at0 W (i - 16))].

Definition schedule (input : list Z) : list Z :=
  foldl BLEND_OP ((fun i => be_word_at 4 i input) <$> seq 0 16) (seq 16 48).

(** One pair of lines; the registers are handed on rotated, as the next pair has them. *)
Definition line (r : list Z) (kw : Z * Z) : list Z :=
  match r with
  | [a; b; c; d; e; f; g; h] =>
      let t1 := u32 (h + e1 e + Ch e f g + kw.1 + kw.2) in
      let t2 := u32 (e0 a + Maj a b c) in
      [u32 (t1 + t2); a; b; c; u32 (d + t1); e; f; g]
  | _ => r
  end.

Definition sha256_transform (state : list Z) (input : list Z) : list Z :=
  zip_with (fun s r => u32 (s + r)) state (foldl line state (zip K (schedule input))).

(** [buf] is the memory behind the pointer of the context: 64 bytes of the caller. *)
Record ctx := Ctx { count : Z; state : list Z; buf : list Z }.

Definition fio_sha256_init (c : ctx) : ctx :=
  Ctx 0 [0x6a09e667; 0xbb67ae85; 0x3c6ef372; 0xa54ff53a; 0x510e527f; 0x9b05688c; 0x1f83d9ab; 0x5be0cd19]
      (buf c).

(** [done = -partial] and [done += 64] leave [data + done] behind the bytes that
    completed the buffer. *)
Definition fio_sha256_update (c : ctx) (data : list Z) : ctx :=
  let partial := Z.to_nat (Z.land (count c) 0x3f) in
  let count := u32 (count c + Z.of_nat (length data)) in
  if decide (63 < partial + length data)%nat then
    let '(buf, src) :=
      if decide (partial <> O)
      then let b := put (buf c) partial (take (64 - partial) data) in (b, b)
      else (buf c, take 64 data) in
    let state := sha256_transform (state c) src in
    let '(state, src) := eat 64 sha256_transform state (drop (64 - partial) data) in
    Ctx count state (put buf 0 src)
  else Ctx count (state c) (put (buf c) partial data).

Definition padding : list Z := 0x80 :: zeros_ 63.

Definition fio_sha256_final (c : ctx) : ctx :=
  let bits := u64 (Z.shiftl (count c) 3) in
  let index := Z.land (count c) 0x3f in
  let pad_len := Z.to_nat (if decide (index < 56) then 56 - index else 64 + 56 - index) in
  let c := fio_sha256_update c (take pad_len padding) in
  let c := fio_sha256_update c (word_bytes 8 bits) in
  Ctx (count c) (state c) (put (buf c) 0 ((fun s => s mod 256) <$> state c)).

End Sha256.

Module Sha512.

Definition Ch (x y z : Z) : Z := Z.lxor z (Z.land x (Z.lxor y z)).
Definition Maj (x y z : Z) : Z := Z.lor (Z.land x y) (Z.land z (Z.lor x y)).
Definition RORuint64_t (x y : Z) : Z := ror 64 x y.

Definition sha512_K : list Z :=
  concat
   [[0x428a2f98d728ae22; 0x7137449123ef65cd; 0xb5c0fbcfec4d3b2f; 0xe9b5dba58189dbbc];
    [0x3956c25bf348b538; 0x59f111f1b605d019; 0x923f82a4af194f9b; 0xab1c5ed5da6d8118];
    [0xd807aa98a3030242; 0x12835b0145706fbe; 0x243185be4ee4b28c; 0x550c7dc3d5ffb4e2];
    [0x72be5d74f27b896f; 0x80deb1fe3b1696b1; 0x9bdc06a725c71235; 0xc19bf174cf692694];
    [0xe49b69c19ef14ad2; 0xefbe4786384f25e3; 0x0fc19dc68b8cd5b5; 0x240ca1cc77ac9c65];
    [0x2de92c6f592b0275; 0x4a7484aa6ea6e483; 0x5cb0a9dcbd41fbd4; 0x76f988da831153b5];
    [0x983e5152ee66dfab; 0xa831c66d2db43210; 0xb00327c898fb213f; 0xbf597fc7beef0ee4];
    [0xc6e00bf33da88fc2; 0xd5a79147930aa725; 0x06ca6351e003826f; 0x142929670a0e6e70];
    [0x27b70a8546d22ffc; 0x2e1b21385c26c926; 0x4d2c6dfc5ac42aed; 0x53380d139d95b3df];
    [0x650a73548baf63de; 0x766a0abb3c77b2a8; 0x81c2c92e47edaee6; 0x92722c851482353b];
    [0xa2bfe8a14cf10364; 0xa81a664bbc423001; 0xc24b8b70d0f89791; 0xc76c51a30654be30];
    [0xd192e819d6ef5218; 0xd69906245565a910; 0xf40e35855771202a; 0x106aa07032bbd1b8];
    [0x19a4c116b8d2d0c8; 0x1e376c085141ab53; 0x2748774cdf8eeb99; 0x34b0bcb5e19b48a8];
    [0x391c0cb3c5c95a63; 0x4ed8aa4ae3418acb; 0x5b9cca4f7763e373; 0x682e6ff3d6b2b8a3];
    [0x748f82ee5defb2fc; 0x78a5636f43172f60; 0x84c87814a1f0ab72; 0x8cc702081a6439ec];
    [0x90befffa23631e28; 0xa4506cebde82bde9; 0xbef9a3f7b2c67915; 0xc67178f2e372532b];
    [0xca273eceea26619c; 0xd186b8c721c0c207; 0xeada7dd6cde0eb1e; 0xf57d4f7fee6ed178];
    [0x06f067aa72176fba; 0x0a637dc5a2c898a6; 0x113f9804bef90dae; 0x1b710b35131c471b];
    [0x28db77f523047d84; 0x32caab7b40c72493; 0x3c9ebe0a15c9bebc; 0x431d67c49c100d4c];
    [0x4cc5d4becb3e42b6; 0x597f299cfc657e2a; 0x5fcb6fab3ad6faec; 0x6c44198c4a475817]].

Definition e0 (x : Z) : Z := Z.lxor (Z.lxor (RORuint64_t x 28) (RORuint64_t x 34)) (RORuint64_t x 39).
Definition e1 (x : Z) : Z := Z.lxor (Z.lxor (RORuint64_t x 14) (RORuint64_t x 18)) (RORuint64_t x 41).
Definition s0 (x : Z) : Z := Z.lxor (Z.lxor (RORuint64_t x 1) (RORuint64_t x 8)) (Z.shiftr x 7).
Definition s1 (x : Z) : Z := Z.lxor (Z.lxor (RORuint64_t x 19) (RORuint64_t x 61)) (Z.shiftr x 6).

Definition BLEND_OP (W : list Z) (i : nat) : list Z :=
  W ++ [u64 (s1 (at0 W (i - 2)) + at0 W (i - 7) + s0 (at0 W (i - 15)) + at0 W (i - 16))].

(** [W] is cleared after every update and only lives inside the transform. *)
Definition schedule (input : list Z) : list Z :=
  foldl BLEND_OP ((fun i => be_word_at 8 i input) <$> seq 0 16) (seq 16 64).

Definition line (r : list Z) (kw : Z * Z) : list Z :=
  match r with
  | [a; b; c; d; e; f; g; h] =>
      let t1 := u64 (h + e1 e + Ch e f g + kw.1 + kw.2) in
      let t2 := u64 (e0 a + Maj a b c) in
      [u64 (t1 + t2); a; b; c; u64 (d + t1); e; f; g]
  | _ => r
  end.

Definition sha512_transform (state : list Z) (input : list Z) : list Z :=
  zip_with (fun s r => u64 (s + r)) state (foldl line state (zip sha512_K (schedule input))).

(** [buf] is the memory behind the pointer of the context: 128 bytes of the caller. *)
Record ctx := Ctx { state : list Z; count : list Z; buf : list Z }.

Definition fio_sha512_init (c : ctx) : ctx :=
  Ctx [0x6a09e667f3bcc908; 0xbb67ae8584caa73b; 0x3c6ef372fe94f82b; 0xa54ff53a5f1d36f1;
       0x510e527fade682d1; 0x9b05688c2b3e6c1f; 0x1f83d9abfb41bd6b; 0x5be0cd19137e2179]
      (zeros_ 4) (buf c).

(** The number of bits in four words; only the first is used. *)
Definition add_count (count : list Z) (len : Z) : list Z :=
  match count with
  | [c0; c1; c2; c3] =>
      let bits := u32 (Z.shiftl len 3) in
      let c0 := u32 (c0 + bits) in
      if decide (c0 < bits) then
        let c1 := u32 (c1 + 1) in
        let '(c2, c3) :=
          if decide (c1 < 1) then
            let c2 := u32 (c2 + 1) in (c2, if decide (c2 < 1) then u32 (c3 + 1) else c3)
          else (c2, c3) in
        [c0; u32 (c1 + Z.shiftr len 29); c2; c3]
      else [c0; c1; c2; c3]
  | _ => count
  end.

Definition fio_sha512_update (c : ctx) (data : list Z) : ctx :=
  let idx := Z.to_nat (Z.land (Z.shiftr (at0 (count c) 0) 3) 0x7F) in
  let count := add_count (count c) (Z.of_nat (length data)) in
  let part_len := (128 - idx)%nat in
  if decide (part_len <= length data)%nat then
    let buf := put (buf c) idx (take part_len data) in
    let state := sha512_transform (state c) buf in
    let '(state, data) := eat 128 sha512_transform state (drop part_len data) in
    Ctx state count (put buf 0 data)
  else Ctx (state c) count (put (buf c) idx data).

End Sha512.

Module Sha3.

Definition ROTL64 (x y : Z) : Z := rol 64 x y.

Definition keccakf_rndc : list Z :=
  [0x0000000000000001; 0x0000000000008082; 0x800000000000808a; 0x8000000080008000;
   0x000000000000808b; 0x0000000080000001; 0x8000000080008081; 0x8000000000008009;
   0x000000000000008a; 0x0000000000000088; 0x0000000080008009; 0x000000008000000a;
   0x000000008000808b; 0x800000000000008b; 0x8000000000008089; 0x8000000000008003;
   0x8000000000008002; 0x8000000000000080; 0x000000000000800a; 0x800000008000000a;
   0x8000000080008081; 0x8000000000008080; 0x0000000080000001; 0x8000000080008008].
Definition keccakf_rotc : list Z :=
  [1; 3; 6; 10; 15; 21; 28; 36; 45; 55; 2; 14;
   27; 41; 56; 8; 25; 43; 62; 18; 39; 61; 20; 44].
Definition keccakf_piln : list nat :=
  [10; 7; 11; 17; 18; 3; 5; 16; 8; 21; 24; 4;
   15; 23; 19; 13; 12; 2; 20; 14; 22; 9; 6; 1]%nat.

Definition xor_at (st : list Z) (i : nat) (t : Z) : list Z := <[i := Z.lxor (at0 st i) t]> st.

Definition theta (st : list Z) : list Z :=
  let bc := (fun i => Z.lxor (Z.lxor (Z.lxor (Z.lxor (at0 st i) (at0 st (i + 5))) (at0 st (i + 10)))
                                     (at0 st (i + 15))) (at0 st (i + 20))) <$> seq 0 5 in
  foldl (fun st i =>
    let t := Z.lxor (at0 bc ((i + 4) mod 5)) (ROTL64 (at0 bc ((i + 1) mod 5)) 1) in
    foldl (fun st j => xor_at st (5 * j + i) t) st (seq 0 5)) st (seq 0 5).

Definition rho_pi (st : list Z) : list Z :=
  (foldl (fun '(st, t) '(j, r) => (<[j := ROTL64 t r]> st, at0 st j))
         (st, at0 st 1) (zip keccakf_piln keccakf_rotc)).1.

Definition chi (st : list Z) : list Z :=
  foldl (fun st j =>
    let bc := (fun i => at0 st (5 * j + i)) <$> seq 0 5 in
    foldl (fun st i => xor_at st (5 * j + i)
             (Z.land (u64 (Z.lnot (at0 bc ((i + 1) mod 5)))) (at0 bc ((i + 2) mod 5)))) st (seq 0 5))
    st (seq 0 5).

Definition keccakf (st : list Z) : list Z :=
  foldl (fun st rc => xor_at (chi (rho_pi (theta st))) 0 rc) st keccakf_rndc.

Record ctx := Ctx { st : list Z; md_len : nat; rsiz : nat; partial : nat; buf : list Z }.

(** The block size [rsiz] is [8 * rsizw]; [buf] has room for the largest. *)
Definition fio_sha3_init (digest_sz : nat) : ctx :=
  Ctx (zeros_ 25) digest_sz (200 - 2 * digest_sz) 0 (zeros_ 144).

Definition fio_sha3_224_init : ctx := fio_sha3_init 28.
Definition fio_sha3_256_init : ctx := fio_sha3_init 32.
Definition fio_sha3_384_init : ctx := fio_sha3_init 48.
Definition fio_sha3_512_init : ctx := fio_sha3_init 64.

(** [for (i = 0; i < rsizw; i++) st[i] ^= ((uint64_t * ) src)[i]; keccakf(st);] *)
Definition absorb (rsizw : nat) (st : list Z) (src : list Z) : list Z :=
  keccakf (foldl (fun st i => xor_at st i (word_at 8 i src)) st (seq 0 rsizw)).

Definition fio_sha3_update (c : ctx) (data : list Z) : ctx :=
  let rsizw := (rsiz c / 8)%nat in
  let '(st, buf, partial, src) :=
    if decide (rsiz c - 1 < partial c + length data)%nat then
      let '(buf, src) :=
        if decide (partial c <> O)
        then let b := put (buf c) (partial c) (take (rsiz c - partial c) data) in (b, take (rsiz c) b)
        else (buf c, take (rsiz c) data) in
      let st := absorb rsizw (st c) src in
      let '(st, src) := eat (rsiz c) (absorb rsizw) st (drop (rsiz c - partial c) data) in
      (st, buf, 0%nat, src)
    else (st c, buf c, partial c, data) in
  Ctx st (md_len c) (rsiz c) (partial + length src) (put buf partial src).

(** The context and the digest. *)
Definition fio_sha3_final (c : ctx) : ctx * list Z :=
  let inlen := partial c in
  let buf := put (buf c) inlen [0x06] in
  let buf := put buf (inlen + 1) (zeros_ (rsiz c - (inlen + 1))) in
  let buf := <[(rsiz c - 1)%nat := Z.lor (at0 buf (rsiz c - 1)) 0x80]> buf in
  let st := absorb (rsiz c / 8) (st c) (take (rsiz c) buf) in
  (Ctx st (md_len c) (rsiz c) (partial c) buf, take (md_len c) (st ≫= word_bytes 8)).

End Sha3.
