(* ===== verification/DigestSpec.v ===== *)
(** * The digests against their references

    Fed in pieces of any size, the MD5, SHA-1 and SHA-3 contexts end with the
    digest of the whole message: the padded message hashed block by block, or
    the sponge.  The SHA-256 code pads in its own way, and the SHA-512 code
    leaves the message, not the state, in the buffer that is taken for the
    digest. *)

From S2P Require Import Prelude Bits Stream Digest.

Open Scope Z_scope.

(** ** References *)

(** The padding of MD5 and the first SHAs: one bit, zeros up to 56 modulo 64, and the
    number of bits. *)
Definition md_pad (length_bytes : Z -> list Z) (n : nat) : list Z :=
  0x80 :: zeros_ (Z.to_nat ((55 - Z.of_nat n) mod 64)) ++ length_bytes (8 * Z.of_nat n).

Definition le64 (v : Z) : list Z := word_bytes 8 v.
Definition be64 (v : Z) : list Z := rev (word_bytes 8 v).

(** A message is hashed block by block from [h0]. *)
Definition hash_blocks {H} (B : nat) (T : H -> list Z -> H) (h0 : H) (m : list Z) : H :=
  (eat B T h0 m).1.

Definition md5_init_hash : list Z := [0x67452301; 0xefcdab89; 0x98badcfe; 0x10325476].

Definition md5_ref (m : list Z) : list Z :=
  hash_blocks 64 Md5.md5_transform md5_init_hash (m ++ md_pad le64 (length m)).

Definition sha1_ref (m : list Z) : list Z :=
  hash_blocks 64 Sha1.blk_SHA1Block Sha1.H_init (m ++ md_pad be64 (length m)).

(** The sponge: 01 and the padding 10*1 up to the rate, then the first bytes of the state. *)
Definition sha3_pad (rate n : nat) : list Z :=
  let z := (rate - 1 - n mod rate)%nat in
  if decide (z = O) then [0x86] else 0x06 :: zeros_ (z - 1) ++ [0x80].

Definition sha3_ref (md : nat) (m : list Z) : list Z :=
  let rate := (200 - 2 * md)%nat in
  take md (hash_blocks rate (Sha3.absorb (rate / 8)) (zeros_ 25) (m ++ sha3_pad rate (length m))
           ≫= word_bytes 8).

(** ** Lengths and counters *)

Lemma length_zeros_ n : length (zeros_ n) = n.
Proof. apply length_replicate. Qed.
#[export] Hint Rewrite length_zeros_ @length_cons @length_nil : len.

Lemma land_mask k x : 0 <= k -> 0 <= x -> Z.to_nat (Z.land x (2 ^ k - 1)) = (Z.to_nat x mod 2 ^ Z.to_nat k)%nat.
Proof.
  intros Hk Hx. replace (2 ^ k - 1) with (Z.ones k) by (rewrite Z.ones_equiv; lia).
  rewrite Z.land_ones by lia. rewrite Z2Nat.inj_mod by lia. f_equal.
  rewrite Z2Nat.inj_pow by lia. done.
Qed.

Lemma land63 n : Z.to_nat (Z.land (Z.of_nat n) 63) = (n mod 64)%nat.
Proof. change 63 with (2 ^ 6 - 1). rewrite land_mask by lia. by rewrite Nat2Z.id. Qed.

Lemma land63_wrapu w n : 6 <= w -> Z.to_nat (Z.land (wrapu w (Z.of_nat n)) 63) = (n mod 64)%nat.
Proof.
  intros Hw. rewrite <- (land63 n). f_equal. change 63 with (Z.ones 6).
  rewrite !Z.land_ones by lia. unfold wrapu.
  replace (2 ^ w) with (2 ^ 6 * 2 ^ (w - 6)) by (rewrite <- Z.pow_add_r by lia; f_equal; lia).
  pose proof (Z.pow_pos_nonneg 2 (w - 6)). rewrite Z.rem_mul_r by lia.
  rewrite Z.mul_comm, Z.mod_add by lia. apply Z.mod_mod. lia.
Qed.

Lemma wrapu_count w c n : wrapu w (wrapu w c + Z.of_nat n) = wrapu w (c + Z.of_nat n).
Proof. unfold wrapu. destruct (decide (2 ^ w = 0)) as [->|]; [by rewrite !Z.mod_0_r|]. by rewrite Zplus_mod_idemp_l. Qed.

Lemma bytes_app v k j : 0 <= v -> word_bytes (k + j) v = word_bytes k v ++ word_bytes j (v / 256 ^ Z.of_nat k).
Proof.
  revert v. induction k as [|k IH]; intros v Hv; [by rewrite Z.div_1_r|].
  cbn [Nat.add word_bytes app]. f_equal. rewrite IH by (apply Z.div_pos; lia). do 2 f_equal.
  rewrite Nat2Z.inj_succ, Z.pow_succ_r by lia. apply Z.div_div; lia.
Qed.

Lemma word_bytes_mod k v : word_bytes k (v mod 256 ^ Z.of_nat k) = word_bytes k v.
Proof.
  revert v. induction k as [|k IH]; intros v; [done|]. cbn [word_bytes].
  rewrite Nat2Z.inj_succ, Z.pow_succ_r by lia.
  pose proof (Z.pow_pos_nonneg 256 (Z.of_nat k)).
  f_equal.
  - rewrite Z.rem_mul_r by lia. rewrite Z.mul_comm, Z.mod_add by lia. apply Z.mod_mod. lia.
  - rewrite <- (IH (v / 256)). f_equal. rewrite Z.rem_mul_r by lia.
    rewrite Z.mul_comm, Z.div_add, Z.div_small by (try apply Z.mod_pos_bound; lia). done.
Qed.

(** The two words the contexts store are the 64-bit number of bits. *)
Lemma bits_split n : Z.of_nat n < 2 ^ 61 ->
  word_bytes 4 (u32 (Z.shiftl (Z.of_nat n) 3)) ++ word_bytes 4 (u32 (Z.shiftr (Z.of_nat n) 29)) =
  word_bytes 8 (8 * Z.of_nat n).
Proof.
  intros Hn. unfold wrapu. rewrite Z.shiftl_mul_pow2, Z.shiftr_div_pow2 by lia.
  change (2 ^ 32) with (256 ^ Z.of_nat 4). rewrite !word_bytes_mod.
  change 8%nat with (4 + 4)%nat at 1. rewrite (bytes_app (8 * Z.of_nat n) 4 4) by lia. f_equal; [f_equal; lia|].
  f_equal. change (256 ^ Z.of_nat 4) with (2 ^ 3 * 2 ^ 29). change (8 * Z.of_nat n) with (2 ^ 3 * Z.of_nat n).
  by rewrite Z.div_mul_cancel_l by lia.
Qed.

(** The padded message fills its blocks. *)
Lemma md_pad_whole lb n : (forall v, length (lb v) = 8%nat) -> ((n + length (md_pad lb n)) mod 64 = 0)%nat.
Proof.
  intros Hlb. unfold md_pad. cbn [length]. rewrite length_app, length_zeros_, Hlb.
  pose proof (Z.mod_pos_bound (55 - Z.of_nat n) 64). apply Nat2Z.inj. dlia.
Qed.

(** ** MD5 *)

Section md5.
Import Md5.

(** [c] was fed [m]. *)
Definition md5_fed (c : ctx) (m : list Z) : Prop :=
  length (block c) = 64%nat /\ fed 64 md5_transform md5_init_hash m (hash c) (block c) /\
  byte_count c = u64 (Z.of_nat (length m)).

Lemma md5_init_fed c : length (block c) = 64%nat -> byte_count c = 0 -> md5_fed (fio_md5_init c) [].
Proof. intros Hl Hc. split; [done|]. split; [|done]. apply fed_nil; [lia|]. cbn. lia. Qed.

Lemma md5_block_eat h b l :
  length b = 64%nat ->
  exists b', length b' = 64%nat /\
    eat 64 md5_block (h, b) l =
      ((eat 64 md5_transform h l).1, b', (eat 64 md5_transform h l).2).
Proof.
  intros Hb. pose proof (eat_map 64 md5_block md5_transform fst l) as E.
  pose proof (eat_inv 64 md5_block ltac:(lia) (fun s => length s.2 = 64%nat) l (h, b)) as Hi.
  destruct (eat 64 md5_block (h, b) l) as [[h' b'] r] eqn:Ee. exists b'. split.
  - apply Hi; [done|done].
  - specialize (E ltac:(lia) ltac:(done) (h, b)). cbn [fst] in E. rewrite E, Ee. done.
Qed.

Lemma md5_update_fed c m d : md5_fed c m -> md5_fed (fio_md5_update c d) (m ++ d).
Proof.
  intros (Hl & Hf & Hc). unfold fio_md5_update. rewrite Hc, wrapu_count, land63_wrapu by lia.
  rewrite <- Nat2Z.inj_add, <- length_app. set (k := (length m mod 64)%nat).
  assert (Hk : (k < 64)%nat) by (apply Nat.mod_upper_bound; lia).
  replace (64 - (64 - k))%nat with k by lia. case_decide as Hd.
  - split; [cbn [block]; rewrite length_put; lia|]. split; [|done]. apply fed_short; [lia|done|fold k; lia].
  - set (b := put (block c) k (take (64 - k) d)).
    assert (Hb : length b = 64%nat) by (unfold b; rewrite length_put; len).
    assert (Eb : b = take k (block c) ++ take (64 - k) d) by (apply put_full; len).
    destruct (md5_block_eat (md5_transform (hash c) b) b (drop (64 - k) d) Hb) as (b' & Hb' & E).
    rewrite E. clear E. set (e := eat 64 md5_transform _ _).
    assert (Hr : (length e.2 < 64)%nat) by (apply eat_rest_short; lia).
    split; [cbn [block]; rewrite length_put; lia|]. split; [|done].
    eapply fed_long; [lia|exact Hf|fold k; lia|lia|]. fold k. rewrite <- Eb. fold e. by destruct e.
Qed.

(** The last block or two. *)
Lemma md5_final_fed c m :
  md5_fed c m -> Z.of_nat (length m) < 2 ^ 61 -> hash (fio_md5_final c) = md5_ref m.
Proof.
  intros (Hl & [_ Hf] & Hc) Hm. unfold fio_md5_final. rewrite Hc, land63_wrapu by lia.
  rewrite !(wrapu_small 64 (Z.of_nat (length m))) by lia. set (k := (length m mod 64)%nat) in *.
  assert (Hk : (k < 64)%nat) by (apply Nat.mod_upper_bound; lia).
  set (b0 := put (block c) k [128]).
  assert (Hb0 : length b0 = 64%nat) by (unfold b0; rewrite length_put; len).
  assert (E0 : take (k + 1) b0 = take k (block c) ++ [128]) by (apply (take_put (block c) k [128]); lia).
  set (lb := word_bytes 8 (8 * Z.of_nat (length m))).
  assert (Hlb : length lb = 8%nat) by apply length_word_bytes.
  assert (Hlast : forall b p, length b = 64%nat -> (p <= 56)%nat ->
    put (put (put b p (zeros_ (56 - p))) 56 (word_bytes 4 (u32 (Z.shiftl (Z.of_nat (length m)) 3)))) 60
        (word_bytes 4 (u32 (Z.shiftr (Z.of_nat (length m)) 29))) = take p b ++ zeros_ (56 - p) ++ lb).
  { intros b p Hb Hp. set (w1 := word_bytes 4 (u32 (Z.shiftl _ _))). set (w2 := word_bytes 4 (u32 (Z.shiftr _ _))).
    assert (H1 : length w1 = 4%nat) by apply length_word_bytes.
    assert (H2 : length w2 = 4%nat) by apply length_word_bytes.
    set (b1 := put b p (zeros_ (56 - p))).
    assert (Hb1 : length b1 = 64%nat) by (unfold b1; rewrite length_put; len).
    assert (E1 : take 56 b1 = take p b ++ zeros_ (56 - p)).
    { replace 56%nat with (p + length (zeros_ (56 - p)))%nat at 1 by len. apply take_put. lia. }
    rewrite put_full by (rewrite length_put; lia).
    replace 60%nat with (56 + length w1)%nat by lia. rewrite take_put by lia.
    rewrite E1, <- !app_assoc. unfold lb. rewrite <- (bits_split (length m)) by lia. done. }
  unfold md5_ref, hash_blocks. rewrite eat_app, Hf by lia. cbn [fst snd].
  set (r := take k (block c)) in *. assert (Hr : length r = k) by (unfold r; len).
  unfold md_pad. change (le64 _) with lb. case_decide as Hp.
  - rewrite (Hlast _ 0%nat) by (try rewrite length_put; len). cbn [take app].
    assert (E1 : put b0 (k + 1) (zeros_ (64 - (k + 1))) = r ++ 128 :: zeros_ (64 - (k + 1))).
    { rewrite put_full by len. rewrite E0, <- app_assoc. done. }
    rewrite E1. set (z := Z.to_nat _).
    assert (Hz : z = (64 - (k + 1) + 56)%nat).
    { unfold z. apply Nat2Z.inj. unfold k in *. pose proof (Z.mod_pos_bound (55 - Z.of_nat (length m)) 64). dlia. }
    rewrite Hz. replace (128 :: zeros_ (64 - (k + 1) + 56) ++ lb)
      with ((128 :: zeros_ (64 - (k + 1))) ++ zeros_ 56 ++ lb)
      by (unfold zeros_; rewrite replicate_add, <- !app_assoc; done).
    rewrite (app_assoc r). set (blk := r ++ 128 :: _). assert (Hblk : length blk = 64%nat) by (unfold blk; len).
    rewrite (eat_step 64) by len. rewrite take_app_length', drop_app_length' by lia.
    rewrite (eat_step 64) by len. rewrite eat_short by len.
    rewrite (take_ge (zeros_ 56 ++ lb)) by len. cbn [hash fst]. rewrite take_0. change (56 - 0)%nat with 56%nat.
    cbn [app]. reflexivity.
  - rewrite (Hlast _ (k + 1)%nat) by lia. rewrite E0.
    set (z := Z.to_nat _). assert (Hz : z = (56 - (k + 1))%nat).
    { unfold z. apply Nat2Z.inj. unfold k in *. pose proof (Z.mod_pos_bound (55 - Z.of_nat (length m)) 64). dlia. }
    rewrite Hz. rewrite (eat_step 64) by len. rewrite eat_short by len.
    cbn [fst hash]. f_equal. rewrite take_ge by len. by rewrite <- app_assoc.
Qed.
End md5.

(** ** SHA-1 *)

Section sha1.
Import Sha1.

Definition sha1_fed (c : ctx) (m : list Z) : Prop :=
  length (Wbuf c) = 64%nat /\ fed 64 blk_SHA1Block H_init m (H c) (Wbuf c) /\
  size c = u64 (Z.of_nat (length m)).

Lemma sha1_init_fed c : length (Wbuf c) = 64%nat -> sha1_fed (fio_sha1_init c) [].
Proof. intros Hl. split; [done|]. split; [|done]. apply fed_nil; [lia|]. cbn. lia. Qed.

Lemma sha1_update_fed c m d : sha1_fed c m -> sha1_fed (fio_sha1_update c d) (m ++ d).
Proof.
  intros (Hl & Hf & Hc). unfold fio_sha1_update. rewrite Hc, wrapu_count, land63_wrapu by lia.
  rewrite <- Nat2Z.inj_add, <- length_app. set (k := (length m mod 64)%nat).
  assert (Hk : (k < 64)%nat) by (apply Nat.mod_upper_bound; lia).
  assert (Hstore : forall W r, (if decide (length r = O) then W else put W 0 r) = put W 0 r).
  { intros W r. case_decide as E; [|done]. apply length_zero_iff_nil in E as ->. by rewrite put_nil. }
  assert (Hput : forall h W l, length W = 64%nat -> length (put W 0 (eat 64 blk_SHA1Block h l).2) = 64%nat).
  { intros h W l HW. pose proof (eat_rest_short 64 blk_SHA1Block ltac:(lia) h l). rewrite length_put; lia. }
  case_decide as Hk0.
  - assert (Hleft : (if decide (length d < 64 - k)%nat then length d else (64 - k)%nat) =
                    Nat.min (length d) (64 - k)) by (case_decide; lia).
    rewrite !Hleft. clear Hleft. set (W := put (Wbuf c) k _).
    assert (HW : length W = 64%nat) by (unfold W; rewrite length_put; len).
    case_decide as Hw.
    + assert (Hd : (k + length d < 64)%nat).
      { destruct (decide (k + length d < 64)%nat); [done|]. rewrite Nat.min_r in Hw by lia.
        replace (k + (64 - k))%nat with 64%nat in Hw by lia. done. }
      split; [done|]. split; [|done]. unfold W. cbn [H Wbuf]. rewrite take_ge by lia.
      apply fed_short; [lia|done|done].
    + assert (Hd : (64 <= k + length d)%nat).
      { destruct (decide (64 <= k + length d)%nat); [done|].
        rewrite Nat.min_l, Nat.mod_small in Hw by lia. lia. }
      rewrite Nat.min_r in * by lia.
      destruct (eat 64 blk_SHA1Block (blk_SHA1Block (H c) W) (drop (64 - k) d)) as [h r] eqn:E.
      rewrite Hstore. pose proof (Hput (blk_SHA1Block (H c) W) W (drop (64 - k) d) HW) as Hp. rewrite E in Hp.
      split; [done|]. split; [|done]. cbn [H Wbuf]. eapply fed_long; [lia|exact Hf|done|lia|].
      fold k. rewrite <- E. do 2 f_equal. unfold W. rewrite Nat.min_r by lia. symmetry. apply put_full. len.
  - destruct (eat 64 blk_SHA1Block (H c) d) as [h r] eqn:E. rewrite Hstore.
    pose proof (Hput (H c) (Wbuf c) d Hl) as Hp. rewrite E in Hp.
    split; [done|]. split; [|done]. cbn [H Wbuf]. eapply fed_direct; [lia|exact Hf|lia|lia|done].
Qed.

Lemma sha1_final_fed c m :
  sha1_fed c m -> Z.of_nat (length m) < 2 ^ 61 -> H (fio_sha1_final c) = sha1_ref m.
Proof.
  intros Hc Hm. pose proof Hc as (_ & _ & Hs). unfold fio_sha1_final. rewrite Hs.
  rewrite !(wrapu_small 64 (Z.of_nat (length m))) by lia.
  rewrite <- rev_app_distr, bits_split by lia.
  set (z := (1 + _)%nat). set (zs := Z.to_nat ((55 - Z.of_nat (length m)) mod 64)).
  assert (Hz : z = S zs).
  { unfold z, zs. f_equal. f_equal. change 63 with (Z.ones 6). rewrite (Z.land_comm (Z.ones 6)), !Z.land_ones by lia.
    change (2 ^ 6) with 64. by rewrite Zminus_mod_idemp_r. }
  assert (Hzs : (zs < 64)%nat).
  { unfold zs. pose proof (Z.mod_pos_bound (55 - Z.of_nat (length m)) 64). lia. }
  assert (Hpad : take z pad = 0x80 :: zeros_ zs).
  { rewrite Hz. unfold pad, zeros_. cbn [take]. rewrite take_replicate. do 2 f_equal. lia. }
  rewrite Hpad. apply (sha1_update_fed _ _ (0x80 :: zeros_ zs)) in Hc.
  apply (sha1_update_fed _ _ (rev (word_bytes 8 (8 * Z.of_nat (length m))))) in Hc as (_ & Hf & _).
  apply fed_whole in Hf. unfold sha1_ref, hash_blocks. rewrite <- Hf. f_equal. f_equal.
  rewrite <- app_assoc. done.
Qed.
End sha1.

(** ** SHA-256 *)

Section sha256.
Import Sha256.

Definition sha256_init_state : list Z := state (fio_sha256_init (Ctx 0 [] [])).

Definition sha256_fed (c : ctx) (m : list Z) : Prop :=
  length (buf c) = 64%nat /\ fed 64 sha256_transform sha256_init_state m (state c) (buf c) /\
  count c = u32 (Z.of_nat (length m)).

Lemma sha256_init_fed c : length (buf c) = 64%nat -> sha256_fed (fio_sha256_init c) [].
Proof. intros Hl. split; [done|]. split; [|done]. apply fed_nil; [lia|]. cbn. lia. Qed.

Lemma sha256_update_fed c m d : sha256_fed c m -> sha256_fed (fio_sha256_update c d) (m ++ d).
Proof.
  intros (Hl & Hf & Hc). unfold fio_sha256_update. rewrite Hc, wrapu_count, land63_wrapu by lia.
  rewrite <- Nat2Z.inj_add, <- length_app. set (k := (length m mod 64)%nat).
  assert (Hk : (k < 64)%nat) by (apply Nat.mod_upper_bound; lia). case_decide as Hd.
  - set (bs := if decide _ then _ else _).
    assert (Hbs : length bs.1 = 64%nat /\ bs.2 = take k (buf c) ++ take (64 - k) d).
    { unfold bs. case_decide as Hk0; cbn [fst snd].
      - split; [rewrite length_put; len|]. apply put_full. len.
      - split; [done|]. assert (k = O) as -> by lia. done. }
    destruct bs as [b src]. cbn [fst snd] in Hbs. destruct Hbs as [Hb ->].
    destruct (eat _ _ _ _) as [st r] eqn:E.
    pose proof (eat_rest_short 64 sha256_transform ltac:(lia)
      (sha256_transform (state c) (take k (buf c) ++ take (64 - k) d)) (drop (64 - k) d)) as Hr.
    rewrite E in Hr. cbn [snd] in Hr.
    split; [cbn [buf]; rewrite length_put; lia|]. split; [|done]. cbn [state buf].
    eapply fed_long; [lia|exact Hf|fold k; lia|lia|exact E].
  - split; [cbn [buf]; rewrite length_put; lia|]. split; [|done]. apply fed_short; [lia|done|fold k; lia].
Qed.

(** The code's own padding ends with the number of bits in little-endian order. *)
Definition sha256_padded (m : list Z) : list Z := m ++ md_pad le64 (length m).

Definition sha256_state (m : list Z) : list Z :=
  hash_blocks 64 sha256_transform sha256_init_state (sha256_padded m).

(** What the buffer holds in the end: the low byte of each of the eight state words, then
    the padded message's last block. *)
Definition sha256_digest (m : list Z) : list Z :=
  ((fun s => s mod 256) <$> sha256_state m) ++ drop 8 (drop (length (sha256_padded m) - 64) (sha256_padded m)).

Lemma transform256_length st blk : length st = 8%nat -> length (sha256_transform st blk) = 8%nat.
Proof.
  intros Hs. unfold sha256_transform. rewrite length_zip_with, Hs.
  assert (H : forall l r, length r = 8%nat -> length (foldl line r l) = 8%nat).
  { induction l as [|kw l IH]; intros r Hr; [done|]. cbn [foldl]. apply IH.
    do 8 (destruct r as [|? r]; [done|]). destruct r; [done|done]. }
  rewrite H by done. done.
Qed.

Lemma sha256_final_fed c m :
  sha256_fed c m -> Z.of_nat (length m) < 2 ^ 32 ->
  state (fio_sha256_final c) = sha256_state m /\ buf (fio_sha256_final c) = sha256_digest m.
Proof.
  intros Hc Hm. pose proof Hc as (_ & _ & Hs). unfold fio_sha256_final. rewrite Hs.
  rewrite !(wrapu_small 32 (Z.of_nat (length m))) by lia.
  set (zs := Z.to_nat ((55 - Z.of_nat (length m)) mod 64)).
  set (z := Z.to_nat _). assert (Hz : z = S zs).
  { unfold z, zs. change 63 with (Z.ones 6). rewrite Z.land_ones by lia. change (2 ^ 6) with 64.
    case_decide; apply Nat2Z.inj; dlia. }
  assert (Hzs : (zs < 64)%nat).
  { unfold zs. pose proof (Z.mod_pos_bound (55 - Z.of_nat (length m)) 64). lia. }
  assert (Hpad : take z padding = 0x80 :: zeros_ zs).
  { rewrite Hz. unfold padding, zeros_. cbn [take]. rewrite take_replicate. do 2 f_equal. lia. }
  rewrite Hpad. clear Hpad. set (c1 := fio_sha256_update c _). set (p := m ++ 0x80 :: zeros_ zs).
  assert (Hc1 : sha256_fed c1 p) by apply (sha256_update_fed _ _ _ Hc). clearbody c1.
  rewrite Z.shiftl_mul_pow2, wrapu_small by lia.
  replace (Z.of_nat (length m) * 2 ^ 3) with (8 * Z.of_nat (length m)) by lia.
  set (lb := word_bytes 8 _). assert (Hlb : length lb = 8%nat) by apply length_word_bytes.
  assert (Hp : (length p mod 64 = 56)%nat).
  { unfold p, zs. autorewrite with len. apply Nat2Z.inj.
    pose proof (Z.mod_pos_bound (55 - Z.of_nat (length m)) 64). dlia. }
  assert (Epad : sha256_padded m = p ++ lb).
  { unfold sha256_padded, p, md_pad. fold zs. by rewrite <- app_assoc. }
  pose proof (sha256_update_fed _ _ lb Hc1) as (_ & Hf & _). apply fed_whole in Hf.
  assert (Est : state (fio_sha256_update c1 lb) = sha256_state m) by (unfold sha256_state, hash_blocks; by rewrite Epad).
  cbn [state buf]. split; [done|]. rewrite Est.
  assert (H8 : length (sha256_state m) = 8%nat).
  { unfold sha256_state, hash_blocks. apply (eat_inv 64 sha256_transform ltac:(lia) (fun h => length h = 8%nat)); [|done].
    intros h d _. apply transform256_length. }
  assert (Eb : buf (fio_sha256_update c1 lb) = take 56 (buf c1) ++ lb).
  { destruct Hc1 as (Hl1 & _ & Hc1). unfold fio_sha256_update. rewrite Hc1, land63_wrapu, Hp, Hlb by lia.
    rewrite decide_True by lia. rewrite decide_True by lia. rewrite drop_ge by lia.
    rewrite eat_short by (cbn; lia). cbn [buf]. rewrite put_nil, (take_ge lb) by lia. apply put_full. lia. }
  rewrite Eb. destruct Hc1 as (Hl1 & [_ Hf1] & _). rewrite Hp in Hf1.
  assert (Hr : take 56 (buf c1) = drop (64 * (length p / 64)) p) by (rewrite <- (eat_rest 64 sha256_transform
    ltac:(lia) sha256_init_state p), Hf1; done).
  unfold put. rewrite take_0, length_fmap, H8. cbn [app]. unfold sha256_digest. f_equal. f_equal.
  rewrite Hr, Epad. rewrite drop_app_le by (autorewrite with len; rewrite Hlb; lia). f_equal. f_equal.
  rewrite length_app, Hlb. pose proof (Nat.div_mod_eq (length p) 64). lia.
Qed.
End sha256.

(** ** The digests, fed in pieces

    The rest of the digests: what SHA-512 leaves in its buffer, SHA-3 against the
    sponge, and the theorem that covers all contexts whose result is a function
    of the message alone. *)

(** ** SHA-512 *)

Section sha512.
Import Sha512.

(** What the buffer holds after a message: its last bytes, over its first block or over
    what the caller left there. *)
Definition sha512_left (garbage m : list Z) : list Z :=
  let r := drop (128 * (length m / 128)) m in
  r ++ drop (length r) (if decide (128 <= length m)%nat then take 128 m else garbage).

(** One update of a fresh context, as in src/fio/verify.c. *)
Lemma sha512_buf garbage m :
  length garbage = 128%nat ->
  buf (fio_sha512_update (fio_sha512_init (Ctx [] [] garbage)) m) = sha512_left garbage m.
Proof.
  intros Hg. unfold fio_sha512_update, sha512_left. cbn [fio_sha512_init count buf state].
  change (Z.to_nat (Z.land (Z.shiftr (at0 (zeros_ 4) 0) 3) 127)) with 0%nat.
  change (128 - 0)%nat with 128%nat. case_decide as Hm.
  - set (b := put garbage 0 (take 128 m)).
    assert (Eb : b = take 128 m).
    { unfold b. rewrite put_full by (rewrite length_take; lia). by rewrite take_0. }
    destruct (eat _ _ _ _) as [st r] eqn:E. cbn [buf].
    assert (Er : r = drop (128 * (length m / 128)) m).
    { pose proof (eat_rest 128 sha512_transform ltac:(lia) (sha512_transform (state (fio_sha512_init (Ctx [] [] [])))
        b) (drop 128 m)) as Er.
      unfold b in Er. cbn [state fio_sha512_init] in Er. fold b in Er. rewrite E in Er. cbn [snd] in Er.
      rewrite Er, drop_drop, length_drop. f_equal. pose proof (Nat.div_add (length m - 128) 1 128).
      replace (length m - 128 + 1 * 128)%nat with (length m) in * by lia. lia. }
    unfold put. rewrite take_0, Er, Eb. done.
  - rewrite Nat.div_small, Nat.mul_0_r, drop_0 by lia. cbn [buf]. unfold put. by rewrite take_0.
Qed.
End sha512.

(** ** SHA-3 *)

Lemma insert_last n (x : Z) : <[n := x]> (replicate (S n) 0) = replicate n 0 ++ [x].
Proof. induction n as [|n IH]; [done|]. cbn [replicate app] in *. by rewrite <- IH. Qed.

Section sha3.
Import Sha3.

Definition sha3_fed (md : nat) (c : ctx) (m : list Z) : Prop :=
  md_len c = md /\ rsiz c = (200 - 2 * md)%nat /\ partial c = (length m mod rsiz c)%nat /\
  length (buf c) = 144%nat /\ fed (rsiz c) (absorb (rsiz c / 8)) (zeros_ 25) m (st c) (buf c).

Lemma sha3_init_fed md : (28 <= md < 100)%nat -> sha3_fed md (fio_sha3_init md) [].
Proof.
  intros Hm. unfold fio_sha3_init, sha3_fed. cbn [md_len rsiz partial buf st]. split; [done|].
  split; [done|]. split; [by rewrite Nat.Div0.mod_0_l|]. split; [by rewrite length_zeros_|].
  apply fed_nil; [lia|]. rewrite length_zeros_. lia.
Qed.

Lemma sha3_update_fed md c m d :
  (28 <= md < 100)%nat -> sha3_fed md c m -> sha3_fed md (fio_sha3_update c d) (m ++ d).
Proof.
  intros Hmd (Hd1 & Hr & Hp & Hl & Hf). unfold fio_sha3_update.
  set (B := rsiz c) in *. assert (HB : (0 < B <= 144)%nat) by lia. rewrite Hp. set (k := (length m mod B)%nat).
  assert (Hk : (k < B)%nat) by (apply Nat.mod_upper_bound; lia). case_decide as Hd.
  - set (bs := if decide _ then _ else _).
    assert (Hbs : length bs.1 = 144%nat /\ bs.2 = take k (buf c) ++ take (B - k) d).
    { unfold bs. case_decide as Hk0; cbn [fst snd].
      - split; [rewrite length_put; len|].
        replace B with (k + length (take (B - k) d))%nat at 1 by len. rewrite take_put by lia. done.
      - split; [done|]. assert (k = O) as -> by lia. by rewrite Nat.sub_0_r. }
    destruct bs as [b src]. cbn [fst snd] in Hbs. destruct Hbs as [Hb ->].
    destruct (eat _ _ _ _) as [h r] eqn:E.
    pose proof (fed_long B (absorb (B / 8)) ltac:(lia) _ m (st c) (buf c) d b h r Hf ltac:(fold k;
      lia) ltac:(lia) E) as Hf'.
    assert (Hlr : length r = (length (m ++ d) mod B)%nat).
    { pose proof (eat_rest_length B (absorb (B / 8)) ltac:(lia) (zeros_ 25) (m ++ d)) as Hlr.
      pose proof Hf as [_ E0]. rewrite eat_app, E0 in Hlr by lia. cbn [fst snd] in Hlr. fold k in Hlr.
      rewrite eat_feed in Hlr by (try rewrite length_take; lia). rewrite length_take, Nat.min_l in Hlr by lia.
      rewrite decide_True in Hlr by lia. rewrite E in Hlr. done. }
    unfold sha3_fed. cbn [md_len rsiz partial buf st Nat.add]. fold B. split_and!; [done|done|done| |done].
    rewrite length_put; [done|]. pose proof (Nat.mod_upper_bound (length (m ++ d)) B). lia.
  - unfold sha3_fed. cbn [md_len rsiz partial buf st]. fold B. split_and!; [done|done| |rewrite length_put; lia|].
    + rewrite length_app. symmetry. apply mod_add_lt; [done|lia].
    + apply fed_short; [lia|done|fold k; lia].
Qed.

Lemma sha3_final_fed md c m :
  (28 <= md < 100)%nat -> sha3_fed md c m -> (fio_sha3_final c).2 = sha3_ref md m.
Proof.
  intros Hmd (Hd1 & Hr & Hp & Hl & [_ Hf]). unfold fio_sha3_final, sha3_ref. cbn [snd]. rewrite <- Hr, Hd1.
  set (B := rsiz c) in *. assert (HB : (0 < B <= 144)%nat) by lia. rewrite Hp. set (k := (length m mod B)%nat) in *.
  assert (Hk : (k < B)%nat) by (apply Nat.mod_upper_bound; lia). set (r := take k (buf c)) in *.
  assert (Hlr : length r = k) by (unfold r; len).
  set (b1 := put (buf c) k [6]). assert (Hb1 : length b1 = 144%nat) by (unfold b1; rewrite length_put; len).
  assert (E1 : take (k + 1) b1 = r ++ [6]) by (apply (take_put (buf c) k [6]); lia).
  set (z := (B - (k + 1))%nat). set (b2 := put b1 (k + 1) (zeros_ z)).
  assert (Hb2 : length b2 = 144%nat) by (unfold b2; rewrite length_put; len).
  assert (E2 : take B b2 = r ++ 6 :: zeros_ z).
  { replace B with (k + 1 + length (zeros_ z))%nat by len. unfold b2. rewrite take_put by lia.
    rewrite E1, <- app_assoc. done. }
  assert (E3 : take B (<[(B - 1)%nat := Z.lor (at0 b2 (B - 1)) 128]> b2) = r ++ sha3_pad B (length m)).
  { rewrite take_insert_lt by lia. unfold at0. rewrite <- (take_drop B b2) at 1.
    rewrite app_nth1 by len. rewrite E2. unfold sha3_pad. fold k. replace (B - 1 - k)%nat with z by lia.
    case_decide as Hz.
    - rewrite Hz. replace (B - 1)%nat with (length r + 0)%nat by lia. rewrite insert_app_r, app_nth2_plus. done.
    - destruct z as [|z'] eqn:Ez; [done|]. replace (S z' - 1)%nat with z' by lia.
      replace (B - 1)%nat with (length r + S z')%nat by lia. rewrite insert_app_r, app_nth2_plus. f_equal.
      change (6 :: <[z' := Z.lor (nth z' (zeros_ (S z')) 0) 128]> (zeros_ (S z')) = 6 :: zeros_ z' ++ [128]).
      unfold zeros_. rewrite insert_last, nth_replicate0. done. }
  rewrite E3. unfold hash_blocks. rewrite eat_app, Hf by lia. cbn [fst snd].
  assert (Hpad : length (r ++ sha3_pad B (length m)) = B) by (rewrite <- E3; len).
  rewrite eat_step by lia. rewrite (take_ge (r ++ sha3_pad B (length m))) by lia.
  rewrite eat_short by (rewrite ?length_drop; lia). cbn [fst]. reflexivity.
Qed.
End sha3.

(** ** The digests of a message that comes in pieces *)

Definition md5_of (c : Md5.ctx) (ms : list (list Z)) : list Z :=
  Md5.hash (Md5.fio_md5_final (foldl Md5.fio_md5_update (Md5.fio_md5_init c) ms)).
Definition sha1_of (c : Sha1.ctx) (ms : list (list Z)) : list Z :=
  Sha1.H (Sha1.fio_sha1_final (foldl Sha1.fio_sha1_update (Sha1.fio_sha1_init c) ms)).
Definition sha256_of (c : Sha256.ctx) (ms : list (list Z)) : list Z :=
  Sha256.buf (Sha256.fio_sha256_final (foldl Sha256.fio_sha256_update (Sha256.fio_sha256_init c) ms)).
Definition sha3_of (md : nat) (ms : list (list Z)) : list Z :=
  (Sha3.fio_sha3_final (foldl Sha3.fio_sha3_update (Sha3.fio_sha3_init md) ms)).2.

(** A context that represents a message does so after any number of updates. *)
Lemma foldl_fed {C} (fed : C -> list Z -> Prop) (update : C -> list Z -> C) ms :
  (forall c m d, fed c m -> fed (update c d) (m ++ d)) ->
  forall c m, fed c m -> fed (foldl update c ms) (m ++ concat ms).
Proof.
  intros Hu. induction ms as [|d ms IH]; intros c m Hc; [by rewrite app_nil_r|].
  cbn [foldl concat]. rewrite app_assoc. by apply IH, Hu.
Qed.

(** C20: Whatever pieces a message comes in and whatever the context's buffer held, the MD5
    and SHA-1 contexts end with the digest of the padded message, the SHA-3
    contexts with the first bytes of the sponge, and the SHA-256 code with a
    buffer that depends on the message only: the low byte of each state word and
    56 bytes of its last block, the length appended in little-endian order. *)
Theorem digests_of_message c1 c2 c3 md ms :
  length (Md5.block c1) = 64%nat -> Md5.byte_count c1 = 0 ->
  length (Sha1.Wbuf c2) = 64%nat -> length (Sha256.buf c3) = 64%nat -> md ∈ [28; 32; 48; 64]%nat ->
  Z.of_nat (length (concat ms)) < 2 ^ 32 ->
  md5_of c1 ms = md5_ref (concat ms) /\ sha1_of c2 ms = sha1_ref (concat ms) /\
  sha3_of md ms = sha3_ref md (concat ms) /\ sha256_of c3 ms = sha256_digest (concat ms).
Proof.
  intros H1 H1' H2 H3 Hmd Hm. assert (28 <= md < 100)%nat.
  { apply list_elem_of_In in Hmd. cbn in Hmd. lia. }
  split_and!.
  - apply md5_final_fed; [|lia]. apply (foldl_fed md5_fed Md5.fio_md5_update ms md5_update_fed _ []).
    by apply md5_init_fed.
  - apply sha1_final_fed; [|lia]. apply (foldl_fed sha1_fed Sha1.fio_sha1_update ms sha1_update_fed _ []).
    by apply sha1_init_fed.
  - apply sha3_final_fed; [done|].
    apply (foldl_fed (sha3_fed md) Sha3.fio_sha3_update ms (fun c m d => sha3_update_fed md c m d ltac:(done)) _ []).
    by apply sha3_init_fed.
  - apply sha256_final_fed; [|done].
    apply (foldl_fed sha256_fed Sha256.fio_sha256_update ms sha256_update_fed _ []). by apply sha256_init_fed.
Qed.

Lemma digests_of_message_witness :
  let ms := [[97]; []; [98; 99]] in
  md5_of (Md5.Ctx [] (replicate 64 7) 0) ms = md5_ref [97; 98; 99] /\
  sha1_of (Sha1.Ctx [] (replicate 64 7) 5) ms = sha1_ref [97; 98; 99] /\
  sha3_of 32 ms = sha3_ref 32 [97; 98; 99] /\
  sha256_of (Sha256.Ctx 1 [] (replicate 64 7)) ms = sha256_digest [97; 98; 99].
Proof.
  intros ms. refine (digests_of_message (Md5.Ctx [] (replicate 64 7) 0) (Sha1.Ctx [] (replicate 64 7) 5)
    (Sha256.Ctx 1 [] (replicate 64 7)) 32 ms eq_refl eq_refl eq_refl eq_refl _ eq_refl).
  set_solver.
Defined.

(** The published digests of "abc". *)
Example md5_abc : (md5_ref [97; 98; 99] ≫= word_bytes 4) =
  [0x90; 0x01; 0x50; 0x98; 0x3c; 0xd2; 0x4f; 0xb0; 0xd6; 0x96; 0x3f; 0x7d; 0x28; 0xe1; 0x7f; 0x72].
Proof. vm_compute. reflexivity. Qed.

Example sha1_abc : sha1_ref [97; 98; 99] = [0xa9993e36; 0x4706816a; 0xba3e2571; 0x7850c26c; 0x9cd0d89d].
Proof. vm_compute. reflexivity. Qed.

Example sha3_abc : take 4 (sha3_ref 32 [97; 98; 99]) = [0x3a; 0x98; 0x5d; 0xa7].
Proof. vm_compute. reflexivity. Qed.

(** With the big-endian length of the standard the transform yields the published SHA-256
    value; with the code's padding it does not. *)
Example sha256_abc :
  hash_blocks 64 Sha256.sha256_transform sha256_init_state ([97; 98; 99] ++ md_pad be64 3) =
    [0xba7816bf; 0x8f01cfea; 0x414140de; 0x5dae2223; 0xb00361a3; 0x96177a9c; 0xb410ff61; 0xf20015ad] /\
  at0 (sha256_state [97; 98; 99]) 0 <> 0xba7816bf.
Proof. vm_compute. split; [reflexivity|discriminate]. Qed.
