(* ===== verification/Hash.v ===== *)
(** * Hash functions and the Bloom filter (src/fio/crc: xxhash.c, murmur3.c, fnv.c;
      src/fio/hash.h; src/fio/lib/bloom.c)

    Keys are lists of bytes; words are little-endian. *)

From S2P Require Import Prelude Bits Stream Crc.

Open Scope Z_scope.

Definition mul32 (a b : Z) : Z := u32 (a * b).
Definition add32 (a b : Z) : Z := u32 (a + b).
Definition sub32 (a b : Z) : Z := u32 (a - b).

(** [h ^= h >> k] *)
Definition xorshift (h k : Z) : Z := Z.lxor h (Z.shiftr h k).

Module Xxh.

Definition PRIME32_1 : Z := 2654435761.
Definition PRIME32_2 : Z := 2246822519.
Definition PRIME32_3 : Z := 3266489917.
Definition PRIME32_4 : Z := 668265263.
Definition PRIME32_5 : Z := 374761393.

Definition XXH_rotl32 (x r : Z) : Z := rol 32 x r.

(** [v1] to [v4] for a seed. *)
Definition lanes (seed : Z) : list Z :=
  [u32 (seed + PRIME32_1 + PRIME32_2); add32 seed PRIME32_2; seed; sub32 seed PRIME32_1].

Definition lane (v w : Z) : Z := mul32 (XXH_rotl32 (add32 v (mul32 w PRIME32_2)) 13) PRIME32_1.

(** The four lines of a loop body: one word for each lane. *)
Definition stripe (v : list Z) (p : list Z) : list Z :=
  zip_with lane v ((fun i => word_at 4 i p) <$> seq 0 4).

Definition merge_lanes (v : list Z) : Z :=
  u32 (XXH_rotl32 (at0 v 0) 1 + XXH_rotl32 (at0 v 1) 7 + XXH_rotl32 (at0 v 2) 12 + XXH_rotl32 (at0 v 3) 18).

Definition tail_word (h : Z) (p : list Z) : Z :=
  mul32 (XXH_rotl32 (add32 h (mul32 (word_at 4 0 p) PRIME32_3)) 17) PRIME32_4.
Definition tail_byte (h b : Z) : Z := mul32 (XXH_rotl32 (add32 h (mul32 b PRIME32_5)) 11) PRIME32_1.

(** From [h32 += len] to the end: words, bytes, and the final mixing. *)
Definition finish (h32 : Z) (len : Z) (p : list Z) : Z :=
  let h32 := add32 h32 len in
  let '(h32, p) := eat 4 tail_word h32 p in
  let h32 := foldl tail_byte h32 p in
  let h32 := mul32 (xorshift h32 15) PRIME32_2 in
  let h32 := mul32 (xorshift h32 13) PRIME32_3 in
  xorshift h32 16.

Definition XXH32_endian_align (input : list Z) (seed : Z) : Z :=
  let len := Z.of_nat (length input) in
  if decide (16 <= length input)%nat then
    let '(v, p) := eat 16 stripe (lanes seed) input in
    finish (merge_lanes v) len p
  else finish (add32 seed PRIME32_5) len input.

Definition XXH32 (input : list Z) (seed : Z) : Z := XXH32_endian_align input seed.

Record state := State { total_len : Z; seed : Z; v : list Z; memsize : nat; memory : list Z }.

(** [memory] is what [malloc] left there. *)
Definition XXH32_resetState (garbage : list Z) (seed : Z) : state := State 0 seed (lanes seed) 0 garbage.
Definition XXH32_init (garbage : list Z) (seed : Z) : state := XXH32_resetState garbage seed.

Definition XXH32_update_endian (s : state) (input : list Z) : state :=
  let total_len := u64 (total_len s + Z.of_nat (length input)) in
  if decide (memsize s + length input < 16)%nat
  then State total_len (seed s) (v s) (memsize s + length input) (put (memory s) (memsize s) input)
  else
    let '(v, memory, p) :=
      if decide (memsize s <> O) then
        let memory := put (memory s) (memsize s) (take (16 - memsize s) input) in
        (stripe (v s) memory, memory, drop (16 - memsize s) input)
      else (v s, memory s, input) in
    let '(v, p) := if decide (16 <= length p)%nat then eat 16 stripe v p else (v, p) in
    if decide (p <> []) then State total_len (seed s) v (length p) (put memory 0 p)
    else State total_len (seed s) v 0 memory.

Definition XXH32_update (s : state) (input : list Z) : state := XXH32_update_endian s input.

Definition XXH32_intermediateDigest_endian (s : state) : Z :=
  let p := take (memsize s) (memory s) in
  let h32 := if decide (16 <= total_len s) then merge_lanes (v s) else add32 (seed s) PRIME32_5 in
  finish h32 (u32 (total_len s)) p.

Definition XXH32_digest (s : state) : Z := XXH32_intermediateDigest_endian s.

End Xxh.

Module Murmur3.

Definition rotl32 (x r : Z) : Z := rol 32 x r.

Definition fmix32 (h : Z) : Z :=
  let h := xorshift h 16 in
  let h := mul32 h 0x85ebca6b in
  let h := xorshift h 13 in
  let h := mul32 h 0xc2b2ae35 in
  xorshift h 16.

Definition c1 : Z := 0xcc9e2d51.
Definition c2 : Z := 0x1b873593.

Definition scramble (k1 : Z) : Z := mul32 (rotl32 (mul32 k1 c1) 15) c2.

Definition block (h1 : Z) (p : list Z) : Z :=
  let h1 := rotl32 (Z.lxor h1 (scramble (word_at 4 0 p))) 13 in
  u32 (h1 * 5 + 0xe6546b64).

(** The switch on [len & 3] falls through. *)
Definition murmur3_tail (tail : list Z) (len h1 : Z) : Z :=
  let h1 :=
    match tail with
    | [t0; t1; t2] => Z.lxor h1 (scramble (Z.lxor (Z.lxor (Z.shiftl t2 16) (Z.shiftl t1 8)) t0))
    | [t0; t1] => Z.lxor h1 (scramble (Z.lxor (Z.shiftl t1 8) t0))
    | [t0] => Z.lxor h1 (scramble t0)
    | _ => h1
    end in
  fmix32 (Z.lxor h1 len).

Definition murmurhash3 (key : list Z) (seed : Z) : Z :=
  let '(h1, tail) := eat 4 block seed key in
  murmur3_tail tail (Z.of_nat (length key)) h1.

End Murmur3.

Definition FNV_PRIME : Z := 0x100000001b3.

(** The last bytes are taken in big-endian order. *)
Definition fnv (buf : list Z) (hval : Z) : Z :=
  let '(hval, tail) := eat 8 (fun h p => Z.lxor (u64 (h * FNV_PRIME)) (word_at 8 0 p)) hval buf in
  if decide (tail = []) then hval
  else Z.lxor (u64 (hval * FNV_PRIME)) (foldl (fun acc b => Z.lor (u64 (Z.shiftl acc 8)) b) 0 tail).

Module Jhash.

Definition rol32 (word shift : Z) : Z := rol 32 word shift.

(** [x -= y; x ^= rol32(y, k); y += z;] of [__jhash_mix], with the register [y] read before it
    changes. *)
Definition jhash_mix (r : Z * Z * Z) : Z * Z * Z :=
  let '(a, b, c) := r in
  let a := Z.lxor (sub32 a c) (rol32 c 4) in let c := add32 c b in
  let b := Z.lxor (sub32 b a) (rol32 a 6) in let a := add32 a c in
  let c := Z.lxor (sub32 c b) (rol32 b 8) in let b := add32 b a in
  let a := Z.lxor (sub32 a c) (rol32 c 16) in let c := add32 c b in
  let b := Z.lxor (sub32 b a) (rol32 a 19) in let a := add32 a c in
  let c := Z.lxor (sub32 c b) (rol32 b 4) in let b := add32 b a in
  (a, b, c).

Definition jhash_final (r : Z * Z * Z) : Z * Z * Z :=
  let '(a, b, c) := r in
  let c := sub32 (Z.lxor c b) (rol32 b 14) in
  let a := sub32 (Z.lxor a c) (rol32 c 11) in
  let b := sub32 (Z.lxor b a) (rol32 a 25) in
  let c := sub32 (Z.lxor c b) (rol32 b 16) in
  let a := sub32 (Z.lxor a c) (rol32 c 4) in
  let b := sub32 (Z.lxor b a) (rol32 a 14) in
  let c := sub32 (Z.lxor c b) (rol32 b 24) in
  (a, b, c).

(** [a += *k; b += *(k + 4); c += *(k + 8);] reads three bytes of the twelve. *)
Definition jhash_block (r : Z * Z * Z) (k : list Z) : Z * Z * Z :=
  let '(a, b, c) := r in
  jhash_mix (add32 a (at0 k 0), add32 b (at0 k 4), add32 c (at0 k 8)).

(** [while (length > 12)]: the last block, which may be full, is left. *)
Fixpoint jhash_loop (fuel : nat) (r : Z * Z * Z) (k : list Z) : (Z * Z * Z) * list Z :=
  match fuel with
  | O => (r, k)
  | S fuel' => if decide (12 < length k)%nat then jhash_loop fuel' (jhash_block r k) (drop 12 k) else (r, k)
  end.

(** The sum of the bytes a fall through adds to one register. *)
Definition last_word (k : list Z) : Z := le_word (take 4 k).

Definition jhash (key : list Z) (initval : Z) : Z :=
  let a := u32 (0x61C88647 + Z.of_nat (length key) + initval) in
  let '((a, b, c), k) := jhash_loop (length key) (a, a, a) key in
  if decide (k = []) then c
  else (jhash_final (add32 a (last_word k), add32 b (last_word (drop 4 k)), add32 c (last_word (drop 8 k)))).2.

End Jhash.

Module Bloom.

Record bloom := Mk { nentries : Z; map : list Z }.

Definition BLOOM_SEED : Z := 0x8989.

Definition bloom_crc32c (buf : list Z) (seed : Z) : Z := crc32c_sw buf.
Definition bloom_fnv (buf : list Z) (seed : Z) : Z := u32 (fnv buf seed).

Definition hashes : list ((list Z -> Z -> Z) * Z) :=
  [(Jhash.jhash, BLOOM_SEED); (Xxh.XXH32, BLOOM_SEED); (Murmur3.murmurhash3, BLOOM_SEED);
   (bloom_crc32c, BLOOM_SEED); (bloom_fnv, BLOOM_SEED)].

Definition N_HASHES : nat := 5.

(** [ok] says whether the memory was granted. *)
Definition bloom_new (ok : bool) (entries : Z) : option bloom :=
  if ok then Some (Mk entries (replicate (Z.to_nat (u64 (entries + 31) / 32)) 0)) else None.

(** The second loop over the hash values; [None] is an access out of bounds. *)
Fixpoint check_loop (set : bool) (hash : list Z) (m : list Z) (was_set : nat) : option (nat * list Z) :=
  match hash with
  | [] => Some (was_set, m)
  | h :: hash' =>
      let index := Z.to_nat (h / 32) in
      let bit := Z.land h 31 in
      w ← m !! index;
      if decide (Z.land w (Z.shiftl 1 bit) <> 0) then check_loop set hash' m (S was_set)
      else if set then check_loop set hash' (<[index := Z.lor w (Z.shiftl 1 bit)]> m) was_set
      else Some (was_set, m)
  end.

(** [None] is a division by zero. *)
Definition bloom_check (b : bloom) (data : list Z) (set : bool) : option (bool * bloom) :=
  if decide (nentries b = 0) then None
  else
    let hash := (fun '(fn, seed) => fn data seed mod nentries b) <$> hashes in
    '(was_set, m) ← check_loop set hash (map b) 0;
    Some (bool_decide (was_set = N_HASHES), Mk (nentries b) m).

Definition bloom_set (b : bloom) (data : list Z) : option (bool * bloom) := bloom_check b data true.
Definition bloom_string (b : bloom) (data : list Z) (set : bool) : option (bool * bloom) :=
  bloom_check b data set.

End Bloom.
