(* ===== verification/HashProofs.v ===== *)
(** * Hash functions and the Bloom filter: proofs *)

From S2P Require Import Prelude Bits Stream Crc CrcProofs Hash.

Open Scope Z_scope.

(** ** xxHash, streamed *)

Section xxh.
Import Xxh.

Definition xxh_fed (sd : Z) (s : state) (m : list Z) : Prop :=
  length (memory s) = 16%nat /\ fed 16 stripe (lanes sd) m (v s) (memory s) /\
  memsize s = (length m mod 16)%nat /\ seed s = sd /\ total_len s = u64 (Z.of_nat (length m)).

Lemma xxh_init_fed g sd : length g = 16%nat -> xxh_fed sd (XXH32_init g sd) [].
Proof. intros Hg. unfold xxh_fed. cbn. split_and!; try done. apply fed_nil; [lia|]. lia. Qed.

Lemma xxh_update_fed sd s m d : xxh_fed sd s m -> xxh_fed sd (XXH32_update s d) (m ++ d).
Proof.
  intros (Hl & Hf & Hk & Hs & Ht). unfold XXH32_update, XXH32_update_endian, xxh_fed. rewrite Hk.
  assert (Et : u64 (total_len s + Z.of_nat (length d)) = u64 (Z.of_nat (length (m ++ d)))).
  { rewrite Ht, length_app, Nat2Z.inj_add. unfold wrapu. by rewrite Zplus_mod_idemp_l. }
  rewrite Et. clear Et. set (k := (length m mod 16)%nat) in *.
  assert (Hk' : (k < 16)%nat) by (apply Nat.mod_upper_bound; lia). case_decide as Hd.
  - cbn [memory v memsize seed total_len]. split_and!; try done.
    + rewrite length_put; lia.
    + apply fed_short; [lia|done|done].
    + rewrite length_app. symmetry. by apply mod_add_lt.
  - set (vmp := if decide _ then _ else _).
    assert (Hv : length vmp.1.2 = 16%nat /\
      eat 16 stripe vmp.1.1 vmp.2 = eat 16 stripe (lanes sd) (m ++ d)).
    { pose proof Hf as [_ E]. fold k in E. rewrite eat_app, E by lia. cbn [fst snd]. unfold vmp.
      case_decide as Hk0; cbn [fst snd].
      - split; [rewrite length_put; len|]. rewrite eat_feed by len.
        rewrite length_take, Nat.min_l by lia. rewrite decide_True by lia. do 2 f_equal. apply put_full. len.
      - assert (k = O) as -> by lia. done. }
    destruct vmp as [[v0 mem] p]. cbn [fst snd] in Hv. destruct Hv as [Hmem He].
    assert (Hw : (if decide (16 <= length p)%nat then eat 16 stripe v0 p else (v0, p)) = eat 16 stripe v0 p).
    { case_decide; [done|]. by rewrite eat_short by lia. }
    rewrite Hw, He. destruct (eat 16 stripe (lanes sd) (m ++ d)) as [v1 r] eqn:E.
    assert (Hr : length r = (length (m ++ d) mod 16)%nat).
    { pose proof (eat_rest_length 16 stripe ltac:(lia) (lanes sd) (m ++ d)) as Hr. by rewrite E in Hr. }
    assert (Hr' : (length r < 16)%nat) by (rewrite Hr; apply Nat.mod_upper_bound; lia).
    assert (Hput : fed 16 stripe (lanes sd) (m ++ d) v1 (put mem 0 r)).
    { split; [rewrite length_put; lia|]. rewrite <- Hr, E. f_equal.
      change (length r) with (0 + length r)%nat. by rewrite take_put by lia. }
    destruct (decide (r <> [])) as [Hne|Hne]; cbn [memory v memsize seed total_len].
    + split_and!; try done. rewrite length_put; lia.
    + apply dec_stable in Hne as ->. rewrite put_nil in Hput. by split_and!.
Qed.

Lemma xxh_digest_fed sd s m :
  xxh_fed sd s m -> Z.of_nat (length m) < 2 ^ 32 -> XXH32_digest s = XXH32 m sd.
Proof.
  intros (Hl & [_ E] & Hk & Hs & Ht) Hm. unfold XXH32_digest, XXH32_intermediateDigest_endian.
  rewrite Hk, Hs, Ht. rewrite (wrapu_small 64) by lia. rewrite (wrapu_small 32) by lia.
  unfold XXH32, XXH32_endian_align. rewrite E. destruct (decide (16 <= length m)%nat) as [H|H].
  - rewrite decide_True by lia. done.
  - rewrite decide_False by lia. rewrite eat_short in E by lia.
    apply (f_equal snd) in E. cbn [snd] in E. rewrite <- E. done.
Qed.

Definition xxh_of (garbage : list Z) (sd : Z) (ms : list (list Z)) : Z :=
  XXH32_digest (foldl XXH32_update (XXH32_init garbage sd) ms).

(** The streamed hash, whatever the pieces, is the one-shot hash of the whole. *)
Lemma xxh_streams garbage sd ms :
  length garbage = 16%nat -> Z.of_nat (length (concat ms)) < 2 ^ 32 ->
  xxh_of garbage sd ms = XXH32 (concat ms) sd.
Proof.
  intros Hg Hm. apply xxh_digest_fed; [|done]. unfold xxh_of. clear Hm.
  assert (H : forall s m, xxh_fed sd s m -> xxh_fed sd (foldl XXH32_update s ms) (m ++ concat ms)).
  { induction ms as [|d ms IH]; intros s m Hs; [by rewrite app_nil_r|]. cbn [foldl concat].
    rewrite app_assoc. by apply IH, xxh_update_fed. }
  apply (H _ []). by apply xxh_init_fed.
Qed.
End xxh.

(** ** Bloom filter *)

Section bloom.
Import Bloom.

(** Bit [h] of the filter. *)
Definition bit_of (m : list Z) (h : Z) : bool := Z.testbit (nth (Z.to_nat (h / 32)) m 0) (h mod 32).

(** Every position below [n] is inside the map. *)
Definition map_ok (n : Z) (m : list Z) : Prop := n <= 32 * Z.of_nat (length m).

Lemma land_bit w b : 0 <= b -> (Z.land w (Z.shiftl 1 b) <> 0) <-> Z.testbit w b = true.
Proof.
  intros Hb. rewrite Z.shiftl_1_l. split.
  - intros Hn. destruct (Z.testbit w b) eqn:E; [done|]. exfalso. apply Hn. apply Z.bits_inj'. intros i Hi.
    rewrite Z.land_spec, Z.bits_0, testbit_pow2 by done. case_bool_decide; [subst; by rewrite E|by rewrite andb_false_r].
  - intros Ht Hz. assert (Z.testbit (Z.land w (2 ^ b)) b = true).
    { rewrite Z.land_spec, Ht, testbit_pow2 by done. by rewrite bool_decide_true. }
    rewrite Hz, Z.bits_0 in H. done.
Qed.

Lemma bit_of_set m h h' :
  0 <= h -> 0 <= h' -> (Z.to_nat (h / 32) < length m)%nat ->
  bit_of (<[Z.to_nat (h / 32) := Z.lor (nth (Z.to_nat (h / 32)) m 0) (Z.shiftl 1 (h mod 32))]> m) h' =
  bit_of m h' || bool_decide (h' = h).
Proof.
  intros Hh Hh' Hl. unfold bit_of. rewrite nth_insert by done.
  pose proof (Z.mod_pos_bound h 32). pose proof (Z.mod_pos_bound h' 32).
  pose proof (Z.div_pos h 32). pose proof (Z.div_pos h' 32).
  pose proof (Z.div_mod h 32). pose proof (Z.div_mod h' 32).
  case_decide as E.
  - apply Z2Nat.inj in E; [|lia..]. rewrite Z.lor_spec, Z.shiftl_1_l, testbit_pow2 by lia. rewrite E.
    f_equal. apply bool_decide_ext. lia.
  - rewrite (bool_decide_false (h' = h)) by (intros ->; done). by rewrite orb_false_r.
Qed.

(** The loop: without [set] it stops at the first bit that is not set, with it all bits are set
    and those that were set before are counted. *)
Lemma check_loop_spec (set : bool) n hash : forall m k,
  map_ok n m -> Forall (fun h => 0 <= h < n) hash ->
  exists k' m', check_loop set hash m k = Some (k', m') /\ length m' = length m /\
    (k' <= k + length hash)%nat /\
    (k' = k + length hash <-> Forall (fun h => bit_of m h = true) hash)%nat /\
    (forall h', 0 <= h' -> bit_of m' h' = bit_of m h' || (set && bool_decide (h' ∈ hash))).
Proof.
  induction hash as [|h hash IH]; intros m k Hm Hh; cbn [check_loop].
  { exists k, m. split; [done|]. split; [done|]. split; [cbn; lia|]. split.
    - cbn [length]. split; [done|lia].
    - intros h' _. rewrite (bool_decide_false (h' ∈ [])) by set_solver. by rewrite andb_false_r, orb_false_r. }
  inversion_clear Hh as [|? ? Hr Hrest].
  assert (Hi : (Z.to_nat (h / 32) < length m)%nat).
  { unfold map_ok in Hm. pose proof (Z.div_lt_upper_bound h 32 (Z.of_nat (length m))). pose proof (Z.div_pos h 32). lia. }
  rewrite (nth_default_lookup m 0 _ Hi). cbn [mbind option_bind].
  change 31 with (Z.ones 5). rewrite Z.land_ones by lia. change (2 ^ 5) with 32.
  pose proof (Z.mod_pos_bound h 32). case_decide as Hb.
  - apply land_bit in Hb; [|lia]. destruct (IH m (S k) Hm Hrest) as (k' & m' & E & Hl & Hle & Hiff & Hbits).
    exists k', m'. split_and!; [done|done|cbn; lia| |].
    + rewrite Forall_cons. cbn [length]. rewrite <- Hiff. unfold bit_of at 1. rewrite Hb.
      split; [intros ->; split; [done|lia]|intros [_ ->]; lia].
    + intros h' H'. rewrite Hbits by done. destruct set; [|done]. cbn [andb].
      destruct (decide (h' = h)) as [->|Hne].
      * assert (bit_of m h = true) as -> by exact Hb. done.
      * do 2 f_equal. apply bool_decide_ext. set_solver.
  - assert (Hb' : Z.testbit (nth (Z.to_nat (h / 32)) m 0) (h mod 32) = false).
    { apply not_true_iff_false. intros Ht. revert Hb. by apply land_bit; [lia|]. }
    destruct set.
    + destruct (IH (<[Z.to_nat (h / 32) := Z.lor (nth (Z.to_nat (h / 32)) m 0) (Z.shiftl 1 (h mod 32))]> m) k)
        as (k' & m' & E & Hl & Hle & Hiff & Hbits); [unfold map_ok in *; by rewrite length_insert|done|].
      exists k', m'. rewrite E. split_and!; [done|by rewrite Hl, length_insert|cbn; lia| |].
      * rewrite Forall_cons. cbn [length]. split; [lia|]. intros [Ht _]. unfold bit_of in Ht. congruence.
      * intros h' H'. rewrite Hbits, bit_of_set by (done || lia). cbn [andb]. rewrite <- orb_assoc. f_equal.
        destruct (decide (h' = h)) as [->|Hne].
        -- rewrite (bool_decide_true (h = h)) by done. by rewrite (bool_decide_true (h ∈ h :: hash)) by set_solver.
        -- rewrite (bool_decide_false (h' = h)) by done. cbn. apply bool_decide_ext. set_solver.
    + exists k, m. split_and!; [done|done|lia| |].
      * rewrite Forall_cons. cbn [length]. split; [lia|]. intros [Ht _]. unfold bit_of in Ht. congruence.
      * intros h' _. by rewrite orb_false_r.
Qed.

Definition positions (n : Z) (data : list Z) : list Z := (fun '(fn, seed) => fn data seed mod n) <$> hashes.

Record filter_ok (b : bloom) : Prop := {
  fo_n : 0 < nentries b;
  fo_map : map_ok (nentries b) (map b)
}.

Lemma new_ok n b : 0 < n < 2 ^ 63 -> bloom_new true n = Some b -> filter_ok b /\ nentries b = n /\ forall h, bit_of (map b) h = false.
Proof.
  intros Hn E. injection E as <-. rewrite wrapu_small by lia. split; [split; cbn; [lia|]|split; [done|]].
  - unfold map_ok. rewrite length_replicate. pose proof (Z.div_mod (n + 31) 32). pose proof (Z.mod_pos_bound (n + 31) 32).
    pose proof (Z.div_pos (n + 31) 32). lia.
  - intros h. unfold bit_of. cbn [map]. by rewrite nth_replicate0, Z.bits_0.
Qed.

Lemma check_spec b data set :
  filter_ok b ->
  exists b', bloom_check b data set =
      Some (bool_decide (Forall (fun h => bit_of (map b) h = true) (positions (nentries b) data)), b') /\
    filter_ok b' /\ nentries b' = nentries b /\
    (forall h, 0 <= h -> bit_of (map b') h =
       bit_of (map b) h || (set && bool_decide (h ∈ positions (nentries b) data))).
Proof.
  intros [Hn Hm]. unfold bloom_check. rewrite decide_False by lia. fold (positions (nentries b) data).
  assert (Hp : Forall (fun h => 0 <= h < nentries b) (positions (nentries b) data)).
  { apply Forall_fmap, Forall_forall. intros [fn sd] _. cbn. apply Z.mod_pos_bound. lia. }
  destruct (check_loop_spec set (nentries b) _ (map b) 0 Hm Hp) as (k & m & E & Hl & _ & Hiff & Hbits).
  rewrite E. cbn [mbind option_bind]. eexists. split.
  { f_equal. f_equal. apply bool_decide_ext. exact Hiff. }
  split; [|done]. split; cbn [nentries map]; [done|]. unfold map_ok in *. by rewrite Hl.
Qed.
End bloom.

(** A filter that has been given the strings [ss]. *)
Fixpoint bloom_sets (b : Bloom.bloom) (ss : list (list Z)) : option Bloom.bloom :=
  match ss with
  | [] => Some b
  | s :: ss' => '(_, b) ← Bloom.bloom_string b s true; bloom_sets b ss'
  end.

Lemma sets_spec ss : forall b, filter_ok b ->
  exists b', bloom_sets b ss = Some b' /\ filter_ok b' /\ Bloom.nentries b' = Bloom.nentries b /\
    (forall h, 0 <= h -> bit_of (Bloom.map b') h =
      bit_of (Bloom.map b) h || bool_decide (h ∈ ss ≫= positions (Bloom.nentries b))).
Proof.
  induction ss as [|s ss IH]; intros b Hb; cbn [bloom_sets].
  { exists b. split_and!; try done. intros h _. by rewrite bool_decide_false, orb_false_r by set_solver. }
  destruct (check_spec b s true Hb) as (b1 & E & Hb1 & Hn & Hbits). unfold Bloom.bloom_string. rewrite E.
  cbn [mbind option_bind]. destruct (IH b1 Hb1) as (b' & E' & Hb' & Hn' & Hbits').
  exists b'. split_and!; [done|done|congruence|]. intros h Hh. rewrite Hbits', Hbits by done. rewrite Hn.
  rewrite <- orb_assoc. f_equal. cbn [andb]. rewrite bind_cons. rewrite <- bool_decide_or.
  apply bool_decide_ext. rewrite elem_of_app. done.
Qed.

Lemma bloom_sets_app ss ss' b b' :
  bloom_sets b ss = Some b' -> bloom_sets b (ss ++ ss') = bloom_sets b' ss'.
Proof.
  revert b. induction ss as [|s ss IH]; intros b E; cbn [bloom_sets app] in *; [by injection E as ->|].
  destruct (Bloom.bloom_string b s true) as [[x b1]|]; [|done]. cbn [mbind option_bind] in *. by apply IH.
Qed.

(** The filter never forgets: a string that was put in is found, by any later look-up and
    without changing the filter; adding a string reports whether all of its five
    bits were set already, so that a string that is reported new was not there. *)
Theorem bloom_no_false_negatives n ss s :
  0 < n < 2 ^ 63 ->
  exists b0 b, Bloom.bloom_new true n = Some b0 /\ bloom_sets b0 ss = Some b /\
    let hits := Forall (fun h => h ∈ ss ≫= positions n) (positions n s) in
    (exists b', Bloom.bloom_string b s false = Some (bool_decide hits, b') /\
      forall h, 0 <= h -> bit_of (Bloom.map b') h = bit_of (Bloom.map b) h) /\
    (exists b', Bloom.bloom_string b s true = Some (bool_decide hits, b') /\
      bloom_sets b0 (ss ++ [s]) = Some b') /\
    (s ∈ ss -> hits).
Proof.
  intros Hn. destruct (Bloom.bloom_new true n) as [b0|] eqn:E0; [|done]. exists b0.
  destruct (new_ok n b0 Hn E0) as (Hok & Hn0 & Hz). destruct (sets_spec ss b0 Hok) as (b & Eb & Hb & Hnb & Hbits).
  exists b. split; [done|]. split; [done|]. intros hits.
  assert (Hpos : Forall (fun h => 0 <= h) (positions n s)).
  { apply Forall_fmap, Forall_forall. intros [fn sd] _. cbn. apply Z.mod_pos_bound. lia. }
  assert (Hhits : Forall (fun h => bit_of (Bloom.map b) h = true) (positions (Bloom.nentries b) s) <-> hits).
  { rewrite Hnb, Hn0. unfold hits. rewrite !Forall_forall. rewrite Forall_forall in Hpos.
    split; intros H h Hh; specialize (H h Hh); specialize (Hpos h Hh).
    - rewrite Hbits, Hz, Hn0 in H by done. by apply bool_decide_eq_true in H.
    - rewrite Hbits, Hz, Hn0 by done. by apply bool_decide_eq_true. }
  split_and!.
  - destruct (check_spec b s false Hb) as (b' & E & _ & _ & H). exists b'. unfold Bloom.bloom_string. rewrite E.
    split; [f_equal; f_equal; by apply bool_decide_ext|]. intros h Hh. rewrite H by done. by rewrite orb_false_r.
  - destruct (check_spec b s true Hb) as (b' & E & _). exists b'. unfold Bloom.bloom_string. rewrite E.
    split; [f_equal; f_equal; by apply bool_decide_ext|].
    rewrite (bloom_sets_app ss [s] b0 b Eb). cbn [bloom_sets]. unfold Bloom.bloom_string. by rewrite E.
  - intros Hs. apply Forall_forall. intros h Hh. apply list_elem_of_bind. by exists s.
Qed.

Lemma bloom_no_false_negatives_witness :
  exists b0 b, Bloom.bloom_new true 1000 = Some b0 /\ bloom_sets b0 [[1; 2]; [3]] = Some b /\
    let hits := Forall (fun h => h ∈ [[1; 2]; [3]] ≫= positions 1000) (positions 1000 [3]) in
    (exists b', Bloom.bloom_string b [3] false = Some (bool_decide hits, b') /\
      forall h, 0 <= h -> bit_of (Bloom.map b') h = bit_of (Bloom.map b) h) /\
    (exists b', Bloom.bloom_string b [3] true = Some (bool_decide hits, b') /\
      bloom_sets b0 ([[1; 2]; [3]] ++ [[3]]) = Some b') /\
    ([3] ∈ [[1; 2]; [3]] -> hits).
Proof. apply (bloom_no_false_negatives 1000 [[1; 2]; [3]] [3]). lia. Defined.

(** ** What [jhash] does not see *)

(** All but the last block of twelve bytes contribute three bytes each: keys that agree on
    those have the same value. *)
Lemma jhash_ignores pre blk blk' post seed :
  (length pre mod 12 = 0)%nat -> length blk = 12%nat -> length blk' = 12%nat -> post <> [] ->
  (forall i, i ∈ [0; 4; 8]%nat -> at0 blk i = at0 blk' i) ->
  Jhash.jhash (pre ++ blk ++ post) seed = Jhash.jhash (pre ++ blk' ++ post) seed.
Proof.
  intros Hpre Hb Hb' Hpost Heq. unfold Jhash.jhash.
  replace (length (pre ++ blk' ++ post)) with (length (pre ++ blk ++ post)) by len.
  set (a := u32 _). generalize (a, a, a) as r. clear a. intros r.
  enough (E : Jhash.jhash_loop (length (pre ++ blk ++ post)) r (pre ++ blk ++ post) =
              Jhash.jhash_loop (length (pre ++ blk ++ post)) r (pre ++ blk' ++ post)) by (rewrite E; done).
  assert (Hp : (0 < length post)%nat) by (destruct post; [done|cbn; lia]).
  assert (G : forall n q r, length q = (12 * n)%nat -> forall fuel, (length (q ++ blk ++ post) <= fuel)%nat ->
    Jhash.jhash_loop fuel r (q ++ blk ++ post) = Jhash.jhash_loop fuel r (q ++ blk' ++ post)).
  { induction n as [|n IH]; intros q r0 Hq fuel Hf; (destruct fuel as [|fuel]; [revert Hf; len|]).
    - destruct q; [|done]. cbn [app Jhash.jhash_loop]. rewrite !decide_True by len.
      rewrite !drop_app_length' by lia. f_equal. unfold Jhash.jhash_block. destruct r0 as [[x y] z].
      do 8 (destruct blk as [|? blk]; [done|]). do 8 (destruct blk' as [|? blk']; [done|]).
      destruct blk as [|? blk]; [done|]. destruct blk' as [|? blk']; [done|].
      pose proof (Heq 0%nat ltac:(set_solver)). pose proof (Heq 4%nat ltac:(set_solver)).
      pose proof (Heq 8%nat ltac:(set_solver)). unfold at0 in *. cbn in *. by subst.
    - cbn [Jhash.jhash_loop]. rewrite !decide_True by len.
      assert (Ht : forall b, Jhash.jhash_block r0 (q ++ b ++ post) = Jhash.jhash_block r0 q).
      { intros b. unfold Jhash.jhash_block, at0. by rewrite !app_nth1 by lia. }
      rewrite !Ht, !(drop_app_le q) by lia. apply IH; len. revert Hf. len. }
  apply (G (length pre / 12)%nat); [|done]. pose proof (Nat.div_mod_eq (length pre) 12). lia.
Qed.
