(* ===== verification/Pattern.v ===== *)
(** * Buffer patterns (src/fio/lib/pattern.c, rand.c)

    How fio fills a buffer with a repeated pattern, pastes block offsets into it,
    and compares a buffer with a pattern without a loop over its bytes; and the
    buffers that are partly random and partly pattern.  A C pointer and length
    is a list of bytes; results are errno values, 0 for success. *)

From S2P Require Import Prelude Bits Rand Stream.

Open Scope Z_scope.

Definition EINVAL : Z := 22.
Definition EILSEQ : Z := 84.

(** ** Filling *)

(** [while (left)] of [dup_pattern]: what has been filled is copied behind itself. *)
Fixpoint dup_loop (fuel : nat) (out : list Z) (left off len : nat) : list Z :=
  match fuel with
  | O => out
  | S fuel' =>
      if decide (left = O) then out
      else
        let out := put out off (take len out) in
        let left := (left - len)%nat in
        let off := (2 * off)%nat in
        dup_loop fuel' out left off (Nat.min left off)
  end.

Definition dup_pattern (out : list Z) (pattern_len : nat) : list Z :=
  let out_len := length out in
  if decide (out_len <= pattern_len)%nat then out
  else
    let off := pattern_len in
    let left := (out_len - off)%nat in
    dup_loop left out left off (Nat.min left off).

Definition cpy_pattern (pattern out : list Z) : Z * list Z :=
  if decide (pattern = [] \/ out = []) then (- EINVAL, out)
  else
    let len := Nat.min (length pattern) (length out) in
    let out := put out 0 (take len pattern) in
    (0, dup_pattern out (length pattern)).

(** ** Comparing *)

(** [memcmp(a, b, n) == 0] *)
Definition same (n : nat) (a b : list Z) : bool := bool_decide (take n a = take n b).

Definition cmp_pattern (pattern : list Z) (off : nat) (buf : list Z) : Z :=
  let pattern_size := length pattern in
  let len := length buf in
  if negb (implb (bool_decide (pattern_size < len)%nat)
                 (same (len - pattern_size) buf (drop pattern_size buf))) then - EILSEQ
  else
    let size := if decide (off <> O) then Nat.min len (pattern_size - off) else O in
    if negb (same size buf (drop off pattern)) then - EILSEQ
    else
      let buf := drop size buf in
      let len := (len - size)%nat in
      let size := Nat.min len (if decide (off <> O) then off else pattern_size) in
      if negb (same size buf pattern) then - EILSEQ else 0.

(** ** Pasting formats *)

(** The only format is [%o]: the offset of the unit, in [len] bytes at most; [off] is its place in
    the pattern. *)
Record pattern_fmt := Fmt { fmt_off : nat; desc_len : nat }.

Definition paste_blockoff (offset : Z) (len : nat) : list Z := take (Nat.min len 8) (word_bytes 8 offset).

Fixpoint paste_loop (pattern : list Z) (fmt : list pattern_fmt) (offset : Z) : list Z :=
  match fmt with
  | [] => pattern
  | f :: fmt' =>
      if decide (length pattern <= fmt_off f)%nat then pattern
      else
        let len := Nat.min (length pattern - fmt_off f) (desc_len f) in
        paste_loop (put pattern (fmt_off f) (paste_blockoff offset len)) fmt' offset
  end.

(** The array of formats is a part of the options and always there. *)
Definition paste_format_inplace (pattern : list Z) (fmt : list pattern_fmt) (offset : Z) : Z * list Z :=
  if decide (pattern = []) then (- EINVAL, pattern) else (0, paste_loop pattern fmt offset).

Definition paste_format (pattern : list Z) (fmt : list pattern_fmt) (offset : Z) (out : list Z) : Z * list Z :=
  if decide (pattern = [] \/ out = []) then (- EINVAL, out)
  else
    let len := Nat.min (length pattern) (length out) in
    let out := put out 0 (take len pattern) in
    let '(rc, head) := paste_format_inplace (take len out) fmt offset in
    let out := put out 0 head in
    if decide (rc <> 0) then (rc, out) else (0, dup_pattern out (length pattern)).

(** ** Buffers with a given share of pattern *)

(** The bytes that are not random: the pattern, or zeros without one. *)
Definition fill_rest (pattern : list Z) (n : nat) : list Z :=
  if decide (pattern = []) then replicate n 0 else (cpy_pattern pattern (replicate n 0)).2.

(** One round of the loop writes [this_len] random bytes and a stretch of pattern. *)
Fixpoint percentage_loop (fuel : nat) (seed : Z) (percentage : Z) (segment len : nat) (pattern : list Z)
  : list Z :=
  match fuel with
  | O => []
  | S fuel' =>
      if decide (len = O) then []
      else
        let this_len := Z.to_nat (u32 (u64 (Z.of_nat segment * u32 (100 - percentage)) / 100)) in
        let rnd := Nat.min this_len len in
        let left := (len - rnd)%nat in
        fill_random_buf_ rnd seed ++
        (if decide (left = O) then []
         else
           let pat := u32 (Z.of_nat segment - Z.of_nat rnd) in
           let pat := if decide (Z.of_nat left < pat) then left
                      else if decide (Z.of_nat left - pat <= 8) then left else Z.to_nat pat in
           fill_rest pattern pat ++
           percentage_loop fuel' seed percentage segment (left - pat) pattern)
  end.

(** A fresh buffer; what was in it before does not matter. *)
Definition fill_random_buf_percentage_ (seed : Z) (percentage : Z) (segment len : nat) (pattern : list Z)
  : list Z :=
  if decide (percentage = 100) then fill_rest pattern len
  else percentage_loop len seed percentage (Nat.min segment len) len pattern.

Definition fill_random_buf_percentage (fs : frand_state) (percentage : Z) (segment len : nat) (pattern : list Z)
  : Z * list Z * frand_state :=
  let '(r, fs) := get_next_seed fs in
  (r, fill_random_buf_percentage_ r percentage segment len pattern, fs).

(** ** What a repeated pattern is *)

(** [n] bytes of the pattern repeated, from position [off] on. *)
Definition tile (pattern : list Z) (off n : nat) : list Z :=
  (fun i => nth ((off + i) mod length pattern) pattern 0) <$> seq 0 n.

Lemma length_tile p off n : length (tile p off n) = n.
Proof. unfold tile. len. Qed.
#[export] Hint Rewrite length_tile length_put : len.

Lemma nth_tile p off n i : (i < n)%nat -> nth i (tile p off n) 0 = nth ((off + i) mod length p) p 0.
Proof.
  intros Hi. unfold tile. rewrite nth_lookup, list_lookup_fmap, lookup_seq_lt by done. done.
Qed.

Lemma nth_ext_eq (a b : list Z) :
  length a = length b -> (forall i, (i < length a)%nat -> nth i a 0 = nth i b 0) -> a = b.
Proof. intros Hl H. by apply (nth_ext a b 0 0). Qed.

Lemma nth_take (l : list Z) n i : (i < n)%nat -> nth i (take n l) 0 = nth i l 0.
Proof. intros Hi. by rewrite !nth_lookup, lookup_take_lt. Qed.

Lemma take_eq_iff n (a b : list Z) :
  (n <= length a)%nat -> (n <= length b)%nat ->
  take n a = take n b <-> forall i, (i < n)%nat -> nth i a 0 = nth i b 0.
Proof.
  intros Ha Hb. split; intros H.
  - intros i Hi. rewrite <- (nth_take a n), <- (nth_take b n) by done. by rewrite H.
  - apply nth_ext_eq; [len|]. intros i. rewrite length_take. intros Hi. rewrite !nth_take by lia. apply H. lia.
Qed.

Lemma same_iff n a b :
  (n <= length a)%nat -> (n <= length b)%nat ->
  same n a b = true <-> forall i, (i < n)%nat -> nth i a 0 = nth i b 0.
Proof. intros Ha Hb. unfold same. rewrite bool_decide_eq_true. by apply take_eq_iff. Qed.

(** A stretch of whole patterns repeats itself. *)
Lemma tile_double p off len :
  p <> [] -> (off mod length p = 0)%nat -> (len <= off)%nat ->
  tile p 0 (off + len) = tile p 0 off ++ take len (tile p 0 off).
Proof.
  intros Hp Hoff Hl. apply nth_ext_eq; [len|]. rewrite length_tile. intros i Hi. rewrite nth_tile by done.
  destruct (decide (i < off)%nat) as [H|H].
  - rewrite app_nth1 by len. by rewrite nth_tile.
  - rewrite app_nth2 by len. rewrite length_tile, nth_take, nth_tile by lia. f_equal. cbn [Nat.add].
    replace i with (off + (i - off))%nat at 1 by lia. rewrite <- Nat.Div0.add_mod_idemp_l, Hoff. done.
Qed.

Lemma dup_loop_tiles p fuel : forall out left off,
  p <> [] -> (off mod length p = 0)%nat -> (0 < off)%nat -> (left <= fuel)%nat ->
  length out = (off + left)%nat -> take off out = tile p 0 off ->
  dup_loop fuel out left off (Nat.min left off) = tile p 0 (off + left).
Proof.
  induction fuel as [|fuel IH]; intros out left off Hp Hoff H0 Hf Hl Ht.
  - assert (left = O) as -> by lia. rewrite Nat.add_0_r in *. cbn [dup_loop]. rewrite <- Ht. by rewrite take_ge by lia.
  - cbn [dup_loop]. case_decide as E.
    + subst. rewrite Nat.add_0_r in *. rewrite <- Ht. by rewrite take_ge by lia.
    + set (len := Nat.min left off).
      assert (Et : take (off + len) (put out off (take len out)) = tile p 0 (off + len)).
      { replace len with (length (take len out)) at 1 by len. rewrite take_put by lia. rewrite Ht.
        rewrite tile_double by (done || lia). f_equal. rewrite <- Ht, take_take. f_equal. lia. }
      assert (Hl' : length (put out off (take len out)) = (off + left)%nat) by (rewrite length_put; len).
      destruct (decide (left <= off)%nat) as [Hlo|Hlo].
      * replace (left - len)%nat with O by lia. replace len with left in * by lia.
        rewrite take_ge in Et by lia. rewrite <- Et. by destruct fuel.
      * replace len with off in * by lia. rewrite IH; [f_equal; lia|done| |lia|lia|lia|].
        -- replace (2 * off)%nat with (off + off)%nat by lia. by rewrite Nat.Div0.add_mod, Hoff, Nat.Div0.mod_0_l.
        -- replace (2 * off)%nat with (off + off)%nat by lia. done.
Qed.

Lemma dup_pattern_tiles p out :
  p <> [] -> (length p <= length out)%nat -> take (length p) out = p -> dup_pattern out (length p) = tile p 0 (length out).
Proof.
  intros Hp Hl Ht. assert (H0 : (0 < length p)%nat) by (destruct p; [done|cbn; lia]).
  assert (E : take (length p) out = tile p 0 (length p)).
  { rewrite Ht. apply nth_ext_eq; [len|]. intros i Hi. rewrite nth_tile by done. by rewrite Nat.mod_small. }
  unfold dup_pattern. case_decide as Hs.
  - replace (length out) with (length p) by lia. rewrite <- E, take_ge by lia. done.
  - rewrite (dup_loop_tiles p); [f_equal; lia|done|apply Nat.Div0.mod_same|done|lia|lia|done].
Qed.

(** The doubling copy is the pattern repeated. *)
Lemma cpy_pattern_tiles p out : p <> [] -> out <> [] -> cpy_pattern p out = (0, tile p 0 (length out)).
Proof.
  intros Hp Ho. unfold cpy_pattern. rewrite decide_False by tauto.
  assert (H0 : (0 < length p)%nat) by (destruct p; [done|cbn; lia]). f_equal.
  set (len := Nat.min _ _). set (out1 := put out 0 (take len p)).
  assert (Hl : length out1 = length out) by (unfold out1; rewrite length_put; len).
  assert (Et : take len out1 = take len p).
  { unfold out1. replace len with (0 + length (take len p))%nat at 1 by len. by rewrite take_put by lia. }
  destruct (decide (length p <= length out)%nat) as [H|H].
  - rewrite <- Hl. apply dup_pattern_tiles; [done|lia|]. replace len with (length p) in Et by lia. by rewrite Et, firstn_all.
  - unfold dup_pattern. rewrite decide_True by lia. replace len with (length out) in Et by lia.
    rewrite take_ge in Et by lia. rewrite Et. apply nth_ext_eq; [len|]. intros i. autorewrite with len. intros Hi.
    rewrite nth_take, nth_tile by lia. by rewrite Nat.mod_small by lia.
Qed.

(** ** Buffer patterns: proofs

    The copy that doubles and the comparison without a loop against the plain
    meaning of a repeated pattern. *)

Lemma nth_drop0 (l : list Z) k i : nth i (drop k l) 0 = nth (k + i) l 0.
Proof. apply nth_app_drop. Qed.

Lemma mod_wrap a b n : (0 < n -> b < n -> n <= a + b -> a < n -> (a + b) mod n = a + b - n)%nat.
Proof.
  intros Hn Hb Hge Ha. replace (a + b)%nat with (a + b - n + 1 * n)%nat at 1 by lia.
  rewrite Nat.Div0.mod_add. apply Nat.mod_small. lia.
Qed.

(** The comparison: the buffer repeats itself with the period of the pattern, and its first period
    is the pattern rotated by [off]. *)
Lemma cmp_pattern_sound p off buf :
  (off < length p)%nat -> cmp_pattern p off buf = 0 -> buf = tile p off (length buf).
Proof.
  intros Hoff. unfold cmp_pattern. set (ps := length p) in *. assert (Eps : ps = length p) by done.
  destruct (implb _ _) eqn:E1; cbn [negb]; [|done].
  set (size := if decide (off <> O) then Nat.min (length buf) (ps - off) else O).
  destruct (same size buf (drop off p)) eqn:E2; cbn [negb]; [|done].
  set (size' := Nat.min (length buf - size) (if decide (off <> O) then off else ps)). destruct (same size' _ _) eqn:E3; cbn [negb]; [intros _|done].
  assert (Hs : (size <= length buf /\ size <= ps - off)%nat) by (unfold size; destruct (decide (off <> O)); lia).
  assert (Hfirst : forall i, (i < Nat.min (length buf) ps)%nat -> nth i buf 0 = nth ((off + i) mod ps) p 0).
  { rewrite same_iff in E2 by (rewrite ?length_drop; lia).
    rewrite same_iff in E3 by (rewrite ?length_drop; unfold size'; destruct (decide (off <> O)); lia).
    intros i Hi. destruct (decide (i < size)%nat) as [H|H].
    - rewrite E2, nth_drop0 by done. by rewrite Nat.mod_small by lia.
    - assert (Hi' : (i - size < size')%nat) by (unfold size', size in *; destruct (decide (off <> O)); lia).
      specialize (E3 _ Hi'). rewrite nth_drop0 in E3. replace (size + (i - size))%nat with i in E3 by lia.
      rewrite E3. f_equal. unfold size in *. destruct (decide (off <> O)) as [Ho|Ho].
      + rewrite mod_wrap by lia. lia.
      + rewrite Nat.mod_small by lia. lia. }
  apply nth_ext_eq; [by rewrite length_tile|]. intros i. induction i as [i IH] using lt_wf_ind. intros Hi.
  rewrite nth_tile by done. fold ps. destruct (decide (i < ps)%nat) as [H|H]; [apply Hfirst; lia|].
  assert (Hper : nth (i - ps) buf 0 = nth i buf 0).
  { rewrite bool_decide_true in E1 by lia. cbn [implb] in E1.
    rewrite same_iff in E1 by (rewrite ?length_drop; lia). rewrite (E1 (i - ps)%nat) by lia.
    rewrite nth_drop0. f_equal. lia. }
  rewrite <- Hper, IH by lia. rewrite nth_tile by lia. fold ps. f_equal.
  replace (off + i)%nat with (off + (i - ps) + 1 * ps)%nat by lia. by rewrite Nat.Div0.mod_add.
Qed.

Lemma cmp_pattern_complete p off buf :
  (off < length p)%nat -> buf = tile p off (length buf) -> cmp_pattern p off buf = 0.
Proof.
  intros Hoff Hb. set (ps := length p) in *. assert (Eps : ps = length p) by done.
  assert (Hnth : forall i, (i < length buf)%nat -> nth i buf 0 = nth ((off + i) mod ps) p 0).
  { intros i Hi. rewrite Hb at 1. by rewrite nth_tile. }
  clear Hb. unfold cmp_pattern. fold ps.
  assert (E1 : implb (bool_decide (ps < length buf)%nat) (same (length buf - ps) buf (drop ps buf)) = true).
  { case_bool_decide as H; [|done]. cbn [implb]. apply same_iff; [lia|rewrite length_drop; lia|].
    intros i Hi. rewrite nth_drop0, !Hnth by lia. f_equal.
    replace (off + (ps + i))%nat with (off + i + 1 * ps)%nat by lia. by rewrite Nat.Div0.mod_add. }
  rewrite E1. cbn [negb]. set (size := if decide (off <> O) then Nat.min (length buf) (ps - off) else O).
  assert (Hs : (size <= length buf /\ size <= ps - off)%nat) by (unfold size; destruct (decide (off <> O)); lia).
  assert (E2 : same size buf (drop off p) = true).
  { apply same_iff; [lia|rewrite length_drop; lia|]. intros i Hi. rewrite nth_drop0, Hnth by lia.
    by rewrite Nat.mod_small by lia. }
  rewrite E2. cbn [negb]. set (size' := Nat.min (length buf - size) (if decide (off <> O) then off else ps)).
  assert (E3 : same size' (drop size buf) p = true).
  { apply same_iff; [rewrite length_drop; lia|unfold size'; destruct (decide (off <> O)); lia|]. intros i Hi.
    rewrite nth_drop0, Hnth by lia. f_equal. unfold size', size in *. destruct (decide (off <> O)) as [Ho|Ho].
    - assert (Nat.min (length buf) (ps - off) = ps - off)%nat by lia. rewrite mod_wrap by lia. lia.
    - rewrite Nat.mod_small by lia. lia. }
  by rewrite E3.
Qed.

Lemma cmp_pattern_iff p off buf :
  (off < length p)%nat -> cmp_pattern p off buf = 0 <-> buf = tile p off (length buf).
Proof. intros H. split; [by apply cmp_pattern_sound|by apply cmp_pattern_complete]. Qed.

(** ** Pasted formats *)

Lemma length_paste_blockoff offset n : (n <= 8)%nat -> length (paste_blockoff offset n) = n.
Proof. intros Hn. unfold paste_blockoff. rewrite length_take, length_word_bytes. lia. Qed.

Lemma length_paste_loop fmt offset : forall p, Forall (fun f => (desc_len f <= 8)%nat) fmt ->
  length (paste_loop p fmt offset) = length p.
Proof.
  induction fmt as [|f fmt IH]; intros p Hf; [done|]. cbn [paste_loop]. case_decide; [done|].
  inversion_clear Hf as [|? ? H1 H2]. rewrite IH by done. apply length_put.
  rewrite length_paste_blockoff by lia. lia.
Qed.

(** A buffer that holds at least one whole pattern: the pattern with the offset pasted in,
    repeated. *)
Lemma paste_format_tiles p fmt offset out :
  p <> [] -> (length p <= length out)%nat -> Forall (fun f => (desc_len f <= 8)%nat) fmt ->
  paste_format p fmt offset out = (0, tile (paste_loop p fmt offset) 0 (length out)).
Proof.
  intros Hp Hl Hf. assert (H0 : (0 < length p)%nat) by (destruct p; [done|cbn; lia]).
  unfold paste_format. rewrite decide_False by (intros [?| ->]; [done|cbn in *; lia]).
  rewrite Nat.min_l by lia. rewrite firstn_all. set (out1 := put out 0 p).
  assert (Hl1 : length out1 = length out) by (unfold out1; apply length_put; lia).
  assert (Et : take (length p) out1 = p) by (unfold out1; change (length p) with (0 + length p)%nat; by rewrite take_put by lia).
  rewrite Et. unfold paste_format_inplace. rewrite (decide_False (P := p = [])) by done.
  rewrite decide_False by (intros H; by apply H). f_equal.
  set (q := paste_loop p fmt offset). assert (Hq : length q = length p) by (by apply length_paste_loop).
  rewrite <- Hq. rewrite <- Hl1, <- (length_put out1 0 q) by lia. apply dup_pattern_tiles.
  - intros E. rewrite E in Hq. cbn in Hq. lia.
  - rewrite length_put; lia.
  - change (length q) with (0 + length q)%nat. by rewrite take_put by lia.
Qed.

(** C21: Filling doubles what is already there, and comparing looks only at shifted copies; both
    are nevertheless exactly the repeated pattern: every byte of a filled buffer
    is the byte of the pattern at its position modulo the pattern's length, and
    the comparison succeeds if and only if that holds from position [off] on. *)
Theorem pattern_exact p off buf out :
  (off < length p)%nat -> out <> [] ->
  cpy_pattern p out = (0, tile p 0 (length out)) /\
  (cmp_pattern p off buf = 0 <-> forall i, (i < length buf)%nat -> nth i buf 0 = nth ((off + i) mod length p) p 0).
Proof.
  intros Hoff Ho. split.
  - apply cpy_pattern_tiles; [|done]. intros ->. cbn in Hoff. lia.
  - rewrite cmp_pattern_iff by done. split.
    + intros -> i. rewrite length_tile. intros Hi. by apply nth_tile.
    + intros H. apply nth_ext_eq; [by rewrite length_tile|]. intros i Hi. rewrite H by done. by rewrite nth_tile.
Qed.

Lemma pattern_exact_witness :
  cpy_pattern [1; 2; 3] (replicate 8 0) = (0, tile [1; 2; 3] 0 8) /\
  (cmp_pattern [1; 2; 3] 2 [3; 1; 2; 3] = 0 <->
   forall i, (i < 4)%nat -> nth i [3; 1; 2; 3] 0 = nth ((2 + i) mod 3) [1; 2; 3] 0).
Proof. apply (pattern_exact [1; 2; 3] 2 [3; 1; 2; 3] (replicate 8 0)); [cbn; lia|discriminate]. Defined.

Example fill_and_compare :
  cpy_pattern [1; 2; 3] (replicate 8 0) = (0, [1; 2; 3; 1; 2; 3; 1; 2]) /\
  cmp_pattern [1; 2; 3] 2 [3; 1; 2; 3; 1] = 0 /\ cmp_pattern [1; 2; 3] 2 [3; 1; 2; 3; 2] = - EILSEQ.
Proof. vm_compute. auto. Qed.
