(* ===== verification/Verify.v ===== *)
(** * Data verification (src/fio/verify.c)

    Before a block is written it gets a header, which is protected by a CRC of its
    own, and behind it a checksum of the data; when it is read back both are
    checked.  A unit's buffer is a list of bytes; the pointer into it is the
    list from there on.  [None] is an assertion that fails, an access outside
    the buffer, or a copy between overlapping areas.

    What the hardware-assisted CRC-32C computes is [crc32c_sw].  [stack] and
    [heap] are what uninitialised memory happens to hold. *)

From S2P Require Import Prelude Bits Stream Rand Crc Digest DigestSpec Hash Pattern.

Open Scope Z_scope.

Inductive vtype :=
  | VERIFY_NONE | VERIFY_HDR_ONLY | VERIFY_MD5 | VERIFY_CRC64 | VERIFY_CRC32 | VERIFY_CRC32C
  | VERIFY_CRC32C_INTEL | VERIFY_CRC16 | VERIFY_CRC7 | VERIFY_SHA256 | VERIFY_SHA512
  | VERIFY_SHA3_224 | VERIFY_SHA3_256 | VERIFY_SHA3_384 | VERIFY_SHA3_512 | VERIFY_XXHASH
  | VERIFY_SHA1 | VERIFY_PATTERN | VERIFY_PATTERN_NO_HDR | VERIFY_NULL.

#[export] Instance vtype_eq_dec : EqDecision vtype.
Proof. solve_decision. Defined.

Definition vtypes : list vtype :=
  [VERIFY_NONE; VERIFY_HDR_ONLY; VERIFY_MD5; VERIFY_CRC64; VERIFY_CRC32; VERIFY_CRC32C;
   VERIFY_CRC32C_INTEL; VERIFY_CRC16; VERIFY_CRC7; VERIFY_SHA256; VERIFY_SHA512; VERIFY_SHA3_224;
   VERIFY_SHA3_256; VERIFY_SHA3_384; VERIFY_SHA3_512; VERIFY_XXHASH; VERIFY_SHA1; VERIFY_PATTERN;
   VERIFY_PATTERN_NO_HDR; VERIFY_NULL].

(** The numbers of the enumeration. *)
Fixpoint index_of (t : vtype) (l : list vtype) : nat :=
  match l with [] => O | x :: l' => if decide (t = x) then O else S (index_of t l') end.
Definition code_of (t : vtype) : Z := Z.of_nat (index_of t vtypes).
Definition of_code (c : Z) : option vtype := if decide (0 <= c) then vtypes !! Z.to_nat c else None.

Definition FIO_HDR_MAGIC : Z := 0xacca.

Record vopts := VOpts {
  verify : vtype;
  verify_interval : nat;
  o_verify_offset : nat;
  bs_unaligned : bool;
  verify_fatal : bool;
  verify_only : bool;
  time_based : bool;
  trim_zero : bool;
  verify_pattern : list Z;
  verify_fmt : list pattern_fmt;
  compress_percentage : Z;
  buffer_pattern : list Z;
  fake_io : bool;           (* the engine has FIO_FAKEIO *)
  td_write : bool;
  td_rw : bool;
  ver_backlog : bool;       (* TD_F_VER_BACKLOG *)
  fixed_bs : bool;          (* td_min_bs == td_max_bs *)
  thread_number : Z
}.

Record io_u := IoU {
  buf : list Z;
  offset : Z;
  verify_offset : Z;
  rand_seed : Z;
  numberio : Z;
  start_sec : Z;
  start_nsec : Z;
  buf_filled_len : nat;
  trimmed : bool;
  is_read : bool
}.

Definition set_buf (u : io_u) (b : list Z) : io_u :=
  IoU b (offset u) (verify_offset u) (rand_seed u) (numberio u) (start_sec u) (start_nsec u)
      (buf_filled_len u) (trimmed u) (is_read u).
Definition set_seed (u : io_u) (s : Z) : io_u :=
  IoU (buf u) (offset u) (verify_offset u) s (numberio u) (start_sec u) (start_nsec u)
      (buf_filled_len u) (trimmed u) (is_read u).
Definition set_filled (u : io_u) (n : nat) : io_u :=
  IoU (buf u) (offset u) (verify_offset u) (rand_seed u) (numberio u) (start_sec u) (start_nsec u)
      n (trimmed u) (is_read u).
Definition set_numberio (u : io_u) (n : Z) : io_u :=
  IoU (buf u) (offset u) (verify_offset u) (rand_seed u) n (start_sec u) (start_nsec u)
      (buf_filled_len u) (trimmed u) (is_read u).

(** ** Sizes *)

Definition HDR : nat := 40.      (* sizeof(struct verify_header) *)
Definition CRC_OFF : nat := 36.  (* offsetof(struct verify_header, crc32) *)

(** The size of the checksum behind the header. *)
Definition vhdr_size (t : vtype) : nat :=
  match t with
  | VERIFY_NONE | VERIFY_HDR_ONLY | VERIFY_NULL | VERIFY_PATTERN | VERIFY_PATTERN_NO_HDR => 0
  | VERIFY_MD5 => 16
  | VERIFY_CRC64 => 8
  | VERIFY_CRC32C | VERIFY_CRC32 | VERIFY_CRC32C_INTEL => 4
  | VERIFY_CRC16 => 2
  | VERIFY_CRC7 => 1
  | VERIFY_SHA256 => 64
  | VERIFY_SHA512 => 128
  | VERIFY_SHA3_224 => 28
  | VERIFY_SHA3_256 => 32
  | VERIFY_SHA3_384 => 48
  | VERIFY_SHA3_512 => 64
  | VERIFY_XXHASH => 4
  | VERIFY_SHA1 => 20
  end.

Definition hdr_size_ (t : vtype) : nat :=
  match t with VERIFY_PATTERN_NO_HDR => 0 | _ => (vhdr_size t + HDR)%nat end.

(** [verify_type] comes from the header in the buffer; an unknown one fails an assertion. *)
Definition hdr_size (o : vopts) (verify_type : Z) : option nat :=
  if decide (verify o = VERIFY_PATTERN_NO_HDR) then Some 0%nat
  else option_map hdr_size_ (of_code verify_type).

Definition get_hdr_inc (o : vopts) (u : io_u) : nat :=
  let hdr_inc := length (buf u) in
  if decide (verify_interval o <> O /\ (verify_interval o <= length (buf u))%nat /\ bs_unaligned o = false)
  then verify_interval o else hdr_inc.

(** ** Filling the buffer *)

Definition fill_buffer_ (o : vopts) (seed : Z) (len : nat) : list Z :=
  fill_random_buf_percentage_ seed (compress_percentage o) len len (buffer_pattern o).

Definition fill_verify_pattern (o : vopts) (vs : frand_state) (u : io_u) (seed : Z) (use_seed : bool)
  : io_u * frand_state :=
  let len := length (buf u) in
  if decide (verify_pattern o = []) then
    let '(seed, vs) := if use_seed then (seed, vs) else get_next_seed vs in
    (set_buf (set_seed u seed) (fill_buffer_ o seed len), vs)
  else if decide (verify_fmt o = [] /\ (len <= buf_filled_len u)%nat) then (u, vs)
  else
    let '(_, b) := paste_format (verify_pattern o) (verify_fmt o) (offset u) (buf u) in
    (set_filled (set_buf u b) len, vs).

(** ** The header *)

Definition field (off k : nat) (hdr : list Z) : Z := le_word (take k (drop off hdr)).

Definition hdr_magic (h : list Z) : Z := field 0 2 h.
Definition hdr_verify_type (h : list Z) : Z := field 2 2 h.
Definition hdr_len (h : list Z) : Z := field 4 4 h.
Definition hdr_rand_seed (h : list Z) : Z := field 8 8 h.
Definition hdr_offset (h : list Z) : Z := field 16 8 h.
Definition hdr_numberio (h : list Z) : Z := field 34 2 h.
Definition hdr_crc32 (h : list Z) : Z := field 36 4 h.

Definition block_offset (o : vopts) (u : io_u) (num : nat) : Z :=
  u64 (verify_offset u + u32 (Z.of_nat num * Z.of_nat (verify_interval o))).

Definition fill_hdr_ (o : vopts) (u : io_u) (num header_len : nat) (seed : Z) : list Z :=
  let h := word_bytes 2 FIO_HDR_MAGIC ++ word_bytes 2 (code_of (verify o)) ++
           word_bytes 4 (Z.of_nat header_len) ++ word_bytes 8 seed ++
           word_bytes 8 (block_offset o u num) ++ word_bytes 4 (start_sec u) ++
           word_bytes 4 (start_nsec u) ++ word_bytes 2 (thread_number o) ++ word_bytes 2 (numberio u) in
  h ++ word_bytes 4 (crc32c_sw h).

Definition fill_hdr (o : vopts) (u : io_u) (p : list Z) (num header_len : nat) (seed : Z) : option (list Z) :=
  if decide (verify o = VERIFY_PATTERN_NO_HDR) then Some p
  else if decide (HDR <= length p)%nat then Some (put p 0 (fill_hdr_ o u num header_len seed)) else None.

(** ** Checksums *)

(** Contexts as the initialisers in the source leave them. *)
Definition fill_md5 (data : list Z) : list Z := md5_of (Md5.Ctx [] (zeros_ 64) 0) [data] ≫= word_bytes 4.
Definition fill_sha1 (data : list Z) : list Z := sha1_of (Sha1.Ctx [] (zeros_ 64) 0) [data] ≫= word_bytes 4.
Definition fill_sha256 (mem data : list Z) : list Z := sha256_of (Sha256.Ctx 0 [] mem) [data].
Definition fill_sha512 (mem data : list Z) : list Z :=
  Sha512.buf (Sha512.fio_sha512_update (Sha512.fio_sha512_init (Sha512.Ctx [] [] mem)) data).
Definition fill_sha3_224 (data : list Z) : list Z := sha3_of 28 [data].
Definition fill_sha3_256 (data : list Z) : list Z := sha3_of 32 [data].
Definition fill_sha3_384 (data : list Z) : list Z := sha3_of 48 [data].
Definition fill_sha3_512 (data : list Z) : list Z := sha3_of 64 [data].
Definition fill_xxhash (heap data : list Z) : list Z :=
  word_bytes 4 (Xxh.XXH32_digest (Xxh.XXH32_update (Xxh.XXH32_init heap 1) data)).
Definition fill_crc7 (data : list Z) : list Z := word_bytes 1 (fio_crc7 data).
Definition fill_crc16 (data : list Z) : list Z := word_bytes 2 (fio_crc16 data).
Definition fill_crc32 (data : list Z) : list Z := word_bytes 4 (fio_crc32 data).
Definition fill_crc32c (data : list Z) : list Z := word_bytes 4 (crc32c_sw data).
Definition fill_crc64 (data : list Z) : list Z := word_bytes 8 (fio_crc64 data).

(** [memswp(p, p + k, n)] *)
Definition memswp (p : list Z) (k n : nat) : option (list Z) :=
  if decide (n <= 200)%nat then
    if decide (n = O) then Some p
    else if decide ((n <= k)%nat /\ (k + n <= length p)%nat)
    then Some (put (put p 0 (take n (drop k p))) k (take n p)) else None
  else None.

Section populate.
Context (heap : list Z).

(** The switch of [populate_hdr]: the bytes of the checksum; [mem] is what is at their place. *)
Definition checksum (t : vtype) (mem data : list Z) : option (list Z) :=
  match t with
  | VERIFY_MD5 => Some (fill_md5 data)
  | VERIFY_CRC64 => Some (fill_crc64 data)
  | VERIFY_CRC32C | VERIFY_CRC32C_INTEL => Some (fill_crc32c data)
  | VERIFY_CRC32 => Some (fill_crc32 data)
  | VERIFY_CRC16 => Some (fill_crc16 data)
  | VERIFY_CRC7 => Some (fill_crc7 data)
  | VERIFY_SHA256 => Some (fill_sha256 mem data)
  | VERIFY_SHA512 => Some (fill_sha512 mem data)
  | VERIFY_SHA3_224 => Some (fill_sha3_224 data)
  | VERIFY_SHA3_256 => Some (fill_sha3_256 data)
  | VERIFY_SHA3_384 => Some (fill_sha3_384 data)
  | VERIFY_SHA3_512 => Some (fill_sha3_512 data)
  | VERIFY_XXHASH => Some (fill_xxhash heap data)
  | VERIFY_SHA1 => Some (fill_sha1 data)
  | VERIFY_HDR_ONLY | VERIFY_PATTERN | VERIFY_PATTERN_NO_HDR => Some []
  | VERIFY_NONE | VERIFY_NULL => None
  end.

(** The buffer from [p] on, and whether the block was too small. *)
Definition populate_hdr (o : vopts) (u : io_u) (p : list Z) (num header_len : nat) : option (bool * list Z) :=
  p ← fill_hdr o u p num header_len (rand_seed u);
  let size := hdr_size_ (verify o) in
  if decide (header_len <= size)%nat then Some (true, p)
  else if decide (header_len <= length p)%nat then
    let data := take (header_len - size) (drop size p) in
    sum ← checksum (verify o) (take (vhdr_size (verify o)) (drop HDR p)) data;
    let p := put p HDR sum in
    p ← (if decide (o_verify_offset o <> O /\ size <> O) then memswp p (o_verify_offset o) size else Some p);
    Some (false, p)
  else None.

(** [for (; p < io_u->buf + io_u->buflen; p += hdr_inc)] *)
Fixpoint headers_loop (fuel : nat) (o : vopts) (u : io_u) (p : list Z) (num hdr_inc : nat) (err : bool)
  : option (bool * list Z) :=
  match fuel with
  | O => Some (err, p)
  | S fuel' =>
      if decide (p = []) then Some (err, p)
      else
        '(e, p) ← populate_hdr o u p num hdr_inc;
        '(err, rest) ← headers_loop fuel' o u (drop hdr_inc p) (S num) hdr_inc (err || e);
        Some (err, take hdr_inc p ++ rest)
  end.

Definition fill_pattern_headers (o : vopts) (vs : frand_state) (u : io_u) (seed : Z) (use_seed : bool)
  : option (bool * io_u * frand_state) :=
  let '(u, vs) := fill_verify_pattern o vs u seed use_seed in
  '(err, b) ← headers_loop (length (buf u)) o u (buf u) 0 (get_hdr_inc o u) false;
  Some (err, set_buf u b, vs).

(** [issues] is [td->io_issues] of the direction; the number is kept in 16 bits. *)
Definition populate_verify_io_u (o : vopts) (vs : frand_state) (issues : Z) (u : io_u)
  : option (bool * io_u * frand_state) :=
  if decide (verify o = VERIFY_NULL) then Some (false, u, vs)
  else fill_pattern_headers o vs (set_numberio u (wrapu 16 issues)) 0 false.
End populate.

(** ** Checking *)

Section check.
Context (stack : nat -> list Z) (heap : list Z).

Definition verify_header (o : vopts) (u : io_u) (p : list Z) (num header_len : nat) : Z :=
  if decide (hdr_magic p <> FIO_HDR_MAGIC) then EILSEQ
  else if decide (hdr_len p <> Z.of_nat header_len) then EILSEQ
  else if decide (hdr_rand_seed p <> rand_seed u) then EILSEQ
  else if decide (hdr_offset p <> block_offset o u num) then EILSEQ
  else if td_write o && fixed_bs o && negb (time_based o) && negb (verify_only o) &&
          bool_decide (hdr_numberio p <> numberio u) then EILSEQ
  else if decide (crc32c_sw (take CRC_OFF p) <> hdr_crc32 p) then EILSEQ
  else 0.

(** The data the checksum is taken of: what the header says, as long as it is in the buffer. *)
Definition verify_data (o : vopts) (p : list Z) : option (list Z) :=
  size ← hdr_size o (hdr_verify_type p);
  let len := Z.to_nat (hdr_len p) in
  if decide ((size <= len)%nat /\ (len <= length p)%nat) then Some (take (len - size) (drop size p)) else None.

(** A stored number, and a stored string of bytes. *)
Definition cmp_number (p : list Z) (sum : list Z) : Z :=
  if decide (field HDR (length sum) p = le_word sum) then 0 else EILSEQ.
Definition cmp_bytes (p : list Z) (sum : list Z) : Z :=
  if decide (take (length sum) (drop HDR p) = sum) then 0 else EILSEQ.

Definition verify_io_u_md5 (p data : list Z) : Z := cmp_bytes p (fill_md5 data).
Definition verify_io_u_crc64 (p data : list Z) : Z := cmp_number p (fill_crc64 data).
Definition verify_io_u_crc32c (p data : list Z) : Z := cmp_number p (fill_crc32c data).
Definition verify_io_u_crc32 (p data : list Z) : Z := cmp_number p (fill_crc32 data).
Definition verify_io_u_crc16 (p data : list Z) : Z := cmp_number p (fill_crc16 data).
Definition verify_io_u_crc7 (p data : list Z) : Z := cmp_number p (fill_crc7 data).
Definition verify_io_u_sha256 (num : nat) (p data : list Z) : Z := cmp_bytes p (fill_sha256 (take 64 (stack num)) data).
Definition verify_io_u_sha512 (num : nat) (p data : list Z) : Z := cmp_bytes p (fill_sha512 (take 128 (stack num)) data).
Definition verify_io_u_sha3_224 (p data : list Z) : Z := cmp_bytes p (fill_sha3_224 data).
Definition verify_io_u_sha3_256 (p data : list Z) : Z := cmp_bytes p (fill_sha3_256 data).
Definition verify_io_u_sha3_384 (p data : list Z) : Z := cmp_bytes p (fill_sha3_384 data).
Definition verify_io_u_sha3_512 (p data : list Z) : Z := cmp_bytes p (fill_sha3_512 data).
Definition verify_io_u_xxhash (p data : list Z) : Z := cmp_number p (fill_xxhash heap data).
Definition verify_io_u_sha1 (p data : list Z) : Z := cmp_bytes p (fill_sha1 data).

(** The slow path: the first byte that differs; [None] at the line the source takes for unreachable. *)
Fixpoint first_bad (pattern : list Z) (mod_ : nat) (b : list Z) : option Z :=
  match b with
  | [] => None
  | x :: b' =>
      if decide (x <> nth mod_ pattern 0) then Some EILSEQ
      else first_bad pattern (if decide (S mod_ = length pattern) then O else S mod_) b'
  end.

(** The pattern with the offset pasted in is a value here; the source pastes it into the
    options, where it is pasted over before the next use. *)
Definition verify_io_u_pattern (o : vopts) (u : io_u) (p : list Z) (num : nat) : option Z :=
  let header_size := hdr_size_ (verify o) in
  let pattern_size := length (verify_pattern o) in
  if decide (pattern_size = O) then None
  else
    let '(_, pattern) := paste_format_inplace (verify_pattern o) (verify_fmt o) (offset u) in
    let inc := get_hdr_inc o u in
    if decide ((header_size <= inc)%nat /\ (inc <= length p)%nat) then
      let b := take (inc - header_size) (drop header_size p) in
      let mod_ := ((inc * num + header_size) mod pattern_size)%nat in
      if decide (cmp_pattern pattern mod_ b = 0) then Some 0 else first_bad pattern mod_ b
    else None.

(** The switch of [verify_io_u]. *)
Definition verify_switch (t : vtype) (o : vopts) (u : io_u) (p : list Z) (num : nat) : option Z :=
  match t with
  | VERIFY_HDR_ONLY => if decide (verify_pattern o <> []) then verify_io_u_pattern o u p num else Some 0
  | VERIFY_PATTERN | VERIFY_PATTERN_NO_HDR => verify_io_u_pattern o u p num
  | VERIFY_NONE | VERIFY_NULL => Some EINVAL
  | _ =>
      data ← verify_data o p;
      Some match t with
      | VERIFY_MD5 => verify_io_u_md5 p data
      | VERIFY_CRC64 => verify_io_u_crc64 p data
      | VERIFY_CRC32 => verify_io_u_crc32 p data
      | VERIFY_CRC16 => verify_io_u_crc16 p data
      | VERIFY_CRC7 => verify_io_u_crc7 p data
      | VERIFY_SHA256 => verify_io_u_sha256 num p data
      | VERIFY_SHA512 => verify_io_u_sha512 num p data
      | VERIFY_SHA3_224 => verify_io_u_sha3_224 p data
      | VERIFY_SHA3_256 => verify_io_u_sha3_256 p data
      | VERIFY_SHA3_384 => verify_io_u_sha3_384 p data
      | VERIFY_SHA3_512 => verify_io_u_sha3_512 p data
      | VERIFY_XXHASH => verify_io_u_xxhash p data
      | VERIFY_SHA1 => verify_io_u_sha1 p data
      | _ => verify_io_u_crc32c p data
      end
  end.

(** Some 16 bytes by hand, then the buffer is compared with itself. *)
Definition mem_is_zero (data : list Z) : bool :=
  if bool_decide (Forall (fun b => b = 0) (take 16 data)) then
    if decide (length data <= 16)%nat then true
    else same (length data - 16) data (drop 16 data)
  else false.

(** The number of zeros before the first other byte, and whether there is none. *)
Fixpoint mem_is_zero_slow (data : list Z) : bool * nat :=
  match data with
  | [] => (true, O)
  | b :: data' => if decide (b <> 0) then (false, O) else let '(r, n) := mem_is_zero_slow data' in (r, S n)
  end.

(** The returned value; the position in the message is that of [mem_is_zero_slow]. *)
Definition verify_trimmed_io_u (o : vopts) (u : io_u) : Z :=
  if negb (trim_zero o) then 0 else if mem_is_zero (buf u) then 0 else EILSEQ.

(** One round of the loop: [inl] is the early return after a bad header. *)
Definition verify_block (o : vopts) (u : io_u) (p : list Z) (num hdr_inc : nat)
  : option (Z + Z * io_u * list Z) :=
  p ← (if decide (o_verify_offset o <> O) then memswp p (o_verify_offset o) (hdr_size_ (verify o)) else Some p);
  let u := if negb (td_rw o) || ver_backlog o then set_seed u (hdr_rand_seed p) else u in
  ret ← (if decide (verify o = VERIFY_PATTERN_NO_HDR) then Some 0
         else if decide (HDR <= length p)%nat then Some (verify_header o u p num hdr_inc) else None);
  if decide (ret <> 0) then Some (inl ret)
  else
    ret ← match (if decide (verify o = VERIFY_NONE) then of_code (hdr_verify_type p) else Some (verify o)) with
          | Some t => verify_switch t o u p num
          | None => Some EINVAL
          end;
    Some (inr (ret, u, p)).

(** The loop over the blocks of a unit. *)
Fixpoint verify_loop (fuel : nat) (o : vopts) (u : io_u) (p : list Z) (num hdr_inc : nat) (ret : Z)
  : option (Z + Z * io_u) :=
  match fuel with
  | O => Some (inr (ret, u))
  | S fuel' =>
      if decide (p = []) then Some (inr (ret, u))
      else if decide (ret <> 0 /\ verify_fatal o = true) then Some (inr (ret, u))
      else
        res ← verify_block o u p num hdr_inc;
        match res with
        | inl ret => Some (inl ret)
        | inr (ret, u, p) => verify_loop fuel' o u (drop hdr_inc p) (S num) hdr_inc ret
        end
  end.

(** The result and whether the job is to be terminated. *)
Definition verify_io_u (o : vopts) (u : io_u) : option (Z * bool) :=
  if decide (verify o = VERIFY_NULL \/ is_read u = false) then Some (0, false)
  else if fake_io o then Some (0, false)
  else
    ret ← (if trimmed u then Some (inr (verify_trimmed_io_u o u, u))
           else verify_loop (length (buf u)) o u (buf u) 0 (get_hdr_inc o u) 0);
    match ret with
    | inl ret => Some (ret, false)
    | inr (ret, _) => Some (ret, bool_decide (ret <> 0) && verify_fatal o)
    end.
End check.
