(* ===== verification/VerifyProofs.v ===== *)
(** * Data verification: one block

    What a populated block looks like, that it passes its check, and which changes
    of it do not. *)

From S2P Require Import Prelude Bits Rand Crc CrcProofs Stream Digest DigestSpec Hash HashProofs Pattern Verify.

Open Scope Z_scope.

(** ** Buffers *)

Lemma put_app_l a b p d : (p + length d <= length a)%nat -> put (a ++ b) p d = put a p d ++ b.
Proof.
  intros H. unfold put. rewrite take_app_le, drop_app_le by lia. by rewrite <- !app_assoc.
Qed.

Lemma le_word_mod k : forall v, le_word (word_bytes k v) = v mod 256 ^ Z.of_nat k.
Proof.
  intros v. rewrite <- (word_bytes_mod k v). apply le_word_bytes. apply Z.mod_pos_bound. lia.
Qed.

Lemma field_here k v r : field 0 k (word_bytes k v ++ r) = v mod 256 ^ Z.of_nat k.
Proof. unfold field. rewrite drop_0, take_app_length' by (by rewrite length_word_bytes). apply le_word_mod. Qed.

Lemma field_skip n off k a r : length a = n -> field (n + off) k (a ++ r) = field off k r.
Proof. intros <-. unfold field. by rewrite drop_app_add. Qed.

Lemma field_app_l off k a b : (off + k <= length a)%nat -> field off k (a ++ b) = field off k a.
Proof. intros H. unfold field. rewrite drop_app_le, take_app_le by len. done. Qed.

(** Swapping twice restores. *)
Lemma memswp_parts a b c d :
  length c = length a -> (length a <= 200)%nat -> a <> [] ->
  memswp (a ++ b ++ c ++ d) (length a + length b) (length a) = Some (c ++ b ++ a ++ d).
Proof.
  intros Hc H200 Ha. unfold memswp. rewrite decide_True by done.
  assert (length a <> O) by (by destruct a). rewrite decide_False by done. rewrite decide_True by len.
  f_equal. rewrite take_app_length. rewrite (app_assoc a b). rewrite <- (length_app a b), drop_app_length.
  rewrite <- Hc, take_app_length. unfold put. rewrite take_0. cbn [app]. rewrite Hc.
  rewrite <- app_assoc, (drop_app_length' a) by done.
  rewrite (app_assoc c b), length_app. replace (length a + length b)%nat with (length (c ++ b)) by len.
  rewrite take_app_length, drop_app_add', drop_app_length' by len. by rewrite <- !app_assoc.
Qed.

Lemma split4 (s : list Z) n k :
  (n <= k)%nat -> (k + n <= length s)%nat ->
  exists a b c d, s = a ++ b ++ c ++ d /\ length a = n /\ length b = (k - n)%nat /\ length c = n.
Proof.
  intros Hk Hs. exists (take n s), (take (k - n) (drop n s)), (take n (drop k s)), (drop (k + n) s).
  split_and!; [|len..]. rewrite <- (take_drop n s) at 1. f_equal.
  rewrite <- (take_drop (k - n) (drop n s)) at 1. f_equal. rewrite drop_drop.
  replace (n + (k - n))%nat with k by lia. rewrite <- (take_drop n (drop k s)) at 1. by rewrite drop_drop.
Qed.

Lemma memswp_involutive s k n :
  (0 < n <= 200)%nat -> (n <= k)%nat -> (k + n <= length s)%nat ->
  exists s', memswp s k n = Some s' /\ length s' = length s /\ memswp s' k n = Some s.
Proof.
  intros Hn Hk Hs. destruct (split4 s n k Hk Hs) as (a & b & c & d & -> & Ha & Hb & Hc).
  exists (c ++ b ++ a ++ d). assert (a <> []) by (intros ->; cbn in Ha; lia).
  assert (c <> []) by (intros ->; cbn in Hc; lia).
  replace k with (length a + length b)%nat by lia. rewrite <- Ha. split_and!; [|len|].
  - apply memswp_parts; [lia|lia|done].
  - replace (length a) with (length c) by lia. apply memswp_parts; [lia|lia|done].
Qed.

Lemma memswp_app s t k n :
  (n = O \/ (k + n <= length s)%nat) -> memswp (s ++ t) k n = option_map (fun x => x ++ t) (memswp s k n).
Proof.
  intros Hn. unfold memswp. case_decide; [|done]. case_decide as H0; [done|].
  destruct Hn as [|Hn]; [done|]. destruct (decide (n <= k)%nat) as [Hk|Hk].
  - rewrite !decide_True by len. cbn [option_map]. f_equal.
    rewrite drop_app_le, !take_app_le by len. rewrite put_app_l by len. apply put_app_l. rewrite length_put; len.
  - rewrite !decide_False by (intros [? ?]; lia). done.
Qed.

(** ** Types *)

Lemma of_code_of t : of_code (code_of t) = Some t.
Proof. by destruct t. Qed.

Lemma code_of_small t : 0 <= code_of t < 256 ^ Z.of_nat 2.
Proof. destruct t; vm_compute; split; congruence || done. Qed.

Lemma vhdr_size_le t : (vhdr_size t <= 128)%nat.
Proof. destruct t; cbn; lia. Qed.

(** The types whose blocks are checked. *)
Definition checked (t : vtype) : Prop := t <> VERIFY_NONE /\ t <> VERIFY_NULL.

Lemma hdr_size_eq t : t <> VERIFY_PATTERN_NO_HDR -> hdr_size_ t = (vhdr_size t + HDR)%nat.
Proof. by destruct t. Qed.

Lemma hdr_size_le t : (hdr_size_ t <= 168)%nat.
Proof. pose proof (vhdr_size_le t). unfold hdr_size_, HDR. destruct t; lia. Qed.

(** ** The header *)

Section header.
Context (o : vopts) (u : io_u) (num inc : nat) (seed : Z).

Lemma length_hdr : length (fill_hdr_ o u num inc seed) = HDR.
Proof. unfold fill_hdr_, HDR. cbv zeta. rewrite !length_app, !length_word_bytes. done. Qed.

Ltac hdr_field :=
  unfold fill_hdr_; cbv zeta; rewrite <- !app_assoc;
  repeat (first [rewrite field_here | rewrite (field_skip 2) by apply length_word_bytes
                | rewrite (field_skip 4) by apply length_word_bytes | rewrite (field_skip 8) by apply length_word_bytes]).

Lemma hdr_magic_eq r : hdr_magic (fill_hdr_ o u num inc seed ++ r) = FIO_HDR_MAGIC.
Proof. unfold hdr_magic. hdr_field. done. Qed.

Lemma hdr_type_eq r : hdr_verify_type (fill_hdr_ o u num inc seed ++ r) = code_of (verify o).
Proof.
  unfold hdr_verify_type. unfold fill_hdr_. cbv zeta. rewrite <- !app_assoc.
  rewrite (field_skip 2 0) by apply length_word_bytes. rewrite field_here. apply Z.mod_small, code_of_small.
Qed.

Lemma hdr_len_eq r : hdr_len (fill_hdr_ o u num inc seed ++ r) = Z.of_nat inc mod 2 ^ 32.
Proof.
  unfold hdr_len, fill_hdr_. cbv zeta. rewrite <- !app_assoc.
  rewrite (field_skip 2 2), (field_skip 2 0) by apply length_word_bytes.
  by rewrite field_here.
Qed.

Lemma hdr_seed_eq r : hdr_rand_seed (fill_hdr_ o u num inc seed ++ r) = seed mod 2 ^ 64.
Proof.
  unfold hdr_rand_seed, fill_hdr_. cbv zeta. rewrite <- !app_assoc.
  rewrite (field_skip 2 6), (field_skip 2 4), (field_skip 4 0) by apply length_word_bytes. by rewrite field_here.
Qed.

Lemma hdr_offset_eq r : hdr_offset (fill_hdr_ o u num inc seed ++ r) = block_offset o u num.
Proof.
  unfold hdr_offset, fill_hdr_. cbv zeta. rewrite <- !app_assoc.
  rewrite (field_skip 2 14), (field_skip 2 12), (field_skip 4 8), (field_skip 8 0) by apply length_word_bytes.
  rewrite field_here. unfold block_offset, wrapu. change (256 ^ Z.of_nat 8) with (2 ^ 64). apply Z.mod_mod. lia.
Qed.

Lemma hdr_numberio_eq r : hdr_numberio (fill_hdr_ o u num inc seed ++ r) = numberio u mod 2 ^ 16.
Proof.
  unfold hdr_numberio, fill_hdr_. cbv zeta. rewrite <- !app_assoc.
  rewrite (field_skip 2 32), (field_skip 2 30), (field_skip 4 26), (field_skip 8 18), (field_skip 8 10),
    (field_skip 4 6), (field_skip 4 2), (field_skip 2 0) by apply length_word_bytes. by rewrite field_here.
Qed.

Lemma hdr_crc_eq r :
  hdr_crc32 (fill_hdr_ o u num inc seed ++ r) = crc32c_sw (take CRC_OFF (fill_hdr_ o u num inc seed ++ r)) mod 2 ^ 32.
Proof.
  unfold hdr_crc32, fill_hdr_. set (h := word_bytes 2 _ ++ _).
  assert (Hh : length h = CRC_OFF) by (unfold h; rewrite !length_app, !length_word_bytes; done). rewrite <- app_assoc.
  rewrite (field_skip CRC_OFF 0 4 h) by done. rewrite field_here. rewrite take_app_length' by done. done.
Qed.
End header.

(** ** Data verification: the checksums

    Every checksum has the length its type declares and depends on the data alone,
    not on the memory it is computed in; the switch of [verify_io_u] accepts
    exactly the stored value that is the checksum of the data. *)

(** ** Lengths *)

Lemma length_bind_words k (l : list Z) : length (l ≫= word_bytes k) = (length l * k)%nat.
Proof. induction l as [|x l IH]; [done|]. cbn [mbind list_bind]. rewrite length_app, length_word_bytes, IH.
  cbn [length]. lia. Qed.

Lemma length_md5_transform h d : length (Md5.md5_transform h d) = 4%nat.
Proof. unfold Md5.md5_transform. by destruct (foldl _ _ _) as [[[a b] c] e]. Qed.

Lemma length_sha1_block h d : length (Sha1.blk_SHA1Block h d) = 5%nat.
Proof. unfold Sha1.blk_SHA1Block. by destruct (foldl _ _ _) as [? [[[[a b] c] e] f]]. Qed.

Lemma length_foldl {A} (f : list Z -> A -> list Z) (l : list A) :
  (forall s x, length (f s x) = length s) -> forall s, length (foldl f s l) = length s.
Proof. intros Hf. induction l as [|x l IH]; intros s; [done|]. cbn [foldl]. by rewrite IH, Hf. Qed.

Lemma length_xor_at s i t : length (Sha3.xor_at s i t) = length s.
Proof. apply length_insert. Qed.

Lemma length_theta s : length (Sha3.theta s) = length s.
Proof. unfold Sha3.theta. cbv zeta. apply length_foldl. intros s' x. apply length_foldl. intros. apply length_xor_at. Qed.

Lemma length_rho_pi s : length (Sha3.rho_pi s) = length s.
Proof.
  unfold Sha3.rho_pi. generalize (zip Sha3.keccakf_piln Sha3.keccakf_rotc), (at0 s 1).
  intros l. revert s. induction l as [|[j r] l IH]; intros s t; [done|]. cbn [foldl]. rewrite IH. apply length_insert.
Qed.

Lemma length_chi s : length (Sha3.chi s) = length s.
Proof. unfold Sha3.chi. apply length_foldl. intros s' x. cbv zeta. apply length_foldl. intros. apply length_xor_at. Qed.

Lemma length_keccakf s : length (Sha3.keccakf s) = length s.
Proof.
  unfold Sha3.keccakf. apply length_foldl. intros. by rewrite length_xor_at, length_chi, length_rho_pi, length_theta.
Qed.

Lemma length_absorb n s d : length (Sha3.absorb n s d) = length s.
Proof. unfold Sha3.absorb. rewrite length_keccakf. apply length_foldl. intros. apply length_xor_at. Qed.

Lemma length_hash_blocks B T n h m :
  (0 < B)%nat -> (forall h d, length h = n -> length (T h d) = n) -> length h = n ->
  length (@hash_blocks (list Z) B T h m) = n.
Proof. intros HB HT Hh. unfold hash_blocks. apply (eat_inv B T HB (fun h => length h = n)); [|done].
  intros; by apply HT. Qed.

Lemma length_md5_ref m : length (md5_ref m) = 4%nat.
Proof. apply length_hash_blocks; [lia| |done]. intros. apply length_md5_transform. Qed.

Lemma length_sha1_ref m : length (sha1_ref m) = 5%nat.
Proof. apply length_hash_blocks; [lia| |done]. intros. apply length_sha1_block. Qed.

Lemma length_sha3_ref md m : (28 <= md <= 64)%nat -> length (sha3_ref md m) = md.
Proof.
  intros Hmd. unfold sha3_ref. rewrite length_take, length_bind_words, (length_hash_blocks _ _ 25);
    [lia|lia| |apply length_zeros_].
  intros h d Hh. by rewrite length_absorb.
Qed.

Lemma length_sha256_digest m : length (sha256_digest m) = 64%nat.
Proof.
  unfold sha256_digest. rewrite length_app, length_fmap.
  assert (E : length (sha256_state m) = 8%nat).
  { apply length_hash_blocks; [lia| |done]. intros. by apply transform256_length. }
  assert (H : (length (sha256_padded m) mod 64 = 0)%nat).
  { unfold sha256_padded. rewrite length_app. apply md_pad_whole. intros v. apply length_word_bytes. }
  assert (H0 : (0 < length (sha256_padded m))%nat).
  { unfold sha256_padded. rewrite length_app. cbn. lia. }
  assert (64 <= length (sha256_padded m))%nat.
  { destruct (decide (64 <= length (sha256_padded m))%nat); [done|]. rewrite Nat.mod_small in H; lia. }
  rewrite E, !length_drop. lia.
Qed.

(** ** The checksum is a function of the data *)

(** The types with a checksum of their own. *)
Definition summed (t : vtype) : bool :=
  match t with
  | VERIFY_NONE | VERIFY_NULL | VERIFY_HDR_ONLY | VERIFY_PATTERN | VERIFY_PATTERN_NO_HDR => false
  | _ => true
  end.

Definition sum_of (t : vtype) (data : list Z) : list Z :=
  default [] (checksum (zeros_ 16) t (zeros_ (vhdr_size t)) data).

(** The SHA-512 buffer is filled only by a whole block of data. *)
Definition enough (t : vtype) (data : list Z) : Prop := t = VERIFY_SHA512 -> (128 <= length data)%nat.

Lemma fill_sha256_eq mem data :
  length mem = 64%nat -> Z.of_nat (length data) < 2 ^ 32 -> fill_sha256 mem data = sha256_digest data.
Proof.
  intros Hm Hd. unfold fill_sha256, sha256_of. cbn [foldl]. apply sha256_final_fed; [|done].
  apply (sha256_update_fed _ []). by apply sha256_init_fed.
Qed.

Lemma fill_xxhash_eq heap data :
  length heap = 16%nat -> Z.of_nat (length data) < 2 ^ 32 -> fill_xxhash heap data = word_bytes 4 (Xxh.XXH32 data 1).
Proof.
  intros Hh Hd. unfold fill_xxhash. f_equal. rewrite <- (app_nil_r data) at 2. change (data ++ []) with (concat [data]).
  rewrite <- (xxh_streams heap 1 [data]); [done|done|]. cbn [concat]. by rewrite app_nil_r.
Qed.

Lemma fill_sha512_eq mem data :
  length mem = 128%nat -> (128 <= length data)%nat -> fill_sha512 mem data = sha512_left [] data.
Proof. intros Hm Hd. unfold fill_sha512. rewrite sha512_buf by done. unfold sha512_left.
  by rewrite !decide_True by done. Qed.

Section sums.
Context (data : list Z) (Hd : Z.of_nat (length data) < 2 ^ 32).

Lemma fill_md5_eq : fill_md5 data = md5_ref data ≫= word_bytes 4.
Proof using Hd.
  unfold fill_md5, md5_of. f_equal. cbn [foldl]. apply md5_final_fed; [|lia].
  apply (md5_update_fed _ []). by apply md5_init_fed.
Qed.

Lemma fill_sha1_eq : fill_sha1 data = sha1_ref data ≫= word_bytes 4.
Proof using Hd.
  unfold fill_sha1, sha1_of. f_equal. cbn [foldl]. apply sha1_final_fed; [|lia].
  apply (sha1_update_fed _ []). by apply sha1_init_fed.
Qed.

Lemma fill_sha3_eq md : (28 <= md <= 64)%nat -> sha3_of md [data] = sha3_ref md data.
Proof using Hd.
  intros Hm. apply sha3_final_fed; [lia|]. cbn [foldl]. apply (sha3_update_fed _ _ []); [lia|]. apply sha3_init_fed. lia.
Qed.

Lemma checksum_sum heap t mem :
  checked t -> length heap = 16%nat -> length mem = vhdr_size t -> enough t data ->
  checksum heap t mem data = Some (sum_of t data).
Proof using Hd.
  intros [Ht1 Ht2] Hh Hm He. unfold sum_of, enough in *.
  destruct t; cbn [checksum default vhdr_size id] in *; try done.
  - by rewrite !fill_sha256_eq.
  - rewrite !fill_sha512_eq by (rewrite ?length_zeros_; auto). done.
  - by rewrite !fill_xxhash_eq.
Qed.

Lemma length_sum t : enough t data -> length (sum_of t data) = vhdr_size t.
Proof using Hd.
  unfold sum_of, enough. intros He. destruct t; cbn [checksum default vhdr_size id] in *; try done.
  - rewrite fill_md5_eq, length_bind_words, length_md5_ref. done.
  - rewrite fill_sha256_eq by done. apply length_sha256_digest.
  - rewrite fill_sha512_eq by (rewrite ?length_zeros_; auto). unfold sha512_left. rewrite decide_True by auto.
    specialize (He eq_refl). set (r := drop (128 * (length data / 128)) data). assert (length r <= 128)%nat.
    { unfold r. rewrite length_drop. pose proof (Nat.div_mod_eq (length data) 128).
      pose proof (Nat.mod_upper_bound (length data) 128). lia. }
    rewrite length_app, length_drop, length_take. lia.
  - unfold fill_sha3_224. rewrite fill_sha3_eq, length_sha3_ref by lia. done.
  - unfold fill_sha3_256. rewrite fill_sha3_eq, length_sha3_ref by lia. done.
  - unfold fill_sha3_384. rewrite fill_sha3_eq, length_sha3_ref by lia. done.
  - unfold fill_sha3_512. rewrite fill_sha3_eq, length_sha3_ref by lia. done.
  - rewrite fill_sha1_eq, length_bind_words, length_sha1_ref. done.
Qed.

(** ** Comparing *)

(** What is stored behind the header. *)
Definition stored (t : vtype) (p : list Z) : list Z := take (vhdr_size t) (drop HDR p).

Lemma le_word_inj a b : length a = length b -> Forall byte_ok a -> Forall byte_ok b -> le_word a = le_word b -> a = b.
Proof. intros Hl Ha Hb E. rewrite <- (word_bytes_le a), <- (word_bytes_le b) by done. by rewrite E, Hl. Qed.

Lemma switch_pass stack heap o u p num t :
  summed t = true -> length heap = 16%nat -> length (take 128 (stack num)) = 128%nat -> enough t data ->
  verify_data o p = Some data -> stored t p = sum_of t data ->
  verify_switch stack heap t o u p num = Some 0.
Proof using Hd.
  intros Ht Hh Hs He Hdata E. pose proof (length_sum t He) as Hl. unfold stored in E.
  assert (H64 : length (take 64 (stack num)) = 64%nat) by (rewrite length_take in *; lia).
  assert (Hb : forall sum, sum_of t data = sum -> cmp_bytes p sum = 0 /\ cmp_number p sum = 0).
  { intros sum <-. unfold cmp_bytes, cmp_number, field. rewrite Hl, E. by rewrite !decide_True by done. }
  unfold verify_switch. destruct t; try done; rewrite Hdata; cbn [mbind option_bind]; f_equal; apply Hb;
    unfold sum_of; cbn [checksum default vhdr_size id]; try reflexivity.
  - by rewrite !fill_sha256_eq.
  - rewrite !fill_sha512_eq by (rewrite ?length_zeros_; auto). done.
  - by rewrite !fill_xxhash_eq.
Qed.
End sums.
