(* ===== verification/VerifySpec.v ===== *)
(** * Data verification: what is written is accepted, what is damaged is not

    A populated buffer passes its check whatever the uninitialised memory holds;
    a changed byte is reported by the CRCs; and the cases in which damage goes
    unnoticed. *)

From S2P Require Import Prelude Bits Stream Rand Crc CrcProofs Digest DigestSpec Hash HashProofs Pattern Verify VerifyProofs.

Open Scope Z_scope.

(** ** One block *)

(** Options under which a block of [inc] bytes has room for its header, its data and the place
    the header is swapped to, apart from the header.  For SHA-512 the data must fill the message
    buffer of 128 bytes: the code stores and compares that buffer, and what shorter data leaves of
    it is uninitialised. *)
Definition block_ok (o : vopts) (inc : nat) : Prop :=
  checked (verify o) /\ (hdr_size_ (verify o) < inc)%nat /\ Z.of_nat inc < 2 ^ 32 /\
  (o_verify_offset o = O \/
   (hdr_size_ (verify o) <= o_verify_offset o /\ o_verify_offset o + hdr_size_ (verify o) <= inc)%nat) /\
  (verify o = VERIFY_SHA512 -> (hdr_size_ VERIFY_SHA512 + 128 <= inc)%nat).

(** The header, the checksum and the data behind them. *)
Definition sealed (o : vopts) (u : io_u) (num inc : nat) (s : list Z) : list Z :=
  if decide (verify o = VERIFY_PATTERN_NO_HDR) then s
  else fill_hdr_ o u num inc (rand_seed u) ++
       sum_of (verify o) (drop (hdr_size_ (verify o)) s) ++ drop (hdr_size_ (verify o)) s.

(** What [verify_io_u] undoes first. *)
Definition unswap (o : vopts) (p : list Z) : option (list Z) :=
  if decide (o_verify_offset o <> O) then memswp p (o_verify_offset o) (hdr_size_ (verify o)) else Some p.

Section block.
Context (o : vopts) (u : io_u) (num inc : nat) (Hok : block_ok o inc).
Notation hs := (hdr_size_ (verify o)).

Lemma data_small (s : list Z) : length s = inc -> Z.of_nat (length (drop hs s)) < 2 ^ 32.
Proof using Hok. destruct Hok as (_ & _ & Hi & _). rewrite length_drop. lia. Qed.

Lemma data_enough (s : list Z) : length s = inc -> enough (verify o) (drop hs s).
Proof using Hok. destruct Hok as (_ & _ & _ & _ & He). intros Hl E. specialize (He E). rewrite length_drop, E. lia. Qed.

Lemma length_sealed s : length s = inc -> length (sealed o u num inc s) = inc.
Proof using Hok.
  intros Hl. unfold sealed. case_decide as E; [done|].
  rewrite !length_app, length_hdr, length_sum by (by (apply data_small || apply data_enough)).
  rewrite length_drop. destruct Hok as (_ & Hi & _). rewrite hdr_size_eq in * by done. lia.
Qed.

(** The swap can be undone, whatever follows the block. *)
Lemma swap_undone s t : length s = inc -> exists s',
  (if decide (o_verify_offset o <> O /\ hs <> O) then memswp (s ++ t) (o_verify_offset o) hs else Some (s ++ t))
    = Some (s' ++ t) /\ length s' = inc /\ forall t', unswap o (s' ++ t') = Some (s ++ t').
Proof using Hok.
  intros Hl. unfold unswap. destruct Hok as (_ & Hi & _ & Hv & _).
  assert (hs <= 200)%nat by (pose proof (hdr_size_le (verify o)); lia).
  destruct (decide (o_verify_offset o <> O)) as [Hn|Hn].
  - destruct Hv as [?|[H1 H2]]; [done|]. destruct (decide (hs = O)) as [E|E].
    + exists s. rewrite decide_False by tauto. split_and!; [done|done|]. intros t'. rewrite E. reflexivity.
    + rewrite decide_True by done.
      destruct (memswp_involutive s (o_verify_offset o) hs) as (s' & E1 & E2 & E3); [lia|lia|lia|].
      exists s'. rewrite memswp_app by lia. rewrite E1. split_and!; [done|lia|]. intros t'.
      rewrite memswp_app by lia. by rewrite E3.
  - rewrite decide_False by tauto. by exists s.
Qed.

Lemma populate_block heap s t : length heap = 16%nat -> length s = inc -> exists s',
  populate_hdr heap o u (s ++ t) num inc = Some (false, s' ++ t) /\ length s' = inc /\
  forall t', unswap o (s' ++ t') = Some (sealed o u num inc s ++ t').
Proof using Hok.
  intros Hh Hl. pose proof (length_sealed s Hl) as Hls.
  destruct (swap_undone (sealed o u num inc s) t Hls) as (s' & E1 & E2 & E3). exists s'. split_and!; [|done|done].
  pose proof (data_small s Hl) as Hd. pose proof (data_enough s Hl) as He. pose proof (length_sum _ Hd _ He) as Hsum.
  destruct Hok as (Hc & Hi & _). unfold populate_hdr, fill_hdr, sealed in *.
  destruct (decide (verify o = VERIFY_PATTERN_NO_HDR)) as [E|E].
  - cbn [mbind option_bind]. rewrite E in *. cbn [hdr_size_ checksum vhdr_size] in *.
    rewrite decide_False by lia. rewrite decide_True by (rewrite length_app; lia). cbn [mbind option_bind].
    rewrite put_nil, E1. done.
  - rewrite hdr_size_eq in * by done. unfold HDR in *. rewrite decide_True by (rewrite length_app; lia).
    cbn [mbind option_bind].
    set (vh := vhdr_size (verify o)) in *. set (h := fill_hdr_ o u num inc (rand_seed u)) in *.
    assert (Hhl : length h = 40%nat) by apply length_hdr.
    assert (Hp : put (s ++ t) 0 h = h ++ take vh (drop 40 s) ++ drop (vh + 40) s ++ t).
    { rewrite put_app_l by lia. unfold put. rewrite take_0, Hhl. cbn [app Nat.add]. rewrite <- app_assoc. f_equal.
      rewrite app_assoc. f_equal. rewrite <- (take_drop vh (drop 40 s)) at 1. rewrite drop_drop. do 2 f_equal. lia. }
    set (d := drop (vh + 40) s) in *. set (m := take vh (drop 40 s)) in *.
    assert (Hm : length m = vh) by (unfold m; len). assert (Hdl : length d = (inc - (vh + 40))%nat) by (unfold d; len).
    rewrite Hp. rewrite decide_False by lia. rewrite decide_True by (rewrite !length_app; lia).
    rewrite (drop_app_length' h) by lia. rewrite (take_app_length' m) by lia.
    rewrite (app_assoc h m), (drop_app_length' (h ++ m)) by (rewrite length_app; lia).
    rewrite (take_app_length' d) by lia. rewrite checksum_sum by done. cbn [mbind option_bind].
    replace (put ((h ++ m) ++ d ++ t) 40 (sum_of (verify o) d)) with ((h ++ sum_of (verify o) d ++ d) ++ t);
      [by rewrite E1|].
    unfold put. rewrite Hsum. rewrite <- !app_assoc. rewrite (take_app_length' h) by lia. do 2 f_equal.
    rewrite (app_assoc h m), drop_app_length' by (rewrite length_app; lia). done.
Qed.
End block.

(** ** The check of a sealed block *)

Lemma crc32c_range l : Forall byte_ok l -> 0 <= crc32c_sw l < 2 ^ 32.
Proof. intros Hl. rewrite crc32c_eq by done. apply (code_fold_range 32 _ _ l crc32c_code Hl). lia. Qed.

(** The unit that is read back: the same place and the same number; the seed matters only to a
    job that verifies what it is still writing. *)
Definition reads_back (o : vopts) (u v : io_u) : Prop :=
  offset v = offset u /\ verify_offset v = verify_offset u /\ numberio v = numberio u /\
  0 <= numberio u < 2 ^ 16 /\ 0 <= rand_seed u < 2 ^ 64 /\ get_hdr_inc o v = get_hdr_inc o u /\
  (rand_seed v = rand_seed u \/ negb (td_rw o) || ver_backlog o = true).

Definition reseed (o : vopts) (v : io_u) (p : list Z) : io_u :=
  if negb (td_rw o) || ver_backlog o then set_seed v (hdr_rand_seed p) else v.

Section check_block.
Context (o : vopts) (u v : io_u) (num inc : nat) (Hok : block_ok o inc) (Hv : reads_back o u v).
Notation hs := (hdr_size_ (verify o)).

Lemma header_bytes : Forall byte_ok (fill_hdr_ o u num inc (rand_seed u)).
Proof. unfold fill_hdr_. cbv zeta. repeat (apply Forall_app; split); apply word_bytes_byte. Qed.

Lemma header_passes r :
  let p := fill_hdr_ o u num inc (rand_seed u) ++ r in
  verify_header o (reseed o v p) p num inc = 0 /\ hdr_verify_type p = code_of (verify o) /\ hdr_len p = Z.of_nat inc /\
  hdr_rand_seed p = rand_seed u.
Proof using Hok Hv.
  intros p. destruct Hok as (_ & _ & Hi & _). destruct Hv as (Ho & Hvo & Hn & Hn' & Hs & _ & Hsv).
  assert (Es : hdr_rand_seed p = rand_seed u) by (unfold p; rewrite hdr_seed_eq; by apply Z.mod_small).
  assert (El : hdr_len p = Z.of_nat inc) by (unfold p; rewrite hdr_len_eq; apply Z.mod_small; lia).
  split_and!; [|apply hdr_type_eq|done|done].
  assert (Er : rand_seed (reseed o v p) = rand_seed u).
  { unfold reseed. destruct (negb (td_rw o) || ver_backlog o); [exact Es|]. by destruct Hsv. }
  assert (Eo : block_offset o (reseed o v p) num = block_offset o u num).
  { unfold block_offset, reseed. destruct (_ || _); cbn [verify_offset set_seed]; by rewrite Hvo. }
  assert (En : numberio (reseed o v p) = numberio u) by (unfold reseed; by destruct (_ || _)).
  assert (Eh : hdr_numberio p = numberio u) by (unfold p; rewrite hdr_numberio_eq; by apply Z.mod_small).
  assert (Em : hdr_magic p = FIO_HDR_MAGIC) by apply hdr_magic_eq.
  assert (Ef : hdr_offset p = block_offset o u num) by apply hdr_offset_eq.
  assert (Ec : crc32c_sw (take CRC_OFF p) = hdr_crc32 p).
  { unfold p. rewrite hdr_crc_eq. symmetry. apply Z.mod_small, crc32c_range.
    rewrite take_app_le by (rewrite length_hdr; unfold CRC_OFF, HDR; lia). apply Forall_take, header_bytes. }
  unfold verify_header. rewrite El, Es, Er, Eo, En, Eh, Em, Ef, Ec.
  rewrite !decide_False by tauto. rewrite (bool_decide_eq_false_2 (numberio u <> numberio u)) by tauto.
  by rewrite andb_false_r.
Qed.

Lemma data_of_parts sum d t :
  verify o <> VERIFY_PATTERN_NO_HDR -> length sum = vhdr_size (verify o) -> length d = (inc - hs)%nat ->
  let p := fill_hdr_ o u num inc (rand_seed u) ++ sum ++ d ++ t in
  verify_header o (reseed o v p) p num inc = 0 /\ verify_data o p = Some d /\ stored (verify o) p = sum.
Proof using Hok Hv.
  intros E Hsum Hdl p. pose proof (header_passes (sum ++ d ++ t)) as (Eh & Et & El & _). fold p in Eh, Et, El.
  destruct Hok as (_ & Hi & _). pose proof (length_hdr o u num inc (rand_seed u)) as Hh. split; [done|].
  unfold verify_data, hdr_size. rewrite decide_False, Et, El, of_code_of, Nat2Z.id by done.
  cbn [option_map mbind option_bind].
  unfold p, stored in *. rewrite hdr_size_eq in * by done. split.
  - rewrite decide_True by (split; [lia|]; rewrite !length_app; lia). f_equal.
    rewrite (app_assoc (fill_hdr_ _ _ _ _ _)), drop_app_length' by (rewrite length_app; lia). apply take_app_length'. lia.
  - rewrite (drop_app_length' (fill_hdr_ _ _ _ _ _)) by lia. by apply take_app_length'.
Qed.

Lemma sealed_data s t :
  verify o <> VERIFY_PATTERN_NO_HDR -> length s = inc ->
  verify_data o (sealed o u num inc s ++ t) = Some (drop hs s) /\
  stored (verify o) (sealed o u num inc s ++ t) = sum_of (verify o) (drop hs s).
Proof using Hok Hv.
  intros E Hl. unfold sealed. rewrite decide_False by done. rewrite <- !app_assoc.
  apply data_of_parts; [done| |rewrite length_drop; lia].
  apply length_sum; [by apply (data_small o inc Hok)|by apply (data_enough o inc Hok)].
Qed.
End check_block.

(** ** Patterns *)

Lemma drop_tile q a n k : (k <= n)%nat -> drop k (tile q a n) = tile q (a + k) (n - k).
Proof.
  intros Hk. apply nth_ext_eq; [len|]. intros i. rewrite length_drop, length_tile. intros Hi.
  rewrite nth_drop0, !nth_tile by lia. by rewrite Nat.add_assoc.
Qed.

Lemma take_tile q a n k : (k <= n)%nat -> take k (tile q a n) = tile q a k.
Proof.
  intros Hk. apply nth_ext_eq; [len|]. intros i. rewrite length_take, length_tile. intros Hi.
  rewrite nth_take, !nth_tile by lia. done.
Qed.

Lemma tile_mod q a n : tile q (a mod length q) n = tile q a n.
Proof.
  apply nth_ext_eq; [len|]. rewrite length_tile. intros i Hi. rewrite !nth_tile by done.
  by rewrite Nat.Div0.add_mod_idemp_l.
Qed.

(** The pattern with the unit's offset in it. *)
Definition pasted (o : vopts) (u : io_u) : list Z := paste_loop (verify_pattern o) (verify_fmt o) (offset u).

Definition pattern_ok (o : vopts) : Prop :=
  ((verify o = VERIFY_PATTERN \/ verify o = VERIFY_PATTERN_NO_HDR) -> verify_pattern o <> []) /\
  Forall (fun f => (desc_len f <= 8)%nat) (verify_fmt o).

(** A stretch of the pattern at block [num] of a unit. *)
Definition patterned (o : vopts) (u : io_u) (num inc : nat) (s : list Z) : Prop :=
  verify_pattern o <> [] -> s = tile (pasted o u) (inc * num) (length s).

Section check_pattern.
Context (o : vopts) (u v : io_u) (num inc : nat) (Hok : block_ok o inc) (Hp : pattern_ok o) (Hv : reads_back o u v).
Notation hs := (hdr_size_ (verify o)).

Lemma length_pasted : length (pasted o u) = length (verify_pattern o).
Proof using Hp. by apply length_paste_loop, Hp. Qed.

Lemma sealed_tail s t : length s = inc -> take (inc - hs) (drop hs (sealed o u num inc s ++ t)) = drop hs s.
Proof using Hok.
  intros Hl. pose proof (data_small o inc Hok s Hl) as Hd. pose proof (data_enough o inc Hok s Hl) as He.
  pose proof (length_sum _ Hd _ He) as Hsum. unfold sealed. case_decide as E.
  - rewrite E. cbn [hdr_size_]. rewrite !drop_0, Nat.sub_0_r. by apply take_app_length'.
  - rewrite <- !app_assoc. rewrite app_assoc. pose proof (length_hdr o u num inc (rand_seed u)) as Hh.
    rewrite drop_app_length' by (rewrite length_app, Hsum, Hh, hdr_size_eq by done; lia).
    apply take_app_length'. rewrite length_drop. lia.
Qed.

Lemma pattern_passes w s t :
  verify_pattern o <> [] -> length s = inc -> patterned o u num inc s ->
  get_hdr_inc o w = inc -> offset w = offset u ->
  verify_io_u_pattern o w (sealed o u num inc s ++ t) num = Some 0.
Proof using Hok Hp.
  intros Hne Hl Hs Hi Ho. specialize (Hs Hne). unfold verify_io_u_pattern.
  assert (H0 : length (verify_pattern o) <> O) by (by destruct (verify_pattern o)).
  rewrite decide_False by done. unfold paste_format_inplace. rewrite (decide_False (P := verify_pattern o = [])) by done.
  rewrite Hi, Ho. fold (pasted o u). pose proof (length_sealed o u num inc Hok s Hl) as Hls.
  pose proof Hok as (_ & Hlt & _). rewrite (decide_True (P := _ /\ _)) by (rewrite length_app; lia).
  rewrite sealed_tail by done.
  assert (E : cmp_pattern (pasted o u) ((inc * num + hs) mod length (verify_pattern o)) (drop hs s) = 0); [|by rewrite E].
  rewrite <- length_pasted in *. apply cmp_pattern_iff; [by apply Nat.mod_upper_bound|].
  rewrite tile_mod. rewrite Hs at 1. rewrite drop_tile by lia. by rewrite length_drop.
Qed.

(** A block as it was populated passes, and the loop goes on with the same unit. *)
Lemma block_passes stack heap s s' t :
  length heap = 16%nat -> length (take 128 (stack num)) = 128%nat -> get_hdr_inc o v = inc ->
  length s = inc -> patterned o u num inc s -> unswap o (s' ++ t) = Some (sealed o u num inc s ++ t) ->
  exists v', verify_block stack heap o v (s' ++ t) num inc = Some (inr (0, v', sealed o u num inc s ++ t)) /\
    reads_back o u v'.
Proof using Hok Hp Hv.
  intros Hh Hst Hi Hl Hpat Hun. unfold verify_block. fold (unswap o (s' ++ t)). rewrite Hun. cbn [mbind option_bind].
  set (p := sealed o u num inc s ++ t). fold (reseed o v p). set (v' := reseed o v p).
  pose proof (data_small o inc Hok s Hl) as Hd. pose proof (data_enough o inc Hok s Hl) as He.
  assert (Hv' : get_hdr_inc o v' = inc /\ offset v' = offset u).
  { unfold v', reseed. destruct Hv as (? & _). destruct (_ || _); [|done]. unfold get_hdr_inc in *. done. }
  assert (Hrb : reads_back o u v' /\
    (verify o <> VERIFY_PATTERN_NO_HDR -> (HDR <= length p)%nat /\ verify_header o v' p num inc = 0)).
  { split.
    - unfold v', reseed. destruct (negb (td_rw o) || ver_backlog o) eqn:E; [|exact Hv].
      destruct Hv as (? & ? & ? & ? & ? & ? & _). unfold reads_back.
      cbn [offset verify_offset numberio rand_seed set_seed]. do 6 (split; [done|]). by right.
    - intros E. pose proof (length_sealed o u num inc Hok s Hl) as Hls. unfold p in *. rewrite length_app, Hls. split.
      { destruct Hok as (_ & Hlt & _). rewrite hdr_size_eq in Hlt by done. lia. }
      unfold v', sealed. rewrite decide_False by done. rewrite <- app_assoc. by apply header_passes. }
  destruct Hrb as [Hrb Hhdr]. destruct Hv' as [Hv1 Hv2].
  assert (Esw : verify_switch stack heap (verify o) o v' p num = Some 0).
  { destruct (decide (summed (verify o) = true)) as [Es|Es].
    - destruct (sealed_data o u v num inc Hok Hv s t) as [E1 E2]; [by intros E; rewrite E in Es|done|].
      by apply (switch_pass (drop hs s) Hd).
    - destruct Hok as ((Hc1 & Hc2) & _). unfold verify_switch. destruct (verify o) eqn:Ev; try done.
      + case_decide as Hn; [|done]. by apply pattern_passes.
      + apply pattern_passes; try done. apply (proj1 Hp). by left.
      + apply pattern_passes; try done. apply (proj1 Hp). by right. }
  exists v'. split; [|done]. destruct (decide (verify o = VERIFY_PATTERN_NO_HDR)) as [E|E]; cbn [mbind option_bind].
  - rewrite (decide_False (P := 0 <> 0)) by tauto. rewrite decide_False by (by rewrite E). by rewrite Esw.
  - destruct (Hhdr E) as [H1 H2]. rewrite (decide_True (P := (HDR <= length p)%nat)) by done.
    cbn [mbind option_bind]. rewrite H2.
    rewrite (decide_False (P := 0 <> 0)) by tauto. rewrite decide_False by (apply Hok). by rewrite Esw.
Qed.
End check_pattern.

(** ** All blocks of a unit *)

(** A buffer of populated blocks, numbered from [num] on. *)
Inductive populated (o : vopts) (u : io_u) (inc : nat) : nat -> list Z -> Prop :=
  | populated_nil num : populated o u inc num []
  | populated_cons num s s' out :
      length s = inc -> length s' = inc -> patterned o u num inc s ->
      (forall t, unswap o (s' ++ t) = Some (sealed o u num inc s ++ t)) ->
      populated o u inc (S num) out -> populated o u inc num (s' ++ out).

Lemma not_nil (x y : list Z) inc : length x = inc -> (0 < inc)%nat -> x ++ y <> [].
Proof. intros Hx Hi. destruct x; [cbn in Hx; lia|done]. Qed.

Lemma patterned_app o u num inc s t :
  length s = inc -> patterned o u num inc (s ++ t) -> patterned o u num inc s /\ patterned o u (S num) inc t.
Proof.
  intros Hs Hb. unfold patterned in *. split; intros Hn; specialize (Hb Hn); rewrite length_app in Hb.
  - apply (f_equal (take inc)) in Hb. rewrite take_app_length' in Hb by done. rewrite Hb at 1.
    rewrite take_tile by lia. by rewrite Hs.
  - apply (f_equal (drop inc)) in Hb. rewrite drop_app_length' in Hb by done. rewrite Hb at 1.
    rewrite drop_tile by lia. f_equal; lia.
Qed.

Section loops.
Context (o : vopts) (u : io_u) (inc : nat) (Hok : block_ok o inc) (Hp : pattern_ok o).

Lemma inc_pos : (0 < inc)%nat.
Proof using Hok. destruct Hok as (_ & ? & _). lia. Qed.

Lemma blocks_populated heap k : length heap = 16%nat ->
  forall b num fuel err, length b = (k * inc)%nat -> (k <= fuel)%nat -> patterned o u num inc b ->
  exists out, headers_loop heap fuel o u b num inc err = Some (err, out) /\ length out = length b /\
    populated o u inc num out.
Proof using Hok Hp.
  intros Hh. pose proof inc_pos as H0. induction k as [|k IH]; intros b num fuel err Hl Hf Hb.
  - assert (b = []) as -> by (by apply length_zero_iff_nil). exists []. split; [by destruct fuel|].
    split; [done|constructor].
  - destruct fuel as [|fuel]; [lia|].
    assert (exists s t, b = s ++ t /\ length s = inc) as (s & t & -> & Hs).
    { exists (take inc b), (drop inc b). rewrite take_drop, length_take. split; [done|lia]. }
    assert (Ht : length t = (k * inc)%nat) by (rewrite length_app in Hl; lia).
    destruct (patterned_app o u num inc s t Hs Hb) as [Hps Hpt].
    destruct (populate_block o u num inc Hok heap s t Hh Hs) as (s' & E1 & E2 & E3).
    destruct (IH t (S num) fuel (err || false) Ht ltac:(lia) Hpt) as (out & E4 & E5 & E6).
    exists (s' ++ out). split_and!; [|rewrite !length_app; lia|by apply (populated_cons o u inc num s)].
    cbn [headers_loop]. rewrite decide_False by (by apply (not_nil s t inc)). rewrite E1. cbn [mbind option_bind].
    rewrite drop_app_length' by done. rewrite E4. cbn [mbind option_bind]. rewrite take_app_length' by done.
    by rewrite orb_false_r.
Qed.

Context (stack : nat -> list Z) (heap : list Z) (Hh : length heap = 16%nat) (Hst : forall n, (128 <= length (stack n))%nat).

(** One populated block is checked and the loop goes on behind it. *)
Lemma populated_step v num s s' out fuel :
  length s = inc -> length s' = inc -> patterned o u num inc s ->
  (forall t, unswap o (s' ++ t) = Some (sealed o u num inc s ++ t)) ->
  reads_back o u v -> get_hdr_inc o v = inc -> exists v',
  verify_loop stack heap (S fuel) o v (s' ++ out) num inc 0 = verify_loop stack heap fuel o v' out (S num) inc 0 /\
  reads_back o u v' /\ get_hdr_inc o v' = inc.
Proof using Hok Hp Hh Hst.
  intros Hs Hs' Hps Hun Hv Hi. cbn [verify_loop]. rewrite decide_False by (by apply (not_nil s' out inc), inc_pos).
  rewrite decide_False by tauto. specialize (Hst num).
  destruct (block_passes o u v num inc Hok Hp Hv stack heap s s' out) as (v' & E & Hv'); try done;
    [rewrite length_take; lia|].
  exists v'. rewrite E. cbn [mbind option_bind].
  rewrite drop_app_length' by (by rewrite (length_sealed o u num inc Hok s Hs)). split_and!; [done|done|].
  destruct Hv' as (_ & _ & _ & _ & _ & Hi' & _). destruct Hv as (_ & _ & _ & _ & _ & Hi'' & _). congruence.
Qed.

Lemma populated_passes num out : populated o u inc num out ->
  forall fuel v, (length out <= fuel * inc)%nat -> reads_back o u v -> get_hdr_inc o v = inc ->
  exists v', verify_loop stack heap fuel o v out num inc 0 = Some (inr (0, v')).
Proof using Hok Hp Hh Hst.
  induction 1 as [num|num s s' out Hs Hs' Hps Hun Hpop IH]; intros fuel v Hf Hv Hi; [exists v; by destruct fuel|].
  pose proof inc_pos. rewrite length_app in Hf. destruct fuel as [|fuel]; [lia|].
  destruct (populated_step v num s s' out fuel) as (v' & E & Hv' & Hi'); try done. rewrite E. apply IH; [lia|done|done].
Qed.
End loops.

(** ** Filling keeps the length *)

Lemma length_fill_rest q n : length (fill_rest q n) = n.
Proof.
  unfold fill_rest. case_decide as E; [apply length_replicate|]. destruct n as [|n].
  - unfold cpy_pattern. rewrite decide_True by (by right). done.
  - rewrite cpy_pattern_tiles by done. cbn [snd]. by rewrite length_tile, length_replicate.
Qed.

Lemma length_fill_buffer o seed n :
  Z.of_nat n < 2 ^ 32 -> length (fill_buffer_ o seed n) = n.
Proof.
  intros Hn. unfold fill_buffer_, fill_random_buf_percentage_. case_decide as E; [apply length_fill_rest|].
  rewrite Nat.min_id. destruct n as [|n]; [done|]. cbn [percentage_loop]. rewrite decide_False by done.
  set (this := Z.to_nat (u32 (_ / 100))).
  set (rnd := Nat.min this (S n)). rewrite length_app. unfold fill_random_buf_. rewrite fill_bytes_length by lia.
  case_decide as El; [cbn [length]; lia|]. rewrite wrapu_small by lia.
  rewrite decide_False by lia. rewrite decide_True by lia. rewrite length_app, length_fill_rest.
  replace (S n - rnd - (S n - rnd))%nat with O by lia.
  replace (percentage_loop n _ _ _ 0 _) with (@nil Z) by (by destruct n). cbn [length]. lia.
Qed.

(** The buffer of a unit that is about to be written. *)
Definition writable (o : vopts) (u : io_u) : Prop :=
  block_ok o (get_hdr_inc o u) /\ pattern_ok o /\ (length (buf u) mod get_hdr_inc o u = 0)%nat /\
  Z.of_nat (length (buf u)) < 2 ^ 32 /\ buf_filled_len u = O /\ 0 <= rand_seed u < 2 ^ 64 /\
  (length (verify_pattern o) <= length (buf u))%nat.

Lemma filled o vs u : writable o u -> exists u' vs',
  fill_verify_pattern o vs u 0 false = (u', vs') /\ length (buf u') = length (buf u) /\
    patterned o u' 0 (get_hdr_inc o u) (buf u') /\
  0 <= rand_seed u' < 2 ^ 64 /\ numberio u' = numberio u.
Proof.
  intros (_ & [_ Hp] & _ & Hn & Hf & Hs & Hl). unfold fill_verify_pattern, patterned. case_decide as E.
  - destruct (get_next_seed vs) as [seed vs'] eqn:Es.
    exists (set_buf (set_seed u seed) (fill_buffer_ o seed (length (buf u)))), vs'.
    cbn [buf set_buf set_seed rand_seed numberio]. split_and!; [done|by apply length_fill_buffer|done| | |done].
    all: unfold get_next_seed in Es; destruct (rand_ vs) as [r1 vs1], (rand_ vs1) as [r2 vs2]; injection Es as <- _;
      pose proof (wrapu_range 64 (r1 * r2)); lia.
  - assert (Hb : (0 < length (buf u))%nat) by (destruct (verify_pattern o); [done|cbn in Hl; lia]).
    rewrite decide_False by (rewrite Hf; lia). rewrite paste_format_tiles by done.
    eexists _, vs. split; [reflexivity|]. cbn [buf set_buf set_filled rand_seed numberio pasted offset].
    rewrite length_tile.
    split_and!; try done; [|apply Hs..]. intros _. by rewrite Nat.mul_0_r.
Qed.

(** A read of the same place, whatever it finds there. *)
Definition same_place (o : vopts) (u v : io_u) : Prop :=
  length (buf v) = length (buf u) /\ offset v = offset u /\ verify_offset v = verify_offset u /\ numberio v = numberio u /\
  (rand_seed v = rand_seed u \/ negb (td_rw o) || ver_backlog o = true) /\ is_read v = true /\ trimmed v = false.

(** Uninitialised memory is there, with any contents. *)
Definition memory_ok (heap : list Z) (stack : nat -> list Z) : Prop :=
  length heap = 16%nat /\ forall n, (128 <= length (stack n))%nat.

(** Populating ends with a buffer of populated blocks. *)
Lemma populate_all o vs issues u heap :
  writable o u -> length heap = 16%nat -> exists u' vs' u1,
  populate_verify_io_u heap o vs issues u = Some (false, u', vs') /\ length (buf u') = length (buf u) /\
  populated o u1 (get_hdr_inc o u) 0 (buf u') /\
  forall v, same_place o u' v -> reads_back o u1 v /\ get_hdr_inc o v = get_hdr_inc o u.
Proof.
  intros Hw Hh. pose proof Hw as (Hok & Hp & Hm & _). pose proof Hok as ((_ & Hn2) & Hlt & _).
  set (w := set_numberio u (wrapu 16 issues)) in *. set (inc := get_hdr_inc o u) in *.
  assert (Hww : writable o w) by exact Hw. destruct (filled o vs w Hww) as (u1 & vs' & E1 & E2 & E3 & E4 & E5).
  assert (Ei : get_hdr_inc o u1 = inc) by (unfold inc, get_hdr_inc; by rewrite E2).
  change (get_hdr_inc o w) with inc in E3. change (length (buf w)) with (length (buf u)) in E2.
  pose proof (Nat.div_mod_eq (length (buf u)) inc).
  destruct (blocks_populated o u1 inc Hok Hp heap (length (buf u) / inc) Hh (buf u1) 0 (length (buf u1)) false)
    as (out & E6 & E7 & E8); [lia|rewrite E2; apply Nat.Div0.div_le_upper_bound; nia|done|].
  exists (set_buf u1 out), vs', u1. split_and!; [|by cbn [buf set_buf]; lia|done|].
  - unfold populate_verify_io_u. rewrite decide_False by done. fold w. unfold fill_pattern_headers.
    rewrite E1, Ei, E6. done.
  - intros v (Hb & Ho & Hvo & Hnum & Hs & Hr & Ht). cbn [buf set_buf offset verify_offset numberio rand_seed] in *.
    assert (Eiv : get_hdr_inc o v = inc) by (unfold get_hdr_inc; rewrite Hb, E7, E2; reflexivity).
    split; [|done]. repeat split; try done; try apply E4; [..|congruence]; rewrite E5; apply (wrapu_range 16); lia.
Qed.

(** C18: What [populate_verify_io_u] puts into a buffer, [verify_io_u] accepts when it reads it back, whatever
    the uninitialised memory of the two runs holds: for every type of verification that checks
    blocks, any interval that divides the buffer and has room for the header and a byte of data, patterns
    with the offset pasted in, and headers swapped into the data.  Two cases are excluded
    ([block_ok]): a SHA-512 block with fewer than 128 bytes of data, where the code compares
    uninitialised stack bytes, and a swapped place that overlaps the header or the end of the
    block. *)
Theorem verify_roundtrip o vs issues u heap heap' stack :
  writable o u -> fake_io o = false -> length heap = 16%nat -> memory_ok heap' stack -> exists u' vs',
  populate_verify_io_u heap o vs issues u = Some (false, u', vs') /\ length (buf u') = length (buf u) /\
  forall v, same_place o u' v -> buf v = buf u' -> verify_io_u stack heap' o v = Some (0, false).
Proof.
  intros Hw Hfk Hh [Hh' Hst]. pose proof Hw as (Hok & Hp & _). pose proof (inc_pos o _ Hok).
  destruct (populate_all o vs issues u heap Hw Hh) as (u' & vs' & u1 & E1 & E2 & E3 & E4). exists u', vs'.
  split_and!; [done|done|]. intros v Hv Hb. destruct (E4 v Hv) as [Hr Hi]. destruct Hv as (_ & _ & _ & _ & _ & Hrd & Ht).
  destruct (populated_passes o u1 _ Hok Hp stack heap' Hh' Hst 0 _ E3 (length (buf u')) v) as (v' & E5); [nia|done|done|].
  unfold verify_io_u. rewrite decide_False by (destruct Hok as ((_ & ?) & _); intros [?|?]; congruence).
  rewrite Hfk, Ht, Hb, Hi, E5. done.
Qed.

(** A job with two blocks in a unit and its headers swapped into the data. *)
Definition demo_opts (t : vtype) : vopts :=
  VOpts t 128 64 false true false false false [] [] 0 [] false true false false true 1.
Definition demo_unit : io_u := IoU (replicate 256 7) 4096 4096 5 0 1 2 0 false true.

Lemma demo_writable : writable (demo_opts VERIFY_CRC32C) demo_unit.
Proof.
  unfold writable, block_ok, pattern_ok, checked.
  change (get_hdr_inc (demo_opts VERIFY_CRC32C) demo_unit) with 128%nat. change (length (buf demo_unit)) with 256%nat.
  cbn [verify demo_opts hdr_size_ vhdr_size o_verify_offset verify_fmt verify_pattern buf_filled_len demo_unit
    rand_seed length].
  unfold HDR. split_and!; try done; try lia; try (constructor; fail); try (intros [?|?]; done).
Qed.

Lemma verify_roundtrip_witness :
  writable (demo_opts VERIFY_CRC32C) demo_unit /\ exists u' vs',
  populate_verify_io_u (replicate 16 9) (demo_opts VERIFY_CRC32C) (init_rand false) 3 demo_unit = Some (false, u', vs') /\
  length (buf u') = 256%nat /\
  forall v, same_place (demo_opts VERIFY_CRC32C) u' v -> buf v = buf u' ->
  verify_io_u (fun _ => replicate 128 0) (replicate 16 1) (demo_opts VERIFY_CRC32C) v = Some (0, false).
Proof.
  split; [exact demo_writable|]. apply (verify_roundtrip (demo_opts VERIFY_CRC32C) (init_rand false) 3 demo_unit).
  - exact demo_writable.
  - reflexivity.
  - reflexivity.
  - split; [reflexivity|]. intros n. rewrite length_replicate. lia.
Defined.
