(* ===== verification/VerifyDetect.v ===== *)
(** * Data verification: damage

    A single changed byte anywhere in a populated buffer, header, checksum or data, is
    reported when the type of verification is a CRC of 16 bits or more; and the
    two places where damage goes unnoticed. *)

From S2P Require Import Prelude Bits Stream Rand Crc CrcProofs Digest DigestSpec Hash HashProofs Pattern Verify VerifyProofs VerifySpec.

Open Scope Z_scope.

(** ** Buffers that differ in one byte *)

Definition differ1 (a b : list Z) : Prop :=
  exists pre x y post, a = pre ++ x :: post /\ b = pre ++ y :: post /\ x <> y /\ byte_ok y.

Lemma differ1_app a b l :
  differ1 (a ++ b) l -> (exists a', l = a' ++ b /\ differ1 a a') \/ (exists b', l = a ++ b' /\ differ1 b b').
Proof.
  intros (pre & x & y & post & E & -> & Hne & Hy). apply app_eq_app in E as (k & [[-> E]|[-> ->]]).
  - destruct k as [|x' k].
    + right. exists (y :: post). rewrite app_nil_r in *. cbn [app] in E. split; [done|]. subst b.
      by exists [], x, y, post.
    + injection E as <- ->. left. exists (pre ++ y :: k). rewrite <- app_assoc. split; [done|]. by exists pre, x, y, k.
  - right. exists (k ++ y :: post). rewrite <- app_assoc. split; [done|]. by exists k, x, y, post.
Qed.

Lemma differ1_l a a' b : differ1 a a' -> differ1 (a ++ b) (a' ++ b).
Proof. intros (pre & x & y & post & -> & -> & ? & ?). exists pre, x, y, (post ++ b). by rewrite <- !app_assoc. Qed.

Lemma differ1_r a b b' : differ1 b b' -> differ1 (a ++ b) (a ++ b').
Proof. intros (pre & x & y & post & -> & -> & ? & ?). exists (a ++ pre), x, y, post. by rewrite <- !app_assoc. Qed.

Lemma differ1_length a b : differ1 a b -> length b = length a.
Proof. intros (pre & x & y & post & -> & -> & _). by rewrite !length_app. Qed.

Lemma differ1_neq a b : differ1 a b -> a <> b.
Proof. intros (pre & x & y & post & -> & -> & Hne & _) E. apply app_inv_head in E. congruence. Qed.

Lemma differ1_bytes a b : differ1 a b -> Forall byte_ok a -> Forall byte_ok b.
Proof. intros (pre & x & y & post & -> & -> & _ & Hy). rewrite !Forall_app, !Forall_cons. tauto. Qed.

#[export] Hint Resolve differ1_l differ1_r : damage.

(** The codes see it. *)
Lemma code_differ1 w F feed init a b :
  code w F feed -> 0 <= init < 2 ^ w -> Forall byte_ok a -> differ1 a b ->
  foldl (code_byte F feed) init a <> foldl (code_byte F feed) init b.
Proof.
  intros K Hi Ha (pre & x & y & post & -> & -> & Hne & Hy) E. apply Hne.
  apply Forall_app in Ha as [Hpre Ha]. apply Forall_cons in Ha as [Hx Hpost].
  by apply (code_detects w F feed init pre x y post).
Qed.

(** ** Undoing the swap *)

Lemma unswap_differs o inc s' sd l t :
  block_ok o inc -> length s' = inc -> (forall t, unswap o (s' ++ t) = Some (sd ++ t)) -> differ1 s' l ->
  s' ≡ₚ sd /\ exists l', unswap o (l ++ t) = Some (l' ++ t) /\ differ1 sd l'.
Proof.
  intros Hok Hs Hun Hd. pose proof (differ1_length _ _ Hd) as Hll. unfold unswap in *.
  destruct (decide (o_verify_offset o <> O)) as [Hv|Hv].
  2: { specialize (Hun []). rewrite !app_nil_r in Hun. injection Hun as <-. split; [done|]. by exists l. }
  destruct (decide (hdr_size_ (verify o) = O)) as [E|E].
  { specialize (Hun []). rewrite E, !app_nil_r in *. injection Hun as <-. split; [done|]. by exists l. }
  destruct Hok as (_ & _ & _ & [?|[H1 H2]] & _); [done|]. pose proof (hdr_size_le (verify o)) as H200.
  set (n := hdr_size_ (verify o)) in *. set (k := o_verify_offset o) in *.
  destruct (split4 s' n k) as (a & b & c & d & -> & Ha & Hb & Hc); [done|lia|].
  assert (Hsw : forall a b c d, length a = n -> length b = (k - n)%nat -> length c = n ->
    forall t, memswp ((a ++ b ++ c ++ d) ++ t) k n = Some ((c ++ b ++ a ++ d) ++ t)).
  { clear -H1 H200 E. intros a b c d Ha Hb Hc t. rewrite <- !app_assoc. replace k with (length a + length b)%nat by lia.
    replace n with (length a) by lia. apply memswp_parts; [lia|lia|]. intros ->. cbn in Ha. lia. }
  specialize (Hun []). rewrite Hsw, !app_nil_r in Hun by done. injection Hun as <-. split.
  - solve_Permutation.
  - apply differ1_app in Hd as [(a' & -> & Hd)|(l1 & -> & Hd)].
    { exists (c ++ b ++ a' ++ d). pose proof (differ1_length _ _ Hd). rewrite Hsw by lia. eauto with damage. }
    apply differ1_app in Hd as [(b' & -> & Hd)|(l2 & -> & Hd)].
    { exists (c ++ b' ++ a ++ d). pose proof (differ1_length _ _ Hd). rewrite Hsw by lia. eauto with damage. }
    apply differ1_app in Hd as [(c' & -> & Hd)|(d' & -> & Hd)].
    { exists (c' ++ b ++ a ++ d). pose proof (differ1_length _ _ Hd). rewrite Hsw by lia. eauto with damage. }
    exists (c ++ b ++ a ++ d'). rewrite Hsw by lia. eauto 6 with damage.
Qed.

(** ** A damaged block *)

(** The types whose checksum sees every single byte. *)
Definition crcs (t : vtype) : bool :=
  match t with
  | VERIFY_CRC16 | VERIFY_CRC32 | VERIFY_CRC32C | VERIFY_CRC32C_INTEL | VERIFY_CRC64 => true
  | _ => false
  end.

Lemma word_bytes_neq k w a b :
  2 ^ w = 256 ^ Z.of_nat k -> 0 <= a < 2 ^ w -> 0 <= b < 2 ^ w -> a <> b -> word_bytes k a <> word_bytes k b.
Proof. intros Hw Ha Hb Hne E. apply Hne. rewrite Hw in *.
  by rewrite <- (le_word_bytes k a), <- (le_word_bytes k b), E. Qed.

Lemma sum_detects t a b : crcs t = true -> Forall byte_ok a -> differ1 a b -> sum_of t a <> sum_of t b.
Proof.
  intros Ht Ha Hd. pose proof (differ1_bytes _ _ Hd Ha) as Hb.
  assert (G : forall k w F feed init, code w F feed -> 2 ^ w = 256 ^ Z.of_nat k -> 0 <= init < 2 ^ w ->
    word_bytes k (foldl (code_byte F feed) init a) <> word_bytes k (foldl (code_byte F feed) init b)).
  { intros k w F feed init K Hw Hi. apply (word_bytes_neq k w);
      [done|by apply (code_fold_range w)..|]. by apply (code_differ1 w). }
  unfold sum_of. destruct t; try done; cbn [checksum default id]; unfold fill_crc64, fill_crc32, fill_crc32c, fill_crc16.
  - rewrite !crc64_eq by done. apply (G 8%nat 64); [apply crc64_code|done|lia].
  - rewrite !crc32_eq by done. apply (G 4%nat 32); [apply crc32_code|done|lia].
  - rewrite !crc32c_eq by done. apply (G 4%nat 32); [apply crc32c_code|done|lia].
  - rewrite !crc32c_eq by done. apply (G 4%nat 32); [apply crc32c_code|done|lia].
  - rewrite !crc16_eq by done. apply (G 2%nat 16); [apply crc16_code|done|lia].
Qed.

Lemma switch_fail stack heap o v p num t data :
  crcs t = true -> verify_data o p = Some data -> stored t p <> sum_of t data ->
  length (stored t p) = vhdr_size t -> Forall byte_ok (stored t p) ->
  verify_switch stack heap t o v p num = Some EILSEQ.
Proof.
  intros Ht Hdata Hne Hl Hb.
  assert (G : forall k x, sum_of t data = word_bytes k x -> vhdr_size t = k -> cmp_number p (word_bytes k x) = EILSEQ).
  { intros k x Es Ek. unfold cmp_number. rewrite decide_False; [done|]. intros E. apply Hne. rewrite Es.
    rewrite length_word_bytes in E. unfold field in E. rewrite <- Ek in E. fold (stored t p) in E.
    apply le_word_inj; [by rewrite length_word_bytes, Hl|done|apply word_bytes_byte|]. by rewrite E, Ek. }
  unfold verify_switch. destruct t; try done; rewrite Hdata; cbn [mbind option_bind]; f_equal; by apply G.
Qed.

Lemma header_cases o v p num inc :
  verify_header o v p num inc = EILSEQ \/
  verify_header o v p num inc = 0 /\ crc32c_sw (take CRC_OFF p) = hdr_crc32 p.
Proof.
  unfold verify_header. destruct (decide (hdr_magic p <> _)); [by left|]. destruct (decide (hdr_len p <> _)); [by left|].
  destruct (decide (hdr_rand_seed p <> _)); [by left|]. destruct (decide (hdr_offset p <> _)); [by left|].
  destruct (_ && _); [by left|]. destruct (decide (crc32c_sw _ <> _)) as [|E]; [by left|].
  right. split; [done|]. by apply dec_stable.
Qed.

(** The header protects itself. *)
Lemma header_damaged o u v num inc h' r :
  differ1 (fill_hdr_ o u num inc (rand_seed u)) h' -> verify_header o v (h' ++ r) num inc = EILSEQ.
Proof.
  intros Hd. destruct (header_cases o v (h' ++ r) num inc) as [E|[_ E]]; [done|exfalso]. revert E.
  pose proof (header_bytes o u num inc) as Hb. unfold fill_hdr_ in *. set (h := word_bytes 2 FIO_HDR_MAGIC ++ _) in *.
  assert (Hh : length h = CRC_OFF) by (unfold h; rewrite !length_app, !length_word_bytes; done).
  cbv zeta in *. apply Forall_app in Hb as [Hb _]. pose proof (crc32c_range h Hb) as Hr.
  apply differ1_app in Hd as [(h1 & -> & Hd)|(w & -> & Hd)]; pose proof (differ1_length _ _ Hd) as Hl; unfold hdr_crc32.
  - rewrite <- !app_assoc. rewrite take_app_length' by lia. rewrite (field_skip CRC_OFF 0 4) by lia. rewrite field_here.
    change (256 ^ Z.of_nat 4) with (2 ^ 32). rewrite Z.mod_small by done. intros E. symmetry in E. revert E.
    rewrite !crc32c_eq by (by eauto using differ1_bytes). apply (code_differ1 32); [apply crc32c_code|lia|done|done].
  - rewrite <- !app_assoc. rewrite take_app_length' by lia. rewrite (field_skip CRC_OFF 0 4) by lia.
    rewrite length_word_bytes in Hl. unfold field. rewrite drop_0, take_app_length' by done. intros E.
    apply (differ1_neq _ _ Hd). apply le_word_inj.
    + by rewrite length_word_bytes, Hl.
    + apply word_bytes_byte.
    + eapply differ1_bytes; [done|apply word_bytes_byte].
    + rewrite le_word_mod, <- E. by apply Z.mod_small.
Qed.

Lemma block_damaged o u v num inc stack heap s s' l t :
  block_ok o inc -> crcs (verify o) = true -> reads_back o u v -> length s = inc -> length s' = inc ->
    Forall byte_ok s' ->
  (forall t, unswap o (s' ++ t) = Some (sealed o u num inc s ++ t)) -> differ1 s' l ->
  verify_block stack heap o v (l ++ t) num inc = Some (inl EILSEQ) \/
  exists v' l', verify_block stack heap o v (l ++ t) num inc = Some (inr (EILSEQ, v', l' ++ t)) /\ length l' = inc.
Proof.
  intros Hok Ht Hv Hs Hs' Hb Hun Hd. destruct (unswap_differs o inc s' _ l t Hok Hs' Hun Hd) as (Hperm & l' & Hl & Hd').
  rewrite Hperm in Hb. pose proof (length_sealed o u num inc Hok s Hs) as Hls. pose proof (differ1_length _ _ Hd') as Hll.
  assert (Hno : verify o <> VERIFY_PATTERN_NO_HDR) by (intros E; by rewrite E in Ht).
  pose proof (length_sum _ (data_small o inc Hok s Hs) _ (data_enough o inc Hok s Hs)) as Hsum.
  assert (Hlt : (HDR <= inc)%nat) by (destruct Hok as (_ & Hi & _); rewrite hdr_size_eq in Hi by done; lia).
  unfold verify_block. fold (unswap o (l ++ t)). rewrite Hl. cbn [mbind option_bind]. fold (reseed o v (l' ++ t)).
  rewrite (decide_False (P := verify o = VERIFY_PATTERN_NO_HDR)) by done.
  rewrite (decide_True (P := (HDR <= length (l' ++ t))%nat)) by (rewrite length_app; lia). cbn [mbind option_bind].
  rewrite (decide_False (P := verify o = VERIFY_NONE)) by (apply Hok).
  assert (Hsd : forall sum d, l' = fill_hdr_ o u num inc (rand_seed u) ++ sum ++ d ->
    length sum = vhdr_size (verify o) -> length d = (inc - hdr_size_ (verify o))%nat ->
    sum <> sum_of (verify o) d -> Forall byte_ok sum ->
    verify_header o (reseed o v (l' ++ t)) (l' ++ t) num inc = 0 /\
    verify_switch stack heap (verify o) o (reseed o v (l' ++ t)) (l' ++ t) num = Some EILSEQ).
  { intros sum d -> H1 H2 H3 H4. rewrite <- !app_assoc.
    destruct (data_of_parts o u v num inc Hok Hv sum d t Hno H1 H2) as (E1 & E2 & E3). split; [done|].
    apply (switch_fail _ _ _ _ _ _ _ d); [done|done| | |]; by rewrite E3. }
  unfold sealed in *. rewrite (decide_False (P := verify o = VERIFY_PATTERN_NO_HDR)) in * by done.
  set (d := drop (hdr_size_ (verify o)) s) in *.
  assert (Hdl : length d = (inc - hdr_size_ (verify o))%nat) by (unfold d; rewrite length_drop; lia).
  apply Forall_app in Hb as [_ Hb]. apply Forall_app in Hb as [Hbs Hbd].
  apply differ1_app in Hd' as [(h' & -> & Hd')|(r & -> & Hd')].
  { left. rewrite <- app_assoc. rewrite (header_damaged o u _ num inc h') by done. by rewrite decide_True by done. }
  right. assert (Hsw : verify_header o (reseed o v ((fill_hdr_ o u num inc (rand_seed u) ++ r) ++ t))
      ((fill_hdr_ o u num inc (rand_seed u) ++ r) ++ t) num inc = 0 /\
    verify_switch stack heap (verify o) o (reseed o v ((fill_hdr_ o u num inc (rand_seed u) ++ r) ++ t))
      ((fill_hdr_ o u num inc (rand_seed u) ++ r) ++ t) num = Some EILSEQ).
  { apply differ1_app in Hd' as [(sum & -> & Hd')|(d' & -> & Hd')]; pose proof (differ1_length _ _ Hd') as Hln.
    - apply (Hsd sum d); [done|lia|done| |by eapply differ1_bytes]. intros E. by apply (differ1_neq _ _ Hd').
    - apply (Hsd (sum_of (verify o) d) d'); [done|done|lia| |done]. by apply sum_detects. }
  destruct Hsw as [-> ->]. rewrite (decide_False (P := 0 <> 0)) by tauto. cbn [mbind option_bind].
  eexists _, _. split; [reflexivity|]. lia.
Qed.

(** ** A damaged buffer *)

Lemma loop_stops stack heap fuel o v p num inc ret :
  p = [] \/ ret <> 0 /\ verify_fatal o = true -> verify_loop stack heap fuel o v p num inc ret = Some (inr (ret, v)).
Proof.
  intros H. destruct fuel as [|fuel]; [done|]. cbn [verify_loop]. case_decide; [done|]. rewrite decide_True; [done|].
  by destruct H.
Qed.

Lemma populated_damaged o u inc stack heap num out :
  block_ok o inc -> pattern_ok o -> length heap = 16%nat -> (forall n, (128 <= length (stack n))%nat) ->
    crcs (verify o) = true ->
  populated o u inc num out ->
  forall fuel v l, Forall byte_ok out -> differ1 out l -> verify_fatal o = true \/ length out = inc ->
  (length out <= fuel * inc)%nat -> reads_back o u v -> get_hdr_inc o v = inc ->
  verify_loop stack heap fuel o v l num inc 0 = Some (inl EILSEQ) \/
  exists v', verify_loop stack heap fuel o v l num inc 0 = Some (inr (EILSEQ, v')).
Proof.
  intros Hok Hp Hh Hst Ht. pose proof (inc_pos o inc Hok) as H0.
  induction 1 as [num|num s s' out Hs Hs' Hps Hun Hpop IH]; intros fuel v l Hb Hd Hf Hfu Hv Hi.
  { destruct Hd as ([] & ? & ? & ? & ? & _); done. }
  rewrite length_app in Hf, Hfu. destruct fuel as [|fuel]; [lia|]. apply Forall_app in Hb as [Hb1 Hb2].
  apply differ1_app in Hd as [(l' & -> & Hd)|(l' & -> & Hd)]; pose proof (differ1_length _ _ Hd) as Hl.
  - cbn [verify_loop]. rewrite (decide_False (P := l' ++ out = [])) by (apply (not_nil _ _ inc); lia).
    rewrite decide_False by tauto.
    destruct (block_damaged o u v num inc stack heap s s' l' out Hok Ht Hv Hs Hs' Hb1 Hun Hd) as [E|(v' & l'' & E & El)];
      rewrite E; cbn [mbind option_bind]; [by left|]. right. exists v'.
    rewrite drop_app_length' by done. apply loop_stops. destruct Hf as [Hf|Hf]; [by right|].
    left. apply length_zero_iff_nil. lia.
  - destruct (populated_step o u inc Hok Hp stack heap Hh Hst v num s s' l' fuel) as (v' & E & Hv' & Hi'); try done.
    rewrite E. apply IH; try done; [|lia]. destruct Hf as [Hf|Hf]; [by left|].
    assert (out = []) as -> by (apply length_zero_iff_nil; lia). destruct Hd as ([] & ? & ? & ? & ? & _); done.
Qed.

(** Damage in one block is the last word of the check: the job stops at it, or there is no other
    block. *)
Definition last_word (o : vopts) (u : io_u) : Prop :=
  verify_fatal o = true \/ length (buf u) = get_hdr_inc o u.

(** C19: A single changed byte anywhere in a populated buffer, in a header, in a checksum or in the
    data, makes [verify_io_u] return EILSEQ when the type of verification is one of the
    CRCs of 16 bits or more, with swapped headers too, provided that verify_fatal is set or the unit
    is one block ([last_word]).  Without either the theorem is false: the verdict of a bad block is
    overwritten by that of the next one ([masked_error]). *)
Theorem verify_detects_byte o vs issues u heap heap' stack :
  writable o u -> crcs (verify o) = true -> fake_io o = false -> last_word o u ->
  length heap = 16%nat -> memory_ok heap' stack -> exists u' vs',
  populate_verify_io_u heap o vs issues u = Some (false, u', vs') /\
  forall v, Forall byte_ok (buf u') -> same_place o u' v -> differ1 (buf u') (buf v) ->
  exists fatal, verify_io_u stack heap' o v = Some (EILSEQ, fatal).
Proof.
  intros Hw Ht Hfk Hlast Hh [Hh' Hst]. pose proof Hw as (Hok & Hp & _). pose proof (inc_pos o _ Hok).
  destruct (populate_all o vs issues u heap Hw Hh) as (u' & vs' & u1 & E1 & E2 & E3 & E4). exists u', vs'.
  split; [done|]. intros v Hb Hv Hd. destruct (E4 v Hv) as [Hr Hi]. destruct Hv as (Hl & _ & _ & _ & _ & Hrd & Htr).
  assert (Hlast' : verify_fatal o = true \/ length (buf u') = get_hdr_inc o u) by (destruct Hlast; [by left|right;
    congruence]).
  unfold verify_io_u. rewrite decide_False by (destruct Hok as ((_ & ?) & _); intros [?|?]; congruence).
  rewrite Hfk, Htr, Hi.
  destruct (populated_damaged o u1 _ stack heap' 0 _ Hok Hp Hh' Hst Ht E3 (length (buf v)) v (buf v)) as [E|(v' & E)];
    try done; [nia|..]; rewrite E; cbn [mbind option_bind]; by eexists.
Qed.

Lemma verify_detects_byte_witness : exists u' vs',
  populate_verify_io_u (replicate 16 9) (demo_opts VERIFY_CRC32C) (init_rand false) 3 demo_unit = Some (false, u', vs') /\
  forall v, Forall byte_ok (buf u') -> same_place (demo_opts VERIFY_CRC32C) u' v -> differ1 (buf u') (buf v) ->
  exists fatal, verify_io_u (fun _ => replicate 128 0) (replicate 16 1) (demo_opts VERIFY_CRC32C) v = Some (EILSEQ,
    fatal).
Proof.
  apply (verify_detects_byte (demo_opts VERIFY_CRC32C) (init_rand false) 3 demo_unit).
  - exact demo_writable.
  - reflexivity.
  - reflexivity.
  - left. reflexivity.
  - reflexivity.
  - split; [reflexivity|]. intros n. rewrite length_replicate. lia.
Defined.

(** ** Damage that goes unnoticed *)

(** Set [verify_fatal] aside and damage the data of the first of two blocks: the second block's result
    overwrites the first one's. *)
Definition forgiving : vopts := VOpts VERIFY_CRC32C 128 0 false false false false false [] [] 0 [] false true false false true 1.

Definition damaged (i : nat) : option io_u :=
  '(_, u, _) ← populate_verify_io_u (replicate 16 9) forgiving (init_rand false) 3 demo_unit;
  Some (set_buf u (<[i := Z.lxor (nth i (buf u) 0) 1]> (buf u))).

Example masked_error :
  (damaged 100 ≫= verify_io_u (fun _ => replicate 128 0) (replicate 16 1) forgiving) = Some (0, false) /\
  (damaged 228 ≫= verify_io_u (fun _ => replicate 128 0) (replicate 16 1) forgiving) = Some (EILSEQ, false).
Proof. vm_compute. auto. Qed.

(** The SHA-512 check sees only the first block of the data and what is left over at its end. *)
Lemma sha512_blind mem a mid mid' r :
  length mem = 128%nat -> length a = 128%nat -> length mid = length mid' -> (length mid mod 128 = 0)%nat ->
    (length r < 128)%nat ->
  fill_sha512 mem (a ++ mid ++ r) = fill_sha512 mem (a ++ mid' ++ r).
Proof.
  intros Hm Ha Hl H0 Hr. unfold fill_sha512. rewrite !sha512_buf by done. unfold sha512_left.
  assert (E : forall x, length x = length mid -> drop (128 * (length (a ++ x ++ r) / 128)) (a ++ x ++ r) = r /\
    take 128 (a ++ x ++ r) = a /\ (128 <= length (a ++ x ++ r))%nat).
  { intros x Hx. rewrite !length_app. split_and!; [|by apply take_app_length'|lia].
    pose proof (Nat.div_mod_eq (length mid) 128) as Hq. set (q := (length mid / 128)%nat) in *.
    replace (length a + (length x + length r))%nat with (length r + (q + 1) * 128)%nat by lia.
    rewrite Nat.div_add, (Nat.div_small (length r)) by lia. rewrite app_assoc. apply drop_app_length'.
    rewrite length_app. lia. }
  destruct (E mid eq_refl) as (-> & -> & H1), (E mid' ltac:(lia)) as (-> & -> & H2). by rewrite !decide_True by done.
Qed.

(** ** The pattern check *)

Lemma first_bad_spec q b : forall m, (m < length q)%nat ->
  first_bad q m b = if decide (b = tile q m (length b)) then None else Some EILSEQ.
Proof.
  induction b as [|x b IH]; intros m Hm; [done|]. cbn [first_bad length].
  assert (Et : tile q m (S (length b)) = nth m q 0 :: tile q (S m) (length b)).
  { unfold tile. cbn [seq fmap list_fmap]. rewrite Nat.add_0_r, Nat.mod_small by done. f_equal.
    rewrite <- seq_shift. rewrite <- list_fmap_compose. apply list_fmap_ext. intros i y _. cbn.
    by rewrite Nat.add_succ_r. }
  rewrite Et. case_decide as Hx.
  - rewrite decide_False; [done|]. intros E. injection E as E _. done.
  - subst x. set (m' := if decide (S m = length q) then O else S m).
    assert (Hm' : (m' < length q)%nat /\ tile q m' (length b) = tile q (S m) (length b)).
    { unfold m'. case_decide as E; [|split; [lia|done]]. split; [lia|]. rewrite <- (tile_mod q (S m)), E,
        Nat.Div0.mod_same. done. }
    destruct Hm' as [H1 H2]. rewrite IH, H2 by done. apply decide_ext. split; [by intros <-|]. intros E. by injection E.
Qed.

(** The check of a block against its pattern, which compares without a loop and searches only
    after a mismatch, always has a verdict: success if and only if every byte of
    the data is the pattern's byte at its place in the unit, EILSEQ otherwise; the line
    the source takes for unreachable is unreachable. *)
Theorem pattern_verdict o u p num :
  verify_pattern o <> [] -> pattern_ok o -> (hdr_size_ (verify o) <= get_hdr_inc o u <= length p)%nat ->
  let data := take (get_hdr_inc o u - hdr_size_ (verify o)) (drop (hdr_size_ (verify o)) p) in
  verify_io_u_pattern o u p num =
    Some (if decide (data = tile (pasted o u) (get_hdr_inc o u * num + hdr_size_ (verify o)) (length data)) then 0
      else EILSEQ).
Proof.
  intros Hne Hp Hl data. assert (H0 : length (verify_pattern o) <> O) by (by destruct (verify_pattern o)).
  unfold verify_io_u_pattern. rewrite decide_False by done. unfold paste_format_inplace.
  rewrite (decide_False (P := verify_pattern o = [])) by done. fold (pasted o u).
  rewrite (decide_True (P := _ /\ _)) by lia.
  rewrite <- (length_pasted o u Hp) in *. fold data. set (m := ((_ + _) mod _)%nat).
  assert (Hm : (m < length (pasted o u))%nat) by (by apply Nat.mod_upper_bound).
  rewrite first_bad_spec by done. pose proof (cmp_pattern_iff (pasted o u) m data Hm) as Hc.
  replace (tile (pasted o u) m (length data)) with (tile (pasted o u) (get_hdr_inc o u * num + hdr_size_ (verify o))
    (length data)) in *
    by (unfold m; by rewrite tile_mod).
  destruct (decide (data = _)) as [E|E].
  - rewrite decide_True by tauto. done.
  - rewrite decide_False by tauto. done.
Qed.

Lemma pattern_verdict_witness :
  let o := VOpts VERIFY_PATTERN_NO_HDR 4 0 false false false false false [1; 2;
    3] [] 0 [] false true false false true 1 in
  let u := IoU [1; 2; 3; 1; 2; 3; 1; 9] 0 0 0 0 0 0 0 false true in
  let data := take 4 (drop 0 [2; 3; 1; 9]) in
  verify_io_u_pattern o u [2; 3; 1; 9] 1 =
    Some (if decide (data = tile (pasted o u) (4 * 1 + 0) (length data)) then 0 else EILSEQ).
Proof.
  intros o u data. apply (pattern_verdict o u [2; 3; 1; 9] 1).
  - discriminate.
  - split; [intros _; discriminate|constructor].
  - split; apply Nat.leb_le; reflexivity.
Defined.

(** ** Trimmed blocks *)

(** A buffer whose first 16 bytes are zero and which equals itself shifted by 16 is zero. *)
Lemma shifted_zero data :
  Forall (fun b => b = 0) (take 16 data) -> (16 < length data)%nat ->
  same (length data - 16) data (drop 16 data) = true -> Forall (fun b => b = 0) data.
Proof.
  intros H16 Hl Hs. rewrite same_iff in Hs by (rewrite ?length_drop; lia).
  assert (G : forall i, (i < length data)%nat -> nth i data 0 = 0).
  { intros i. induction i as [i IH] using lt_wf_ind. intros Hi. destruct (decide (i < 16)%nat) as [H|H].
    - rewrite <- (nth_take data 16) by done. rewrite Forall_forall in H16. apply H16.
      rewrite list_elem_of_In. apply nth_In. rewrite length_take. lia.
    - specialize (Hs (i - 16)%nat ltac:(lia)). rewrite nth_drop0 in Hs. replace (16 + (i - 16))%nat with i in Hs by lia.
      rewrite <- Hs. apply IH; lia. }
  apply Forall_forall. intros x Hx. apply list_elem_of_In, (In_nth _ _ 0) in Hx as (i & Hi & <-). by apply G.
Qed.

(** The check that a trimmed block reads as zeros, which compares the buffer with itself shifted
    by 16 bytes, succeeds exactly when every byte is zero; when it fails, the
    slow search stops at the first byte that is not. *)
Theorem mem_is_zero_exact data :
  (mem_is_zero data = true <-> Forall (fun b => b = 0) data) /\
  (mem_is_zero_slow data).1 = mem_is_zero data /\
  (mem_is_zero data = false -> Forall (fun b => b = 0) (take (mem_is_zero_slow data).2 data) /\
     ((mem_is_zero_slow data).2 < length data)%nat /\ nth (mem_is_zero_slow data).2 data 0 <> 0).
Proof.
  assert (G : mem_is_zero data = true <-> Forall (fun b => b = 0) data).
  { unfold mem_is_zero. case_bool_decide as H16.
    - case_decide as Hl; [by rewrite take_ge in H16 by lia|]. split; [intros Hs; apply shifted_zero; [done|lia|done]|].
      intros Hz. apply same_iff; [lia|rewrite length_drop; lia|]. intros i _.
      assert (Z0 : forall l, Forall (fun b => b = 0) l -> forall k, nth k l 0 = 0).
      { clear. induction l as [|x l IH]; intros Hl [|k]; try done; inversion_clear Hl; [done|by apply IH]. }
      rewrite !Z0; [done|by apply Forall_drop|done].
    - split; [done|]. intros Hz. exfalso. apply H16. by apply Forall_take. }
  assert (S : ((mem_is_zero_slow data).1 = true /\ Forall (fun b => b = 0) data) \/
    ((mem_is_zero_slow data).1 = false /\ Forall (fun b => b = 0) (take (mem_is_zero_slow data).2 data) /\
     ((mem_is_zero_slow data).2 < length data)%nat /\ nth (mem_is_zero_slow data).2 data 0 <> 0)).
  { clear G. induction data as [|b data IH]; [by left|]. cbn [mem_is_zero_slow]. case_decide as Hb.
    - right. cbn [fst snd take nth length]. split_and!; [done|constructor|lia|done].
    - destruct (mem_is_zero_slow data) as [r n]. cbn [fst snd take nth length] in *.
      destruct IH as [[-> IH]|(-> & IH1 & IH2 & IH3)]; [left|right]; [by split; [|constructor]|].
      split_and!; [done|by constructor|lia|done]. }
  destruct S as [[E Hz]|(E & H1 & H2 & H3)].
  - apply G in Hz as Ez. rewrite E, Ez. done.
  - assert (Ez : mem_is_zero data = false).
    { apply not_true_is_false. intros Hz. apply G in Hz. apply H3. rewrite Forall_forall in Hz. apply Hz.
      rewrite list_elem_of_In. by apply nth_In. }
    rewrite E. done.
Qed.
