(* ===== verification/Smalloc.v ===== *)
(** * The shared-memory allocator (src/fio/smalloc.c)

    fio's processes and threads share objects that come from a few pools of
    anonymous shared memory.  A pool is divided into blocks of 32 bytes; a bitmap
    of 32-bit words says which are taken.  An object is preceded by a header
    with its size and a guard word and followed by another guard word.

    Memory is a map from addresses to bytes.  [bitmap] is the part of the pool's
    mapping behind the blocks.  The lock of a pool makes each operation on it atomic.
    A run of an operation can end in a [fault] instead of a result: a failed
    assertion, an access outside the bitmap, or a shift by at least the width of
    its operand, which C leaves undefined. *)

From S2P Require Import Prelude Bits Stream.

Open Scope Z_scope.

Inductive fault := Assertion | OutOfBounds | UndefinedShift | NoFuel.

Notation res A := (fault + A)%type.

#[export] Instance res_ret : MRet (fun A => res A) := fun _ x => inr x.
#[export] Instance res_bind : MBind (fun A => res A) := fun _ _ f m => match m with inl e => inl e | inr x => f x end.

Definition assert_ (P : Prop) `{Decision P} : res unit := if decide P then inr tt else inl Assertion.

Definition SMALLOC_BPB : Z := 32.
Definition SMALLOC_BPI : Z := 32.
Definition SMALLOC_BPL : Z := SMALLOC_BPB * SMALLOC_BPI.
Definition INITIAL_SIZE : Z := 16 * 1024 * 1024.
Definition INITIAL_POOLS : nat := 8.
Definition MAX_POOLS : nat := 16.
Definition SMALLOC_PRE_RED : Z := 0xdeadbeef.
Definition SMALLOC_POST_RED : Z := 0x5aa55aa5.
Definition FULL : Z := 2 ^ 32 - 1.  (* -1U *)
Definition HDR_SIZE : Z := 16.      (* sizeof(struct block_hdr) *)

Record pool := Pool {
  map : Z;
  bitmap : list Z;
  free_blocks : Z;
  nr_blocks : Z;
  next_non_full : Z;
  mmap_size : Z
}.

Definition set_bitmap (p : pool) (b : list Z) : pool :=
  Pool (map p) b (free_blocks p) (nr_blocks p) (next_non_full p) (mmap_size p).
Definition set_free (p : pool) (n : Z) : pool :=
  Pool (map p) (bitmap p) n (nr_blocks p) (next_non_full p) (mmap_size p).
Definition set_next (p : pool) (n : Z) : pool :=
  Pool (map p) (bitmap p) (free_blocks p) (nr_blocks p) n (mmap_size p).

Definition word (b : list Z) (i : Z) : res Z :=
  if decide (0 <= i) then match b !! Z.to_nat i with Some w => inr w | None => inl OutOfBounds end
  else inl OutOfBounds.

(** ** The bitmap *)

Definition ptr_valid (p : pool) (ptr : Z) : bool :=
  let pool_size := u32 (nr_blocks p * SMALLOC_BPL) in
  bool_decide (map p <= ptr) && bool_decide (ptr < map p + pool_size).

Definition size_to_blocks (size : Z) : Z := u64 (u64 (size + SMALLOC_BPB) - 1) / SMALLOC_BPB.

(** The functions that are applied to the words of a range: the result and the new word. *)
Definition mask_cmp (w mask : Z) : res (bool * Z) := inr (bool_decide (Z.land w mask = 0), w).
Definition mask_clear (w mask : Z) : res (bool * Z) :=
  assert_ (Z.land w mask = mask);; mret (true, Z.land w (u32 (Z.lnot mask))).
Definition mask_set (w mask : Z) : res (bool * Z) :=
  assert_ (Z.land w mask = 0);; mret (true, Z.lor w mask).

(** [1U << k] and its like. *)
Definition shl32 (x k : Z) : res Z := if decide (0 <= k < 32) then inr (u32 (Z.shiftl x k)) else inl UndefinedShift.

(** How many blocks of the word are meant, from which bit on, and their mask. *)
Definition word_mask (idx nr : Z) : res (Z * Z) :=
  let this_blocks := u32 nr in
  let '(this_blocks, idx) :=
    if decide (u32 (this_blocks + idx) > SMALLOC_BPI) then
      let this_blocks := u32 (SMALLOC_BPI - idx) in (this_blocks, u32 (SMALLOC_BPI - this_blocks))
    else (this_blocks, idx) in
  if decide (this_blocks = SMALLOC_BPI) then mret (this_blocks, FULL)
  else
    one ← shl32 1 this_blocks;
    mask ← shl32 (u32 (one - 1)) idx;
    mret (this_blocks, mask).

(** Every round goes to the next word, so there are at most as many as words. *)
Fixpoint blocks_iter_ (fuel : nat) (p : pool) (func : Z -> Z -> res (bool * Z)) (pool_idx idx nr : Z)
  : res (bool * pool) :=
  match fuel with
  | O => inl NoFuel
  | S fuel' =>
      if decide (nr = 0) then mret (true, p)
      else if decide (pool_idx >= nr_blocks p) then mret (false, p)
      else
        w ← word (bitmap p) pool_idx;
        '(this_blocks, mask) ← word_mask idx nr;
        '(ok, w) ← func w mask;
        let p := set_bitmap p (<[Z.to_nat pool_idx := w]> (bitmap p)) in
        if negb ok then mret (false, p)
        else blocks_iter_ fuel' p func (u32 (pool_idx + 1)) 0 (u64 (nr - this_blocks))
  end.

Definition blocks_iter (p : pool) (pool_idx idx nr : Z) (func : Z -> Z -> res (bool * Z)) : res (bool * pool) :=
  blocks_iter_ (S (S (length (bitmap p)))) p func pool_idx idx nr.

Definition blocks_free (p : pool) (pool_idx idx nr : Z) : res bool :=
  '(ok, _) ← blocks_iter p pool_idx idx nr mask_cmp; mret ok.
Definition set_blocks (p : pool) (pool_idx idx nr : Z) : res pool :=
  '(_, p) ← blocks_iter p pool_idx idx nr mask_set; mret p.
Definition clear_blocks (p : pool) (pool_idx idx nr : Z) : res pool :=
  '(_, p) ← blocks_iter p pool_idx idx nr mask_clear; mret p.

(** The word is an [int]: it is shifted with its sign, and [ffz] gets it extended to 64 bits. *)
Definition find_next_zero (w start : Z) : res Z :=
  assert_ (w <> FULL);;
  if decide (0 <= start < 32) then mret (ffz (u64 (Z.shiftr (i32 w) start)) + start) else inl UndefinedShift.

(** ** Finding room *)

(** [for (j = 0; j < nr_blocks; j++)]: the first word with a free block. *)
Fixpoint first_nonfull (b : list Z) (j : Z) : option Z :=
  match b with
  | [] => None
  | w :: b' => if decide (w <> FULL) then Some j else first_nonfull b' (j + 1)
  end.

Fixpoint best_from (fuel : nat) (p : pool) (i : Z) : res Z :=
  match fuel with
  | O => inl NoFuel
  | S fuel' =>
      w ← word (bitmap p) i;
      if decide (w = FULL) then
        match (if decide (i = nr_blocks p - 1) then first_nonfull (take (Z.to_nat (nr_blocks p)) (bitmap p)) 0 else None) with
        | Some j => mret j
        | None => best_from fuel' p (u32 (i + 1))
        end
      else mret i
  end.

Definition find_best_index (p : pool) : res Z :=
  assert_ (free_blocks p <> 0);;
  best_from (S (length (bitmap p))) p (next_non_full p).

(** [while (i < pool->nr_blocks)]: the place of a free range, if the loop finds one.  The
    position moves on in every round. *)
Fixpoint search (fuel : nat) (p : pool) (nr i last_idx : Z) : res (option (Z * Z)) :=
  match fuel with
  | O => inl NoFuel
  | S fuel' =>
      if decide (i >= nr_blocks p) then mret None
      else
        w ← word (bitmap p) i;
        if decide (w = FULL) then search fuel' p nr (u32 (i + 1)) 0
        else
          idx ← find_next_zero w last_idx;
          ok ← blocks_free p i idx nr;
          if negb ok then
            let idx := u32 (idx + nr) in
            if decide (idx < SMALLOC_BPI) then search fuel' p nr i idx
            else search fuel' p nr (u32 (i + idx / SMALLOC_BPI)) 0
          else mret (Some (i, idx))
  end.

(** The address, if there is room, and the pool. *)
Definition smalloc_pool_ (p : pool) (size : Z) : res (option Z * pool) :=
  let nr := size_to_blocks size in
  if decide (nr > free_blocks p) then mret (None, p)
  else
    best ← find_best_index p;
    let p := set_next p best in
    found ← search (S (32 * length (bitmap p))) p nr (next_non_full p) 0;
    match found with
    | None => mret (None, p)
    | Some (i, idx) =>
        p ← set_blocks p i idx nr;
        let offset := u32 (i * SMALLOC_BPL + idx * SMALLOC_BPB) in
        mret (Some (map p + offset), set_free p (free_blocks p - nr))
    end.

(** ** Objects *)

Definition memory := Z -> Z.

Definition store (m : memory) (a : Z) (l : list Z) : memory :=
  fun x => if decide (a <= x < a + Z.of_nat (length l)) then nth (Z.to_nat (x - a)) l 0 else m x.
Definition load (m : memory) (a : Z) (n : nat) : list Z := (fun i => m (a + Z.of_nat i)) <$> seq 0 n.

(** Fields of the header. *)
Definition hdr_size (m : memory) (hdr : Z) : Z := le_word (load m hdr 8).
Definition hdr_prered (m : memory) (hdr : Z) : Z := le_word (load m (hdr + 8) 4).

Definition postred_ptr (m : memory) (hdr : Z) : Z :=
  let ptr := u64 (hdr + hdr_size m hdr - 4) in
  Z.land (u64 (ptr + 3)) (u64 (Z.lnot 3)).

Definition fill_redzone (m : memory) (hdr : Z) : memory :=
  let postred := postred_ptr m hdr in
  store (store m (hdr + 8) (word_bytes 4 SMALLOC_PRE_RED)) postred (word_bytes 4 SMALLOC_POST_RED).

Definition sfree_check_redzone (m : memory) (hdr : Z) : res unit :=
  assert_ (hdr_prered m hdr = SMALLOC_PRE_RED);;
  assert_ (le_word (load m (postred_ptr m hdr) 4) = SMALLOC_POST_RED).

(** With room for the header and the guard behind, rounded to the alignment of an [int]. *)
Definition size_to_alloc_size (size : Z) : Z :=
  let alloc_size := u64 (size + HDR_SIZE) in
  let alloc_size := u64 (alloc_size + 4) in
  Z.land (u64 (alloc_size + 3)) (u64 (Z.lnot 3)).

Definition smalloc_pool (p : pool) (m : memory) (size : Z) : res (option Z * pool * memory) :=
  let alloc_size := size_to_alloc_size size in
  '(ptr, p) ← smalloc_pool_ p alloc_size;
  match ptr with
  | None => mret (None, p, m)
  | Some hdr =>
      let m := store m hdr (word_bytes 8 alloc_size) in
      let m := fill_redzone m hdr in
      mret (Some (hdr + HDR_SIZE), p, store m (hdr + HDR_SIZE) (replicate (Z.to_nat size) 0))
  end.

Definition sfree_pool (p : pool) (m : memory) (ptr : Z) : res pool :=
  if decide (ptr = 0) then mret p
  else
    let hdr := ptr - HDR_SIZE in
    assert_ (ptr_valid p hdr = true);;
    sfree_check_redzone m hdr;;
    let offset := hdr - map p in
    let i := u32 (offset / SMALLOC_BPL) in
    let idx := u32 ((offset mod SMALLOC_BPL) / SMALLOC_BPB) in
    p ← clear_blocks p i idx (size_to_blocks (hdr_size m hdr));
    let p := if decide (i < next_non_full p) then set_next p i else p in
    mret (set_free p (u64 (free_blocks p + size_to_blocks (hdr_size m hdr)))).

(** ** All pools *)

Record heap := Heap { pools : list pool; last_pool : nat; mem : memory }.

(** The first pool an address belongs to. *)
Definition owner (ps : list pool) (ptr : Z) : option (nat * pool) := list_find (fun p => ptr_valid p ptr = true) ps.

(** A pointer of no pool is only reported. *)
Definition sfree (h : heap) (ptr : Z) : res heap :=
  if decide (ptr = 0) then mret h
  else
    match owner (pools h) ptr with
    | Some (k, p) => p ← sfree_pool p (mem h) ptr; mret (Heap (<[k := p]> (pools h)) (last_pool h) (mem h))
    | None => mret h
    end.

(** [for (; i < end_pool; i++)] *)
Fixpoint try_pools (n : nat) (h : heap) (size : Z) (i : nat) : res (option Z * heap) :=
  match n with
  | O => mret (None, h)
  | S n' =>
      match pools h !! i with
      | None => inl OutOfBounds
      | Some p =>
          '(ptr, p, m) ← smalloc_pool p (mem h) size;
          let h := Heap (<[i := p]> (pools h)) (last_pool h) m in
          match ptr with
          | Some ptr => mret (Some ptr, Heap (pools h) i m)
          | None => try_pools n' h size (S i)
          end
      end
  end.

(** What is reported when there is no room, which tries all pools again. *)
Fixpoint debug_pools (n : nat) (h : heap) (size : Z) (i : nat) : res heap :=
  match n with
  | O => mret h
  | S n' =>
      match pools h !! i with
      | None => inl OutOfBounds
      | Some p =>
          h ← (if decide (size <> 0 /\ free_blocks p >= size_to_blocks (size_to_alloc_size size)) then
                 '(ptr, p, m) ← smalloc_pool p (mem h) size;
                 let h := Heap (<[i := p]> (pools h)) (last_pool h) m in
                 match ptr with
                 | Some ptr => h ← sfree h ptr; mret (Heap (pools h) i (mem h))
                 | None => mret h
                 end
               else mret h);
          debug_pools n' h size (S i)
      end
  end.

Definition smalloc_debug (h : heap) (size : Z) : res heap := debug_pools (length (pools h)) h size 0.

(** From the pool that served the last request to the end, then the pools before it. *)
Definition smalloc (h : heap) (size : Z) : res (option Z * heap) :=
  if decide (size <> u32 size) then mret (None, h)
  else
    let last := last_pool h in
    '(ptr, h) ← try_pools (length (pools h) - last) h size last;
    '(ptr, h) ← match ptr with
                | Some ptr => mret (Some ptr, h)
                | None =>
                    if decide (last_pool h <> O) then
                      try_pools (last_pool h) (Heap (pools h) 0 (mem h)) size 0
                    else mret (None, h)
                end;
    match ptr with
    | Some ptr => mret (Some ptr, h)
    | None => h ← smalloc_debug h size; mret (None, h)
    end.

Definition scalloc (h : heap) (nmemb size : Z) : res (option Z * heap) := smalloc h (u64 (nmemb * size)).

(** The string with its terminating zero. *)
Definition smalloc_strdup (h : heap) (str : list Z) : res (option Z * heap) :=
  '(ptr, h) ← smalloc h (Z.of_nat (length str) + 1);
  match ptr with
  | Some ptr => mret (Some ptr, Heap (pools h) (last_pool h) (store (mem h) ptr (str ++ [0])))
  | None => mret (None, h)
  end.

(** ** Setting up *)

(** The size of the mapping and the pool that is put into it; [mapped] is what [mmap] returns, [None] also
    when the semaphore cannot be made. *)
Definition add_pool (h : heap) (mapped : option Z) (alloc_size : Z) : bool * heap :=
  if decide (length (pools h) = MAX_POOLS) then (false, h)
  else
    let alloc_size := u32 (u32 (alloc_size + 4) + HDR_SIZE) in
    let alloc_size := if decide (alloc_size < INITIAL_SIZE) then INITIAL_SIZE else alloc_size in
    let alloc_size := u32 (Z.land (alloc_size + SMALLOC_BPL - 1) (u64 (Z.lnot (SMALLOC_BPL - 1)))) in
    let bitmap_blocks := alloc_size / SMALLOC_BPL in
    let alloc_size := u32 (alloc_size + bitmap_blocks * 4) in
    match mapped with
    | None => (false, h)
    | Some ptr =>
        (true, Heap (pools h ++ [Pool ptr (replicate (Z.to_nat bitmap_blocks) 0) (bitmap_blocks * SMALLOC_BPI)
                                      bitmap_blocks 0 alloc_size]) (last_pool h) (mem h))
    end.

(** [INITIAL_POOLS] times, until one fails; none at all fails an assertion. *)
Fixpoint sinit_loop (n : nat) (h : heap) (maps : list (option Z)) (pool_size : Z) : heap :=
  match n, maps with
  | S n', m :: maps' => let '(ok, h') := add_pool h m pool_size in if ok then sinit_loop n' h' maps' pool_size else h
  | _, _ => h
  end.

Definition sinit (h : heap) (maps : list (option Z)) (pool_size : Z) : res heap :=
  let h' := sinit_loop INITIAL_POOLS h maps pool_size in
  assert_ (length (pools h') <> length (pools h));; mret h'.
