(* ===== verification/SmallocBits.v ===== *)
(** * The shared-memory allocator: the bitmap

    The bitmap read as a sequence of blocks, taken or free: what the loops over
    its words test and change, how many blocks are free, and where the search
    ends. *)

From S2P Require Import Prelude Bits Stream Smalloc.

Open Scope Z_scope.

(** ** Words of 32 bits *)

Definition word32 (w : Z) : Prop := 0 <= w < 2 ^ 32.

Lemma word32_bits_high w j : word32 w -> 32 <= j -> Z.testbit w j = false.
Proof. intros Hw Hj. apply (bits_bound 32) in Hw; [|lia]. by apply Hw. Qed.

Lemma word32_intro w : 0 <= w -> (forall j, 32 <= j -> Z.testbit w j = false) -> word32 w.
Proof. intros Hw H. apply (bits_bound 32); [lia|]. done. Qed.

(** The bits [idx .. idx + k - 1]. *)
Definition run (idx k : Z) : Z := Z.shiftl (Z.ones k) idx.

Lemma run_bits idx k j : 0 <= idx -> 0 <= k -> 0 <= j -> Z.testbit (run idx k) j = bool_decide (idx <= j < idx + k).
Proof. intros. unfold run. by apply testbit_run. Qed.

Lemma run_zero_iff w idx k : 0 <= idx -> 0 <= k ->
  Z.land w (run idx k) = 0 <-> forall j, idx <= j < idx + k -> Z.testbit w j = false.
Proof.
  intros Hi Hk. split.
  - intros E j Hj. apply (f_equal (fun z => Z.testbit z j)) in E. rewrite Z.land_spec, run_bits, Z.bits_0 in E by lia.
    rewrite bool_decide_true in E by lia. by rewrite andb_true_r in E.
  - intros H. apply Z.bits_inj'. intros j Hj. rewrite Z.land_spec, run_bits, Z.bits_0 by lia.
    case_bool_decide as B; [|apply andb_false_r]. by rewrite H.
Qed.

Lemma run_full_iff w idx k : 0 <= idx -> 0 <= k ->
  Z.land w (run idx k) = run idx k <-> forall j, idx <= j < idx + k -> Z.testbit w j = true.
Proof.
  intros Hi Hk. split.
  - intros E j Hj. apply (f_equal (fun z => Z.testbit z j)) in E. rewrite Z.land_spec, run_bits in E by lia.
    rewrite bool_decide_true in E by lia. by rewrite andb_true_r in E.
  - intros H. apply Z.bits_inj'. intros j Hj. rewrite Z.land_spec, run_bits by lia.
    case_bool_decide as B; [|apply andb_false_r]. by rewrite H.
Qed.

Lemma run_nonneg idx k : 0 <= k -> 0 <= run idx k.
Proof.
  intros Hk. apply Z.shiftl_nonneg. rewrite Z.ones_equiv. assert (0 < 2 ^ k) by (apply Z.pow_pos_nonneg; lia). lia.
Qed.

(** The mask of one word of a range. *)
Lemma word_mask_spec idx nr : 0 <= idx < 32 -> 0 < nr < 2 ^ 31 ->
  word_mask idx nr = inr (Z.min nr (32 - idx), run idx (Z.min nr (32 - idx))).
Proof.
  intros Hi Hn. unfold word_mask, SMALLOC_BPI. rewrite (wrapu_small 32 nr) by lia.
  rewrite (wrapu_small 32 (nr + idx)) by lia.
  assert (E : (if decide (nr + idx > 32) then (u32 (32 - idx), u32 (32 - u32 (32 - idx))) else (nr, idx)) =
    (Z.min nr (32 - idx), idx)).
  { case_decide; [|f_equal; lia]. rewrite (wrapu_small 32 (32 - idx)) by lia. rewrite wrapu_small by lia. f_equal; lia. }
  cbv zeta. rewrite E. clear E. remember (Z.min nr (32 - idx)) as k eqn:Ek. case_decide as Hk.
  - assert (idx = 0) as -> by lia. rewrite Hk. done.
  - unfold shl32. rewrite decide_True by lia. cbn [mbind res_bind]. rewrite decide_True by lia.
    cbn [mbind res_bind mret res_ret].
    f_equal. f_equal. unfold run. rewrite Z.shiftl_1_l. assert (0 < 2 ^ k < 2 ^ 32).
    { split; [apply Z.pow_pos_nonneg; lia|apply Z.pow_lt_mono_r; lia]. }
    rewrite (wrapu_small 32 (2 ^ k)), (wrapu_small 32 (2 ^ k - 1)) by lia.
    replace (2 ^ k - 1) with (Z.ones k) by (rewrite Z.ones_equiv; lia). apply wrapu_small.
    apply word32_intro; [apply run_nonneg; lia|]. intros j Hj.
    rewrite testbit_run by lia. apply bool_decide_false. lia.
Qed.

(** ** Blocks *)

(** Whether block [k] is taken. *)
Definition taken (b : list Z) (k : Z) : bool := Z.testbit (nth (Z.to_nat (k / 32)) b 0) (k mod 32).

Definition bitmap_ok (b : list Z) : Prop := Forall word32 b.

Lemma taken_word b i j : 0 <= i -> 0 <= j < 32 -> taken b (32 * i + j) = Z.testbit (nth (Z.to_nat i) b 0) j.
Proof.
  intros Hi Hj. unfold taken. rewrite Z.mul_comm, Z.div_add_l, Z.div_small, Z.add_0_r by lia.
  by rewrite Z.add_comm, Z.mod_add, Z.mod_small by lia.
Qed.

Lemma block_split k : 0 <= k -> exists i j, k = 32 * i + j /\ 0 <= i /\ 0 <= j < 32.
Proof. intros Hk. exists (k / 32), (k mod 32). pose proof (Z.div_mod k 32). pose proof (Z.mod_pos_bound k 32).
  pose proof (Z.div_pos k 32). lia. Qed.

Lemma word_ok b i : 0 <= i < Z.of_nat (length b) -> word b i = inr (nth (Z.to_nat i) b 0).
Proof.
  intros Hi. unfold word. rewrite decide_True by lia.
  destruct (lookup_lt_is_Some_2 b (Z.to_nat i)) as [w Hw]; [lia|]. rewrite Hw. by erewrite nth_lookup_Some.
Qed.

Lemma bitmap_word b i : bitmap_ok b -> word32 (nth i b 0).
Proof.
  intros Hb. destruct (decide (i < length b)%nat) as [H|H].
  - unfold bitmap_ok in Hb. rewrite Forall_forall in Hb. apply Hb. rewrite list_elem_of_In. by apply nth_In.
  - rewrite nth_overflow by lia. unfold word32. lia.
Qed.

(** All blocks of a range in one state. *)
Definition all_are (v : bool) (b : list Z) (a n : Z) : Prop := forall k, a <= k < a + n -> taken b k = v.

(** A range whose blocks became [v]; the others are as they were. *)
Definition assigned (v : bool) (b b' : list Z) (a n : Z) : Prop :=
  length b' = length b /\ bitmap_ok b' /\
  forall k, 0 <= k -> taken b' k = if decide (a <= k < a + n) then v else taken b k.

Lemma assigned_nil v b a : bitmap_ok b -> assigned v b b a 0.
Proof. intros Hb. split_and!; [done|done|]. intros k Hk. by rewrite decide_False by lia. Qed.

Lemma assigned_app v b b1 b2 a n1 n2 : 0 <= n1 -> 0 <= n2 ->
  assigned v b b1 a n1 -> assigned v b1 b2 (a + n1) n2 -> assigned v b b2 a (n1 + n2).
Proof.
  intros Hn1 Hn2 (L1 & O1 & T1) (L2 & O2 & T2). split_and!; [lia|done|]. intros k Hk. rewrite T2, T1 by done.
  repeat case_decide; try done; lia.
Qed.

(** [mask_set] and [mask_clear] *)
Definition mask_assign (v : bool) : Z -> Z -> res (bool * Z) := if v then mask_set else mask_clear.

Lemma assign_word v w idx k : word32 w -> 0 <= idx -> 0 < k -> idx + k <= 32 ->
  (forall j, idx <= j < idx + k -> Z.testbit w j = negb v) -> exists w',
  mask_assign v w (run idx k) = inr (true, w') /\ word32 w' /\
  forall j, 0 <= j -> Z.testbit w' j = if decide (idx <= j < idx + k) then v else Z.testbit w j.
Proof.
  intros Hw Hi Hk Hik Hpre. destruct v; cbn [negb mask_assign] in *.
  - exists (Z.lor w (run idx k)). unfold mask_set, assert_. apply run_zero_iff in Hpre; [|lia..].
    rewrite decide_True by done.
    assert (Hbits : forall j, 0 <= j -> Z.testbit (Z.lor w (run idx k)) j = if decide (idx <= j < idx + k) then true
      else Z.testbit w j).
    { intros j Hj. rewrite Z.lor_spec, run_bits by lia. case_decide; [rewrite bool_decide_true by done;
        apply orb_true_r|].
      rewrite bool_decide_false by done. apply orb_false_r. }
    split_and!; [done| |done]. apply word32_intro.
    + apply Z.lor_nonneg. split; [apply Hw|]. apply run_nonneg. lia.
    + intros j Hj. rewrite Hbits, decide_False by lia. by apply word32_bits_high.
  - exists (Z.land w (u32 (Z.lnot (run idx k)))). unfold mask_clear, assert_. apply run_full_iff in Hpre; [|lia..].
    rewrite decide_True by done.
    assert (Hbits : forall j, 0 <= j -> Z.testbit (Z.land w (u32 (Z.lnot (run idx k)))) j =
      if decide (idx <= j < idx + k) then false else Z.testbit w j).
    { intros j Hj. rewrite Z.land_spec, testbit_wrapu, Z.lnot_spec, run_bits by lia. case_decide.
      - rewrite (bool_decide_true (_ /\ _)) by done. cbn [negb]. by rewrite andb_false_r, andb_false_r.
      - rewrite (bool_decide_false (_ /\ _)) by done. cbn [negb]. rewrite andb_true_r.
        destruct (decide (j < 32)); [rewrite bool_decide_true by done; apply andb_true_r|].
        rewrite (word32_bits_high w j) by (done || lia). done. }
    split_and!; [done| |done]. apply word32_intro.
    + apply Z.land_nonneg. left. apply Hw.
    + intros j Hj. rewrite Hbits, decide_False by lia. by apply word32_bits_high.
Qed.

Lemma assigned_word v b i idx k w' : bitmap_ok b -> 0 <= i < Z.of_nat (length b) -> 0 <= idx -> 0 < k ->
  idx + k <= 32 -> word32 w' ->
  (forall j, 0 <= j -> Z.testbit w' j = if decide (idx <= j < idx + k) then v else Z.testbit (nth (Z.to_nat i) b 0) j) ->
  assigned v b (<[Z.to_nat i := w']> b) (32 * i + idx) k.
Proof.
  intros Hb Hi Hidx Hk Hik Hw' Ht. split_and!; [apply length_insert|by apply Forall_insert|].
  intros q Hq. destruct (block_split q Hq) as (i' & j & -> & Hi' & Hj). rewrite !taken_word by done.
  rewrite nth_insert by lia.
  destruct (decide (i' = i)) as [->|Hne].
  - rewrite decide_True by lia. rewrite Ht by lia. repeat case_decide; try done; lia.
  - rewrite decide_False by lia. rewrite decide_False by lia. done.
Qed.

(** ** The loops over the words *)

Lemma set_bitmap_id p : set_bitmap p (bitmap p) = p.
Proof. by destruct p. Qed.

(** The number of words is what the pool says, and addresses in it fit into 32 bits. *)
Definition sized (p : pool) : Prop :=
  Z.of_nat (length (bitmap p)) = nr_blocks p /\ 0 < nr_blocks p < 2 ^ 22 /\ bitmap_ok (bitmap p).

Lemma mask_cmp_eq w mask : mask_cmp w mask = inr (bool_decide (Z.land w mask = 0), w).
Proof. done. Qed.

(** Testing a range: it is in the pool and free. *)
Lemma iter_cmp fuel : forall p i idx n,
  sized p -> 0 <= i -> 0 <= idx < 32 -> 0 <= n < 2 ^ 31 -> (i < nr_blocks p \/ n = 0 \/ idx = 0) ->
  i <= nr_blocks p -> nr_blocks p - i + 1 < Z.of_nat fuel -> exists ok,
  blocks_iter_ fuel p mask_cmp i idx n = inr (ok, p) /\
  (ok = true <-> (n = 0 \/ 32 * i + idx + n <= 32 * nr_blocks p) /\ all_are false (bitmap p) (32 * i + idx) n).
Proof.
  induction fuel as [|fuel IH]; intros p i idx n Hp Hi Hidx Hn Hin Hle Hf; [lia|]. cbn [blocks_iter_].
  destruct (decide (n = 0)) as [->|Hn0].
  { exists true. split; [done|]. split; [|done]. intros _. split; [by left|]. intros k Hk. lia. }
  destruct (decide (i >= nr_blocks p)) as [Hge|Hlt].
  { exists false. split; [done|]. split; [done|]. intros [[?|?] _]; lia. }
  destruct Hp as (Hl & Hnb & Hb). rewrite word_ok by lia. cbn [mbind res_bind]. rewrite word_mask_spec by lia.
  cbn [mbind res_bind].
  rewrite mask_cmp_eq. cbn [mbind res_bind]. set (w := nth (Z.to_nat i) (bitmap p) 0). set (k := Z.min n (32 - idx)) in *.
  assert (Hk : k = Z.min n (32 - idx)) by done. clearbody k.
  assert (Ew : <[Z.to_nat i := w]> (bitmap p) = bitmap p).
  { apply list_insert_id. unfold w. rewrite nth_lookup. destruct (lookup_lt_is_Some_2 (bitmap p) (Z.to_nat i)) as [x
      Hx]; [lia|]. by rewrite Hx. }
  rewrite Ew, set_bitmap_id.
  assert (Hword : Z.land w (run idx k) = 0 <-> all_are false (bitmap p) (32 * i + idx) k).
  { rewrite run_zero_iff by lia. unfold all_are. split; intros H.
    - intros q Hq. replace q with (32 * i + (q - 32 * i)) by lia. rewrite taken_word by lia. apply H. lia.
    - intros j Hj. unfold w. rewrite <- taken_word by lia. apply H. lia. }
  case_bool_decide as Hc; cbn [negb].
  - rewrite (wrapu_small 32 (i + 1)) by lia. rewrite (wrapu_small 64 (n - k)) by lia.
    destruct (IH p (i + 1) 0 (n - k)) as (ok & E & Hok); try done; try lia. rewrite E. exists ok. split; [done|].
    rewrite Hok. rewrite Hword in Hc. unfold all_are in *. split; intros [H1 H2]; (split; [lia|]).
    + intros q Hq. destruct (decide (q < 32 * i + idx + k)); [apply Hc; lia|apply H2; lia].
    + intros q Hq. apply H2. lia.
  - exists false. split; [done|]. split; [done|]. intros [_ H2]. exfalso. apply Hc, Hword. intros q Hq. apply H2. lia.
Qed.

(** Setting or clearing a range that is in the pool. *)
Lemma iter_assign v fuel : forall p i idx n,
  sized p -> 0 <= i -> 0 <= idx < 32 -> 0 <= n < 2 ^ 31 -> 32 * i + idx + n <= 32 * nr_blocks p ->
  all_are (negb v) (bitmap p) (32 * i + idx) n -> nr_blocks p - i + 1 < Z.of_nat fuel -> exists b',
  blocks_iter_ fuel p (mask_assign v) i idx n = inr (true, set_bitmap p b') /\ assigned v (bitmap p) b' (32 * i + idx) n.
Proof.
  induction fuel as [|fuel IH]; intros p i idx n Hp Hi Hidx Hn Hle Hall Hf; [lia|]. cbn [blocks_iter_].
  destruct (decide (n = 0)) as [->|Hn0].
  { exists (bitmap p). rewrite set_bitmap_id. split; [done|]. apply assigned_nil, Hp. }
  destruct Hp as (Hl & Hnb & Hb). rewrite decide_False by lia.
  rewrite word_ok by lia. cbn [mbind res_bind]. rewrite word_mask_spec by lia. cbn [mbind res_bind].
  set (k := Z.min n (32 - idx)) in *. assert (Hk : k = Z.min n (32 - idx)) by done. clearbody k.
  destruct (assign_word v (nth (Z.to_nat i) (bitmap p) 0) idx k) as (w' & E & Hw' & Ht); [by apply bitmap_word|lia..| |].
  { intros j Hj. rewrite <- taken_word by lia. apply Hall. lia. }
  rewrite E. cbn [mbind res_bind negb]. rewrite (wrapu_small 32 (i + 1)) by lia. rewrite (wrapu_small 64 (n - k)) by lia.
  set (b1 := <[Z.to_nat i := w']> (bitmap p)).
  assert (H1 : assigned v (bitmap p) b1 (32 * i + idx) k) by (apply assigned_word; (done || lia)).
  pose proof H1 as (L1 & O1 & T1).
  destruct (decide (n - k = 0)) as [Hz|Hz].
  - rewrite Hz. exists b1. replace n with k by lia. split; [|done]. destruct fuel; [lia|]. cbn [blocks_iter_].
    by rewrite decide_True by done.
  - destruct (IH (set_bitmap p b1) (i + 1) 0 (n - k)) as (b2 & E2 & H2); cbn [set_bitmap bitmap nr_blocks] in *; try lia.
    { split_and!; cbn [set_bitmap bitmap nr_blocks]; (done || lia). }
    { intros q Hq. rewrite T1, decide_False by lia. apply Hall. lia. }
    rewrite E2. exists b2. split; [done|]. replace n with (k + (n - k)) by lia.
    apply (assigned_app v _ b1); [lia|lia|done|].
    by replace (32 * i + idx + k) with (32 * (i + 1) + 0) by lia.
Qed.

Section range.
Context (p : pool) (Hp : sized p).

Lemma blocks_free_spec i idx n : 0 <= i < nr_blocks p -> 0 <= idx < 32 -> 0 <= n < 2 ^ 31 -> exists ok,
  blocks_free p i idx n = inr ok /\
  (ok = true <-> (n = 0 \/ 32 * i + idx + n <= 32 * nr_blocks p) /\ all_are false (bitmap p) (32 * i + idx) n).
Proof using Hp.
  intros Hi Hidx Hn. destruct Hp as (Hl & _). unfold blocks_free, blocks_iter.
  destruct (iter_cmp (S (S (length (bitmap p)))) p i idx n Hp) as (ok & E & Hok); try lia. rewrite E. by exists ok.
Qed.

Lemma set_blocks_spec i idx n : 0 <= i -> 0 <= idx < 32 -> 0 <= n < 2 ^ 31 -> 32 * i + idx + n <= 32 * nr_blocks p ->
  all_are false (bitmap p) (32 * i + idx) n -> exists b',
  set_blocks p i idx n = inr (set_bitmap p b') /\ assigned true (bitmap p) b' (32 * i + idx) n.
Proof using Hp.
  intros Hi Hidx Hn Hle Hall. destruct Hp as (Hl & _). unfold set_blocks, blocks_iter.
  change mask_set with (mask_assign true).
  destruct (iter_assign true (S (S (length (bitmap p)))) p i idx n Hp) as (b' & E & Hb'); try done; try lia.
  rewrite E. by exists b'.
Qed.

Lemma clear_blocks_spec i idx n : 0 <= i -> 0 <= idx < 32 -> 0 <= n < 2 ^ 31 -> 32 * i + idx + n <= 32 * nr_blocks p ->
  all_are true (bitmap p) (32 * i + idx) n -> exists b',
  clear_blocks p i idx n = inr (set_bitmap p b') /\ assigned false (bitmap p) b' (32 * i + idx) n.
Proof using Hp.
  intros Hi Hidx Hn Hle Hall. destruct Hp as (Hl & _). unfold clear_blocks, blocks_iter.
  change mask_clear with (mask_assign false).
  destruct (iter_assign false (S (S (length (bitmap p)))) p i idx n Hp) as (b' & E & Hb'); try done; try lia.
  rewrite E. by exists b'.
Qed.
End range.

(** ** Free blocks *)

Definition zeros (b : list Z) : Z := zsum (32 * length b) (fun k => if taken b (Z.of_nat k) then 0 else 1).

(** An indicator of a range, summed. *)
Lemma zsum_range N a n c : 0 <= a -> 0 <= n -> a + n <= Z.of_nat N ->
  zsum N (fun k => if decide (a <= Z.of_nat k < a + n) then c else 0) = n * c.
Proof.
  intros Ha Hn HN. assert (G : forall m, zsum m (fun k => if decide (a <= Z.of_nat k < a + n) then c else 0) =
    Z.max 0 (Z.min n (Z.of_nat m - a)) * c).
  { induction m as [|m IH]; [cbn [zsum]; lia|]. cbn [zsum]. rewrite IH. case_decide.
    - replace (Z.max 0 (Z.min n (Z.of_nat (S m) - a))) with (Z.max 0 (Z.min n (Z.of_nat m - a)) + 1) by lia. lia.
    - replace (Z.max 0 (Z.min n (Z.of_nat (S m) - a))) with (Z.max 0 (Z.min n (Z.of_nat m - a))) by lia. lia. }
  rewrite G. f_equal. lia.
Qed.

Lemma zeros_assigned v b b' a n : 0 <= a -> 0 <= n -> a + n <= 32 * Z.of_nat (length b) ->
  all_are (negb v) b a n -> assigned v b b' a n -> zeros b' = zeros b + (if v then - n else n).
Proof.
  intros Ha Hn Hle Hall (L & _ & T). unfold zeros. rewrite L.
  replace (if v then - n else n) with (n * (if v then -1 else 1)) by (destruct v; lia).
  rewrite <- (zsum_range (32 * length b) a n) by lia. rewrite <- zsum_add. apply zsum_ext. intros k Hk.
  rewrite T by lia. destruct (decide (a <= Z.of_nat k < a + n)) as [H|H]; [|lia].
  rewrite (Hall (Z.of_nat k)) by lia. by destruct v.
Qed.

Lemma zeros_nonneg b : 0 <= zeros b.
Proof.
  pose proof (zsum_bounds (32 * length b) (fun k => if taken b (Z.of_nat k) then 0 else 1) 0 1) as H.
  unfold zeros. assert (0 * Z.of_nat (32 * length b) = 0) by lia. destruct H; [|lia]. intros k _.
  destruct (taken b _); lia.
Qed.

Lemma full_bits w : word32 w -> w = FULL <-> forall j, 0 <= j < 32 -> Z.testbit w j = true.
Proof.
  intros Hw. unfold FULL. change (2 ^ 32 - 1) with (Z.ones 32). split.
  - intros -> j Hj. by apply Z.ones_spec_low.
  - intros H. apply Z.bits_inj'. intros j Hj. destruct (decide (j < 32)).
    + rewrite H, Z.ones_spec_low by lia. done.
    + rewrite word32_bits_high, Z.ones_spec_high by (done || lia). done.
Qed.

Lemma nonfull_bit w : word32 w -> w <> FULL -> exists j, 0 <= j < 32 /\ Z.testbit w j = false.
Proof.
  intros Hw Hne. destruct (decide (Forall (fun j => Z.testbit w (Z.of_nat j) = true) (seq 0 32))) as [H|H].
  - exfalso. apply Hne. apply full_bits; [done|]. intros j Hj. rewrite Forall_forall in H.
    rewrite <- (Z2Nat.id j) by lia. apply H. apply elem_of_seq. lia.
  - apply not_Forall_Exists, Exists_exists in H as (j & Hj & Hb); [|intros ?; apply _]. exists (Z.of_nat j).
    apply elem_of_seq in Hj. split; [lia|]. destruct (Z.testbit w (Z.of_nat j)) eqn:E; [by elim Hb|done].
Qed.

(** As long as a block is free some word is not full. *)
Lemma zeros_word b : bitmap_ok b -> 0 < zeros b -> exists i, 0 <= i < Z.of_nat (length b) /\ nth (Z.to_nat i) b 0 <> FULL.
Proof.
  intros Hb Hz. destruct (decide (Forall (fun w => w = FULL) b)) as [H|H].
  - exfalso. assert (E : zeros b = zsum (32 * length b) (fun _ => 0)).
    { apply zsum_ext. intros k Hk. destruct (block_split (Z.of_nat k) ltac:(lia)) as (i & j & E & Hi & Hj). rewrite
        E, taken_word by done.
      assert (Hw : nth (Z.to_nat i) b 0 = FULL).
      { rewrite Forall_forall in H. apply H. rewrite list_elem_of_In. apply nth_In. lia. }
      rewrite Hw. rewrite (proj1 (full_bits FULL ltac:(unfold word32, FULL; lia)) eq_refl j Hj). done. }
    rewrite E in Hz. pose proof (zsum_bounds (32 * length b) (fun _ => 0) 0 0 ltac:(lia)). lia.
  - apply not_Forall_Exists, Exists_exists in H as (w & Hw & Hne); [|intros ?; apply _].
    apply list_elem_of_In, (In_nth _ _ 0) in Hw as (i & Hi & E). exists (Z.of_nat i). rewrite Nat2Z.id, E.
    split; [lia|done].
Qed.

Lemma first_nonfull_spec b : forall j, Exists (fun w => w <> FULL) b -> exists i,
  first_nonfull b j = Some (j + Z.of_nat i) /\ (i < length b)%nat /\ nth i b 0 <> FULL.
Proof.
  induction b as [|w b IH]; intros j H; [by inversion H|]. cbn [first_nonfull]. case_decide as Hw.
  - exists 0%nat. cbn [nth length]. rewrite Z.add_0_r. split_and!; [done|lia|done].
  - apply Exists_cons in H as [H|H]; [done|]. destruct (IH (j + 1) H) as (i & E & Hi & Hn). exists (S i).
    cbn [nth length].
    rewrite E. split_and!; [f_equal; lia|lia|done].
Qed.

Lemma best_from_spec p fuel : sized p -> Exists (fun w => w <> FULL) (bitmap p) -> forall i,
  0 <= i < nr_blocks p -> nr_blocks p - i < Z.of_nat fuel -> exists j,
  best_from fuel p i = inr j /\ 0 <= j < nr_blocks p /\ nth (Z.to_nat j) (bitmap p) 0 <> FULL.
Proof.
  intros (Hl & Hnb & Hb) Hex. induction fuel as [|fuel IH]; intros i Hi Hf; [lia|]. cbn [best_from].
  rewrite word_ok by lia. cbn [mbind res_bind].
  destruct (decide (nth (Z.to_nat i) (bitmap p) 0 = FULL)) as [E|E]; [|by exists i].
  destruct (decide (i = nr_blocks p - 1)) as [Hlast|Hlast].
  - rewrite take_ge by lia. destruct (first_nonfull_spec (bitmap p) 0 Hex) as (j & Ej & Hj & Hn). rewrite Ej.
    exists (0 + Z.of_nat j). split_and!; [done|lia|lia|]. by replace (Z.to_nat (0 + Z.of_nat j)) with j by lia.
  - rewrite (wrapu_small 32 (i + 1)) by lia. apply IH; lia.
Qed.

(** ** The search *)

(** The next free block of the word, or a position far behind it when there is none. *)
Lemma find_next_zero_spec w start : word32 w -> w <> FULL -> 0 <= start < 32 ->
  (exists j, find_next_zero w start = inr j /\ start <= j < 32 /\ Z.testbit w j = false) \/
  (find_next_zero w start = inr (63 + start) /\ forall j, start <= j < 32 -> Z.testbit w j = true).
Proof.
  intros Hw Hne Hs. unfold find_next_zero, assert_. rewrite decide_True by done. cbn [mbind res_bind].
  rewrite decide_True by done.
  set (x := u64 (Z.shiftr (i32 w) start)).
  assert (Hx : forall j, 0 <= j < 64 -> Z.testbit x j = Z.testbit w (Z.min (j + start) 31)).
  { intros j Hj. unfold x. rewrite testbit_wrapu, bool_decide_true, Z.shiftr_spec by lia. cbn [andb].
    assert (E : i32 w = if Z.testbit w 31 then w - 2 ^ 32 else w).
    { rewrite Z.testbit_eqb by lia. unfold wraps, word32 in *. destruct (Z.eqb_spec (w / 2 ^ 31 mod 2) 1); dlia. }
    destruct (decide (j + start < 32)) as [H|H].
    - replace (Z.min (j + start) 31) with (j + start) by lia. rewrite E. destruct (Z.testbit w 31); [|done].
      rewrite <- (Z.mod_pow2_bits_low (w - 2 ^ 32) 32) by lia. rewrite <- (Z.mod_pow2_bits_low w 32) by lia. f_equal.
      replace (w - 2 ^ 32) with (w + (-1) * 2 ^ 32) by lia. by rewrite Z.mod_add by lia.
    - replace (Z.min (j + start) 31) with 31 by lia. rewrite E. destruct (Z.testbit w 31) eqn:E31.
      + rewrite Z.bits_above_log2_neg; [done|unfold word32 in Hw; lia|]. unfold word32 in Hw.
        assert (Z.log2 (Z.pred (- (w - 2 ^ 32))) < 32); [|lia].
        destruct (decide (Z.pred (- (w - 2 ^ 32)) = 0)) as [->|]; [cbn; lia|].
        apply Z.log2_lt_pow2; lia.
      + apply word32_bits_high; [done|lia]. }
  destruct (decide (lnot64 x = 0)) as [E0|E0].
  - right. unfold ffz. rewrite E0. split; [f_equal; change (ffs64 0) with 63; lia|]. intros j Hj.
    pose proof (testbit_lnot64 x (j - start) ltac:(lia)) as Hb. rewrite E0, Z.bits_0, bool_decide_true, Hx in Hb by lia.
    replace (Z.min (j - start + start) 31) with j in Hb by lia. cbn [andb] in Hb. by destruct (Z.testbit w j).
  - left. pose proof (ffs64_lowest (lnot64 x) (word64_lnot64 x) E0) as (H0 & Ht & Hlow).
    fold (ffz x) in H0, Ht, Hlow. set (z := ffz x) in *.
    assert (Hz : z < 64). { destruct (decide (z < 64)); [done|]. rewrite testbit_lnot64,
      bool_decide_false in Ht by lia. done. }
    rewrite testbit_lnot64, bool_decide_true, Hx in Ht by lia. cbn [andb] in Ht. apply negb_true_iff in Ht.
    assert (Hzs : z + start < 32).
    { destruct (decide (z + start < 32)); [done|]. exfalso. assert (Hb : Z.testbit (lnot64 x) (31 - start) = false)
        by (apply Hlow; lia).
      rewrite testbit_lnot64, bool_decide_true, Hx in Hb by lia. cbn [andb] in Hb.
      replace (Z.min (31 - start + start) 31) with 31 in Hb by lia.
      replace (Z.min (z + start) 31) with 31 in Ht by lia. by rewrite Ht in Hb. }
    exists (z + start). split_and!; [done|lia|lia|]. by replace (Z.min (z + start) 31) with (z + start) in Ht by lia.
Qed.

(** A position behind the word makes the next shift undefined. *)
Lemma blocks_free_behind p i n start : sized p -> 0 <= i < nr_blocks p -> 0 < n < 2 ^ 30 -> 0 <= start < 32 ->
  blocks_free p i (63 + start) n = inl UndefinedShift.
Proof.
  intros (Hl & Hnb & Hb) Hi Hn Hs. unfold blocks_free, blocks_iter. cbn [blocks_iter_].
  rewrite decide_False by lia. rewrite decide_False by lia. rewrite word_ok by lia. cbn [mbind res_bind].
  unfold word_mask, SMALLOC_BPI. rewrite (wrapu_small 32 n) by lia. rewrite (wrapu_small 32 (n + _)) by lia.
  rewrite decide_True by lia. cbv zeta.
  assert (E : u32 (32 - (63 + start)) = 2 ^ 32 + (32 - (63 + start))).
  { unfold wrapu. rewrite <- (Z.mod_add _ 1) by lia. rewrite Z.mod_small; lia. }
  rewrite E. rewrite decide_False by lia. unfold shl32. rewrite decide_False by lia. done.
Qed.

(** A range the search may hand out. *)
Definition free_range (p : pool) (n : Z) (r : option (Z * Z)) : Prop :=
  forall i idx, r = Some (i, idx) ->
  0 <= i /\ 0 <= idx < 32 /\ 32 * i + idx + n <= 32 * nr_blocks p /\ all_are false (bitmap p) (32 * i + idx) n.

Lemma search_spec p n fuel : sized p -> 0 < n < 2 ^ 30 -> forall i last,
  0 <= i < 2 ^ 31 -> 0 <= last < 32 -> 32 * nr_blocks p - (32 * i + last) < Z.of_nat fuel ->
  (i < nr_blocks p \/ 0 < Z.of_nat fuel) ->
  search fuel p n i last = inl UndefinedShift \/ exists r, search fuel p n i last = inr r /\ free_range p n r.
Proof.
  intros Hp Hn. pose proof Hp as (Hl & Hnb & Hb).
  induction fuel as [|fuel IH]; intros i last Hi Hlast Hf Hor; [lia|]. cbn [search].
  destruct (decide (i >= nr_blocks p)) as [Hge|Hlt]; [right; by exists None|].
  rewrite word_ok by lia. cbn [mbind res_bind]. set (w := nth (Z.to_nat i) (bitmap p) 0).
  assert (Hw : word32 w) by (by apply bitmap_word).
  destruct (decide (w = FULL)) as [Hfull|Hfull].
  { rewrite (wrapu_small 32) by lia. destruct fuel; [lia|]. apply IH; lia. }
  destruct (find_next_zero_spec w last Hw Hfull Hlast) as [(j & E & Hj & Hz)|[E _]]; rewrite E; cbn [mbind res_bind].
  - destruct (blocks_free_spec p Hp i j n) as (ok & Eok & Hok); [lia|lia|lia|]. rewrite Eok. cbn [mbind res_bind].
    destruct ok; cbn [negb].
    + right. exists (Some (i, j)). split; [done|]. intros i' j' [= <- <-].
      destruct (proj1 Hok eq_refl) as [[?|?] Hall]; [lia|].
      split_and!; (done || lia).
    + rewrite (wrapu_small 32 (j + n)) by lia. unfold SMALLOC_BPI.
      case_decide as Hd; destruct fuel; try lia; [apply IH; lia|].
      assert (1 <= (j + n) / 32 < 2 ^ 30) by (split; [apply Z.div_le_lower_bound; lia|apply Z.div_lt_upper_bound; lia]).
      rewrite (wrapu_small 32) by lia. apply IH; lia.
  - left. rewrite blocks_free_behind by (done || lia). done.
Qed.

(** A single block is found at once. *)
Lemma search_one p fuel i : sized p -> 0 <= i < nr_blocks p -> nth (Z.to_nat i) (bitmap p) 0 <> FULL -> (0 < fuel)%nat ->
  exists idx, search fuel p 1 i 0 = inr (Some (i, idx)).
Proof.
  intros Hp Hi Hne Hf. pose proof Hp as (Hl & Hnb & Hb). destruct fuel as [|fuel]; [lia|]. cbn [search].
  rewrite decide_False by lia.
  rewrite word_ok by lia. cbn [mbind res_bind]. rewrite decide_False by done.
  set (w := nth (Z.to_nat i) (bitmap p) 0) in *. assert (Hw : word32 w) by (by apply bitmap_word).
  destruct (find_next_zero_spec w 0 Hw Hne) as [(j & E & Hj & Hz)|[_ Hall]]; [lia| |].
  - rewrite E. cbn [mbind res_bind]. destruct (blocks_free_spec p Hp i j 1) as (ok & Eok & Hok); [lia|lia|lia|].
    rewrite Eok. cbn [mbind res_bind]. assert (ok = true) as ->; [|by exists j]. apply Hok. split; [lia|].
    intros k Hk. replace k with (32 * i + j) by lia. rewrite taken_word by lia. exact Hz.
  - exfalso. apply Hne. apply full_bits; [done|]. intros j Hj. apply Hall. lia.
Qed.

(** ** Allocating from a pool *)

Definition pool_ok (p : pool) : Prop :=
  sized p /\ 0 <= next_non_full p < nr_blocks p /\ free_blocks p = zeros (bitmap p).

Lemma zeros_le b : zeros b <= 32 * Z.of_nat (length b).
Proof.
  pose proof (zsum_bounds (32 * length b) (fun k => if taken b (Z.of_nat k) then 0 else 1) 0 1) as H.
  unfold zeros. destruct H; [|lia]. intros k _. destruct (taken b _); lia.
Qed.

(** The same pool but for the bitmap and the counters. *)
Definition same_place (p p' : pool) : Prop := map p' = map p /\ nr_blocks p' = nr_blocks p.

Lemma pool_assigned v p b' a n next : pool_ok p -> 0 <= a -> 0 <= n -> a + n <= 32 * nr_blocks p ->
  all_are (negb v) (bitmap p) a n -> assigned v (bitmap p) b' a n -> 0 <= next < nr_blocks p ->
  pool_ok (Pool (map p) b' (free_blocks p + if v then - n else n) (nr_blocks p) next (mmap_size p)).
Proof.
  intros ((Hl & Hnb & Hb) & _ & Hfree) Ha Hn Hle Hall Has Hnext. pose proof Has as (L & O & _).
  unfold pool_ok, sized. cbn [bitmap nr_blocks next_non_full free_blocks]. split_and!; try done; try lia.
  rewrite Hfree. symmetry. apply (zeros_assigned v _ _ a n); (done || lia).
Qed.

Lemma smalloc_pool_spec p size : pool_ok p -> let n := size_to_blocks size in 0 < n < 2 ^ 30 ->
  smalloc_pool_ p size = inl UndefinedShift \/
  exists r p', smalloc_pool_ p size = inr (r, p') /\ pool_ok p' /\ same_place p p' /\
    match r with
    | None => bitmap p' = bitmap p
    | Some a => exists s, a = map p + 32 * s /\ 0 <= s /\ s + n <= 32 * nr_blocks p /\
                  all_are false (bitmap p) s n /\ assigned true (bitmap p) (bitmap p') s n
    end.
Proof.
  intros Hp n Hn. pose proof Hp as (Hsz & Hnext & Hfree). pose proof Hsz as (Hl & Hnb & Hb). unfold smalloc_pool_. fold n.
  case_decide as Hgt; [right; by exists None, p|].
  assert (Hex : Exists (fun w => w <> FULL) (bitmap p)).
  { destruct (zeros_word (bitmap p) Hb) as (i & Hi & Hne); [lia|]. apply Exists_exists. exists (nth (Z.to_nat i)
      (bitmap p) 0).
    split; [|done]. rewrite list_elem_of_In. apply nth_In. lia. }
  unfold find_best_index, assert_. rewrite decide_True by lia. cbn [mbind res_bind].
  destruct (best_from_spec p (S (length (bitmap p))) Hsz Hex (next_non_full p)) as (j & Ej & Hj & Hne); [lia|lia|].
  rewrite Ej. cbn [mbind res_bind]. set (p1 := set_next p j).
  assert (Hp1 : pool_ok p1) by (unfold pool_ok, sized, p1; cbn [set_next bitmap nr_blocks next_non_full free_blocks];
    split_and!; (done || lia)).
  change (next_non_full p1) with j. change (bitmap p1) with (bitmap p).
  destruct (search_spec p1 n (S (32 * length (bitmap p))) (proj1 Hp1) Hn j 0) as [E|(r & E & Hr)];
    [lia|lia|cbn [p1 set_next nr_blocks]; lia|right; lia|rewrite E; by left|]. right. rewrite E. cbn [mbind res_bind].
  destruct r as [[i idx]|]; [|by exists None, p1]. destruct (Hr i idx eq_refl) as (Hi & Hidx & Hle & Hall).
  cbn [p1 set_next nr_blocks bitmap] in Hle, Hall.
  destruct (set_blocks_spec p1 (proj1 Hp1) i idx n) as (b' & Eb & Has); [lia|lia|lia|done|done|]. rewrite Eb.
  cbn [mbind res_bind].
  cbn [p1 set_next bitmap] in Has. eexists _, _. split; [reflexivity|].
  cbn [set_bitmap set_free map nr_blocks bitmap p1 set_next free_blocks].
  split_and!; [|done|].
  - replace (free_blocks p - n) with (free_blocks p + - n) by lia.
    apply (pool_assigned true p b' (32 * i + idx) n j Hp); (done || lia).
  - exists (32 * i + idx). unfold SMALLOC_BPL, SMALLOC_BPB, SMALLOC_BPI. rewrite wrapu_small by lia.
    split_and!; (done || lia).
Qed.
