(* ===== verification/SmallocProofs.v ===== *)
(** * The shared-memory allocator: objects

    What the pools and their memory mean to a client: a finite map from the
    addresses of live objects to their sizes.  The objects do not overlap, their
    guards are intact, and exactly their blocks are marked as taken. *)

From stdpp Require Import gmap.
From S2P Require Import Prelude Bits Stream Smalloc SmallocBits.

Open Scope Z_scope.

(** ** Sizes *)

Lemma align4 x : 0 <= x < 2 ^ 64 -> Z.land x (u64 (Z.lnot 3)) = x - x mod 4.
Proof.
  intros Hx. change (u64 (Z.lnot 3)) with (2 ^ 64 - 4).
  assert (E : 2 ^ 64 - 4 = Z.shiftl (Z.ones 62) 2) by reflexivity. rewrite E.
  transitivity (Z.shiftl (Z.shiftr x 2) 2).
  - apply Z.bits_inj'. intros j Hj. rewrite Z.land_spec, testbit_run by lia. rewrite Z.shiftl_spec by lia.
    destruct (decide (j < 2)) as [H|H].
    + rewrite (Z.testbit_neg_r _ (j - 2)) by lia. rewrite bool_decide_false by lia. apply andb_false_r.
    + rewrite Z.shiftr_spec by lia. replace (j - 2 + 2) with j by lia. destruct (decide (j < 64)).
      * rewrite bool_decide_true by lia. apply andb_true_r.
      * rewrite (word64_bits_high x j) by (done || lia). done.
  - rewrite Z.shiftl_mul_pow2, Z.shiftr_div_pow2 by lia. change (2 ^ 2) with 4. pose proof (Z.div_mod x 4). lia.
Qed.

(** The bytes an object needs, and its blocks. *)
Notation asize := size_to_alloc_size.
Definition nblk (size : Z) : Z := size_to_blocks (asize size).

Lemma asize_spec size : 0 <= size < 2 ^ 32 -> size + 20 <= asize size <= size + 23 /\ asize size mod 4 = 0.
Proof.
  intros Hs. unfold size_to_alloc_size, HDR_SIZE.
  rewrite (wrapu_small 64 (size + 16)), (wrapu_small 64 (size + 16 + 4)), (wrapu_small 64) by lia.
  rewrite align4 by lia. pose proof (Z.mod_pos_bound (size + 16 + 4 + 3) 4). split; [lia|].
  rewrite Zminus_mod, Z.mod_mod, Z.sub_diag by lia. done.
Qed.

Lemma nblk_spec size : 0 <= size < 2 ^ 32 -> 0 < nblk size < 2 ^ 30 /\ asize size <= 32 * nblk size.
Proof.
  intros Hs. pose proof (asize_spec size Hs) as [Ha _]. unfold nblk, size_to_blocks, SMALLOC_BPB.
  rewrite (wrapu_small 64 (asize size + 32)), (wrapu_small 64) by lia.
  pose proof (Z.div_mod (asize size + 32 - 1) 32). pose proof (Z.mod_pos_bound (asize size + 32 - 1) 32). lia.
Qed.

(** ** Memory *)

Lemma load_ext m m' a n : (forall x, a <= x < a + Z.of_nat n -> m x = m' x) -> load m a n = load m' a n.
Proof. intros H. unfold load. apply list_fmap_ext. intros i x Hx. apply lookup_seq in Hx as [-> Hi]. apply H. lia. Qed.

Lemma store_other m a l x : ~ (a <= x < a + Z.of_nat (length l)) -> store m a l x = m x.
Proof. intros H. unfold store. by rewrite decide_False. Qed.

Lemma load_store m a l : load (store m a l) a (length l) = l.
Proof.
  apply (nth_ext _ _ 0 0); [by unfold load; rewrite length_fmap, length_seq|]. unfold load.
  rewrite length_fmap, length_seq. intros i Hi.
  rewrite nth_lookup, list_lookup_fmap, lookup_seq_lt by done. cbn. unfold store. rewrite decide_True by lia.
  f_equal. lia.
Qed.

Lemma load_store_other m a l b n :
  b + Z.of_nat n <= a \/ a + Z.of_nat (length l) <= b -> load (store m a l) b n = load m b n.
Proof. intros H. apply load_ext. intros x Hx. apply store_other. lia. Qed.

(** ** Live objects *)

(** The addresses of an object's blocks, its header included. *)
Definition covers (ptr size x : Z) : Prop := ptr - 16 <= x < ptr - 16 + 32 * nblk size.

Definition guarded (m : memory) (ptr size : Z) : Prop :=
  hdr_size m (ptr - 16) = asize size /\ hdr_prered m (ptr - 16) = SMALLOC_PRE_RED /\
  le_word (load m (ptr - 16 + asize size - 4) 4) = SMALLOC_POST_RED.

Definition placed (p : pool) (ptr size : Z) : Prop :=
  exists s, ptr - 16 = map p + 32 * s /\ 0 <= s /\ s + nblk size <= 32 * nr_blocks p.

Definition pool_place (p : pool) : Prop := 0 < map p /\ map p mod 4 = 0 /\ map p + 1024 * nr_blocks p < 2 ^ 64.

Record heap_ok (h : heap) (live : gmap Z Z) : Prop := {
  hk_last : (last_pool h <= length (pools h))%nat;
  hk_pools : forall k p, pools h !! k = Some p -> pool_ok p /\ pool_place p;
  hk_apart : forall j k pj pk, j <> k -> pools h !! j = Some pj -> pools h !! k = Some pk ->
    map pj + 1024 * nr_blocks pj <= map pk \/ map pk + 1024 * nr_blocks pk <= map pj;
  hk_live : forall ptr size, live !! ptr = Some size ->
    0 <= size < 2 ^ 32 /\ (exists k p, pools h !! k = Some p /\ placed p ptr size) /\ guarded (mem h) ptr size;
  hk_taken : forall k p b, pools h !! k = Some p -> 0 <= b < 32 * nr_blocks p ->
    taken (bitmap p) b = true <-> exists ptr size, live !! ptr = Some size /\ covers ptr size (map p + 32 * b);
  hk_disjoint : forall ptr ptr' size size' x, live !! ptr = Some size -> live !! ptr' = Some size' ->
    covers ptr size x -> covers ptr' size' x -> ptr = ptr'
}.

(** The guards of an object depend on its own blocks only. *)
Lemma guarded_ext m m' ptr size : 0 <= size < 2 ^ 32 ->
  (forall x, covers ptr size x -> ~ (ptr <= x < ptr + size) -> m' x = m x) -> guarded m ptr size -> guarded m' ptr size.
Proof.
  intros Hs H (G1 & G2 & G3). pose proof (asize_spec size Hs) as [Ha _]. pose proof (nblk_spec size Hs) as [_ Hn].
  unfold guarded, hdr_size, hdr_prered, covers in *.
  split_and!; [rewrite <- G1|rewrite <- G2|rewrite <- G3]; f_equal; apply load_ext; intros x Hx; apply H; lia.
Qed.

(** What is placed in a pool is inside it. *)
Lemma placed_inside p ptr size x : 0 <= size < 2 ^ 32 -> placed p ptr size -> covers ptr size x ->
  map p <= x < map p + 1024 * nr_blocks p.
Proof. intros Hs (s & E & H0 & Hle) Hx. unfold covers in Hx. lia. Qed.

(** A covered address is in a covered block. *)
Lemma covers_block p ptr size x : placed p ptr size -> covers ptr size x ->
  covers ptr size (map p + 32 * ((x - map p) / 32)).
Proof. intros (s & E & H0 & Hle) Hx. unfold covers in *. rewrite E in *. pose proof (Z.div_mod (x - map p) 32).
  pose proof (Z.mod_pos_bound (x - map p) 32). nia. Qed.

(** Free blocks are not covered by any object. *)
Lemma free_uncovered h live k p s n ptr size x :
  heap_ok h live -> pools h !! k = Some p -> 0 <= s -> s + n <= 32 * nr_blocks p -> all_are false (bitmap p) s n ->
  live !! ptr = Some size -> covers ptr size x -> map p + 32 * s <= x < map p + 32 * (s + n) -> False.
Proof.
  intros Hh Hp Hs Hle Hall Hl Hc Hx. destruct (hk_live _ _ Hh ptr size Hl) as (Hsz & (k' & p' & Hp' & Hpl) & _).
  destruct (decide (k' = k)) as [->|Hne].
  - rewrite Hp in Hp'. injection Hp' as <-. set (b := (x - map p) / 32).
    assert (Hb : s <= b < s + n).
    { unfold b. split; [apply Z.div_le_lower_bound; lia|apply Z.div_lt_upper_bound; lia]. }
    assert (Ht : taken (bitmap p) b = true).
    { apply (hk_taken _ _ Hh k p b Hp); [lia|]. exists ptr, size. split; [done|]. by apply covers_block. }
    rewrite Hall in Ht by lia. done.
  - pose proof (placed_inside p' ptr size x Hsz Hpl Hc). pose proof (hk_apart _ _ Hh k' k p' p Hne Hp' Hp). lia.
Qed.

(** A pool's bitmap has been replaced, its place has not changed. *)
Lemma lookup_replaced h k (p p' : pool) j q :
  pools h !! k = Some p -> same_place p p' -> (<[k := p']> (pools h)) !! j = Some q ->
  exists q0, pools h !! j = Some q0 /\ map q = map q0 /\ nr_blocks q = nr_blocks q0 /\ (j <> k -> q = q0) /\
    (j = k -> q = p').
Proof.
  intros Hp [Hm Hn] Hj. destruct (decide (j = k)) as [->|Hne].
  - rewrite list_lookup_insert_eq in Hj by (by eapply lookup_lt_Some). injection Hj as <-. exists p. by split_and!.
  - rewrite list_lookup_insert_ne in Hj by done. exists q. by split_and!.
Qed.

Definition covered (live : gmap Z Z) (x : Z) : Prop := exists ptr size, live !! ptr = Some size /\ covers ptr size x.

Definition disjoint_objects (live : gmap Z Z) : Prop :=
  forall ptr ptr' size size' x, live !! ptr = Some size -> live !! ptr' = Some size' ->
  covers ptr size x -> covers ptr' size' x -> ptr = ptr'.

(** What an operation on one pool has to establish. *)
Lemma heap_replaced h live live' k p p' m' lp :
  heap_ok h live -> pools h !! k = Some p -> same_place p p' -> pool_ok p' -> (lp <= length (pools h))%nat ->
  (forall ptr size, live' !! ptr = Some size ->
     0 <= size < 2 ^ 32 /\ (exists j q, pools h !! j = Some q /\ placed q ptr size) /\ guarded m' ptr size) ->
  (forall b, 0 <= b < 32 * nr_blocks p -> taken (bitmap p') b = true <-> covered live' (map p + 32 * b)) ->
  (forall j q b, j <> k -> pools h !! j = Some q -> 0 <= b < 32 * nr_blocks q ->
     covered live (map q + 32 * b) <-> covered live' (map q + 32 * b)) ->
  disjoint_objects live' -> heap_ok (Heap (<[k := p']> (pools h)) lp m') live'.
Proof.
  intros Hh Hp Hsp Hok Hlp Hlive Htk Hoth Hdis. constructor; cbn [pools last_pool mem].
  - by rewrite length_insert.
  - intros j q Hq. destruct (lookup_replaced h k p p' j q Hp Hsp Hq) as (q0 & Hq0 & Em & En & Hne & Heq).
    destruct (hk_pools _ _ Hh j q0 Hq0) as [Hok0 Hpl0]. split; [|unfold pool_place in *; by rewrite Em, En].
    destruct (decide (j = k)) as [Hjk|Hjk]; [by rewrite (Heq Hjk)|by rewrite (Hne Hjk)].
  - intros i j qi qj Hij Hi Hj. destruct (lookup_replaced h k p p' i qi Hp Hsp Hi) as (q1 & Hq1 & -> & -> & _).
    destruct (lookup_replaced h k p p' j qj Hp Hsp Hj) as (q2 & Hq2 & -> & -> & _). by apply (hk_apart _ _ Hh i j).
  - intros ptr size Hl. destruct (Hlive ptr size Hl) as (Hs & (j & q & Hq & Hpl) & Hg). split_and!; [lia|lia| |done].
    destruct (decide (j = k)) as [->|Hjk].
    + exists k, p'. rewrite list_lookup_insert_eq by (by eapply lookup_lt_Some). split; [done|]. rewrite Hp in Hq.
      injection Hq as <-.
      unfold placed in *. destruct Hsp as [-> ->]. done.
    + exists j, q. by rewrite list_lookup_insert_ne.
  - intros j q b Hq Hb. destruct (lookup_replaced h k p p' j q Hp Hsp Hq) as (q0 & Hq0 & Em & En & Hne & Heq).
    rewrite Em. rewrite En in Hb.
    destruct (decide (j = k)) as [->|Hjk].
    + rewrite Hp in Hq0. injection Hq0 as <-. rewrite (Heq eq_refl). by apply Htk.
    + rewrite (Hne Hjk). rewrite (hk_taken _ _ Hh j q0 b Hq0 Hb). by apply (Hoth j q0 b).
  - exact Hdis.
Qed.

(** ** Allocating *)

(** The header, the guards and the cleared object. *)
Lemma object_written m hdr size : 0 <= size < 2 ^ 32 -> 0 < hdr -> hdr mod 4 = 0 -> hdr + asize size < 2 ^ 64 ->
  let m' := store (fill_redzone (store m hdr (word_bytes 8 (asize size))) hdr) (hdr + 16) (replicate (Z.to_nat size) 0) in
  guarded m' (hdr + 16) size /\ load m' (hdr + 16) (Z.to_nat size) = replicate (Z.to_nat size) 0 /\
  (forall x, ~ (hdr <= x < hdr + asize size) -> m' x = m x).
Proof.
  intros Hs Hh0 Hh4 Hhi m'. pose proof (asize_spec size Hs) as [Ha Ha4]. set (A := asize size) in *.
  set (m1 := store m hdr (word_bytes 8 A)).
  assert (E1 : hdr_size m1 hdr = A).
  { unfold hdr_size, m1. replace 8%nat with (length (word_bytes 8 A)) at 2 by apply length_word_bytes. rewrite load_store.
    apply le_word_bytes. change (256 ^ Z.of_nat 8) with (2 ^ 64). lia. }
  assert (Epost : postred_ptr m1 hdr = hdr + A - 4).
  { unfold postred_ptr. rewrite E1. rewrite (wrapu_small 64 (hdr + A - 4)),
      (wrapu_small 64) by lia. rewrite align4 by lia.
    assert (E4 : (hdr + A - 4 + 3) mod 4 = 3); [|lia]. replace (hdr + A - 4 + 3) with (hdr + A + 3 + (-1) * 4) by lia.
    rewrite Z.mod_add by lia. rewrite Z.add_mod by lia. rewrite (Z.add_mod hdr A), Hh4, Ha4 by lia. done. }
  assert (Em' : m' = store (store (store m1 (hdr + 8) (word_bytes 4 SMALLOC_PRE_RED)) (hdr + A - 4) (word_bytes 4
    SMALLOC_POST_RED))
                       (hdr + 16) (replicate (Z.to_nat size) 0)).
  { unfold m', fill_redzone. fold m1. by rewrite Epost. }
  clearbody m'. subst m'.
  assert (Hrep : Z.of_nat (length (replicate (Z.to_nat size) 0)) = size) by (rewrite length_replicate; lia).
  assert (L4 : forall v, Z.of_nat (length (word_bytes 4 v)) = 4) by (intros; by rewrite length_word_bytes).
  assert (L8 : forall v, Z.of_nat (length (word_bytes 8 v)) = 8) by (intros; by rewrite length_word_bytes). split_and!.
  - unfold guarded, hdr_prered. replace (hdr + 16 - 16) with hdr by lia. fold A. split_and!.
    + unfold hdr_size. rewrite !load_store_other by (rewrite ?Hrep, ?L4; lia). exact E1.
    + rewrite !load_store_other by (rewrite ?Hrep, ?L4; lia).
      replace 4%nat with (length (word_bytes 4 SMALLOC_PRE_RED)) at 2 by apply length_word_bytes. by rewrite load_store.
    + rewrite load_store_other by (rewrite ?Hrep; lia).
      replace 4%nat with (length (word_bytes 4 SMALLOC_POST_RED)) at 2 by apply length_word_bytes. by rewrite load_store.
  - replace (Z.to_nat size) with (length (replicate (Z.to_nat size) 0)) at 2 by apply length_replicate. apply load_store.
  - intros x Hx. rewrite store_other by (rewrite Hrep; lia). rewrite !store_other by (rewrite ?L4; lia).
    unfold m1. rewrite store_other by (rewrite L8; lia). done.
Qed.

Definition new_object (h : heap) (live : gmap Z Z) (size ptr : Z) (m' : memory) : Prop :=
  live !! ptr = None /\ load m' ptr (Z.to_nat size) = replicate (Z.to_nat size) 0 /\
  forall q sz x, live !! q = Some sz -> covers q sz x -> m' x = mem h x.

Lemma pool_allocates h live k p size lp :
  heap_ok h live -> pools h !! k = Some p -> 0 <= size < 2 ^ 32 -> (lp <= length (pools h))%nat ->
  smalloc_pool p (mem h) size = inl UndefinedShift \/
  exists r p' m', smalloc_pool p (mem h) size = inr (r, p', m') /\
    match r with
    | None => m' = mem h /\ heap_ok (Heap (<[k := p']> (pools h)) lp m') live
    | Some ptr => new_object h live size ptr m' /\ heap_ok (Heap (<[k := p']> (pools h)) lp m') (<[ptr := size]> live)
    end.
Proof.
  intros Hh Hp Hs Hlp. destruct (hk_pools _ _ Hh k p Hp) as [Hok (Hm0 & Hm4 & Hm64)].
  pose proof (nblk_spec size Hs) as [Hn HA].
  pose proof (asize_spec size Hs) as [Ha _]. unfold smalloc_pool.
  destruct (smalloc_pool_spec p (asize size) Hok Hn) as [E|(r & p' & E & Hok' & Hsp & Hr)]; rewrite E;
    cbn [mbind res_bind]; [by left|].
  right. fold (nblk size) in Hr. destruct r as [hdr|].
  2: { exists None, p', (mem h). split; [done|]. split; [done|].
       apply (heap_replaced h live live k p p'); try done; [exact (hk_live _ _ Hh)| |exact (hk_disjoint _ _ Hh)].
       intros b Hb. rewrite Hr. by apply (hk_taken _ _ Hh k p b Hp). }
  destruct Hr as (s & -> & Hs0 & Hle & Hall & (_ & _ & Ht)). set (hdr := map p + 32 * s) in *.
  destruct (object_written (mem h) hdr size Hs) as (Hg & Hz & Hout); [lia| |lia|].
  { unfold hdr. replace (32 * s) with (8 * s * 4) by lia. by rewrite Z.mod_add. }
  unfold HDR_SIZE. eexists _, p', _. split; [reflexivity|]. set (m' := store _ (hdr + 16) _) in *.
  assert (Hnew : forall q sz x, live !! q = Some sz -> covers q sz x -> ~ covers (hdr + 16) size x).
  { intros q sz x Hq Hc Hc'. apply (free_uncovered h live k p s (nblk size) q sz x Hh Hp Hs0 Hle Hall Hq Hc). unfold
      covers in Hc'. lia. }
  assert (Hfresh : live !! (hdr + 16) = None).
  { destruct (live !! (hdr + 16)) as [sz|] eqn:El; [|done]. exfalso.
    destruct (hk_live _ _ Hh _ _ El) as (Hsz & _). pose proof (nblk_spec sz Hsz) as [Hn' _].
    apply (Hnew (hdr + 16) sz hdr El); unfold covers; lia. }
  assert (Hkeep : forall q sz x, live !! q = Some sz -> covers q sz x -> m' x = mem h x).
  { intros q sz x Hq Hc. apply Hout. intros Hx. apply (Hnew q sz x Hq Hc). unfold covers. lia. }
  split; [by split_and!|]. apply (heap_replaced h live _ k p p'); try done.
  - intros q sz Hq. apply lookup_insert_Some in Hq as [[<- <-]|[Hne Hq]].
    + split_and!; [lia|lia| |done]. exists k, p. split; [done|]. exists s. unfold hdr. split_and!; lia.
    + destruct (hk_live _ _ Hh q sz Hq) as (Hsz & Hpl & Hgd). split_and!; [lia|lia|done|].
      apply (guarded_ext (mem h)); [done| |done]. intros x Hc _. by apply (Hkeep q sz).
  - intros b Hb. rewrite Ht by lia. case_decide as Hin.
    + split; [intros _|done]. exists (hdr + 16), size. rewrite lookup_insert_eq. split; [done|]. unfold covers, hdr. lia.
    + rewrite (hk_taken _ _ Hh k p b Hp Hb). split; intros (q & sz & Hq & Hc).
      * exists q, sz. rewrite lookup_insert_ne; [done|]. intros <-. by rewrite Hfresh in Hq.
      * apply lookup_insert_Some in Hq as [[<- <-]|[Hne Hq]]; [unfold covers, hdr in Hc; lia|]. by exists q, sz.
  - intros j q b Hjk Hq Hb. split; intros (o & sz & Ho & Hc).
    + exists o, sz. rewrite lookup_insert_ne; [done|]. intros <-. by rewrite Hfresh in Ho.
    + apply lookup_insert_Some in Ho as [[<- <-]|[Hne Ho]]; [|by exists o, sz]. exfalso.
      pose proof (hk_apart _ _ Hh j k q p Hjk Hq Hp). unfold covers, hdr in Hc. lia.
  - intros q q' sz sz' x Hq Hq' Hc Hc'. apply lookup_insert_Some in Hq as [[<- <-]|[Hne Hq]],
      Hq' as [[<- <-]|[Hne' Hq']]; try done.
    + by elim (Hnew q' sz' x Hq' Hc').
    + by elim (Hnew q sz x Hq Hc).
    + by apply (hk_disjoint _ _ Hh q q' sz sz' x).
Qed.

(** ** Freeing *)

Lemma ptr_valid_spec p x : pool_ok p -> ptr_valid p x = true <-> map p <= x < map p + 1024 * nr_blocks p.
Proof.
  intros ((_ & Hnb & _) & _). unfold ptr_valid, SMALLOC_BPL, SMALLOC_BPB, SMALLOC_BPI. rewrite wrapu_small by lia.
  rewrite andb_true_iff, !bool_decide_eq_true. lia.
Qed.

Lemma owner_spec h live k p x : heap_ok h live -> pools h !! k = Some p -> map p <= x < map p + 1024 * nr_blocks p ->
  owner (pools h) x = Some (k, p).
Proof.
  intros Hh Hp Hx. apply list_find_Some. destruct (hk_pools _ _ Hh k p Hp) as [Hok _].
  split_and!; [done|by apply ptr_valid_spec|].
  intros j q Hq Hj Hv. destruct (hk_pools _ _ Hh j q Hq) as [Hokq _]. apply ptr_valid_spec in Hv; [|done].
  pose proof (hk_apart _ _ Hh j k q p ltac:(lia) Hq Hp). lia.
Qed.

Lemma redzone_passes m hdr size : 0 <= size < 2 ^ 32 -> 0 < hdr -> hdr mod 4 = 0 -> hdr + asize size < 2 ^ 64 ->
  guarded m (hdr + 16) size -> sfree_check_redzone m hdr = inr tt.
Proof.
  intros Hs H0 H4 Hhi (G1 & G2 & G3). replace (hdr + 16 - 16) with hdr in * by lia.
  pose proof (asize_spec size Hs) as [Ha Ha4].
  unfold sfree_check_redzone, assert_. rewrite (decide_True (P := hdr_prered m hdr = SMALLOC_PRE_RED)) by done.
  cbn [mbind res_bind].
  assert (Epost : postred_ptr m hdr = hdr + asize size - 4).
  { unfold postred_ptr. rewrite G1. rewrite (wrapu_small 64 (hdr + asize size - 4)),
      (wrapu_small 64) by lia. rewrite align4 by lia.
    assert (E4 : (hdr + asize size - 4 + 3) mod 4 = 3); [|lia].
    replace (hdr + asize size - 4 + 3) with (hdr + asize size + 3 + (-1) * 4) by lia.
    rewrite Z.mod_add by lia. rewrite Z.add_mod by lia. rewrite (Z.add_mod hdr), H4, Ha4 by lia. done. }
  rewrite Epost. by rewrite decide_True.
Qed.

(** The word and the bit of the first block of an object. *)
Lemma block_place off s : off = 32 * s -> 0 <= s < 32 * 2 ^ 32 ->
  u32 (off / SMALLOC_BPL) = s / 32 /\ u32 (off mod SMALLOC_BPL / SMALLOC_BPB) = s mod 32.
Proof.
  intros -> Hs. unfold SMALLOC_BPL, SMALLOC_BPB, SMALLOC_BPI. rewrite Z.div_mul_cancel_l, Z.mul_mod_distr_l by lia.
  rewrite (Z.mul_comm 32 (s mod 32)), Z.div_mul by lia. split; apply wrapu_small.
  - split; [apply Z.div_pos; lia|apply Z.div_lt_upper_bound; lia].
  - pose proof (Z.mod_pos_bound s 32). lia.
Qed.

(** An object leaves the heap when the bits of its blocks are cleared. *)
Lemma freed_heap h live ptr size k p p' s : heap_ok h live -> live !! ptr = Some size -> pools h !! k = Some p ->
  ptr - 16 = map p + 32 * s -> 0 <= s -> s + nblk size <= 32 * nr_blocks p -> same_place p p' -> pool_ok p' ->
  assigned false (bitmap p) (bitmap p') s (nblk size) ->
  heap_ok (Heap (<[k := p']> (pools h)) (last_pool h) (mem h)) (delete ptr live).
Proof.
  intros Hh Hl Hp E Hs0 Hle Hsp Hok (_ & _ & Ht). destruct (hk_live _ _ Hh ptr size Hl) as (Hs & _).
  assert (Hpl : placed p ptr size) by (by exists s).
  apply (heap_replaced h live _ k p p'); try done; [apply (hk_last _ _ Hh)|..].
  - intros q sz Hq. apply lookup_delete_Some in Hq as [_ Hq]. by apply (hk_live _ _ Hh).
  - intros b Hb. rewrite Ht by lia. destruct (decide (s <= b < s + nblk size)) as [Hin|Hin].
    + split; [done|]. intros (q & sz & Hq & Hc). exfalso. apply lookup_delete_Some in Hq as [Hne Hq]. apply Hne.
      apply (hk_disjoint _ _ Hh ptr q size sz (map p + 32 * b)); try done. unfold covers. lia.
    + rewrite (hk_taken _ _ Hh k p b Hp Hb). split; intros (q & sz & Hq & Hc).
      * exists q, sz. rewrite lookup_delete_ne; [done|]. intros <-. rewrite Hl in Hq. injection Hq as <-.
        unfold covers in Hc. lia.
      * apply lookup_delete_Some in Hq as [Hne Hq]. by exists q, sz.
  - intros j q b Hjk Hq Hb. split; intros (q' & sz & Hq' & Hc).
    + exists q', sz. rewrite lookup_delete_ne; [done|]. intros <-. rewrite Hl in Hq'. injection Hq' as <-.
      pose proof (placed_inside p ptr size _ Hs Hpl Hc). pose proof (hk_apart _ _ Hh j k q p Hjk Hq Hp). lia.
    + apply lookup_delete_Some in Hq' as [Hne Hq']. by exists q', sz.
  - intros q q' sz sz' x Hq Hq' Hc Hc'. apply lookup_delete_Some in Hq as [_ Hq], Hq' as [_ Hq'].
    by apply (hk_disjoint _ _ Hh q q' sz sz' x).
Qed.

Lemma sfree_frees h live ptr size : heap_ok h live -> live !! ptr = Some size -> exists h',
  sfree h ptr = inr h' /\ mem h' = mem h /\ last_pool h' = last_pool h /\ length (pools h') = length (pools h) /\
    heap_ok h' (delete ptr live).
Proof.
  intros Hh Hl. destruct (hk_live _ _ Hh ptr size Hl) as (Hs & (k & p & Hp & Hpl) & Hg).
  destruct (hk_pools _ _ Hh k p Hp) as [Hok (Hm0 & Hm4 & Hm64)]. pose proof (nblk_spec size Hs) as [Hn HA].
  pose proof (asize_spec size Hs) as [Ha _]. pose proof Hpl as (s & E & Hs0 & Hle).
  pose proof Hok as (Hsz & Hnext & Hfree).
  pose proof Hsz as (Hlen & Hnb & _). pose proof (zeros_nonneg (bitmap p)). pose proof (zeros_le (bitmap p)).
  unfold sfree. rewrite decide_False by lia. rewrite (owner_spec h live k p) by (done || lia).
  unfold sfree_pool, HDR_SIZE, assert_. rewrite decide_False by lia.
  rewrite decide_True by (apply ptr_valid_spec; [done|lia]). cbn [mbind res_bind].
  rewrite (redzone_passes _ _ size); [|done|lia| |lia|by replace (ptr - 16 + 16) with ptr by lia].
  2: { rewrite E. replace (32 * s) with (8 * s * 4) by lia. by rewrite Z.mod_add. }
  cbn [mbind res_bind]. destruct Hg as (G1 & _). rewrite G1. fold (nblk size).
  destruct (block_place (ptr - 16 - map p) s) as [Ei Eidx]; [lia|lia|].
  rewrite Ei, Eidx. clear Ei Eidx. assert (Edm : s = 32 * (s / 32) + s mod 32) by (apply Z.div_mod; lia).
  assert (0 <= s mod 32 < 32) by (apply Z.mod_pos_bound; lia). assert (0 <= s / 32 < nr_blocks p).
  { split; [apply Z.div_pos; lia|apply Z.div_lt_upper_bound; lia]. }
  assert (Hall : all_are true (bitmap p) (32 * (s / 32) + s mod 32) (nblk size)).
  { intros b Hb. apply (hk_taken _ _ Hh k p b Hp); [lia|]. exists ptr, size. split; [done|]. unfold covers. lia. }
  destruct (clear_blocks_spec p Hsz (s / 32) (s mod 32) (nblk size)) as (b' & Eb & Has); [lia|lia|lia|lia|done|].
  rewrite Eb. cbn [mbind res_bind]. cbn [set_bitmap next_non_full].
  replace (32 * (s / 32) + s mod 32) with s in * by lia.
  set (nx := if decide (s / 32 < next_non_full p) then s / 32 else next_non_full p).
  set (p' := Pool (map p) b' (free_blocks p + nblk size) (nr_blocks p) nx (mmap_size p)).
  assert (Ep' : (let q := if decide (s / 32 < next_non_full p) then set_next (set_bitmap p b') (s / 32) else
    set_bitmap p b' in
     set_free q (u64 (free_blocks q + nblk size))) = p').
  { unfold p', nx. case_decide; cbn [set_next set_bitmap set_free free_blocks map bitmap nr_blocks next_non_full
      mmap_size];
      by rewrite wrapu_small by lia. }
  cbv zeta in Ep'. rewrite Ep'. cbn [mbind res_bind mret res_ret]. eexists. split; [reflexivity|].
  cbn [mem last_pool pools].
  rewrite length_insert. split_and!; [done..|].
  assert (Hok' : pool_ok p').
  { apply (pool_assigned false p b' s (nblk size) nx Hok); try (done || lia). unfold nx. case_decide; lia. }
  by apply (freed_heap h live ptr size k p p' s).
Qed.
