(* ===== verification/SmallocSpec.v ===== *)
(** * The shared-memory allocator: what its clients may rely on

    Any run of requests, frees and writes into live objects keeps the objects apart
    and their guards intact; a request ends with a fresh cleared object, without one, or in
    an undefined shift, and small requests are always served while there is
    room. *)

From stdpp Require Import gmap relations.
From S2P Require Import Prelude Bits Stream Smalloc SmallocBits SmallocProofs.

Open Scope Z_scope.

(** ** Requests *)

(** The contents of live objects are untouched. *)
Definition kept (live : gmap Z Z) (m m' : memory) : Prop :=
  forall q sz x, live !! q = Some sz -> covers q sz x -> m' x = m x.

(** What a request ends with. *)
Definition outcome (h : heap) (live : gmap Z Z) (size : Z) (r : option Z) (h' : heap) : Prop :=
  match r with
  | None => kept live (mem h) (mem h') /\ heap_ok h' live
  | Some ptr => new_object h live size ptr (mem h') /\ heap_ok h' (<[ptr := size]> live)
  end.

Lemma try_pools_spec size n : 0 <= size < 2 ^ 32 -> forall h live i, heap_ok h live -> (i + n <= length (pools h))%nat ->
  try_pools n h size i = inl UndefinedShift \/
  exists r h', try_pools n h size i = inr (r, h') /\ outcome h live size r h' /\
    length (pools h') = length (pools h) /\ (r = None -> last_pool h' = last_pool h /\ mem h' = mem h).
Proof.
  intros Hs. induction n as [|n IH]; intros h live i Hh Hi; cbn [try_pools].
  { right. exists None, h. split_and!; try done. }
  destruct (lookup_lt_is_Some_2 (pools h) i) as [p Hp]; [lia|]. rewrite Hp.
  destruct (pool_allocates h live i p size i Hh Hp Hs) as [E|(r & p' & m' & E & Hr)]; [lia|rewrite E; by left|].
  rewrite E. cbn [mbind res_bind]. destruct r as [ptr|].
  - right. eexists _, _. split; [reflexivity|]. cbn [outcome pools mem last_pool]. rewrite length_insert.
    split_and!; try done; apply Hr.
  - destruct (pool_allocates h live i p size (last_pool h) Hh Hp Hs) as [E'|(r & p'' & m'' & E' & Hr')];
      [apply (hk_last _ _ Hh)|congruence|].
    rewrite E in E'. injection E' as <- <- <-. destruct Hr' as [-> Hh'].
    destruct (IH (Heap (<[i := p']> (pools h)) (last_pool h) (mem h)) live (S i) Hh') as [E2|(r & h' & E2 & Ho & Hlen
      & Hn)];
      cbn [pools mem last_pool] in *; rewrite ?length_insert in *; [lia|rewrite E2; by left|]. right. exists r, h'.
      by split_and!.
Qed.

(** Trying once more and giving back what is found changes nothing. *)
Lemma debug_pools_spec size n : 0 <= size < 2 ^ 32 -> forall h live i, heap_ok h live ->
  (i + n <= length (pools h))%nat ->
  debug_pools n h size i = inl UndefinedShift \/
  exists h', debug_pools n h size i = inr h' /\ kept live (mem h) (mem h') /\ heap_ok h' live.
Proof.
  intros Hs. induction n as [|n IH]; intros h live i Hh Hi; cbn [debug_pools]; [right; by exists h|].
  destruct (lookup_lt_is_Some_2 (pools h) i) as [p Hp]; [lia|]. rewrite Hp.
  case_decide as Hd; [|cbn [mbind res_bind mret res_ret]; apply IH; [done|lia]].
  destruct (pool_allocates h live i p size (last_pool h) Hh Hp Hs) as [E|(r & p' & m' & E & Hr)];
    [apply (hk_last _ _ Hh)|rewrite E; by left|]. rewrite E. cbn [mbind res_bind].
  assert (Hstep : exists h1, (match r with Some ptr => h0 ← sfree (Heap (<[i := p']> (pools h)) (last_pool h) m') ptr;
      mret (Heap (pools h0) i (mem h0)) | None => mret (Heap (<[i := p']> (pools h)) (last_pool h) m') end : res
        heap) = inr h1 /\
    kept live (mem h) (mem h1) /\ heap_ok h1 live /\ length (pools h1) = length (pools h)).
  { destruct r as [ptr|].
    - destruct Hr as [(Hfr & _ & Hk) Hh1].
      destruct (sfree_frees _ _ ptr size Hh1) as (h1 & E1 & Em & El & Elen & Hh1'); [apply lookup_insert_eq|].
      rewrite E1. cbn [mbind res_bind mret res_ret]. eexists. split; [reflexivity|]. cbn [mem pools] in *.
      rewrite length_insert in Elen.
      rewrite delete_insert_id in Hh1' by done. split_and!; [by rewrite Em| |done].
      destruct Hh1' as [H1 H2 H3 H4 H5 H6]. constructor; cbn [mem pools last_pool]; try done. lia.
    - destruct Hr as [-> Hh1]. eexists. split; [reflexivity|]. cbn [mem pools]. rewrite length_insert. done. }
  destruct Hstep as (h1 & E1 & Hk & Hh1 & Hlen). rewrite E1. cbn [mbind res_bind].
  destruct (IH h1 live (S i) Hh1) as [E2|(h2 & E2 & Hk2 & Hh2)]; [lia|by left|]. right. exists h2.
  split_and!; [done| |done].
  intros q sz x Hq Hc. rewrite (Hk2 q sz x Hq Hc). by apply (Hk q sz x).
Qed.

Lemma kept_refl live m : kept live m m.
Proof. done. Qed.

Lemma smalloc_spec h live size : heap_ok h live ->
  smalloc h size = inl UndefinedShift \/ exists r h', smalloc h size = inr (r, h') /\ outcome h live size r h'.
Proof.
  intros Hh. unfold smalloc. destruct (decide (size <> u32 size)) as [Hw|Hw]; [right; by exists None, h|].
  apply dec_stable in Hw. assert (Hs : 0 <= size < 2 ^ 32) by (rewrite Hw; apply wrapu_range; lia).
  pose proof (hk_last _ _ Hh) as Hlast.
  destruct (try_pools_spec size (length (pools h) - last_pool h) Hs h live (last_pool h) Hh) as [E|(r & h1 & E & Ho &
    Hlen & Hn)];
    [lia|rewrite E; by left|]. rewrite E. cbn [mbind res_bind]. destruct r as [ptr|]; [right; by exists (Some ptr), h1|].
  destruct (Hn eq_refl) as [El Em]. destruct Ho as [Hk1 Hh1].
  set (second := (if decide (last_pool h1 <> O) then try_pools (last_pool h1) (Heap (pools h1) 0 (mem h1)) size 0
                  else mret (None, h1)) : res (option Z * heap)).
  assert (Hsecond : second = inl UndefinedShift \/ exists r h2, second = inr (r, h2) /\ outcome h live size r h2).
  { unfold second. case_decide as Hd; [|right; by exists None, h1].
    assert (Hh0 : heap_ok (Heap (pools h1) 0 (mem h1)) live).
    { destruct Hh1 as [H1 H2 H3 H4 H5 H6]. constructor; cbn [mem pools last_pool]; try done. lia. }
    destruct (try_pools_spec size (last_pool h1) Hs _ live 0%nat Hh0) as [E2|(r & h2 & E2 & Ho2 & _)]; cbn [pools];
      [lia|by left|].
    right. exists r, h2. split; [done|]. destruct r as [ptr|]; cbn [outcome] in *; unfold new_object, kept in *;
      cbn [mem] in Ho2; rewrite Em in Ho2; done. }
  destruct Hsecond as [E2|(r & h2 & E2 & Ho2)]; rewrite E2; cbn [mbind res_bind]; [by left|].
  destruct r as [ptr|]; [right; by exists (Some ptr), h2|]. destruct Ho2 as [Hk2 Hh2]. unfold smalloc_debug.
  destruct (debug_pools_spec size (length (pools h2)) Hs h2 live 0%nat Hh2) as [E3|(h3 & E3 & Hk3 & Hh3)];
    [lia|rewrite E3; by left|].
  rewrite E3. right. exists None, h3. split; [done|]. split; [|done]. intros q sz x Hq Hc.
  rewrite (Hk3 q sz x Hq Hc). by apply (Hk2 q sz x).
Qed.

(** ** Clients *)

(** What a client may do: ask for memory, give back a live object, write inside one. *)
Inductive step : heap * gmap Z Z -> heap * gmap Z Z -> Prop :=
  | step_alloc h live size ptr h' : smalloc h size = inr (Some ptr, h') -> step (h, live) (h', <[ptr := size]> live)
  | step_none h live size h' : smalloc h size = inr (None, h') -> step (h, live) (h', live)
  | step_free h live ptr size h' : live !! ptr = Some size -> sfree h ptr = inr h' -> step (h, live) (h', delete ptr live)
  | step_write h live ptr size off l : live !! ptr = Some size -> 0 <= off -> off + Z.of_nat (length l) <= size ->
      step (h, live) (Heap (pools h) (last_pool h) (store (mem h) (ptr + off) l), live).

Lemma write_ok h live ptr size off l : heap_ok h live -> live !! ptr = Some size -> 0 <= off ->
  off + Z.of_nat (length l) <= size ->
  heap_ok (Heap (pools h) (last_pool h) (store (mem h) (ptr + off) l)) live.
Proof.
  intros Hh Hl H0 Hle. destruct Hh as [H1 H2 H3 H4 H5 H6]. constructor; cbn [mem pools last_pool]; try done.
  intros q sz Hq. destruct (H4 q sz Hq) as (Hsz & Hpl & Hg). split_and!; [lia|lia|done|].
  apply (guarded_ext (mem h)); [done| |done].
  intros x Hc Hout. apply store_other. intros Hx. destruct (H4 ptr size Hl) as (Hs & _ & _).
  pose proof (asize_spec size Hs) as [Ha _]. pose proof (nblk_spec size Hs) as [_ Hn].
  assert (q = ptr) as ->. { apply (H6 q ptr sz size x Hq Hl Hc). unfold covers. lia. }
  rewrite Hl in Hq. injection Hq as <-. lia.
Qed.

Lemma step_ok s s' : step s s' -> heap_ok s.1 s.2 -> heap_ok s'.1 s'.2.
Proof.
  intros Hst Hh. destruct Hst as [h live size ptr h' E|h live size h' E|h live ptr size h' Hl E|h live ptr size off l
    Hl H0 Hle]; cbn [fst snd] in *.
  - destruct (smalloc_spec h live size Hh) as [E'|(r & h1 & E' & Ho)]; rewrite E in E'; [done|].
    injection E' as <- <-. apply Ho.
  - destruct (smalloc_spec h live size Hh) as [E'|(r & h1 & E' & Ho)]; rewrite E in E'; [done|].
    injection E' as <- <-. apply Ho.
  - destruct (sfree_frees h live ptr size Hh Hl) as (h1 & E' & _ & _ & _ & Hh'). rewrite E in E'. by injection E' as ->.
  - by apply (write_ok h live ptr size).
Qed.

Lemma steps_ok s s' : rtc step s s' -> heap_ok s.1 s.2 -> heap_ok s'.1 s'.2.
Proof. induction 1 as [|s1 s2 s3 H12 _ IH]; [done|]. intros Hh. apply IH. by apply (step_ok s1). Qed.

(** Objects, as the client sees them, do not overlap. *)
Definition objects_apart (live : gmap Z Z) : Prop :=
  forall ptr ptr' size size', live !! ptr = Some size -> live !! ptr' = Some size' -> ptr <> ptr' ->
  ptr + size <= ptr' \/ ptr' + size' <= ptr.

Lemma heap_apart h live : heap_ok h live -> objects_apart live.
Proof.
  intros Hh ptr ptr' size size' Hl Hl' Hne.
  destruct (hk_live _ _ Hh _ _ Hl) as (Hs & _), (hk_live _ _ Hh _ _ Hl') as (Hs' & _).
  pose proof (asize_spec size Hs) as [Ha _]. pose proof (nblk_spec size Hs) as [_ Hn].
  pose proof (asize_spec size' Hs') as [Ha' _]. pose proof (nblk_spec size' Hs') as [_ Hn'].
  destruct (decide (ptr + size <= ptr')); [by left|]. destruct (decide (ptr' + size' <= ptr)); [by right|]. exfalso.
  apply Hne.
  apply (hk_disjoint _ _ Hh ptr ptr' size size' (Z.max (ptr - 16) (ptr' - 16)) Hl Hl'); unfold covers; lia.
Qed.

(** C12: Whatever its clients do, as long as they free only live objects and write only inside
    them, the allocator keeps the objects apart; freeing a live object trips no
    assertion, neither on the guards nor on the bitmap; and a request ends with a cleared
    object at an address that was not in use, or without one, in both cases with
    the other objects untouched, unless the search performs an undefined shift. *)
Theorem smalloc_refines h0 h live :
  heap_ok h0 ∅ -> rtc step (h0, ∅) (h, live) ->
  objects_apart live /\
  (forall size, smalloc h size = inl UndefinedShift \/
     exists r h', smalloc h size = inr (r, h') /\ outcome h live size r h') /\
  (forall ptr size, live !! ptr = Some size -> exists h', sfree h ptr = inr h' /\ mem h' = mem h /\
    heap_ok h' (delete ptr live)).
Proof.
  intros Hh0 Hst. pose proof (steps_ok _ _ Hst Hh0) as Hh. cbn [fst snd] in Hh. split_and!.
  - by apply (heap_apart h).
  - intros size. by apply smalloc_spec.
  - intros ptr size Hl. destruct (sfree_frees h live ptr size Hh Hl) as (h' & E & Em & _ & _ & Hh'). by exists h'.
Qed.

(** ** Setting up *)

Lemma zeros_fresh n : zeros (replicate n 0) = 32 * Z.of_nat n.
Proof.
  unfold zeros. rewrite length_replicate. rewrite (zsum_ext _ _ (fun _ => 1)).
  - pose proof (zsum_bounds (32 * n) (fun _ => 1) 1 1 ltac:(intros; lia)). lia.
  - intros k Hk. unfold taken. rewrite nth_replicate0, Z.bits_0. done.
Qed.

(** Where [mmap] may put a pool: page aligned, inside the address space, apart from the others. *)
Definition mmap_ok (h : heap) (a len : Z) : Prop :=
  0 < a /\ a mod 4096 = 0 /\ a + len < 2 ^ 64 /\
  forall k p, pools h !! k = Some p -> map p + 1024 * nr_blocks p <= a \/ a + len <= map p.

Lemma fresh_pool_ok h live p : heap_ok h live -> pool_ok p -> pool_place p -> (forall b, taken (bitmap p) b = false) ->
  (forall k q, pools h !! k = Some q -> map q + 1024 * nr_blocks q <= map p \/ map p + 1024 * nr_blocks p <= map q) ->
  heap_ok (Heap (pools h ++ [p]) (last_pool h) (mem h)) live.
Proof.
  intros Hh Hok Hpl Hfree Hap. destruct Hh as [H1 H2 H3 H4 H5 H6].
  assert (Hlk : forall k q, (pools h ++ [p]) !! k = Some q -> pools h !! k = Some q \/ (k = length (pools h) /\ q = p)).
  { intros k q Hq. apply lookup_app_Some in Hq as [Hq|[Hge Hq]];
      [by left|]. apply list_lookup_singleton_Some in Hq as [Hk <-]. right. split; [lia|done]. }
  constructor; cbn [mem pools last_pool].
  - rewrite length_app. lia.
  - intros k q Hq. destruct (Hlk k q Hq) as [Hq'|[_ ->]]; [by apply (H2 k)|done].
  - intros j k q1 q2 Hne Hj Hk. destruct (Hlk j q1 Hj) as [Hj'|[-> ->]], (Hlk k q2 Hk) as [Hk'|[-> ->]];
      [by apply (H3 j k)| | |done].
    + by apply (Hap j).
    + destruct (Hap k q2 Hk'); [by right|by left].
  - intros ptr size Hl. destruct (H4 ptr size Hl) as (Hs & (k & q & Hq & Hp) & Hg). split_and!; [lia|lia| |done].
    exists k, q. split; [by apply lookup_app_l_Some|done].
  - intros k q b Hq Hb. destruct (Hlk k q Hq) as [Hq'|[_ ->]]; [by apply (H5 k)|]. rewrite Hfree. split; [done|].
    intros (ptr & size & Hl & Hc). exfalso. destruct (H4 ptr size Hl) as (Hs & (j & q & Hq' & Hp) & _).
    pose proof (placed_inside q ptr size _ Hs Hp Hc). pose proof (Hap j q Hq'). lia.
  - exact H6.
Qed.

Lemma add_pool_ok h live a size : heap_ok h live -> 0 <= size < 2 ^ 31 -> mmap_ok h a (2 ^ 32) ->
  (length (pools h) < MAX_POOLS)%nat ->
  exists h', add_pool h (Some a) size = (true, h') /\ heap_ok h' live /\ length (pools h') = S (length (pools h)).
Proof.
  intros Hh Hs (Ha0 & Ha4 & Hhi & Hap) Hmax. unfold add_pool. rewrite decide_False by lia.
  set (s1 := if decide (u32 (u32 (size + 4) + HDR_SIZE) < INITIAL_SIZE) then INITIAL_SIZE else u32 (u32 (size + 4) +
    HDR_SIZE)).
  assert (Hs1 : INITIAL_SIZE <= s1 < 2 ^ 31 + 32).
  { unfold s1, HDR_SIZE, INITIAL_SIZE. rewrite (wrapu_small 32 (size + 4)), (wrapu_small 32) by lia. case_decide; lia. }
  clearbody s1. unfold SMALLOC_BPL, SMALLOC_BPB, SMALLOC_BPI, INITIAL_SIZE in *.
  set (s2 := u32 (Z.land (s1 + 32 * 32 - 1) (u64 (Z.lnot (32 * 32 - 1))))).
  assert (Hs2 : 0 < s2 / 1024 < 2 ^ 22).
  { assert (E : s2 = s1 + 1023 - (s1 + 1023) mod 1024).
    { unfold s2. replace (s1 + 32 * 32 - 1) with (s1 + 1023) by lia. change (u64 (Z.lnot (32 * 32 - 1))) with
        (Z.shiftl (Z.ones 54) 10).
      assert (El : Z.land (s1 + 1023) (Z.shiftl (Z.ones 54) 10) = s1 + 1023 - (s1 + 1023) mod 1024).
      { transitivity (Z.shiftl (Z.shiftr (s1 + 1023) 10) 10).
        - apply Z.bits_inj'. intros j Hj. rewrite Z.land_spec, testbit_run, Z.shiftl_spec by lia.
          destruct (decide (j < 10)).
          + rewrite (Z.testbit_neg_r _ (j - 10)) by lia. rewrite bool_decide_false by lia. apply andb_false_r.
          + rewrite Z.shiftr_spec by lia. replace (j - 10 + 10) with j by lia. destruct (decide (j < 64)).
            * rewrite bool_decide_true by lia. apply andb_true_r.
            * rewrite (word64_bits_high (s1 + 1023) j) by (unfold word64; lia). done.
        - rewrite Z.shiftl_mul_pow2, Z.shiftr_div_pow2 by lia. change (2 ^ 10) with 1024.
          pose proof (Z.div_mod (s1 + 1023) 1024). lia. }
      rewrite El. pose proof (Z.mod_pos_bound (s1 + 1023) 1024). apply wrapu_small. lia. }
    pose proof (Z.mod_pos_bound (s1 + 1023) 1024). split; [apply Z.div_str_pos; lia|apply Z.div_lt_upper_bound; lia]. }
  change (32 * 32) with 1024. set (nr := s2 / 1024) in *. eexists. split; [reflexivity|]. cbn [pools].
  rewrite length_app. split; [|cbn [length]; lia].
  assert (Hln : Z.of_nat (length (replicate (Z.to_nat nr) 0)) = nr) by (rewrite length_replicate; lia).
  apply fresh_pool_ok; [done|..]; cbn [bitmap nr_blocks map].
  - unfold pool_ok, sized. cbn [bitmap nr_blocks next_non_full free_blocks]. rewrite zeros_fresh. split_and!; try lia.
    apply Forall_replicate. unfold word32. lia.
  - unfold pool_place. cbn [map nr_blocks]. split_and!; [done| |lia]. pose proof (Z.div_mod a 4096 ltac:(lia)) as Hd.
    rewrite Ha4 in Hd.
    rewrite Hd. replace (4096 * (a / 4096) + 0) with (1024 * (a / 4096) * 4) by lia. apply Z.mod_mul. lia.
  - intros b. unfold taken. by rewrite nth_replicate0, Z.bits_0.
  - intros k q Hq. destruct (Hap k q Hq); lia.
Qed.

(** A small pool. *)
Definition demo_heap : heap := Heap [Pool 4096 [0; 0] 64 2 0 2056] 0 (fun _ => 0).
Definition demo_after : heap := match smalloc demo_heap 8 with inr (_, h) => h | inl _ => demo_heap end.

Lemma empty_ok m : heap_ok (Heap [] 0 m) ∅.
Proof.
  constructor; cbn [mem pools last_pool]; try done; intros *; rewrite ?lookup_nil, ?lookup_empty; done.
Qed.

Lemma demo_ok : heap_ok demo_heap ∅.
Proof.
  apply (fresh_pool_ok (Heap [] 0 (fun _ => 0)) ∅ (Pool 4096 [0; 0] 64 2 0 2056)); [apply empty_ok|..|by intros k q].
  - unfold pool_ok, sized, bitmap_ok, word32. cbn [bitmap nr_blocks next_non_full free_blocks length].
    split_and!; try done; try lia.
    repeat constructor; lia.
  - unfold pool_place. cbn [map nr_blocks]. split_and!; done.
  - intros b. unfold taken. cbn [bitmap]. change [0; 0] with (replicate 2 0). by rewrite nth_replicate0, Z.bits_0.
Qed.

Lemma demo_alloc : smalloc demo_heap 8 = inr (Some 4112, demo_after).
Proof.
  unfold demo_after. assert (E : match smalloc demo_heap 8 with inr (r,
    _) => r | inl _ => None end = Some 4112) by (vm_compute; reflexivity).
  destruct (smalloc demo_heap 8) as [e|[r h]]; [done|]. by rewrite E.
Qed.

Lemma smalloc_refines_witness :
  rtc step (demo_heap, ∅) (demo_after, <[4112 := 8]> ∅) /\ objects_apart (<[4112 := 8]> ∅) /\
  (forall size, smalloc demo_after size = inl UndefinedShift \/
     exists r h', smalloc demo_after size = inr (r, h') /\ outcome demo_after (<[4112 := 8]> ∅) size r h') /\
  (forall ptr size, (<[4112 := 8]> ∅ : gmap Z Z) !! ptr = Some size ->
     exists h', sfree demo_after ptr = inr h' /\ mem h' = mem demo_after /\ heap_ok h' (delete ptr (<[4112 := 8]> ∅))).
Proof.
  assert (Hst : rtc step (demo_heap, ∅) (demo_after, <[4112 := 8]> ∅)).
  { apply rtc_once. apply (step_alloc demo_heap ∅ 8 4112 demo_after). exact demo_alloc. }
  split; [exact Hst|]. exact (smalloc_refines demo_heap demo_after (<[4112 := 8]> ∅) demo_ok Hst).
Defined.

(** ** Small requests *)

Lemma nblk_small size : 0 <= size <= 12 -> nblk size = 1.
Proof.
  intros Hs. pose proof (asize_spec size ltac:(lia)) as [Ha H4]. unfold nblk, size_to_blocks, SMALLOC_BPB.
  assert (asize size <= 32) by dlia. rewrite (wrapu_small 64 (asize size + 32)), (wrapu_small 64) by lia. dlia.
Qed.

Lemma pool_serves p m size : pool_ok p -> 0 <= size <= 12 ->
  if decide (0 < free_blocks p) then exists ptr p' m', smalloc_pool p m size = inr (Some ptr, p', m')
  else smalloc_pool p m size = inr (None, p, m).
Proof.
  intros Hok Hs. pose proof Hok as (Hsz & Hnext & Hfree). pose proof Hsz as (Hl & Hnb & Hb).
  pose proof (nblk_small size Hs) as En.
  pose proof (zeros_nonneg (bitmap p)). unfold smalloc_pool, smalloc_pool_. fold (nblk size). rewrite En.
  case_decide as Hf.
  2: { rewrite decide_True by lia. done. }
  rewrite decide_False by lia. destruct (zeros_word (bitmap p) Hb) as (i & Hi & Hne); [lia|].
  assert (Hex : Exists (fun w => w <> FULL) (bitmap p)).
  { apply Exists_exists. exists (nth (Z.to_nat i) (bitmap p) 0). split;
      [|done]. rewrite list_elem_of_In. apply nth_In. lia. }
  unfold find_best_index, assert_. rewrite decide_True by lia. cbn [mbind res_bind].
  destruct (best_from_spec p (S (length (bitmap p))) Hsz Hex (next_non_full p)) as (j & Ej & Hj & Hnej); [lia|lia|].
  rewrite Ej. cbn [mbind res_bind]. set (p1 := set_next p j). assert (Hsz1 : sized p1) by exact Hsz.
  destruct (search_one p1 (S (32 * length (bitmap p1))) j Hsz1) as (idx & E); [exact Hj|exact Hnej|lia|].
  change (next_non_full p1) with j. rewrite E. cbn [mbind res_bind].
  destruct (search_spec p1 1 (S (32 * length (bitmap p1))) Hsz1 ltac:(lia) j 0) as [E'|(r & E' & Hr)];
    [lia|lia|cbn [p1 set_next nr_blocks bitmap]; lia|right; lia|congruence|].
  rewrite E in E'. injection E' as <-. destruct (Hr j idx eq_refl) as (Hj0 & Hidx & Hle & Hall).
  destruct (set_blocks_spec p1 Hsz1 j idx 1) as (b' & Eb & _); [lia|lia|lia|done|done|]. rewrite Eb.
  cbn [mbind res_bind mret res_ret]. eauto.
Qed.

Lemma try_pools_serves size n : 0 <= size <= 12 -> forall h i,
  (forall k p, pools h !! k = Some p -> pool_ok p) -> (i + n <= length (pools h))%nat ->
  if decide (Exists (fun p => 0 < free_blocks p) (take n (drop i (pools h))))
  then exists ptr h', try_pools n h size i = inr (Some ptr, h') else try_pools n h size i = inr (None, h).
Proof.
  intros Hs. induction n as [|n IH]; intros h i Hok Hi; cbn [try_pools].
  { rewrite decide_False; [done|]. intros H. inversion H. }
  destruct (lookup_lt_is_Some_2 (pools h) i) as [p Hp]; [lia|]. rewrite Hp.
  rewrite (drop_S _ p i Hp). cbn [take]. pose proof (pool_serves p (mem h) size (Hok i p Hp) Hs) as Hpool.
  case_decide as Hf.
  - rewrite decide_True by (by constructor). destruct Hpool as (ptr & p' & m' & E). rewrite E.
    cbn [mbind res_bind mret res_ret]. eauto.
  - rewrite Hpool. cbn [mbind res_bind]. rewrite list_insert_id by done.
    replace (Heap (pools h) (last_pool h) (mem h)) with h by (by destruct h). specialize (IH h (S i) Hok ltac:(lia)).
    assert (Hiff : Exists (fun p0 => 0 < free_blocks p0) (p :: take n (drop (S i) (pools h))) <->
      Exists (fun p0 => 0 < free_blocks p0) (take n (drop (S i) (pools h)))) by (rewrite Exists_cons; tauto).
    rewrite (decide_ext _ _ _ _ Hiff). exact IH.
Qed.

(** A request of up to twelve bytes, which takes one block, is served whenever any pool has
    a free block, wherever the last request was served: the search ends, performs no
    undefined shift and wraps around the pools. *)
Theorem small_request_served h live size k p :
  heap_ok h live -> 0 <= size <= 12 -> pools h !! k = Some p -> 0 < free_blocks p ->
  exists ptr h', smalloc h size = inr (Some ptr, h').
Proof.
  intros Hh Hs Hp Hf. pose proof (hk_last _ _ Hh) as Hlast. assert (Hok : forall k p, pools h !! k = Some p -> pool_ok p).
  { intros j q Hq. by apply (hk_pools _ _ Hh j). }
  unfold smalloc. rewrite decide_False by (rewrite wrapu_small by lia; lia).
  pose proof (try_pools_serves size (length (pools h) - last_pool h) Hs h (last_pool h) Hok ltac:(lia)) as H1.
  case_decide as Hd; [destruct H1 as (ptr & h1 & E); rewrite E; cbn [mbind res_bind mret res_ret]; eauto|].
  rewrite H1. cbn [mbind res_bind mret res_ret]. rewrite take_ge in Hd by (rewrite length_drop; lia).
  assert (Hk : (k < last_pool h)%nat).
  { destruct (decide (k < last_pool h)%nat); [done|]. exfalso. apply Hd. apply Exists_exists. exists p. split; [|done].
    apply list_elem_of_lookup. exists (k - last_pool h)%nat. rewrite lookup_drop.
    by replace (last_pool h + (k - last_pool h))%nat with k by lia. }
  rewrite decide_True by lia.
  pose proof (try_pools_serves size (last_pool h) Hs (Heap (pools h) 0 (mem h)) 0 Hok ltac:(cbn [pools]; lia)) as H2.
  rewrite decide_True in H2.
  - destruct H2 as (ptr & h1 & E). rewrite E. cbn [mbind res_bind mret res_ret]. eauto.
  - cbn [pools]. rewrite drop_0. apply Exists_exists. exists p. split; [|done]. apply list_elem_of_lookup. exists k.
    by rewrite lookup_take_lt.
Qed.

Lemma small_request_served_witness : exists ptr h', smalloc demo_heap 12 = inr (Some ptr, h').
Proof.
  apply (small_request_served demo_heap ∅ 12 0 (Pool 4096 [0; 0] 64 2 0 2056)).
  - exact demo_ok.
  - lia.
  - reflexivity.
  - reflexivity.
Defined.

(** ** Where the search goes wrong *)

(** Block 0 is free and every later block of its word is taken: behind block 0 the shifted word
    is all ones, the position found is behind the word, and the next mask is an
    undefined shift, although the second word is free. *)
Example undefined_shift :
  smalloc (Heap [Pool 4096 [2 ^ 32 - 2; 0] 33 2 0 2056] 0 (fun _ => 0)) 40 = inl UndefinedShift.
Proof. vm_compute. reflexivity. Qed.

(** Blocks 2, 3 and 4 are free and would do, but after the failure at block 0 the search goes on at
    block 3. *)
Example skipped_room :
  let p := Pool 4096 [2 ^ 32 - 1 - 1 - 4 - 8 - 16 - 2 ^ 31; 2 ^ 32 - 1] 5 2 0 2056 in
  all_are false (bitmap p) 2 3 /\ nblk 70 = 3 /\
  match smalloc (Heap [p] 0 (fun _ => 0)) 70 with inr (r, _) => r = None | inl _ => False end.
Proof.
  split_and!; [|reflexivity|vm_compute; reflexivity]. intros k Hk. assert (k = 2 \/ k = 3 \/ k = 4) as [-> |[-> | ->]] by lia; reflexivity.
Qed.
