(* ===== verification/Flow.v ===== *)
(** * Flow control between jobs (src/fio/flow.c)

    Jobs of the same flow id share a counter of all their steps and the sum of their weights, and a job whose share
    of the steps exceeds its share of the weights waits.  The shares are compared as [double]s. *)

From S2P Require Import Prelude.

Open Scope Z_scope.

(** ** Doubles *)

(** [n / d] rounded to the nearest integer, ties to even. *)
Definition rne (n d : Z) : Z :=
  let q := n / d in
  let r := n mod d in
  if decide (2 * r < d) then q else if decide (2 * r > d) then q + 1 else if Z.even q then q else q + 1.

(** The value of [(double) z] for an unsigned [z], an integer: 53 bits are kept. *)
Definition dint (z : Z) : Z := if decide (z < 2 ^ 53) then z else let s := Z.log2 z - 52 in rne z (2 ^ s) * 2 ^ s.

(** The quotient of two doubles that are integers up to 2^64, the divisor not zero: [q * 2 ^ (64 - k)]
    for the result [(q, k)], where [q] has 53 bits (or is their upper end). *)
Definition ddiv (a b : Z) : Z * Z :=
  if decide (a = 0) then (0, 64)
  else
    let k := 116 - (Z.log2 a - Z.log2 b) in
    let k := if decide (a * 2 ^ k < 2 ^ 52 * (b * 2 ^ 64)) then k + 1 else k in
    (rne (a * 2 ^ k) (b * 2 ^ 64), k).

Definition dgt (x y : Z * Z) : bool := bool_decide (x.1 * 2 ^ y.2 > y.1 * 2 ^ x.2).

(** *** Rounding *)

Lemma rne_bounds n d : 0 < d -> - d <= 2 * n - 2 * (d * rne n d) <= d.
Proof.
  intros Hd. unfold rne. pose proof (Z.div_mod n d ltac:(lia)). pose proof (Z.mod_pos_bound n d Hd).
  set (q := n / d) in *.
  destruct (decide (2 * (n mod d) < d)); [lia|]. destruct (decide (2 * (n mod d) > d)); [lia|].
  destruct (Z.even q); lia.
Qed.

Lemma rne_mono n m d : 0 < d -> n <= m -> rne n d <= rne m d.
Proof.
  intros Hd Hnm. unfold rne. pose proof (Z.div_mod n d ltac:(lia)). pose proof (Z.mod_pos_bound n d Hd).
  pose proof (Z.div_mod m d ltac:(lia)). pose proof (Z.mod_pos_bound m d Hd).
  pose proof (Z.div_le_mono n m d Hd Hnm). destruct (decide (n / d = m / d)) as [E|Hne].
  - rewrite <- E. assert (n mod d <= m mod d) by lia. destruct (Z.even (n / d)); repeat case_decide; lia.
  - destruct (Z.even (n / d)), (Z.even (m / d)); repeat case_decide; lia.
Qed.

Lemma rne_scale n d e : 0 < d -> 0 < e -> rne (n * e) (d * e) = rne n d.
Proof.
  intros Hd He. unfold rne. rewrite Z.div_mul_cancel_r, Zmult_mod_distr_r by lia.
  assert (E : forall r, (2 * (r * e) < d * e <-> 2 * r < d) /\ (2 * (r * e) > d * e <-> 2 * r > d)).
  { intros r. rewrite Z.mul_assoc, !Z.gt_lt_iff. split; split; intros H;
      [by apply Z.mul_lt_mono_pos_r in H|by apply Z.mul_lt_mono_pos_r|by apply Z.mul_lt_mono_pos_r in H|by apply
      Z.mul_lt_mono_pos_r]. }
  destruct (E (n mod d)) as [E1 E2]. by rewrite (decide_ext _ _ _ _ E1), (decide_ext _ _ _ _ E2).
Qed.

(** The rounding of a quotient depends on its value and is monotone in it. *)
Lemma rne_frac n d m e : 0 < d -> 0 < e -> n * e <= m * d -> rne n d <= rne m e.
Proof. intros Hd He H. rewrite <- (rne_scale n d e), <- (rne_scale m e d), (Z.mul_comm e d) by done.
  apply rne_mono; lia. Qed.

Lemma rne_int c d : 0 < d -> rne (c * d) d = c.
Proof. intros Hd. unfold rne. rewrite Z.div_mul, Z.mod_mul by lia. by rewrite decide_True by lia. Qed.

(** *** Division *)

Definition wide (z : Z) : Prop := 0 < z < 2 ^ 65.

Lemma ddiv_spec a b : wide a -> wide b -> exists k, ddiv a b = (rne (a * 2 ^ k) (b * 2 ^ 64), k) /\ 0 <= k /\
  2 ^ 116 * b <= a * 2 ^ k < 2 ^ 117 * b.
Proof.
  intros [Ha Ha'] [Hb Hb']. unfold ddiv. rewrite decide_False by lia. destruct (Z.log2_spec a Ha) as [A1 A2].
  destruct (Z.log2_spec b Hb) as [B1 B2]. pose proof (Z.log2_nonneg a). pose proof (Z.log2_nonneg b).
  assert (Z.log2 a <= 64) by (pose proof (Z.log2_le_mono a (2 ^ 65 - 1) ltac:(lia)) as H';
    by change (Z.log2 (2 ^ 65 - 1)) with 64 in H'). set (k := 116 - (Z.log2 a - Z.log2 b)). assert (0 <= k) by lia.
  pose proof (Z.pow_pos_nonneg 2 k ltac:(lia) ltac:(lia)) as Hk.
  assert (E : 2 ^ Z.log2 a * 2 ^ k = 2 ^ 116 * 2 ^ Z.log2 b) by (rewrite <- !Z.pow_add_r by lia; f_equal; lia).
  rewrite Z.pow_succ_r in A2, B2 by lia.
  assert (L1 : 2 ^ Z.log2 a * 2 ^ k <= a * 2 ^ k) by (apply Z.mul_le_mono_nonneg_r; lia).
  assert (L2 : a * 2 ^ k < 2 * 2 ^ Z.log2 a * 2 ^ k) by (apply Z.mul_lt_mono_pos_r; lia).
  case_decide as Hd.
  - exists (k + 1). split; [done|]. split; [lia|]. rewrite Z.pow_add_r, Z.mul_assoc by lia. lia.
  - exists k. split; [done|]. split; [lia|]. lia.
Qed.

(** The quotient with its 53 bits. *)
Lemma ddiv_bits a b k : 0 < b -> 2 ^ 116 * b <= a * 2 ^ k < 2 ^ 117 * b ->
  2 ^ 52 <= rne (a * 2 ^ k) (b * 2 ^ 64) <= 2 ^ 53.
Proof.
  intros Hb H. split.
  - etrans; [|apply (rne_mono (2 ^ 52 * (b * 2 ^ 64))); lia]. by rewrite rne_int by lia.
  - etrans; [apply (rne_mono _ (2 ^ 53 * (b * 2 ^ 64))); lia|]. by rewrite rne_int by lia.
Qed.

(** A smaller quotient has no larger exponent. *)
Lemma ddiv_exp a1 b1 k1 a2 b2 k2 : 0 < b1 -> 0 < b2 -> 0 <= k1 -> 0 <= k2 -> 2 ^ 116 * b1 <= a1 * 2 ^ k1 ->
  a2 * 2 ^ k2 < 2 ^ 117 * b2 -> a1 * b2 <= a2 * b1 -> k2 <= k1.
Proof.
  intros Hb1 Hb2 Hk1 Hk2 H1 H2 Hle. destruct (decide (k2 <= k1)) as [|Hn]; [done|]. exfalso.
  assert (E : 2 ^ k2 = 2 ^ (k2 - k1 - 1) * 2 * 2 ^ k1) by (rewrite <- Z.mul_assoc, <- Z.pow_succ_r,
    <- Z.pow_add_r by lia; f_equal; lia).
  pose proof (Z.pow_pos_nonneg 2 (k2 - k1 - 1) ltac:(lia) ltac:(lia)).
  pose proof (Z.pow_pos_nonneg 2 k2 ltac:(lia) ltac:(lia)).
  assert (H3 : 2 ^ 117 * b1 <= a1 * 2 ^ k2).
  { rewrite E. replace (a1 * (2 ^ (k2 - k1 - 1) * 2 * 2 ^ k1)) with (2 ^ (k2 - k1 - 1) * (2 * (a1 * 2 ^ k1))) by
    ring. assert (1 * (2 ^ 117 * b1) <= 2 ^ (k2 - k1 - 1) * (2 * (a1 * 2 ^ k1))) by (apply Z.mul_le_mono_nonneg;
    lia). lia. }
  assert (H4 : 2 ^ 117 * b1 * b2 <= a1 * 2 ^ k2 * b2) by (apply Z.mul_le_mono_nonneg_r; lia).
  assert (H5 : a2 * 2 ^ k2 * b1 < 2 ^ 117 * b2 * b1) by (apply Z.mul_lt_mono_pos_r; lia).
  assert (H6 : a1 * b2 * 2 ^ k2 <= a2 * b1 * 2 ^ k2) by (apply Z.mul_le_mono_nonneg_r; lia). lia.
Qed.

Lemma ddiv_le a1 b1 a2 b2 : 0 <= a1 < 2 ^ 65 -> wide b1 -> 0 <= a2 < 2 ^ 65 -> wide b2 -> a1 * b2 <= a2 * b1 ->
  dgt (ddiv a1 b1) (ddiv a2 b2) = false.
Proof.
  intros Ha1 Hb1 Ha2 Hb2 Hle. pose proof Hb1 as [B1 _]. pose proof Hb2 as [B2 _]. unfold dgt.
  apply bool_decide_eq_false. rewrite Z.gt_lt_iff. apply Z.le_ngt. destruct (decide (a2 = 0)) as [->|Hn2].
  { assert (a1 = 0) as -> by (destruct (decide (a1 = 0)); [done|]; assert (0 < a1 * b2) by (apply Z.mul_pos_pos;
      lia); lia). done. }
  destruct (ddiv_spec a2 b2) as (k2 & -> & K2 & R2); [unfold wide; lia|done|].
  pose proof (ddiv_bits a2 b2 k2 B2 R2) as Q2. cbn [fst snd]. destruct (decide (a1 = 0)) as [->|Hn1].
  { cbn [ddiv decide fst snd]. unfold ddiv. rewrite decide_True by done. cbn [fst snd]. rewrite Z.mul_0_l. apply
      Z.mul_nonneg_nonneg; lia. }
  destruct (ddiv_spec a1 b1) as (k1 & -> & K1 & R1); [unfold wide; lia|done|].
  pose proof (ddiv_bits a1 b1 k1 B1 R1) as Q1. cbn [fst snd].
  pose proof (ddiv_exp a1 b1 k1 a2 b2 k2 B1 B2 K1 K2 ltac:(lia) ltac:(lia) Hle) as Hk.
  pose proof (Z.pow_pos_nonneg 2 k2 ltac:(lia) ltac:(lia)). destruct (decide (k1 = k2)) as [->|Hne].
  - apply Z.mul_le_mono_nonneg_r; [lia|]. apply rne_frac; [lia|lia|].
    assert (a1 * b2 * 2 ^ k2 <= a2 * b1 * 2 ^ k2) by (apply Z.mul_le_mono_nonneg_r; lia). lia.
  - assert (E : 2 ^ k1 = 2 ^ (k1 - k2 - 1) * (2 * 2 ^ k2)) by (rewrite <- Z.pow_succ_r, <- Z.pow_add_r by lia;
      f_equal; lia). pose proof (Z.pow_pos_nonneg 2 (k1 - k2 - 1) ltac:(lia) ltac:(lia)).
    assert (H3 : rne (a1 * 2 ^ k1) (b1 * 2 ^ 64) * 2 ^ k2 <= 2 ^ 53 * 2 ^ k2) by (apply Z.mul_le_mono_nonneg_r; lia).
    assert (H4 : 1 * (2 * 2 ^ k2) <= 2 ^ k1) by (rewrite E; apply Z.mul_le_mono_nonneg_r; lia).
    assert (H5 : 2 ^ 52 * 2 ^ k1 <= rne (a2 * 2 ^ k2) (b2 * 2 ^ 64) * 2 ^ k1) by (apply Z.mul_le_mono_nonneg_r; lia).
    lia.
Qed.

(** Shares of less than 2^52 in all are compared exactly. *)
Lemma ddiv_gt a1 b1 a2 b2 : 0 <= a1 <= b1 -> 0 < b1 -> 0 <= a2 <= b2 -> 0 < b2 -> b1 * b2 < 2 ^ 52 ->
  a1 * b2 > a2 * b1 -> dgt (ddiv a1 b1) (ddiv a2 b2) = true.
Proof.
  intros Ha1 B1 Ha2 B2 Hp Hgt. unfold dgt. apply bool_decide_eq_true.
  assert (b1 <= b1 * b2) by (rewrite <- (Z.mul_1_r b1) at 1; apply Z.mul_le_mono_nonneg_l; lia).
  assert (b2 <= b1 * b2) by (rewrite <- (Z.mul_1_l b2) at 1; apply Z.mul_le_mono_nonneg_r; lia).
  assert (0 < a1). { destruct (decide (a1 = 0)) as [->|]; [|lia]. assert (0 <= a2 * b1) by (apply
    Z.mul_nonneg_nonneg; lia). lia. }
  destruct (ddiv_spec a1 b1) as (k1 & -> & K1 & R1); [unfold wide; lia|unfold wide; lia|].
  pose proof (ddiv_bits a1 b1 k1 B1 R1) as Q1. cbn [fst snd].
  pose proof (Z.pow_pos_nonneg 2 k1 ltac:(lia) ltac:(lia)) as P1.
  destruct (decide (a2 = 0)) as [->|Hn2].
  { unfold ddiv. rewrite decide_True by done. cbn [fst snd]. lia. }
  destruct (ddiv_spec a2 b2) as (k2 & -> & K2 & R2); [unfold wide; lia|unfold wide; lia|]. cbn [fst snd].
  pose proof (Z.pow_pos_nonneg 2 k2 ltac:(lia) ltac:(lia)) as P2.
  pose proof (rne_bounds (a1 * 2 ^ k1) (b1 * 2 ^ 64) ltac:(lia)) as N1.
  pose proof (rne_bounds (a2 * 2 ^ k2) (b2 * 2 ^ 64) ltac:(lia)) as N2. set (q1 := rne _ (b1 * 2 ^ 64)) in *.
  set (q2 := rne _ (b2 * 2 ^ 64)) in *.
  assert (S1 : 2 ^ 116 <= 2 ^ k1).
  { apply (Z.mul_le_mono_pos_r _ _ b1 B1). assert (a1 * 2 ^ k1 <= b1 * 2 ^ k1) by (apply Z.mul_le_mono_nonneg_r;
    lia). lia. }
  assert (S2 : 2 ^ 116 <= 2 ^ k2).
  { apply (Z.mul_le_mono_pos_r _ _ b2 B2). assert (a2 * 2 ^ k2 <= b2 * 2 ^ k2) by (apply Z.mul_le_mono_nonneg_r;
    lia). lia. }
  clear R1 R2 Q1. set (x := 2 ^ k1) in *. set (y := 2 ^ k2) in *. set (p := b1 * b2 * 2 ^ 64) in *.
  assert (Hpx : p < x) by lia. assert (Hpy : p < y) by lia.
  assert (G1 : (2 * (a1 * x) - b1 * 2 ^ 64) * (b2 * y) <= 2 * (b1 * 2 ^ 64 * q1) * (b2 * y)) by (apply
    Z.mul_le_mono_nonneg_r; [apply Z.mul_nonneg_nonneg; lia|lia]).
  assert (G2 : 2 * (b2 * 2 ^ 64 * q2) * (b1 * x) <= (2 * (a2 * y) + b2 * 2 ^ 64) * (b1 * x)) by (apply
    Z.mul_le_mono_nonneg_r; [apply Z.mul_nonneg_nonneg; lia|lia]).
  assert (G3 : x * y <= (a1 * b2 - a2 * b1) * (x * y)) by (rewrite <- (Z.mul_1_l (x * y)) at 1;
    apply Z.mul_le_mono_nonneg_r; [apply Z.mul_nonneg_nonneg; lia|lia]).
  assert (G4 : p * y < x * y) by (apply Z.mul_lt_mono_pos_r; lia).
  assert (G5 : p * x < y * x) by (apply Z.mul_lt_mono_pos_r; lia).
  apply Z.lt_gt. apply (Z.mul_lt_mono_pos_r (2 * p)); [subst p; assert (0 < b1 * b2) by (apply Z.mul_pos_pos; lia);
    lia|].
  assert (2 * (b1 * 2 ^ 64 * q1) * (b2 * y) = q1 * y * (2 * p)) by (unfold p; ring).
  assert (2 * (b2 * 2 ^ 64 * q2) * (b1 * x) = q2 * x * (2 * p)) by (unfold p; ring).
  assert ((2 * (a1 * x) - b1 * 2 ^ 64) * (b2 * y) = 2 * (a1 * b2) * (x * y) - p * y) by (unfold p; ring).
  assert ((2 * (a2 * y) + b2 * 2 ^ 64) * (b1 * x) = 2 * (a2 * b1) * (x * y) + p * x) by (unfold p; ring). lia.
Qed.

(** ** State *)

(** [refs], [flow_counter] and [total_weight] of a flow; flows are found by their ids. *)
Record fio_flow := FioFlow { refs : Z; flow_counter : Z; total_weight : Z }.
Abbreviation flows := (gmap Z fio_flow).

(** Where a job is between two accesses to shared memory: not in a flow; with a flow but without its
    weight; between two checks; with the loaded counter of the flow; about to add to it; to its own; and
    leaving, its own steps taken out of the counter. *)
Inductive stage := Out | Joined | Ready | Loaded (c : Z) | Passed | Added | Left.

#[export] Instance stage_eq : EqDecision stage.
Proof. solve_decision. Defined.

Record thread_data := Td { o_flow : Z; o_flow_id : Z; at_ : stage; td_flow_counter : Z }.

Definition move (st : stage) (t : thread_data) : thread_data := Td (o_flow t) (o_flow_id t) st (td_flow_counter t).
Definition set_counter (c : Z) (t : thread_data) : thread_data := Td (o_flow t) (o_flow_id t) (at_ t) c.

(** ** Operations *)

(** False is NULL: there is no memory for a flow. *)
Definition flow_get (mem : bool) (id : Z) (fl : flows) : bool * flows :=
  match fl !! id with
  | Some f => (true, <[id := FioFlow (u32 (refs f + 1)) (flow_counter f) (total_weight f)]> fl)
  | None => if mem then (true, <[id := FioFlow 1 1 0]> fl) else (false, fl)
  end.

Definition add_weight (id w : Z) (fl : flows) : option flows :=
  f ← fl !! id; Some (<[id := FioFlow (refs f) (flow_counter f) (u32 (total_weight f + w))]> fl).

Definition add_counter (id c : Z) (fl : flows) : option flows :=
  f ← fl !! id; Some (<[id := FioFlow (refs f) (u64 (flow_counter f + c)) (total_weight f)]> fl).

(** The rest of [flow_put], after the counter; [None] is the assertion. *)
Definition put_rest (id w : Z) (fl : flows) : option flows :=
  fl ← add_weight id (- w) fl;
  f ← fl !! id;
  let refs := u32 (refs f - 1) in
  if decide (refs = 0) then if decide (flow_counter f = 1) then Some (delete id fl) else None
  else Some (<[id := FioFlow refs (flow_counter f) (total_weight f)]> fl).

(** The next access of a job to shared memory; [leave] ends the job between two checks. [None] is an
    access through NULL or to a flow that has been freed, or a failed assertion. *)
Definition micro (mem leave : bool) (t : thread_data) (fl : flows) : option (thread_data * flows) :=
  let id := o_flow_id t in
  match at_ t with
  | Out => if decide (o_flow t = 0) then Some (t, fl)
           else let '(ok, fl) := flow_get mem id fl in if ok : bool then Some (move Joined (set_counter 0 t), fl) else None
  | Joined => fl ← add_weight id (o_flow t) fl; Some (move Ready t, fl)
  | Ready => if leave then fl ← add_counter id (- td_flow_counter t) fl; Some (move Left t, fl)
             else f ← fl !! id; Some (move (Loaded (flow_counter f)) t, fl)
  | Loaded c => f ← fl !! id;
      Some (move (if dgt (ddiv (dint (td_flow_counter t)) (dint c)) (ddiv (dint (o_flow t)) (dint (total_weight f))) then Ready else Passed) t, fl)
  | Passed => fl ← add_counter id 1 fl; Some (move Added t, fl)
  | Added => Some (move Ready (set_counter (u64 (td_flow_counter t + 1)) t), fl)
  | Left => fl ← put_rest id (o_flow t) fl; Some (move Out t, fl)
  end.

(** A check that no other job interferes with: 1 if the job has to wait. *)
Definition flow_threshold_exceeded (t : thread_data) (fl : flows) : option (Z * thread_data * flows) :=
  if decide (at_ t = Out) then Some (0, t, fl)
  else
    '(t, fl) ← micro true false t fl;
    '(t, fl) ← micro true false t fl;
    if decide (at_ t = Ready) then Some (1, t, fl)
    else '(t, fl) ← micro true false t fl; '(t, fl) ← micro true false t fl; Some (0, t, fl).

Definition flow_init_job (mem : bool) (t : thread_data) (fl : flows) : option (thread_data * flows) :=
  if decide (o_flow t = 0) then Some (t, fl) else '(t, fl) ← micro mem false t fl; micro mem false t fl.

Definition flow_exit_job (t : thread_data) (fl : flows) : option (thread_data * flows) :=
  if decide (at_ t = Out) then Some (t, fl) else '(t, fl) ← micro true true t fl; micro true true t fl.

(** ** All jobs *)

Record world := World { jobs : list thread_data; shared_flows : flows }.

(** One job takes one step; there is memory for flows. *)
Inductive flow_step (w : world) : world -> Prop :=
  | job_step i t leave t' fl' : jobs w !! i = Some t -> micro true leave t (shared_flows w) = Some (t', fl') -> flow_step w (World (<[i := t']> (jobs w)) fl').

Definition tally (g : thread_data -> Z) (l : list thread_data) : Z := foldr (fun t a => g t + a) 0 l.

(** What a job contributes to flow [id]. *)
Definition member (id : Z) (t : thread_data) : Prop := at_ t <> Out /\ o_flow_id t = id.

#[export] Instance member_dec id t : Decision (member id t).
Proof. unfold member. apply _. Defined.

Definition one (id : Z) (t : thread_data) : Z := if decide (member id t) then 1 else 0.
Definition steps_of (id : Z) (t : thread_data) : Z :=
  if decide (member id t) then (if decide (at_ t = Left) then 0 else td_flow_counter t) + (if decide (at_ t = Added) then 1 else 0) else 0.
Definition weight_of (id : Z) (t : thread_data) : Z := if decide (member id t /\ at_ t <> Joined) then o_flow t else 0.

Definition flow_of (id : Z) (l : list thread_data) : option fio_flow :=
  if decide (tally (one id) l = 0) then None else Some (FioFlow (tally (one id) l) (u64 (1 + tally (steps_of id) l)) (u32 (tally (weight_of id) l))).

(** The shared memory is what the jobs add up to. *)
Definition accounted (w : world) : Prop :=
  Z.of_nat (length (jobs w)) < 2 ^ 32 /\
  Forall (fun t => 0 <= o_flow t < 2 ^ 32 /\ 0 <= td_flow_counter t < 2 ^ 64 /\ (o_flow t = 0 -> at_ t = Out)) (jobs w) /\
  forall id, shared_flows w !! id = flow_of id (jobs w).

Lemma tally_insert g l i t t' : l !! i = Some t -> tally g (<[i := t']> l) = tally g l - g t + g t'.
Proof.
  revert i. induction l as [|u l IH]; intros [|i] H; try done.
  - injection H as ->. change (g t' + tally g l = g t + tally g l - g t + g t'). lia.
  - specialize (IH i H). change (g u + tally g (<[i := t']> l) = g u + tally g l - g t + g t'). lia.
Qed.

Lemma tally_bounds g l m : Forall (fun t => 0 <= g t <= m) l -> 0 <= tally g l <= m * Z.of_nat (length l) /\
  forall i t, l !! i = Some t -> g t <= tally g l.
Proof.
  unfold tally. induction 1 as [|u l Hu _ [IH1 IH2]]; [split; [cbn; lia|done]|]. cbn [foldr length]. split; [lia|].
  intros [|i] t Ht; [injection Ht as ->; lia|]. specialize (IH2 i t Ht). lia.
Qed.

Lemma one_bounds id l : Forall (fun t => 0 <= one id t <= 1) l.
Proof. apply Forall_true. intros t. unfold one. case_decide; lia. Qed.

(** ** Accounts are kept *)

(** A step of job [i] that changes its contributions by [dc] and [dw] and leaves it in the flow, or joins
    it. *)
Lemma flow_of_insert l i t t' id : l !! i = Some t -> flow_of id (<[i := t']> l) =
  let n := tally (one id) l - one id t + one id t' in
  if decide (n = 0) then None
  else Some (FioFlow n (u64 (1 + (tally (steps_of id) l - steps_of id t + steps_of id t'))) (u32 (tally (weight_of
    id) l - weight_of id t + weight_of id t'))).
Proof. intros H. unfold flow_of. by rewrite !(tally_insert _ _ _ _ _ H). Qed.

(** Other flows are not touched. *)
Lemma flow_of_other l i t t' id : l !! i = Some t -> o_flow_id t' = o_flow_id t -> id <> o_flow_id t ->
  flow_of id (<[i := t']> l) = flow_of id l.
Proof.
  intros H E Hne. rewrite (flow_of_insert _ _ _ _ _ H). unfold flow_of.
  assert (E0 : forall u, o_flow_id u = o_flow_id t -> one id u = 0 /\ steps_of id u = 0 /\ weight_of id u = 0).
  { intros u Hu. unfold one, steps_of, weight_of, member. rewrite !decide_False by (rewrite Hu; naive_solver). done. }
  destruct (E0 t eq_refl) as (-> & -> & ->). destruct (E0 t' E) as (-> & -> & ->). by rewrite !Z.add_0_r, !Z.sub_0_r.
Qed.

(** The flow of a member. *)
Lemma member_flow w i t : accounted w -> jobs w !! i = Some t -> at_ t <> Out ->
  let id := o_flow_id t in
  1 <= tally (one id) (jobs w) < 2 ^ 32 /\
  shared_flows w !! id = Some (FioFlow (tally (one id) (jobs w)) (u64 (1 + tally (steps_of id) (jobs w))) (u32 (tally
    (weight_of id) (jobs w)))).
Proof.
  intros (Hn & _ & Hf) Ht Ho id. destruct (tally_bounds (one id) (jobs w) 1 (one_bounds id _)) as [Hb Hi].
  specialize (Hi i t Ht). unfold one at 1 in Hi. rewrite decide_True in Hi by done.
  split; [lia|]. rewrite Hf. unfold flow_of. by rewrite decide_False by lia.
Qed.

Lemma accounted_intro w i t t' fl' : accounted w -> jobs w !! i = Some t -> o_flow_id t' = o_flow_id t ->
  0 <= o_flow t' < 2 ^ 32 -> 0 <= td_flow_counter t' < 2 ^ 64 -> (o_flow t' = 0 -> at_ t' = Out) ->
  (forall id, id <> o_flow_id t -> fl' !! id = shared_flows w !! id) ->
    fl' !! o_flow_id t = flow_of (o_flow_id t) (<[i := t']> (jobs w)) -> accounted (World (<[i := t']> (jobs w)) fl').
Proof.
  intros (Hn & Hw & Hf) Ht E H1 H2 H3 Ho Hs. split; [by cbn [jobs]; rewrite length_insert|]. cbn [jobs shared_flows].
  split; [by apply Forall_insert|]. intros id.
  destruct (decide (id = o_flow_id t)) as [->|Hne]; [done|]. rewrite (Ho id Hne), Hf. symmetry.
  by apply (flow_of_other _ _ t).
Qed.

Lemma wrapu_add w a b : wrapu w (wrapu w a + b) = wrapu w (a + b).
Proof. unfold wrapu. apply Zplus_mod_idemp_l. Qed.

Lemma wrapu_add_r w a b : wrapu w (a + wrapu w b) = wrapu w (a + b).
Proof. unfold wrapu. apply Zplus_mod_idemp_r. Qed.

(** The contributions of a job to its own flow. *)
Lemma own t : at_ t <> Out ->
  one (o_flow_id t) t = 1 /\ steps_of (o_flow_id t) t = (if decide (at_ t = Left) then 0 else td_flow_counter t) +
    (if decide (at_ t = Added) then 1 else 0) /\
  weight_of (o_flow_id t) t = if decide (at_ t = Joined) then 0 else o_flow t.
Proof.
  intros Ho. unfold one, steps_of, weight_of, member. rewrite !(decide_True (P := at_ t <> Out /\ _)) by done.
  split; [done|]. split; [done|].
  destruct (decide (at_ t = Joined)); [rewrite decide_False by tauto|rewrite decide_True by tauto]; done.
Qed.

Lemma own_out id t : at_ t = Out -> one id t = 0 /\ steps_of id t = 0 /\ weight_of id t = 0.
Proof. intros Ho. unfold one, steps_of, weight_of, member. rewrite !decide_False by tauto. done. Qed.

Lemma tally_none id l : tally (one id) l = 0 -> tally (steps_of id) l = 0 /\ tally (weight_of id) l = 0.
Proof.
  unfold tally. induction l as [|t l IH]; [done|]. cbn [foldr].
  destruct (tally_bounds (one id) l 1 (one_bounds id l)) as [Hb _]. unfold tally in Hb.
  unfold one at 1, steps_of at 1, weight_of at 1.
  destruct (decide (member id t)) as [|Hm]; [lia|]. rewrite decide_False by tauto. intros H.
  destruct IH as [-> ->]; [lia|done].
Qed.

(** A step that keeps the job in its flow. *)
Lemma stay_spec w i t t' fl' dc dw : accounted w -> jobs w !! i = Some t -> at_ t <> Out -> at_ t' <> Out ->
  o_flow t' = o_flow t -> o_flow_id t' = o_flow_id t -> 0 <= td_flow_counter t' < 2 ^ 64 ->
  (forall f, shared_flows w !! o_flow_id t = Some f -> fl' = <[o_flow_id t := FioFlow (refs f) (u64 (flow_counter f +
    dc)) (u32 (total_weight f + dw))]> (shared_flows w)) ->
  u64 (steps_of (o_flow_id t) t') = u64 (steps_of (o_flow_id t) t + dc) ->
    weight_of (o_flow_id t) t' = weight_of (o_flow_id t) t + dw -> accounted (World (<[i := t']> (jobs w)) fl').
Proof.
  intros A Ht Ho Ho' Ef Ei Hc Hfl Es Ew. destruct (member_flow w i t A Ht Ho) as [Hn Hs]. specialize (Hfl _ Hs).
  subst fl'. cbn [refs flow_counter total_weight] in *. pose proof A as (_ & Hj & _).
  destruct (Forall_lookup_1 _ _ _ _ Hj Ht) as (H1 & H2 & H3).
  eapply accounted_intro; try done; [by rewrite Ef|by rewrite Ef; intros H; apply H3 in H|by intros id Hne;
    rewrite lookup_insert_ne by done|].
  rewrite lookup_insert, decide_True by done. rewrite (flow_of_insert _ _ _ _ _ Ht). destruct (own t Ho) as (-> & _).
  pose proof (own t' Ho') as (O' & _). rewrite Ei in O'. rewrite O'. cbv zeta. rewrite decide_False by lia. f_equal.
  f_equal; [lia| |].
  - rewrite wrapu_add. set (S := tally _ _). set (c := steps_of _ t) in *. set (c' := steps_of _ t') in *.
    replace (1 + (S - c + c')) with (1 + S - c + c') by lia. rewrite <- (wrapu_add_r 64 _ c'), Es, wrapu_add_r.
    f_equal. lia.
  - rewrite wrapu_add, Ew. f_equal. lia.
Qed.

(** A step that does not change the flow. *)
Lemma look_spec w i t t' : accounted w -> jobs w !! i = Some t -> at_ t <> Out -> at_ t' <> Out ->
  o_flow t' = o_flow t -> o_flow_id t' = o_flow_id t -> 0 <= td_flow_counter t' < 2 ^ 64 ->
  u64 (steps_of (o_flow_id t) t') = u64 (steps_of (o_flow_id t) t) ->
    weight_of (o_flow_id t) t' = weight_of (o_flow_id t) t ->
    accounted (World (<[i := t']> (jobs w)) (shared_flows w)).
Proof.
  intros A Ht Ho Ho' Ef Ei Hc Es Ew. apply (stay_spec w i t t' _ 0 0); try done;
    [|by rewrite Z.add_0_r|by rewrite Z.add_0_r]. intros f Hf. destruct (member_flow w i t A Ht Ho) as [_ Hs].
  rewrite Hs in Hf. injection Hf as <-.
  cbn [refs flow_counter total_weight]. rewrite !wrapu_add, !Z.add_0_r. symmetry. by apply insert_id.
Qed.

Lemma join_spec w i t : accounted w -> jobs w !! i = Some t -> at_ t = Out -> o_flow t <> 0 ->
  exists fl', flow_get true (o_flow_id t) (shared_flows w) = (true, fl') /\
    accounted (World (<[i := move Joined (set_counter 0 t)]> (jobs w)) fl').
Proof.
  intros A Ht Ho Hw. pose proof A as (Hn & Hj & Hf). destruct (Forall_lookup_1 _ _ _ _ Hj Ht) as (H1 & H2 & _).
  set (id := o_flow_id t). set (t' := move Joined (set_counter 0 t)).
  assert (O' : one id t' = 1 /\ steps_of id t' = 0 /\ weight_of id t' = 0) by exact (own t' ltac:(done)).
  destruct O' as (O1 & O2 & O3). destruct (own_out id t Ho) as (P1 & P2 & P3).
  destruct (tally_bounds (one id) (<[i := t']> (jobs w)) 1 (one_bounds id _)) as [Hb _].
  rewrite length_insert, (tally_insert _ _ _ _ _ Ht), O1, P1 in Hb.
  destruct (tally_bounds (one id) (jobs w) 1 (one_bounds id _)) as [Hb' _].
  assert (Hnew : flow_of id (<[i := t']> (jobs w)) = Some (FioFlow (tally (one id) (jobs w) + 1) (u64 (1 + tally
    (steps_of id) (jobs w))) (u32 (tally (weight_of id) (jobs w))))).
  { rewrite (flow_of_insert _ _ _ _ _ Ht), O1, O2, O3, P1, P2,
      P3. cbv zeta. rewrite decide_False by lia. by rewrite !Z.add_0_r, !Z.sub_0_r. }
  unfold flow_get. rewrite Hf. unfold flow_of. case_decide as H0; eexists; (split; [reflexivity|]).
  all: apply (accounted_intro w i t t'); try done; [intros id' Hne; by rewrite lookup_insert_ne by done|]; fold id;
      rewrite Hnew, lookup_insert, decide_True by done; f_equal.
  - destruct (tally_none id _ H0) as [-> ->]. by rewrite H0.
  - cbn [refs flow_counter total_weight]. f_equal. apply wrapu_small. lia.
Qed.

Lemma leave_spec w i t : accounted w -> jobs w !! i = Some t -> at_ t = Left ->
  exists fl', put_rest (o_flow_id t) (o_flow t) (shared_flows w) = Some fl' /\
    accounted (World (<[i := move Out t]> (jobs w)) fl').
Proof.
  intros A Ht Ho. pose proof A as (Hn & Hj & Hf). destruct (Forall_lookup_1 _ _ _ _ Hj Ht) as (H1 & H2 & _).
  destruct (member_flow w i t A Ht ltac:(congruence)) as [Hm Hs]. set (id := o_flow_id t) in *.
  set (t' := move Out t).
  destruct (own t ltac:(congruence)) as (O1 & O2 & O3). rewrite Ho in O2, O3.
  rewrite (decide_True (P := Left = Left)), (decide_False (P := Left = Added)) in O2 by done.
  rewrite (decide_False (P := Left = Joined)) in O3 by done. fold id in O1, O2, O3.
  destruct (own_out id t' eq_refl) as (P1 & P2 & P3).
  pose proof (flow_of_insert (jobs w) i t t' id Ht) as Hnew. rewrite O1, O2, O3, P1, P2, P3 in Hnew.
  cbv zeta in Hnew. rewrite !Z.add_0_r, Z.sub_0_r in Hnew.
  unfold put_rest, add_weight. rewrite Hs. cbn [mbind option_bind refs flow_counter total_weight].
  rewrite lookup_insert, decide_True by done. cbn [mbind option_bind refs flow_counter total_weight].
  rewrite (wrapu_small 32 (_ - 1)) by lia.
  destruct (decide (tally (one id) (jobs w) - 1 = 0)) as [H0|H0].
  - destruct (tally_none id (<[i := t']> (jobs w))) as [Hz _]; [rewrite (tally_insert _ _ _ _ _ Ht), O1, P1; lia|].
    rewrite (tally_insert _ _ _ _ _ Ht), O2, P2 in Hz. replace (tally (steps_of id) (jobs w)) with 0 by lia.
    rewrite decide_True by done.
    eexists. split; [reflexivity|]. apply (accounted_intro w i t t'); try done; [intros id' Hne;
      rewrite lookup_delete_ne, lookup_insert_ne by done; done|]. fold id. by rewrite Hnew, lookup_delete_eq.
  - eexists. split; [reflexivity|]. apply (accounted_intro w i t t'); try done; [intros id' Hne;
      rewrite !lookup_insert_ne by done; done|]. fold id. rewrite Hnew, lookup_insert, decide_True by done. f_equal.
    f_equal. by rewrite wrapu_add.
Qed.

(** Between its steps a job contributes its counter and its weight. *)
Lemma own_at t st e : st <> Out -> st <> Left -> st <> Added -> st <> Joined ->
  steps_of (o_flow_id t) (Td (o_flow t) (o_flow_id t) st e) = e /\
    weight_of (o_flow_id t) (Td (o_flow t) (o_flow_id t) st e) = o_flow t.
Proof.
  intros N1 N2 N3 N4. destruct (own (Td (o_flow t) (o_flow_id t) st e) N1) as (_ & S1 & S2).
  cbn [o_flow o_flow_id at_ td_flow_counter] in S1, S2.
  rewrite (decide_False (P := st = Left)), (decide_False (P := st = Added)) in S1 by done.
  rewrite (decide_False (P := st = Joined)) in S2 by done. split; [lia|done].
Qed.

(** Decides which stage a job is at. *)
Ltac which H := repeat first [rewrite decide_True in H by done|rewrite decide_False in H by done].

(** No step of a job fails, and the accounts stay right. *)
Lemma micro_spec w i t leave : accounted w -> jobs w !! i = Some t ->
  exists t' fl', micro true leave t (shared_flows w) = Some (t', fl') /\ accounted (World (<[i := t']> (jobs w)) fl').
Proof.
  intros A Ht. pose proof A as (_ & Hj & _). destruct (Forall_lookup_1 _ _ _ _ Hj Ht) as (H1 & H2 & H3).
  unfold micro. destruct (at_ t) eqn:Hst.
  1:{ case_decide as H0; [exists t, (shared_flows w); split; [done|]; rewrite list_insert_id by done;
        by destruct w|]. destruct (join_spec w i t A Ht Hst H0) as (fl' & -> & A'). by eexists _, _. }
  all: destruct (member_flow w i t A Ht ltac:(congruence)) as [Hn Hs];
      destruct (own t ltac:(congruence)) as (O1 & O2 & O3); rewrite Hst in O2, O3; which O2; which O3.
  - unfold add_weight. rewrite Hs. cbn [mbind option_bind refs flow_counter total_weight]. do 2 eexists.
    split; [reflexivity|]. destruct (own_at t Ready (td_flow_counter t)) as (S1 & S2); try done.
    apply (stay_spec w i t _ _ 0 (o_flow t)); try done; [congruence| |by unfold move; rewrite S1, O2; f_equal;
      lia|by unfold move; rewrite S2, O3; lia].
    intros f Hf. rewrite Hs in Hf. injection Hf as <-. cbn [refs flow_counter total_weight].
    by rewrite !wrapu_add, Z.add_0_r.
  - destruct leave.
    + unfold add_counter. rewrite Hs. cbn [mbind option_bind refs flow_counter total_weight]. do 2 eexists.
      split; [reflexivity|]. destruct (own (move Left t) ltac:(done)) as (_ & S1 & S2).
      cbn [move o_flow o_flow_id at_ td_flow_counter] in S1, S2. which S1; which S2.
      apply (stay_spec w i t _ _ (- td_flow_counter t) 0); try done; [congruence| |by rewrite S1, O2; f_equal;
        lia|by rewrite S2, O3; lia].
      intros f Hf. rewrite Hs in Hf. injection Hf as <-. cbn [refs flow_counter total_weight].
      by rewrite !wrapu_add, Z.add_0_r.
    + rewrite Hs. cbn [mbind option_bind]. do 2 eexists. split; [reflexivity|].
      match goal with |- context [Loaded ?c] => destruct (own_at t (Loaded c) (td_flow_counter t)) as (S1 & S2);
        try done end.
      apply (look_spec w i t); try done; [congruence|by unfold move; rewrite S1, O2; f_equal; lia|by unfold move;
        rewrite S2, O3].
  - rewrite Hs. cbn [mbind option_bind]. do 2 eexists. split; [reflexivity|].
    match goal with |- context [if ?b then Ready else Passed] => destruct b end.
    + destruct (own_at t Ready (td_flow_counter t)) as (S1 & S2); try done.
      apply (look_spec w i t); try done; [congruence|by unfold move; rewrite S1, O2; f_equal; lia|by unfold move;
        rewrite S2, O3].
    + destruct (own_at t Passed (td_flow_counter t)) as (S1 & S2); try done.
      apply (look_spec w i t); try done; [congruence|by unfold move; rewrite S1, O2; f_equal; lia|by unfold move;
        rewrite S2, O3].
  - unfold add_counter. rewrite Hs. cbn [mbind option_bind refs flow_counter total_weight]. do 2 eexists.
    split; [reflexivity|]. destruct (own (move Added t) ltac:(done)) as (_ & S1 & S2).
    cbn [move o_flow o_flow_id at_ td_flow_counter] in S1, S2. which S1; which S2.
    apply (stay_spec w i t _ _ 1 0); try done; [congruence| |by rewrite S1, O2; f_equal; lia|by rewrite S2, O3; lia].
    intros f Hf. rewrite Hs in Hf. injection Hf as <-. cbn [refs flow_counter total_weight].
    by rewrite !wrapu_add, Z.add_0_r.
  - do 2 eexists. split; [reflexivity|]. destruct (own_at t Ready (u64 (td_flow_counter t + 1))) as (S1 & S2);
      try done.
    apply (look_spec w i t); try done; [congruence|by apply wrapu_range|unfold move, set_counter;
      cbn [o_flow o_flow_id at_ td_flow_counter]; rewrite S1, O2; unfold wrapu; rewrite Z.mod_mod by lia;
      done|by unfold move, set_counter; cbn [o_flow o_flow_id at_ td_flow_counter]; rewrite S2, O3].
  - destruct (leave_spec w i t A Ht Hst) as (fl' & -> & A'). cbn [mbind option_bind]. by eexists _, _.
Qed.

(** ** Shares *)

Lemma steps_bounds w id : accounted w -> 0 <= tally (steps_of id) (jobs w) /\ forall i t, jobs w !! i = Some t ->
  0 <= steps_of id t <= tally (steps_of id) (jobs w).
Proof.
  intros (_ & Hj & _). assert (F : Forall (fun t => 0 <= steps_of id t <= 2 ^ 64) (jobs w)).
  { eapply Forall_impl; [exact Hj|]. intros t (_ & Hc & _). unfold steps_of. repeat case_decide; lia. }
  destruct (tally_bounds _ _ _ F) as [Hb Hi]. split; [lia|]. intros i t Ht.
  split; [by apply (Forall_lookup_1 _ _ _ _ F Ht)|by apply (Hi i)].
Qed.

Lemma weight_bounds w id : accounted w -> 0 <= tally (weight_of id) (jobs w) /\ forall i t, jobs w !! i = Some t ->
  0 <= weight_of id t <= tally (weight_of id) (jobs w).
Proof.
  intros (_ & Hj & _). assert (F : Forall (fun t => 0 <= weight_of id t <= 2 ^ 32) (jobs w)).
  { eapply Forall_impl; [exact Hj|]. intros t (Hw & _). unfold weight_of. case_decide; lia. }
  destruct (tally_bounds _ _ _ F) as [Hb Hi]. split; [lia|]. intros i t Ht.
  split; [by apply (Forall_lookup_1 _ _ _ _ F Ht)|by apply (Hi i)].
Qed.

Lemma tally_le a b g h l : Forall (fun t => b * h t <= a * g t) l -> b * tally h l <= a * tally g l.
Proof. unfold tally. induction 1 as [|t l Ht _ IH]; cbn [foldr]; lia. Qed.

(** The counters that doubles have room for. *)
Definition fits (id : Z) (l : list thread_data) : Prop := 1 + tally (steps_of id) l < 2 ^ 53 /\ tally (weight_of id) l < 2 ^ 32.

(** A check between two steps, undisturbed. *)
Lemma undisturbed_check w i t : accounted w -> jobs w !! i = Some t -> at_ t = Ready -> fits (o_flow_id t) (jobs w) ->
  let f := 1 + tally (steps_of (o_flow_id t)) (jobs w) in
  let wt := tally (weight_of (o_flow_id t)) (jobs w) in
  0 < o_flow t <= wt /\ 0 <= td_flow_counter t < f /\
  exists t' fl', flow_threshold_exceeded t (shared_flows w) = Some (if dgt (ddiv (td_flow_counter t) f) (ddiv (o_flow
    t) wt) then 1 else 0, t', fl').
Proof.
  intros A Ht Hr [Hf1 Hf2] f wt. destruct (member_flow w i t A Ht ltac:(congruence)) as [_ Hs].
  pose proof A as (_ & Hj & _). destruct (Forall_lookup_1 _ _ _ _ Hj Ht) as (H1 & H2 & H3).
  destruct (steps_bounds w (o_flow_id t) A) as [S0 Si]. destruct (weight_bounds w (o_flow_id t) A) as [W0 Wi].
  specialize (Si i t Ht). specialize (Wi i t Ht). destruct (own t ltac:(congruence)) as (_ & O2 & O3).
  rewrite Hr in O2, O3. which O2; which O3. rewrite O2 in Si. rewrite O3 in Wi.
  assert (Hpos : o_flow t <> 0) by (intros E; apply H3 in E; congruence). split; [unfold wt; lia|].
  split; [unfold f; lia|].
  assert (D : forall z, z < 2 ^ 53 -> dint z = z) by (intros z Hz; unfold dint; by rewrite decide_True).
  set (fl := shared_flows w) in *.
  assert (M1 : micro true false t fl = Some (move (Loaded f) t, fl)) by (unfold micro; rewrite Hr, Hs;
    cbn [mbind option_bind flow_counter]; by rewrite wrapu_small by lia).
  assert (M2 : micro true false (move (Loaded f) t) fl = Some (move (if dgt (ddiv (td_flow_counter t) f) (ddiv
    (o_flow t) wt) then Ready else Passed) (move (Loaded f) t), fl)).
  { unfold micro. cbn [move at_ o_flow_id o_flow td_flow_counter]. rewrite Hs. cbn [mbind option_bind total_weight].
      rewrite (wrapu_small 32) by lia. fold wt. by rewrite !D by (unfold f, wt; lia). }
  unfold flow_threshold_exceeded. rewrite decide_False by congruence. rewrite M1. cbn [mbind option_bind].
  rewrite M2. cbn [mbind option_bind]. destruct (dgt _ _).
  - cbn [move at_]. rewrite decide_True by done. by eexists _, _.
  - cbn [move at_]. rewrite decide_False by done. unfold micro, add_counter. cbn [move at_ o_flow_id]. rewrite Hs.
    cbn [mbind option_bind move at_]. by eexists _, _.
Qed.

(** Some member has at most its share. *)
Lemma under_share w id : accounted w -> (exists i t, jobs w !! i = Some t /\ member id t) -> (forall i t,
  jobs w !! i = Some t -> member id t -> at_ t = Ready) ->
  exists i t, jobs w !! i = Some t /\ member id t /\ td_flow_counter t * tally (weight_of id) (jobs w) <= o_flow t *
    (1 + tally (steps_of id) (jobs w)).
Proof.
  intros A (i0 & t0 & Ht0 & Hm0) Hall. set (f := 1 + tally (steps_of id) (jobs w)).
  set (wt := tally (weight_of id) (jobs w)).
  destruct (decide (Exists (fun t => member id t /\ td_flow_counter t * wt <= o_flow t * f) (jobs w))) as [H|H].
  { apply Exists_exists in H as (t & Hin & Hm & Hle). apply list_elem_of_lookup in Hin as (i & Hi). by exists i, t. }
  exfalso. destruct (steps_bounds w id A) as [S0 _]. destruct (weight_bounds w id A) as [W0 Wi].
  specialize (Wi i0 t0 Ht0). assert (C : forall i t, jobs w !! i = Some t -> member id t ->
    steps_of id t = td_flow_counter t /\ weight_of id t = o_flow t).
  { intros i t Ht Hm. pose proof (Hall i t Ht Hm) as Hr. destruct Hm as [Ho <-]. destruct (own t Ho) as (_ & O2 &
      O3). rewrite Hr in O2, O3. which O2; which O3. split; [lia|done]. }
  assert (F : Forall (fun t => f * weight_of id t <= wt * steps_of id t) (jobs w)).
  { apply Forall_lookup. intros i t Ht. destruct (decide (member id t)) as [Hm|Hm].
    - destruct (C i t Ht Hm) as [-> ->]. apply not_Exists_Forall in H; [|intros; apply _].
      pose proof (Forall_lookup_1 _ _ _ _ H Ht) as Hn. cbn beta in Hn.
      destruct (decide (td_flow_counter t * wt <= o_flow t * f)) as [Hle|Hgt]; [exfalso; by apply Hn|]. lia.
    - unfold weight_of, steps_of. rewrite !decide_False by tauto. lia. }
  pose proof (tally_le wt f _ _ _ F) as Hsum. fold wt in Hsum. destruct (C i0 t0 Ht0 Hm0) as [_ Ew].
  pose proof A as (_ & Hj & _). destruct (Forall_lookup_1 _ _ _ _ Hj Ht0) as (Hw & _ & Hz).
  pose proof (proj1 Hm0) as Ho.
  assert (o_flow t0 <> 0) by tauto. rewrite Ew in Wi. fold wt in Wi. assert (0 < wt) by lia. unfold f in Hsum. lia.
Qed.

(** A job before it starts. *)
Definition fresh_job (t : thread_data) : Prop := 0 <= o_flow t < 2 ^ 32 /\ at_ t = Out /\ td_flow_counter t = 0.

Lemma fresh_accounted js : Z.of_nat (length js) < 2 ^ 32 -> Forall fresh_job js -> accounted (World js ∅).
Proof.
  intros Hn Hj. split; [done|]. split.
  - eapply Forall_impl; [exact Hj|]. intros t (H1 & H2 & H3). rewrite H3. done.
  - intros id. cbn [shared_flows jobs]. rewrite lookup_empty. unfold flow_of. rewrite decide_True; [done|].
    unfold tally. clear Hn. induction Hj as [|t l (_ & Ho & _) _ IH]; [done|]. cbn [foldr].
    destruct (own_out id t Ho) as (-> & _). lia.
Qed.

Lemma step_accounted w w' : accounted w -> flow_step w w' -> accounted w'.
Proof. intros A [i t leave t' fl' Ht E]. destruct (micro_spec w i t leave A Ht) as (t2 & fl2 & E2 & A2).
  rewrite E in E2. by injection E2 as -> ->. Qed.

(** C17: Flow control between jobs, whose steps on shared memory are interleaved in any way, with jobs
    that join and leave: every flow exists while it has members, its counter is one more than the steps
    of its members, its weight the sum of theirs and its references their number; no step fails, so that
    the counter is back to one when the last member leaves. Whenever all members are between two steps,
    one of them at least may take the next, rounded as the shares are; and as long as the product of
    counter and weight is below 2^52, a job waits exactly when its share of the steps exceeds its share
    of the weights. *)
Theorem flow_shares js w : Z.of_nat (length js) < 2 ^ 32 -> Forall fresh_job js -> rtc flow_step (World js ∅) w ->
  accounted w /\
  (forall i t leave, jobs w !! i = Some t -> exists r, micro true leave t (shared_flows w) = Some r) /\
  (forall id, (exists i t, jobs w !! i = Some t /\ member id t) -> (forall i t, jobs w !! i = Some t ->
    member id t -> at_ t = Ready) -> fits id (jobs w) ->
     exists i t t' fl', jobs w !! i = Some t /\ member id t /\ flow_threshold_exceeded t (shared_flows w) = Some (0,
       t', fl')) /\
  (forall i t, jobs w !! i = Some t -> at_ t = Ready ->
     let f := 1 + tally (steps_of (o_flow_id t)) (jobs w) in
     let wt := tally (weight_of (o_flow_id t)) (jobs w) in
     f < 2 ^ 53 -> wt < 2 ^ 32 -> f * wt < 2 ^ 52 ->
     exists t' fl', flow_threshold_exceeded t (shared_flows w) = Some (if decide (td_flow_counter t * wt > o_flow t *
       f) then 1 else 0, t', fl')).
Proof.
  intros Hn Hj Hr. assert (A : accounted w) by (pose proof (fresh_accounted js Hn Hj) as A0;
    induction Hr as [|w0 w1 w2 H1 _ IH]; [done|]; apply IH; by apply (step_accounted w0)).
  split; [done|]. split; [intros i t leave Ht; destruct (micro_spec w i t leave A Ht) as (t' & fl' & E & _); eauto|].
  split.
  - intros id Hm Hall Hf. destruct (under_share w id A Hm Hall) as (i & t & Ht & Hmt & Hle).
    pose proof (Hall i t Ht Hmt) as Hrd. destruct Hmt as [Ho <-].
    destruct (undisturbed_check w i t A Ht Hrd Hf) as (B1 & B2 & t' & fl' & E). exists i, t, t', fl'. split; [done|].
    split; [done|].
    rewrite E. destruct Hf as [F1 F2]. rewrite ddiv_le; [done| | | | |done]; unfold wide; lia.
  - intros i t Ht Hrd f wt F1 F2 Hp. destruct (undisturbed_check w i t A Ht Hrd) as (B1 & B2 & t' & fl' & E); [done|].
    exists t', fl'. rewrite E. fold f wt in B1, B2 |- *. case_decide as Hd; [by rewrite ddiv_gt by lia|].
    rewrite ddiv_le; [done| | | | |lia]; unfold wide; lia.
Qed.

(** ** Examples *)

(** The world after the steps of the listed jobs, none of which leaves. *)
Fixpoint play (sched : list nat) (w : world) : option world :=
  match sched with
  | [] => Some w
  | i :: sched' => t ← jobs w !! i; '(t', fl') ← micro true false t (shared_flows w); play sched' (World (<[i := t']> (jobs w)) fl')
  end.

Lemma play_steps sched : forall w w', play sched w = Some w' -> rtc flow_step w w'.
Proof.
  induction sched as [|i sched IH]; intros w w' H; [injection H as ->; apply rtc_refl|]. cbn [play] in H.
  destruct (jobs w !! i) as [t|] eqn:Ht; [|done]. cbn [mbind option_bind] in H.
  destruct (micro true false t (shared_flows w)) as [[t' fl']|] eqn:E; [|done]. cbn [mbind option_bind] in H.
  eapply rtc_l; [by eapply job_step|]. by apply IH.
Qed.

(** Two jobs with weights 1 and 3: the first has joined and taken one step, the second has joined. *)
Definition ex_jobs : list thread_data := [Td 1 7 Out 0; Td 3 7 Out 0].

Lemma flow_shares_witness : exists w, play [0; 1; 0; 1; 0; 0; 0; 0]%nat (World ex_jobs ∅) = Some w /\
  shared_flows w !! 7 = Some (FioFlow 2 2 4) /\ accounted w /\
  (exists t' fl', flow_threshold_exceeded (Td 1 7 Ready 1) (shared_flows w) = Some (1, t', fl')) /\ (exists t' fl',
    flow_threshold_exceeded (Td 3 7 Ready 0) (shared_flows w) = Some (0, t', fl')).
Proof.
  assert (E : play [0; 1; 0; 1; 0; 0; 0; 0]%nat (World ex_jobs ∅) = Some (World [Td 1 7 Ready 1;
    Td 3 7 Ready 0] {[7 := FioFlow 2 2 4]})) by (vm_compute; reflexivity).
  eexists. split; [exact E|]. split; [done|].
  destruct (flow_shares ex_jobs (World [Td 1 7 Ready 1; Td 3 7 Ready 0] {[7 := FioFlow 2 2 4]})) as (A & _ & _ & X);
    [cbn; lia|by repeat constructor|by eapply play_steps|].
  split; [done|]. split; [apply (X 0%nat (Td 1 7 Ready 1))|apply (X 1%nat (Td 3 7 Ready 0))]; done.
Defined.

(** A job waits for the others of its flow also when they have not started yet: here the first can take
    no second step until the second takes one. *)
Example first_waits : exists w t' fl', play [0; 1; 0; 1; 0; 0; 0; 0]%nat (World ex_jobs ∅) = Some w /\
  flow_threshold_exceeded (Td 1 7 Ready 1) (shared_flows w) = Some (1, t', fl') /\ fl' = shared_flows w /\
  t' = Td 1 7 Ready 1.
Proof. do 3 eexists. split; [vm_compute; reflexivity|]. split; [vm_compute; reflexivity|]. done. Qed.

(** Without memory for a flow the weight is added through NULL. *)
Example no_flow_memory : flow_init_job false (Td 1 7 Out 0) ∅ = None.
Proof. reflexivity. Qed.
