(* ===== verification/LatHist.v ===== *)
(** * Latency statistics (src/fio/stat.c, io_u.c)

    Latencies are counted in a histogram whose buckets grow with the values, and
    percentiles are read off it; coarser maps count latencies and queue depths in a
    few classes.  A histogram is a list of 64-bit counters.  [None] is a failed
    assertion or an access outside an array.

    Percentiles are doubles, and whether one is reached is decided in
    [long double]: both are modelled with their rounding, a double as a multiple
    of the smallest one. *)

From S2P Require Import Prelude Bits Flow.
From stdpp Require Import sorting.

Open Scope Z_scope.

Definition FIO_IO_U_PLAT_BITS : Z := 6.
Definition FIO_IO_U_PLAT_VAL : Z := Z.shiftl 1 FIO_IO_U_PLAT_BITS.
Definition FIO_IO_U_PLAT_GROUP_NR : Z := 29.
Definition FIO_IO_U_PLAT_NR : Z := FIO_IO_U_PLAT_GROUP_NR * FIO_IO_U_PLAT_VAL.

(** ** Buckets *)

Definition plat_val_to_idx (val : Z) : Z :=
  let msb := if decide (val = 0) then 0 else Z.log2 val in
  if decide (msb <= FIO_IO_U_PLAT_BITS) then val
  else
    let error_bits := msb - FIO_IO_U_PLAT_BITS in
    let base := Z.shiftl (error_bits + 1) FIO_IO_U_PLAT_BITS in
    let offset := Z.land (FIO_IO_U_PLAT_VAL - 1) (Z.shiftr val error_bits) in
    if decide (base + offset < FIO_IO_U_PLAT_NR - 1) then base + offset else FIO_IO_U_PLAT_NR - 1.

(** The mean of the bucket; the doubles it is computed with are exact. *)
Definition plat_idx_to_val (idx : Z) : option Z :=
  if decide (idx < FIO_IO_U_PLAT_NR) then
    if decide (idx < Z.shiftl FIO_IO_U_PLAT_VAL 1) then Some idx
    else
      let error_bits := Z.shiftr idx FIO_IO_U_PLAT_BITS - 1 in
      let base := Z.shiftl 1 (error_bits + FIO_IO_U_PLAT_BITS) in
      let k := idx mod FIO_IO_U_PLAT_VAL in
      Some (base + (2 * k + 1) * Z.shiftl 1 error_bits / 2)
  else None.

Definition incr (plat : list Z) (idx : Z) : option (list Z) :=
  if decide (0 <= idx) then n ← plat !! Z.to_nat idx; Some (<[Z.to_nat idx := u64 (n + 1)]> plat) else None.

Definition add_lat_percentile_sample (plat : list Z) (nsec : Z) : option (list Z) :=
  let idx := plat_val_to_idx nsec in
  if decide (idx < FIO_IO_U_PLAT_NR) then incr plat idx else None.

(** ** Floating point

    A finite double is a multiple of [2^-1074] and is represented by that
    multiple; infinities and NaN are left out.  A [long double] is likewise a
    multiple of the smallest one, [2^-UNIT], with at most [MANT_DIG] significant
    bits: 64 in the 80-bit format of x86, 113 in the quadruple format.  No
    computation here comes near the largest exponent. *)
Record ldbl := Ldbl { MANT_DIG : Z; UNIT : Z }.

Definition x87 : ldbl := Ldbl 64 16445.
Definition quad : ldbl := Ldbl 113 16494.

Definition dbl (z : Z) : Z := z * 2 ^ 1074.

(** [n / d] rounded to [prec] bits, in units of the smallest number; ties to even. *)
Definition rnd_pos (prec n d : Z) : Z :=
  let e := Z.max 0 (Z.log2 (n / d) - (prec - 1)) in rne n (d * 2 ^ e) * 2 ^ e.

Definition rnd (prec n d : Z) : Z :=
  if decide (n < 0) then - rnd_pos prec (- n) d else rnd_pos prec n d.

(** [(long double) f / 100.0 * nr], in units of the smallest [long double]. *)
Definition ld_rank (l : ldbl) (f nr : Z) : Z :=
  rnd (MANT_DIG l) (rnd (MANT_DIG l) (f * 2 ^ (UNIT l - 1074)) 100 * nr) 1.

(** ** Percentiles *)

Definition FIO_IO_U_LIST_MAX_LEN : nat := 20.

Record percentiles := Percentiles { ovals : list Z; minv : Z; maxv : Z }.

(** [while (sum >= ((long double) plist[j].u.f / 100.0 * nr))]: the percentiles that are left; none is
    left after the last one was reached, which is [is_last]. *)
Fixpoint reach (l : ldbl) (nr v sum : Z) (rest : list Z) (acc : percentiles) : option (percentiles * list Z) :=
  match rest with
  | [] => Some (acc, [])
  | f :: rest' =>
      if decide (sum * 2 ^ UNIT l >= ld_rank l f nr) then
        if decide (f <= dbl 100) then
          reach l nr v sum rest' (Percentiles (ovals acc ++ [v]) (if decide (v < minv acc) then v else minv acc)
                                              (if decide (v > maxv acc) then v else maxv acc))
        else None
      else Some (acc, rest)
  end.

(** [for (i = 0; i < FIO_IO_U_PLAT_NR && !is_last; i++)], [more] rounds before the end. *)
Fixpoint buckets (l : ldbl) (plat : list Z) (nr : Z) (more : nat) (i sum : Z) (rest : list Z) (acc : percentiles)
  : option (percentiles * list Z) :=
  match more with
  | O => Some (acc, rest)
  | S more =>
      if decide (rest = []) then Some (acc, [])
      else
        n ← plat !! Z.to_nat i;
        let sum := u64 (sum + n) in
        v ← plat_idx_to_val i;
        '(acc, rest) ← reach l nr v sum rest acc;
        buckets l plat nr more (i + 1) sum rest acc
  end.

(** [while (len < FIO_IO_U_LIST_MAX_LEN && plist[len].u.f != 0.0) len++] *)
Fixpoint plist_len (room : nat) (plist : list Z) : option nat :=
  match room with
  | O => Some O
  | S room =>
      match plist with
      | [] => None
      | f :: plist => if decide (f = 0) then Some O else S <$> plist_len room plist
      end
  end.

(** What a call leaves: its result, the caller's list, which it sorts, the output array (the entries
    that were written; [None] if the pointer was not set), and whether it prints an error, because the
    last percentile was not reached. *)
Record clat_result := ClatResult {
  cr_len : nat; cr_plist : list Z; cr_output : option (list Z); cr_minv : Z; cr_maxv : Z; cr_err : bool }.

Definition calc_clat_percentiles (l : ldbl) (mem : bool) (plat : list Z) (nr : Z) (plist : list Z)
  : option clat_result :=
  let acc := Percentiles [] (2 ^ 64 - 1) 0 in
  len ← plist_len FIO_IO_U_LIST_MAX_LEN plist;
  if decide (len = O) then Some (ClatResult 0 plist None (minv acc) (maxv acc) false)
  else
    let sorted := merge_sort Z.le (take len plist) in
    let plist := sorted ++ drop len plist in
    if mem then
      '(acc, rest) ← buckets l plat nr (Z.to_nat FIO_IO_U_PLAT_NR) 0 0 sorted acc;
      Some (ClatResult len plist (Some (ovals acc)) (minv acc) (maxv acc) (bool_decide (rest <> [])))
    else Some (ClatResult 0 plist None (minv acc) (maxv acc) false).

(** ** Classes *)

Definition FIO_IO_U_MAP_NR : Z := 7.
Definition FIO_IO_U_LAT_N_NR : Z := 10.
Definition FIO_IO_U_LAT_U_NR : Z := 10.
Definition FIO_IO_U_LAT_M_NR : Z := 12.

Definition in_ (lo hi n : Z) : bool := bool_decide (lo <= n <= hi).

Definition io_u_mark_map (m : list Z) (nr : Z) : option (list Z) :=
  incr m (if in_ 33 64 nr then 5 else if in_ 17 32 nr then 4 else if in_ 9 16 nr then 3
          else if in_ 5 8 nr then 2 else if in_ 1 4 nr then 1 else if decide (nr = 0) then 0 else 6).

Definition io_u_mark_depth (m : list Z) (cur_depth nr : Z) : option (list Z) :=
  let idx := if in_ 32 63 cur_depth then 5 else if in_ 16 31 cur_depth then 4 else if in_ 8 15 cur_depth then 3
             else if in_ 4 7 cur_depth then 2 else if in_ 2 3 cur_depth then 1 else if decide (cur_depth = 1) then 0 else 6 in
  n ← m !! Z.to_nat idx; Some (<[Z.to_nat idx := u64 (n + nr)]> m).

(** The cases that the three latency maps share. *)
Definition lat_class (n : Z) : Z :=
  if in_ 750 999 n then 9 else if in_ 500 749 n then 8 else if in_ 250 499 n then 7 else if in_ 100 249 n then 6
  else if in_ 50 99 n then 5 else if in_ 20 49 n then 4 else if in_ 10 19 n then 3 else if in_ 4 9 n then 2
  else if in_ 2 3 n then 1 else 0.

Record lat_maps := LatMaps { io_u_lat_n : list Z; io_u_lat_u : list Z; io_u_lat_m : list Z }.

Definition io_u_mark_lat_nsec (m : lat_maps) (nsec : Z) : option lat_maps :=
  if decide (nsec < 1000) then
    let idx := lat_class nsec in
    if decide (idx < FIO_IO_U_LAT_N_NR) then
      l ← incr (io_u_lat_n m) idx; Some (LatMaps l (io_u_lat_u m) (io_u_lat_m m))
    else None
  else None.

Definition io_u_mark_lat_usec (m : lat_maps) (usec : Z) : option lat_maps :=
  if decide (usec < 1000 /\ usec >= 1) then
    let idx := lat_class usec in
    if decide (idx < FIO_IO_U_LAT_U_NR) then
      l ← incr (io_u_lat_u m) idx; Some (LatMaps (io_u_lat_n m) l (io_u_lat_m m))
    else None
  else None.

Definition io_u_mark_lat_msec (m : lat_maps) (msec : Z) : option lat_maps :=
  if decide (msec >= 1) then
    let idx := if in_ 0 999 msec then lat_class msec else if in_ 1000 1999 msec then 10 else 11 in
    if decide (idx < FIO_IO_U_LAT_M_NR) then
      l ← incr (io_u_lat_m m) idx; Some (LatMaps (io_u_lat_n m) (io_u_lat_u m) l)
    else None
  else None.

Definition io_u_mark_latency (m : lat_maps) (nsec : Z) : option lat_maps :=
  if decide (nsec < 1000) then io_u_mark_lat_nsec m nsec
  else if decide (nsec < 1000000) then io_u_mark_lat_usec m (nsec / 1000)
  else io_u_mark_lat_msec m (nsec / 1000000).

(** ** Block states *)

Definition BLOCK_INFO_STATE_SHIFT : Z := 29.
Definition BLOCK_INFO_TRIMS (b : Z) : Z := Z.land b (Z.shiftl 1 BLOCK_INFO_STATE_SHIFT - 1).
Definition BLOCK_INFO_STATE (b : Z) : Z := Z.shiftr b BLOCK_INFO_STATE_SHIFT.
Definition BLOCK_INFO (state trims : Z) : Z := Z.lor trims (u32 (Z.shiftl state BLOCK_INFO_STATE_SHIFT)).

(** Unwritten; trimmed or written; failed.  The numbers are those of the enumeration. *)
Definition block_state_category (state : Z) : option Z :=
  if decide (state = 0) then Some 0
  else if decide (state = 1 \/ state = 2) then Some 1
  else if decide (state = 4 \/ state = 3) then Some 2
  else None.

(** [*(uint64_t * )bs] of an array of 32-bit entries: the entry and the one behind it. *)
Definition read64 (infos : list Z) (i : nat) : option Z :=
  lo ← infos !! i; hi ← infos !! S i; Some (lo + 2 ^ 32 * hi).

Definition compare_block_infos (infos : list Z) (i j : nat) : option Z :=
  block1 ← read64 infos i;
  block2 ← read64 infos j;
  let state1 := i32 (BLOCK_INFO_STATE block1) in
  let state2 := i32 (BLOCK_INFO_STATE block2) in
  bscat1 ← block_state_category state1;
  bscat2 ← block_state_category state2;
  let cycles1 := i32 (BLOCK_INFO_TRIMS block1) in
  let cycles2 := i32 (BLOCK_INFO_TRIMS block2) in
  if decide (bscat1 < bscat2) then Some (-1) else if decide (bscat1 > bscat2) then Some 1
  else if decide (cycles1 < cycles2) then Some (-1) else if decide (cycles1 > cycles2) then Some 1
  else if decide (state1 < state2) then Some (-1) else if decide (state1 > state2) then Some 1
  else if decide (block1 = block2) then Some 0 else None.

(** ** Latency statistics: proofs

    The buckets: every value has one, larger values have larger ones, and the value
    a bucket stands for is off by at most 1/128.  The histogram counts the samples,
    and so the percentiles read off it are those of the samples, up to that
    error. *)

From Stdlib Require Import Sorting.Sorted.


(** ** Buckets *)

(** Values that are their own bucket, values [q * 2^e .. (q + 1) * 2^e - 1] that share one, and values
    beyond the histogram. *)
Inductive bucket (val idx : Z) : Prop :=
  | bucket_exact : 0 <= val < 128 -> idx = val -> bucket val idx
  | bucket_group e q : 1 <= e <= 27 -> 64 <= q < 128 -> q * 2 ^ e <= val < (q + 1) * 2 ^ e -> idx = 64 * e + q -> bucket val idx
  | bucket_last : 2 ^ 34 <= val -> idx = 1855 -> bucket val idx.

Lemma val_bucket val : 0 <= val -> bucket val (plat_val_to_idx val).
Proof.
  intros Hv. unfold plat_val_to_idx, FIO_IO_U_PLAT_NR, FIO_IO_U_PLAT_GROUP_NR, FIO_IO_U_PLAT_VAL, FIO_IO_U_PLAT_BITS.
  change (29 * Z.shiftl 1 6 - 1) with 1855. change (Z.shiftl 1 6 - 1) with 63.
  destruct (decide (val = 0)) as [->|H0]; [apply bucket_exact; done|]. set (m := Z.log2 val).
  destruct (Z.log2_spec val) as [Hlo Hhi]; [lia|]. fold m in Hlo, Hhi. destruct (decide (m <= 6)) as [Hm|Hm].
  { assert (2 ^ Z.succ m <= 2 ^ 7) by (apply Z.pow_le_mono_r; lia). apply bucket_exact; [lia|done]. }
  set (e := m - 6). assert (He : 0 < 2 ^ e) by (apply Z.pow_pos_nonneg; lia).
  assert (Em : 2 ^ m = 64 * 2 ^ e) by (replace m with (6 + e) by lia; rewrite Z.pow_add_r by lia; done).
  assert (Em' : 2 ^ Z.succ m = 128 * 2 ^ e) by (replace (Z.succ m) with (7 + e) by lia; rewrite Z.pow_add_r by lia; done).
  set (q := val / 2 ^ e). assert (Hq : q * 2 ^ e <= val < (q + 1) * 2 ^ e).
  { pose proof (Z.div_mod val (2 ^ e)). pose proof (Z.mod_pos_bound val (2 ^ e)). unfold q. lia. }
  assert (Hq' : 64 <= q < 128) by (split; [apply Z.div_le_lower_bound; lia|apply Z.div_lt_upper_bound; lia]).
  rewrite Z.shiftr_div_pow2 by lia. fold q. change 63 with (Z.ones 6). rewrite Z.land_comm, Z.land_ones by lia.
  assert (Eo : q mod 2 ^ 6 = q - 64) by (change (2 ^ 6) with 64; symmetry; apply (Zmod_unique _ _ 1); lia).
  rewrite Eo, Z.shiftl_mul_pow2 by lia. change (2 ^ 6) with 64. destruct (decide (e <= 27)) as [He27|He27].
  - apply (bucket_group _ _ e q); [lia|done|done|]. case_decide; lia.
  - rewrite decide_False by lia. apply bucket_last; [|done].
    assert (2 ^ 34 <= 2 ^ m) by (apply Z.pow_le_mono_r; lia). lia.
Qed.

Lemma idx_range val : 0 <= val -> 0 <= plat_val_to_idx val < 1856.
Proof. intros Hv. destruct (val_bucket val Hv) as [? ->|e q ? ? ? ->|? ->]; lia. Qed.

Lemma pow2_gap e e' : 0 <= e < e' -> 2 * 2 ^ e <= 2 ^ e'.
Proof. intros H. rewrite <- Z.pow_succ_r by lia. apply Z.pow_le_mono_r; lia. Qed.

Lemma bucket_mono v v' i i' : bucket v i -> bucket v' i' -> v <= v' -> i <= i'.
Proof.
  intros [H1 ->|e q He Hq H1 ->|H1 ->] [H1' ->|e' q' He' Hq' H1' ->|H1' ->] Hv; try lia.
  - assert (2 * 2 ^ 0 <= 2 ^ e) by (apply pow2_gap; lia). nia.
  - assert (0 < 2 ^ e) by (apply Z.pow_pos_nonneg; lia). destruct (Z.lt_trichotomy e e') as [Hlt|[->|Hgt]].
    + lia.
    + nia.
    + pose proof (pow2_gap e' e ltac:(lia)). nia.
  - assert (2 ^ e' <= 2 ^ 27) by (apply Z.pow_le_mono_r; lia). assert (128 * 2 ^ 27 = 2 ^ 34) by reflexivity. nia.
Qed.

Lemma idx_mono v v' : 0 <= v <= v' -> plat_val_to_idx v <= plat_val_to_idx v'.
Proof. intros H. eapply bucket_mono; [apply val_bucket; lia|apply val_bucket; lia|lia]. Qed.

(** The value a bucket stands for. *)
Lemma group_val e q : 1 <= e <= 27 -> 64 <= q < 128 -> plat_idx_to_val (64 * e + q) = Some (q * 2 ^ e + 2 ^ (e - 1)).
Proof.
  intros He Hq. unfold plat_idx_to_val, FIO_IO_U_PLAT_NR, FIO_IO_U_PLAT_GROUP_NR, FIO_IO_U_PLAT_VAL, FIO_IO_U_PLAT_BITS.
  change (29 * Z.shiftl 1 6) with 1856. change (Z.shiftl (Z.shiftl 1 6) 1) with 128. change (Z.shiftl 1 6) with 64.
  rewrite decide_True by lia. rewrite decide_False by lia. f_equal.
  assert (Es : Z.shiftr (64 * e + q) 6 - 1 = e).
  { rewrite Z.shiftr_div_pow2 by lia. change (2 ^ 6) with 64. assert ((64 * e + q) / 64 = e + 1); [|lia].
    symmetry. apply (Zdiv_unique _ _ _ (q - 64)); lia. }
  assert (Ek : (64 * e + q) mod 64 = q - 64) by (symmetry; apply (Zmod_unique _ _ (e + 1)); lia).
  rewrite Es, Ek, !Z.shiftl_1_l. rewrite Z.pow_add_r by lia. change (2 ^ 6) with 64.
  assert (E2 : 2 ^ e = 2 ^ (e - 1) * 2) by (rewrite <- (Z.pow_1_r 2) at 3; rewrite <- Z.pow_add_r by lia; f_equal; lia).
  rewrite E2. replace ((2 * (q - 64) + 1) * (2 ^ (e - 1) * 2)) with ((2 * (q - 64) + 1) * 2 ^ (e - 1) * 2) by lia.
  rewrite Z.div_mul by lia. lia.
Qed.

Lemma exact_val idx : 0 <= idx < 128 -> plat_idx_to_val idx = Some idx.
Proof.
  intros Hi. unfold plat_idx_to_val, FIO_IO_U_PLAT_NR, FIO_IO_U_PLAT_GROUP_NR, FIO_IO_U_PLAT_VAL, FIO_IO_U_PLAT_BITS.
  change (29 * Z.shiftl 1 6) with 1856. change (Z.shiftl (Z.shiftl 1 6) 1) with 128. by rewrite !decide_True by lia.
Qed.

(** Every index below the end is of one of the two forms. *)
Lemma idx_form idx : 0 <= idx < 1856 -> idx < 128 \/ exists e q, 1 <= e <= 27 /\ 64 <= q < 128 /\ idx = 64 * e + q.
Proof.
  intros Hi. destruct (decide (idx < 128)); [by left|right]. exists (idx / 64 - 1), (idx mod 64 + 64).
  pose proof (Z.div_mod idx 64 ltac:(lia)). pose proof (Z.mod_pos_bound idx 64 ltac:(lia)).
  assert (2 <= idx / 64 < 29) by (split; [apply Z.div_le_lower_bound; lia|apply Z.div_lt_upper_bound; lia]). lia.
Qed.

(** Two indices whose buckets share a value are equal. *)
Lemma group_idx e q v : 1 <= e <= 27 -> 64 <= q < 128 -> q * 2 ^ e <= v < (q + 1) * 2 ^ e ->
  plat_val_to_idx v = 64 * e + q.
Proof.
  intros He Hq Hv. assert (0 < 2 ^ e) by (apply Z.pow_pos_nonneg; lia).
  pose proof (bucket_group v (64 * e + q) e q He Hq Hv eq_refl) as Hb. pose proof (val_bucket v ltac:(nia)) as Hb'.
  pose proof (bucket_mono _ _ _ _ Hb Hb' ltac:(lia)). pose proof (bucket_mono _ _ _ _ Hb' Hb ltac:(lia)). lia.
Qed.

(** How far the reported value is from the sample. *)
Definition off_by (val o : Z) : Prop := 128 * Z.abs (o - val) <= val.

Lemma val_error val : 0 <= val < 2 ^ 34 -> exists o, plat_idx_to_val (plat_val_to_idx val) = Some o /\ off_by val o.
Proof.
  intros Hv. unfold off_by. destruct (val_bucket val ltac:(lia)) as [H ->|e q He Hq H ->|H ->]; [| |lia].
  - exists val. rewrite exact_val by lia. split; [done|]. rewrite Z.sub_diag. cbn. lia.
  - eexists. split; [by apply group_val|]. assert (E2 : 2 ^ e = 2 ^ (e - 1) * 2).
    { rewrite <- (Z.pow_1_r 2) at 3. rewrite <- Z.pow_add_r by lia. f_equal. lia. }
    assert (0 < 2 ^ (e - 1)) by (apply Z.pow_pos_nonneg; lia). rewrite E2 in *. nia.
Qed.

(** The histogram's buckets: every 64-bit value has an index inside the array, a larger value never a
    smaller one; a bucket's mean lies in the bucket; and a value below 2^34 ns is
    represented with an error of at most 1/128 of it, as the documentation of the
    constants says. *)
Theorem plat_buckets v v' idx :
  0 <= v <= v' -> 0 <= idx < FIO_IO_U_PLAT_NR ->
  0 <= plat_val_to_idx v < FIO_IO_U_PLAT_NR /\ plat_val_to_idx v <= plat_val_to_idx v' /\
  (exists o, plat_idx_to_val idx = Some o /\ plat_val_to_idx o = idx) /\
  (v < 2 ^ 34 -> exists o, plat_idx_to_val (plat_val_to_idx v) = Some o /\ off_by v o).
Proof.
  change FIO_IO_U_PLAT_NR with 1856. intros Hv Hi.
  split_and!; [apply idx_range; lia|apply idx_range; lia|by apply idx_mono| |].
  - destruct (idx_form idx Hi) as [H|(e & q & He & Hq & ->)].
    + exists idx. rewrite exact_val by lia. split; [done|].
      destruct (val_bucket idx ltac:(lia)) as [? ->|e q He Hq H1 ->|? ->]; [done| |lia].
      exfalso. assert (2 * 2 ^ 0 <= 2 ^ e) by (apply pow2_gap; lia). nia.
    + eexists. split; [by apply group_val|]. apply group_idx; [done|done|].
      assert (2 ^ (e - 1) < 2 ^ e) by (apply Z.pow_lt_mono_r; lia).
      assert (0 < 2 ^ (e - 1)) by (apply Z.pow_pos_nonneg; lia). lia.
  - intros Hv34. apply val_error. lia.
Qed.

Lemma plat_buckets_witness :
  0 <= plat_val_to_idx 1000 < FIO_IO_U_PLAT_NR /\ plat_val_to_idx 1000 <= plat_val_to_idx 1001 /\
  (exists o, plat_idx_to_val 317 = Some o /\ plat_val_to_idx o = 317) /\
  (1000 < 2 ^ 34 -> exists o, plat_idx_to_val (plat_val_to_idx 1000) = Some o /\ off_by 1000 o).
Proof. apply (plat_buckets 1000 1001 317); [lia|vm_compute; split; congruence]. Defined.

(** ** Latency statistics: percentiles

    The histogram that the samples leave counts them by bucket, and the percentiles
    read off it are those of the sorted samples: the value of rank [t] is reported
    as the mean of its bucket.  The rank of a percentile is the least integer that
    reaches the rounded [f / 100 * nr], which the rounding moves by less than one
    part in 2^62.  The coarse maps count every latency once. *)


(** ** The histogram of a list of samples *)

Definition record_from (plat : list Z) (xs : list Z) : option (list Z) :=
  foldl (fun p x => plat ← p; add_lat_percentile_sample plat x) (Some plat) xs.

Definition record_samples (xs : list Z) : option (list Z) := record_from (replicate 1856 0) xs.

(** The number of entries of [zs] that are [i]; that are at most [i]. *)
Definition cnt (i : Z) (zs : list Z) : Z := Z.of_nat (length (filter (fun z => z = i) zs)).
Definition cnt_le (i : Z) (zs : list Z) : Z := Z.of_nat (length (filter (fun z => z <= i) zs)).

Lemma cnt_cons i z zs : cnt i (z :: zs) = (if decide (z = i) then 1 else 0) + cnt i zs.
Proof. unfold cnt. rewrite filter_cons. case_decide; cbn [length]; lia. Qed.

Lemma cnt_le_cons i z zs : cnt_le i (z :: zs) = (if decide (z <= i) then 1 else 0) + cnt_le i zs.
Proof. unfold cnt_le. rewrite filter_cons. case_decide; cbn [length]; lia. Qed.

Lemma cnt_bound i zs : 0 <= cnt i zs <= Z.of_nat (length zs).
Proof. induction zs as [|z zs IH]; [done|]. rewrite cnt_cons. cbn [length]. case_decide; lia. Qed.

Lemma cnt_le_bound i zs : 0 <= cnt_le i zs <= Z.of_nat (length zs).
Proof. induction zs as [|z zs IH]; [done|]. rewrite cnt_le_cons. cbn [length]. case_decide; lia. Qed.

Lemma cnt_le_succ i zs : cnt_le i zs = cnt_le (i - 1) zs + cnt i zs.
Proof.
  induction zs as [|z zs IH]; [done|]. rewrite !cnt_le_cons, cnt_cons.
  destruct (decide (z <= i)), (decide (z <= i - 1)), (decide (z = i)); lia.
Qed.

Lemma cnt_le_none i zs : Forall (fun z => i < z) zs -> cnt_le i zs = 0.
Proof. induction 1 as [|z zs Hz _ IH]; [done|]. rewrite cnt_le_cons, decide_False by lia. lia. Qed.

Lemma cnt_le_all i zs : Forall (fun z => z <= i) zs -> cnt_le i zs = Z.of_nat (length zs).
Proof. induction 1 as [|z zs Hz _ IH]; [done|]. rewrite cnt_le_cons, decide_True by lia. cbn [length]. lia. Qed.

(** Counting does not look at the order. *)
#[global] Instance cnt_proper : Proper ((=) ==> Permutation ==> (=)) cnt.
Proof. intros i ? <- xs ys H. unfold cnt. by rewrite H. Qed.

#[global] Instance cnt_le_proper : Proper ((=) ==> Permutation ==> (=)) cnt_le.
Proof. intros i ? <- xs ys H. unfold cnt_le. by rewrite H. Qed.

(** In a sorted list, the entry of rank [t] is at most [i] when at least [t] entries are. *)
Lemma rank_le zs : StronglySorted Z.le zs -> forall t i z, zs !! t = Some z -> z <= i <-> Z.of_nat t < cnt_le i zs.
Proof.
  induction 1 as [|z0 zs Hs IH Hz0]; intros t i z Hz; [done|]. rewrite cnt_le_cons. destruct t as [|t]; cbn in Hz.
  - injection Hz as ->. case_decide; [pose proof (cnt_le_bound i zs); lia|].
    rewrite cnt_le_none; [lia|]. eapply Forall_impl; [exact Hz0|]. cbn. lia.
  - specialize (IH t i z Hz). assert (z0 <= z) by (rewrite Forall_forall in Hz0; apply Hz0;
      by eapply list_elem_of_lookup_2).
    case_decide; lia.
Qed.

Lemma sorted_map xs : Forall (fun x => 0 <= x) xs -> StronglySorted Z.le xs ->
  StronglySorted Z.le (plat_val_to_idx <$> xs).
Proof.
  intros Hx Hs. induction Hs as [|x xs Hs IH Hall]; [constructor|]. apply Forall_cons in Hx as [Hx Hxs]. cbn.
  constructor; [by apply IH|].
  apply Forall_fmap. apply (Forall_impl _ _ _ Hall). intros y Hy. cbn. apply idx_mono. lia.
Qed.

(** [plat] counts what [base] does and [zs] besides. *)
Definition counts (plat : list Z) (zs : list Z) : Prop :=
  length plat = 1856%nat /\ forall i : nat, (i < 1856)%nat -> plat !! i = Some (cnt (Z.of_nat i) zs).

Lemma counts_zero : counts (replicate 1856 0) [].
Proof. split; [apply length_replicate|]. intros i Hi. by apply lookup_replicate_2. Qed.

Lemma counts_sample plat zs x :
  counts plat zs -> 0 <= x -> Z.of_nat (length zs) + 1 < 2 ^ 64 ->
  exists plat', add_lat_percentile_sample plat x = Some plat' /\ counts plat' (plat_val_to_idx x :: zs).
Proof.
  intros [Hl Hc] Hx Hn. pose proof (idx_range x Hx) as Hi. unfold add_lat_percentile_sample, incr.
  change FIO_IO_U_PLAT_NR with 1856. set (k := plat_val_to_idx x) in *. rewrite decide_True by lia.
  rewrite decide_True by lia.
  rewrite Hc by lia. cbn. eexists. split; [done|]. split; [by rewrite length_insert|]. intros i Hi'. rewrite cnt_cons.
  destruct (decide (k = Z.of_nat i)) as [E|E].
  - rewrite E, Nat2Z.id, list_lookup_insert_eq by lia. f_equal. pose proof (cnt_bound (Z.of_nat i) zs).
    rewrite wrapu_small by lia. lia.
  - rewrite list_lookup_insert_ne by lia. by rewrite Hc.
Qed.

Lemma record_counts xs : forall plat zs, counts plat zs -> Forall (fun x => 0 <= x) xs ->
  Z.of_nat (length zs) + Z.of_nat (length xs) < 2 ^ 64 ->
  exists plat', record_from plat xs = Some plat' /\ counts plat' (rev (plat_val_to_idx <$> xs) ++ zs).
Proof.
  unfold record_from. induction xs as [|x xs IH]; intros plat zs Hc Hx Hn; [by exists plat|].
  apply Forall_cons in Hx as [Hx Hxs].
  cbn [length] in Hn. destruct (counts_sample plat zs x Hc Hx ltac:(lia)) as (plat1 & E1 & Hc1). cbn. rewrite E1.
  destruct (IH plat1 _ Hc1 Hxs) as (plat' & E' & Hc'); [cbn [length]; lia|]. exists plat'. split; [done|].
  by rewrite <- app_assoc.
Qed.

Lemma counts_perm plat zs zs' : zs ≡ₚ zs' -> counts plat zs -> counts plat zs'.
Proof. intros Hp [Hl Hc]. split; [done|]. intros i Hi. by rewrite Hc, Hp. Qed.

(** ** Reading percentiles off the histogram *)

Definition note (acc : percentiles) (v : Z) : percentiles :=
  Percentiles (ovals acc ++ [v]) (if decide (v < minv acc) then v else minv acc) (if decide (v > maxv acc) then v else maxv acc).

Lemma ovals_notes vs : forall acc, ovals (foldl note acc vs) = ovals acc ++ vs.
Proof. induction vs as [|v vs IH]; intros acc; cbn; [by rewrite app_nil_r|]. rewrite IH. cbn.
  by rewrite <- app_assoc. Qed.

(** *** Rounding to a number of bits *)

Section rounding.
Context (prec : Z) (Hprec : 1 <= prec).

(** The rounding error is half a unit in the last place. *)
Lemma rnd_pos_err n d : 0 < d -> 2 ^ (prec - 1) * d <= n ->
  2 ^ prec * Z.abs (n - d * rnd_pos prec n d) <= n.
Proof using Hprec.
  intros Hd Hn. unfold rnd_pos. assert (Hp : 0 < 2 ^ (prec - 1)) by (apply Z.pow_pos_nonneg; lia).
  assert (Hq : 2 ^ (prec - 1) <= n / d) by (apply Z.div_le_lower_bound; lia).
  destruct (Z.log2_spec (n / d)) as [Hlo _]; [lia|].
  assert (HL : prec - 1 <= Z.log2 (n / d)) by (apply Z.log2_le_pow2; lia).
  rewrite Z.max_r by lia. set (L := Z.log2 (n / d)) in *. set (e := L - (prec - 1)).
  assert (He : 0 < 2 ^ e) by (apply Z.pow_pos_nonneg; lia).
  assert (E1 : 2 ^ L = 2 ^ (prec - 1) * 2 ^ e) by (rewrite <- Z.pow_add_r by lia; f_equal; lia).
  assert (E2 : 2 ^ prec = 2 * 2 ^ (prec - 1)) by (rewrite <- Z.pow_succ_r by lia; f_equal; lia).
  pose proof (Z.mul_div_le n d Hd) as Hdn.
  pose proof (rne_bounds n (d * 2 ^ e) ltac:(lia)) as Hb. set (m := rne n (d * 2 ^ e)) in *.
  replace (d * (m * 2 ^ e)) with (d * 2 ^ e * m) by lia.
  assert (Ha : 2 * Z.abs (n - d * 2 ^ e * m) <= d * 2 ^ e) by lia.
  rewrite E2. transitivity (2 ^ (prec - 1) * (d * 2 ^ e)); [nia|]. rewrite E1 in Hlo. nia.
Qed.

(** The rounded number has at most [prec] bits, all of them when there is a choice. *)
Lemma rnd_pos_bits n d e : 0 < d -> 0 <= n -> e = Z.max 0 (Z.log2 (n / d) - (prec - 1)) ->
  rne n (d * 2 ^ e) <= 2 ^ prec /\ (0 < e -> 2 ^ (prec - 1) <= rne n (d * 2 ^ e)).
Proof using Hprec.
  intros Hd Hn He. assert (Hpe : 0 < 2 ^ e) by (apply Z.pow_pos_nonneg; lia). split.
  - rewrite <- (rne_int (2 ^ prec) (d * 2 ^ e)) by lia. apply rne_mono; [lia|].
    assert (Hlt : n / d < 2 ^ prec * 2 ^ e).
    { destruct (decide (n / d <= 0)) as [Hz|Hz]; [assert (0 < 2 ^ prec) by (apply Z.pow_pos_nonneg; lia); nia|].
      rewrite <- Z.pow_add_r by lia. apply Z.log2_lt_pow2; lia. }
    pose proof (Z.div_mod n d ltac:(lia)). pose proof (Z.mod_pos_bound n d Hd). set (A := 2 ^ prec * 2 ^ e) in *.
    replace (2 ^ prec * (d * 2 ^ e)) with (d * A) by (unfold A; lia). nia.
  - intros Hpos. rewrite <- (rne_int (2 ^ (prec - 1)) (d * 2 ^ e)) by lia. apply rne_mono; [lia|].
    assert (HL : e = Z.log2 (n / d) - (prec - 1)) by lia.
    assert (Hq : 0 < n / d) by (destruct (decide (0 < n / d)); [done|]; rewrite Z.log2_nonpos in HL by lia; lia).
    destruct (Z.log2_spec (n / d) Hq) as [Hlo _].
    replace (Z.log2 (n / d)) with (prec - 1 + e) in Hlo by lia. rewrite Z.pow_add_r in Hlo by lia.
    pose proof (Z.mul_div_le n d Hd). nia.
Qed.

Lemma rnd_pos_mono n n' d : 0 < d -> 0 <= n <= n' -> rnd_pos prec n d <= rnd_pos prec n' d.
Proof using Hprec.
  intros Hd Hn. unfold rnd_pos.
  destruct (rnd_pos_bits n d _ Hd ltac:(lia) eq_refl) as [Hb _].
  destruct (rnd_pos_bits n' d _ Hd ltac:(lia) eq_refl) as [_ Hb'].
  pose proof (Z.log2_le_mono _ _ (Z.div_le_mono n n' d Hd ltac:(lia))) as HL.
  set (e := Z.max 0 (Z.log2 (n / d) - _)) in *. set (e' := Z.max 0 (Z.log2 (n' / d) - _)) in *.
  assert (Hpe : 0 < 2 ^ e) by (apply Z.pow_pos_nonneg; lia).
  destruct (decide (e = e')) as [<-|Hne].
  { apply Z.mul_le_mono_nonneg_r; [lia|]. apply rne_mono; lia. }
  assert (Hlt : e < e') by lia. transitivity (2 ^ prec * 2 ^ e); [nia|].
  transitivity (2 ^ (prec - 1) * 2 ^ e'); [|specialize (Hb' ltac:(lia)); nia].
  rewrite <- !Z.pow_add_r by lia. apply Z.pow_le_mono_r; lia.
Qed.

(** Numbers that have the bits are kept. *)
Lemma rnd_pos_exact c s d : 0 < d -> 0 <= c < 2 ^ prec -> 0 <= s ->
  rnd_pos prec (c * 2 ^ s * d) d = c * 2 ^ s.
Proof using Hprec.
  intros Hd Hc Hs. unfold rnd_pos. rewrite Z.div_mul by lia.
  set (e := Z.max 0 _). assert (He : 0 <= e <= s).
  { destruct (decide (c = 0)) as [->|Hc0]; [unfold e; rewrite Z.mul_0_l; change (Z.log2 0) with 0; lia|].
    unfold e. rewrite Z.log2_mul_pow2 by lia. assert (Z.log2 c < prec) by (apply Z.log2_lt_pow2; lia). lia. }
  assert (E : 2 ^ s = 2 ^ (s - e) * 2 ^ e) by (rewrite <- Z.pow_add_r by lia; f_equal; lia).
  assert (0 < 2 ^ e) by (apply Z.pow_pos_nonneg; lia).
  rewrite E. replace (c * (2 ^ (s - e) * 2 ^ e) * d) with (c * 2 ^ (s - e) * (d * 2 ^ e)) by lia.
  rewrite rne_int by lia. lia.
Qed.
End rounding.

Lemma rnd_pos_nonneg prec n d : 0 < d -> 0 <= n -> 0 <= rnd_pos prec n d.
Proof.
  intros Hd Hn. unfold rnd_pos. set (e := Z.max 0 _). assert (0 < 2 ^ e) by (apply Z.pow_pos_nonneg; lia).
  assert (0 <= rne n (d * 2 ^ e)); [|lia].
  rewrite <- (rne_int 0 (d * 2 ^ e)) by lia. apply rne_mono; lia.
Qed.

Lemma rnd_nonneg prec n d : 0 <= n -> rnd prec n d = rnd_pos prec n d.
Proof. intros Hn. unfold rnd. by rewrite decide_False by lia. Qed.

(** *** The rank of a percentile *)

(** Formats wide enough for the counters, and deep enough for the doubles. *)
Record ldbl_ok (l : ldbl) : Prop := LdblOk { lo_bits : 64 <= MANT_DIG l; lo_unit : MANT_DIG l + 1090 <= UNIT l }.

Lemma x87_ok : ldbl_ok x87. Proof. split; cbn; lia. Qed.
Lemma quad_ok : ldbl_ok quad. Proof. split; cbn; lia. Qed.

(** The least counter that reaches the percentile [f] of [nr] samples. *)
Definition need (l : ldbl) (nr f : Z) : Z := - (- ld_rank l f nr / 2 ^ UNIT l).

(** [r] is [f / 100 * nr] rounded up to an integer, but for one part in 2^62. *)
Definition percentile_rank (f nr r : Z) : Prop :=
  (2 ^ 62 - 1) * (f * nr) <= 2 ^ 62 * (r * dbl 100) /\ 2 ^ 62 * ((r - 1) * dbl 100) < (2 ^ 62 + 1) * (f * nr).

(** Two roundings to at least 64 bits, of [F / 100] and of the product with [nr]. *)
Lemma two_roundings P F q nr x : 2 ^ 64 <= P -> 0 <= F -> 0 <= nr ->
  (P - 1) * F <= P * (100 * q) <= (P + 1) * F -> (P - 1) * (q * nr) <= P * x <= (P + 1) * (q * nr) ->
  (2 ^ 62 - 1) * (F * nr) <= 2 ^ 62 * (100 * x) <= (2 ^ 62 + 1) * (F * nr).
Proof.
  intros HP HF Hn [A1 A1'] [A2 A2']. assert (HPP : 2 ^ 64 * P <= P * P) by (apply Z.mul_le_mono_nonneg_r; lia).
  assert (HFn : 0 <= F * nr) by (apply Z.mul_nonneg_nonneg; lia).
  apply (Z.mul_le_mono_nonneg_r _ _ nr Hn) in A1, A1'. assert (H1 : 0 <= P - 1) by lia. assert (H2 : 0 <= P + 1) by lia.
  apply (Z.mul_le_mono_nonneg_l _ _ (P - 1) H1) in A1. apply (Z.mul_le_mono_nonneg_l _ _ (P + 1) H2) in A1'.
  apply (Z.mul_le_mono_nonneg_l _ _ P ltac:(lia)) in A2, A2'.
  assert (B : (P - 1) * (P - 1) * (F * nr) <= P * P * (100 * x)) by lia.
  assert (B' : P * P * (100 * x) <= (P + 1) * (P + 1) * (F * nr)) by lia.
  assert (C : (2 ^ 62 - 1) * (P * P) <= 2 ^ 62 * ((P - 1) * (P - 1))) by lia.
  assert (C' : 2 ^ 62 * ((P + 1) * (P + 1)) <= (2 ^ 62 + 1) * (P * P)) by lia.
  apply (Z.mul_le_mono_nonneg_r _ _ _ HFn) in C, C'. assert (HP2 : 0 < P * P) by lia.
  split; apply (Z.mul_le_mono_pos_l _ _ _ HP2); lia.
Qed.

Section ranks.
Context (l : ldbl) (Hl : ldbl_ok l).

Lemma unit_pos : 0 < 2 ^ UNIT l.
Proof using Hl. destruct Hl. apply Z.pow_pos_nonneg; lia. Qed.

Lemma reached_need f nr sum : sum * 2 ^ UNIT l >= ld_rank l f nr <-> need l nr f <= sum.
Proof using Hl.
  pose proof unit_pos as Hu. unfold need. set (x := ld_rank l f nr). set (u := 2 ^ UNIT l) in *.
  pose proof (Z.div_mod (- x) u ltac:(lia)). pose proof (Z.mod_pos_bound (- x) u Hu).
  set (q := - x / u) in *. split; intros; nia.
Qed.

Lemma ld_rank_eq f nr : 0 <= f -> 0 <= nr ->
  ld_rank l f nr = rnd_pos (MANT_DIG l) (rnd_pos (MANT_DIG l) (f * 2 ^ (UNIT l - 1074)) 100 * nr) 1.
Proof using Hl.
  destruct Hl. intros Hf Hn. unfold ld_rank. assert (0 < 2 ^ (UNIT l - 1074)) by (apply Z.pow_pos_nonneg; lia).
  rewrite (rnd_nonneg _ (f * _)) by lia. rewrite rnd_nonneg; [done|].
  pose proof (rnd_pos_nonneg (MANT_DIG l) (f * 2 ^ (UNIT l - 1074)) 100 ltac:(lia) ltac:(lia)). lia.
Qed.

Lemma ld_rank_mono f f' nr : 0 <= f <= f' -> 0 <= nr -> ld_rank l f nr <= ld_rank l f' nr.
Proof using Hl.
  destruct Hl as [Hp Hu]. intros Hf Hn. rewrite !ld_rank_eq by lia.
  assert (0 < 2 ^ (UNIT l - 1074)) by (apply Z.pow_pos_nonneg; lia).
  apply rnd_pos_mono; [lia|lia|]. split.
  - apply Z.mul_nonneg_nonneg; [|done]. apply rnd_pos_nonneg; lia.
  - apply Z.mul_le_mono_nonneg_r; [done|]. apply rnd_pos_mono; nia.
Qed.

(** 100 percent is all samples. *)
Lemma ld_rank_all nr : 0 <= nr < 2 ^ 64 -> ld_rank l (dbl 100) nr = nr * 2 ^ UNIT l.
Proof using Hl.
  destruct Hl as [Hp Hu]. intros Hn. unfold dbl. rewrite ld_rank_eq by lia.
  assert (EU : 2 ^ UNIT l = 2 ^ 1074 * 2 ^ (UNIT l - 1074)) by (rewrite <- Z.pow_add_r by lia; f_equal; lia).
  rewrite <- Z.mul_assoc, <- EU. replace (100 * 2 ^ UNIT l) with (1 * 2 ^ UNIT l * 100) by lia.
  assert (2 ^ 64 <= 2 ^ MANT_DIG l) by (apply Z.pow_le_mono_r; lia).
  rewrite rnd_pos_exact by lia.
  replace (1 * 2 ^ UNIT l * nr) with (nr * 2 ^ UNIT l * 1) by lia. apply rnd_pos_exact; lia.
Qed.

Lemma need_mono f f' nr : 0 <= f <= f' -> 0 <= nr -> need l nr f <= need l nr f'.
Proof using Hl. intros Hf Hn. apply reached_need. pose proof (ld_rank_mono f f' nr Hf Hn).
  pose proof (proj2 (reached_need f' nr (need l nr f')) ltac:(lia)). lia. Qed.

Lemma ld_rank_error f nr : 1 <= f -> 1 <= nr ->
  let F := f * 2 ^ (UNIT l - 1074) in
  (2 ^ 62 - 1) * (F * nr) <= 2 ^ 62 * (100 * ld_rank l f nr) <= (2 ^ 62 + 1) * (F * nr).
Proof using Hl.
  destruct Hl as [Hp Hu]. intros Hf Hn F. rewrite ld_rank_eq by lia. fold F.
  set (p := MANT_DIG l) in *. set (q := rnd_pos p F 100). set (P := 2 ^ p).
  assert (HP : 2 ^ 64 <= P) by (apply Z.pow_le_mono_r; lia).
  assert (HP2 : P = 2 * 2 ^ (p - 1)) by (unfold P; rewrite <- Z.pow_succ_r by lia; f_equal; lia).
  assert (HF : 2 ^ (p - 1) * 2 ^ 16 <= F).
  { unfold F. rewrite <- Z.pow_add_r by lia. transitivity (1 * 2 ^ (UNIT l - 1074)); [|nia].
    rewrite Z.mul_1_l. apply Z.pow_le_mono_r; lia. }
  pose proof (rnd_pos_err p ltac:(lia) F 100 ltac:(lia) ltac:(lia)) as E1. fold q P in E1.
  assert (Hq : 2 ^ (p - 1) <= q) by nia.
  assert (Hqn : 2 ^ (p - 1) * 1 <= q * nr) by nia.
  pose proof (rnd_pos_err p ltac:(lia) (q * nr) 1 ltac:(lia) Hqn) as E2. fold P in E2.
  rewrite Z.mul_1_l in E2. set (x := rnd_pos p (q * nr) 1) in *. clearbody x q F P.
  assert (A1 : (P - 1) * F <= P * (100 * q) <= (P + 1) * F) by lia.
  assert (A2 : (P - 1) * (q * nr) <= P * x <= (P + 1) * (q * nr)) by lia.
  exact (two_roundings P F q nr x HP ltac:(lia) ltac:(lia) A1 A2).
Qed.

Lemma need_rank f nr : 1 <= f -> 1 <= nr -> percentile_rank f nr (need l nr f).
Proof using Hl.
  intros Hf Hn. pose proof (ld_rank_error f nr Hf Hn) as HE. cbv zeta in HE.
  pose proof (proj2 (reached_need f nr (need l nr f)) ltac:(lia)) as Hge.
  assert (Hlt : (need l nr f - 1) * 2 ^ UNIT l < ld_rank l f nr).
  { destruct (decide ((need l nr f - 1) * 2 ^ UNIT l < ld_rank l f nr)) as [?|Hc]; [done|].
    pose proof (proj1 (reached_need f nr (need l nr f - 1)) ltac:(lia)). lia. }
  destruct Hl as [Hp Hu]. unfold percentile_rank, dbl.
  assert (EU : 2 ^ UNIT l = 2 ^ 1074 * 2 ^ (UNIT l - 1074)) by (rewrite <- Z.pow_add_r by lia; f_equal; lia).
  assert (HV : 0 < 2 ^ (UNIT l - 1074)) by (apply Z.pow_pos_nonneg; lia).
  rewrite EU in *. set (V := 2 ^ (UNIT l - 1074)) in *. set (D := 2 ^ 1074) in *. set (r := need l nr f) in *.
  set (x := ld_rank l f nr) in *. clearbody V x r. clearbody D. split.
  - apply (Z.mul_le_mono_pos_r _ _ V HV). lia.
  - apply (Z.mul_lt_mono_pos_r V _ _ HV). lia.
Qed.

Lemma need_range f nr : 1 <= f <= dbl 100 -> 1 <= nr < 2 ^ 64 -> 1 <= need l nr f <= nr.
Proof using Hl.
  intros Hf Hn. split.
  - destruct (need_rank f nr ltac:(lia) ltac:(lia)) as [H _]. unfold dbl in H.
    destruct (decide (1 <= need l nr f)) as [?|Hc]; [done|].
    assert (need l nr f * (100 * 2 ^ 1074) <= 0) by lia. nia.
  - apply reached_need. pose proof (ld_rank_mono f (dbl 100) nr ltac:(lia) ltac:(lia)).
    rewrite ld_rank_all in H by lia. lia.
Qed.
End ranks.

(** One bucket serves the percentiles whose rank the sum reaches. *)
Lemma reach_spec l nr v sum rest : ldbl_ok l -> Forall (fun f => f <= dbl 100) rest ->
  StronglySorted Z.le (need l nr <$> rest) -> forall acc, exists pre post,
  rest = pre ++ post /\ reach l nr v sum rest acc = Some (foldl note acc (replicate (length pre) v), post) /\
  Forall (fun f => need l nr f <= sum) pre /\ Forall (fun f => sum < need l nr f) post /\
  StronglySorted Z.le (need l nr <$> post).
Proof.
  intros Hl. induction rest as [|f rest IH]; intros H100 Hs acc.
  - exists [], []. split_and!; try done; constructor.
  - apply Forall_cons in H100 as [Hf H100]. inversion Hs as [|? ? Hs1 Hf1]; subst. cbn [reach].
    rewrite (decide_ext _ _ _ _ (reached_need l Hl f nr sum)). case_decide as Hge.
    + rewrite decide_True by done.
      destruct (IH H100 Hs1 (note acc v)) as (pre & post & -> & E & Hp & Hq & Hs'). exists (f :: pre), post.
      split_and!; [done|exact E|by constructor|done|done].
    + exists [], (f :: rest). split_and!; [done|done|constructor| |by constructor].
      constructor; [lia|]. apply (Forall_fmap (need l nr)) in Hf1. apply (Forall_impl _ _ _ Hf1). cbn. lia.
Qed.

Lemma idx_to_val_total i : 0 <= i < 1856 -> exists v, plat_idx_to_val i = Some v.
Proof.
  intros Hi. destruct (idx_form i Hi) as [H|(e & q & He & Hq & ->)]; [exists i; apply exact_val; lia|].
  eexists. by apply group_val.
Qed.

(** What is reported for a rank: the mean of the bucket of the entry that has it. *)
Definition rank_value (zs : list Z) (t : Z) : option Z := z ← zs !! Z.to_nat (t - 1); plat_idx_to_val z.

Section walk.
Context (zs plat : list Z) (Hs : StronglySorted Z.le zs) (Hr : Forall (fun z => 0 <= z < 1856) zs)
        (Hc : counts plat zs) (Hn : Z.of_nat (length zs) < 2 ^ 64) (l : ldbl) (Hld : ldbl_ok l) (nr : Z).

Lemma bucket_ranks i v pre : plat_idx_to_val i = Some v ->
  Forall (fun t => cnt_le (i - 1) zs < t /\ t <= Z.of_nat (length zs)) (need l nr <$> pre) ->
  Forall (fun f => need l nr f <= cnt_le i zs) pre ->
  Forall2 (fun f o => rank_value zs (need l nr f) = Some o) pre (replicate (length pre) v).
Proof using Hs.
  intros Hv. induction pre as [|f pre IH]; intros Hlo Hhi; [constructor|]. cbn [fmap list_fmap] in Hlo.
  apply Forall_cons in Hlo as [[Hlo Hlen] Hlo'].
  apply Forall_cons in Hhi as [Hhi Hhi']. cbn. constructor; [|by apply IH]. pose proof (cnt_le_bound (i - 1) zs).
  set (t := need l nr f) in *.
  destruct (lookup_lt_is_Some_2 zs (Z.to_nat (t - 1))) as [z Hz]; [lia|]. unfold rank_value. rewrite Hz. cbn.
  pose proof (rank_le zs Hs _ i z Hz). pose proof (rank_le zs Hs _ (i - 1) z Hz). replace z with i by lia. done.
Qed.

Lemma buckets_spec n : forall i rest acc, (i + n = 1856)%nat -> Forall (fun f => f <= dbl 100) rest ->
  StronglySorted Z.le (need l nr <$> rest) ->
  Forall (fun t => cnt_le (Z.of_nat i - 1) zs < t /\ t <= Z.of_nat (length zs)) (need l nr <$> rest) ->
  exists vs, buckets l plat nr n (Z.of_nat i) (cnt_le (Z.of_nat i - 1) zs) rest acc = Some (foldl note acc vs, []) /\
             Forall2 (fun f o => rank_value zs (need l nr f) = Some o) rest vs.
Proof using Hs Hr Hc Hn Hld.
  destruct Hc as [Hl Hcnt]. induction n as [|n IH]; intros i rest acc Hi H100 Hsr Hrest.
  - exists []. assert (rest = []) as ->; [|split; [done|constructor]].
    destruct rest as [|f rest]; [done|]. cbn [fmap list_fmap] in Hrest. apply Forall_cons in Hrest as [[H1 H2] _].
    rewrite cnt_le_all in H1; [lia|]. apply (Forall_impl _ _ _ Hr). cbn. lia.
  - cbn [buckets]. destruct (decide (rest = [])) as [->|Hne].
    { exists []. split; [done|constructor]. }
    rewrite Nat2Z.id, (Hcnt i ltac:(lia)). cbn [mbind option_bind].
    pose proof (cnt_le_succ (Z.of_nat i) zs) as Ec. pose proof (cnt_le_bound (Z.of_nat i) zs) as Hb.
    rewrite <- Ec, wrapu_small by lia. destruct (idx_to_val_total (Z.of_nat i)) as [v Hv]; [lia|]. rewrite Hv.
    cbn [mbind option_bind].
    destruct (reach_spec l nr v (cnt_le (Z.of_nat i) zs) rest Hld H100 Hsr acc)
      as (pre & post & -> & -> & Hp & Hq & Hs'). cbn [mbind option_bind].
    apply Forall_app in H100 as [_ H100]. rewrite fmap_app in Hrest. apply Forall_app in Hrest as [Hr1 Hr2].
    destruct (IH (S i) post (foldl note acc (replicate (length pre) v))) as (vs & E & H2); [lia|done|done| |].
    { replace (Z.of_nat (S i) - 1) with (Z.of_nat i) by lia. apply Forall_fmap in Hr2. apply Forall_fmap.
      rewrite Forall_forall in Hq, Hr2 |- *. intros t Ht. split; [by apply Hq|by apply Hr2]. }
    exists (replicate (length pre) v ++ vs). replace (Z.of_nat (S i) - 1) with (Z.of_nat i) in E by lia.
    replace (Z.of_nat i + 1) with (Z.of_nat (S i)) by lia. rewrite E, foldl_app. split; [done|].
    apply Forall2_app; [|done]. by eapply bucket_ranks.
Qed.

Lemma buckets_walk fs : Forall (fun f => f <= dbl 100) fs -> StronglySorted Z.le (need l nr <$> fs) ->
  Forall (fun f => 1 <= need l nr f <= Z.of_nat (length zs)) fs ->
  exists vs, buckets l plat nr 1856 0 0 fs (Percentiles [] (2 ^ 64 - 1) 0) =
               Some (foldl note (Percentiles [] (2 ^ 64 - 1) 0) vs, []) /\
             Forall2 (fun f o => rank_value zs (need l nr f) = Some o) fs vs.
Proof using Hs Hr Hc Hn Hld.
  intros H100 Hts Hall.
  assert (E0 : cnt_le (Z.of_nat 0 - 1) zs = 0) by (apply cnt_le_none; apply (Forall_impl _ _ _ Hr); cbn; lia).
  destruct (buckets_spec 1856 0 fs (Percentiles [] (2 ^ 64 - 1) 0)) as (vs & E & H2); [done..| |].
  { rewrite E0. apply Forall_fmap. apply (Forall_impl _ _ _ Hall). cbn. lia. }
  exists vs. split; [|done]. by rewrite E0 in E.
Qed.
End walk.

(** What is reported for the sample [x]: the mean of its bucket, off by at most 1/128 below 2^34 ns. *)
Definition reported (x o : Z) : Prop := plat_idx_to_val (plat_val_to_idx x) = Some o /\ (x < 2 ^ 34 -> off_by x o).

Lemma rank_reported ys t o : Forall (fun x => 0 <= x) ys -> rank_value (plat_val_to_idx <$> ys) t = Some o ->
  exists x, ys !! Z.to_nat (t - 1) = Some x /\ reported x o.
Proof.
  intros Hy. unfold rank_value. rewrite list_lookup_fmap. destruct (ys !! _) as [x|] eqn:Ex; cbn; [|done]. intros Ho.
  exists x. split; [done|]. split; [done|]. intros Hx. assert (0 <= x) by (rewrite Forall_lookup in Hy; by eapply Hy).
  destruct (val_error x) as (o' & E & Hoff); [lia|]. rewrite E in Ho. by injection Ho as <-.
Qed.

(** The smallest and the largest reported value. *)
Lemma note_bounds vs : forall acc, minv (foldl note acc vs) <= minv acc /\ maxv acc <= maxv (foldl note acc vs) /\
  Forall (fun v => minv (foldl note acc vs) <= v <= maxv (foldl note acc vs)) vs.
Proof.
  induction vs as [|v vs IH]; intros acc; cbn [foldl]; [split_and!; [done..|constructor]|].
  destruct (IH (note acc v)) as (H1 & H2 & H3). cbn [note minv maxv] in H1, H2.
  destruct (decide (v < minv acc)), (decide (v > maxv acc)); (split_and!; [lia|lia|constructor; [lia|exact H3]]).
Qed.

(** A list of percentiles as the option gives it: at most 20, ended by 0 if fewer, each at most 100. *)
Record plist_ok (plist : list Z) (fs : list Z) : Prop := PlistOk {
  po_len : plist_len FIO_IO_U_LIST_MAX_LEN plist = Some (length fs);
  po_take : take (length fs) plist = fs;
  po_range : Forall (fun f => 0 < f <= dbl 100) fs }.

Lemma needs_sorted l nr fs : ldbl_ok l -> 0 <= nr -> Forall (fun f => 0 < f) fs -> StronglySorted Z.le fs ->
  StronglySorted Z.le (need l nr <$> fs).
Proof.
  intros Hl Hn Hf Hs. induction Hs as [|f fs Hs IH Hall]; [constructor|]. apply Forall_cons in Hf as [Hf Hfs]. cbn.
  constructor; [by apply IH|]. apply Forall_fmap. apply (Forall_impl _ _ _ Hall). intros g Hg. cbn.
  apply need_mono; [done|lia|done].
Qed.

Lemma calc_of_samples l xs ys plist fs :
  ldbl_ok l -> 0 < Z.of_nat (length xs) < 2 ^ 64 -> Forall (fun x => 0 <= x) xs -> ys ≡ₚ xs -> StronglySorted Z.le ys ->
  plist_ok plist fs -> fs <> [] ->
  exists plat p, record_samples xs = Some plat /\
    calc_clat_percentiles l true plat (Z.of_nat (length xs)) plist =
      Some (ClatResult (length fs) (merge_sort Z.le fs ++ drop (length fs) plist) (Some (ovals p)) (minv p) (maxv p)
        false) /\
    Forall (fun v => minv p <= v <= maxv p) (ovals p) /\
    Forall2 (fun f o => exists r x, percentile_rank f (Z.of_nat (length xs)) r /\
               ys !! Z.to_nat (r - 1) = Some x /\ reported x o) (merge_sort Z.le fs) (ovals p).
Proof.
  intros Hld Hn Hx Hp Hs [Hlen Htake Hrange] Hne.
  destruct (record_counts xs _ _ counts_zero Hx) as (plat & E & Hc); [cbn [length]; lia|].
  assert (Hy : Forall (fun x => 0 <= x) ys) by (by rewrite Hp). rewrite app_nil_r in Hc.
  assert (Hzs : rev (plat_val_to_idx <$> xs) ≡ₚ plat_val_to_idx <$> ys) by (rewrite <- Permutation_rev, Hp; done).
  apply (counts_perm _ _ _ Hzs) in Hc.
  assert (Hly : length ys = length xs) by (by rewrite Hp).
  assert (Hsr : Forall (fun f => 0 < f <= dbl 100) (merge_sort Z.le fs)) by (by rewrite merge_sort_Permutation).
  destruct (buckets_walk (plat_val_to_idx <$> ys) plat) with (l := l) (nr := Z.of_nat (length xs)) (fs := merge_sort
    Z.le fs)
    as (vs & Ev & H2).
  - by apply sorted_map.
  - apply Forall_fmap. apply (Forall_impl _ _ _ Hy). intros x. apply idx_range.
  - done.
  - rewrite length_fmap, Hly. lia.
  - done.
  - apply (Forall_impl _ _ _ Hsr). cbn. lia.
  - apply needs_sorted; [done|lia|apply (Forall_impl _ _ _ Hsr); cbn; lia|].
    apply StronglySorted_merge_sort; apply _.
  - apply (Forall_impl _ _ _ Hsr). intros f Hf. rewrite length_fmap, Hly. apply need_range; [done|lia|lia].
  - exists plat, (foldl note (Percentiles [] (2 ^ 64 - 1) 0) vs). split; [done|].
    rewrite ovals_notes. split_and!.
    + unfold calc_clat_percentiles. rewrite Hlen. cbn [mbind option_bind].
      rewrite decide_False by (destruct fs; done). rewrite Htake.
      change (Z.to_nat FIO_IO_U_PLAT_NR) with 1856%nat. rewrite Ev. cbn [mbind option_bind].
      by rewrite ovals_notes.
    + apply note_bounds.
    + rewrite Forall_forall in Hsr. apply Forall2_same_length_lookup. split; [by eapply Forall2_length|].
      intros i f o Hf Ho. pose proof (Forall2_lookup_lr _ _ _ _ _ _ H2 Hf Ho) as Hrv. cbn in Hrv.
      destruct (rank_reported ys _ o Hy Hrv) as (x & Ex & Hrep). exists (need l (Z.of_nat (length xs)) f), x.
      split; [|done]. apply need_rank; [done| |lia].
      assert (0 < f <= dbl 100); [|lia]. apply Hsr. by eapply list_elem_of_lookup_2.
Qed.

(** C13: Percentiles.  Samples (at least one, fewer than 2^64) are added to an empty histogram; [ys] is
    the samples in order.  For a list of percentiles as the option gives it (positive, at
    most 100.0, at most 20, ended by 0.0 if fewer), in any order, and the number of samples,
    the call sorts the list in place, reaches every percentile, and stores for each, in
    order, the mean of the bucket of a sample of rank [r], where [r] is [f / 100 * nr] rounded
    up, up to the rounding of [long double] (less than one part in 2^62; x86 or quadruple
    format).  The value is off by at most 1/128 of that sample if the sample is below 2^34 ns.
    The reported minimum and maximum bound the values. *)
Theorem percentiles_of_samples l xs ys plist fs :
  ldbl_ok l -> 0 < Z.of_nat (length xs) < 2 ^ 64 -> Forall (fun x => 0 <= x) xs -> ys ≡ₚ xs -> StronglySorted Z.le ys ->
  plist_ok plist fs -> fs <> [] ->
  exists plat p, record_samples xs = Some plat /\
    calc_clat_percentiles l true plat (Z.of_nat (length xs)) plist =
      Some (ClatResult (length fs) (merge_sort Z.le fs ++ drop (length fs) plist) (Some (ovals p)) (minv p) (maxv p)
        false) /\
    Forall (fun v => minv p <= v <= maxv p) (ovals p) /\
    Forall2 (fun f o => exists r x, percentile_rank f (Z.of_nat (length xs)) r /\
               ys !! Z.to_nat (r - 1) = Some x /\ reported x o) (merge_sort Z.le fs) (ovals p).
Proof. apply calc_of_samples. Qed.

(** The 90th percentile and the median of three samples, asked for in that order. *)
Lemma percentiles_of_samples_witness :
  exists plat p, record_samples [900; 20; 5000] = Some plat /\
    calc_clat_percentiles x87 true plat 3 [dbl 90; dbl 50; 0] =
      Some (ClatResult 2 [dbl 50; dbl 90; 0] (Some (ovals p)) (minv p) (maxv p) false) /\
    Forall2 (fun f o => exists r x, percentile_rank f 3 r /\
               [20; 900; 5000] !! Z.to_nat (r - 1) = Some x /\ reported x o) [dbl 50; dbl 90] (ovals p).
Proof.
  destruct (percentiles_of_samples x87 [900; 20; 5000] [20; 900; 5000] [dbl 90; dbl 50; 0] [dbl 90; dbl 50])
    as (plat & p & E & Ec & _ & H2).
  - apply x87_ok.
  - split; reflexivity.
  - repeat constructor; lia.
  - apply perm_swap.
  - repeat constructor; lia.
  - split; [vm_compute; reflexivity|reflexivity|].
    repeat constructor; vm_compute; congruence.
  - done.
  - exists plat, p. split; [exact E|].
    assert (Em : merge_sort Z.le [dbl 90; dbl 50] = [dbl 50; dbl 90]) by (vm_compute; reflexivity).
    rewrite Em in Ec, H2. split; [exact Ec|exact H2].
Defined.

(** ** Classes *)

Definition total (l : list Z) : Z := foldr Z.add 0 l.

Lemma total_insert l i n n' : l !! i = Some n -> total (<[i := n']> l) = total l - n + n'.
Proof.
  unfold total. revert i. induction l as [|x l IH]; intros [|i] H; [done|done| |].
  - injection H as ->. cbn. lia.
  - change (x + foldr Z.add 0 (<[i := n']> l) = x + foldr Z.add 0 l - n + n'). rewrite (IH i H). lia.
Qed.

(** Counters that do not wrap. *)
Definition room (l : list Z) : Prop := Forall (fun n => 0 <= n < 2 ^ 64 - 1) l.

Lemma incr_total l i : 0 <= i < Z.of_nat (length l) -> room l ->
  exists l', incr l i = Some l' /\ total l' = total l + 1 /\ length l' = length l /\
             forall j, j <> Z.to_nat i -> l' !! j = l !! j.
Proof.
  intros Hi Hr. destruct (lookup_lt_is_Some_2 l (Z.to_nat i)) as [n Hn]; [lia|]. unfold incr. rewrite decide_True by lia.
  rewrite Hn. cbn. unfold room in Hr. rewrite Forall_lookup in Hr. pose proof (Hr _ _ Hn). eexists. split; [done|].
  rewrite wrapu_small by lia. split_and!.
  - rewrite (total_insert _ _ _ _ Hn). lia.
  - apply length_insert.
  - intros j Hj. by rewrite list_lookup_insert_ne by done.
Qed.

Lemma lat_class_range n : 0 <= lat_class n < 10.
Proof. unfold lat_class. repeat case_match; lia. Qed.

Record maps_ok (m : lat_maps) : Prop := MapsOk {
  mo_n : length (io_u_lat_n m) = 10%nat; mo_u : length (io_u_lat_u m) = 10%nat; mo_m : length (io_u_lat_m m) = 12%nat;
  mo_rn : room (io_u_lat_n m); mo_ru : room (io_u_lat_u m); mo_rm : room (io_u_lat_m m) }.

Definition maps_total (m : lat_maps) : Z := total (io_u_lat_n m) + total (io_u_lat_u m) + total (io_u_lat_m m).

Lemma mark_latency_counts m nsec : maps_ok m -> 0 <= nsec ->
  exists m', io_u_mark_latency m nsec = Some m' /\ maps_total m' = maps_total m + 1 /\
    (nsec < 1000 -> io_u_lat_u m' = io_u_lat_u m /\ io_u_lat_m m' = io_u_lat_m m) /\
    (1000 <= nsec < 1000000 -> io_u_lat_n m' = io_u_lat_n m /\ io_u_lat_m m' = io_u_lat_m m) /\
    (1000000 <= nsec -> io_u_lat_n m' = io_u_lat_n m /\ io_u_lat_u m' = io_u_lat_u m).
Proof.
  intros [Hn Hu Hm Rn Ru Rm] Hns. unfold io_u_mark_latency, io_u_mark_lat_nsec, io_u_mark_lat_usec, io_u_mark_lat_msec,
    FIO_IO_U_LAT_N_NR, FIO_IO_U_LAT_U_NR, FIO_IO_U_LAT_M_NR, maps_total.
  destruct (decide (nsec < 1000)) as [H1|H1]; [|destruct (decide (nsec < 1000000)) as [H2|H2]].
  - pose proof (lat_class_range nsec) as Hc. rewrite decide_True by lia.
    destruct (incr_total _ (lat_class nsec) ltac:(rewrite Hn; lia) Rn) as (l & E & Ht & _). rewrite E. eexists.
    split; [done|]. cbn -[total]. split_and!; (lia || done || intros; split; done || lia).
  - assert (1 <= nsec / 1000 < 1000) by (split; [apply Z.div_le_lower_bound; lia|apply Z.div_lt_upper_bound; lia]).
    pose proof (lat_class_range (nsec / 1000)) as Hc. rewrite (decide_True (P := _ /\ _)) by lia.
    rewrite decide_True by lia.
    destruct (incr_total _ (lat_class (nsec / 1000)) ltac:(rewrite Hu; lia) Ru) as (l & E & Ht & _). rewrite E.
    eexists. split; [done|]. cbn -[total]. split_and!; (lia || done || intros; split; done || lia).
  - assert (1 <= nsec / 1000000) by (apply Z.div_le_lower_bound; lia). rewrite decide_True by lia.
    remember (if in_ 0 999 (nsec / 1000000) then _ else _) as idx eqn:Ei. assert (Hi : 0 <= idx < 12).
    { rewrite Ei. pose proof (lat_class_range (nsec / 1000000)). repeat case_match; lia. }
    rewrite decide_True by lia. destruct (incr_total _ idx ltac:(rewrite Hm; lia) Rm) as (l & E & Ht & _). rewrite E.
    eexists. split; [done|]. cbn -[total]. split_and!; (lia || done || intros; split; done || lia).
Qed.

(** The class a queue depth is counted in. *)
Lemma mark_depth_class m depth nr : length m = 7%nat -> 1 <= depth -> exists idx n,
  io_u_mark_depth m depth nr = Some (<[idx := u64 (n + nr)]> m) /\ m !! idx = Some n /\
  2 ^ Z.of_nat idx <= depth /\ (depth < 2 ^ (Z.of_nat idx + 1) \/ idx = 6%nat).
Proof.
  intros Hm Hd. unfold io_u_mark_depth. remember (if in_ 32 63 depth then _ else _) as idx eqn:Ei.
  assert (Hi : 0 <= idx < 7 /\ 2 ^ idx <= depth /\ (depth < 2 ^ (idx + 1) \/ idx = 6)).
  { subst idx. unfold in_. repeat (case_bool_decide; [cbn; lia|]). case_decide; cbn; lia. }
  destruct (lookup_lt_is_Some_2 m (Z.to_nat idx)) as [n Hn]; [lia|]. exists (Z.to_nat idx), n. rewrite Hn. cbn.
  rewrite Z2Nat.id by lia. split_and!; [done|done|lia|lia].
Qed.

(** ** Block states *)

(** The entries are 32 bits wide and are compared as 64-bit words, so that the next entry reaches the
    state: two trimmed blocks fail the comparison's assertion. *)
Example mixed_entries : compare_block_infos [BLOCK_INFO 1 5; BLOCK_INFO 1 6; 0] 0 1 = None.
Proof. vm_compute. reflexivity. Qed.

(** With unwritten blocks behind each, the comparison works. *)
Example spaced_entries : compare_block_infos [BLOCK_INFO 1 5; 0; BLOCK_INFO 1 6; 0] 0 2 = Some (-1).
Proof. vm_compute. reflexivity. Qed.
