(* ===== verification/RbTree.v ===== *)
(** * Red-black trees (src/fio/lib/rbtree.c, rbtree.h)

    A node is a cell of a store that maps addresses to nodes; it holds the address of
    its parent and, in the lowest bit, its colour, in one word.  Address 0 is NULL.
    [None] is the access to a node that is not in the store.  The functions come in
    pairs that differ in the words left and right only: a pair is one definition
    with the side as an argument. *)

From S2P Require Import Prelude.

Open Scope Z_scope.

Inductive side := Left | Right.
#[global] Instance side_eq : EqDecision side.
Proof. solve_decision. Defined.

Definition opp (d : side) : side := match d with Left => Right | Right => Left end.

Record node := Node { rb_parent_color : Z; rb_right : Z; rb_left : Z }.
Definition RB_RED : Z := 0.
Definition RB_BLACK : Z := 1.

(** The nodes and the root pointer. *)
Record store := Store { cells : gmap Z node; rb_node : Z }.

(** ** Fields *)

Definition rb_parent (n : node) : Z := Z.land (rb_parent_color n) (Z.lnot 3).
Definition rb_color (n : node) : Z := Z.land (rb_parent_color n) 1.
Definition rb_is_red (n : node) : bool := bool_decide (rb_color n = 0).
Definition rb_is_black (n : node) : bool := negb (rb_is_red n).

Definition child (d : side) (n : node) : Z := match d with Left => rb_left n | Right => rb_right n end.
Definition with_child (d : side) (x : Z) (n : node) : node :=
  match d with Left => Node (rb_parent_color n) (rb_right n) x | Right => Node (rb_parent_color n) x (rb_left n) end.
Definition with_pc (f : Z -> Z) (n : node) : node := Node (f (rb_parent_color n)) (rb_right n) (rb_left n).

Definition get (s : store) (x : Z) : option node := if decide (x = 0) then None else cells s !! x.
Definition upd (s : store) (x : Z) (f : node -> node) : option store :=
  n ← get s x; Some (Store (<[x := f n]> (cells s)) (rb_node s)).
Definition set_root (s : store) (x : Z) : store := Store (cells s) x.

Definition rb_set_red (s : store) (x : Z) : option store := upd s x (with_pc (fun pc => Z.land pc (Z.lnot 1))).
Definition rb_set_black (s : store) (x : Z) : option store := upd s x (with_pc (fun pc => Z.lor pc 1)).
Definition rb_set_parent (s : store) (x p : Z) : option store := upd s x (with_pc (fun pc => Z.lor (Z.land pc 3) p)).
Definition rb_set_color (s : store) (x c : Z) : option store := upd s x (with_pc (fun pc => Z.lor (Z.land pc (Z.lnot 1)) c)).

Definition RB_CLEAR_NODE (s : store) (x : Z) : option store := rb_set_parent s x x.
Definition RB_EMPTY_NODE (s : store) (x : Z) : option bool := n ← get s x; Some (bool_decide (rb_parent n = x)).

(** [if (x) rb_set_parent(x, p)] *)
Definition set_parent_of (s : store) (x p : Z) : option store := if decide (x = 0) then Some s else rb_set_parent s x p.

(** [!x || rb_is_black(x)] *)
Definition null_or_black (s : store) (x : Z) : option bool :=
  if decide (x = 0) then Some true else n ← get s x; Some (rb_is_black n).

(** [if (x) rb_set_black(x)] *)
Definition set_black_if (s : store) (x : Z) : option store := if decide (x = 0) then Some s else rb_set_black s x.

(** ** Rotations *)

(** The link from above: of the parent, on the side where [x] is, or of the root. *)
Definition relink (d : side) (s : store) (parent x y : Z) : option store :=
  if decide (parent <> 0) then
    p ← get s parent;
    if decide (x = child d p) then upd s parent (with_child d y) else upd s parent (with_child (opp d) y)
  else Some (set_root s y).

Definition rb_rotate (d : side) (s : store) (x : Z) : option store :=
  n ← get s x;
  let other := child (opp d) n in
  let parent := rb_parent n in
  o ← get s other;
  s ← upd s x (with_child (opp d) (child d o));
  o ← get s other;
  s ← set_parent_of s (child d o) x;
  s ← upd s other (with_child d x);
  s ← rb_set_parent s other parent;
  s ← relink d s parent x other;
  rb_set_parent s x other.

Definition rb_rotate_left : store -> Z -> option store := rb_rotate Left.
Definition rb_rotate_right : store -> Z -> option store := rb_rotate Right.

(** ** Insertion *)

Definition rb_link_node (s : store) (x parent : Z) (link : option side) : option store :=
  s ← upd s x (fun _ => Node parent 0 0);
  match link with
  | Some d => upd s parent (with_child d x)
  | None => Some (set_root s x)
  end.

(** [parent] is red and the child of [gparent] on side [d]: the next node to look at, or the end. *)
Definition insert_case (d : side) (s : store) (x parent gparent : Z) : option (Z * store) :=
  g ← get s gparent;
  let uncle := child (opp d) g in
  black ← null_or_black s uncle;
  if black : bool then
    p ← get s parent;
    '(parent, x, s) ← (if decide (child (opp d) p = x) then s ← rb_rotate d s parent; Some (x, parent, s)
                       else Some (parent, x, s));
    s ← rb_set_black s parent;
    s ← rb_set_red s gparent;
    s ← rb_rotate (opp d) s gparent;
    Some (x, s)
  else
    s ← rb_set_black s uncle;
    s ← rb_set_black s parent;
    s ← rb_set_red s gparent;
    Some (gparent, s).

Fixpoint insert_loop (fuel : nat) (s : store) (x : Z) : option store :=
  match fuel with
  | O => None
  | S fuel' =>
      n ← get s x;
      let parent := rb_parent n in
      if decide (parent = 0) then Some s
      else
        p ← get s parent;
        if rb_is_red p then
          let gparent := rb_parent p in
          g ← get s gparent;
          '(x, s) ← insert_case (if decide (parent = rb_left g) then Left else Right) s x parent gparent;
          insert_loop fuel' s x
        else Some s
  end.

Definition rb_insert_color (s : store) (x : Z) : option store :=
  s ← insert_loop (S (size (cells s))) s x;
  rb_set_black s (rb_node s).

(** ** Removal *)

(** One turn for a node that is the child of [parent] on side [d], its sibling [other] being black: the
    next node and parent, or the end ([break]) with the node that is left to be blackened. *)
Definition erase_black (d : side) (s : store) (parent other : Z) : option ((Z * Z + Z) * store) :=
  o ← get s other;
  lb ← null_or_black s (rb_left o);
  rb ← null_or_black s (rb_right o);
  if (lb && rb)%bool then
    s ← rb_set_red s other;
    p ← get s parent;
    Some (inl (parent, rb_parent p), s)
  else
    far ← null_or_black s (child (opp d) o);
    '(other, s) ← (if far : bool then
                     s ← set_black_if s (child d o);
                     s ← rb_set_red s other;
                     s ← rb_rotate (opp d) s other;
                     p ← get s parent;
                     Some (child (opp d) p, s)
                   else Some (other, s));
    p ← get s parent;
    s ← rb_set_color s other (rb_color p);
    s ← rb_set_black s parent;
    o ← get s other;
    s ← set_black_if s (child (opp d) o);
    s ← rb_rotate d s parent;
    Some (inr (rb_node s), s).

(** The whole turn: a red sibling is rotated away first. *)
Definition erase_case (d : side) (s : store) (parent : Z) : option ((Z * Z + Z) * store) :=
  p ← get s parent;
  let other := child (opp d) p in
  o ← get s other;
  if rb_is_red o then
    s ← rb_set_black s other;
    s ← rb_set_red s parent;
    s ← rb_rotate d s parent;
    p ← get s parent;
    erase_black d s parent (child (opp d) p)
  else erase_black d s parent other.

Fixpoint erase_loop (fuel : nat) (s : store) (x parent : Z) : option (Z * store) :=
  match fuel with
  | O => None
  | S fuel' =>
      black ← null_or_black s x;
      if (black && bool_decide (x <> rb_node s))%bool then
        p ← get s parent;
        '(next, s) ← erase_case (if decide (rb_left p = x) then Left else Right) s parent;
        match next with
        | inl (x, parent) => erase_loop fuel' s x parent
        | inr x => Some (x, s)
        end
      else Some (x, s)
  end.

Definition rb_erase_color (s : store) (x parent : Z) : option store :=
  '(x, s) ← erase_loop (S (size (cells s))) s x parent;
  set_black_if s x.

(** [while ((left = node->rb_left) != NULL) node = left] *)
Fixpoint leftmost (fuel : nat) (s : store) (x : Z) : option Z :=
  match fuel with
  | O => None
  | S fuel' => n ← get s x; if decide (rb_left n = 0) then Some x else leftmost fuel' s (rb_left n)
  end.

(** The successor takes the place of a node with two children. *)
Definition erase_swap (s : store) (old : Z) : option (Z * Z * Z * store) :=
  o ← get s old;
  x ← leftmost (size (cells s)) s (rb_right o);
  n ← get s x;
  let c := rb_right n in
  let parent := rb_parent n in
  let color := rb_color n in
  s ← set_parent_of s c parent;
  '(parent, s) ← (if decide (parent = old) then s ← upd s parent (with_child Right c); Some (x, s)
                  else s ← upd s parent (with_child Left c); Some (parent, s));
  o ← get s old;
  s ← upd s x (fun _ => o);
  s ← relink Left s (rb_parent o) old x;
  o ← get s old;
  s ← rb_set_parent s (rb_left o) x;
  s ← set_parent_of s (rb_right o) x;
  Some (c, parent, color, s).

(** A node with at most one child is replaced by it. *)
Definition erase_single (s : store) (x c : Z) : option (Z * Z * Z * store) :=
  n ← get s x;
  let parent := rb_parent n in
  let color := rb_color n in
  s ← set_parent_of s c parent;
  s ← relink Left s parent x c;
  Some (c, parent, color, s).

Definition rb_erase (s : store) (x : Z) : option store :=
  n ← get s x;
  '(c, parent, color, s) ← (if decide (rb_left n = 0) then erase_single s x (rb_right n)
                            else if decide (rb_right n = 0) then erase_single s x (rb_left n)
                            else erase_swap s x);
  if decide (color = RB_BLACK) then rb_erase_color s c parent else Some s.

(** ** Order *)

Definition rb_first (s : store) : option Z :=
  if decide (rb_node s = 0) then Some 0 else leftmost (size (cells s)) s (rb_node s).

(** [while ((parent = rb_parent(node)) && node == parent->rb_right) node = parent; return parent] *)
Fixpoint climb (fuel : nat) (s : store) (x : Z) : option Z :=
  match fuel with
  | O => None
  | S fuel' =>
      n ← get s x;
      let parent := rb_parent n in
      if decide (parent = 0) then Some 0
      else p ← get s parent; if decide (x = rb_right p) then climb fuel' s parent else Some parent
  end.

Definition rb_next (s : store) (x : Z) : option Z :=
  n ← get s x;
  if decide (rb_parent n = x) then Some 0
  else if decide (rb_right n <> 0) then leftmost (size (cells s)) s (rb_right n)
  else climb (size (cells s)) s x.
