(* ===== verification/RbRep.v ===== *)
(** * Red-black trees: the tree a store holds

    A tree with a context (the way up from a subtree to the root) is represented by
    a store when the store holds the cells that the two prescribe; the cells are a list without
    duplicate addresses, up to permutation.  Every operation on the links is then an
    operation on trees: colouring, rotating, and replacing a node by its only
    child. *)

From S2P Require Import Prelude RbTree.

Open Scope Z_scope.

(** ** The packed word *)

Inductive color := Red | Black.
#[global] Instance color_eq : EqDecision color.
Proof. solve_decision. Defined.

Definition bit (c : color) : Z := match c with Red => RB_RED | Black => RB_BLACK end.
Definition pack (p : Z) (c : color) : Z := p + bit c.
Definition aligned (p : Z) : Prop := p mod 4 = 0.

Lemma bit_range c : 0 <= bit c < 2.
Proof. by destruct c. Qed.

Lemma aligned_0 : aligned 0.
Proof. done. Qed.

Lemma pack_mod p c : aligned p -> pack p c mod 4 = bit c /\ pack p c / 4 = p / 4 /\ p = 4 * (p / 4).
Proof.
  intros Hp. unfold aligned, pack in *. pose proof (bit_range c).
  assert (E : p = 4 * (p / 4)) by (apply Z.div_exact; lia).
  split_and!; [|symmetry; apply (Zdiv_unique _ _ _ (bit c)); lia|done]. symmetry. apply (Zmod_unique _ _ (p / 4)); lia.
Qed.

Lemma land_high x k : 0 <= k -> Z.land x (Z.lnot (Z.ones k)) = 2 ^ k * (x / 2 ^ k).
Proof.
  intros Hk. rewrite <- Z.ldiff_land, Z.ldiff_ones_r by done. rewrite Z.shiftl_mul_pow2, Z.shiftr_div_pow2 by done. lia.
Qed.

Lemma pack_parent p c : aligned p -> Z.land (pack p c) (Z.lnot 3) = p.
Proof.
  intros Hp. destruct (pack_mod p c Hp) as (_ & E & E'). change 3 with (Z.ones 2). rewrite land_high by done.
  change (2 ^ 2) with 4. lia.
Qed.

Lemma pack_color p c : aligned p -> Z.land (pack p c) 1 = bit c.
Proof.
  intros Hp. destruct (pack_mod p c Hp) as (E & _ & _). change 1 with (Z.ones 1). rewrite Z.land_ones by done.
  change (2 ^ 1) with 2.
  pose proof (bit_range c). pose proof (Z.div_mod (pack p c) 4 ltac:(done)). symmetry.
  apply (Zmod_unique _ _ (2 * (pack p c / 4))); lia.
Qed.

(** Adding to a multiple of [2^k] what is below [2^k]. *)
Lemma lor_low x y k : 0 <= k -> x mod 2 ^ k = 0 -> 0 <= y < 2 ^ k -> Z.lor x y = x + y.
Proof.
  intros Hk Hx Hy. assert (Hl : Z.land x y = 0).
  { apply Z.bits_inj'. intros i Hi. rewrite Z.land_spec, Z.bits_0. destruct (decide (i < k)) as [H|H].
    - rewrite <- (Z.mod_pow2_bits_low x k i), Hx, Z.bits_0 by lia. done.
    - rewrite <- (Z.mod_small y (2 ^ k)), Z.mod_pow2_bits_high by lia. apply andb_false_r. }
  rewrite <- Z.lxor_lor by done. symmetry. by apply Z.add_nocarry_lxor.
Qed.

Lemma pack_set_red p c : aligned p -> Z.land (pack p c) (Z.lnot 1) = pack p Red.
Proof.
  intros Hp. destruct (pack_mod p c Hp) as (E & Ed & E'). change 1 with (Z.ones 1). rewrite land_high by done.
  change (2 ^ 1) with 2.
  pose proof (bit_range c). pose proof (Z.div_mod (pack p c) 4 ltac:(done)).
  assert (pack p c / 2 = 2 * (p / 4)); [|change (pack p Red) with (p + 0); lia]. symmetry.
  apply (Zdiv_unique _ _ _ (bit c)); lia.
Qed.

Lemma pack_lor p c c' : aligned p -> Z.lor (pack p Red) (bit c') = pack p c' /\ Z.lor (pack p c) 1 = pack p Black.
Proof.
  intros Hp. assert (H : Z.lor p 1 = p + 1) by (apply (lor_low _ _ 2); [done|exact Hp|done]).
  assert (H0 : Z.lor (p + 1) 1 = p + 1) by (rewrite <- H, <- Z.lor_assoc; done). unfold pack.
  cbn [bit RB_RED RB_BLACK]. unfold RB_RED. rewrite Z.add_0_r.
  split; destruct c', c; cbn; unfold RB_BLACK, RB_RED; rewrite ?Z.add_0_r, ?Z.lor_0_r; done.
Qed.

Lemma pack_set_parent p q c : aligned p -> aligned q -> Z.lor (Z.land (pack p c) 3) q = pack q c.
Proof.
  intros Hp Hq. destruct (pack_mod p c Hp) as (E & _ & _). change 3 with (Z.ones 2). rewrite Z.land_ones by done.
  change (2 ^ 2) with 4.
  rewrite E, Z.lor_comm. pose proof (bit_range c). apply (lor_low _ _ 2); [done|exact Hq|change (2 ^ 2) with 4; lia].
Qed.

(** ** Trees and contexts *)

Inductive tree := E | T (c : color) (l : tree) (a : Z) (r : tree).

(** A node with subtree [t] on side [d] and [u] on the other. *)
Definition mk (d : side) (c : color) (t : tree) (a : Z) (u : tree) : tree :=
  match d with Left => T c t a u | Right => T c u a t end.

Definition top (t : tree) : Z := match t with E => 0 | T _ _ a _ => a end.

(** What is above a subtree, from its parent up: the side it is on, the parent, and the parent's
    other child. *)
Notation frame := (side * color * Z * tree)%type.
Notation context := (list frame).

Definition plug1 (f : frame) (t : tree) : tree := let '(d, c, a, u) := f in mk d c t a u.
Definition plug (k : context) (t : tree) : tree := foldl (fun t f => plug1 f t) t k.
Definition up (k : context) : Z := match k with [] => 0 | (_, _, a, _) :: _ => a end.

(** The cell of a node. *)
Definition cell (d : side) (p : Z) (c : color) (x y : Z) : node :=
  match d with Left => Node (pack p c) y x | Right => Node (pack p c) x y end.

Fixpoint entries (t : tree) (p : Z) : list (Z * node) :=
  match t with
  | E => []
  | T c l a r => (a, cell Left p c (top l) (top r)) :: entries l a ++ entries r a
  end.

(** The cells of a context whose subtree is at [x]. *)
Fixpoint centries (k : context) (x : Z) : list (Z * node) :=
  match k with
  | [] => []
  | (d, c, a, u) :: k' => (a, cell d (up k') c x (top u)) :: entries u a ++ centries k' a
  end.

Definition root_of (k : context) (x : Z) : Z := foldl (fun _ f => let '(_, _, a, _) := f in a) x k.

Lemma cell_opp d p c x y : cell (opp d) p c x y = cell d p c y x.
Proof. by destruct d. Qed.

Lemma child_cell d p c x y : child d (cell d p c x y) = x /\ child (opp d) (cell d p c x y) = y.
Proof. by destruct d. Qed.

Lemma with_child_cell d p c x y z :
  with_child d z (cell d p c x y) = cell d p c z y /\ with_child (opp d) z (cell d p c x y) = cell d p c x z.
Proof. by destruct d. Qed.

Lemma with_pc_cell d p q c c' x y f : f (pack p c) = pack q c' -> with_pc f (cell d p c x y) = cell d q c' x y.
Proof. intros H. destruct d; unfold with_pc, cell; cbn [rb_parent_color rb_right rb_left]; by rewrite H. Qed.

Lemma parent_cell d p c x y : aligned p -> rb_parent (cell d p c x y) = p.
Proof. intros Hp. destruct d; by apply pack_parent. Qed.

Lemma color_cell d p c x y : aligned p -> rb_color (cell d p c x y) = bit c.
Proof. intros Hp. destruct d; by apply pack_color. Qed.

Lemma is_red_cell d p c x y : aligned p -> rb_is_red (cell d p c x y) = bool_decide (c = Red).
Proof. intros Hp. unfold rb_is_red. rewrite color_cell by done. by destruct c. Qed.

Lemma top_mk d c t a u : top (mk d c t a u) = a.
Proof. by destruct d. Qed.

Lemma opp_opp d : opp (opp d) = d.
Proof. by destruct d. Qed.

Lemma mk_opp d c t a u : mk (opp d) c t a u = mk d c u a t.
Proof. by destruct d. Qed.

Lemma entries_mk d c t a u p : entries (mk d c t a u) p ≡ₚ (a, cell d p c (top t) (top u)) :: entries t a ++ entries u a.
Proof. destruct d; cbn; [done|]. by rewrite (Permutation_app_comm (entries u a)). Qed.

Lemma tree_mk d t : t = E \/ exists c t1 a t2, t = mk d c t1 a t2.
Proof. destruct t as [|c l a r]; [by left|right]. destruct d; [by exists c, l, a, r|by exists c, r, a, l]. Qed.

(** ** Holding cells *)

(** The store holds these cells, at distinct, aligned addresses. *)
Definition holds (s : store) (es : list (Z * node)) : Prop :=
  NoDup es.*1 /\ Forall (fun '(x, n) => x <> 0 /\ aligned x /\ cells s !! x = Some n) es.

#[global] Instance holds_proper s : Proper (Permutation ==> iff) (holds s).
Proof. intros es es' H. unfold holds. by rewrite H. Qed.

Lemma holds_app_r s es es' : holds s (es ++ es') -> holds s es'.
Proof. intros [Hn Hf]. rewrite fmap_app in Hn. apply NoDup_app in Hn as (_ & _ & Hn).
  apply Forall_app in Hf as [_ Hf]. by split. Qed.

Lemma holds_get s x n es : holds s ((x, n) :: es) -> get s x = Some n /\ x <> 0 /\ aligned x.
Proof. intros [_ Hf]. apply Forall_cons in Hf as [(H0 & Ha & Hc) _]. unfold get. by rewrite decide_False. Qed.

Lemma holds_upd s x n es f : holds s ((x, n) :: es) ->
  exists s', upd s x f = Some s' /\ holds s' ((x, f n) :: es) /\ rb_node s' = rb_node s /\
    size (cells s') = size (cells s).
Proof.
  intros H. destruct (holds_get _ _ _ _ H) as (Hg & H0 & Ha). destruct H as [Hn Hf]. unfold upd. rewrite Hg. cbn. eexists.
  split; [done|]. apply Forall_cons in Hf as [(_ & _ & Hc) Hf]. cbn in Hn. apply NoDup_cons in Hn as [Hx Hn]. split_and!.
  - split; [by constructor|]. constructor; [cbn; by rewrite lookup_insert_eq|]. rewrite Forall_forall in Hf |- *.
    intros [y m] Hy.
    specialize (Hf _ Hy). cbn in Hf |- *. rewrite lookup_insert_ne; [done|]. intros <-. apply Hx.
    apply list_elem_of_fmap. by exists (x, m).
  - done.
  - cbn. rewrite map_size_insert_Some by eauto. done.
Qed.

Lemma holds_ne s x n es y m : holds s ((x, n) :: es) -> (y, m) ∈ es -> y <> x.
Proof. intros [Hn _] Hy ->. cbn in Hn. apply NoDup_cons in Hn as [Hx _]. apply Hx. apply list_elem_of_fmap.
  by exists (x, m). Qed.

Lemma holds_size s es : holds s es -> (length es <= size (cells s))%nat.
Proof.
  intros [Hn Hf]. rewrite <- (length_fmap fst), <- size_dom. rewrite <- (size_list_to_set (C := gset Z) es.*1) by done.
  apply subseteq_size. intros x Hx. apply elem_of_list_to_set, list_elem_of_fmap in Hx as ([y n] & -> & Hy).
  rewrite Forall_forall in Hf. destruct (Hf _ Hy) as (_ & _ & Hc). by apply elem_of_dom_2 in Hc.
Qed.

(** ** Representing a tree in a context *)

(** The store holds [t] in the context [k]; [R] is held besides. *)
Definition repr (s : store) (k : context) (t : tree) (R : list (Z * node)) : Prop :=
  holds s (entries t (up k) ++ centries k (top t) ++ R) /\ rb_node s = root_of k (top t).

Lemma repr_zip s d c a u k t R : repr s k (mk d c t a u) R <-> repr s ((d, c, a, u) :: k) t R.
Proof.
  unfold repr. cbn [up centries root_of foldl]. rewrite top_mk.
  split; intros [H Hr]; (split; [|done]); revert H; rewrite entries_mk; intros H.
  - revert H. apply holds_proper. cbn. rewrite <- (Permutation_middle (entries t a)). constructor.
    by rewrite <- !app_assoc.
  - revert H. apply holds_proper. cbn. rewrite <- (Permutation_middle (entries t a)). constructor.
    by rewrite <- !app_assoc.
Qed.

(** Reorders the cells that [H] holds. *)
Ltac hold_as H es := apply (holds_proper _ _ es) in H; [|solve_Permutation].

Lemma up_aligned s k t R : repr s k t R -> aligned (up k).
Proof.
  intros [H _]. destruct k as [|[[[d c] a] u] k]; [done|]. cbn in H. apply holds_app_r in H.
  by apply holds_get in H as (_ & _ & Ha).
Qed.

Lemma repr_get s k d c t a u R : repr s k (mk d c t a u) R ->
  get s a = Some (cell d (up k) c (top t) (top u)) /\ a <> 0 /\ aligned a.
Proof. intros [H _]. rewrite entries_mk in H. by apply holds_get in H. Qed.

(** A change of the packed word of the node in focus. *)
Lemma repr_recolor s k d c c' t a u R f : repr s k (mk d c t a u) R -> f (pack (up k) c) = pack (up k) c' ->
  exists s', upd s a (with_pc f) = Some s' /\ repr s' k (mk d c' t a u) R /\ size (cells s') = size (cells s).
Proof.
  intros [H Hr] Hf. rewrite entries_mk in H. destruct (holds_upd _ _ _ _ (with_pc f) H) as (s' & E & H' & Hr' & Hs).
  exists s'. split; [done|]. split; [|done]. split; [|by rewrite Hr', Hr, !top_mk]. rewrite entries_mk, top_mk.
  rewrite top_mk in H'.
  by rewrite (with_pc_cell _ _ _ _ _ _ _ _ Hf) in H'.
Qed.

Lemma repr_black s k d c t a u R : repr s k (mk d c t a u) R ->
  exists s', rb_set_black s a = Some s' /\ repr s' k (mk d Black t a u) R /\ size (cells s') = size (cells s).
Proof. intros H. eapply repr_recolor; [done|]. by apply pack_lor, (up_aligned _ _ _ _ H). Qed.

Lemma repr_red s k d c t a u R : repr s k (mk d c t a u) R ->
  exists s', rb_set_red s a = Some s' /\ repr s' k (mk d Red t a u) R /\ size (cells s') = size (cells s).
Proof. intros H. eapply repr_recolor; [done|]. by apply pack_set_red, (up_aligned _ _ _ _ H). Qed.

Lemma repr_color s k d c c' t a u R : repr s k (mk d c t a u) R ->
  exists s', rb_set_color s a (bit c') = Some s' /\ repr s' k (mk d c' t a u) R /\ size (cells s') = size (cells s).
Proof.
  intros H. pose proof (up_aligned _ _ _ _ H). eapply repr_recolor; [done|]. cbn. rewrite pack_set_red by done.
  by apply (pack_lor _ Red).
Qed.

(** A subtree gets another parent. *)
Lemma reparent s t p q R : holds s (entries t p ++ R) -> aligned p -> aligned q ->
  exists s', set_parent_of s (top t) q = Some s' /\ holds s' (entries t q ++ R) /\ rb_node s' = rb_node s /\
    size (cells s') = size (cells s).
Proof.
  intros H Hp Hq. unfold set_parent_of. destruct t as [|c l a r]; [by exists s|]. cbn [entries app top] in H |- *.
  destruct (holds_get _ _ _ _ H) as (_ & Ha & _). rewrite decide_False by done. unfold rb_set_parent.
  edestruct (holds_upd _ _ _ _ (with_pc (fun pc => Z.lor (Z.land pc 3) q)) H) as (s' & E & H' & Hr & Hs). rewrite E.
  exists s'. split; [done|]. split; [|done]. rewrite (with_pc_cell _ _ q _ c) in H'; [done|]. by apply pack_set_parent.
Qed.

(** The link from above. *)
Lemma relink_spec d s k x n y R : holds s (centries k x ++ (x, n) :: R) -> rb_node s = root_of k x ->
  exists s', relink d s (up k) x y = Some s' /\ holds s' (centries k y ++ (x, n) :: R) /\ rb_node s' = root_of k y /\
    size (cells s') = size (cells s).
Proof.
  intros H Hr. unfold relink. destruct k as [|[[[d' c] a] u] k]; cbn [up].
  { rewrite decide_False by (intros []; done). eexists. by split. }
  cbn [centries app] in H |- *. destruct (holds_get _ _ _ _ H) as (Hg & Ha & _). rewrite decide_True, Hg by done. cbn.
  assert (Hx : x <> top u).
  { destruct u as [|cu lu au ru]; cbn [top].
    - hold_as H ((x, n) :: (a, cell d' (up k) c x 0) :: centries k a ++ R). by apply holds_get in H as (_ & ? & _).
    - intros ->. hold_as H ((au, n) :: (a, cell d' (up k) c au au) :: (au,
        cell Left a cu (top lu) (top ru)) :: (entries lu au ++ entries ru au) ++ centries k a ++ R).
      eapply holds_ne; [exact H| |done]. by right; left. }
  assert (E : (if decide (x = child d (cell d' (up k) c x (top u))) then upd s a (with_child d y) else upd s a
    (with_child (opp d) y)) =
              upd s a (with_child d' y)).
  { destruct d, d'; cbn; by case_decide. }
  rewrite E. destruct (holds_upd _ _ _ _ (with_child d' y) H) as (s' & E' & H' & Hr' & Hs). rewrite E'. exists s'.
  split; [done|].
  rewrite (proj1 (with_child_cell _ _ _ _ _ _)) in H'. split; [done|]. by rewrite Hr', Hr.
Qed.

(** Rotating the node in focus. *)
Lemma repr_rotate d s k c t a c' u b v R : repr s k (mk d c t a (mk d c' u b v)) R ->
  exists s', rb_rotate d s a = Some s' /\ repr s' k (mk d c' (mk d c t a u) b v) R /\ size (cells s') = size (cells s).
Proof.
  intros Hrep. pose proof (up_aligned _ _ _ _ Hrep) as Hp. destruct (repr_get _ _ _ _ _ _ _ _ Hrep) as (Ha & Ha0 & Haa).
  destruct Hrep as [H Hr]. rewrite top_mk in H, Hr, Ha. set (p := up k) in *.
  assert (H1 : holds s ((a, cell d p c (top t) b) :: (b, cell d a c' (top u) (top v)) :: entries t a ++ entries u b
    ++ entries v b ++ centries k a ++ R)).
  { revert H. rewrite !entries_mk, top_mk. apply holds_proper. solve_Permutation. }
  clear H. unfold rb_rotate. rewrite Ha. cbn [mbind option_bind].
  rewrite (proj2 (child_cell _ _ _ _ _)), parent_cell by done.
  assert (Hb : forall s a x y z R, holds s ((a, x) :: (b, y) :: z ++ R) -> get s b = Some y /\ b <> 0 /\ aligned b).
  { intros s0 a0 x y z R0 H0. hold_as H0 ((b, y) :: (a0, x) :: z ++ R0). by apply holds_get in H0. }
  destruct (Hb _ _ _ _ _ _ H1) as (Hgb & Hb0 & Hba). rewrite Hgb. cbn [mbind option_bind].
  rewrite (proj1 (child_cell _ _ _ _ _)).
  destruct (holds_upd _ _ _ _ (with_child (opp d) (top u)) H1) as (s2 & -> & H2 & Hr2 & Hs2). cbn [mbind option_bind].
  rewrite (proj2 (with_child_cell _ _ _ _ _ _)) in H2. destruct (Hb _ _ _ _ _ _ H2) as (-> & _). cbn [mbind option_bind].
  rewrite (proj1 (child_cell _ _ _ _ _)).
  hold_as H2 (entries u b ++ (b, cell d a c' (top u) (top v)) :: (a,
    cell d p c (top t) (top u)) :: entries t a ++ entries v b ++ centries k a ++ R).
  destruct (reparent _ _ _ a _ H2 Hba Haa) as (s3 & -> & H3 & Hr3 & Hs3). cbn [mbind option_bind].
  hold_as H3 ((b, cell d a c' (top u) (top v)) :: (a, cell d p c (top t) (top u)) :: entries t a ++ entries u a ++
    entries v b ++ centries k a ++ R).
  destruct (holds_upd _ _ _ _ (with_child d a) H3) as (s4 & -> & H4 & Hr4 & Hs4). cbn [mbind option_bind].
  rewrite (proj1 (with_child_cell _ _ _ _ _ _)) in H4. unfold rb_set_parent.
  destruct (holds_upd _ _ _ _ (with_pc (fun pc => Z.lor (Z.land pc 3) p)) H4) as (s5 & -> & H5 & Hr5 & Hs5).
  cbn [mbind option_bind].
  rewrite (with_pc_cell d a p c' c') in H5 by (by apply pack_set_parent).
  hold_as H5 (centries k a ++ (a, cell d p c (top t) (top u)) :: (b,
    cell d p c' a (top v)) :: entries t a ++ entries u a ++ entries v b ++ R).
  destruct (relink_spec d _ _ _ _ b _ H5) as (s6 & E6 & H6 & Hr6 & Hs6); [congruence|]. fold p in E6. rewrite E6.
  cbn [mbind option_bind].
  hold_as H6 ((a, cell d p c (top t) (top u)) :: (b, cell d p c' a (top v)) :: entries t a ++ entries u a ++ entries
    v b ++ centries k b ++ R).
  destruct (holds_upd _ _ _ _ (with_pc (fun pc => Z.lor (Z.land pc 3) b)) H6) as (s7 & -> & H7 & Hr7 & Hs7).
  rewrite (with_pc_cell d p b c c) in H7 by (by apply pack_set_parent). exists s7. split; [done|]. split; [|lia]. split.
  - revert H7. rewrite !entries_mk, !top_mk. apply holds_proper. solve_Permutation.
  - rewrite top_mk. congruence.
Qed.
