(* ===== verification/RbInsert.v ===== *)
(** * Red-black trees: insertion

    What [rb_insert_color] does to the tree, as a function of the tree; that the code
    computes it; that it keeps the order of the nodes and restores balance. *)

From S2P Require Import Prelude RbTree RbRep.

Open Scope Z_scope.

(** ** Focus *)

Lemma repr_plug s k t R : repr s k t R <-> repr s [] (plug k t) R.
Proof.
  revert t. induction k as [|[[[d c] a] u] k IH]; intros t; [done|]. rewrite <- repr_zip. apply IH.
Qed.

Lemma plug_app k k' t : plug (k ++ k') t = plug k' (plug k t).
Proof. unfold plug. apply foldl_app. Qed.

(** Every context is held by at least as many cells. *)
Lemma centries_length k : forall x, (length k <= length (centries k x))%nat.
Proof.
  induction k as [|[[[d c] a] u] k IH]; intros x; [done|]. cbn. rewrite length_app. specialize (IH a). lia.
Qed.

Lemma repr_depth s k t R : repr s k t R -> (length k <= size (cells s))%nat.
Proof.
  intros [H _]. apply holds_size in H. rewrite !length_app in H. pose proof (centries_length k (top t)). lia.
Qed.

Definition color_of (t : tree) : color := match t with E => Black | T c _ _ _ => c end.

Lemma color_mk d c t a u : color_of (mk d c t a u) = c.
Proof. by destruct d. Qed.

(** The test of a child of the node in focus. *)
Lemma repr_null_or_black s k t R : repr s k t R -> null_or_black s (top t) = Some (bool_decide (color_of t = Black)).
Proof.
  intros H. unfold null_or_black. destruct t as [|c l a r]; [done|]. cbn [top color_of].
  pose proof (up_aligned _ _ _ _ H).
  destruct (repr_get s k Left c l a r R H) as (Hg & Ha & _). rewrite decide_False, Hg by done.
  cbn [mbind option_bind]. unfold rb_is_black.
  rewrite is_red_cell by done. by destruct c.
Qed.

(** ** What insertion does *)

(** A rotation, or two: the subtree of the grandparent [g] with the parent [p], its child [t] that
    is red as well, and the uncle [u]. *)
Definition balance (d1 d2 : side) (t : tree) (p : Z) (s : tree) (g : Z) (u : tree) : tree :=
  if decide (d1 = d2) then mk d2 Black t p (mk d2 Red s g u)
  else match t with
       | E => E
       | T _ tl n tr =>
           let '(t1, t2) := match d2 with Left => (tl, tr) | Right => (tr, tl) end in
           mk d2 Black (mk d2 Red s p t1) n (mk d2 Red t2 g u)
       end.

Fixpoint fixup (t : tree) (k : context) {struct k} : tree :=
  match k with
  | (d1, Red, p, s) :: (d2, c, g, u) :: k' =>
      match u with
      | T Red ul ua ur => fixup (mk d2 Red (mk d1 Black t p s) g (T Black ul ua ur)) k'
      | _ => plug k' (balance d1 d2 t p s g u)
      end
  | _ => plug k t
  end.

Definition blacken (t : tree) : tree := match t with E => E | T _ l a r => T Black l a r end.

Lemma balance_inner d t1 n t2 c p s g u :
  balance (opp d) d (mk d c t1 n t2) p s g u = mk d Black (mk d Red s p t1) n (mk d Red t2 g u).
Proof. unfold balance. rewrite decide_False by (by destruct d). by destruct d. Qed.

Lemma balance_outer d t p s g u : balance d d t p s g u = mk d Black t p (mk d Red s g u).
Proof. unfold balance. by rewrite decide_True. Qed.

(** ** The code computes it *)

(** The root is not red. *)
Definition black_root (k : context) : Prop := match last k with Some (_, Red, _, _) => False | _ => True end.

Ltac nomatch := cbn [mbind option_bind].

(** Which child of the parent the subtree in focus is. *)
Lemma child_side s k d c a u t R : repr s ((d, c, a, u) :: k) t R -> t <> E ->
  exists n, get s a = Some n /\ child d n = top t /\ child (opp d) n <> top t /\ rb_is_red n = bool_decide (c = Red) /\
            rb_parent n = up k /\ a <> 0.
Proof.
  intros H Ht. rewrite <- repr_zip in H. pose proof (up_aligned _ _ _ _ H) as Hp.
  destruct (repr_get _ _ _ _ _ _ _ _ H) as (Hg & Ha & _).
  eexists. split; [exact Hg|]. destruct (child_cell d (up k) c (top t) (top u)) as [-> ->].
  rewrite is_red_cell, parent_cell by done.
  split_and!; try done. destruct t as [|c' l b r]; [done|]. destruct H as [H _]. rewrite entries_mk in H.
  cbn [top entries].
  hold_as H ((b, cell Left a c' (top l) (top r)) :: (a, cell d (up k) c b (top u)) :: entries u a ++ entries l b ++
    entries r b ++ centries k (top (mk d c (T c' l b r) a u)) ++ R).
  destruct u as [|cu lu au ru]; cbn [top].
  - apply holds_get in H as (_ & ? & _). done.
  - intros ->. eapply holds_ne; [exact H| |done]. by right; left.
Qed.

Lemma left_test s k d c a u t R n : repr s ((d, c, a, u) :: k) t R -> t <> E -> get s a = Some n ->
  (if decide (top t = rb_left n) then Left else Right) = d.
Proof.
  intros H Ht Hg. destruct (child_side _ _ _ _ _ _ _ _ H Ht) as (n' & Hg' & H1 & H2 & _). rewrite Hg in Hg'.
  injection Hg' as <-.
  destruct d; cbn in H1, H2; case_decide; congruence.
Qed.

(** Moving the focus without naming the sides. *)
Lemma repr_up s k d c a u t R : repr s ((d, c, a, u) :: k) t R -> repr s k (mk d c t a u) R.
Proof. apply repr_zip. Qed.

Lemma repr_down s k d c a u t R : repr s k (mk d c t a u) R -> repr s ((d, c, a, u) :: k) t R.
Proof. apply repr_zip. Qed.

Lemma repr_across s k d c a u t R : repr s ((d, c, a, u) :: k) t R -> repr s ((opp d, c, a, t) :: k) u R.
Proof. intros H. apply repr_down. rewrite mk_opp. by apply repr_up. Qed.

Lemma mk_nonnil d c t a u : mk d c t a u <> E.
Proof. by destruct d. Qed.

Lemma set_black_top s k t R : repr s k t R -> t <> E ->
  exists s', rb_set_black s (top t) = Some s' /\ repr s' k (blacken t) R /\ size (cells s') = size (cells s).
Proof. intros H Ht. destruct t as [|c l a r]; [done|]. by apply (repr_black s k Left c l a r). Qed.

Section insert_turn.
Context (d1 d2 : side) (c : color) (p g : Z) (s' u : tree) (k : context) (t : tree) (R : list (Z * node)) (s : store)
        (Ht : t <> E) (H : repr s ((d1, Red, p, s') :: (d2, c, g, u) :: k) t R).

Lemma uncle_focus : repr s ((opp d2, c, g, mk d1 Red t p s') :: k) u R.
Proof using H. apply repr_across. by apply repr_up. Qed.

Lemma grand_cell : exists n, get s g = Some n /\ child (opp d2) n = top u /\
  rb_left n = (if decide (d2 = Left) then p else top u).
Proof using H.
  apply repr_up, repr_up in H. destruct (repr_get _ _ _ _ _ _ _ _ H) as (Hg & _). eexists. split; [exact Hg|].
  rewrite top_mk. by destruct d2.
Qed.

(** A red uncle: the colours change, and the grandparent is next. *)
Lemma turn_red ul ua ur : u = T Red ul ua ur -> exists s2, insert_case d2 s (top t) p g = Some (g, s2) /\
  repr s2 k (mk d2 Red (mk d1 Black t p s') g (T Black ul ua ur)) R /\ size (cells s2) = size (cells s).
Proof using H Ht.
  intros Eu. unfold insert_case. destruct grand_cell as (n & -> & Eo & _). nomatch. rewrite Eo.
  pose proof uncle_focus as Hu.
  rewrite (repr_null_or_black _ _ _ _ Hu), Eu. nomatch. cbn [color_of]. rewrite bool_decide_false by done. cbn [top].
  rewrite Eu in Hu. destruct (repr_black s _ Left Red ul ua ur R Hu) as (s1 & -> & H1 & Z1). nomatch.
  apply repr_across in H1. rewrite opp_opp in H1.
  destruct (repr_black s1 _ d1 Red t p s' R H1) as (s2 & -> & H2 & Z2). nomatch. apply repr_up in H2.
  destruct (repr_red s2 _ _ _ _ _ _ _ H2) as (s3 & -> & H3 & Z3). nomatch. exists s3. split; [done|]. split; [done|]. lia.
Qed.

(** A black one: one rotation, or two, and a black node on top. *)
Lemma turn_black : color_of u = Black -> exists t' b u' s2,
  balance d1 d2 t p s' g u = mk d2 Black t' b u' /\ t' <> E /\ insert_case d2 s (top t) p g = Some (top t', s2) /\
  repr s2 k (mk d2 Black t' b u') R /\ size (cells s2) = size (cells s).
Proof using H Ht.
  intros Eu. unfold insert_case. destruct grand_cell as (n & -> & Eo & _). nomatch. rewrite Eo.
  pose proof uncle_focus as Hu.
  rewrite (repr_null_or_black _ _ _ _ Hu), Eu. nomatch. rewrite bool_decide_true by done.
  destruct (child_side _ _ _ _ _ _ _ _ H Ht) as (np & -> & C1 & C2 & _). nomatch. destruct (decide (d1 = d2)) as [->|Hd].
  - rewrite decide_False by done. nomatch. exists t, p, (mk d2 Red s' g u). rewrite balance_outer.
    apply repr_up in H. destruct (repr_black _ _ _ _ _ _ _ _ H) as (s1 & -> & H1 & Z1). nomatch. apply repr_up in H1.
    destruct (repr_red _ _ _ _ _ _ _ _ H1) as (s2 & -> & H2 & Z2). nomatch. rewrite <- mk_opp, <- (mk_opp d2 Black) in H2.
    destruct (repr_rotate _ _ _ _ _ _ _ _ _ _ _ H2) as (s3 & -> & H3 & Z3). nomatch. rewrite !mk_opp in H3.
    exists s3. split_and!; [done|done|done|done|lia].
  - assert (d1 = opp d2) as -> by (by destruct d1, d2). rewrite decide_True by (by rewrite <- C1).
    destruct (tree_mk d2 t) as [->|(ct & t1 & a & t2 & ->)]; [done|]. rewrite top_mk. apply repr_up in H.
    rewrite mk_opp in H.
    destruct (repr_rotate _ _ _ _ _ _ _ _ _ _ _ H) as (s1 & -> & H1 & Z1). nomatch.
    destruct (repr_black _ _ _ _ _ _ _ _ H1) as (s2 & -> & H2 & Z2). nomatch. apply repr_up in H2.
    destruct (repr_red _ _ _ _ _ _ _ _ H2) as (s3 & -> & H3 & Z3). nomatch. rewrite <- mk_opp, <- (mk_opp d2 Black) in H3.
    destruct (repr_rotate _ _ _ _ _ _ _ _ _ _ _ H3) as (s4 & -> & H4 & Z4). nomatch. rewrite !mk_opp in H4.
    exists (mk d2 Red s' p t1), a, (mk d2 Red t2 g u), s4. rewrite balance_inner, top_mk.
    split_and!; [done|apply mk_nonnil|done|done|lia].
Qed.
End insert_turn.

(** The parent is black, or there is none: the loop ends. *)
Lemma insert_stops fuel s k t R : repr s k t R -> t <> E -> match k with (_, Red, _, _) :: _ => False | _ => True end ->
  insert_loop (S fuel) s (top t) = Some s.
Proof.
  intros H Ht Hk. cbn [insert_loop]. pose proof (up_aligned _ _ _ _ H) as Hp. destruct t as [|c l a r]; [done|].
  cbn [top].
  destruct (repr_get s k Left c l a r R H) as (-> & _). nomatch. rewrite parent_cell by done.
  destruct k as [|[[[d [|]] b] u] k]; [done|done|]. cbn [up].
  destruct (child_side _ _ _ _ _ _ _ _ H Ht) as (n & -> & _ & _ & Er & _ & Hb). rewrite decide_False by done.
  nomatch. by rewrite Er.
Qed.

Lemma black_root_tail f k : black_root (f :: k) -> black_root k.
Proof. unfold black_root. destruct k as [|f' k]; [done|]. by rewrite last_cons_cons. Qed.

Lemma insert_loop_spec k : forall fuel s t R, (length k < fuel)%nat -> t <> E -> black_root k -> repr s k t R ->
  exists s', insert_loop fuel s (top t) = Some s' /\ repr s' [] (fixup t k) R /\ size (cells s') = size (cells s).
Proof.
  induction k as [k IH] using (induction_ltof1 _ (@length _)). unfold ltof in IH. intros fuel s t R Hf Ht Hbr H.
  destruct fuel as [|fuel]; [lia|]. destruct k as [|[[[d1 [|]] p] s'] [|[[[d2 c] g] u] k]].
  - rewrite (insert_stops _ _ _ _ _ H Ht) by done. by exists s.
  - done.
  - cbn [insert_loop]. pose proof (up_aligned _ _ _ _ H) as Hp.
    destruct (tree_mk Left t) as [->|(ct & t1 & a & t2 & Et)]; [done|].
    assert (Ha : get s (top t) = Some (cell Left p ct (top t1) (top t2))).
    { rewrite Et in H |- *. rewrite top_mk. by apply repr_get in H as (-> & _). }
    rewrite Ha. nomatch. rewrite parent_cell by done.
    destruct (child_side _ _ _ _ _ _ _ _ H Ht) as (n & Hgp & _ & _ & Hred & Hpp & Hp0).
    rewrite decide_False, Hgp by done. nomatch. rewrite Hred, bool_decide_true, Hpp by done. cbn [up].
    pose proof (repr_up _ _ _ _ _ _ _ _ H) as Hup. destruct (grand_cell _ _ _ _ _ _ _ _ _ _ _ H) as (ng & Hgg & _).
    rewrite Hgg. nomatch.
    pose proof (left_test _ _ _ _ _ _ _ _ _ Hup (mk_nonnil _ _ _ _ _) Hgg) as Hside. rewrite top_mk in Hside.
    rewrite Hside.
    apply black_root_tail, black_root_tail in Hbr. cbn [length] in Hf. cbn [fixup]. destruct (color_of u) eqn:Eu.
    + destruct u as [|cu ul ua ur]; [done|]. cbn in Eu. subst cu.
      destruct (turn_red _ _ _ _ _ _ _ _ _ _ _ Ht H ul ua ur eq_refl) as (s2 & -> & H2 & Z2). nomatch.
      destruct (IH k ltac:(cbn; lia) fuel s2 _ R ltac:(lia) (mk_nonnil _ _ _ _ _) Hbr H2) as (s3 & E3 & H3 & Z3).
      rewrite top_mk in E3.
      exists s3. split; [done|]. split; [done|lia].
    + destruct (turn_black _ _ _ _ _ _ _ _ _ _ _ Ht H Eu) as (t' & b & u' & s2 & Eb & Ht' & -> & H2 & Z2). nomatch.
      pose proof (repr_down _ _ _ _ _ _ _ _ H2) as H2'. destruct fuel as [|fuel]; [lia|].
      rewrite (insert_stops _ _ _ _ _ H2' Ht') by done.
      exists s2. split; [done|]. split; [|done]. apply repr_plug in H2. rewrite <- Eb in H2.
      destruct u as [|[|] ? ? ?]; done.
  - rewrite (insert_stops _ _ _ _ _ H Ht) by done. exists s. split; [done|]. split; [|done]. by apply repr_plug in H.
  - rewrite (insert_stops _ _ _ _ _ H Ht) by done. exists s. split; [done|]. split; [|done]. by apply repr_plug in H.
Qed.

(** ** Order *)

Fixpoint inorder (t : tree) : list Z :=
  match t with E => [] | T _ l a r => inorder l ++ a :: inorder r end.

Lemma inorder_mk d c c' t a u : inorder (mk d c t a u) = inorder (mk d c' t a u).
Proof. by destruct d. Qed.

Lemma inorder_plug k : forall t t', inorder t = inorder t' -> inorder (plug k t) = inorder (plug k t').
Proof.
  induction k as [|[[[d c] a] u] k IH]; intros t t' H; [done|]. cbn. apply IH. destruct d; cbn; by rewrite H.
Qed.

Lemma inorder_balance d1 d2 t p s g u c c' : t <> E ->
  inorder (balance d1 d2 t p s g u) = inorder (mk d2 c (mk d1 c' t p s) g u).
Proof.
  intros Ht. destruct (decide (d1 = d2)) as [->|Hd].
  - rewrite balance_outer. destruct d2; cbn; by rewrite <- !app_assoc.
  - assert (d1 = opp d2) as -> by (by destruct d1, d2). destruct (tree_mk d2 t) as [->|(ct & t1 & a & t2 & ->)]; [done|].
    rewrite balance_inner. destruct d2; cbn; rewrite <- ?app_assoc; cbn; by rewrite <- ?app_assoc.
Qed.

Lemma inorder_fixup k : forall t, t <> E -> inorder (fixup t k) = inorder (plug k t).
Proof.
  induction k as [k IH] using (induction_ltof1 _ (@length _)). unfold ltof in IH. intros t Ht.
  destruct k as [|[[[d1 [|]] p] s] [|[[[d2 c] g] u] k]]; try done. cbn [fixup plug foldl plug1].
  destruct u as [|[|] ul ua ur]; [by apply inorder_plug, inorder_balance| |by apply inorder_plug, inorder_balance].
  rewrite IH by (try apply mk_nonnil; cbn; lia). apply inorder_plug. destruct d1, d2; done.
Qed.

Lemma inorder_blacken t : inorder (blacken t) = inorder t.
Proof. by destruct t. Qed.

(** ** Balance *)

(** [wf t n]: no red node has a red child, and every way down meets [n] black nodes. *)
Inductive wf : tree -> nat -> Prop :=
  | wf_E : wf E 0
  | wf_B l a r n : wf l n -> wf r n -> wf (T Black l a r) (S n)
  | wf_R l a r n : wf l n -> wf r n -> color_of l = Black -> color_of r = Black -> wf (T Red l a r) n.

Lemma wf_black d t a u n : wf (mk d Black t a u) (S n) <-> wf t n /\ wf u n.
Proof. destruct d; cbn; (split; [inversion 1; auto|intros [? ?]; by constructor]). Qed.

Lemma wf_red d t a u n : wf (mk d Red t a u) n <-> wf t n /\ wf u n /\ color_of t = Black /\ color_of u = Black.
Proof. destruct d; cbn; (split; [inversion 1; auto|intros (? & ? & ? & ?); by constructor]). Qed.

Lemma wf_black_inv d t a u n : wf (mk d Black t a u) n -> exists m, n = S m /\ wf t m /\ wf u m.
Proof. destruct d; inversion 1; subst; eauto. Qed.

Definition head_color (k : context) : option color := match k with [] => None | (_, c, _, _) :: _ => Some c end.

(** [wfc k n N]: with a black tree of height [n] in it the context is such a tree of height [N], and its
    root is black. *)
Fixpoint wfc (k : context) (n N : nat) : Prop :=
  match k with
  | [] => n = N
  | (_, Black, _, u) :: k' => wf u n /\ wfc k' (S n) N
  | (_, Red, _, u) :: k' => wf u n /\ color_of u = Black /\ head_color k' = Some Black /\ wfc k' n N
  end.

Lemma wf_plug k : forall t n N, wf t n -> wfc k n N -> color_of t = Black \/ head_color k <> Some Red -> wf (plug k t) N.
Proof.
  induction k as [|[[[d [|]] a] u] k IH]; intros t n N Ht Hk Hc; cbn in Hk.
  - by subst.
  - destruct Hk as (Hu & Hcu & Hh & Hk). destruct Hc as [Hc|Hc]; [|done]. cbn. apply (IH _ n); [|done|].
    + by apply wf_red.
    + right. by rewrite Hh.
  - destruct Hk as (Hu & Hk). cbn. apply (IH _ (S n)); [by apply wf_black|done|left; apply color_mk].
Qed.

(** A red node is put where a black tree was: only its parent may clash with it. *)
Lemma wf_fixup k : forall t n N, wf t n -> color_of t = Red -> wfc k n N -> wf (fixup t k) N.
Proof.
  induction k as [k IH] using (induction_ltof1 _ (@length _)). unfold ltof in IH. intros t n N Ht Hc Hk.
  destruct k as [|[[[d1 [|]] p] s] [|[[[d2 c] g] u] k]]; try (eapply wf_plug; [done|done|by right]).
  - by destruct Hk as (_ & _ & Hh & _).
  - cbn [wfc head_color] in Hk. destruct Hk as (Hs & Hcs & [= ->] & Hu & Hk). cbn [fixup].
    assert (Hbal : color_of u = Black -> wf (plug k (balance d1 d2 t p s g u)) N).
    { intros Hcu. assert (Hb : wf (balance d1 d2 t p s g u) (S n) /\ color_of (balance d1 d2 t p s g u) = Black).
      - destruct (decide (d1 = d2)) as [->|Hd].
        + rewrite balance_outer, wf_black, wf_red, color_mk. by split_and!.
        + assert (d1 = opp d2) as -> by (by destruct d1, d2).
          destruct (tree_mk d2 t) as [->|(ct & t1 & a & t2 & ->)]; [done|].
          rewrite color_mk in Hc. subst ct. apply wf_red in Ht as (H1 & H2 & C1 & C2).
          rewrite balance_inner, wf_black, !wf_red, color_mk. by split_and!.
      - destruct Hb as [Hb Hcb]. eapply wf_plug; [done|done|by left]. }
    destruct u as [|[|] ul ua ur]; [by apply Hbal| |by apply Hbal].
    apply (IH k ltac:(cbn; lia) _ (S n)); [|apply color_mk|done]. apply wf_red. inversion Hu; subst.
    rewrite wf_black, color_mk. split_and!; auto.
    by constructor.
Qed.

Lemma wf_blacken t n : wf t n -> exists m, wf (blacken t) m.
Proof. destruct 1; [exists 0%nat|exists (S n)|exists (S n)]; by constructor. Qed.

Lemma wfc_black_root k : forall n N, wfc k n N -> black_root k.
Proof.
  induction k as [|[[[d c] a] u] k IH]; intros n N H; [done|]. destruct k as [|f k].
  - destruct c; cbn in H; [by destruct H as (_ & _ & ? & _)|done].
  - unfold black_root. rewrite last_cons_cons. destruct c; cbn [wfc] in H; eapply IH; apply H.
Qed.

(** ** Insertion as a whole *)

Definition link_of (k : context) : option side := match k with [] => None | (d, _, _, _) :: _ => Some d end.

(** A new node is linked where the context has room. *)
Lemma link_spec s k x n R : repr s k E ((x, n) :: R) ->
  exists s', rb_link_node s x (up k) (link_of k) = Some s' /\ repr s' k (T Red E x E) R /\
    size (cells s') = size (cells s).
Proof.
  intros H. pose proof (up_aligned _ _ _ _ H) as Hp. destruct H as [H Hr]. cbn [entries app top] in H.
  unfold rb_link_node.
  hold_as H ((x, n) :: centries k 0 ++ R).
  destruct (holds_upd _ _ _ _ (fun _ => Node (up k) 0 0) H) as (s1 & -> & H1 & Hr1 & Z1). nomatch.
  assert (Ec : Node (up k) 0 0 = cell Left (up k) Red 0 0) by (unfold cell, pack; cbn; by rewrite Z.add_0_r).
  rewrite Ec in H1.
  destruct k as [|[[[d c] a] u] k].
  - eexists. split; [done|]. split; [|done]. split; [exact H1|done].
  - cbn [link_of up centries] in *.
    hold_as H1 ((a, cell d (up k) c 0 (top u)) :: (x, cell Left a Red 0 0) :: entries u a ++ centries k a ++ R).
    destruct (holds_upd _ _ _ _ (with_child d x) H1) as (s2 & -> & H2 & Hr2 & Z2). exists s2. split; [done|].
    split; [|lia]. split.
    + rewrite (proj1 (with_child_cell _ _ _ _ _ _)) in H2. cbn [top up centries entries app]. revert H2.
      apply holds_proper. solve_Permutation.
    + rewrite Hr2, Hr1, Hr. done.
Qed.

Lemma insert_color_spec s k t R n N : repr s k t R -> color_of t = Red -> wf t n -> wfc k n N ->
  exists s' t' M, rb_insert_color s (top t) = Some s' /\ repr s' [] t' R /\ wf t' M /\ color_of t' = Black /\
                inorder t' = inorder (plug k t) /\ size (cells s') = size (cells s).
Proof.
  intros H Hc Ht Hk. assert (Hne : t <> E) by (by intros ->). unfold rb_insert_color.
  destruct (insert_loop_spec k (S (size (cells s))) s t R) as (s1 & -> & H1 & Z1).
  { pose proof (repr_depth _ _ _ _ H). lia. }
  { done. }
  { by eapply wfc_black_root. }
  { done. }
  nomatch. pose proof (wf_fixup k t n N Ht Hc Hk) as Hw. assert (Hf : fixup t k <> E).
  { intros Ef. pose proof (inorder_fixup k t Hne) as Hi. rewrite Ef in Hi. pose proof (proj2 (repr_plug s k t R)).
      destruct t as [|ct l a r]; [done|].
    assert (Hin : forall k t, a ∈ inorder t -> a ∈ inorder (plug k t)).
    { clear. intros k. induction k as [|[[[d c] b] u] k IH]; intros t Ha; [done|]. cbn. apply IH. destruct d; cbn;
        set_solver. }
    specialize (Hin k (T ct l a r) ltac:(cbn; set_solver)). rewrite <- Hi in Hin. set_solver. }
  rewrite (proj2 H1). cbn [root_of foldl]. destruct (set_black_top _ _ _ _ H1 Hf) as (s2 & -> & H2 & Z2).
  destruct (wf_blacken _ _ Hw) as [M HM]. exists s2, (blacken (fixup t k)), M. split_and!; [done|done|done| | |lia].
  - by destruct (fixup t k).
  - by rewrite inorder_blacken, inorder_fixup.
Qed.
