(* ===== verification/RbErase.v ===== *)
(** * Red-black trees: removal

    What [__rb_erase_color] and [rb_erase] do to the tree, that the code does it, that the
    order of the other nodes is kept and balance restored. *)

From S2P Require Import Prelude RbTree RbRep RbInsert.

Open Scope Z_scope.

(** Equal sequences of subtrees and nodes. *)
Ltac same_order := cbn; repeat (rewrite <- app_assoc; cbn); rewrite ?app_nil_r; done.

(** ** One turn *)

Lemma set_black_child s k t R : repr s k t R ->
  exists s', set_black_if s (top t) = Some s' /\ repr s' k (blacken t) R /\ size (cells s') = size (cells s).
Proof.
  intros H. unfold set_black_if. destruct t as [|c l a r]; [by exists s|].
  rewrite decide_False; [by apply set_black_top|]. by apply (repr_get s k Left c l a r R).
Qed.

(** The two colours the code looks at, in the order of the sides. *)
Lemma both_black s k d c o1 b o2 R : repr s k (mk d c o1 b o2) R ->
  exists o lb rb, get s b = Some o /\ child d o = top o1 /\ child (opp d) o = top o2 /\
    null_or_black s (rb_left o) = Some lb /\ null_or_black s (rb_right o) = Some rb /\
    (lb && rb)%bool = bool_decide (color_of o1 = Black /\ color_of o2 = Black) /\
    null_or_black s (top o2) = Some (bool_decide (color_of o2 = Black)).
Proof.
  intros H. destruct (repr_get _ _ _ _ _ _ _ _ H) as (Hg & _).
  pose proof (repr_null_or_black _ _ _ _ (repr_down _ _ _ _ _ _ _ _ H)) as B1.
  pose proof (repr_null_or_black _ _ _ _ (repr_across _ _ _ _ _ _ _ _ (repr_down _ _ _ _ _ _ _ _ H))) as B2.
  rewrite Hg. destruct d; (do 3 eexists); split_and!; cbn; try done; destruct (color_of o1), (color_of o2); done.
Qed.

Section black_turn.
Context (d : side) (pc oc : color) (p b : Z) (o1 o2 t : tree) (k : context) (R : list (Z * node)) (s : store)
        (H : repr s ((d, pc, p, mk d oc o1 b o2) :: k) t R).

Lemma sibling_focus : repr s ((opp d, pc, p, t) :: k) (mk d oc o1 b o2) R.
Proof using H. by apply repr_across. Qed.

(** Both children of the sibling are black. *)
Lemma turn_up : color_of o1 = Black -> color_of o2 = Black -> exists s2,
  erase_black d s p b = Some (inl (p, up k), s2) /\ repr s2 k (mk d pc t p (mk d Red o1 b o2)) R /\
    size (cells s2) = size (cells s).
Proof using H.
  intros C1 C2. pose proof sibling_focus as Ho. unfold erase_black.
  destruct (both_black _ _ _ _ _ _ _ _ Ho) as (o & lb & rb & -> & _ & _ & El & Er & Hbb & _).
  nomatch. rewrite El, Er. nomatch. rewrite Hbb, bool_decide_true by done.
  destruct (repr_red _ _ _ _ _ _ _ _ Ho) as (s1 & -> & H1 & Z1). nomatch.
  apply repr_up in H1. rewrite mk_opp in H1. pose proof (up_aligned _ _ _ _ H1).
  destruct (repr_get _ _ _ _ _ _ _ _ H1) as (-> & _). nomatch.
  rewrite parent_cell by done. by exists s1.
Qed.

(** The far child of the sibling is red. *)
Lemma turn_far : color_of o2 = Red -> exists s2,
  erase_black d s p b = Some (inr (rb_node s2), s2) /\ repr s2 k (mk d pc (mk d Black t p o1) b (blacken o2)) R /\
    size (cells s2) = size (cells s).
Proof using H.
  intros C2. pose proof sibling_focus as Ho. unfold erase_black.
  destruct (both_black _ _ _ _ _ _ _ _ Ho) as (o & lb & rb & -> & _ & Hfar & El & Er & Hbb & Hnb).
  nomatch. rewrite El, Er. nomatch. rewrite Hbb, bool_decide_false by (rewrite C2; intros []; done).
  rewrite Hfar, Hnb, C2. nomatch. rewrite bool_decide_false by done. nomatch.
  pose proof (up_aligned _ _ _ _ (repr_up _ _ _ _ _ _ _ _ H)).
  destruct (repr_get _ _ _ _ _ _ _ _ (repr_up _ _ _ _ _ _ _ _ H)) as (-> & _). nomatch.
  rewrite color_cell by done. destruct (repr_color _ _ _ _ pc _ _ _ _ Ho) as (s1 & -> & H1 & Z1). nomatch.
  apply repr_up in H1. destruct (repr_black _ _ _ _ _ _ _ _ H1) as (s2 & -> & H2 & Z2). nomatch. apply repr_down in H2.
  destruct (repr_get _ _ _ _ _ _ _ _ H2) as (-> & _). nomatch. rewrite (proj2 (child_cell _ _ _ _ _)).
  apply repr_down, repr_across in H2. destruct (set_black_child _ _ _ _ H2) as (s3 & -> & H3 & Z3). nomatch.
  apply repr_up in H3. rewrite mk_opp in H3. apply repr_up in H3. rewrite mk_opp in H3.
  destruct (repr_rotate _ _ _ _ _ _ _ _ _ _ _ H3) as (s4 & -> & H4 & Z4). nomatch. exists s4. split; [done|].
  split; [done|lia].
Qed.

(** Only the near one is. *)
Lemma turn_near x n y : color_of o2 = Black -> o1 = mk d Red x n y -> exists s2,
  erase_black d s p b = Some (inr (rb_node s2), s2) /\ repr s2 k (mk d pc (mk d Black t p x) n (mk d Black y b o2)) R
    /\ size (cells s2) = size (cells s).
Proof using H.
  intros C2 E1. pose proof sibling_focus as Ho. unfold erase_black.
  destruct (both_black _ _ _ _ _ _ _ _ Ho) as (o & lb & rb & -> & Hnear & Hfar & El & Er & Hbb & Hnb).
  nomatch. rewrite El, Er. nomatch. rewrite Hbb, bool_decide_false by (rewrite E1, color_mk; intros []; done).
  rewrite Hfar, Hnb, C2. nomatch. rewrite bool_decide_true by done.
  rewrite Hnear. pose proof (up_aligned _ _ _ _ (repr_up _ _ _ _ _ _ _ _ H)) as Hp. rewrite E1 in Ho |- *.
  destruct (set_black_child _ _ _ _ (repr_down _ _ _ _ _ _ _ _ Ho)) as (s1 & -> & H1 & Z1). nomatch. apply repr_up in H1.
  assert (Eb : blacken (mk d Red x n y) = mk d Black x n y) by (by destruct d). rewrite Eb in H1.
  destruct (repr_red _ _ _ _ _ _ _ _ H1) as (s2 & -> & H2 & Z2). nomatch.
  rewrite <- (mk_opp d Black), <- (mk_opp d Red) in H2.
  destruct (repr_rotate _ _ _ _ _ _ _ _ _ _ _ H2) as (s3 & -> & H3 & Z3). nomatch. rewrite !mk_opp in H3.
  destruct (repr_get _ _ _ _ _ _ _ _ (repr_up _ _ _ _ _ _ _ _ H3)) as (Hgp & _). rewrite Hgp. nomatch. rewrite Hgp.
  nomatch.
  rewrite (proj1 (child_cell _ _ _ _ _)), color_cell, top_mk by done.
  destruct (repr_color _ _ _ _ pc _ _ _ _ H3) as (s4 & -> & H4 & Z4). nomatch.
  apply repr_up in H4. destruct (repr_black _ _ _ _ _ _ _ _ H4) as (s5 & -> & H5 & Z5). nomatch. apply repr_down in H5.
  destruct (repr_get _ _ _ _ _ _ _ _ H5) as (-> & _). nomatch. rewrite (proj2 (child_cell _ _ _ _ _)).
  apply repr_down, repr_across in H5. destruct (set_black_child _ _ _ _ H5) as (s6 & -> & H6 & Z6). nomatch.
  apply repr_up in H6. rewrite mk_opp in H6. apply repr_up in H6. rewrite mk_opp in H6.
  assert (Eb' : blacken (mk d Red y b o2) = mk d Black y b o2) by (by destruct d). rewrite Eb' in H6.
  destruct (repr_rotate _ _ _ _ _ _ _ _ _ _ _ H6) as (s7 & -> & H7 & Z7). nomatch. exists s7. split; [done|].
  split; [done|lia].
Qed.
End black_turn.

(** ** The loop *)

Lemma root_in k : forall x, k <> [] -> exists n, (root_of k x, n) ∈ centries k x.
Proof.
  induction k as [|[[[d c] a] u] k IH]; intros x Hk; [done|]. destruct k as [|f k].
  - eexists. apply list_elem_of_here.
  - change (root_of ((d, c, a, u) :: f :: k) x) with (root_of (f :: k) a). destruct (IH a) as [n Hn]; [done|]. exists n.
    apply list_elem_of_further, elem_of_app. by right.
Qed.

Lemma not_root s k t R : repr s k t R -> k <> [] -> top t <> rb_node s.
Proof.
  intros [H Hr] Hk. rewrite Hr. destruct (root_in k (top t) Hk) as [n Hn]. destruct t as [|c l a r]; cbn [top] in *.
  - destruct H as [_ Hf]. rewrite Forall_forall in Hf. intros E0. rewrite <- E0 in Hn. specialize (Hf (0, n)).
    destruct Hf as [H0 _]; [|done]. cbn [entries app]. apply elem_of_app. by left.
  - intros Ea. rewrite <- Ea in Hn. cbn [entries app] in H. apply (holds_ne _ _ _ _ a n H); [|done].
    rewrite !elem_of_app. auto.
Qed.

Lemma root_top s t R : repr s [] t R -> rb_node s = top t.
Proof. by intros [_ Hr]. Qed.

(** The sibling of the node in focus is there, so that the code finds out on which side it is. *)
Lemma side_test s k d c a u t R n : repr s ((d, c, a, u) :: k) t R -> u <> E -> get s a = Some n ->
  (if decide (rb_left n = top t) then Left else Right) = d /\ child (opp d) n = top u.
Proof.
  intros H Hu Hg. destruct (child_side _ _ _ _ _ _ _ _ (repr_across _ _ _ _ _ _ _ _ H) Hu) as (n' & Hg' & H1 & H2 & _).
  rewrite Hg in Hg'. injection Hg' as <-. rewrite opp_opp in H2.
  pose proof (repr_get _ _ _ _ _ _ _ _ (repr_up _ _ _ _ _ _ _ _ H)) as (Hc & _).
  rewrite Hg in Hc. injection Hc as ->. destruct d; cbn in *; case_decide; done.
Qed.

(** One black node short of height [S n], unless it is red. *)
Definition short (t : tree) (n : nat) : Prop := (wf t n /\ color_of t = Black) \/ (color_of t = Red /\ wf (blacken t) (S n)).

Lemma color_plug k t : k <> [] -> black_root k -> color_of (plug k t) = Black.
Proof.
  revert t. induction k as [|[[[d c] a] u] k IH]; intros t Hk Hb; [done|]. cbn. destruct k as [|f k].
  - cbn. rewrite color_mk. by destruct c.
  - apply IH; [done|]. by eapply black_root_tail.
Qed.

(** What the loop leads to: the node it ends with is blackened. *)
Definition ends_in (s : store) (R : list (Z * node)) (x : Z) (s' : store) (l : list Z) : Prop :=
  exists s2 t2 M, set_black_if s' x = Some s2 /\ repr s2 [] t2 R /\ wf t2 M /\ color_of t2 = Black /\ inorder t2 = l /\
                  size (cells s2) = size (cells s).

Lemma erase_stops fuel s k t R n N : repr s k t R -> short t n -> wfc k (S n) N -> k = [] \/ color_of t = Red ->
  erase_loop (S fuel) s (top t) (up k) = Some (top t, s) /\ ends_in s R (top t) s (inorder (plug k t)).
Proof.
  intros H Hsh Hk Hstop. split.
  - cbn [erase_loop]. rewrite (repr_null_or_black _ _ _ _ H). nomatch. destruct Hstop as [-> | ->].
    + rewrite (root_top _ _ _ H), (bool_decide_false (top t <> top t)), andb_false_r by (intros []; done). done.
    + rewrite bool_decide_false by done. done.
  - destruct (set_black_child _ _ _ _ H) as (s2 & Es & H2 & Z2). apply repr_plug in H2.
    destruct (decide (k = [])) as [->|Hne].
    + assert (exists M, wf (blacken t) M) as [M HM] by (destruct Hsh as [[Ht _]|[_ Ht]]; [by eapply wf_blacken|eauto]).
      exists s2, (blacken t), M. split_and!; [done|done|done|by destruct t|by rewrite inorder_blacken|done].
    + destruct Hstop as [->|Hr]; [done|]. destruct Hsh as [[_ Hb]|[_ Ht]]; [congruence|].
      exists s2, (plug k (blacken t)), N. split_and!; [done|done| | | |done].
      * eapply wf_plug; [done|done|]. left. by destruct t.
      * apply color_plug; [done|]. by eapply wfc_black_root.
      * apply inorder_plug, inorder_blacken.
Qed.

(** The last turn ends at the root. *)
Lemma turn_ends s s2 k t R n N l : repr s2 k t R -> wf t n -> wfc k n N ->
  color_of t = Black \/ head_color k <> Some Red ->
  inorder (plug k t) = l -> size (cells s2) = size (cells s) -> ends_in s R (rb_node s2) s2 l.
Proof.
  intros H Ht Hk Hc Hl Hz. apply repr_plug in H. rewrite (root_top _ _ _ H).
  destruct (set_black_child _ _ _ _ H) as (s3 & Es & H3 & Z3).
  destruct (wf_blacken _ _ (wf_plug _ _ _ _ Ht Hk Hc)) as [M HM]. exists s3, (blacken (plug k t)), M.
  split_and!; [done|done|done|by destruct (plug k t)|by rewrite inorder_blacken|lia].
Qed.

Lemma wf_blacken_red t n : wf t n -> color_of t = Red -> wf (blacken t) (S n).
Proof. destruct 1; try done. intros _. by constructor. Qed.

(** A turn with a black sibling: up, with what is still one short, or the end. *)
Lemma black_turn_spec d pc p b o1 o2 t k s R n N :
  repr s ((d, pc, p, mk d Black o1 b o2) :: k) t R -> wf t n -> color_of t = Black -> wf o1 n -> wf o2 n ->
  wfc k (match pc with Red => S n | Black => S (S n) end) N -> (pc = Red -> head_color k = Some Black) ->
  let l := inorder (plug k (mk d pc t p (mk d Black o1 b o2))) in
  (exists s2 t2, erase_black d s p b = Some (inl (p, up k), s2) /\ repr s2 k t2 R /\ top t2 = p /\ color_of t2 = pc /\
                 short t2 (match pc with Red => n | Black => S n end) /\ inorder (plug k t2) = l /\
                   size (cells s2) = size (cells s)) \/
  (exists s2, erase_black d s p b = Some (inr (rb_node s2), s2) /\ ends_in s R (rb_node s2) s2 l).
Proof.
  intros H Ht Hct H1 H2 Hk Hpc l. destruct (color_of o2) eqn:C2; [|destruct (color_of o1) eqn:C1].
  - right. destruct (turn_far _ _ _ _ _ _ _ _ _ _ _ H C2) as (s2 & Es & Hs2 & Z2). exists s2. split; [done|].
    eapply turn_ends; [exact Hs2| |exact Hk| | |exact Z2].
    + assert (wf (blacken o2) (S n)) by (by apply wf_blacken_red).
      assert (wf (mk d Black t p o1) (S n)) by (by apply wf_black).
      destruct pc; [apply wf_red; split_and!; [done|done|apply color_mk|by destruct o2]|by apply wf_black].
    + rewrite color_mk. destruct pc; [right; by rewrite Hpc|by left].
    + apply inorder_plug. destruct d, o2; same_order.
  - right. destruct (tree_mk d o1) as [->|(cx & x & m & y & ->)]; [done|]. rewrite color_mk in C1. subst cx.
    destruct (turn_near _ _ _ _ _ _ _ _ _ _ _ H _ _ _ C2 eq_refl) as (s2 & Es & Hs2 & Z2). exists s2. split; [done|].
    apply wf_red in H1 as (Hx & Hy & _ & _). eapply turn_ends; [exact Hs2| |exact Hk| | |exact Z2].
    + assert (wf (mk d Black t p x) (S n) /\ wf (mk d Black y b o2) (S n)) as [? ?] by (rewrite !wf_black; done).
      destruct pc; [apply wf_red; split_and!; [done|done|apply color_mk|apply color_mk]|by apply wf_black].
    + rewrite color_mk. destruct pc; [right; by rewrite Hpc|by left].
    + apply inorder_plug. destruct d; same_order.
  - left. destruct (turn_up _ _ _ _ _ _ _ _ _ _ _ H C1 C2) as (s2 & Es & Hs2 & Z2).
    exists s2, (mk d pc t p (mk d Red o1 b o2)). rewrite top_mk, color_mk. split_and!; [done|done|done|done| | |done].
    + assert (wf (mk d Red o1 b o2) n) by (by apply wf_red). unfold short. rewrite color_mk.
      destruct pc; [right; split; [done|]|left; split; [|done]].
      * assert (Eb : blacken (mk d Red t p (mk d Red o1 b o2)) = mk d Black t p (mk d Red o1 b o2)) by (by destruct
          d). rewrite Eb. by apply wf_black.
      * by apply wf_black.
    + apply inorder_plug. by destruct d.
Qed.

Lemma wf_height_S t n : wf t (S n) -> t <> E.
Proof. by inversion 1. Qed.

(** A turn of the loop for a node that is black and not the root. *)
Lemma erase_turn fuel s k t R : repr s k t R -> k <> [] -> color_of t = Black ->
  erase_loop (S fuel) s (top t) (up k) =
  (p ← get s (up k); '(next, s) ← erase_case (if decide (rb_left p = top t) then Left else Right) s (up k);
   match next with inl (x, parent) => erase_loop fuel s x parent | inr x => Some (x, s) end).
Proof.
  intros H Hk Hc. cbn [erase_loop]. rewrite (repr_null_or_black _ _ _ _ H), Hc. nomatch.
  rewrite !bool_decide_true by (try done; by eapply not_root). done.
Qed.

Lemma erase_loop_spec k : forall fuel s t R n N, (length k < fuel)%nat -> repr s k t R -> short t n -> wfc k (S n) N ->
  exists x s', erase_loop fuel s (top t) (up k) = Some (x, s') /\ ends_in s R x s' (inorder (plug k t)).
Proof.
  induction k as [|[[[d pc] p] o] k IH]; intros fuel s t R n N Hf H Hsh Hk; (destruct fuel as [|fuel]; [lia|]).
  { destruct (erase_stops fuel _ _ _ _ _ _ H Hsh Hk) as [E1 E2]; [by left|]. eauto. }
  destruct (color_of t) eqn:Hc.
  { destruct (erase_stops fuel _ _ _ _ _ _ H Hsh Hk) as [E1 E2]; [by right|]. eauto. }
  destruct Hsh as [[Ht _]|[? _]]; [|congruence]. rewrite (erase_turn _ _ _ _ _ H) by done. cbn [up].
  assert (Ho : wf o (S n)) by (by destruct pc, Hk). pose proof (wf_height_S _ _ Ho) as Hone.
  destruct (repr_get _ _ _ _ _ _ _ _ (repr_up _ _ _ _ _ _ _ _ H)) as (Hgp & _). rewrite Hgp. nomatch.
  destruct (side_test _ _ _ _ _ _ _ _ _ H Hone Hgp) as [-> _]. unfold erase_case. rewrite Hgp. nomatch.
  rewrite (proj2 (child_cell _ _ _ _ _)). destruct (tree_mk d o) as [->|(oc & o1 & b & o2 & ->)]; [done|]. rewrite top_mk.
  pose proof (repr_across _ _ _ _ _ _ _ _ H) as Hs. pose proof (up_aligned _ _ _ _ Hs).
  destruct (repr_get _ _ _ _ _ _ _ _ Hs) as (-> & _). nomatch.
  rewrite is_red_cell by done. cbn [length] in Hf. destruct oc.
  - rewrite bool_decide_true by done. destruct pc; [destruct Hk as (_ & Hx & _); by rewrite color_mk in Hx|].
    destruct Hk as [_ Hk].
    apply wf_red in Ho as (W1 & W2 & C1 & C2). destruct (repr_black _ _ _ _ _ _ _ _ Hs) as (s1 & -> & H1 & Z1). nomatch.
    apply repr_up in H1. rewrite mk_opp in H1. destruct (repr_red _ _ _ _ _ _ _ _ H1) as (s2 & -> & H2 & Z2). nomatch.
    destruct (repr_rotate _ _ _ _ _ _ _ _ _ _ _ H2) as (s3 & -> & H3 & Z3). nomatch. apply repr_down in H3.
    destruct (repr_get _ _ _ _ _ _ _ _ H3) as (-> & _). nomatch. rewrite (proj2 (child_cell _ _ _ _ _)).
    destruct (tree_mk d o1) as [->|(c1 & q1 & m & q2 & ->)]; [by apply wf_height_S in W1|]. rewrite color_mk in C1.
    subst c1. rewrite top_mk.
    apply wf_black in W1 as [V1 V2]. apply repr_down in H3.
    pose proof (black_turn_spec d Red p m q1 q2 t ((d, Black, b, o2) :: k) s3 R n N H3 Ht Hc V1 V2) as HB.
    cbn [wfc head_color] in HB.
    destruct HB as [(s4 & t4 & -> & H4 & Etop & C4 & Sh4 & Hl & Z4)|(s4 & ->
      & s5 & t5 & M & Es & H5 & W5 & C5 & Hl & Z5)]; [done|done| |].
    + nomatch. destruct fuel as [|fuel]; [lia|]. rewrite <- Etop.
      destruct (erase_stops fuel _ _ _ _ n N H4 Sh4) as [-> (s5 & t5 & M & Es & H5 & W5 & C5 & Hl5 & Z5)];
        [by split|by right|].
      exists (top t4), s4. split; [done|]. exists s5, t5, M. split_and!; [done|done|done|done| |lia].
      rewrite Hl5, Hl, Etop. cbn. apply inorder_plug.
      destruct d; same_order.
    + nomatch. exists (rb_node s4), s4. split; [done|]. exists s5, t5, M. split_and!; [done|done|done|done| |lia].
      rewrite Hl. cbn. apply inorder_plug.
      destruct d; same_order.
  - rewrite bool_decide_false by done. apply wf_black in Ho as [V1 V2].
    destruct (black_turn_spec d pc p b o1 o2 t k s R n N H Ht Hc V1 V2) as [(s4 & t4 & ->
      & H4 & Etop & C4 & Sh4 & Hl & Z4)|(s4 & -> & He)].
    { by destruct pc, Hk as (_ & ?); [destruct_and!|]. }
    { intros ->. by destruct Hk as (_ & _ & ? & _). }
    + nomatch. destruct (IH fuel s4 t4 R _ N ltac:(lia) H4 Sh4) as (x & s5 & E5 & s6 & t6 & M & Es & H6 & W6 & C6 &
        Hl6 & Z6).
      { by destruct pc, Hk as (_ & ?); [destruct_and!|]. }
      rewrite Etop in E5. exists x, s5. split; [done|]. exists s6, t6, M. split_and!; [done|done|done|done| |lia].
      by rewrite Hl6, Hl.
    + nomatch. exists (rb_node s4), s4. split; [done|]. exact He.
Qed.

Lemma erase_color_spec s k t R n N : repr s k t R -> short t n -> wfc k (S n) N ->
  exists s2 t2 M, rb_erase_color s (top t) (up k) = Some s2 /\ repr s2 [] t2 R /\ wf t2 M /\ color_of t2 = Black /\
                  inorder t2 = inorder (plug k t) /\ size (cells s2) = size (cells s).
Proof.
  intros H Hsh Hk. unfold rb_erase_color. pose proof (repr_depth _ _ _ _ H).
  destruct (erase_loop_spec k (S (size (cells s))) s t R n N ltac:(lia) H Hsh Hk) as (x & s1 & ->
    & s2 & t2 & M & E & Hr & Hw & Hc & Hl & Hz).
  nomatch. exists s2, t2, M. done.
Qed.

(** ** Taking a node out *)

(** A node with at most one child is replaced by it. *)
Lemma erase_single_spec s k d c t a R : repr s k (mk d c t a E) R ->
  exists s' n, erase_single s a (top t) = Some (top t, up k, bit c, s') /\ repr s' k t ((a, n) :: R) /\
    size (cells s') = size (cells s).
Proof.
  intros H. pose proof (up_aligned _ _ _ _ H) as Hp. destruct (repr_get _ _ _ _ _ _ _ _ H) as (Hg & _ & Ha).
  unfold erase_single.
  rewrite Hg. nomatch. rewrite parent_cell, color_cell by done. destruct H as [H Hr].
  rewrite entries_mk, top_mk in H. rewrite top_mk in Hr.
  cbn [entries app top] in H. hold_as H (entries t a ++ (a, cell d (up k) c (top t) 0) :: centries k a ++ R).
  destruct (reparent _ _ _ (up k) _ H Ha Hp) as (s1 & -> & H1 & Hr1 & Z1). nomatch.
  hold_as H1 (centries k a ++ (a, cell d (up k) c (top t) 0) :: entries t (up k) ++ R).
  destruct (relink_spec Left _ _ _ _ (top t) _ H1) as (s2 & -> & H2 & Hr2 & Z2); [congruence|]. nomatch.
  exists s2, (cell d (up k) c (top t) 0). split; [done|]. split; [|lia]. split; [|done]. revert H2.
  apply holds_proper. solve_Permutation.
Qed.

Fixpoint depth (t : tree) : nat := match t with E => O | T _ l _ r => S (depth l `max` depth r) end.

Lemma depth_entries t : forall p, (depth t <= length (entries t p))%nat.
Proof.
  induction t as [|c l IHl a r IHr]; intros p; cbn; [lia|]. rewrite length_app. specialize (IHl a).
  specialize (IHr a). lia.
Qed.

(** The first node of a subtree. *)
Lemma leftmost_spec t : forall fuel s k R, t <> E -> (depth t <= fuel)%nat -> repr s k t R ->
  exists P c b r, t = plug P (T c E b r) /\ Forall (fun f : frame => f.1.1.1 = Left) P /\
    leftmost fuel s (top t) = Some b.
Proof.
  induction t as [|c l IHl a r _]; intros fuel s k R Ht Hf H; [done|]. cbn [top depth] in *.
  destruct fuel as [|fuel]; [lia|]. cbn [leftmost].
  destruct (repr_get s k Left c l a r R H) as (-> & _). nomatch. cbn [cell rb_left]. destruct l as [|cl ll al rl].
  - exists [], c, a, r. by split_and!.
  - apply (repr_down _ _ Left) in H. destruct (IHl fuel s ((Left, c, a,
      r) :: k) R) as (P & c1 & b & r1 & EP & HP & EL); [done|lia|done|].
    cbn [top]. rewrite decide_False by (by apply (repr_get s ((Left, c, a, r) :: k) Left cl ll al rl R)).
    exists (P ++ [(Left, c, a, r)]), c1, b, r1.
    split_and!; [by rewrite plug_app, <- EP|apply Forall_app; by split; [|constructor]|done].
Qed.

(** The link of the parent to the subtree in focus. *)
Lemma link_child s d c a u k x y R : holds s (centries ((d, c, a, u) :: k) x ++ R) ->
  exists s', upd s a (with_child d y) = Some s' /\ holds s' (centries ((d, c, a, u) :: k) y ++ R) /\
    rb_node s' = rb_node s /\ size (cells s') = size (cells s).
Proof.
  intros H. cbn [centries app] in *. destruct (holds_upd _ _ _ _ (with_child d y) H) as (s' & E & H' & Hr & Hz).
  exists s'.
  rewrite (proj1 (with_child_cell _ _ _ _ _ _)) in H'. done.
Qed.

Lemma root_of_frames P f k x y : root_of (P ++ f :: k) x = root_of (P ++ f :: k) y.
Proof. unfold root_of. rewrite !foldl_app. cbn. by destruct f as [[[? ?] ?] ?]. Qed.

Lemma frame_in P d c a u k : forall x, exists m, (a, m) ∈ centries (P ++ (d, c, a, u) :: k) x.
Proof.
  induction P as [|[[[d1 c1] a1] u1] P IH]; intros x; cbn [app centries].
  - eexists. apply list_elem_of_here.
  - destruct (IH a1) as [m Hm]. exists m. apply list_elem_of_further, elem_of_app. by right.
Qed.

(** Unlinking the successor [b] of [old]. *)
Lemma unlink_spec s P k c old l cb b br R : Forall (fun f : frame => f.1.1.1 = Left) P ->
  repr s (P ++ (Right, c, old, l) :: k) (T cb E b br) R ->
  let parent := up (P ++ (Right, c, old, l) :: k) in
  exists s' n, (s ← set_parent_of s (top br) parent;
                if decide (parent = old) then s ← upd s parent (with_child Right (top br)); Some (b, s)
                else s ← upd s parent (with_child Left (top br)); Some (parent, s)) = Some (up (P ++ (Right, c, b,
                  l) :: k), s') /\
    repr s' (P ++ (Right, c, old, l) :: k) br ((b, n) :: R) /\ size (cells s') = size (cells s).
Proof.
  intros HP H parent. pose proof (up_aligned _ _ _ _ H) as Hp. fold parent in Hp.
  destruct (repr_get s _ Left cb E b br R H) as (_ & _ & Hb).
  destruct H as [H Hr]. cbn [entries top app] in H. fold parent in H.
  hold_as H (entries br b ++ (b, cell Left parent cb 0 (top br)) :: centries (P ++ (Right, c, old, l) :: k) b ++ R).
  destruct (reparent _ _ _ parent _ H Hb Hp) as (s1 & -> & H1 & Hr1 & Z1). nomatch. unfold parent in *.
  destruct P as [|[[[d c1] p1] u1] P]; cbn [app up] in *.
  - rewrite decide_True by done. hold_as H1 (centries ((Right, c, old, l) :: k) b ++ (b,
      cell Left old cb 0 (top br)) :: entries br old ++ R).
    destruct (link_child _ _ _ _ _ _ _ (top br) _ H1) as (s2 & -> & H2 & Hr2 & Z2). nomatch.
    exists s2, (cell Left old cb 0 (top br)). split; [done|]. split; [|lia]. split; [|by rewrite Hr2, Hr1, Hr].
    revert H2. apply holds_proper. cbn [up]. solve_Permutation.
  - apply Forall_cons in HP as [E1 HP]. cbn in E1. subst d. set (K := P ++ (Right, c, old, l) :: k) in *.
    assert (Hold : p1 <> old).
    { intros ->.
      hold_as H1 (centries ((Left, c1, old, u1) :: K) b ++ (b, cell Left old cb 0 (top br)) :: entries br old ++ R).
      cbn [centries app] in H1.
      pose proof (frame_in P Right c old l k old) as Hin. fold K in Hin.
      destruct Hin as [m Hm]. apply (holds_ne _ _ _ _ old m H1); [|done]. rewrite !elem_of_app. auto. }
    rewrite decide_False by done. hold_as H1 (centries ((Left, c1, p1, u1) :: K) b ++ (b,
      cell Left p1 cb 0 (top br)) :: entries br p1 ++ R).
    destruct (link_child _ _ _ _ _ _ _ (top br) _ H1) as (s2 & -> & H2 & Hr2 & Z2). nomatch.
    exists s2, (cell Left p1 cb 0 (top br)). split; [done|]. split; [|lia]. split.
    + revert H2. apply holds_proper. cbn [up]. solve_Permutation.
    + rewrite Hr2, Hr1, Hr. cbn [top]. apply (root_of_frames ((Left, c1, p1, u1) :: P)).
Qed.

Lemma depth_le s k t R : repr s k t R -> (depth t <= size (cells s))%nat.
Proof. intros [H _]. apply holds_size in H. rewrite length_app in H. pose proof (depth_entries t (up k)). lia. Qed.

(** [b], the first node of the right subtree, takes the place of [old]. *)
Lemma erase_swap_spec s k c l old r R : repr s k (T c l old r) R -> l <> E -> r <> E ->
  exists P cb b br s' n, r = plug P (T cb E b br) /\ Forall (fun f : frame => f.1.1.1 = Left) P /\
    erase_swap s old = Some (top br, up (P ++ (Right, c, b, l) :: k), bit cb, s') /\
    repr s' (P ++ (Right, c, b, l) :: k) br ((old, n) :: R) /\ size (cells s') = size (cells s).
Proof.
  intros H Hl Hr0. destruct (repr_get s k Right c r old l R H) as (Hg & _ & Hoa).
  pose proof (up_aligned _ _ _ _ H) as Hpk.
  apply (repr_down _ _ Right) in H.
  destruct (leftmost_spec r (size (cells s)) s _ R Hr0 (depth_le _ _ _ _ H) H) as (P & cb & b & br & -> & HP & EL).
  exists P, cb, b, br. unfold erase_swap. rewrite Hg. nomatch. cbn [cell rb_right]. rewrite EL. nomatch.
  assert (H1 : repr s (P ++ (Right, c, old, l) :: k) (T cb E b br) R) by (rewrite repr_plug, plug_app, <- repr_plug;
    done).
  pose proof (up_aligned _ _ _ _ H1). destruct (repr_get s _ Left cb E b br R H1) as (-> & _ & Hba). nomatch.
  rewrite parent_cell, color_cell by done. cbn [cell rb_right].
  destruct (unlink_spec _ _ _ _ _ _ _ _ _ _ HP H1) as (s1 & nb & E1 & H2 & Z1). cbv zeta in E1.
  destruct (set_parent_of s (top br) (up (P ++ (Right, c, old, l) :: k))) as [s0|] eqn:E0; [|done].
  cbn [mbind option_bind] in E1 |- *. rewrite E1. nomatch. clear E0 E1.
  rewrite repr_plug, plug_app, <- repr_plug in H2. set (r := plug P br) in *. apply repr_up in H2.
  destruct (repr_get _ _ _ _ _ _ _ _ H2) as (-> & _). nomatch. destruct H2 as [H2 Hrt].
  rewrite entries_mk, top_mk in H2. rewrite top_mk in Hrt.
  set (o := cell Right (up k) c (top r) (top l)) in *.
  hold_as H2 ((b, nb) :: (old, o) :: entries r old ++ entries l old ++ centries k old ++ R).
  destruct (holds_upd _ _ _ _ (fun _ => o) H2) as (s2 & -> & H3 & Hr3 & Z3). nomatch.
  assert (Eo : rb_parent o = up k) by (by apply parent_cell). rewrite Eo.
  hold_as H3 (centries k old ++ (old, o) :: (b, o) :: entries r old ++ entries l old ++ R).
  destruct (relink_spec Left _ _ _ _ b _ H3) as (s3 & -> & H4 & Hr4 & Z4); [congruence|]. nomatch.
  hold_as H4 ((old, o) :: entries l old ++ (b, o) :: entries r old ++ centries k b ++ R).
  destruct (holds_get _ _ _ _ H4) as (-> & _). nomatch. change (rb_left o) with (top l). change (rb_right o) with (top r).
  hold_as H4 (entries l old ++ (old, o) :: (b, o) :: entries r old ++ centries k b ++ R).
  destruct (reparent _ _ _ b _ H4 Hoa Hba) as (s4 & E4 & H5 & Hr5 & Z5).
  assert (Hl0 : top l <> 0).
  { destruct l as [|cl ll al rl]; [done|]. cbn [entries app] in H5. by apply holds_get in H5 as (_ & ? & _). }
  unfold set_parent_of in E4. rewrite decide_False in E4 by done. rewrite E4. nomatch.
  hold_as H5 (entries r old ++ (old, o) :: (b, o) :: entries l b ++ centries k b ++ R).
  destruct (reparent _ _ _ b _ H5 Hoa Hba) as (s5 & -> & H6 & Hr6 & Z6). nomatch. exists s5, o.
  split_and!; [done|done|done| |lia].
  rewrite repr_plug, plug_app, <- repr_plug. apply repr_down. split.
  - rewrite entries_mk, top_mk. revert H6. apply holds_proper. fold r o. solve_Permutation.
  - rewrite top_mk. congruence.
Qed.

(** ** Balance and order *)

Lemma wf_unplug k : forall t N, wf (plug k t) N -> color_of (plug k t) = Black ->
  exists n, wf t n /\ wfc k n N /\ (color_of t = Black \/ head_color k = Some Black).
Proof.
  induction k as [|[[[d c] a] u] k IH]; intros t N H Hc; [exists N; by split_and!; [..|left]|]. cbn in H, Hc.
  destruct (IH _ _ H Hc) as (n & Hm & Hk & Hcol).
  rewrite color_mk in Hcol. destruct c.
  - apply wf_red in Hm as (Ht & Hu & Ct & Cu). exists n. destruct Hcol as [?|Hh]; [done|]. cbn. by split_and!; [..|left].
  - apply wf_black_inv in Hm as (m & -> & Ht & Hu). exists m. cbn. by split_and!; [..|right].
Qed.

Lemma wfc_address P d c a b u k : forall n N, wfc (P ++ (d, c, a, u) :: k) n N -> wfc (P ++ (d, c, b, u) :: k) n N.
Proof.
  induction P as [|[[[d1 c1] a1] u1] P IH]; intros n N H; cbn in H |- *; [done|].
  destruct c1; destruct_and!; split_and!; auto.
  by destruct P as [|[[[? ?] ?] ?] P].
Qed.

Lemma plug_cons f k t : plug (f :: k) t = plug k (plug1 f t).
Proof. done. Qed.

Lemma inorder_context k : exists A B, forall t, inorder (plug k t) = A ++ inorder t ++ B.
Proof.
  induction k as [|[[[d c] a] u] k (A & B & IH)]; [exists [], []; intros t; by rewrite app_nil_r|]. destruct d.
  - exists A, (a :: inorder u ++ B). intros t. rewrite plug_cons, IH. same_order.
  - exists (A ++ inorder u ++ [a]), B. intros t. rewrite plug_cons, IH. same_order.
Qed.

Lemma inorder_lefts P : Forall (fun f : frame => f.1.1.1 = Left) P -> exists B, forall t,
  inorder (plug P t) = inorder t ++ B.
Proof.
  induction 1 as [|[[[d c] a] u] P Hd HP [B IH]]; [exists []; intros t; by rewrite app_nil_r|]. cbn in Hd. subst d.
  exists (a :: inorder u ++ B). intros t. rewrite plug_cons, IH. same_order.
Qed.

(** The node [a] is gone from the order, and the rest is balanced. *)
Definition removed (s : store) (res : option store) (R : list (Z * node)) (l : list Z) (a : Z) : Prop :=
  exists s' t' M n A B, res = Some s' /\ repr s' [] t' ((a, n) :: R) /\ wf t' M /\ color_of t' = Black /\
                        l = A ++ a :: B /\ inorder t' = A ++ B /\ size (cells s') = size (cells s).

(** What is left of a node of colour [c] with one child [t] or none. *)
Lemma lone_child d c t a n : wf (mk d c t a E) n ->
  match c with Red => wf t n /\ color_of t = Black | Black => exists m, n = S m /\ short t m end.
Proof.
  intros H. destruct c.
  - apply wf_red in H as (Ht & He & Hc & _). done.
  - apply wf_black_inv in H as (m & -> & Ht & He). exists m. split; [done|]. inversion He; subst.
    destruct (color_of t) eqn:Hc; [right; split; [done|]; by apply wf_blacken_red|by left].
Qed.

(** The end of [rb_erase]: a black node left a gap below [k], a red one did not. *)
Lemma erase_end s s0 k t R c n N a na A B l :
  repr s k t ((a, na) :: R) -> match c with Red => wf t n /\ color_of t = Black | Black => exists m, n = S m /\
    short t m end ->
  wfc k n N -> (c = Red -> k <> []) -> l = A ++ a :: B -> inorder (plug k t) = A ++ B ->
    size (cells s) = size (cells s0) ->
  removed s0 (if decide (bit c = RB_BLACK) then rb_erase_color s (top t) (up k) else Some s) R l a.
Proof.
  intros H Ht Hk Hne Hl Hi Hz. destruct c.
  - destruct Ht as [Ht Hc]. exists s, (plug k t), N, na, A, B.
    split_and!; [done|by apply (proj1 (repr_plug _ _ _ _))| | |done|done|done].
    + eapply wf_plug; [done|done|by left].
    + apply color_plug; [by apply Hne|by eapply wfc_black_root].
  - destruct Ht as (m & -> & Ht). rewrite decide_True by done.
    destruct (erase_color_spec _ _ _ _ _ _ H Ht Hk) as (s2 & t2 & M & E & H2 & W2 & C2 & I2 & Z2).
    exists s2, t2, M, na, A, B. split_and!; [done|done|done|done|done|by rewrite I2|lia].
Qed.

Lemma erase_spec s k c l a r R N : repr s k (T c l a r) R -> wf (plug k (T c l a r)) N ->
  color_of (plug k (T c l a r)) = Black ->
  removed s (rb_erase s a) R (inorder (plug k (T c l a r))) a.
Proof.
  intros H HW HC. destruct (repr_get s k Left c l a r R H) as (Hg & _). unfold rb_erase. rewrite Hg. nomatch.
  cbn [cell rb_left rb_right].
  destruct (inorder_context k) as (A & B & HI). rewrite HI.
  assert (Hz : forall t, t <> E -> forall s k R, repr s k t R -> top t <> 0).
  { intros [|ct lt at_ rt] Ht s0 k0 R0 H0; [done|]. by apply (repr_get s0 k0 Left ct lt at_ rt R0). }
  assert (Hsingle : forall d t, T c l a r = mk d c t a E -> removed s ('(c, parent, color, s) ← erase_single s a (top t);
            if decide (color = RB_BLACK) then rb_erase_color s c parent else Some s) R (A ++ inorder (T c l a r) ++ B) a).
  { intros d t Et. rewrite Et in H, HW, HC. destruct (erase_single_spec _ _ _ _ _ _ _ H) as (s1 & n1 & ->
      & H1 & Z1). nomatch.
    destruct (wf_unplug _ _ _ HW HC) as (n & Hwt & Hk & Hcol). rewrite color_mk in Hcol. rewrite Et.
    destruct (erase_end s1 s k t R c n N a n1 (A ++ match d with Left => inorder t | Right => [] end)
                (match d with Left => B | Right => inorder t ++ B end) (A ++ inorder (mk d c t a E) ++ B)) as (s2 &
                  Hs2); [done| |done| | | |done|by exists s2].
    - by apply (lone_child d c t a).
    - intros -> ->. cbn in Hcol. by destruct Hcol.
    - destruct d; same_order.
    - rewrite HI. destruct d; same_order. }
  destruct (decide (top l = 0)) as [El|El].
  { assert (l = E) as ->; [|by apply (Hsingle Right)]. destruct l as [|cl ll al rl]; [done|]. exfalso. revert El.
    eapply Hz; [|by apply (repr_down _ _ Left) in H]. done. }
  destruct (decide (top r = 0)) as [Er|Er].
  { assert (r = E) as ->; [|by apply (Hsingle Left)]. destruct r as [|cr lr ar rr]; [done|]. exfalso. revert Er.
    eapply Hz; [|by apply (repr_down _ _ Right) in H]. done. }
  destruct (erase_swap_spec _ _ _ _ _ _ _ H) as (P & cb & b & br & s1 & n1 & -> & HP & -> & H1 & Z1);
    [by intros ->|by intros ->|]. nomatch.
  assert (EW : plug k (T c l a (plug P (T cb E b br))) = plug (P ++ (Right, c, a,
    l) :: k) (T cb E b br)) by (by rewrite plug_app).
  rewrite EW in HW, HC. destruct (wf_unplug _ _ _ HW HC) as (n & Hwt & Hk & Hcol).
  destruct (inorder_lefts P HP) as (B' & HB).
  eapply (erase_end s1 s _ br R cb n N a n1 (A ++ inorder l) (b :: inorder br ++ B' ++ B)); [done| | | | | |done].
  - by apply (lone_child Right cb br b).
  - by eapply wfc_address.
  - intros _. by destruct P.
  - cbn [inorder]. rewrite HB. same_order.
  - rewrite plug_app, plug_cons, HI. cbn [plug1 mk]. cbn [inorder]. rewrite HB. same_order.
Qed.
