(* ===== verification/RbSpec.v ===== *)
(** * Red-black trees: the sequence they stand for

    A store holds a balanced tree over a sequence of nodes.  Linking and balancing puts
    a node into the sequence, erasing takes one out, and first and next go along it;
    the tree stays balanced, so that no way down is longer than twice the
    logarithm of the number of nodes. *)

From S2P Require Import Prelude RbTree RbRep RbInsert RbErase.

Open Scope Z_scope.

(** The store holds a balanced tree over the sequence [l]; [R] is held besides. *)
Definition holds_seq (s : store) (l : list Z) (R : list (Z * node)) : Prop :=
  exists t N, repr s [] t R /\ wf t N /\ color_of t = Black /\ inorder t = l.

(** The place for a new node: a gap of the tree. *)
Definition gap (s : store) (k : context) (R : list (Z * node)) : Prop :=
  exists N, repr s k E R /\ wf (plug k E) N /\ color_of (plug k E) = Black.

(** ** Depth *)

Lemma depth_wf t n : wf t n -> (depth t <= 2 * n + match color_of t with Red => 1 | Black => 0 end)%nat.
Proof.
  induction 1 as [|l a r n Hl IHl Hr IHr|l a r n Hl IHl Hr IHr Cl Cr]; cbn; [lia| |].
  - destruct (color_of l), (color_of r); lia.
  - rewrite Cl in IHl. rewrite Cr in IHr. lia.
Qed.

Lemma size_wf t n : wf t n -> (2 ^ n <= S (length (inorder t)))%nat.
Proof.
  induction 1 as [|l a r n Hl IHl Hr IHr|l a r n Hl IHl Hr IHr _ _]; cbn; rewrite ?length_app; cbn; lia.
Qed.

Lemma depth_log t n : wf t n -> color_of t = Black -> (depth t <= 2 * Nat.log2 (S (length (inorder t))))%nat.
Proof.
  intros H Hc. pose proof (depth_wf _ _ H) as Hd. rewrite Hc in Hd. pose proof (size_wf _ _ H) as Hs.
  apply Nat.log2_le_mono in Hs. rewrite Nat.log2_pow2 in Hs by lia. lia.
Qed.

(** ** First and next *)

Lemma first_spec s t R : repr s [] t R -> rb_first s = Some (default 0 (head (inorder t))).
Proof.
  intros H. unfold rb_first. rewrite (root_top _ _ _ H). destruct t as [|c l a r]; [done|].
  rewrite decide_False by (by apply (repr_get s [] Left c l a r R)).
  destruct (leftmost_spec (T c l a r) (size (cells s)) s [] R) as (P & c1 & b & r1 & EP & HP & ->);
    [done|by eapply depth_le|done|].
  destruct (inorder_lefts P HP) as [B HB]. by rewrite EP, HB.
Qed.

(** What comes before and after a subtree. *)
Fixpoint before (k : context) : list Z :=
  match k with
  | [] => []
  | (Left, _, _, _) :: k' => before k'
  | (Right, _, a, u) :: k' => before k' ++ inorder u ++ [a]
  end.

Fixpoint after (k : context) : list Z :=
  match k with
  | [] => []
  | (Left, _, a, u) :: k' => a :: inorder u ++ after k'
  | (Right, _, _, _) :: k' => after k'
  end.

Lemma inorder_around k : forall t, inorder (plug k t) = before k ++ inorder t ++ after k.
Proof.
  induction k as [|[[[[|] c] a] u] k IH]; intros t; [by cbn; rewrite app_nil_r| |]; rewrite plug_cons, IH; same_order.
Qed.

Lemma around_app k f : before (k ++ [f]) = before [f] ++ before k /\ after (k ++ [f]) = after k ++ after [f].
Proof.
  induction k as [|[[[[|] c] a] u] k [IH1 IH2]]; [by rewrite app_nil_r| |]; cbn [app before after] in *; rewrite IH1,
    IH2; split; same_order.
Qed.

(** Going up from the last node of a subtree: to the first ancestor that it is on the left of. *)
Lemma climb_spec k : forall fuel s t R, (length k < fuel)%nat -> repr s k t R -> t <> E ->
  climb fuel s (top t) = Some (default 0 (head (after k))).
Proof.
  induction k as [|[[[d c] a] u] k IH]; intros fuel s t R Hf H Ht; (destruct fuel as [|fuel]; [cbn in Hf; lia|]);
    cbn [climb].
  - destruct t as [|ct l b r]; [done|]. cbn [top]. destruct (repr_get s [] Left ct l b r R H) as (-> & _). nomatch.
    rewrite parent_cell by done. cbn [up]. by rewrite decide_True by done.
  - pose proof (up_aligned _ _ _ _ H) as Hp. assert (Hg : exists n, get s (top t) = Some n /\ rb_parent n = a).
    { destruct t as [|ct l b r]; [done|]. cbn [top]. destruct (repr_get s ((d, c, a,
        u) :: k) Left ct l b r R H) as (-> & _). eexists. split; [done|]. by apply parent_cell. }
    destruct Hg as (n & -> & Epar). nomatch. rewrite Epar.
    destruct (child_side _ _ _ _ _ _ _ _ H Ht) as (p & -> & C1 & C2 & _ & _ & Ha).
    rewrite decide_False by done. nomatch. destruct d; cbn in C1, C2.
    + by rewrite decide_False by done.
    + rewrite decide_True by done. apply repr_up in H. cbn [after].
      rewrite <- (IH fuel s _ R ltac:(cbn in Hf; lia) H (mk_nonnil _ _ _ _ _)). by rewrite top_mk.
Qed.

Lemma next_spec s k c l a r R : repr s k (T c l a r) R -> rb_next s a = Some (default 0 (head (inorder r ++ after k))).
Proof.
  intros H. pose proof (up_aligned _ _ _ _ H) as Hp. destruct (repr_get s k Left c l a r R H) as (Hg & Ha & _).
  unfold rb_next. rewrite Hg. nomatch.
  rewrite parent_cell by done. assert (Hup : up k <> a).
  { destruct k as [|[[[d1 c1] a1] u1] k]; [done|]. cbn [up]. intros ->. destruct H as [H _]. cbn [entries top up
      centries app] in H.
    eapply (holds_ne _ _ _ _ a _ H); [|done]. apply elem_of_app. right. apply list_elem_of_here. }
  rewrite decide_False by done. cbn [cell rb_right]. destruct r as [|cr lr ar rr].
  - rewrite decide_False by (intros []; done). pose proof (repr_depth _ _ _ _ H) as Hd. change a with (top (T c l a E)).
    apply (climb_spec k _ s _ R); [|done|done]. destruct H as [H _]. apply holds_size in H. rewrite !length_app in H.
    cbn in H.
    pose proof (centries_length k a). lia.
  - apply (repr_down _ _ Right) in H. cbn [top].
    rewrite decide_True by (by apply (repr_get s ((Right, c, a, l) :: k) Left cr lr ar rr R)).
    destruct (leftmost_spec (T cr lr ar rr) (size (cells s)) s ((Right, c, a,
      l) :: k) R) as (P & c1 & b & r1 & EP & HP & EL);
      [done|by eapply depth_le|done|]. cbn [top] in EL. rewrite EL. destruct (inorder_lefts P HP) as [B HB].
      by rewrite EP, HB.
Qed.

(** ** The operations on the sequence *)

(** Every node of the sequence is somewhere in the tree. *)
Lemma find_node t a : a ∈ inorder t -> exists k c l r, t = plug k (T c l a r).
Proof.
  induction t as [|c l IHl b r IHr]; cbn; [set_solver|]. rewrite elem_of_app, elem_of_cons. intros [H|[->|H]].
  - destruct (IHl H) as (k & c' & l' & r' & ->). exists (k ++ [(Left, c, b, r)]), c', l', r'. by rewrite plug_app.
  - by exists [], c, l, r.
  - destruct (IHr H) as (k & c' & l' & r' & ->). exists (k ++ [(Right, c, b, l)]), c', l', r'. by rewrite plug_app.
Qed.

(** There is a gap at every place of the sequence. *)
Lemma find_gap t : forall A B, inorder t = A ++ B -> exists k, t = plug k E /\ before k = A /\ after k = B.
Proof.
  induction t as [|c l IHl a r IHr]; intros A B H; cbn in H.
  - symmetry in H. apply app_nil in H as [-> ->]. by exists [].
  - apply app_eq_inv in H as [(A' & El & ->)|(A' & -> & Er)].
    + destruct (IHl A A' El) as (k & -> & <- & <-). exists (k ++ [(Left, c, a, r)]). rewrite plug_app.
      split; [done|]. destruct (around_app k (Left, c, a, r)) as [-> ->]. split; same_order.
    + destruct A' as [|a' A']; cbn in Er.
      * subst B. destruct (IHl (inorder l) []) as (k & El & Hb & Ha); [by rewrite app_nil_r|].
        rewrite app_nil_r in *. exists (k ++ [(Left, c, a, r)]).
        rewrite plug_app. split; [by rewrite <- El|]. destruct (around_app k (Left, c, a, r)) as [-> ->].
        rewrite Hb, Ha. split; same_order.
      * injection Er as <- Er. destruct (IHr A' B Er) as (k & -> & <- & <-). exists (k ++ [(Right, c, a, l)]).
        rewrite plug_app. split; [done|].
        destruct (around_app k (Right, c, a, l)) as [-> ->]. split; same_order.
Qed.

Lemma insert_seq s k x n R : gap s k ((x, n) :: R) ->
  exists s1 s2, rb_link_node s x (up k) (link_of k) = Some s1 /\ rb_insert_color s1 x = Some s2 /\
    holds_seq s2 (before k ++ x :: after k) R /\ size (cells s2) = size (cells s).
Proof.
  intros (N & H & HW & HC). destruct (wf_unplug _ _ _ HW HC) as (m & Hm & Hk & _). inversion Hm; subst.
  destruct (link_spec _ _ _ _ _ H) as (s1 & E1 & H1 & Z1).
  destruct (insert_color_spec s1 k (T Red E x E) R 0 N H1) as (s2 & t2 & M & E2 & H2 & W2 & C2 & I2 & Z2);
    [done|by constructor|done|].
  exists s1, s2. split; [done|]. split; [done|]. split; [|lia]. exists t2, M. split_and!; [done|done|done|].
  by rewrite I2, inorder_around.
Qed.

Lemma erase_seq s l R a : holds_seq s l R -> a ∈ l ->
  exists s' n A B, rb_erase s a = Some s' /\ l = A ++ a :: B /\ holds_seq s' (A ++ B) ((a, n) :: R) /\
    size (cells s') = size (cells s).
Proof.
  intros (t & N & H & HW & HC & <-) Ha. destruct (find_node t a Ha) as (k & c & l & r & ->). apply repr_plug in H.
  destruct (erase_spec s k c l a r R N H HW HC) as (s' & t' & M & n & A & B & E & H' & W' & C' & El & I' & Z').
  exists s', n, A, B. split_and!; [done|done| |done]. by exists t', M.
Qed.

Lemma entries_addrs t : forall p, (entries t p).*1 ≡ₚ inorder t.
Proof.
  induction t as [|c l IHl a r IHr]; intros p; [done|]. cbn. rewrite fmap_app, IHl, IHr. apply Permutation_middle.
Qed.

Lemma seq_nodup s l R : holds_seq s l R -> NoDup (l ++ R.*1).
Proof.
  intros (t & N & [[H _] _] & _ & _ & <-). rewrite fmap_app in H. cbn in H. by rewrite entries_addrs in H.
Qed.

Lemma seq_cells s l R x n : holds_seq s l ((x, n) :: R) -> get s x = Some n /\ x <> 0 /\ aligned x.
Proof. intros (t & N & [H _] & _). cbn in H. hold_as H ((x, n) :: entries t 0 ++ R). by apply holds_get in H. Qed.

Lemma seq_member s l R a : holds_seq s l R -> a ∈ l -> (exists n, get s a = Some n) /\ a <> 0 /\ aligned a.
Proof.
  intros (t & N & H & _ & _ & <-) Ha. destruct (find_node t a Ha) as (k & c & lt & rt & ->). apply repr_plug in H.
  destruct (repr_get s k Left c lt a rt R H) as (Hg & ? & ?). eauto.
Qed.

(** A node occurs once. *)
Lemma split_unique (A B A' B' : list Z) a : NoDup (A ++ a :: B) -> A ++ a :: B = A' ++ a :: B' -> A = A' /\ B = B'.
Proof.
  revert A'. induction A as [|x A IH]; intros [|y A'] Hn E; cbn in *.
  - by injection E.
  - injection E as -> ->. exfalso. apply NoDup_cons in Hn as [Hn _]. apply Hn. set_solver.
  - injection E as -> E. exfalso. apply NoDup_cons in Hn as [Hn _]. apply Hn. set_solver.
  - injection E as -> E. apply NoDup_cons in Hn as [_ Hn]. destruct (IH A' Hn E) as [-> ->]. done.
Qed.

Lemma first_seq s l R : holds_seq s l R -> rb_first s = Some (default 0 (head l)).
Proof. intros (t & N & H & _ & _ & <-). by eapply first_spec. Qed.

Lemma first_steps s l R : holds_seq s l R -> l <> [] ->
  leftmost (2 * Nat.log2 (S (length l))) s (rb_node s) = Some (default 0 (head l)).
Proof.
  intros (t & N & H & HW & HC & <-) Hl. rewrite (root_top _ _ _ H). assert (Ht : t <> E) by (by intros ->).
  destruct (leftmost_spec t _ s [] R Ht (depth_log _ _ HW HC) H) as (P & c1 & b & r1 & EP & HP & ->).
  destruct (inorder_lefts P HP) as [B HB]. by rewrite EP, HB.
Qed.

Lemma next_seq s A a B R : holds_seq s (A ++ a :: B) R -> rb_next s a = Some (default 0 (head B)).
Proof.
  intros Hs. pose proof (seq_nodup _ _ _ Hs) as Hn. apply NoDup_app in Hn as [Hn _].
  destruct Hs as (t & N & H & _ & _ & El).
  destruct (find_node t a) as (k & c & l & r & ->); [rewrite El; set_solver|]. apply repr_plug in H.
  rewrite (next_spec _ _ _ _ _ _ _ H).
  rewrite inorder_around in El. cbn in El.
  destruct (split_unique A B (before k ++ inorder l) (inorder r ++ after k) a) as [_ ->]; [done| |done].
  rewrite <- El. same_order.
Qed.

(** C9: A store that holds a balanced tree over a sequence of nodes: erasing a node of it leaves a balanced
    tree over the rest, in order; first and next walk along the sequence, and the walk
    to the first node takes at most 2 log2 (n + 1) steps; and a node that is linked
    into a gap of the tree and balanced comes between what is before and after
    the gap.  No operation touches a cell outside the tree or runs out of
    fuel. *)
Theorem rb_refines_sequence s l R :
  holds_seq s l R ->
  (forall a, a ∈ l -> exists s' n A B, rb_erase s a = Some s' /\ l = A ++ a :: B /\ holds_seq s' (A ++ B) ((a,
    n) :: R)) /\
  rb_first s = Some (default 0 (head l)) /\
  (l <> [] -> leftmost (2 * Nat.log2 (S (length l))) s (rb_node s) = rb_first s) /\
  (forall A a B, l = A ++ a :: B -> rb_next s a = Some (default 0 (head B))) /\
  (forall A B x n R', l = A ++ B -> R = (x, n) :: R' ->
     exists parent link s1 s2, rb_link_node s x parent link = Some s1 /\ rb_insert_color s1 x = Some s2 /\
       holds_seq s2 (A ++ x :: B) R').
Proof.
  intros H. split_and!.
  - intros a Ha. destruct (erase_seq s l R a H Ha) as (s' & n & A & B & E & El & Hs & _). by exists s', n, A, B.
  - by eapply first_seq.
  - intros Hl. by rewrite (first_seq _ _ _ H), (first_steps _ _ _ H Hl).
  - intros A a B ->. by eapply next_seq.
  - intros A B x n R' El ->. destruct H as (t & N & H & HW & HC & Ei). rewrite El in Ei.
    destruct (find_gap t A B Ei) as (k & -> & <- & <-).
    apply repr_plug in H. destruct (insert_seq s k x n R') as (s1 & s2 & E1 & E2 & H2 & _); [by exists N|].
    by exists (up k), (link_of k), s1, s2.
Qed.

Definition demo_store : store :=
  Store (list_to_map [(16, Node 1 24 8); (8, Node 16 0 0); (24, Node 16 0 0); (32, Node 32 32 0)]) 16.

Lemma demo_seq : holds_seq demo_store [8; 16; 24] [(32, Node 32 32 0)].
Proof.
  exists (T Black (T Red E 8 E) 16 (T Red E 24 E)), 1%nat. split_and!; [|repeat constructor|done|done].
  split; [|done]. split.
  - cbn. apply (bool_decide_unpack _). vm_compute. exact I.
  - cbn. repeat (constructor; [split_and!; [done|done|reflexivity]|]). constructor.
Qed.

Lemma rb_refines_sequence_witness :
  (forall a, a ∈ [8; 16; 24] -> exists s' n A B, rb_erase demo_store a = Some s' /\ [8; 16; 24] = A ++ a :: B /\
     holds_seq s' (A ++ B) [(a, n); (32, Node 32 32 0)]) /\
  rb_first demo_store = Some 8 /\
  ([8; 16; 24] <> [] -> leftmost 4 demo_store (rb_node demo_store) = rb_first demo_store) /\
  (forall A a B, [8; 16; 24] = A ++ a :: B -> rb_next demo_store a = Some (default 0 (head B))) /\
  (forall A B x n R', [8; 16; 24] = A ++ B -> [(32, Node 32 32 0)] = (x, n) :: R' ->
     exists parent link s1 s2, rb_link_node demo_store x parent link = Some s1 /\ rb_insert_color s1 x = Some s2 /\
       holds_seq s2 (A ++ x :: B) R').
Proof. exact (rb_refines_sequence demo_store [8; 16; 24] [(32, Node 32 32 0)] demo_seq). Defined.

(** Erasing the root of it, and the node that is then next to the first. *)
Example demo_erase : (s ← rb_erase demo_store 16; rb_next s 8) = Some 24.
Proof. vm_compute. reflexivity. Qed.
