(* ===== verification/IoHist.v ===== *)
(** * The history of writes (src/fio/iolog.c, trim.c, verify.c, io_u.c)

    Writes that are to be verified are logged as pieces: in a red-black tree ordered
    by file and offset, or, with a random map, at the end of a list; some are
    also on the list of pieces to trim.  A piece is known by its address; the tree's
    cells are those of [RbTree].  The lists are lists of addresses.  [None] is an
    access to memory that is not allocated, or a failed assertion. *)

From S2P Require Import Prelude RbTree Rand LatHist.

Open Scope Z_scope.

Definition IP_F_ONRB : Z := 1.
Definition IP_F_ONLIST : Z := 2.
Definition IP_F_TRIMMED : Z := 4.
Definition IP_F_IN_FLIGHT : Z := 8.

Record io_piece := IoPiece { ip_file : Z; ip_offset : Z; ip_len : Z; ip_numberio : Z; ip_flags : Z }.

Definition has_flag (f : Z) (p : io_piece) : bool := bool_decide (Z.land (ip_flags p) f <> 0).
Definition with_flags (fl : Z) (p : io_piece) : io_piece :=
  IoPiece (ip_file p) (ip_offset p) (ip_len p) (ip_numberio p) fl.
Definition add_flag (f : Z) (p : io_piece) : io_piece := with_flags (Z.lor (ip_flags p) f) p.
Definition clear_flag (f : Z) (p : io_piece) : io_piece := with_flags (Z.land (ip_flags p) (u32 (Z.lnot f))) p.

(** The fields of the thread that the history is kept in. *)
Record hist := Hist {
  io_hist_tree : store;
  pieces : gmap Z io_piece;
  io_hist_list : list Z;
  io_hist_len : Z;
  trim_list : list Z;
  trim_entries : Z;
  trim_state : frand_state;
  verify_state : frand_state }.

Definition set_tree (h : hist) (t : store) : hist :=
  Hist t (pieces h) (io_hist_list h) (io_hist_len h) (trim_list h) (trim_entries h) (trim_state h) (verify_state h).
Definition set_pieces (h : hist) (ps : gmap Z io_piece) : hist :=
  Hist (io_hist_tree h) ps (io_hist_list h) (io_hist_len h) (trim_list h) (trim_entries h) (trim_state h) (verify_state h).
Definition set_list (h : hist) (l : list Z) : hist :=
  Hist (io_hist_tree h) (pieces h) l (io_hist_len h) (trim_list h) (trim_entries h) (trim_state h) (verify_state h).
Definition set_len (h : hist) (n : Z) : hist :=
  Hist (io_hist_tree h) (pieces h) (io_hist_list h) (u64 n) (trim_list h) (trim_entries h) (trim_state h) (verify_state h).
Definition set_trims (h : hist) (l : list Z) (n : Z) : hist :=
  Hist (io_hist_tree h) (pieces h) (io_hist_list h) (io_hist_len h) l (u64 n) (trim_state h) (verify_state h).
Definition set_trim_state (h : hist) (s : frand_state) : hist :=
  Hist (io_hist_tree h) (pieces h) (io_hist_list h) (io_hist_len h) (trim_list h) (trim_entries h) s (verify_state h).
Definition set_verify_state (h : hist) (s : frand_state) : hist :=
  Hist (io_hist_tree h) (pieces h) (io_hist_list h) (io_hist_len h) (trim_list h) (trim_entries h) (trim_state h) s.

Definition update_piece (h : hist) (x : Z) (f : io_piece -> io_piece) : option hist :=
  p ← pieces h !! x; Some (set_pieces h (<[x := f p]> (pieces h))).

(** [calloc] of a piece at [x], and [init_ipo]: the list head, which shares its place with the tree node,
    points to itself. *)
Definition alloc_ipo (h : hist) (x : Z) (p : io_piece) : hist :=
  set_pieces (set_tree h (Store (<[x := Node x x 0]> (cells (io_hist_tree h))) (rb_node (io_hist_tree h)))) (<[x := p]> (pieces h)).

Definition free_ipo (h : hist) (x : Z) : option hist :=
  _ ← pieces h !! x;
  Some (set_pieces (set_tree h (Store (delete x (cells (io_hist_tree h))) (rb_node (io_hist_tree h)))) (delete x (pieces h))).

Definition flist_del (x : Z) (l : list Z) : list Z := filter (fun y => y <> x) l.

Definition remove_trim_entry (h : hist) (x : Z) : hist :=
  if decide (x ∈ trim_list h) then set_trims h (flist_del x (trim_list h)) (trim_entries h - 1) else h.

(** [td->o.trim_percentage] *)
Definition io_u_should_trim (h : hist) (trim_percentage : Z) : bool * hist :=
  if decide (trim_percentage = 0) then (false, h)
  else
    let frand_max := rand_max (trim_state h) in
    let '(r, st) := rand_ (trim_state h) in
    let val := u64 (frand_max / 100 * trim_percentage) in
    (bool_decide (r <= val), set_trim_state h st).

(** ** Logging a write *)

(** Where the piece [q] goes relative to a piece of the tree, and whether they overlap; a piece at the same
    offset overlaps whatever its length. *)
Definition compare_piece (q p : io_piece) : option side * bool :=
  if decide (ip_file q < ip_file p) then (Some Left, false)
  else if decide (ip_file q > ip_file p) then (Some Right, false)
  else if decide (ip_offset q < ip_offset p) then (Some Left, bool_decide (u64 (ip_offset q + ip_len q) > ip_offset p))
  else if decide (ip_offset q > ip_offset p) then (Some Right, bool_decide (u64 (ip_offset p + ip_len p) > ip_offset q))
  else (None, true).

(** The walk down: the parent and the link to put the piece at, or the piece it overlaps. *)
Fixpoint find_slot (fuel : nat) (h : hist) (q : io_piece) (cur parent : Z) (link : option side) : option (Z * option side + Z) :=
  match fuel with
  | O => None
  | S fuel' =>
      if decide (cur = 0) then Some (inl (parent, link))
      else
        p ← pieces h !! cur;
        match compare_piece q p with
        | (Some d, false) => n ← get (io_hist_tree h) cur; find_slot fuel' h q (child d n) cur (Some d)
        | _ => Some (inr cur)
        end
  end.

(** [restart:] *)
Fixpoint place (fuel : nat) (h : hist) (x : Z) (q : io_piece) : option hist :=
  match fuel with
  | O => None
  | S fuel' =>
      r ← find_slot (S (size (pieces h))) h q (rb_node (io_hist_tree h)) 0 None;
      match r with
      | inl (parent, link) =>
          t ← rb_link_node (io_hist_tree h) x parent link;
          t ← rb_insert_color t x;
          h ← update_piece (set_tree h t) x (add_flag IP_F_ONRB);
          Some (set_len h (io_hist_len h + 1))
      | inr y =>
          let h := set_len h (io_hist_len h - 1) in
          t ← rb_erase (io_hist_tree h) y;
          let h := remove_trim_entry (set_tree h t) y in
          p ← pieces h !! y;
          h ← (if has_flag IP_F_IN_FLIGHT p then Some h else free_ipo h y);
          place fuel' h x q
      end
  end.

(** [x] is the address that [calloc] returns. *)
Definition log_io_piece (h : hist) (x : Z) (file offset buflen numberio trim_percentage : Z) (randommap : bool) : option hist :=
  let q := IoPiece file offset buflen numberio IP_F_IN_FLIGHT in
  let h := alloc_ipo h x q in
  let '(trim, h) := io_u_should_trim h trim_percentage in
  let h := if trim : bool then set_trims h (trim_list h ++ [x]) (trim_entries h + 1) else h in
  if randommap then
    h ← update_piece (set_list h (io_hist_list h ++ [x])) x (add_flag IP_F_ONLIST);
    Some (set_len h (io_hist_len h + 1))
  else
    t ← RB_CLEAR_NODE (io_hist_tree h) x;
    place (S (size (pieces h))) (set_tree h t) x q.

(** ** The end of a write *)

(** [BLOCK_INFO_SET_STATE] for a trim or a write that failed. *)
Definition fail_block_info (info : Z) (is_trim is_write : bool) : Z :=
  if decide (BLOCK_INFO_STATE info < 3) then
    if is_trim then BLOCK_INFO 3 (BLOCK_INFO_TRIMS info)
    else if is_write then BLOCK_INFO 4 (BLOCK_INFO_TRIMS info)
    else info
  else info.

(** [ipo] is 0 when the unit has no piece; [info] is its entry of the block states, if they are kept. *)
Definition unlog_io_piece (h : hist) (ipo : Z) (info : option Z) (is_trim is_write : bool) : option (hist * option Z) :=
  let info := (fun i => fail_block_info i is_trim is_write) <$> info in
  if decide (ipo = 0) then Some (h, info)
  else
    p ← pieces h !! ipo;
    h ← (if has_flag IP_F_ONRB p then t ← rb_erase (io_hist_tree h) ipo; Some (set_tree h t)
         else if has_flag IP_F_ONLIST p then Some (set_list h (flist_del ipo (io_hist_list h)))
         else Some h);
    h ← free_ipo h ipo;
    Some (set_len h (io_hist_len h - 1), info).

(** A short write; a write that completed. *)
Definition trim_io_piece (h : hist) (ipo xfer_buflen resid : Z) : option hist :=
  if decide (ipo = 0) then Some h
  else update_piece h ipo (fun p => IoPiece (ip_file p) (ip_offset p) (u64 (xfer_buflen - resid)) (ip_numberio p) (ip_flags p)).

Definition complete_piece (h : hist) (ipo : Z) (error : bool) (info : option Z) (is_trim is_write : bool) : option (hist * option Z) :=
  if decide (ipo = 0) then Some (h, info)
  else if error then unlog_io_piece h ipo info is_trim is_write
  else h ← update_piece h ipo (clear_flag IP_F_IN_FLIGHT); Some (h, info).

(** ** What to verify and to trim next *)

Record unit_ := Unit_ { u_offset : Z; u_buflen : Z; u_numberio : Z; u_file : Z; u_trimmed : bool; u_seed : option Z }.

(** The piece at the head of the tree or of the list, unless its write has not completed. *)
Definition take_piece (h : hist) : option (option Z * hist) :=
  if decide (rb_node (io_hist_tree h) <> 0) then
    n ← rb_first (io_hist_tree h);
    p ← pieces h !! n;
    if has_flag IP_F_IN_FLIGHT p then Some (None, h)
    else
      t ← rb_erase (io_hist_tree h) n;
      if has_flag IP_F_ONRB p then h ← update_piece (set_tree h t) n (clear_flag IP_F_ONRB); Some (Some n, h) else None
  else
    match io_hist_list h with
    | [] => Some (None, h)
    | n :: l =>
        p ← pieces h !! n;
        if has_flag IP_F_IN_FLIGHT p then Some (None, h)
        else
          if has_flag IP_F_ONLIST p then h ← update_piece (set_list h l) n (clear_flag IP_F_ONLIST); Some (Some n, h) else None
    end.

(** [requeued]: the unit has a file already.  [open_file] is whether the file is open or can be opened.  The
    result is that of the function, with what was put into the unit. *)
Definition get_next_verify (h : hist) (requeued : bool) (open_file : Z -> bool) (verify_pattern_bytes : Z) : option (Z * option unit_ * hist) :=
  if requeued then Some (0, None, h)
  else
    '(n, h) ← take_piece h;
    match n with
    | None => Some (1, None, h)
    | Some n =>
        p ← pieces h !! n;
        let h := set_len h (io_hist_len h - 1) in
        let u := Unit_ (ip_offset p) (ip_len p) (ip_numberio p) (ip_file p) (has_flag IP_F_TRIMMED p) in
        if open_file (ip_file p) : bool then
          h ← free_ipo (remove_trim_entry h n) n;
          if decide (verify_pattern_bytes <> 0) then Some (0, Some (u None), h)
          else
            let '(r, st) := rand_ (verify_state h) in
            let '(r', st) := rand_ st in
            Some (0, Some (u (Some (u64 (r * r')))), set_verify_state h st)
        else Some (1, Some (u None), h)
    end.

Definition get_next_trim (h : hist) (requeued : bool) (open_file : Z -> bool) (trim_zero : bool) : option (bool * option unit_ * hist) :=
  if requeued then Some (true, None, h)
  else
    match trim_list h with
    | [] => Some (false, None, h)
    | n :: _ =>
        if decide (trim_entries h = 0) then None
        else
          let h := remove_trim_entry h n in
          p ← pieces h !! n;
          let u := Unit_ (ip_offset p) (ip_len p) 0 (ip_file p) false None in
          h ← (if trim_zero then update_piece h n (add_flag IP_F_TRIMMED)
               else
                 h ← (if has_flag IP_F_ONLIST p then Some (set_list h (flist_del n (io_hist_list h)))
                      else if has_flag IP_F_ONRB p then t ← rb_erase (io_hist_tree h) n; Some (set_tree h t) else None);
                 free_ipo (set_len h (io_hist_len h - 1)) n);
          Some (open_file (ip_file p), Some u, h)
    end.

(** ** The end of the job *)

Fixpoint prune_tree (fuel : nat) (h : hist) : option hist :=
  n ← rb_first (io_hist_tree h);
  if decide (n = 0) then Some h
  else
    match fuel with
    | O => None
    | S fuel' =>
        t ← rb_erase (io_hist_tree h) n;
        let h := remove_trim_entry (set_tree h t) n in
        h ← free_ipo (set_len h (io_hist_len h - 1)) n;
        prune_tree fuel' h
    end.

Fixpoint prune_list (l : list Z) (h : hist) : option hist :=
  match l with
  | [] => Some h
  | n :: l' =>
      let h := remove_trim_entry (set_list h l') n in
      h ← free_ipo (set_len h (io_hist_len h - 1)) n;
      prune_list l' h
  end.

Definition prune_io_piece_log (h : hist) : option hist :=
  h ← prune_tree (size (pieces h)) h;
  prune_list (io_hist_list h) h.
