(* ===== verification/IoHistProofs.v ===== *)
(** * The history of writes: proofs

    The tree holds the pieces in order of file and offset, and no two of them overlap: a
    piece that is logged takes the place of those it overlaps. *)

From Stdlib Require Import Sorting.Sorted.
From S2P Require Import Prelude Bits RbTree RbRep RbInsert RbErase RbSpec Rand LatHist IoHist.

Open Scope Z_scope.

(** ** Flags *)

Lemma has_flag_bit k p : 0 <= k -> has_flag (2 ^ k) p = Z.testbit (ip_flags p) k.
Proof.
  intros Hk. unfold has_flag. destruct (Z.testbit (ip_flags p) k) eqn:E.
  - apply bool_decide_true. intros H0. pose proof (f_equal (fun z => Z.testbit z k) H0) as H. cbn in H.
    rewrite Z.land_spec, E, Z.pow2_bits_true, Z.bits_0 in H by done. done.
  - apply bool_decide_false. intros H. apply H. apply Z.bits_inj'. intros i Hi. rewrite Z.land_spec, Z.bits_0.
    destruct (decide (i = k)) as [->|Hne]; [by rewrite E|]. rewrite Z.pow2_bits_false by lia. apply andb_false_r.
Qed.

Lemma has_add_flag j k p : 0 <= j -> 0 <= k -> has_flag (2 ^ k) (add_flag (2 ^ j) p) = bool_decide (j = k) ||
  has_flag (2 ^ k) p.
Proof.
  intros Hj Hk. rewrite !has_flag_bit by done. cbn. rewrite Z.lor_spec, Z.pow2_bits_eqb by done. rewrite orb_comm.
  f_equal.
  case_bool_decide as E; [by apply Z.eqb_eq|by apply Z.eqb_neq].
Qed.

Lemma has_clear_flag j k p : 0 <= j -> 0 <= k < 32 -> has_flag (2 ^ k) (clear_flag (2 ^ j) p) = negb (bool_decide (j
  = k)) && has_flag (2 ^ k) p.
Proof.
  intros Hj Hk. rewrite !has_flag_bit by lia. cbn.
  rewrite Z.land_spec, testbit_wrapu, Z.lnot_spec, Z.pow2_bits_eqb by lia.
  rewrite bool_decide_true by lia. rewrite andb_comm. cbn. f_equal. f_equal.
  case_bool_decide as E; [by apply Z.eqb_eq|by apply Z.eqb_neq].
Qed.

(** ** Order *)

(** [p] ends before [q] starts, in the same file, or is in an earlier file. *)
Definition precedes (p q : io_piece) : Prop :=
  ip_file p < ip_file q \/ (ip_file p = ip_file q /\ ip_offset p < ip_offset q /\ ip_offset p + ip_len p <= ip_offset q).

Definition apart (p q : io_piece) : Prop := precedes p q \/ precedes q p.

#[global] Instance precedes_dec p q : Decision (precedes p q).
Proof. unfold precedes. apply _. Defined.
#[global] Instance apart_dec p q : Decision (apart p q).
Proof. unfold apart. apply _. Defined.

(** Offsets that do not wrap. *)
Definition ranged (p : io_piece) : Prop := 0 <= ip_offset p /\ 0 <= ip_len p /\ ip_offset p + ip_len p < 2 ^ 64.

Lemma precedes_trans p q r : precedes p q -> precedes q r -> precedes p r.
Proof. unfold precedes. lia. Qed.

Lemma compare_piece_spec q p : ranged q -> ranged p ->
  match compare_piece q p with
  | (Some Left, false) => precedes q p
  | (Some Right, false) => precedes p q
  | _ => ~ apart q p
  end.
Proof.
  intros Hq Hp. unfold compare_piece, ranged, apart, precedes in *. rewrite !wrapu_small by lia.
  repeat (case_decide; [first [case_bool_decide; lia|lia]|]). lia.
Qed.

(** The order of the pieces at two addresses. *)
Definition ord (h : hist) (x y : Z) : Prop := exists p q, pieces h !! x = Some p /\ pieces h !! y = Some q /\ precedes p q.

Lemma ord_trans h x y z : ord h x y -> ord h y z -> ord h x z.
Proof.
  intros (p & q & Hx & Hy & H1) (q' & r & Hy' & Hz & H2). rewrite Hy in Hy'. injection Hy' as <-.
  exists p, r. split_and!; [done|done|by eapply precedes_trans].
Qed.

Lemma sorted_app h l1 l2 : StronglySorted (ord h) (l1 ++ l2) <->
  StronglySorted (ord h) l1 /\ StronglySorted (ord h) l2 /\ (forall x y, x ∈ l1 -> y ∈ l2 -> ord h x y).
Proof.
  induction l1 as [|a l1 IH]; cbn.
  - split; [intros H; split_and!; [constructor|done|set_solver]|by intros (_ & ? & _)].
  - split.
    + intros H. apply StronglySorted_inv in H as [H Ha]. apply IH in H as (H1 & H2 & H3).
      apply Forall_app in Ha as [Ha1 Ha2].
      split_and!; [by constructor|done|]. intros x y Hx Hy. apply elem_of_cons in Hx as [->|Hx]; [|by apply H3].
      rewrite Forall_forall in Ha2. by apply Ha2.
    + intros (H1 & H2 & H3). apply StronglySorted_inv in H1 as [H1 Ha]. constructor.
      * apply IH. split_and!; [done|done|]. intros x y Hx Hy. apply H3; [by right|done].
      * apply Forall_app. split; [done|]. apply Forall_forall. intros y Hy. apply H3; [by left|done].
Qed.

(** ** Cells *)

Lemma holds_delete s x n es : holds s ((x, n) :: es) -> holds (Store (delete x (cells s)) (rb_node s)) es.
Proof.
  intros [Hn Hf]. cbn in Hn. apply NoDup_cons in Hn as [Hx Hn]. apply Forall_cons in Hf as [_ Hf]. split; [done|].
  rewrite Forall_forall in Hf |- *. intros [y m] Hy. specialize (Hf _ Hy). cbn in *. rewrite lookup_delete_ne; [done|].
  intros <-. apply Hx. apply list_elem_of_fmap. by exists (x, m).
Qed.

Lemma holds_alloc s x n es : holds s es -> x ∉ es.*1 -> x <> 0 -> aligned x ->
  holds (Store (<[x := n]> (cells s)) (rb_node s)) ((x, n) :: es).
Proof.
  intros [Hn Hf] Hx H0 Ha. split; [by constructor|]. constructor; [cbn; by rewrite lookup_insert_eq|].
  rewrite Forall_forall in Hf |- *. intros [y m] Hy. specialize (Hf _ Hy). cbn in *. rewrite lookup_insert_ne; [done|].
  intros <-. apply Hx. apply list_elem_of_fmap. by exists (x, m).
Qed.

Lemma seq_perm s l R R' : R ≡ₚ R' -> holds_seq s l R -> holds_seq s l R'.
Proof. intros Hp (t & N & [H Hr] & HW & HC & HI). exists t, N. split_and!; try done. split; [|done]. cbn in H |- *.
  by rewrite <- Hp. Qed.

Lemma seq_delete s l R x n : holds_seq s l ((x, n) :: R) -> holds_seq (Store (delete x (cells s)) (rb_node s)) l R.
Proof.
  intros (t & N & [H Hr] & HW & HC & HI). exists t, N. split_and!; try done. split; [|done]. cbn in H |- *.
  hold_as H ((x, n) :: entries t 0 ++ R). by apply holds_delete in H.
Qed.

Lemma seq_alloc s l R x n : holds_seq s l R -> x ∉ l ++ R.*1 -> x <> 0 -> aligned x ->
  holds_seq (Store (<[x := n]> (cells s)) (rb_node s)) l ((x, n) :: R).
Proof.
  intros (t & N & [H Hr] & HW & HC & HI) Hx H0 Ha. exists t, N. split_and!; try done. split; [|done]. cbn in H |- *.
  assert (Hx' : x ∉ (entries t 0 ++ R).*1) by (rewrite fmap_app, entries_addrs, HI; done).
  pose proof (holds_alloc _ _ n _ H Hx' H0 Ha) as H'. by hold_as H' (entries t 0 ++ (x, n) :: R).
Qed.

Lemma seq_upd s l R x n f : holds_seq s l ((x, n) :: R) -> exists s', upd s x f = Some s' /\ holds_seq s' l ((x,
  f n) :: R) /\
  size (cells s') = size (cells s).
Proof.
  intros (t & N & [H Hr] & HW & HC & HI). cbn in H. hold_as H ((x, n) :: entries t 0 ++ R).
  destruct (holds_upd _ _ _ _ f H) as (s' & E & H' & Hr' & Z). exists s'. split; [done|]. split; [|done].
  exists t, N. split_and!; try done.
  split; [|by rewrite Hr']. cbn. by hold_as H' (entries t 0 ++ (x, f n) :: R).
Qed.

(** ** The walk down *)

(** [x] comes before the piece [q]; after it. *)
Definition below (h : hist) (q : io_piece) (x : Z) : Prop := exists p, pieces h !! x = Some p /\ precedes p q.
Definition above (h : hist) (q : io_piece) (x : Z) : Prop := exists p, pieces h !! x = Some p /\ precedes q p.
Definition known (h : hist) (x : Z) : Prop := exists p, pieces h !! x = Some p /\ ranged p.

Lemma find_slot_spec h q : ranged q -> forall t fuel k R,
  repr (io_hist_tree h) k t R -> (depth t < fuel)%nat -> Forall (known h) (inorder t) ->
  StronglySorted (ord h) (before k ++ inorder t ++ after k) -> Forall (below h q) (before k) ->
    Forall (above h q) (after k) ->
  (exists k', find_slot fuel h q (top t) (up k) (link_of k) = Some (inl (up k', link_of k')) /\ plug k' E = plug k t /\
              repr (io_hist_tree h) k' E R /\ Forall (below h q) (before k') /\ Forall (above h q) (after k')) \/
  (exists y p, find_slot fuel h q (top t) (up k) (link_of k) = Some (inr y) /\ y ∈ inorder t /\
    pieces h !! y = Some p /\ ~ apart q p).
Proof.
  intros Hq. induction t as [|c l IHl a r IHr]; intros fuel k R H Hf Hkn Hs Hb Ha; (destruct fuel as [|fuel];
    [lia|]); cbn [find_slot top].
  { left. exists k. by rewrite decide_True. }
  destruct (repr_get _ k Left c l a r R H) as (Hg & Ha0 & _). rewrite decide_False by done. cbn [inorder] in *.
  apply Forall_app in Hkn as [Hkl Hkr]. apply Forall_cons in Hkr as [(p & Hp & Hrp) Hkr]. rewrite Hp. nomatch.
  pose proof (compare_piece_spec q p Hq Hrp) as Hcmp. destruct (compare_piece q p) as [[[|]|] [|]].
  - right. exists a, p. split_and!; [done|set_solver|done|done].
  - rewrite Hg. nomatch. cbn [cell child rb_left].
    assert (Habove : Forall (above h q) (after ((Left, c, a, r) :: k))).
    { cbn [after]. constructor; [by exists p|]. apply Forall_app. split;
        [|done]. rewrite sorted_app in Hs. destruct Hs as (_ & Hs & _).
      rewrite <- app_assoc in Hs. rewrite sorted_app in Hs. destruct Hs as (_ & Hs & _). cbn in Hs.
      apply StronglySorted_inv in Hs as [_ Hs].
      apply Forall_app in Hs as [Hs _]. apply (Forall_impl _ _ _ Hs). intros z (p' & pz & Hp' & Hz & Hprec).
      rewrite Hp in Hp'. injection Hp' as <-.
      exists pz. split; [done|]. by eapply precedes_trans. }
    apply (repr_down _ _ Left) in H.
    destruct (IHl fuel _ R H) as [(k' & E1 & E2 & HR & H1 & H2)|(y & py & E1 & Hy & Hpy & Hc)];
      [cbn in Hf; lia|done|cbn [before after]; by rewrite <- app_assoc in Hs|done|done| |].
    + left. by exists k'.
    + right. exists y, py. split_and!; [done|set_solver|done|done].
  - right. exists a, p. split_and!; [done|set_solver|done|done].
  - rewrite Hg. nomatch. cbn [cell child rb_right].
    assert (Hbelow : Forall (below h q) (before ((Right, c, a, l) :: k))).
    { cbn [before]. apply Forall_app. split; [done|]. apply Forall_app. split; [|constructor; [by exists p|constructor]].
      rewrite sorted_app in Hs. destruct Hs as (_ & Hs & _). rewrite <- app_assoc in Hs. rewrite sorted_app in Hs.
      destruct Hs as (_ & _ & Hs).
      apply Forall_forall. intros z Hz. destruct (Hs z a Hz ltac:(set_solver)) as (pz & p' & Hpz & Hp' & Hprec).
      rewrite Hp in Hp'. injection Hp' as <-.
      exists pz. split; [done|]. by eapply precedes_trans. }
    apply (repr_down _ _ Right) in H.
    destruct (IHr fuel _ R H) as [(k' & E1 & E2 & HR & H1 & H2)|(y & py & E1 & Hy & Hpy & Hc)];
      [cbn in Hf; lia|done| |done|done| |].
    + cbn [before after].
      replace ((before k ++ inorder l ++ [a]) ++ inorder r ++ after k) with (before k ++ (inorder l ++ a :: inorder
        r) ++ after k) by same_order. done.
    + left. by exists k'.
    + right. exists y, py. split_and!; [done|set_solver|done|done].
  - right. exists a, p. split_and!; [done|set_solver|done|done].
  - right. exists a, p. split_and!; [done|set_solver|done|done].
Qed.

(** ** The invariant *)

(** [l] is the order of the tree, [ls] the list; [ds] are pieces whose writes are in flight but that were
    overwritten in the history, [pend] a piece that is about to be put into it. *)
Record hist_ok (h : hist) (l ls ds pend : list Z) : Prop := HistOk {
  hk_tree : exists R, holds_seq (io_hist_tree h) l R /\ R.*1 ≡ₚ ls ++ ds ++ pend;
  hk_dom : forall x, is_Some (pieces h !! x) <-> x ∈ l ++ ls ++ ds ++ pend;
  hk_ranged : forall x p, pieces h !! x = Some p -> ranged p;
  hk_rb : forall x p, x ∈ l -> pieces h !! x = Some p -> has_flag IP_F_ONRB p = true /\ has_flag IP_F_ONLIST p = false;
  hk_list : io_hist_list h = ls;
  hk_onlist : forall x p, x ∈ ls -> pieces h !! x = Some p -> has_flag IP_F_ONLIST p = true /\ has_flag IP_F_ONRB p = false;
  hk_sorted : StronglySorted (ord h) l;
  hk_trim : NoDup (trim_list h) /\ trim_list h ⊆ l ++ ls ++ pend;
  hk_entries : trim_entries h = u64 (Z.of_nat (length (trim_list h)));
  hk_len : io_hist_len h = u64 (Z.of_nat (length l + length ls)) }.

Lemma hk_nodup h l ls ds pend : hist_ok h l ls ds pend -> NoDup (l ++ ls ++ ds ++ pend).
Proof. intros H. destruct (hk_tree _ _ _ _ _ H) as (R & HR & Hp). apply seq_nodup in HR. by rewrite Hp in HR. Qed.

Lemma hk_cell h l ls ds pend x : hist_ok h l ls ds pend -> x ∈ ls ++ ds ++ pend ->
  exists n R, holds_seq (io_hist_tree h) l ((x, n) :: R) /\ x :: R.*1 ≡ₚ ls ++ ds ++ pend.
Proof.
  intros H Hx. destruct (hk_tree _ _ _ _ _ H) as (R & HR & Hp). rewrite <- Hp in Hx.
  apply list_elem_of_fmap in Hx as ([y n] & -> & Hy).
  apply elem_of_Permutation in Hy as (R' & HR'). exists n, R'. split; [by apply (seq_perm _ _ _ _ HR')|].
  by rewrite <- Hp, HR'.
Qed.

Lemma u64_add a b : u64 (u64 a + b) = u64 (a + b).
Proof. unfold wrapu. by rewrite Z.add_mod_idemp_l by done. Qed.

Lemma ord_ext h h' l : (forall x, x ∈ l -> pieces h' !! x = pieces h !! x) -> StronglySorted (ord h) l ->
  StronglySorted (ord h') l.
Proof.
  intros Hext H. induction H as [|x l H IH Hx]; [constructor|].
  constructor; [apply IH; intros y Hy; apply Hext; by right|].
  rewrite Forall_forall in Hx |- *. intros y Hy. destruct (Hx y Hy) as (p & q & Hp & Hq & Hpq). exists p, q.
  rewrite (Hext x), (Hext y) by set_solver. done.
Qed.

Lemma flist_del_id x (l : list Z) : x ∉ l -> flist_del x l = l.
Proof.
  unfold flist_del. induction l as [|y l IH]; intros Hx; [done|].
  rewrite filter_cons, decide_True by (intros ->; set_solver).
  f_equal. apply IH. set_solver.
Qed.

Lemma flist_del_spec x (l : list Z) : NoDup l -> x ∈ l ->
  NoDup (flist_del x l) /\ Z.of_nat (length (flist_del x l)) = Z.of_nat (length l) - 1 /\ (forall y,
    y ∈ flist_del x l <-> y ∈ l /\ y <> x).
Proof.
  intros Hn Hx. unfold flist_del. split_and!; [by apply NoDup_filter| |intros y; rewrite list_elem_of_filter; tauto].
  induction Hn as [|y l Hy Hn IH]; [set_solver|]. rewrite filter_cons. case_decide as E; cbn [length].
  - apply elem_of_cons in Hx as [->|Hx]; [done|]. specialize (IH Hx). lia.
  - assert (y = x) as -> by (destruct (decide (y = x)); [done|by destruct E]).
    fold (flist_del x l). rewrite flist_del_id by done. lia.
Qed.

(** ** Taking a piece out *)

Lemma remove_trim_spec h y : NoDup (trim_list h) -> trim_entries h = u64 (Z.of_nat (length (trim_list h))) ->
  trim_list (remove_trim_entry h y) = flist_del y (trim_list h) /\
  trim_entries (remove_trim_entry h y) = u64 (Z.of_nat (length (flist_del y (trim_list h)))).
Proof.
  intros Hn He. unfold remove_trim_entry. case_decide as Hy; cbn.
  - split; [done|]. destruct (flist_del_spec y _ Hn Hy) as (_ & -> & _). rewrite He. apply u64_add.
  - by rewrite flist_del_id by done.
Qed.

Lemma remove_trim_frame h y :
  io_hist_tree (remove_trim_entry h y) = io_hist_tree h /\ pieces (remove_trim_entry h y) = pieces h /\
  io_hist_list (remove_trim_entry h y) = io_hist_list h /\ io_hist_len (remove_trim_entry h y) = io_hist_len h.
Proof. unfold remove_trim_entry. by case_decide. Qed.

Lemma flist_del_subset y (l : list Z) : flist_del y l ⊆ l /\ y ∉ flist_del y l.
Proof. unfold flist_del. split; [intros z; rewrite list_elem_of_filter; tauto|]. rewrite list_elem_of_filter. tauto. Qed.

(** The piece [y] leaves the tree, and the trim list. *)
Lemma drop_ok h h2 A y B ls ds pend n R : hist_ok h (A ++ y :: B) ls ds pend ->
  holds_seq (io_hist_tree h2) (A ++ B) ((y, n) :: R) -> R.*1 ≡ₚ ls ++ ds ++ pend ->
  pieces h2 = pieces h -> io_hist_list h2 = ls -> io_hist_len h2 = u64 (io_hist_len h - 1) ->
  trim_list h2 = flist_del y (trim_list h) -> trim_entries h2 = u64 (Z.of_nat (length (trim_list h2))) ->
  hist_ok h2 (A ++ B) ls (y :: ds) pend.
Proof.
  intros H HR HRp Hp Hl Hn Ht He. pose proof (hk_nodup _ _ _ _ _ H) as Hnd. split.
  - exists ((y, n) :: R). split; [done|]. cbn. rewrite HRp. solve_Permutation.
  - intros x. rewrite Hp, (hk_dom _ _ _ _ _ H). rewrite !elem_of_app, !elem_of_cons. tauto.
  - rewrite Hp. apply (hk_ranged _ _ _ _ _ H).
  - intros x p Hx. rewrite Hp. apply (hk_rb _ _ _ _ _ H). set_solver.
  - done.
  - rewrite Hp. apply (hk_onlist _ _ _ _ _ H).
  - pose proof (hk_sorted _ _ _ _ _ H) as Hs. apply (ord_ext h); [by rewrite Hp|]. rewrite sorted_app in Hs |- *.
    destruct Hs as (H1 & H2 & H3). apply StronglySorted_inv in H2 as [H2 _]. split_and!; [done|done|].
    intros a b Ha Hb. apply H3; [done|by right].
  - destruct (hk_trim _ _ _ _ _ H) as [T1 T2]. rewrite Ht. destruct (flist_del_subset y (trim_list h)) as [S1 S2].
    split; [by apply NoDup_filter|].
    intros z Hz. assert (z <> y) by (by intros ->). specialize (T2 z (S1 z Hz)).
    rewrite !elem_of_app, elem_of_cons in *. tauto.
  - done.
  - rewrite Hn, (hk_len _ _ _ _ _ H), !length_app. cbn [length]. rewrite <- Z.add_opp_r, u64_add. f_equal. lia.
Qed.

(** A piece that is not in the history any more is freed. *)
Lemma free_ok h l ls ds pend y : hist_ok h l ls (y :: ds) pend ->
  exists h', free_ipo h y = Some h' /\ hist_ok h' l ls ds pend /\ pieces h' = delete y (pieces h) /\
    verify_state h' = verify_state h.
Proof.
  intros H. pose proof (hk_nodup _ _ _ _ _ H) as Hn.
  assert (Hy : is_Some (pieces h !! y)) by (apply (hk_dom _ _ _ _ _ H); set_solver).
  destruct Hy as [p Hy]. unfold free_ipo. rewrite Hy. cbn. eexists. split; [done|]. split; [|done].
  destruct (hk_cell _ _ _ _ _ y H) as (n & R & HR & HRp); [set_solver|].
  assert (Hny : y ∉ l ++ ls ++ ds ++ pend).
  { assert (Hp : l ++ ls ++ (y :: ds) ++ pend ≡ₚ y :: l ++ ls ++ ds ++ pend) by solve_Permutation. rewrite Hp in Hn.
      by apply NoDup_cons in Hn as [? _]. }
  split; cbn [io_hist_tree pieces io_hist_list io_hist_len trim_list trim_entries set_pieces set_tree].
  - exists R. split; [by eapply seq_delete|]. apply (Permutation_cons_inv (a := y)). rewrite HRp. solve_Permutation.
  - intros x. destruct (decide (x = y)) as [->|Hne].
    + rewrite lookup_delete_eq. split; [by intros []|]. intros ?. done.
    + rewrite lookup_delete_ne, (hk_dom _ _ _ _ _ H) by done. rewrite !elem_of_app, elem_of_cons. tauto.
  - intros x q Hx. apply lookup_delete_Some in Hx as [_ Hx]. by eapply (hk_ranged _ _ _ _ _ H).
  - intros x q Hx Hq. apply lookup_delete_Some in Hq as [_ Hq]. by apply (hk_rb _ _ _ _ _ H x).
  - apply (hk_list _ _ _ _ _ H).
  - intros x q Hx Hq. apply lookup_delete_Some in Hq as [_ Hq]. by apply (hk_onlist _ _ _ _ _ H x).
  - apply (ord_ext h); [|apply (hk_sorted _ _ _ _ _ H)]. intros x Hx. cbn. rewrite lookup_delete_ne; [done|].
    intros <-. set_solver.
  - apply (hk_trim _ _ _ _ _ H).
  - apply (hk_entries _ _ _ _ _ H).
  - apply (hk_len _ _ _ _ _ H).
Qed.

(** ** Putting a piece in *)

Definition apartb (h : hist) (q : io_piece) (x : Z) : bool :=
  match pieces h !! x with Some p => bool_decide (apart q p) | None => false end.

(** The pieces of the tree that [q] does not overlap. *)
Definition kept (h : hist) (q : io_piece) (l : list Z) : list Z := filter (fun x => apartb h q x = true) l.

Lemma kept_ext h h' q l : (forall x, x ∈ l -> pieces h' !! x = pieces h !! x) -> kept h' q l = kept h q l.
Proof.
  intros H. unfold kept. induction l as [|x l IH]; [done|]. rewrite !filter_cons.
  rewrite IH by (intros; apply H; by right).
  unfold apartb. by rewrite H by (by left).
Qed.

Lemma kept_drop h q A y B : apartb h q y = false -> kept h q (A ++ y :: B) = kept h q (A ++ B).
Proof. intros H. unfold kept. rewrite !filter_app, filter_cons. by rewrite decide_False by congruence. Qed.

Lemma kept_all h q l : Forall (fun x => below h q x \/ above h q x) l -> kept h q l = l.
Proof.
  unfold kept. induction 1 as [|x l Hx _ IH]; [done|]. rewrite filter_cons, decide_True, IH; [done|].
  unfold apartb, apart.
  destruct Hx as [(p & -> & Hp)|(p & -> & Hp)]; apply bool_decide_true; auto.
Qed.

Lemma depth_inorder t : (depth t <= length (inorder t))%nat.
Proof. induction t as [|c l IHl a r IHr]; cbn; [lia|]. rewrite length_app. cbn. lia. Qed.

Lemma hk_size h l ls ds pend : hist_ok h l ls ds pend -> (length l <= size (pieces h))%nat.
Proof.
  intros H. pose proof (hk_nodup _ _ _ _ _ H) as Hn. apply NoDup_app in Hn as [Hn _].
  rewrite <- size_dom, <- (size_list_to_set (C := gset Z) l) by done.
  apply subseteq_size. intros x Hx. apply elem_of_list_to_set in Hx. apply elem_of_dom. apply (hk_dom _ _ _ _ _ H).
  set_solver.
Qed.

Lemma hk_known h l ls ds pend : hist_ok h l ls ds pend -> Forall (known h) l.
Proof.
  intros H. apply Forall_forall. intros x Hx. destruct (proj2 (hk_dom _ _ _ _ _ H x)) as [p Hp]; [set_solver|].
  exists p. split; [done|]. by eapply (hk_ranged _ _ _ _ _ H).
Qed.

Section place.
Context (h : hist) (l ls ds : list Z) (x : Z) (q : io_piece) (H : hist_ok h l ls ds [x]) (Hx : pieces h !! x = Some q)
        (Hq : has_flag IP_F_ONLIST q = false).

(** The pieces with the new one between those before and after it. *)
Lemma place_here k R : gap (io_hist_tree h) k R -> before k ++ after k = l -> R.*1 ≡ₚ ls ++ ds ++ [x] ->
  Forall (below h q) (before k) -> Forall (above h q) (after k) ->
  exists h', (t ← rb_link_node (io_hist_tree h) x (up k) (link_of k); t ← rb_insert_color t x;
              h ← update_piece (set_tree h t) x (add_flag IP_F_ONRB); Some (set_len h (io_hist_len h + 1))) = Some h' /\
    hist_ok h' (before k ++ x :: after k) ls ds [] /\ pieces h' = <[x := add_flag IP_F_ONRB q]> (pieces h).
Proof using H Hx Hq.
  intros Hgap El HRp Hb Ha. assert (HxR : x ∈ R.*1) by (rewrite HRp; set_solver).
  apply list_elem_of_fmap in HxR as ([x' n] & Ex & Hin).
  cbn in Ex. subst x'. apply elem_of_Permutation in Hin as (R' & HR').
  assert (Hgap' : gap (io_hist_tree h) k ((x, n) :: R')).
  { destruct Hgap as (N & [Hh Hr] & HW & HC). exists N. split_and!; [|done|done]. split;
      [|done]. cbn in Hh |- *. by rewrite <- HR'. }
  destruct (insert_seq _ _ _ _ _ Hgap') as (t1 & t2 & -> & E2 & Hs2 & _). nomatch. rewrite E2. nomatch.
  unfold update_piece. cbn [pieces set_tree].
  rewrite Hx. nomatch. eexists. split; [done|]. split; [|done].
  assert (Hxl : x ∉ l ++ ls ++ ds).
  { pose proof (hk_nodup _ _ _ _ _ H) as Hn. assert (Hp : l ++ ls ++ ds ++ [x] ≡ₚ x :: l ++ ls ++ ds) by
      solve_Permutation.
    rewrite Hp in Hn. by apply NoDup_cons in Hn as [? _]. }
  assert (HneB : forall y, y ∈ before k -> y <> x) by (intros y Hy ->; apply Hxl; rewrite <- El, !elem_of_app; auto).
  assert (HneA : forall y, y ∈ after k -> y <> x) by (intros y Hy ->; apply Hxl; rewrite <- El, !elem_of_app; auto).
  assert (Hdom : forall y, y <> x -> y ∈ (before k ++ x :: after k) ++ ls ++ ds ++ [] <-> y ∈ l ++ ls ++ ds ++ [x]).
  { intros y Hy. rewrite <- El, !elem_of_app, elem_of_cons, list_elem_of_singleton, elem_of_nil. tauto. }
  split; cbn [io_hist_tree pieces io_hist_list io_hist_len trim_list trim_entries set_pieces set_tree set_len].
  - exists R'. split; [done|]. apply (Permutation_cons_inv (a := x)). rewrite HR' in HRp. cbn in HRp. rewrite HRp.
    solve_Permutation.
  - intros y. destruct (decide (y = x)) as [->|Hyx].
    + rewrite lookup_insert_eq, !elem_of_app, elem_of_cons. split; [auto|]. intros _. by eexists.
    + rewrite lookup_insert_ne, (hk_dom _ _ _ _ _ H) by done. by rewrite Hdom.
  - intros y p Hy. apply lookup_insert_Some in Hy as [[<- <-]|[_ Hy]]; [|by eapply (hk_ranged _ _ _ _ _ H)].
    by apply (hk_ranged _ _ _ _ _ H x q).
  - intros y p Hy Hp. apply lookup_insert_Some in Hp as [[<- <-]|[Hyx Hp]].
    + change IP_F_ONRB with (2 ^ 0). change IP_F_ONLIST with (2 ^ 1) in *. rewrite !has_add_flag by done. rewrite Hq.
      done.
    + apply (hk_rb _ _ _ _ _ H y); [|done]. rewrite <- El. rewrite elem_of_app, elem_of_cons in *. naive_solver.
  - apply (hk_list _ _ _ _ _ H).
  - intros y p Hy Hp. apply lookup_insert_Some in Hp as [[<- <-]|[_ Hp]]; [exfalso; apply Hxl; rewrite !elem_of_app;
      auto|]. by apply (hk_onlist _ _ _ _ _ H y).
  - pose proof (hk_sorted _ _ _ _ _ H) as Hs. rewrite <- El in Hs. rewrite sorted_app in Hs.
    destruct Hs as (S1 & S2 & S3).
    match goal with |- StronglySorted (ord ?g) _ => set (h' := g) end.
    assert (Hl : forall y, y <> x -> pieces h' !! y = pieces h !! y) by (intros y Hy; by apply lookup_insert_ne).
    assert (Hx' : pieces h' !! x = Some (add_flag IP_F_ONRB q)) by apply lookup_insert_eq. rewrite sorted_app. split_and!.
    + apply (ord_ext h); [|done]. intros y Hy. by apply Hl, HneB.
    + constructor; [apply (ord_ext h); [|done]; intros y Hy; by apply Hl, HneA|]. rewrite Forall_forall in Ha |- *.
      intros y Hy.
      destruct (Ha y Hy) as (p & Hp & Hprec). exists (add_flag IP_F_ONRB q), p. rewrite (Hl y) by (by apply HneA). done.
    + intros a b Hia Hib. assert (a <> x) by (by apply HneB). apply elem_of_cons in Hib as [->|Hib].
      * rewrite Forall_forall in Hb. destruct (Hb a Hia) as (p & Hp & Hprec). exists p, (add_flag IP_F_ONRB q).
        rewrite (Hl a) by done. done.
      * destruct (S3 a b Hia Hib) as (p & p' & Hp & Hp' & Hprec). exists p, p'. rewrite (Hl a), (Hl b) by auto. done.
  - destruct (hk_trim _ _ _ _ _ H) as [T1 T2]. split; [done|]. intros y Hy. specialize (T2 y Hy). rewrite <- El in T2.
    rewrite !elem_of_app, elem_of_cons, ?list_elem_of_singleton in *. tauto.
  - apply (hk_entries _ _ _ _ _ H).
  - rewrite (hk_len _ _ _ _ _ H), u64_add, <- El, !length_app. cbn [length]. f_equal. lia.
Qed.
End place.

(** A piece [y] that overlaps the new one leaves the tree; its memory is kept while its write is in flight. *)
Lemma place_clash h l ls ds x q y p : hist_ok h l ls ds [x] -> y ∈ l -> pieces h !! y = Some p -> ~ apart q p ->
  exists h2 A B ds2, l = A ++ y :: B /\
    (let h := set_len h (io_hist_len h - 1) in
     t ← rb_erase (io_hist_tree h) y; let h := remove_trim_entry (set_tree h t) y in
     p ← pieces h !! y; if has_flag IP_F_IN_FLIGHT p then Some h else free_ipo h y) = Some h2 /\
    hist_ok h2 (A ++ B) ls ds2 [x] /\ kept h q l = kept h2 q (A ++ B) /\
    (forall z, z ∈ (A ++ B) ++ ls ++ [x] -> pieces h2 !! z = pieces h !! z).
Proof.
  intros H Hy Hp Hc. destruct (hk_tree _ _ _ _ _ H) as (R & HR & HRp).
  destruct (erase_seq _ _ _ _ HR Hy) as (s' & n' & A & B & Ee & El & Hs & _).
  cbn [io_hist_tree set_len]. rewrite Ee. nomatch. set (h0 := set_tree (set_len h (io_hist_len h - 1)) s').
  set (h1 := remove_trim_entry h0 y).
  destruct (remove_trim_frame h0 y) as (F1 & F2 & F3 & F4). destruct (hk_trim _ _ _ _ _ H) as [T1 _].
  destruct (remove_trim_spec h0 y T1 (hk_entries _ _ _ _ _ H)) as [G1 G2]. fold h1 in F1, F2, F3, F4, G1, G2.
  cbn in F1, F2, F3, F4, G1, G2.
  rewrite El in H. assert (H1 : hist_ok h1 (A ++ B) ls (y :: ds) [x]).
  { eapply drop_ok; [exact H|by rewrite F1|done|done|rewrite F3; apply (hk_list _ _ _ _ _ H)|done|done|by rewrite G2,
      G1]. }
  assert (Hyn : y ∉ (A ++ B) ++ ls ++ [x]).
  { pose proof (hk_nodup _ _ _ _ _ H) as Hn. assert (Hpm : (A ++ y :: B) ++ ls ++ ds ++ [x] ≡ₚ y :: ((A ++ B) ++ ls
      ++ [x]) ++ ds) by solve_Permutation.
    rewrite Hpm in Hn. apply NoDup_cons in Hn as [Hn _]. rewrite elem_of_app in Hn. tauto. }
  assert (Hab : apartb h q y = false) by (unfold apartb; rewrite Hp; by apply bool_decide_false). rewrite F2, Hp. nomatch.
  destruct (has_flag IP_F_IN_FLIGHT p).
  - exists h1, A, B, (y :: ds). split_and!; [done|done|done| |intros z _; by rewrite F2].
    rewrite El, kept_drop by done. symmetry. apply kept_ext. intros z _. by rewrite F2.
  - destruct (free_ok _ _ _ _ _ _ H1) as (h2 & -> & H2 & P2 & _). rewrite F2 in P2.
    assert (Hsame : forall z, z ∈ (A ++ B) ++ ls ++ [x] -> pieces h2 !! z = pieces h !! z).
    { intros z Hz. rewrite P2, lookup_delete_ne; [done|]. by intros <-. }
    exists h2, A, B, ds. split_and!; [done|done|done| |done]. rewrite El, kept_drop by done. symmetry.
    apply kept_ext. intros z Hz. apply Hsame. by rewrite elem_of_app; left.
Qed.

Lemma place_spec fuel : forall h l ls ds x q, (length l < fuel)%nat -> hist_ok h l ls ds [x] -> pieces h !! x = Some q ->
  has_flag IP_F_ONLIST q = false ->
  exists h' A B ds', place fuel h x q = Some h' /\ hist_ok h' (A ++ x :: B) ls ds' [] /\ kept h q l = A ++ B /\
    pieces h' !! x = Some (add_flag IP_F_ONRB q) /\ (forall y, y ∈ (A ++ B) ++ ls -> pieces h' !! y = pieces h !! y).
Proof.
  induction fuel as [|fuel IH]; intros h l ls ds x q Hf H Hx Hq; [lia|]. cbn [place].
  pose proof (hk_ranged _ _ _ _ _ H x q Hx) as Hrq.
  destruct (hk_tree _ _ _ _ _ H) as (R & (t & N & Ht & HW & HC & HI) & HRp).
  rewrite (root_top _ _ _ Ht). pose proof (hk_size _ _ _ _ _ H) as Hsz. pose proof (depth_inorder t) as Hd.
  destruct (find_slot_spec h q Hrq t (S (size (pieces h))) [] R Ht) as [(k & E & Ep & HR & Hb & Ha)|(y & p & E & Hy &
    Hp & Hc)];
    [rewrite HI in Hd; lia|rewrite HI; by eapply hk_known|cbn; rewrite app_nil_r, HI;
      apply (hk_sorted _ _ _ _ _ H)|constructor|constructor| |].
  - cbn [up link_of] in E. rewrite E. nomatch. change (plug [] t) with t in Ep.
    assert (El : before k ++ after k = l) by (rewrite <- HI, <- Ep, inorder_around; done).
    destruct (place_here h l ls ds x q H Hx Hq k R) as (h' & E' & H' & P'); [exists N;
      by rewrite Ep|done|done|done|done|].
    exists h', (before k), (after k), ds. split_and!; [done|done| |by rewrite P', lookup_insert_eq|].
    + rewrite <- El. apply kept_all, Forall_app. split; [apply (Forall_impl _ _ _ Hb)|apply (Forall_impl _ _ _ Ha)]; auto.
    + intros y Hy. rewrite P', lookup_insert_ne; [done|]. intros <-. rewrite El in Hy.
      pose proof (hk_nodup _ _ _ _ _ H) as Hn.
      assert (Hpm : l ++ ls ++ ds ++ [x] ≡ₚ x :: (l ++ ls) ++ ds) by solve_Permutation. rewrite Hpm in Hn.
      apply NoDup_cons in Hn as [Hn _]. apply Hn. rewrite elem_of_app. by left.
  - cbn [up link_of] in E. rewrite E. nomatch. rewrite HI in Hy.
    destruct (place_clash h l ls ds x q y p H Hy Hp Hc) as (h2 & A & B & ds2 & El & E2 & H2 & Ek & Hsame).
    cbv zeta in E2. destruct (rb_erase _ y) as [s'|]; [|done]. cbn [mbind option_bind] in E2 |- *.
    destruct (pieces (remove_trim_entry _ y) !! y) as [p'|]; [|done].
    cbn [mbind option_bind] in E2 |- *. rewrite E2. nomatch.
    destruct (IH h2 (A ++ B) ls ds2 x q) as (h' & A' & B' & ds' & E' & H' & Ek' & Hx' & Hs').
    + rewrite El, length_app in Hf. rewrite length_app. cbn in Hf. lia.
    + done.
    + rewrite Hsame; [done|]. rewrite !elem_of_app. right. right. by left.
    + done.
    + exists h', A', B', ds'. split_and!; [done|done|by rewrite Ek|done|]. intros z Hz. rewrite Hs' by done. apply Hsame.
      rewrite <- Ek' in Hz. rewrite !elem_of_app in *. unfold kept in Hz.
      rewrite list_elem_of_filter, elem_of_app in Hz. tauto.
Qed.
