(* ===== verification/IoHistSpec.v ===== *)
(** * The history of writes: what is verified

    Logging a write keeps the pieces it does not overlap, and puts it among them; the next
    piece to verify is the first one, once its write has completed.  The invariant
    holds along every run of the operations, but for three events that break the
    history: the failure of a write that another overwrote in flight, the failure
    of a write that is to be trimmed, and a file that does not open when a piece
    that is to be trimmed is verified. *)

From Stdlib Require Import Sorting.Sorted.
From S2P Require Import Prelude Bits RbTree RbRep RbInsert RbErase RbSpec Rand LatHist IoHist IoHistProofs.

Open Scope Z_scope.

(** ** Logging *)

(** What [calloc] may return. *)
Definition fresh (h : hist) (x : Z) : Prop := x <> 0 /\ aligned x /\ pieces h !! x = None.

Lemma fresh_not_in h l ls ds pend x : hist_ok h l ls ds pend -> fresh h x -> x ∉ l ++ ls ++ ds ++ pend.
Proof. intros H (_ & _ & Hx) Hin. apply (hk_dom _ _ _ _ _ H) in Hin as [p Hp]. congruence. Qed.

Lemma alloc_ok h l ls ds x q : hist_ok h l ls ds [] -> fresh h x -> ranged q -> hist_ok (alloc_ipo h x q) l ls ds [x].
Proof.
  intros H Hx Hq. pose proof (fresh_not_in _ _ _ _ _ _ H Hx) as Hn. destruct Hx as (H0 & Ha & Hx).
  rewrite app_nil_r in Hn.
  assert (Hne : forall y, y ∈ l ++ ls -> y <> x) by (intros y Hy ->; apply Hn; rewrite !elem_of_app in *; tauto).
  split; cbn [io_hist_tree pieces io_hist_list io_hist_len trim_list trim_entries set_pieces set_tree alloc_ipo].
  - destruct (hk_tree _ _ _ _ _ H) as (R & HR & Hp). rewrite app_nil_r in Hp. exists ((x, Node x x 0) :: R). split.
    + apply seq_alloc; [done| |done|done]. rewrite elem_of_app, Hp. by rewrite elem_of_app in Hn.
    + cbn. rewrite Hp. solve_Permutation.
  - intros y. destruct (decide (y = x)) as [->|Hy].
    + rewrite lookup_insert_eq, !elem_of_app. split; [|by eexists]. intros _. right. right. right. by left.
    + rewrite lookup_insert_ne, (hk_dom _ _ _ _ _ H) by done.
      rewrite !elem_of_app, list_elem_of_singleton, elem_of_nil. tauto.
  - intros y p Hy. apply lookup_insert_Some in Hy as [[<- <-]|[_ Hy]]; [done|by eapply (hk_ranged _ _ _ _ _ H)].
  - intros y p Hy Hp. rewrite lookup_insert_ne in Hp; [by apply (hk_rb _ _ _ _ _ H y)|]. intros <-.
    apply (Hne x); [|done]. by rewrite elem_of_app; left.
  - apply (hk_list _ _ _ _ _ H).
  - intros y p Hy Hp. rewrite lookup_insert_ne in Hp; [by apply (hk_onlist _ _ _ _ _ H y)|]. intros <-.
    apply (Hne x); [|done]. by rewrite elem_of_app; right.
  - apply (ord_ext h); [|apply (hk_sorted _ _ _ _ _ H)]. intros y Hy. apply lookup_insert_ne. intros <-.
    apply (Hne x); [|done]. by rewrite elem_of_app; left.
  - destruct (hk_trim _ _ _ _ _ H) as [T1 T2]. split; [done|]. intros y Hy. specialize (T2 y Hy).
    rewrite !elem_of_app, ?elem_of_nil in *. tauto.
  - apply (hk_entries _ _ _ _ _ H).
  - apply (hk_len _ _ _ _ _ H).
Qed.

Lemma set_trim_state_ok h l ls ds pend s : hist_ok h l ls ds pend -> hist_ok (set_trim_state h s) l ls ds pend.
Proof. by intros []. Qed.

Lemma set_verify_state_ok h l ls ds pend s : hist_ok h l ls ds pend -> hist_ok (set_verify_state h s) l ls ds pend.
Proof. by intros []. Qed.

Lemma should_trim_ok h l ls ds pend pc b h' : hist_ok h l ls ds pend -> io_u_should_trim h pc = (b, h') ->
  hist_ok h' l ls ds pend /\ pieces h' = pieces h /\ trim_list h' = trim_list h.
Proof.
  intros H E. unfold io_u_should_trim in E. case_decide; [by injection E as <- <-|].
  destruct (rand_ (trim_state h)) as [r st].
  injection E as <- <-. split; [by apply set_trim_state_ok|done].
Qed.

(** The new piece goes onto the trim list. *)
Lemma add_trim_ok h l ls ds x : hist_ok h l ls ds [x] -> x ∉ trim_list h ->
  hist_ok (set_trims h (trim_list h ++ [x]) (trim_entries h + 1)) l ls ds [x].
Proof.
  intros H Hx. destruct H as [K1 K2 K3 K4 K5 K6 K7 [T1 T2] K9 K10].
  split; try done; cbn [trim_list trim_entries set_trims].
  - split.
    + apply NoDup_app. split_and!; [done| |apply NoDup_singleton]. intros y Hy Hy'.
      apply list_elem_of_singleton in Hy' as ->. done.
    + intros y Hy. apply elem_of_app in Hy as [Hy|Hy]; [by apply T2|]. rewrite !elem_of_app. auto.
  - rewrite K9, u64_add, length_app. cbn. f_equal. lia.
Qed.

Lemma clear_node_ok h l ls ds x : hist_ok h l ls ds [x] ->
  exists t, RB_CLEAR_NODE (io_hist_tree h) x = Some t /\ hist_ok (set_tree h t) l ls ds [x].
Proof.
  intros H. destruct (hk_cell _ _ _ _ _ x H) as (n & R & HR & Hp); [rewrite !elem_of_app; right; right; by left|].
  edestruct (seq_upd _ _ _ _ _ (with_pc (fun pc => Z.lor (Z.land pc 3) x)) HR) as (t & E & Ht & _). exists t.
  split; [exact E|].
  destruct H as [K1 K2 K3 K4 K5 K6 K7 K8 K9 K10]. split; try done. eexists. by split; [exact Ht|].
Qed.

(** The piece that a unit is logged as. *)
Definition piece_of (file offset buflen numberio : Z) : io_piece := IoPiece file offset buflen numberio IP_F_IN_FLIGHT.

Lemma log_spec h l ls ds x file offset buflen numberio pc :
  hist_ok h l ls ds [] -> fresh h x -> ranged (piece_of file offset buflen numberio) ->
  let q := piece_of file offset buflen numberio in
  (exists h' A B ds', log_io_piece h x file offset buflen numberio pc false = Some h' /\
    hist_ok h' (A ++ x :: B) ls ds' [] /\
     kept h q l = A ++ B /\ pieces h' !! x = Some (add_flag IP_F_ONRB q) /\ (forall y, y ∈ (A ++ B) ++ ls ->
       pieces h' !! y = pieces h !! y)) /\
  (exists h', log_io_piece h x file offset buflen numberio pc true = Some h' /\ hist_ok h' l (ls ++ [x]) ds [] /\
     pieces h' !! x = Some (add_flag IP_F_ONLIST q) /\ (forall y, y <> x -> pieces h' !! y = pieces h !! y)).
Proof.
  intros H Hx Hq q. unfold log_io_piece. fold (piece_of file offset buflen numberio). fold q.
  pose proof (fresh_not_in _ _ _ _ _ _ H Hx) as Hnin.
  pose proof (alloc_ok _ _ _ _ _ _ H Hx Hq) as H1. fold q in H1.
  destruct (io_u_should_trim (alloc_ipo h x q) pc) as [b h2] eqn:Et.
  destruct (should_trim_ok _ _ _ _ _ _ _ _ H1 Et) as (H2 & P2 & L2).
  set (h3 := if b then _ else h2). assert (H3 : hist_ok h3 l ls ds [x] /\ pieces h3 = <[x := q]> (pieces h)).
  { unfold h3. destruct b; [|by rewrite P2]. split; [|by cbn; rewrite P2]. apply add_trim_ok;
      [done|]. rewrite L2. cbn. intros Hin.
    destruct (hk_trim _ _ _ _ _ H) as [_ T]. apply T in Hin. apply Hnin. rewrite !elem_of_app in *. tauto. }
  destruct H3 as [H3 P3]. assert (Hnx : forall y, y ∈ l ++ ls ++ ds -> y <> x) by (intros y Hy ->; apply Hnin;
    rewrite !elem_of_app in *; tauto).
  assert (Hqx : pieces h3 !! x = Some q) by (rewrite P3; apply lookup_insert_eq). split.
  - destruct (clear_node_ok _ _ _ _ _ H3) as (t & -> & H4). nomatch.
    destruct (place_spec (S (size (pieces h3))) (set_tree h3 t) l ls ds x q) as (h' & A & B & ds' & E' & H' & Ek & Px
      & Hsame);
      [pose proof (hk_size _ _ _ _ _ H4) as Hsz; cbn in Hsz; lia|done|done|done|].
    exists h', A, B, ds'. split_and!; [done|done| |done|].
    + rewrite <- Ek. symmetry. apply kept_ext. intros y Hy. cbn. rewrite P3. apply lookup_insert_ne. intros <-.
      apply (Hnx x); [|done]. by rewrite elem_of_app; left.
    + intros y Hy. rewrite Hsame by done. cbn. rewrite P3. apply lookup_insert_ne. intros <-. apply (Hnx x); [|done].
      rewrite <- Ek in Hy.
      rewrite !elem_of_app in *. unfold kept in Hy. rewrite list_elem_of_filter in Hy. tauto.
  - unfold update_piece. cbn [pieces set_list]. rewrite Hqx. nomatch. eexists. split; [done|].
    cbn [pieces set_len set_pieces set_list]. split; [|split; [by rewrite lookup_insert_eq|]].
    2: { intros y Hy. rewrite lookup_insert_ne, P3 by done. by rewrite lookup_insert_ne. }
    destruct H3 as [K1 K2 K3 K4 K5 K6 K7 [T1 T2] K9 K10].
    split; cbn [io_hist_tree pieces io_hist_list io_hist_len trim_list trim_entries set_pieces set_tree set_len set_list].
    + destruct K1 as (R & HR & Hp). exists R. split; [done|]. rewrite Hp. solve_Permutation.
    + intros y. destruct (decide (y = x)) as [->|Hy].
      * rewrite lookup_insert_eq, !elem_of_app. split; [|by eexists]. intros _. right. left. right. by left.
      * rewrite lookup_insert_ne, K2 by done. rewrite !elem_of_app, ?list_elem_of_singleton, ?elem_of_nil. tauto.
    + intros y p Hy. apply lookup_insert_Some in Hy as [[<- <-]|[_ Hy]]; [done|by eapply K3].
    + intros y p Hy Hp. rewrite lookup_insert_ne in Hp; [by apply (K4 y)|]. intros <-. apply (Hnx x); [|done].
      by rewrite elem_of_app; left.
    + by rewrite K5.
    + intros y p Hy Hp. apply lookup_insert_Some in Hp as [[<- <-]|[Hyx Hp]]; [done|]. apply (K6 y); [|done].
      apply elem_of_app in Hy as [Hy|Hy]; [done|]. by apply list_elem_of_singleton in Hy.
    + apply (ord_ext h3); [|done]. intros y Hy. apply lookup_insert_ne. intros <-. apply (Hnx x); [|done].
      by rewrite elem_of_app; left.
    + split; [done|]. intros y Hy. specialize (T2 y Hy). rewrite !elem_of_app, ?elem_of_nil in *. tauto.
    + done.
    + rewrite K10, u64_add, length_app. cbn [length]. f_equal. lia.
Qed.

(** ** Taking a piece out of the list *)

Lemma flist_del_perm y (l : list Z) : NoDup l -> y ∈ l -> l ≡ₚ y :: flist_del y l.
Proof.
  intros Hn Hy. apply NoDup_Permutation; [done| |].
  - constructor; [by apply flist_del_subset|]. by apply (flist_del_spec y l Hn Hy).
  - intros z. rewrite elem_of_cons. destruct (flist_del_spec y l Hn Hy) as (_ & _ & Hz). rewrite Hz.
    destruct (decide (z = y)) as [->|]; naive_solver.
Qed.

Lemma drop_list_ok h h2 l ls ds y : hist_ok h l ls ds [] -> y ∈ ls ->
  io_hist_tree h2 = io_hist_tree h -> pieces h2 = pieces h -> io_hist_list h2 = flist_del y ls ->
    io_hist_len h2 = u64 (io_hist_len h - 1) ->
  trim_list h2 = flist_del y (trim_list h) -> trim_entries h2 = u64 (Z.of_nat (length (trim_list h2))) ->
  hist_ok h2 l (flist_del y ls) (y :: ds) [].
Proof.
  intros H Hy Ht Hp Hl Hn Htl He. pose proof (hk_nodup _ _ _ _ _ H) as Hnd.
  assert (Hnl : NoDup ls) by (rewrite !NoDup_app in Hnd; tauto).
  pose proof (flist_del_perm y ls Hnl Hy) as Hperm. pose proof (flist_del_subset y ls) as [Hsub Hny].
  assert (Hmem : forall x, x ∈ ls <-> x = y \/ x ∈ flist_del y ls).
  { intros x. destruct (flist_del_spec y ls Hnl Hy) as (_ & _ & Hz). rewrite Hz. destruct (decide (x = y)) as [->|];
      naive_solver. }
  destruct H as [K1 K2 K3 K4 K5 K6 K7 [T1 T2] K9 K10]. split.
  - destruct K1 as (R & HR & HRp). exists R. rewrite Ht. split; [done|]. rewrite HRp. rewrite Hperm at 1.
    solve_Permutation.
  - intros x. rewrite Hp, K2. rewrite !elem_of_app, Hmem, !elem_of_cons. tauto.
  - by rewrite Hp.
  - by rewrite Hp.
  - done.
  - intros x p Hx. rewrite Hp. apply K6. by apply Hsub.
  - by apply (ord_ext h); [rewrite Hp|].
  - rewrite Htl. split; [by apply NoDup_filter|]. intros z Hz. destruct (flist_del_subset y (trim_list h)) as [S1 S2].
    assert (z <> y) by (by intros ->). specialize (T2 z (S1 z Hz)). rewrite !elem_of_app, Hmem in T2.
    rewrite !elem_of_app. tauto.
  - done.
  - rewrite Hn, K10, (Permutation_length Hperm). cbn [length]. rewrite <- Z.add_opp_r, u64_add. f_equal. lia.
Qed.

(** A change of a piece that keeps its place. *)
Lemma update_ok h l ls ds y p f : hist_ok h l ls ds [] -> pieces h !! y = Some p ->
  ip_file (f p) = ip_file p -> ip_offset (f p) = ip_offset p -> 0 <= ip_len (f p) <= ip_len p ->
  has_flag IP_F_ONRB (f p) = has_flag IP_F_ONRB p -> has_flag IP_F_ONLIST (f p) = has_flag IP_F_ONLIST p ->
  exists h', update_piece h y f = Some h' /\ hist_ok h' l ls ds [] /\ pieces h' = <[y := f p]> (pieces h).
Proof.
  intros H Hy Hf Ho Hl H1 H2. unfold update_piece. rewrite Hy. nomatch. eexists. split; [done|]. split; [|done].
  destruct H as [K1 K2 K3 K4 K5 K6 K7 [T1 T2] K9 K10].
  assert (Hlook : forall x q, <[y := f p]> (pieces h) !! x = Some q -> exists q0, pieces h !! x = Some q0 /\
    (q = q0 \/ (q0 = p /\ q = f p))).
  { intros x q Hx. apply lookup_insert_Some in Hx as [[<- <-]|[_ Hx]]; eauto. }
  assert (Hord : forall x, is_Some (pieces h !! x) -> exists q0 q, pieces h !! x = Some q0 /\
    <[y := f p]> (pieces h) !! x = Some q /\
            ip_file q = ip_file q0 /\ ip_offset q = ip_offset q0 /\ ip_len q <= ip_len q0).
  { intros x [q0 Hx]. destruct (decide (x = y)) as [->|Hne].
    - rewrite Hy in Hx. injection Hx as <-. exists p, (f p). rewrite lookup_insert_eq.
      split_and!; [done|done|done|done|lia].
    - exists q0, q0. rewrite lookup_insert_ne by done. split_and!; [done|done|done|done|lia]. }
  split; cbn [io_hist_tree pieces io_hist_list io_hist_len trim_list trim_entries set_pieces]; try done.
  - intros x. rewrite <- K2. destruct (decide (x = y)) as [->|Hne]; [rewrite lookup_insert_eq, Hy; split;
      by eexists|by rewrite lookup_insert_ne].
  - intros x q Hx. destruct (Hlook x q Hx) as (q0 & Hq0 & [->|[-> ->]]); [by eapply K3|].
    pose proof (K3 _ _ Hq0) as Hr. unfold ranged in *. lia.
  - intros x q Hin Hx. destruct (Hlook x q Hx) as (q0 & Hq0 & [->|[-> ->]]); [by apply (K4 x)|]. rewrite H1, H2.
    by apply (K4 x).
  - intros x q Hin Hx. destruct (Hlook x q Hx) as (q0 & Hq0 & [->|[-> ->]]); [by apply (K6 x)|]. rewrite H1, H2.
    by apply (K6 x).
  - clear -K7 Hord. induction K7 as [|x l Hs IH Hx]; [constructor|]. constructor; [done|].
    rewrite Forall_forall in Hx |- *. intros z Hz.
    destruct (Hx z Hz) as (a & b & Ha & Hb & Hab).
    destruct (Hord x ltac:(by eexists)) as (a0 & a' & Ea & Ea' & F1 & F2 & F3).
    destruct (Hord z ltac:(by eexists)) as (b0 & b' & Eb & Eb' & G1 & G2 & G3). rewrite Ea in Ha. rewrite Eb in Hb.
    injection Ha as ->. injection Hb as ->.
    exists a', b'. split_and!; [done|done|]. unfold precedes in *. lia.
Qed.

(** ** Pieces that leave for good *)

Lemma remove_trim_eq h y : NoDup (trim_list h) -> trim_entries h = u64 (Z.of_nat (length (trim_list h))) ->
  remove_trim_entry h y = set_trims h (flist_del y (trim_list h)) (Z.of_nat (length (flist_del y (trim_list h)))).
Proof.
  intros Hn He. destruct (remove_trim_spec h y Hn He) as [E1 E2]. unfold remove_trim_entry in *. destruct h. cbn in *.
  case_decide; cbn in *; unfold set_trims; cbn; congruence.
Qed.

(** The history without [y]: off the tree, the list and the trim list, and freed. *)
Definition without (h : hist) (t : store) (y : Z) (ls : list Z) : hist :=
  let trims := flist_del y (trim_list h) in
  Hist (Store (delete y (cells t)) (rb_node t)) (delete y (pieces h)) ls (u64 (io_hist_len h - 1)) trims (u64 (Z.of_nat (length trims)))
       (trim_state h) (verify_state h).

Lemma without_tree_ok h l ls ds y : hist_ok h l ls ds [] -> y ∈ l ->
  exists t A B, rb_erase (io_hist_tree h) y = Some t /\ l = A ++ y :: B /\ hist_ok (without h t y ls) (A ++ B) ls ds [].
Proof.
  intros H Hy. destruct (hk_tree _ _ _ _ _ H) as (R & HR & HRp).
  destruct (erase_seq _ _ _ _ HR Hy) as (t & n & A & B & E & El & Ht & _).
  exists t, A, B. split; [done|]. split; [done|]. rewrite El in H.
  assert (H2 : hist_ok (set_trims (set_len (set_tree h t) (io_hist_len h - 1)) (flist_del y (trim_list h)) (Z.of_nat
    (length (flist_del y (trim_list h))))) (A ++ B) ls (y :: ds) []).
  { eapply drop_ok; try done. apply (hk_list _ _ _ _ _ H). }
  destruct (free_ok _ _ _ _ _ _ H2) as (h' & E' & H' & _). unfold free_ipo in E'. cbn in E'.
  destruct (pieces h !! y); [|done].
  cbn in E'. injection E' as <-. unfold set_pieces, set_tree, set_trims, set_len in H'. cbn in H'.
  by rewrite (hk_list _ _ _ _ _ H) in H'.
Qed.

Lemma without_list_ok h l ls ds y : hist_ok h l ls ds [] -> y ∈ ls ->
  hist_ok (without h (io_hist_tree h) y (flist_del y ls)) l (flist_del y ls) ds [].
Proof.
  intros H Hy.
  assert (H2 : hist_ok (set_trims (set_len (set_list h (flist_del y ls)) (io_hist_len h - 1)) (flist_del y (trim_list
    h)) (Z.of_nat (length (flist_del y (trim_list h)))))
                       l (flist_del y ls) (y :: ds) []) by (by eapply drop_list_ok).
  destruct (free_ok _ _ _ _ _ _ H2) as (h' & E' & H' & _). unfold free_ipo in E'. cbn in E'.
  destruct (pieces h !! y); [|done].
  cbn in E'. by injection E' as <-.
Qed.

Lemma delete_updated (m : gmap Z io_piece) y p : delete y (<[y := p]> m) = delete y m.
Proof. apply delete_insert_eq. Qed.

(** ** What is verified next *)

(** What is put into a unit for the piece [p]. *)
Definition unit_of (p : io_piece) (seed : option Z) : unit_ :=
  Unit_ (ip_offset p) (ip_len p) (ip_numberio p) (ip_file p) (has_flag IP_F_TRIMMED p) seed.

(** The unit is made from [p], the piece at [y], which leaves the history. *)
Definition verifies (h : hist) (res : option (Z * option unit_ * hist)) (t : store) (y : Z) (p : io_piece) (ls : list Z) : Prop :=
  exists seed st, res = Some (0, Some (unit_of p seed), set_verify_state (without h t y ls) st).

Lemma verify_end h h1 t y p p' ls pb :
  NoDup (trim_list h) -> trim_entries h = u64 (Z.of_nat (length (trim_list h))) ->
  h1 = set_len (Hist t (<[y := p']> (pieces h)) ls (io_hist_len h) (trim_list h) (trim_entries h) (trim_state h)
    (verify_state h)) (io_hist_len h - 1) ->
  verifies h (h2 ← free_ipo (remove_trim_entry h1 y) y;
              if decide (pb <> 0) then Some (0, Some (unit_of p None), h2)
              else let '(r, st) := rand_ (verify_state h2) in let '(r', st) := rand_ st in
                   Some (0, Some (unit_of p (Some (u64 (r * r')))), set_verify_state h2 st)) t y p ls.
Proof.
  intros Hn He ->. rewrite remove_trim_eq by done. unfold free_ipo. cbn -[rand_ delete insert].
  rewrite lookup_insert_eq. cbn -[rand_ delete insert].
  rewrite delete_updated. unfold verifies. case_decide.
  - exists None, (verify_state h). done.
  - destruct (rand_ (verify_state h)) as [r st]. destruct (rand_ st) as [r' st']. by exists (Some (u64 (r * r'))), st'.
Qed.

(** The first piece of the tree, if its write has completed; without a tree, the first of the list. *)
Definition next_piece (h : hist) (l ls : list Z) : option Z := match l with y :: _ => Some y | [] => head ls end.

Lemma next_head h l ls : next_piece h l ls = head (l ++ ls).
Proof. by destruct l. Qed.

(** A piece that is not in the history any more may change. *)
Lemma update_ds_ok h l ls ds y q : hist_ok h l ls (y :: ds) [] -> ranged q ->
  hist_ok (set_pieces h (<[y := q]> (pieces h))) l ls (y :: ds) [].
Proof.
  intros H Hq. pose proof (hk_nodup _ _ _ _ _ H) as Hnd.
  assert (Hne : forall x, x ∈ l ++ ls -> x <> y).
  { intros x Hx ->. rewrite app_assoc in Hnd. apply NoDup_app in Hnd as (_ & Hnd & _). apply (Hnd y Hx). by left. }
  destruct H as [K1 K2 K3 K4 K5 K6 K7 K8 K9 K10].
  split; cbn [io_hist_tree pieces io_hist_list io_hist_len trim_list trim_entries set_pieces]; try done.
  - intros x. rewrite <- K2. destruct (decide (x = y)) as [->|]; [|by rewrite lookup_insert_ne].
    rewrite lookup_insert_eq. split; [intros _; apply K2|by eexists]. rewrite !elem_of_app, elem_of_cons. tauto.
  - intros x p Hx. apply lookup_insert_Some in Hx as [[_ <-]|[_ Hx]]; [done|by eapply K3].
  - intros x p Hx. rewrite lookup_insert_ne; [by apply K4|]. apply not_eq_sym, Hne. by rewrite elem_of_app; left.
  - intros x p Hx. rewrite lookup_insert_ne; [by apply K6|]. apply not_eq_sym, Hne. by rewrite elem_of_app; right.
  - apply (ord_ext h); [|done]. intros x Hx. apply lookup_insert_ne. apply not_eq_sym, Hne. by rewrite elem_of_app; left.
Qed.

(** The history after [y] was taken for verification and its file did not open: the piece is neither in
    the history nor freed. *)
Definition leaving (h : hist) (t : store) (y : Z) (p : io_piece) (ls : list Z) : hist :=
  set_len (Hist t (<[y := p]> (pieces h)) ls (io_hist_len h) (trim_list h) (trim_entries h) (trim_state h)
    (verify_state h)) (io_hist_len h - 1).

Lemma leaving_tree_ok h l ls ds y p : hist_ok h l ls ds [] -> y ∈ l -> y ∉ trim_list h -> ranged p ->
  exists t A B, rb_erase (io_hist_tree h) y = Some t /\ l = A ++ y :: B /\
    hist_ok (leaving h t y p ls) (A ++ B) ls (y :: ds) [].
Proof.
  intros H Hy Ht Hp. destruct (hk_tree _ _ _ _ _ H) as (R & HR & HRp).
  destruct (erase_seq _ _ _ _ HR Hy) as (t & n & A & B & E & El & HT & _).
  exists t, A, B. split; [done|]. split; [done|]. rewrite El in H.
  assert (H2 : hist_ok (set_len (set_tree h t) (io_hist_len h - 1)) (A ++ B) ls (y :: ds) []).
  { eapply drop_ok; try done; cbn.
    - apply (hk_list _ _ _ _ _ H).
    - by rewrite flist_del_id.
    - apply (hk_entries _ _ _ _ _ H). }
  pose proof (update_ds_ok _ _ _ _ _ p H2 Hp) as H3. unfold set_len, set_pieces, set_tree in H3. cbn in H3.
  unfold leaving, set_len. cbn. by rewrite (hk_list _ _ _ _ _ H) in H3.
Qed.

Lemma leaving_list_ok h l ls ds y p : hist_ok h l ls ds [] -> y ∈ ls -> y ∉ trim_list h -> ranged p ->
  hist_ok (leaving h (io_hist_tree h) y p (flist_del y ls)) l (flist_del y ls) (y :: ds) [].
Proof.
  intros H Hy Ht Hp.
  assert (H2 : hist_ok (set_len (set_list h (flist_del y ls)) (io_hist_len h - 1)) l (flist_del y ls) (y :: ds) []).
  { eapply drop_list_ok; try done; cbn; [by rewrite flist_del_id|apply (hk_entries _ _ _ _ _ H)]. }
  pose proof (update_ds_ok _ _ _ _ _ p H2 Hp) as H3. exact H3.
Qed.

(** [rest] is the history behind the piece that is taken. *)
Lemma verify_spec h l ls ds op pb : hist_ok h l ls ds [] ->
  match next_piece h l ls with
  | None => get_next_verify h false op pb = Some (1, None, h)
  | Some y => exists p, pieces h !! y = Some p /\
      (has_flag IP_F_IN_FLIGHT p = true -> get_next_verify h false op pb = Some (1, None, h)) /\
      (has_flag IP_F_IN_FLIGHT p = false -> exists t ls' p', unit_of p' None = unit_of p None /\
        (op (ip_file p) = true -> verifies h (get_next_verify h false op pb) t y p' ls' /\
           hist_ok (without h t y ls') (tail l) (if decide (l = []) then tail ls else ls) ds []) /\
        (op (ip_file p) = false ->
           get_next_verify h false op pb = Some (1, Some (unit_of p' None), leaving h t y p' ls') /\
           (y ∉ trim_list h ->
            hist_ok (leaving h t y p' ls') (tail l) (if decide (l = []) then tail ls else ls) (y :: ds) [])))
  end.
Proof.
  intros H. destruct (hk_tree _ _ _ _ _ H) as (R & HR & HRp). destruct (hk_trim _ _ _ _ _ H) as [T1 _].
  pose proof (hk_entries _ _ _ _ _ H) as He.
  assert (Hroot : rb_node (io_hist_tree h) <> 0 <-> l <> []).
  { destruct HR as (t & N & Ht & _ & _ & <-). rewrite (root_top _ _ _ Ht). destruct t as [|c lt a rt]; cbn; [done|].
    split; [by destruct (inorder lt)|intros _]. by apply (repr_get (io_hist_tree h) [] Left c lt a rt R). }
  assert (Hnd : NoDup (l ++ ls)).
  { pose proof (hk_nodup _ _ _ _ _ H) as Hn. rewrite app_assoc in Hn. by apply NoDup_app in Hn as [? _]. }
  unfold get_next_verify, take_piece. destruct l as [|y l]; cbn [next_piece].
  - rewrite decide_False by tauto. rewrite (hk_list _ _ _ _ _ H). destruct ls as [|y ls]; cbn [head]; [done|].
    destruct (proj2 (hk_dom _ _ _ _ _ H y)) as [p Hp]; [set_solver|]. exists p. split; [done|]. rewrite Hp. nomatch.
    split; intros ->; nomatch; [done|].
    destruct (hk_onlist _ _ _ _ _ H y p ltac:(by left) Hp) as [-> _]. unfold update_piece. cbn [pieces set_list].
    rewrite Hp. nomatch.
    cbn [pieces set_pieces set_list]. rewrite lookup_insert_eq. nomatch.
    assert (Ey : flist_del y (y :: ls) = ls).
    { cbn in Hnd. apply NoDup_cons in Hnd as [Hn _]. unfold flist_del.
      rewrite filter_cons, decide_False by tauto. by apply flist_del_id. }
    exists (io_hist_tree h), ls, (clear_flag IP_F_ONLIST p). rewrite decide_True by done. cbn [tail]. split_and!.
    + unfold unit_of. f_equal. change IP_F_TRIMMED with (2 ^ 2). change IP_F_ONLIST with (2 ^ 1).
      by rewrite has_clear_flag by done.
    + intros Eo. change (ip_file p) with (ip_file (clear_flag IP_F_ONLIST p)) in Eo. rewrite Eo. split.
      * eapply verify_end; done.
      * pose proof (without_list_ok _ _ _ _ y H ltac:(by left)) as H'. by rewrite Ey in H'.
    + intros Eo. change (ip_file p) with (ip_file (clear_flag IP_F_ONLIST p)) in Eo. rewrite Eo. split; [done|].
      intros Ht.
      pose proof (leaving_list_ok _ _ _ _ y (clear_flag IP_F_ONLIST p) H ltac:(by left) Ht
        (hk_ranged _ _ _ _ _ H y p Hp)) as H'. by rewrite Ey in H'.
  - rewrite decide_True by (by apply Hroot). rewrite (first_seq _ _ _ HR). change (default 0 (head (y :: l))) with y.
    nomatch.
    destruct (proj2 (hk_dom _ _ _ _ _ H y)) as [p Hp]; [set_solver|]. exists p. split; [done|]. rewrite Hp. nomatch.
    split; intros ->; nomatch; [done|].
    destruct (without_tree_ok _ _ _ _ y H ltac:(by left)) as (t & A & B & Et & El & H'). rewrite Et. nomatch.
    destruct (hk_rb _ _ _ _ _ H y p ltac:(by left) Hp) as [-> _]. unfold update_piece. cbn [pieces set_tree].
    rewrite Hp. nomatch.
    assert (Hn : NoDup (y :: l)) by (by apply NoDup_app in Hnd as [? _]).
    cbn [pieces set_pieces set_tree]. rewrite lookup_insert_eq. nomatch. exists t, ls, (clear_flag IP_F_ONRB p).
    rewrite decide_False by done. cbn [tail]. split_and!.
    + unfold unit_of. f_equal. change IP_F_TRIMMED with (2 ^ 2). change IP_F_ONRB with (2 ^ 0).
      by rewrite has_clear_flag by done.
    + intros Eo. change (ip_file p) with (ip_file (clear_flag IP_F_ONRB p)) in Eo. rewrite Eo. split.
      * eapply verify_end; try done. unfold set_len, set_pieces, set_tree. cbn. by rewrite (hk_list _ _ _ _ _ H).
      * destruct (split_unique [] l A B y Hn El) as [<- <-]. done.
    + intros Eo. change (ip_file p) with (ip_file (clear_flag IP_F_ONRB p)) in Eo. rewrite Eo. split.
      * unfold leaving, set_len, set_pieces, set_tree. cbn. by rewrite (hk_list _ _ _ _ _ H).
      * intros Ht. destruct (leaving_tree_ok _ _ _ _ y (clear_flag IP_F_ONRB p) H ltac:(by left) Ht
          (hk_ranged _ _ _ _ _ H y p Hp)) as (t2 & A2 & B2 & Et2 & El2 & H2).
        rewrite Et in Et2. injection Et2 as <-. destruct (split_unique [] l A2 B2 y Hn El2) as [<- <-]. exact H2.
Qed.

(** ** The other operations *)

Lemma member_piece h l ls ds y : hist_ok h l ls ds [] -> y ∈ l ++ ls -> exists p, pieces h !! y = Some p /\ y <> 0.
Proof.
  intros H Hy. destruct (proj2 (hk_dom _ _ _ _ _ H y)) as [p Hp]; [rewrite !elem_of_app in *; tauto|]. exists p.
  split; [done|].
  destruct (hk_tree _ _ _ _ _ H) as (R & HR & HRp).
  apply elem_of_app in Hy as [Hy|Hy]; [by apply (seq_member _ _ _ _ HR)|].
  destruct (hk_cell _ _ _ _ _ y H) as (n & R' & HR' & _); [rewrite elem_of_app; by left|].
  by apply (seq_cells _ _ _ _ _ HR').
Qed.

(** A write that failed, on a piece that is in the history and not to be trimmed. *)
Lemma unlog_spec h l ls ds y info tr wr : hist_ok h l ls ds [] -> y ∈ l ++ ls -> y ∉ trim_list h ->
  exists h' info' l' ls', unlog_io_piece h y info tr wr = Some (h', info') /\ hist_ok h' l' ls' ds [] /\
    l ++ ls ≡ₚ y :: l' ++ ls'.
Proof.
  intros H Hy Ht. destruct (member_piece _ _ _ _ _ H Hy) as (p & Hp & H0). unfold unlog_io_piece.
  rewrite decide_False, Hp by done. nomatch.
  assert (Htr : flist_del y (trim_list h) = trim_list h) by (by apply flist_del_id).
  pose proof (hk_entries _ _ _ _ _ H) as He. destruct (decide (y ∈ l)) as [Hl|Hl].
  - destruct (hk_rb _ _ _ _ _ H y p Hl Hp) as [-> _].
    destruct (without_tree_ok _ _ _ _ _ H Hl) as (t & A & B & -> & -> & H'). nomatch.
    unfold free_ipo. cbn. rewrite Hp. cbn. do 2 eexists. exists (A ++ B), ls. split; [done|]. split; [|solve_Permutation].
    unfold without in H'. rewrite Htr, <- He in H'. unfold set_len, set_pieces, set_tree. cbn.
    by rewrite (hk_list _ _ _ _ _ H).
  - assert (Hls : y ∈ ls) by (apply elem_of_app in Hy; tauto).
    destruct (hk_onlist _ _ _ _ _ H y p Hls Hp) as [-> ->]. nomatch.
    pose proof (without_list_ok _ _ _ _ _ H Hls) as H'. unfold free_ipo. cbn. rewrite Hp. cbn. do 2 eexists.
    exists l, (flist_del y ls). split; [done|].
    unfold without in H'. rewrite Htr, <- He in H'. unfold set_len, set_pieces, set_tree, set_list. cbn.
    rewrite (hk_list _ _ _ _ _ H). split; [done|].
    assert (Hnl : NoDup ls) by (pose proof (hk_nodup _ _ _ _ _ H) as Hn; rewrite !NoDup_app in Hn; tauto).
    rewrite (flist_del_perm y ls Hnl Hls) at 1. solve_Permutation.
Qed.

(** A write that completed. *)
Lemma complete_spec h l ls ds y p info tr wr : hist_ok h l ls ds [] -> pieces h !! y = Some p -> y <> 0 ->
  exists h', complete_piece h y false info tr wr = Some (h', info) /\ hist_ok h' l ls ds [] /\
    pieces h' = <[y := clear_flag IP_F_IN_FLIGHT p]> (pieces h).
Proof.
  intros H Hp H0. unfold complete_piece. rewrite decide_False by done.
  destruct (update_ok h l ls ds y p (clear_flag IP_F_IN_FLIGHT) H Hp) as (h' & -> & H' & P'); try done.
  - pose proof (hk_ranged _ _ _ _ _ H y p Hp) as Hr. unfold ranged in Hr. cbn. lia.
  - change IP_F_ONRB with (2 ^ 0). change IP_F_IN_FLIGHT with (2 ^ 3). by rewrite has_clear_flag.
  - change IP_F_ONLIST with (2 ^ 1). change IP_F_IN_FLIGHT with (2 ^ 3). by rewrite has_clear_flag.
  - nomatch. by exists h'.
Qed.

(** A short write. *)
Lemma short_spec h l ls ds y p xfer_buflen resid : hist_ok h l ls ds [] -> pieces h !! y = Some p ->
  0 <= resid <= xfer_buflen -> xfer_buflen <= ip_len p ->
  exists h', trim_io_piece h y xfer_buflen resid = Some h' /\ hist_ok h' l ls ds [].
Proof.
  intros H Hp Hr Hx. unfold trim_io_piece. case_decide; [by exists h|].
  pose proof (hk_ranged _ _ _ _ _ H y p Hp) as Hrg. unfold ranged in Hrg.
  edestruct (update_ok h l ls ds y p) as (h' & E & H' & _); [exact H|exact Hp| | | | | |exists h'; by split;
    [exact E|]]; try done. cbn. rewrite wrapu_small by lia. lia.
Qed.

Lemma remove_trim_ok h l ls ds y : hist_ok h l ls ds [] -> hist_ok (remove_trim_entry h y) l ls ds [].
Proof.
  intros H. destruct (hk_trim _ _ _ _ _ H) as [T1 T2]. rewrite remove_trim_eq by (done || apply (hk_entries _ _ _ _ _ H)).
  destruct H as [K1 K2 K3 K4 K5 K6 K7 K8 K9 K10]. split; try done; cbn [trim_list trim_entries set_trims].
  split; [by apply NoDup_filter|]. intros z Hz. apply T2. by apply flist_del_subset in Hz.
Qed.

(** The next piece to trim. *)
Lemma trim_spec h l ls ds op zero : hist_ok h l ls ds [] -> Z.of_nat (length (trim_list h)) < 2 ^ 64 ->
  match trim_list h with
  | [] => get_next_trim h false op zero = Some (false, None, h)
  | y :: _ => exists h' u p l' ls', get_next_trim h false op zero = Some (op (ip_file p), Some u, h') /\
    pieces h !! y = Some p /\
      u_offset u = ip_offset p /\ u_buflen u = ip_len p /\ u_file u = ip_file p /\ hist_ok h' l' ls' ds []
  end.
Proof.
  intros H Hlen. destruct (trim_list h) as [|y trims] eqn:Et; unfold get_next_trim; rewrite Et; [done|].
  destruct (hk_trim _ _ _ _ _ H) as [T1 T2]. pose proof (hk_entries _ _ _ _ _ H) as He.
  assert (Hy : y ∈ l ++ ls).
  { pose proof (T2 y) as Hin. rewrite Et in Hin. specialize (Hin ltac:(by left)). by rewrite app_nil_r in Hin. }
  rewrite decide_False by (rewrite He, Et, wrapu_small by lia; cbn; lia).
  destruct (member_piece _ _ _ _ _ H Hy) as (p & Hp & H0).
  destruct (remove_trim_frame h y) as (F1 & F2 & F3 & F4). rewrite F2, Hp. nomatch.
  pose proof (remove_trim_ok _ _ _ _ y H) as H1. destruct zero.
  - destruct (update_ok _ l ls ds y p (add_flag IP_F_TRIMMED) H1) as (h' & -> & H' & _); [by rewrite F2|done|done| | | |].
    + pose proof (hk_ranged _ _ _ _ _ H y p Hp) as Hr. unfold ranged in Hr. cbn. lia.
    + change IP_F_ONRB with (2 ^ 0). change IP_F_TRIMMED with (2 ^ 2). by rewrite has_add_flag.
    + change IP_F_ONLIST with (2 ^ 1). change IP_F_TRIMMED with (2 ^ 2). by rewrite has_add_flag.
    + nomatch. do 2 eexists. exists p, l, ls. by split_and!.
  - rewrite remove_trim_eq in * by done. destruct (decide (y ∈ l)) as [Hl|Hl].
    + destruct (hk_rb _ _ _ _ _ H y p Hl Hp) as [-> ->].
      destruct (without_tree_ok _ _ _ _ _ H Hl) as (t & A & B & E & -> & H'). rewrite F1, E. nomatch.
      unfold free_ipo. cbn. rewrite Hp. cbn. do 2 eexists. exists p, (A ++ B), ls.
      split_and!; [done|done|done|done|done|].
      unfold without in H'. unfold set_len, set_pieces, set_tree, set_trims. cbn. by rewrite (hk_list _ _ _ _ _ H).
    + assert (Hls : y ∈ ls) by (apply elem_of_app in Hy; tauto).
      destruct (hk_onlist _ _ _ _ _ H y p Hls Hp) as [-> _]. nomatch.
      pose proof (without_list_ok _ _ _ _ _ H Hls) as H'. unfold free_ipo. cbn. rewrite Hp. cbn. do 2 eexists.
      exists p, l, (flist_del y ls). split_and!; [done|done|done|done|done|].
      unfold without in H'. unfold set_len, set_pieces, set_tree, set_trims, set_list. cbn.
      by rewrite (hk_list _ _ _ _ _ H).
Qed.

(** Everything is freed at the end of the job. *)
Lemma prune_tree_spec fuel : forall h l ls ds, (length l <= fuel)%nat -> hist_ok h l ls ds [] ->
  exists h', prune_tree fuel h = Some h' /\ hist_ok h' [] ls ds [].
Proof.
  induction fuel as [|fuel IH]; intros h l ls ds Hf H; cbn [prune_tree];
    destruct (hk_tree _ _ _ _ _ H) as (R & HR & HRp); rewrite (first_seq _ _ _ HR).
  - destruct l; [|cbn in Hf; lia]. cbn. by exists h.
  - destruct l as [|y l]; [by exists h|]. cbn [head]. change (default 0 (Some y)) with y. nomatch.
    destruct (member_piece _ _ _ _ y H) as (p & Hp & H0); [by left|]. rewrite decide_False by done.
    destruct (without_tree_ok _ _ _ _ y H ltac:(by left)) as (t & A & B & -> & El & H'). nomatch.
    destruct (hk_trim _ _ _ _ _ H) as [T1 _].
    rewrite remove_trim_eq by (done || apply (hk_entries _ _ _ _ _ H)). unfold free_ipo. cbn. rewrite Hp. cbn.
    destruct (IH (without h t y ls) (A ++ B) ls ds) as (h' & E & H''); [|done|].
    { apply (f_equal length) in El. rewrite length_app in *. cbn in *. lia. }
    exists h'. split; [|done]. unfold without in E. unfold set_pieces, set_tree, set_len, set_trims. cbn.
    by rewrite (hk_list _ _ _ _ _ H).
Qed.

Lemma prune_list_spec ls : forall h ds, hist_ok h [] ls ds [] -> exists h', prune_list ls h = Some h' /\
  hist_ok h' [] [] ds [].
Proof.
  induction ls as [|y ls IH]; intros h ds H; cbn [prune_list]; [by exists h|].
  destruct (member_piece _ _ _ _ y H) as (p & Hp & H0); [by left|].
  pose proof (without_list_ok _ _ _ _ y H ltac:(by left)) as H'.
  assert (Ey : flist_del y (y :: ls) = ls).
  { pose proof (hk_nodup _ _ _ _ _ H) as Hn. cbn in Hn. apply NoDup_cons in Hn as [Hn _]. rewrite elem_of_app in Hn.
      unfold flist_del.
    rewrite filter_cons, decide_False by tauto. apply flist_del_id. tauto. }
  rewrite Ey in H'. destruct (hk_trim _ _ _ _ _ H) as [T1 _].
  rewrite remove_trim_eq by (done || apply (hk_entries _ _ _ _ _ H)).
  unfold free_ipo. cbn. rewrite Hp. cbn. apply (IH _ ds H').
Qed.

Lemma prune_spec h l ls ds : hist_ok h l ls ds [] -> exists h', prune_io_piece_log h = Some h' /\ hist_ok h' [] [] ds [].
Proof.
  intros H. unfold prune_io_piece_log.
  destruct (prune_tree_spec (size (pieces h)) h l ls ds (hk_size _ _ _ _ _ H) H) as (h1 & -> & H1). nomatch.
  rewrite (hk_list _ _ _ _ _ H1). by apply prune_list_spec.
Qed.

(** ** Runs *)

(** The nodes of the tree, from the first along the next. *)
Fixpoint walk (fuel : nat) (s : store) (x : Z) : option (list Z) :=
  if decide (x = 0) then Some []
  else match fuel with O => None | S fuel' => y ← rb_next s x; l ← walk fuel' s y; Some (x :: l) end.

Definition tree_nodes (s : store) : option (list Z) := x ← rb_first s; walk (size (cells s)) s x.

Lemma walk_spec s R B : forall A fuel, holds_seq s (A ++ B) R -> (length B <= fuel)%nat ->
  walk fuel s (default 0 (head B)) = Some B.
Proof.
  induction B as [|a B IH]; intros A fuel H Hf; [by destruct fuel|]. change (default 0 (head (a :: B))) with a.
  destruct fuel as [|fuel]; [cbn in Hf; lia|]. cbn [walk].
  destruct (seq_member _ _ _ a H) as (_ & Ha & _); [set_solver|]. rewrite decide_False by done.
  rewrite (next_seq _ _ _ _ _ H). nomatch. rewrite (IH (A ++ [a]) fuel); [done|by rewrite <- app_assoc|cbn in Hf; lia].
Qed.

Lemma nodes_spec s l R : holds_seq s l R -> tree_nodes s = Some l.
Proof.
  intros H. unfold tree_nodes. rewrite (first_seq _ _ _ H). nomatch. apply (walk_spec s R l []); [done|].
  destruct H as (t & N & [Hh _] & _ & _ & <-). apply holds_size in Hh. rewrite !length_app in Hh.
  rewrite <- (Permutation_length (entries_addrs t (up []))), length_fmap. lia.
Qed.

Lemma hk_nodes h l ls ds pend : hist_ok h l ls ds pend -> tree_nodes (io_hist_tree h) = Some l.
Proof. intros H. destruct (hk_tree _ _ _ _ _ H) as (R & HR & _). by eapply nodes_spec. Qed.

(** The pieces that are in the history. *)
Definition recorded (h : hist) : list Z := default [] (tree_nodes (io_hist_tree h)) ++ io_hist_list h.

Lemma hk_recorded h l ls ds pend : hist_ok h l ls ds pend -> recorded h = l ++ ls.
Proof. intros H. unfold recorded. by rewrite (hk_nodes _ _ _ _ _ H), (hk_list _ _ _ _ _ H). Qed.

(** What may happen: a write is logged at an address that is free; a write completes, in full or short; it
    fails, while it is in the history and not to be trimmed; a piece is taken for verification or
    for trimming, from a file that opens or not ([op]); the job ends.  Three events are left out,
    since the code breaks the history at them: the failure of a write in flight whose piece a later
    write has overwritten, the failure of a write whose piece is on the trim list, and the
    verification of a piece on the trim list whose file does not open. *)
Inductive step (h h' : hist) : Prop :=
  | step_log x file offset buflen numberio pc rm : fresh h x -> ranged (piece_of file offset buflen numberio) ->
      log_io_piece h x file offset buflen numberio pc rm = Some h' -> step h h'
  | step_complete y p info tr wr i : pieces h !! y = Some p -> y <> 0 -> complete_piece h y false info tr wr = Some (h', i) -> step h h'
  | step_short y p xfer_buflen resid : pieces h !! y = Some p -> 0 <= resid <= xfer_buflen -> xfer_buflen <= ip_len p ->
      trim_io_piece h y xfer_buflen resid = Some h' -> step h h'
  | step_fail y info tr wr i : y ∈ recorded h -> y ∉ trim_list h -> complete_piece h y true info tr wr = Some (h', i) -> step h h'
  | step_verify op pb r u :
      (forall y p, head (recorded h) = Some y -> pieces h !! y = Some p -> y ∈ trim_list h -> op (ip_file p) = true) ->
      get_next_verify h false op pb = Some (r, u, h') -> step h h'
  | step_trim op zero r u : Z.of_nat (length (trim_list h)) < 2 ^ 64 -> get_next_trim h false op zero = Some (r, u, h') -> step h h'
  | step_prune : prune_io_piece_log h = Some h' -> step h h'.

(** The history of a new thread. *)
Definition no_history (ts vs : frand_state) : hist := Hist (Store ∅ 0) ∅ [] 0 [] 0 ts vs.

Lemma no_history_ok ts vs : hist_ok (no_history ts vs) [] [] [] [].
Proof.
  split; cbn; try done.
  - exists []. split; [|done]. exists E, 0%nat. split_and!; try done; [|constructor]. split; [|done]. split; constructor.
  - intros x. rewrite lookup_empty. split; [by intros []|set_solver].
  - constructor.
  - split; [constructor|done].
Qed.

Lemma hstep_ok h h' l ls ds : hist_ok h l ls ds [] -> step h h' -> exists l' ls' ds', hist_ok h' l' ls' ds' [].
Proof.
  intros H Hst. destruct Hst as [x file offset buflen numberio pc rm Hf Hr E|y p info tr wr i Hp H0 E|y p xb rs Hp Hr
    Hx E|y info tr wr i Hy Ht E|op pb r u Hop E|op zero r u Hl E|E].
  - destruct (log_spec h l ls ds x file offset buflen numberio pc H Hf Hr) as [(h1 & A & B & ds' & E1 & H1 & _) (h2 &
      E2 & H2 & _)].
    destruct rm; rewrite E in *; [injection E2 as <-|injection E1 as <-]; eauto.
  - destruct (complete_spec h l ls ds y p info tr wr H Hp H0) as (h1 & E1 & H1 & _). rewrite E in E1.
    injection E1 as <- <-. eauto.
  - destruct (short_spec h l ls ds y p xb rs H Hp Hr Hx) as (h1 & E1 & H1). rewrite E in E1. injection E1 as <-. eauto.
  - rewrite (hk_recorded _ _ _ _ _ H) in Hy. destruct (member_piece _ _ _ _ _ H Hy) as (p & _ & H0).
    unfold complete_piece in E. rewrite decide_False in E by done.
    destruct (unlog_spec h l ls ds y info tr wr H Hy Ht) as (h1 & i1 & l' & ls' & E1 & H1 & _). rewrite E in E1.
    injection E1 as <- <-. eauto.
  - pose proof (verify_spec h l ls ds op pb H) as Hv. rewrite (hk_recorded _ _ _ _ _ H), <- (next_head h) in Hop.
    destruct (next_piece h l ls) as [y|]; [|rewrite E in Hv; injection Hv as _ _ <-; eauto].
    destruct Hv as (p & Hp & Hi & Hn). destruct (has_flag IP_F_IN_FLIGHT p) eqn:Ef.
    + rewrite Hi in E by done. injection E as _ _ <-. eauto.
    + destruct (Hn eq_refl) as (t & ls' & p' & _ & Hopen & Hshut). destruct (op (ip_file p)) eqn:Eo.
      * destruct (Hopen eq_refl) as ((seed & st & Ev) & H'). rewrite E in Ev. injection Ev as _ _ ->.
        do 3 eexists. apply set_verify_state_ok. exact H'.
      * destruct (Hshut eq_refl) as [Ev H']. rewrite E in Ev. injection Ev as _ _ ->.
        do 3 eexists. apply H'. intros Hin. rewrite (Hop y p eq_refl Hp Hin) in Eo. done.
  - pose proof (trim_spec h l ls ds op zero H Hl) as Hv.
    destruct (trim_list h) as [|y trims]; [rewrite E in Hv; injection Hv as _ _ <-; eauto|].
    destruct Hv as (h1 & u1 & p & l' & ls' & E1 & _ & _ & _ & _ & H1). rewrite E in E1. injection E1 as _ _ <-. eauto.
  - destruct (prune_spec h l ls ds H) as (h1 & E1 & H1). rewrite E in E1. injection E1 as <-. eauto.
Qed.

Lemma run_ok h0 h : rtc step h0 h -> (exists l ls ds, hist_ok h0 l ls ds []) -> exists l ls ds, hist_ok h l ls ds [].
Proof.
  induction 1 as [|h0 h1 h2 Hs _ IH]; [done|]. intros (l & ls & ds & H). apply IH.
  destruct (hstep_ok _ _ _ _ _ H Hs) as (l' & ls' & ds' & H'). eauto.
Qed.

(** ** What the history is good for *)

(** C10: In every history that the steps of [step] lead to (logging, completion in full or short,
    failure, verification, trimming, pruning; not the failure of a write that was overwritten in
    flight or is on the trim list, nor a piece of the trim list that is verified from a file that does
    not open, at each of which the code corrupts the history), logging a write that is not covered
    by a random map keeps, in order, exactly the pieces of the tree that the write does not
    overlap, unchanged, and puts the write between them, so that the tree is again in order of
    file and offset without overlaps. *)
Theorem log_overwrites ts vs h x file offset buflen numberio pc :
  rtc step (no_history ts vs) h -> fresh h x -> ranged (piece_of file offset buflen numberio) ->
  let q := piece_of file offset buflen numberio in
  exists l h' A B, tree_nodes (io_hist_tree h) = Some l /\ log_io_piece h x file offset buflen numberio pc false =
    Some h' /\
    kept h q l = A ++ B /\ tree_nodes (io_hist_tree h') = Some (A ++ x :: B) /\ StronglySorted (ord h') (A ++ x :: B) /\
    pieces h' !! x = Some (add_flag IP_F_ONRB q) /\ (forall y, y ∈ A ++ B -> pieces h' !! y = pieces h !! y).
Proof.
  intros Hrun Hx Hq q. destruct (run_ok _ _ Hrun) as (l & ls & ds & H); [do 3 eexists; apply no_history_ok|].
  destruct (log_spec h l ls ds x file offset buflen numberio pc H Hx Hq) as [(h' & A & B & ds' & E & H' & Ek & Px &
    Hsame) _].
  exists l, h', A, B. split_and!; [by eapply hk_nodes|done|done|by eapply hk_nodes|by apply (hk_sorted _ _ _ _ _
    H')|done|].
  intros y Hy. apply Hsame. rewrite elem_of_app. by left.
Qed.

Definition demo_hist : hist := no_history (State32 (Taus88 1 1 1)) (State32 (Taus88 1 1 1)).

Definition demo_log : hist := default demo_hist (log_io_piece demo_hist 8 1 0 4096 0 0 false).

Lemma demo_run : rtc step demo_hist demo_log.
Proof.
  apply rtc_once. apply (step_log _ _ 8 1 0 4096 0 0 false); [by split_and!|by split_and!|]. vm_compute. reflexivity.
Qed.

Lemma log_overwrites_witness :
  let q := piece_of 1 2048 4096 1 in
  exists l h' A B, tree_nodes (io_hist_tree demo_log) = Some l /\
    log_io_piece demo_log 16 1 2048 4096 1 0 false = Some h' /\
    kept demo_log q l = A ++ B /\ tree_nodes (io_hist_tree h') = Some (A ++ 16 :: B) /\
      StronglySorted (ord h') (A ++ 16 :: B) /\
    pieces h' !! 16 = Some (add_flag IP_F_ONRB q) /\ (forall y, y ∈ A ++ B -> pieces h' !! y = pieces demo_log !! y).
Proof.
  apply (log_overwrites (State32 (Taus88 1 1 1)) (State32 (Taus88 1 1 1)) demo_log 16 1 2048 4096 1 0).
  - exact demo_run.
  - split_and!; [done|done|vm_compute; reflexivity].
  - by split_and!.
Defined.

(** C11: In every history that the steps of [step] lead to (as for [log_overwrites], with its three
    exceptions) the pieces of the tree are in order of file and offset without overlaps, and the
    counter is the number of pieces in the tree and the list, modulo 2^64.  The next piece to
    verify is the first of the tree, or of the list when the tree is empty.  While its write is in
    flight nothing is returned and nothing changes, even if later pieces have completed.  Once it has
    completed and its file opens, the unit is made from it; the piece leaves the history and
    the others stay in order.  If its file does not open, nothing is returned, and the piece leaves the
    history unverified (unless it is on the trim list, the third exception). *)
Theorem history_in_order ts vs h op pb :
  rtc step (no_history ts vs) h ->
  exists l, tree_nodes (io_hist_tree h) = Some l /\ StronglySorted (ord h) l /\
    io_hist_len h = u64 (Z.of_nat (length (recorded h))) /\
    match recorded h with
    | [] => get_next_verify h false op pb = Some (1, None, h)
    | y :: rest => exists p, pieces h !! y = Some p /\
        (has_flag IP_F_IN_FLIGHT p = true -> get_next_verify h false op pb = Some (1, None, h)) /\
        (has_flag IP_F_IN_FLIGHT p = false -> op (ip_file p) = true ->
         exists u h', get_next_verify h false op pb = Some (0, Some u, h') /\
           u_offset u = ip_offset p /\ u_buflen u = ip_len p /\ u_file u = ip_file p /\
           u_numberio u = ip_numberio p /\ recorded h' = rest) /\
        (has_flag IP_F_IN_FLIGHT p = false -> op (ip_file p) = false -> y ∉ trim_list h ->
         exists u h', get_next_verify h false op pb = Some (1, Some u, h') /\ recorded h' = rest)
    end.
Proof.
  intros Hrun. destruct (run_ok _ _ Hrun) as (l & ls & ds & H); [do 3 eexists; apply no_history_ok|]. exists l.
  split; [by eapply hk_nodes|]. split; [by apply (hk_sorted _ _ _ _ _ H)|]. rewrite (hk_recorded _ _ _ _ _ H).
  split; [rewrite length_app; apply (hk_len _ _ _ _ _ H)|]. pose proof (verify_spec h l ls ds op pb H) as Hv.
  assert (Hrest : exists y rest, next_piece h l ls = Some y /\ l ++ ls = y :: rest /\
    rest = tail l ++ (if decide (l = []) then tail ls else ls) \/ l = [] /\ ls = []).
  { destruct l as [|y l]; [destruct ls as [|y ls]|]; [exists 0, []; by right|exists y, ls; by left|exists y,
      (l ++ ls); by left]. }
  destruct Hrest as (y & rest & [(En & -> & Er)|[-> ->]]); [|exact Hv]. rewrite En in Hv.
  destruct Hv as (p & Hp & Hi & Hn). exists p. split; [done|]. split; [done|]. split; intros Hf Eo.
  - destruct (Hn Hf) as (t & ls' & p' & Eu & Hopen & _). destruct (Hopen Eo) as ((seed & st & E) & H').
    do 2 eexists. split; [exact E|]. injection Eu as E1 E2 E3 E4 E5. cbn.
    split_and!; [done|done|done|done|]. pose proof (set_verify_state_ok _ _ _ _ _ st H') as H2.
    by rewrite (hk_recorded _ _ _ _ _ H2), Er.
  - intros Ht. destruct (Hn Hf) as (t & ls' & p' & _ & _ & Hshut). destruct (Hshut Eo) as [E H'].
    do 2 eexists. split; [exact E|]. by rewrite (hk_recorded _ _ _ _ _ (H' Ht)), Er.
Qed.

Lemma history_in_order_witness :
  exists l, tree_nodes (io_hist_tree demo_log) = Some l /\ StronglySorted (ord demo_log) l /\
    io_hist_len demo_log = u64 (Z.of_nat (length (recorded demo_log))) /\
    match recorded demo_log with
    | [] => get_next_verify demo_log false (fun _ => true) 0 = Some (1, None, demo_log)
    | y :: rest => exists p, pieces demo_log !! y = Some p /\
        (has_flag IP_F_IN_FLIGHT p = true -> get_next_verify demo_log false (fun _ => true) 0 = Some (1, None,
          demo_log)) /\
        (has_flag IP_F_IN_FLIGHT p = false -> exists u h', get_next_verify demo_log false (fun _ => true) 0 = Some
          (0, Some u, h') /\
           u_offset u = ip_offset p /\ u_buflen u = ip_len p /\ u_file u = ip_file p /\
             u_numberio u = ip_numberio p /\ recorded h' = rest)
    end.
Proof.
  destruct (history_in_order (State32 (Taus88 1 1 1)) (State32 (Taus88 1 1 1)) demo_log (fun _ => true) 0)
    as (l & H1 & H2 & H3 & H4); [exact demo_run|]. exists l. split_and!; [exact H1|exact H2|exact H3|].
  destruct (recorded demo_log); [exact H4|]. destruct H4 as (p & Hp & Hi & Ho & _). exists p.
  split_and!; [exact Hp|exact Hi|]. intros Hf. by apply Ho.
Defined.

(** ** What the conditions leave out *)

(** A write in flight is overwritten in the history by another, and then fails: its node, which left the
    tree, is erased again, and the piece of the other write is lost. *)
Example failed_overwritten :
  (h ← log_io_piece demo_log 16 1 0 4096 1 0 false;
   '(h', _) ← complete_piece h 8 true None false true;
   Some (tree_nodes (io_hist_tree h), tree_nodes (io_hist_tree h'), io_hist_len h')) = Some (Some [16], Some [], 0).
Proof. vm_compute. reflexivity. Qed.

(** A write that is to be trimmed fails: its piece is freed but stays on the trim list, and the next
    trim reads freed memory. *)
Example failed_trimmed :
  (h ← log_io_piece demo_hist 8 1 0 4096 0 100 false;
   '(h, _) ← complete_piece h 8 true None false true;
   Some (trim_list h, pieces h !! 8)) = Some ([8], None).
Proof. vm_compute. reflexivity. Qed.

Example failed_trimmed_next :
  (h ← log_io_piece demo_hist 8 1 0 4096 0 100 false;
   '(h, _) ← complete_piece h 8 true None false true;
   get_next_trim h false (fun _ => true) true) = None.
Proof. vm_compute. reflexivity. Qed.

(** A piece that is to be trimmed is verified from a file that does not open: it stays on the trim list
    but is in neither the tree nor the list, and the next trim fails an assertion. *)
Example unopened_trimmed :
  (h ← log_io_piece demo_hist 8 1 0 4096 0 100 false;
   '(h, _) ← complete_piece h 8 false None false true;
   '(_, h) ← get_next_verify h false (fun _ => false) 0;
   Some (trim_list h, recorded h, bool_decide (get_next_trim h false (fun _ => true) false = None))) =
  Some ([8], [], true).
Proof. vm_compute. reflexivity. Qed.
