(* ===== verification/Clock.v ===== *)
(** * Time (src/fio/gettime.c, time.c)

    Cycles of the CPU clock are turned into nanoseconds with a multiplication and a
    shift, in two stages so that the product does not overflow; times are compared and
    advanced as seconds and nanoseconds.  The number of cycles in a millisecond, a
    trimmed mean of measurements that is computed with doubles, is a parameter. *)

From S2P Require Import Prelude Bits.

Open Scope Z_scope.

Definition MAX_CLOCK_SEC : Z := 60 * 60.

Record timespec := Timespec { tv_sec : Z; tv_nsec : Z }.

(** ** The CPU clock *)

Record cpu_clock := CpuClock {
  clock_mult : Z;
  clock_shift : Z;
  max_cycles_shift : Z;
  max_cycles_mask : Z;
  nsecs_for_max_cycles : Z;
  cycles_start : Z }.

(** [while (tmp > 1) { tmp >>= 1; sft++; }] *)
Fixpoint halvings (fuel : nat) (tmp sft : Z) : Z :=
  match fuel with
  | O => sft
  | S fuel' => if decide (tmp > 1) then halvings fuel' (Z.shiftr tmp 1) (sft + 1) else sft
  end.

(** [for (tmp = 0; tmp < n; tmp++) mask |= 1ULL << tmp] *)
Fixpoint low_mask (n : nat) : Z :=
  match n with O => 0 | S n' => Z.lor (low_mask n') (Z.shiftl 1 (Z.of_nat n')) end.

(** What [calibrate_cpu_clock] sets up from [cycles_per_msec] and the clock's reading at the end; [None]
    is a division by zero. *)
Definition calibrate_cpu_clock (cycles_per_msec start : Z) : option cpu_clock :=
  let max_ticks := u64 (u64 (MAX_CLOCK_SEC * cycles_per_msec) * 1000) in
  if decide (max_ticks = 0 \/ cycles_per_msec = 0) then None
  else
    let max_mult := (2 ^ 64 - 1) / max_ticks in
    let sft := halvings 64 (u64 (max_mult * cycles_per_msec) / 1000000) 0 in
    let mult := u64 (u64 (Z.shiftl 1 sft) * 1000000) / cycles_per_msec in
    let mcs := halvings 64 (u64 (MAX_CLOCK_SEC * 1000 * cycles_per_msec)) 0 in
    let nsecs := Z.shiftr (u64 (u64 (Z.shiftl 1 mcs) * mult)) sft in
    Some (CpuClock mult sft mcs (low_mask (Z.to_nat mcs)) nsecs start).

(** The case [CS_CPUCLOCK] of [__fio_gettime], for a reading [t] of the clock. *)
Definition cycles_to_nsecs (c : cpu_clock) (t : Z) : Z :=
  let t := u64 (t - cycles_start c) in
  let multiples := Z.shiftr t (max_cycles_shift c) in
  let nsecs := u64 (multiples * nsecs_for_max_cycles c) in
  u64 (nsecs + Z.shiftr (u64 (Z.land t (max_cycles_mask c) * clock_mult c)) (clock_shift c)).

Definition fio_gettime_ (c : cpu_clock) (t : Z) : timespec :=
  let nsecs := cycles_to_nsecs c t in
  Timespec (nsecs / 1000000000) (nsecs mod 1000000000).

(** ** Differences *)

Definition ntime_since (s e : timespec) : Z :=
  let sec := i64 (tv_sec e - tv_sec s) in
  let nsec := i64 (tv_nsec e - tv_nsec s) in
  let '(sec, nsec) := if decide (sec > 0 /\ nsec < 0) then (sec - 1, nsec + 1000000000) else (sec, nsec) in
  if decide (sec < 0 \/ (sec = 0 /\ nsec < 0)) then 0 else u64 (nsec + sec * 1000000000).

(** The difference of the nanoseconds is rounded to zero. *)
Definition utime_since (s e : timespec) : Z :=
  let sec := i64 (tv_sec e - tv_sec s) in
  let usec := Z.quot (tv_nsec e - tv_nsec s) 1000 in
  let '(sec, usec) := if decide (sec > 0 /\ usec < 0) then (sec - 1, usec + 1000000) else (sec, usec) in
  if decide (sec < 0 \/ (sec = 0 /\ usec < 0)) then 0 else u64 (usec + sec * 1000000).

(** The times are in seconds and microseconds. *)
Definition mtime_since_tv (s e : timespec) : Z :=
  let sec := i64 (tv_sec e - tv_sec s) in
  let usec := i64 (tv_nsec e - tv_nsec s) in
  let '(sec, usec) := if decide (sec > 0 /\ usec < 0) then (sec - 1, usec + 1000000) else (sec, usec) in
  if decide (sec < 0 \/ (sec = 0 /\ usec < 0)) then 0 else u64 (sec * 1000 + Z.quot usec 1000).

Definition rel_time_since (s e : timespec) : option Z :=
  let sec := i64 (tv_sec e - tv_sec s) in
  let nsec := i64 (tv_nsec e - tv_nsec s) in
  let '(sec, nsec) := if decide (nsec < 0) then (sec - 1, nsec + 1000 * 1000 * 1000) else (sec, nsec) in
  if decide (0 <= nsec /\ nsec < 1000 * 1000 * 1000) then Some (sec * 1000 + Z.quot nsec (1000 * 1000)) else None.

Definition mtime_since (s e : timespec) : option Z := r ← rel_time_since s e; Some (Z.max r 0).

Definition time_since (s e : timespec) : option Z := m ← mtime_since s e; Some (m / 1000).

(** ** Advancing *)

Definition timespec_add_msec (ts : timespec) (msec : Z) : timespec :=
  let adj_nsec := u64 (1000000 * msec) in
  let nsec := i64 (tv_nsec ts + adj_nsec) in
  let '(sec, nsec) :=
    if decide (adj_nsec >= 1000000000) then
      let adj_sec := adj_nsec / 1000000000 in
      (i64 (tv_sec ts + adj_sec), i64 (nsec - adj_sec * 1000000000))
    else (tv_sec ts, nsec) in
  if decide (nsec >= 1000000000) then Timespec (sec + 1) (nsec - 1000000000) else Timespec sec nsec.

(** ** Time: proofs

    Up to 10^9 cycles in a millisecond (a clock of 1 THz) the conversion does not
    overflow, never runs backwards or jumps, and is never ahead of the clock and
    behind it by a bounded amount; differences of times are what they should be,
    up to the rounding of each unit. *)

Lemma halvings_log2 fuel : forall tmp sft, 1 <= tmp < 2 ^ Z.of_nat fuel -> halvings fuel tmp sft = sft + Z.log2 tmp.
Proof.
  induction fuel as [|fuel IH]; intros tmp sft H; cbn [halvings]; [cbn in H; lia|]. case_decide as Hd.
  - rewrite Z.shiftr_div_pow2 by lia. change (2 ^ 1) with 2.
    assert (1 <= tmp / 2) by (apply Z.div_le_lower_bound; lia). rewrite IH.
    + pose proof (Z.log2_shiftr tmp 1 ltac:(lia)) as E. rewrite Z.shiftr_div_pow2 in E by lia.
      change (2 ^ 1) with 2 in E. rewrite E.
      assert (1 <= Z.log2 tmp) by (change 1 with (Z.log2 2) at 1; apply Z.log2_le_mono; lia). lia.
    + split; [done|]. apply Z.div_lt_upper_bound; [lia|]. rewrite Nat2Z.inj_succ, Z.pow_succ_r in H by lia. lia.
  - assert (tmp = 1) as -> by lia. cbn. lia.
Qed.

Lemma low_mask_ones n : low_mask n = Z.ones (Z.of_nat n).
Proof.
  induction n as [|n IH]; [done|]. cbn [low_mask]. rewrite IH. apply Z.bits_inj'. intros i Hi.
  rewrite Z.lor_spec, Z.shiftl_1_l, Z.pow2_bits_eqb by lia. rewrite !Z.testbit_ones_nonneg by lia.
  destruct (Z.ltb_spec i (Z.of_nat n)), (Z.eqb_spec (Z.of_nat n) i), (Z.ltb_spec i (Z.of_nat (S n))); cbn; lia || done.
Qed.

(** The clock that is set up for [c] cycles in a millisecond. *)
Definition mult (c : Z) : Z := 2 ^ 22 * 1000000 / c.
Definition stage (c : Z) : Z := 2 ^ Z.log2 (3600000 * c).

Lemma shift_22 c : 1 <= c <= 10 ^ 9 -> Z.log2 ((2 ^ 64 - 1) / (3600000 * c) * c / 1000000) = 22.
Proof.
  intros Hc. set (m := (2 ^ 64 - 1) / (3600000 * c)).
  assert (Hm : m * (3600000 * c) <= 2 ^ 64 - 1 < (m + 1) * (3600000 * c)).
  { assert (E : 2 ^ 64 - 1 = 3600000 * c * m + (2 ^ 64 - 1) mod (3600000 * c)) by (apply Z.div_mod; lia).
    assert (0 <= (2 ^ 64 - 1) mod (3600000 * c) < 3600000 * c) by (apply Z.mod_pos_bound; lia). lia. }
  apply Z.log2_unique; [lia|]. change (2 ^ Z.succ 22) with 8388608. change (2 ^ 22) with 4194304.
  change (2 ^ 64 - 1) with 18446744073709551615 in Hm.
  change (10 ^ 9) with 1000000000 in Hc. split; [apply Z.div_le_lower_bound; lia|apply Z.div_lt_upper_bound; lia].
Qed.

Lemma stage_bounds c : 1 <= c -> 0 < stage c <= 3600000 * c /\ 3600000 * c < 2 * stage c.
Proof.
  intros Hc. unfold stage. destruct (Z.log2_spec (3600000 * c)) as [H1 H2]; [lia|].
  rewrite Z.pow_succ_r in H2 by apply Z.log2_nonneg. lia.
Qed.

Lemma mult_bounds c : 1 <= c <= 10 ^ 9 -> 1 <= mult c /\ mult c * c <= 2 ^ 22 * 1000000 < (mult c + 1) * c.
Proof.
  intros Hc. unfold mult. set (x := 2 ^ 22 * 1000000). assert (E : x = c * (x / c) + x mod c) by (apply Z.div_mod; lia).
  assert (0 <= x mod c < c) by (apply Z.mod_pos_bound; lia). split; [|lia]. apply Z.div_le_lower_bound; [lia|].
  unfold x. change (10 ^ 9) with 1000000000 in Hc.
  change (2 ^ 22) with 4194304. lia.
Qed.

(** No product of the second stage overflows. *)
Lemma product_small c : 1 <= c <= 10 ^ 9 -> 0 < stage c * mult c < 2 ^ 64.
Proof.
  intros Hc. destruct (stage_bounds c ltac:(lia)) as [H1 _]. destruct (mult_bounds c Hc) as [H2 H3]. split; [nia|].
  assert (stage c * mult c <= 3600000 * (mult c * c)) by nia. change (2 ^ 22) with 4194304 in H3. lia.
Qed.

Lemma calibrated c start : 1 <= c <= 10 ^ 9 ->
  calibrate_cpu_clock c start =
  Some (CpuClock (mult c) 22 (Z.log2 (3600000 * c)) (Z.ones (Z.log2 (3600000 * c))) (stage c * mult c / 2 ^ 22) start).
Proof.
  intros Hc. unfold calibrate_cpu_clock, MAX_CLOCK_SEC. change (10 ^ 9) with 1000000000 in Hc.
  rewrite (wrapu_small 64 (60 * 60 * c)) by lia.
  rewrite (wrapu_small 64 (60 * 60 * c * 1000)), (wrapu_small 64 (60 * 60 * 1000 * c)) by lia.
  replace (60 * 60 * c * 1000) with (3600000 * c) by lia. replace (60 * 60 * 1000 * c) with (3600000 * c) by lia.
  rewrite decide_False by lia.
  assert (Hm : 0 <= (2 ^ 64 - 1) / (3600000 * c) * c < 2 ^ 64).
  { split; [apply Z.mul_nonneg_nonneg; [apply Z.div_pos; lia|lia]|].
    assert ((2 ^ 64 - 1) / (3600000 * c) * (3600000 * c) <= 2 ^ 64 - 1) by (rewrite Z.mul_comm; apply Z.mul_div_le;
      lia). nia. }
  rewrite (wrapu_small 64 ((2 ^ 64 - 1) / (3600000 * c) * c)) by done. pose proof (shift_22 c Hc) as E22.
  assert (Hpos : 0 < (2 ^ 64 - 1) / (3600000 * c) * c / 1000000).
  { destruct (Z.lt_ge_cases 0 ((2 ^ 64 - 1) / (3600000 * c) * c / 1000000)) as [?|Hn];
      [done|]. rewrite Z.log2_nonpos in E22 by done. done. }
  rewrite halvings_log2 by (split; [lia|]; apply Z.div_lt_upper_bound; [lia|];
    change (2 ^ Z.of_nat 64) with (2 ^ 64); lia). rewrite E22, Z.add_0_l.
  rewrite halvings_log2 by (change (2 ^ Z.of_nat 64) with (2 ^ 64); lia). rewrite Z.add_0_l, !Z.shiftl_1_l.
  fold (stage c).
  pose proof (product_small c Hc) as Hp. destruct (stage_bounds c ltac:(lia)) as [Hst _].
  rewrite (wrapu_small 64 (2 ^ 22)), (wrapu_small 64 (2 ^ 22 * 1000000)), (wrapu_small 64 (stage c)) by lia.
  fold (mult c). rewrite (wrapu_small 64 (stage c * mult c)) by lia. rewrite Z.shiftr_div_pow2 by lia.
  rewrite low_mask_ones, Z2Nat.id by apply Z.log2_nonneg. done.
Qed.

(** ** The conversion *)

(** The nanoseconds of [x] cycles. *)
Definition nsecs (c x : Z) : Z :=
  x / stage c * (stage c * mult c / 2 ^ 22) + x mod stage c * mult c / 2 ^ 22.

Section conversion.
Context (c : Z) (Hc : 1 <= c <= 10 ^ 9).

Lemma nsecs_bounds x : 0 <= x ->
  0 <= nsecs c x /\ c * nsecs c x <= 10 ^ 6 * x /\ 2 ^ 22 * (10 ^ 6 * x - c * nsecs c x) <= c * (x + (x / stage c +
    1) * 2 ^ 22).
Proof using Hc.
  intros Hx. unfold nsecs. destruct (stage_bounds c ltac:(lia)) as [HP _]. destruct (mult_bounds c Hc) as [Hm Hm2].
  set (P := stage c) in *. set (m := mult c) in *.
  change (10 ^ 6) with 1000000. change (2 ^ 22) with 4194304 in *. pose proof (div_bounds x P ltac:(lia)) as Dx.
  rewrite Z.mod_eq by lia.
  set (q := x / P) in *. assert (Hq : 0 <= q) by (apply Z.div_pos; lia). set (r := x - P * q) in *.
  assert (Hr : 0 <= r < P) by lia.
  pose proof (div_bounds (P * m) 4194304 ltac:(lia)) as DN. pose proof (div_bounds (r * m) 4194304 ltac:(lia)) as Dr.
  set (N := P * m / 4194304) in *. set (d := r * m / 4194304) in *.
  assert (0 <= N) by (apply Z.div_pos; [apply Z.mul_nonneg_nonneg|]; lia).
  assert (0 <= d) by (apply Z.div_pos; [apply Z.mul_nonneg_nonneg|]; lia).
  assert (Exm : x * m = q * (P * m) + r * m) by lia.
  assert (q * (4194304 * N) <= q * (P * m)) by (apply Z.mul_le_mono_nonneg_l; lia).
  assert (q * (P * m) <= q * (4194304 * N + 4194304)) by (apply Z.mul_le_mono_nonneg_l; lia).
  assert (F1 : 4194304 * (q * N + d) <= x * m) by lia.
  assert (F2 : x * m <= 4194304 * (q * N + d) + (q + 1) * 4194304) by lia.
  assert (0 <= q * N) by (apply Z.mul_nonneg_nonneg; lia). set (f := q * N + d) in *. split; [lia|]. split.
  - assert (c * (4194304 * f) <= x * (4194304 * 1000000)); [|lia].
    transitivity (c * (x * m)); [apply Z.mul_le_mono_nonneg_l; lia|].
    replace (c * (x * m)) with (x * (m * c)) by lia. apply Z.mul_le_mono_nonneg_l; lia.
  - assert (x * (4194304 * 1000000) <= x * (m * c) + x * c) by (rewrite <- Z.mul_add_distr_l;
      apply Z.mul_le_mono_nonneg_l; lia). assert (x * (m * c) <= c * (4194304 * f) + c * ((q + 1) * 4194304)); [|lia].
    replace (x * (m * c)) with (c * (x * m)) by lia. rewrite <- Z.mul_add_distr_l. apply Z.mul_le_mono_nonneg_l; lia.
Qed.

(** What is left of a stage is worth no more than the stage. *)
Lemma rest_le P m a : 0 < P -> 1 <= m -> 0 <= (a - P * (a / P)) * m / 2 ^ 22 <= P * m / 2 ^ 22.
Proof using.
  intros HP Hm. pose proof (div_bounds a P HP). split; [apply Z.div_pos; [apply Z.mul_nonneg_nonneg; lia|lia]|].
  apply Z.div_le_mono; [lia|]. apply Z.mul_le_mono_nonneg_r; lia.
Qed.

Lemma nsecs_mono a b : 0 <= a <= b -> nsecs c a <= nsecs c b.
Proof using Hc.
  intros Hab. destruct (stage_bounds c ltac:(lia)) as [HP _]. destruct (mult_bounds c Hc) as [Hm _]. unfold nsecs.
  rewrite !Z.mod_eq by lia.
  set (P := stage c) in *. set (m := mult c) in *. pose proof (rest_le P m a ltac:(lia) Hm) as Ra.
  pose proof (rest_le P m b ltac:(lia) Hm) as Rb.
  assert (Hq : a / P <= b / P) by (apply Z.div_le_mono; lia). destruct (Z.eq_dec (a / P) (b / P)) as [Eq|Ne].
  - rewrite <- Eq. apply Z.add_le_mono_l, Z.div_le_mono; [lia|]. apply Z.mul_le_mono_nonneg_r; lia.
  - set (N := P * m / 2 ^ 22) in *. assert ((a / P + 1) * N <= b / P * N) by (apply Z.mul_le_mono_nonneg_r; lia). lia.
Qed.

(** One more cycle is never more than a cycle's worth of nanoseconds and one. *)
Lemma nsecs_succ x : 0 <= x -> nsecs c (x + 1) <= nsecs c x + mult c / 2 ^ 22 + 1.
Proof using Hc.
  intros Hx. unfold nsecs. destruct (stage_bounds c ltac:(lia)) as [HP _]. destruct (mult_bounds c Hc) as [Hm _].
  set (P := stage c) in *. set (m := mult c) in *.
  pose proof (div_bounds x P ltac:(lia)) as Da. pose proof (div_bounds (x + 1) P ltac:(lia)) as Db.
  rewrite !Z.mod_eq by lia.
  change (2 ^ 22) with 4194304. pose proof (div_bounds m 4194304 ltac:(lia)) as Dm.
  assert (Hq : (x + 1) / P = x / P \/ (x + 1) / P = x / P + 1).
  { assert (x / P <= (x + 1) / P) by (apply Z.div_le_mono; lia). assert ((x + 1) / P <= (x + 1 * P) / P) by (apply
      Z.div_le_mono; lia).
    rewrite Z.div_add in * by lia. lia. }
 
  destruct Hq as [Hq|Hq]; rewrite Hq in *.
  - replace ((x + 1 - P * (x / P)) * m) with ((x - P * (x / P)) * m + m) by lia. set (y := (x - P * (x / P)) * m).
    pose proof (div_bounds y 4194304 ltac:(lia)). pose proof (div_bounds (y + m) 4194304 ltac:(lia)). lia.
  - assert (Er : x + 1 - P * (x / P + 1) = 0) by lia. rewrite Er. assert (Ex : x - P * (x / P) = P - 1) by lia.
    rewrite Ex. change (0 * m / 4194304) with 0.
    replace ((P - 1) * m) with (P * m - m) by lia. set (y := P * m).
    pose proof (div_bounds y 4194304 ltac:(lia)). pose proof (div_bounds (y - m) 4194304 ltac:(lia)). lia.
Qed.

(** The code computes it. *)
Lemma converts start k x : calibrate_cpu_clock c start = Some k -> 0 <= x < 2 ^ 64 -> 10 ^ 6 * x < c * 2 ^ 64 ->
  cycles_to_nsecs k (start + x) = nsecs c x.
Proof using Hc.
  intros Ek Hx Hov. rewrite calibrated in Ek by done. injection Ek as <-. unfold cycles_to_nsecs.
  cbn [clock_mult clock_shift max_cycles_shift max_cycles_mask nsecs_for_max_cycles cycles_start].
  replace (start + x - start) with x by lia. rewrite (wrapu_small 64 x) by done.
  rewrite !Z.shiftr_div_pow2 by (lia || apply Z.log2_nonneg). fold (stage c).
  rewrite Z.land_ones by apply Z.log2_nonneg. fold (stage c). destruct (stage_bounds c ltac:(lia)) as [HP _].
  pose proof (product_small c Hc) as Hpr.
  destruct (mult_bounds c Hc) as [Hm _]. pose proof (Z.mod_pos_bound x (stage c) ltac:(lia)) as Hr.
  assert (Hpm : 0 <= x mod stage c * mult c < 2 ^ 64).
  { split; [apply Z.mul_nonneg_nonneg; lia|]. apply (Z.le_lt_trans _ (stage c * mult c));
      [apply Z.mul_le_mono_nonneg_r; lia|lia]. }
  rewrite (wrapu_small 64 (x mod stage c * mult c)) by done. destruct (nsecs_bounds x ltac:(lia)) as (Hn0 & Hn1 & _).
  assert (Hn : nsecs c x < 2 ^ 64) by (apply (Z.mul_lt_mono_pos_l c); lia).
  assert (0 <= x mod stage c * mult c / 2 ^ 22) by (apply Z.div_pos; lia).
  assert (0 <= x / stage c * (stage c * mult c / 2 ^ 22)).
  { apply Z.mul_nonneg_nonneg; apply Z.div_pos; lia. }
  rewrite (wrapu_small 64 (x / stage c * (stage c * mult c / 2 ^ 22))) by (unfold nsecs in Hn; lia).
  apply wrapu_small. fold (nsecs c x). done.
Qed.
End conversion.

(** C37: A clock of [c] cycles in a millisecond, at most 10^9, read [x] and [x'] cycles after calibration, as long as the
    nanoseconds fit 64 bits: no step of the conversion overflows, time never runs
    backwards, one more cycle adds at most its own length and one
    nanosecond (so there is no jump where the two stages meet), and the result is never ahead of
    the clock and behind it by at most x / 2^22 + x / 2^n + 1 cycles' worth, where 2^n is the number of
    cycles of the first stage, more than half an hour's. *)
Theorem clock_faithful c start x x' :
  1 <= c <= 10 ^ 9 -> 0 <= x <= x' -> x' + 1 < 2 ^ 64 -> 10 ^ 6 * (x' + 1) < c * 2 ^ 64 ->
  exists k, calibrate_cpu_clock c start = Some k /\ 3600000 * c < 2 * 2 ^ max_cycles_shift k /\
    let f t := cycles_to_nsecs k (start + t) in
    f x <= f x' /\ f (x + 1) <= f x + clock_mult k / 2 ^ 22 + 1 /\ c * f x <= 10 ^ 6 * x /\
    2 ^ 22 * (10 ^ 6 * x - c * f x) <= c * (x + (x / 2 ^ max_cycles_shift k + 1) * 2 ^ 22).
Proof.
  intros Hc Hx Hx' Hov. eexists. split; [by apply calibrated|]. cbn [clock_mult max_cycles_shift]. fold (stage c).
  split; [apply stage_bounds; lia|]. rewrite !(converts c Hc) by (first [by apply calibrated|lia]). split_and!.
  - by apply nsecs_mono.
  - apply nsecs_succ; [done|lia].
  - by apply nsecs_bounds; [|lia].
  - by apply nsecs_bounds; [|lia].
Qed.

Lemma clock_faithful_witness :
  exists k, calibrate_cpu_clock 3000000 77 = Some k /\ 3600000 * 3000000 < 2 * 2 ^ max_cycles_shift k /\
    let f t := cycles_to_nsecs k (77 + t) in
    f 3000 <= f 6000 /\ f (3000 + 1) <= f 3000 + clock_mult k / 2 ^ 22 + 1 /\ 3000000 * f 3000 <= 10 ^ 6 * 3000 /\
    2 ^ 22 * (10 ^ 6 * 3000 - 3000000 * f 3000) <= 3000000 * (3000 + (3000 / 2 ^ max_cycles_shift k + 1) * 2 ^ 22).
Proof. apply (clock_faithful 3000000 77 3000 6000); lia. Defined.

(** ** Differences *)

Definition ns (t : timespec) : Z := tv_sec t * 10 ^ 9 + tv_nsec t.

(** Seconds up to the year 2242. *)
Definition proper_time (t : timespec) : Prop := 0 <= tv_sec t < 2 ^ 33 /\ 0 <= tv_nsec t < 10 ^ 9.

Section times.
Context (s e : timespec) (Hs : proper_time s) (He : proper_time e).

Lemma ntime_since_exact : ntime_since s e = Z.max 0 (ns e - ns s).
Proof using Hs He.
  destruct Hs as [S1 S2], He as [E1 E2]. unfold ntime_since, ns. change (10 ^ 9) with 1000000000 in *.
  rewrite !i64_small by lia.
  case_decide as Hd; cbn [fst snd]; (case_decide; [lia|]); rewrite wrapu_small by lia; lia.
Qed.

Lemma quot_bounds a : (0 <= a -> 1000 * Z.quot a 1000 <= a < 1000 * Z.quot a 1000 + 1000) /\
                      (a <= 0 -> 1000 * Z.quot a 1000 - 1000 < a <= 1000 * Z.quot a 1000).
Proof using.
  pose proof (Z.quot_rem' a 1000) as Eq. split; intros Ha.
  - pose proof (Z.rem_bound_pos a 1000 Ha ltac:(lia)). lia.
  - pose proof (Z.rem_bound_pos (- a) 1000 ltac:(lia) ltac:(lia)) as Hr. rewrite Z.rem_opp_l in Hr by lia. lia.
Qed.

(** Microseconds are rounded down, or up, when the nanoseconds of the later time are the smaller ones. *)
Lemma utime_since_close : (ns e < ns s -> utime_since s e = 0) /\ (ns s <= ns e ->
  Z.abs (1000 * utime_since s e - (ns e - ns s)) < 1000).
Proof using Hs He.
  destruct Hs as [S1 S2], He as [E1 E2]. unfold utime_since, ns. change (10 ^ 9) with 1000000000 in *.
  rewrite i64_small by lia.
  set (d := tv_nsec e - tv_nsec s). destruct (quot_bounds d) as [Q1 Q2]. set (q := Z.quot d 1000) in *.
  set (k := tv_sec e - tv_sec s) in *.
  assert (Hq : d < 0 -> q <= 0) by lia. assert (Hq' : 0 <= d -> 0 <= q) by lia.
  split; intros Hlt; case_decide as Hd; cbn [fst snd]; (case_decide as Hz; [lia|]); rewrite wrapu_small by lia; lia.
Qed.

(** Milliseconds are rounded down, also when they are negative. *)
Lemma rel_time_since_floor : rel_time_since s e = Some ((ns e - ns s) / 10 ^ 6).
Proof using Hs He.
  destruct Hs as [S1 S2], He as [E1 E2]. unfold rel_time_since, ns. change (10 ^ 9) with 1000000000 in *.
  change (10 ^ 6) with 1000000. rewrite !i64_small by lia.
  case_decide as Hd; cbn [fst snd]; (rewrite decide_True by lia); f_equal; rewrite Z.quot_div_nonneg by lia;
    change (1000 * 1000) with 1000000.
  - apply (Z.mul_cancel_l _ _ 1); [lia|].
    replace (tv_sec e * 1000000000 + tv_nsec e - (tv_sec s * 1000000000 + tv_nsec s)) with
      ((tv_nsec e - tv_nsec s + 1000 * 1000 * 1000) + ((tv_sec e - tv_sec s - 1) * 1000) * 1000000) by lia.
      rewrite Z.div_add by lia. lia.
  - apply (Z.mul_cancel_l _ _ 1); [lia|].
    replace (tv_sec e * 1000000000 + tv_nsec e - (tv_sec s * 1000000000 + tv_nsec s)) with
      ((tv_nsec e - tv_nsec s) + ((tv_sec e - tv_sec s) * 1000) * 1000000) by lia. rewrite Z.div_add by lia. lia.
Qed.

Lemma add_msec_exact msec : 0 <= msec < 2 ^ 32 ->
  ns (timespec_add_msec s msec) = ns s + 10 ^ 6 * msec /\ 0 <= tv_nsec (timespec_add_msec s msec) < 10 ^ 9.
Proof using Hs.
  intros Hm. destruct Hs as [S1 S2]. unfold timespec_add_msec, ns. change (10 ^ 9) with 1000000000 in *.
  change (10 ^ 6) with 1000000.
  rewrite (wrapu_small 64) by lia. rewrite (i64_small (tv_nsec s + _)) by lia.
  pose proof (div_bounds (1000000 * msec) 1000000000 ltac:(lia)) as Dm.
  set (a := 1000000 * msec / 1000000000) in *. assert (0 <= a < 2 ^ 32) by lia. case_decide as Hd.
  - rewrite !i64_small by lia. case_decide; cbn [tv_sec tv_nsec]; lia.
  - case_decide; cbn [tv_sec tv_nsec]; lia.
Qed.
End times.

(** Differences of two times: in nanoseconds exact, or 0 when the second is the earlier one; in microseconds off by
    less than one, up or down; in milliseconds rounded down, before zero too; and advancing a
    time by milliseconds is exact and keeps the nanoseconds below a second. *)
Theorem times_exact s e msec :
  proper_time s -> proper_time e -> 0 <= msec < 2 ^ 32 ->
  ntime_since s e = Z.max 0 (ns e - ns s) /\
  (ns s <= ns e -> Z.abs (1000 * utime_since s e - (ns e - ns s)) < 1000) /\ (ns e < ns s -> utime_since s e = 0) /\
  rel_time_since s e = Some ((ns e - ns s) / 10 ^ 6) /\ mtime_since s e = Some (Z.max ((ns e - ns s) / 10 ^ 6) 0) /\
  ns (timespec_add_msec s msec) = ns s + 10 ^ 6 * msec /\ 0 <= tv_nsec (timespec_add_msec s msec) < 10 ^ 9.
Proof.
  intros Hs He Hm. destruct (utime_since_close s e Hs He) as [U1 U2]. destruct (add_msec_exact s Hs msec Hm) as [A1 A2].
  split; [by apply ntime_since_exact|]. split; [done|]. split; [done|]. unfold mtime_since.
  rewrite (rel_time_since_floor s e Hs He). done.
Qed.

Lemma times_exact_witness :
  let s := Timespec 5 999999000 in let e := Timespec 7 500 in
  ntime_since s e = Z.max 0 (ns e - ns s) /\
  (ns s <= ns e -> Z.abs (1000 * utime_since s e - (ns e - ns s)) < 1000) /\ (ns e < ns s -> utime_since s e = 0) /\
  rel_time_since s e = Some ((ns e - ns s) / 10 ^ 6) /\ mtime_since s e = Some (Z.max ((ns e - ns s) / 10 ^ 6) 0) /\
  ns (timespec_add_msec s 1500) = ns s + 10 ^ 6 * 1500 /\ 0 <= tv_nsec (timespec_add_msec s 1500) < 10 ^ 9.
Proof. apply (times_exact (Timespec 5 999999000) (Timespec 7 500) 1500); [split; cbn; lia|split; cbn; lia|lia]. Defined.

(** 999999.5 microseconds are rounded up. *)
Example utime_rounds_up : utime_since (Timespec 0 500) (Timespec 1 0) = 1000000.
Proof. reflexivity. Qed.
