(* ===== verification/PatternParse.v ===== *)
(** * Parsing of buffer patterns (src/fio/lib/pattern.c, strntol.c, options.c)

    A pattern is given on the command line as a sequence of strings in double quotes, files
    in single quotes, hexadecimal and decimal numbers, and formats.  Each parser takes
    the rest of the input and the rest of the output buffer, and gives back where it
    stopped ([None] is NULL), the buffer, and how many bytes it filled.  A [sscanf] that does not
    match leaves its target as it is. *)

From S2P Require Import Prelude Stream Pattern.

Open Scope Z_scope.

(** ** C strings

    A string is the list of its characters' codes, without the terminating zero.  What
    the sources use of the C library on strings: the scanning of digits, [strtol] and
    its relatives, the search for a character or a substring. *)

(** A literal. *)
Definition chars (s : String.string) : list Z := (fun c => Z.of_nat (Ascii.nat_of_ascii c)) <$> String.list_ascii_of_string s.

Definition isspace (c : Z) : bool := (c =? 32) || ((9 <=? c) && (c <=? 13)).
Definition isdigit (c : Z) : bool := (48 <=? c) && (c <=? 57).
Definition isxdigit (c : Z) : bool := isdigit c || ((65 <=? c) && (c <=? 70)) || ((97 <=? c) && (c <=? 102)).
Definition tolower (c : Z) : Z := if (65 <=? c) && (c <=? 90) then c + 32 else c.

(** [*s]: the first character, zero at the end. *)
Definition ch (s : list Z) : Z := match s with c :: _ => c | [] => 0 end.

(** The value of a digit of any base up to 16. *)
Definition digit_val (c : Z) : Z := if isdigit c then c - 48 else tolower c - 87.

Definition digits_val (base : Z) (ds : list Z) : Z := fold_left (fun a c => base * a + digit_val c) ds 0.

(** The length of the longest prefix of characters of a class ([strspn]). *)
Fixpoint span (p : Z -> bool) (s : list Z) : nat :=
  match s with
  | c :: s' => if p c then S (span p s') else O
  | [] => O
  end.

(** [strchr]: the index of the first occurrence. *)
Fixpoint strchr (s : list Z) (c : Z) : option nat :=
  match s with
  | [] => None
  | d :: s' => if decide (d = c) then Some O else S <$> strchr s' c
  end.

(** [strncmp(s, t, strlen(t)) == 0] and the same without regard to case. *)
Definition starts (t s : list Z) : bool := bool_decide (take (length t) s = t).
Definition starts_nocase (t s : list Z) : bool := bool_decide (tolower <$> take (length t) s = tolower <$> t).

Fixpoint strcasestr (s t : list Z) : option nat :=
  if starts_nocase t s then Some O
  else match s with
       | [] => None
       | _ :: s' => S <$> strcasestr s' t
       end.

Definition LONG_MAX : Z := 2 ^ 63 - 1.
Definition LONG_MIN : Z := - 2 ^ 63.

(** White space and a sign in front of a number: how many characters, and whether the sign is
    a minus. *)
Definition scan_sign (s : list Z) : nat * bool :=
  let k := span isspace s in
  let c := ch (drop k s) in
  if decide (c = 45) then (S k, true) else if decide (c = 43) then (S k, false) else (k, false).

(** [strtol(s, &end, 10)]: the value, limited to the range of a long, and how many characters were
    read, none when there is no number. *)
Definition strtol (s : list Z) : Z * nat :=
  let '(k, neg) := scan_sign s in
  let d := span isdigit (drop k s) in
  if decide (d = O) then (0, O)
  else
    let v := digits_val 10 (take d (drop k s)) in
    (if neg : bool then Z.max LONG_MIN (- v) else Z.min LONG_MAX v, (k + d)%nat).

(** ** Lemmas *)

Lemma span_app p s t : Forall (fun c => p c = true) s -> span p (s ++ t) = (length s + span p t)%nat.
Proof. induction 1 as [|c s Hc _ IH]; [done|]. cbn [span app length]. rewrite Hc, IH. done. Qed.

Lemma span_stop p c t : p c = false -> span p (c :: t) = O.
Proof. intros H. cbn [span]. by rewrite H. Qed.

Lemma span_le p s : (span p s <= length s)%nat.
Proof. induction s as [|c s IH]; [done|]. cbn [span length]. destruct (p c); lia. Qed.

Lemma span_all p s : Forall (fun c => p c = true) (take (span p s) s).
Proof. induction s as [|c s IH]; [constructor|]. cbn [span]. destruct (p c) eqn:E; cbn [take]; [by constructor|constructor]. Qed.

Lemma strchr_app s c t : c ∉ s -> strchr (s ++ c :: t) c = Some (length s).
Proof.
  induction s as [|d s IH]; intros H; cbn [strchr app length]; [by rewrite decide_True|].
  rewrite not_elem_of_cons in H. rewrite decide_False by naive_solver. rewrite IH by tauto. done.
Qed.

Lemma strchr_Some s c k : strchr s c = Some k -> s !! k = Some c /\ (k < length s)%nat.
Proof.
  revert k. induction s as [|d s IH]; intros k; cbn [strchr length]; [done|]. case_decide as E.
  - intros [= <-]. subst. split; [done|lia].
  - intros H. apply fmap_Some in H as (j & Hj & ->). apply IH in Hj as [? ?]. split; [done|lia].
Qed.

Lemma isdigit_isxdigit c : isdigit c = true -> isxdigit c = true.
Proof. unfold isxdigit. intros ->. done. Qed.

Lemma isdigit_iff c : isdigit c = true <-> 48 <= c <= 57.
Proof. unfold isdigit. rewrite andb_true_iff, !Z.leb_le. done. Qed.

Lemma isxdigit_iff c : isxdigit c = true <-> 48 <= c <= 57 \/ 65 <= c <= 70 \/ 97 <= c <= 102.
Proof. unfold isxdigit. rewrite !orb_true_iff, isdigit_iff, !andb_true_iff, !Z.leb_le. tauto. Qed.

Lemma isspace_iff c : isspace c = true <-> c = 32 \/ 9 <= c <= 13.
Proof. unfold isspace. rewrite orb_true_iff, andb_true_iff, !Z.leb_le, Z.eqb_eq. done. Qed.

(** What each class says about a character, in one step. *)
Ltac charclass :=
  repeat match goal with
  | H : isdigit _ = true |- _ => apply isdigit_iff in H
  | H : isxdigit _ = true |- _ => apply isxdigit_iff in H
  | H : isspace _ = true |- _ => apply isspace_iff in H
  | |- isdigit _ = true => apply isdigit_iff
  | |- isxdigit _ = true => apply isxdigit_iff
  | |- isspace _ = true => apply isspace_iff
  | |- isdigit _ = false => apply not_true_iff_false; rewrite isdigit_iff
  | |- isxdigit _ = false => apply not_true_iff_false; rewrite isxdigit_iff
  | |- isspace _ = false => apply not_true_iff_false; rewrite isspace_iff
  | H : isdigit _ = false |- _ => apply not_true_iff_false in H; rewrite isdigit_iff in H
  | H : isxdigit _ = false |- _ => apply not_true_iff_false in H; rewrite isxdigit_iff in H
  end.

(** ** Parsers *)


Definition INT_MAX : Z := 2 ^ 31 - 1.
Definition INT_MIN : Z := - 2 ^ 31.

(** ** strntol *)

(** The value and the end, as a number of characters; [None] is an end that points into the
    local copy, which a value at the limits leaves behind. *)
Definition strntol (str : list Z) (sz : nat) : Z * option nat :=
  let k := span (fun c => c =? 32) (take sz str) in
  let sz := (sz - k)%nat in
  if decide (sz = O \/ (24 <= sz)%nat) then (0, Some O)
  else
    let '(ret, e) := strtol (take sz (drop k str)) in
    if decide (ret = LONG_MIN \/ ret = LONG_MAX) then (ret, None) else (ret, Some (k + e)%nat).

(** ** The parsers *)

Section parse.
(** The contents of a file; [None] when it cannot be opened or read. *)
Context (contents : list Z -> option (list Z)).

Definition parse_result : Type := option (list Z) * list Z * nat.

Definition parse_file (beg out : list Z) : parse_result :=
  if decide (out = []) then (None, out, O)
  else
    let beg := drop 1 beg in
    match strchr beg 39 with
    | None => (None, out, O)
    | Some e =>
        match contents (take e beg) with
        | None => (None, out, O)
        | Some data =>
            let data := take (length out) data in
            (Some (drop (S e) beg), put out 0 data, length data)
        end
    end.

Definition parse_string (beg out : list Z) : parse_result :=
  if decide (out = []) then (None, out, O)
  else
    let beg := drop 1 beg in
    match strchr beg 34 with
    | None => (None, out, O)
    | Some e =>
        if decide (length out < e)%nat then (None, out, O)
        else (Some (drop (S e) beg), put out 0 (take e beg), e)
    end.

Definition is_x (c : Z) : bool := (c =? 120) || (c =? 88).

(** [sscanf(beg, "0%*[xX]%*[0-9a-fA-F]%n", &num)] *)
Definition scan_prefix (beg : list Z) : nat :=
  if decide (ch beg = 48) then
    let x := span is_x (drop 1 beg) in
    let h := span isxdigit (drop (S x) beg) in
    if decide (x = O \/ h = O) then O else S (x + h)
  else O.

(** [sscanf(beg, "%<w>hhx", &c)]; there are no blanks, signs or prefixes where it is called. *)
Definition scan_hhx (w : nat) (beg : list Z) (c : Z) : Z :=
  let d := span isxdigit (take w beg) in
  if decide (d = O) then c else u8 (digits_val 16 (take d beg)).

(** [for (i = 0; num && out_len; ...)]: the buffer, the bytes written and what is left of [num]. *)
Fixpoint hex_loop (out beg : list Z) (num : nat) : list Z * nat * nat :=
  match out with
  | [] => ([], O, num)
  | c :: out' =>
      if decide (num = O) then (out, O, O)
      else
        let w := if Nat.odd num then 1%nat else 2%nat in
        let '(rest, i, num) := hex_loop out' (drop w beg) (num - w) in
        (scan_hhx w beg c :: rest, S i, num)
  end.

(** [for (; val && out_len; ...)] *)
Fixpoint val_loop (out : list Z) (val : Z) : list Z * nat * Z :=
  match out with
  | [] => ([], O, val)
  | c :: out' =>
      if decide (val = 0) then (out, O, 0)
      else
        let '(rest, i, val') := val_loop out' (Z.shiftr val 8) in
        (Z.land val 0xff :: rest, S i, val')
  end.

Definition parse_decimal (beg out : list Z) : parse_result :=
  let num := default O (strcasestr beg [48; 120]) in
  let '(lval, e) := if decide (num <> O) then strntol beg num
                    else let '(v, e) := strtol beg in (v, Some e) in
  if decide (e = Some O \/ lval > INT_MAX \/ lval < INT_MIN) then (None, out, O)
  else
    let fin := drop (default O e) beg in
    if decide (lval = 0) then (Some fin, put out 0 [0], 1%nat)
    else
      let '(out, i, val) := val_loop out (u32 lval) in
      if decide (val <> 0) then (None, out, O) else (Some fin, out, i).

Definition parse_hex (beg out : list Z) (num : nat) : parse_result :=
  let num := (num - 2)%nat in
  let beg := drop 2 beg in
  let num := if decide (drop num beg <> [] /\ starts_nocase [48; 120] (drop (num - 1) beg) = true)
             then (num - 1)%nat else num in
  let '(out, i, rem) := hex_loop out beg num in
  if decide (rem <> O) then (None, out, O) else (Some (drop num beg), out, i).

Definition parse_number (beg out : list Z) : parse_result :=
  if decide (out = []) then (None, out, O)
  else
    let num := scan_prefix beg in
    if decide (num = O) then parse_decimal beg out else parse_hex beg out num.

(** A description of a format: its name, and the length of what is pasted. *)
Record pattern_fmt_desc := FmtDesc { desc_fmt : list Z; fmt_len : nat }.

(** [find_fmt] is the loop over the descriptions. *)
Definition find_fmt (descs : list pattern_fmt_desc) (s : list Z) : option pattern_fmt_desc :=
  snd <$> list_find (fun d => starts (desc_fmt d) s = true) descs.

Definition parse_format (s out : list Z) (parsed : nat) (descs : list pattern_fmt_desc) (fmt_sz : nat)
  : parse_result * list pattern_fmt :=
  if decide (out = [] \/ descs = [] \/ fmt_sz = O) then (None, out, O, [])
  else
    match find_fmt descs s with
    | None => (None, out, O, [])
    | Some d =>
        if decide (length out < fmt_len d)%nat then (None, out, O, [])
        else (Some (drop (length (desc_fmt d)) s), put out 0 (replicate (fmt_len d) 0), fmt_len d, [Fmt parsed (fmt_len d)])
    end.

(** [switch ( *beg )] *)
Definition parse_one (beg out : list Z) (parsed : nat) (descs : list pattern_fmt_desc) (fmt_rem : nat)
  : parse_result * list pattern_fmt :=
  if decide (ch beg = 39) then (parse_file beg out, [])
  else if decide (ch beg = 34) then (parse_string beg out, [])
  else if decide (ch beg = 37) then parse_format beg out parsed descs fmt_rem
  else (parse_number beg out, []).

(** The loop: the result, the rest of the buffer, and the formats.  [None] is a failed assertion. *)
Fixpoint fill_loop (fuel : nat) (beg : list Z) (in_len : nat) (out : list Z) (descs : list pattern_fmt_desc)
    (fmt_rem total : nat) : option (Z * list Z * list pattern_fmt) :=
  match fuel with
  | O => None
  | S fuel' =>
      let '(e, out, filled, f) := parse_one beg out total descs fmt_rem in
      match e with
      | None => Some (- EINVAL, out, [])
      | Some fin =>
          let used := (length beg - length fin)%nat in
          if decide (used <= in_len /\ filled <> 0 /\ filled <= length out)%nat then
            if decide (in_len - used = 0)%nat then Some (Z.of_nat (total + filled), out, f)
            else
              '(r, rest, fs) ← fill_loop fuel' fin (in_len - used) (drop filled out) descs (fmt_rem - length f) (total + filled);
              Some (r, take filled out ++ rest, f ++ fs)
          else None
      end
  end.

(** The formats are those of the array on success, as many as the new value at [fmt_sz_out]. *)
Definition parse_and_fill_pattern (s : list Z) (in_len : nat) (out : list Z) (descs : list pattern_fmt_desc) (fmt_sz : nat)
  : option (Z * list Z * list pattern_fmt) :=
  if decide (in_len = O \/ out = []) then Some (- EINVAL, out, [])
  else fill_loop (S (length out)) s in_len out descs fmt_sz 0.

(** ** The options *)

Definition MAX_PATTERN_SIZE : nat := 512.

Definition fmt_desc : list pattern_fmt_desc := [FmtDesc [37; 111] 8].

(** The bytes and the formats of the option on success, [inl 1] for an input that is refused. *)
Definition str_verify_pattern_cb (buf input : list Z) : option (Z + list Z * list pattern_fmt) :=
  '(ret, out, fs) ← parse_and_fill_pattern input (length input) buf fmt_desc 8;
  if decide (ret < 0) then Some (inl 1)
  else if decide (ret <> 0) then Some (inr (take (Z.to_nat ret) out, fs)) else None.

Definition str_buffer_pattern_cb (buf input : list Z) : option (Z + list Z) :=
  '(ret, out, _) ← parse_and_fill_pattern input (length input) buf [] 0;
  if decide (ret < 0) then Some (inl 1)
  else if decide (ret <> 0) then Some (inr (take (Z.to_nat ret) out)) else None.
End parse.
