(* ===== verification/PatternGrammar.v ===== *)
(** * Parsing of buffer patterns: proofs

    The language of patterns, as a sequence of items with the text and the bytes of each: a
    text that is written by the rules is parsed to the bytes of its items.  On any other text the
    parser fails cleanly or, for pieces that stand for no bytes, in an assertion. *)

From S2P Require Import Prelude PatternParse Stream Pattern.

Open Scope Z_scope.

(** ** Numbers *)

Lemma digits_val_acc base ds : forall a, fold_left (fun a c => base * a + digit_val c) ds a = a * base ^ Z.of_nat
  (length ds) + digits_val base ds.
Proof.
  unfold digits_val. induction ds as [|c ds IH]; intros a; cbn [fold_left length]; [lia|].
  rewrite IH, (IH (base * 0 + _)). rewrite Nat2Z.inj_succ, Z.pow_succ_r by lia. ring.
Qed.

Lemma digits_val_app base a b : digits_val base (a ++ b) = digits_val base a * base ^ Z.of_nat (length b) +
  digits_val base b.
Proof. unfold digits_val at 1. rewrite fold_left_app. apply digits_val_acc. Qed.

Lemma digit_val_range c : isxdigit c = true -> 0 <= digit_val c < 16.
Proof.
  intros H. charclass. unfold digit_val, tolower. destruct (isdigit c) eqn:E; charclass; [lia|].
  destruct ((65 <=? c) && (c <=? 90)) eqn:E2; rewrite ?andb_true_iff, ?andb_false_iff, ?Z.leb_le, ?Z.leb_gt in E2; lia.
Qed.

Lemma digits_val_range ds : Forall (fun c => isxdigit c = true) ds -> 0 <= digits_val 16 ds < 16 ^ Z.of_nat (length ds).
Proof.
  induction ds as [|c ds IH] using rev_ind; intros H; [cbn; lia|]. apply Forall_app in H as [H Hc].
  inversion_clear Hc as [|? ? Hc' _]. apply digit_val_range in Hc'. specialize (IH H).
  rewrite digits_val_app, length_app. cbn [length digits_val fold_left]. rewrite Nat2Z.inj_add, Z.pow_add_r by lia.
  change (16 ^ Z.of_nat 1) with 16. lia.
Qed.

(** The low [n] bytes do not depend on what is above them, and one byte more is the next one up. *)
Lemma word_bytes_low n : forall a b, word_bytes n (a * 256 ^ Z.of_nat n + b) = word_bytes n b.
Proof.
  induction n as [|n IH]; intros a b; [done|]. cbn [word_bytes]. rewrite Nat2Z.inj_succ, Z.pow_succ_r by lia.
  replace (a * (256 * 256 ^ Z.of_nat n) + b) with (b + a * 256 ^ Z.of_nat n * 256) by ring.
  rewrite Z.mod_add, Z.div_add by lia. rewrite Z.add_comm, IH. done.
Qed.

Lemma word_bytes_top n : forall v, word_bytes (S n) v = word_bytes n v ++ [(v / 256 ^ Z.of_nat n) mod 256].
Proof.
  induction n as [|n IH]; intros v; [cbn; by rewrite Z.div_1_r|].
  change (word_bytes (S (S n)) v) with (v mod 256 :: word_bytes (S n) (v / 256)). rewrite IH. cbn [word_bytes app].
  rewrite Nat2Z.inj_succ, Z.pow_succ_r, Z.div_div by lia. done.
Qed.

(** ** Hexadecimal numbers: the bytes of the value, highest first, two digits to a byte *)

Definition hex_bytes (ds : list Z) : list Z := rev (word_bytes ((length ds + 1) / 2) (digits_val 16 ds)).

Lemma hex_bytes_cons a ds : Forall (fun c => isxdigit c = true) ds -> Nat.even (length ds) = true -> 0 <= a < 256 ->
  rev (word_bytes (S (length ds / 2)) (a * 16 ^ Z.of_nat (length ds) + digits_val 16 ds)) = a :: hex_bytes ds.
Proof.
  intros Hd He Ha. unfold hex_bytes. apply Nat.even_spec in He as [k Ek]. rewrite Ek.
  replace ((2 * k + 1) / 2)%nat with k by (apply (Nat.div_unique _ 2 k 1); lia).
  replace (2 * k / 2)%nat with k by (apply (Nat.div_unique _ 2 k 0); lia).
  pose proof (digits_val_range ds Hd) as Hr. rewrite Ek in Hr.
  replace (16 ^ Z.of_nat (2 * k)) with (256 ^ Z.of_nat k) in *.
  2:{ rewrite Nat2Z.inj_mul, Z.pow_mul_r by lia. done. }
  rewrite word_bytes_top, rev_app_distr, word_bytes_low. cbn [rev app]. f_equal.
  rewrite Z.div_add_l by lia. rewrite Z.div_small by lia. rewrite Z.add_0_r. by apply Z.mod_small.
Qed.

Lemma scan_hhx_digits w ds t c : (0 < w <= length ds)%nat -> Forall (fun c => isxdigit c = true) ds -> (w <= 2)%nat ->
  scan_hhx w (ds ++ t) c = digits_val 16 (take w ds).
Proof.
  intros Hw Hd Hw2. unfold scan_hhx. rewrite take_app_le by lia.
  assert (Hd' : Forall (fun c => isxdigit c = true) (take w ds)) by by apply Forall_take.
  assert (Es : span isxdigit (take w ds) = w).
  { rewrite <- (app_nil_r (take w ds)), span_app by done. rewrite length_take. cbn [span]. lia. }
  rewrite Es. rewrite decide_False by lia. rewrite take_app_le by lia. apply wrapu_small.
  pose proof (digits_val_range _ Hd') as Hr. rewrite length_take in Hr.
  replace (Nat.min w (length ds)) with w in Hr by lia.
  destruct w as [|[|[|w]]]; cbn in Hr; lia.
Qed.

Lemma hex_loop_even n : forall ds t out, length ds = (2 * n)%nat -> Forall (fun c => isxdigit c = true) ds ->
  (n <= length out)%nat ->
  hex_loop out (ds ++ t) (length ds) = (hex_bytes ds ++ drop n out, n, O).
Proof.
  induction n as [|n IH]; intros ds t out Hl Hd Ho.
  - destruct ds; [|done]. destruct out; done.
  - destruct ds as [|a [|b ds]]; try (cbn in Hl; lia). destruct out as [|c out]; [cbn in Ho; lia|].
    cbn [length] in Hl, Ho.
    assert (Hlen : length ds = (2 * n)%nat) by lia. cbn [hex_loop]. rewrite decide_False by done.
    replace (Nat.odd (length (a :: b :: ds))) with false by (cbn [length]; rewrite Hlen, Nat.odd_succ, Nat.even_succ,
      Nat.odd_mul; done).
    rewrite scan_hhx_digits by (done || cbn [length]; lia). replace (drop 2 ((a :: b :: ds) ++ t)) with (ds ++ t) by done.
    replace (length (a :: b :: ds) - 2)%nat with (length ds) by (cbn [length]; lia).
    inversion_clear Hd as [|? ? Ha Hd']. inversion_clear Hd' as [|? ? Hb Hd]. rewrite IH by (done || lia).
    f_equal. f_equal. cbn [take drop]. rewrite take_0, (app_comm_cons (hex_bytes ds)). f_equal.
    pose proof (digits_val_range [a; b]) as Hab. specialize (Hab ltac:(by repeat constructor)).
    rewrite <- (hex_bytes_cons (digits_val 16 [a; b]) ds); [|done|rewrite Hlen; apply Nat.even_spec;
      by exists n|exact Hab].
    unfold hex_bytes. f_equal. f_equal; [|change (a :: b :: ds) with ([a; b] ++ ds); by rewrite digits_val_app].
    cbn [length]. rewrite Hlen. replace (S (S (2 * n)) + 1)%nat with (1 + (n + 1) * 2)%nat by lia.
    rewrite Nat.div_add by lia.
    rewrite Nat.mul_comm, Nat.div_mul by lia. cbn. lia.
Qed.

Lemma hex_loop_digits ds t out : Forall (fun c => isxdigit c = true) ds -> ((length ds + 1) / 2 <= length out)%nat ->
  hex_loop out (ds ++ t) (length ds) = (hex_bytes ds ++ drop ((length ds + 1) / 2) out, ((length ds + 1) / 2)%nat, O).
Proof.
  intros Hd Ho. destruct (Nat.even (length ds)) eqn:E.
  - pose proof E as [k Ek]%Nat.even_spec. assert (Eh : ((length ds + 1) / 2 = k)%nat) by (rewrite Ek; symmetry;
      apply (Nat.div_unique _ 2 k 1); lia).
    rewrite Eh in *. by apply hex_loop_even.
  - assert (Eo : Nat.odd (length ds) = true) by (rewrite <- Nat.negb_even, E; done). pose proof Eo as [k Ek]%Nat.odd_spec.
    assert (Eh : ((length ds + 1) / 2 = S k)%nat) by (rewrite Ek; symmetry; apply (Nat.div_unique _ 2 _ 0); lia).
    rewrite Eh in *. destruct ds as [|a ds]; [done|]. destruct out as [|c out]; [cbn in Ho; lia|]. cbn [length] in Ek, Ho.
    cbn [hex_loop]. rewrite decide_False by done. rewrite Eo. rewrite scan_hhx_digits by (done || cbn [length]; lia).
    replace (drop 1 ((a :: ds) ++ t)) with (ds ++ t) by done.
    replace (length (a :: ds) - 1)%nat with (length ds) by (cbn [length]; lia).
    inversion_clear Hd as [|? ? Ha Hd']. rewrite (hex_loop_even k) by (done || lia). f_equal. f_equal.
    cbn [take drop]. rewrite take_0, (app_comm_cons (hex_bytes ds)). f_equal.
    pose proof (digits_val_range [a]) as Hab. specialize (Hab ltac:(by repeat constructor)).
    rewrite <- (hex_bytes_cons (digits_val 16 [a]) ds); [|done|apply Nat.even_spec; exists k; lia|cbn in Hab |- *; lia].
    unfold hex_bytes. f_equal. f_equal; [|change (a :: ds) with ([a] ++ ds); by rewrite digits_val_app].
    rewrite Eh. f_equal. symmetry. apply (Nat.div_unique _ 2 k 0); lia.
Qed.

(** ** Decimal numbers: the bytes of the value as an unsigned int, lowest first, as few as possible *)

Definition nbytes (v : Z) : nat := Z.to_nat (Z.log2 v / 8 + 1).

Definition dec_bytes (z : Z) : list Z := if decide (z = 0) then [0] else word_bytes (nbytes (u32 z)) (u32 z).

Lemma val_loop_bytes n : forall val out,
  0 <= val < 256 ^ Z.of_nat n -> n = O \/ 256 ^ (Z.of_nat n - 1) <= val -> (n <= length out)%nat ->
  val_loop out val = (word_bytes n val ++ drop n out, n, 0).
Proof.
  induction n as [|n IH]; intros val out Hv Hlo Ho.
  - assert (val = 0) as -> by (cbn in Hv; lia). destruct out; done.
  - destruct out as [|c out]; [cbn in Ho; lia|]. destruct Hlo as [|Hlo]; [done|]. rewrite Nat2Z.inj_succ in Hv, Hlo.
    replace (Z.succ (Z.of_nat n) - 1) with (Z.of_nat n) in Hlo by lia. rewrite Z.pow_succ_r in Hv by lia.
    pose proof (Z.pow_pos_nonneg 256 (Z.of_nat n) ltac:(lia) ltac:(lia)) as Hp. cbn [val_loop].
    rewrite decide_False by lia.
    rewrite Z.shiftr_div_pow2 by lia. change (2 ^ 8) with 256.
    rewrite IH; [|split; [apply Z.div_pos; lia|apply Z.div_lt_upper_bound; lia]| |cbn in Ho; lia].
    + change (Z.land val 0xff) with (Z.land val (Z.ones 8)). rewrite Z.land_ones by lia. done.
    + destruct n as [|n]; [by left|right]. rewrite Nat2Z.inj_succ in Hlo.
      replace (Z.of_nat (S n) - 1) with (Z.of_nat n) by lia.
      apply Z.div_le_lower_bound; [lia|]. rewrite Z.pow_succ_r in Hlo by lia. lia.
Qed.

Lemma nbytes_bounds v : 0 < v -> 0 <= v < 256 ^ Z.of_nat (nbytes v) /\ 256 ^ (Z.of_nat (nbytes v) - 1) <= v.
Proof.
  intros Hv. unfold nbytes. pose proof (Z.log2_nonneg v) as H0. pose proof (Z.log2_spec v Hv) as [Hl Hu].
  assert (Hd : 0 <= Z.log2 v / 8) by (apply Z.div_pos; lia). rewrite Z2Nat.id by lia.
  replace (Z.log2 v / 8 + 1 - 1) with (Z.log2 v / 8) by lia. change 256 with (2 ^ 8). rewrite <- !Z.pow_mul_r by lia.
  pose proof (Z.div_mod (Z.log2 v) 8 ltac:(lia)) as Hdm. pose proof (Z.mod_pos_bound (Z.log2 v) 8 ltac:(lia)) as Hm.
  split; [split; [lia|]|].
  - eapply Z.lt_le_trans; [exact Hu|]. apply Z.pow_le_mono_r; lia.
  - eapply Z.le_trans; [|exact Hl]. apply Z.pow_le_mono_r; lia.
Qed.

Definition dec_text (neg : bool) (ds : list Z) : list Z := (if neg then [45] else []) ++ ds.
Definition dec_val (neg : bool) (ds : list Z) : Z := if neg then - digits_val 10 ds else digits_val 10 ds.

Section dec.
Context (neg : bool) (ds : list Z) (Hne : ds <> []) (Hd : Forall (fun c => isdigit c = true) ds)
  (Hr : INT_MIN <= dec_val neg ds <= INT_MAX).

Lemma scan_sign_text t : scan_sign (dec_text neg ds ++ t) = (if neg then 1%nat else O, neg).
Proof using Hne Hd.
  clear Hr. destruct ds as [|d ds']; [done|]. inversion_clear Hd as [|? ? H1 _]. unfold scan_sign, dec_text.
  destruct neg; cbn [app].
  - done.
  - rewrite span_stop by (charclass; lia). rewrite drop_0. cbn [ch]. charclass. by rewrite !decide_False by lia.
Qed.

Lemma strtol_text t : isdigit (ch t) = false -> strtol (dec_text neg ds ++ t) = (dec_val neg ds,
  length (dec_text neg ds)).
Proof using Hne Hd Hr.
  intros Ht. unfold strtol. rewrite scan_sign_text.
  assert (Edrop : drop (if neg then 1%nat else O) (dec_text neg ds ++ t) = ds ++ t) by (destruct neg; done).
  rewrite Edrop. rewrite span_app by done.
  replace (span isdigit t) with O by (destruct t; cbn [span ch] in *; [done|by rewrite Ht]).
  rewrite Nat.add_0_r. rewrite decide_False by (destruct ds; done). rewrite take_app_length. f_equal.
  - unfold dec_val, INT_MIN, INT_MAX, LONG_MIN, LONG_MAX in *. destruct neg; lia.
  - unfold dec_text. rewrite length_app. destruct neg; done.
Qed.

Lemma strntol_text t k : (length (dec_text neg ds) + k < 24)%nat -> isdigit (ch (take k t)) = false ->
  strntol (dec_text neg ds ++ t) (length (dec_text neg ds) + k) = (dec_val neg ds, Some (length (dec_text neg ds))).
Proof using Hne Hd Hr.
  intros Hlen Ht. unfold strntol. rewrite take_app_add.
  assert (E0 : span (fun c => c =? 32) (dec_text neg ds ++ take k t) = O).
  { destruct ds as [|d ds']; [done|]. inversion_clear Hd as [|? ? H1 _]. unfold dec_text. destruct neg;
      cbn [app span]; [done|].
    charclass. rewrite (proj2 (Z.eqb_neq d 32)) by lia. done. }
  rewrite E0, Nat.sub_0_r, drop_0, take_app_add.
  assert (0 < length (dec_text neg ds))%nat by (unfold dec_text; destruct ds; [done|]; rewrite length_app;
    cbn [length]; lia).
  rewrite decide_False by lia. rewrite strtol_text by done. rewrite decide_False; [done|].
  unfold INT_MIN, INT_MAX, LONG_MIN, LONG_MAX in *. lia.
Qed.
End dec.

(** ** Looking ahead for the next hexadecimal number *)

Lemma starts_0x s : starts_nocase [48; 120] s = true <-> exists x t, s = 48 :: x :: t /\ is_x x = true.
Proof.
  unfold starts_nocase, is_x. rewrite bool_decide_eq_true. split.
  - intros H. destruct s as [|c [|x t]]; try done. cbn [length take fmap list_fmap] in H. injection H as Hc Hx.
    exists x, t. unfold tolower in Hc, Hx. change ((65 <=? 48) && (48 <=? 90)) with false in Hc.
    change ((65 <=? 120) && (120 <=? 90)) with false in Hx. cbv iota in Hc, Hx.
    destruct ((65 <=? c) && (c <=? 90)) eqn:E1; destruct ((65 <=? x) && (x <=? 90)) eqn:E2;
    rewrite ?andb_true_iff, ?Z.leb_le in E1, E2; split; try (f_equal; try f_equal; lia); rewrite orb_true_iff,
      !Z.eqb_eq; lia.
  - intros (x & t & -> & Hx). rewrite orb_true_iff, !Z.eqb_eq in Hx. by destruct Hx as [-> | ->].
Qed.

Lemma isdigit_not_x c : isdigit c = true -> is_x c = false.
Proof. intros H. charclass. unfold is_x. rewrite orb_false_iff, !Z.eqb_neq. lia. Qed.

Lemma strcasestr_digits ds t : Forall (fun c => isdigit c = true) ds -> is_x (ch t) = false ->
  strcasestr (ds ++ t) [48; 120] = (fun k => (length ds + k)%nat) <$> strcasestr t [48; 120].
Proof.
  intros Hd Ht. induction Hd as [|c ds Hc Hd IH]; cbn [app length].
  - by destruct (strcasestr t [48; 120]).
  - cbn [strcasestr]. assert (Hn : starts_nocase [48; 120] (c :: ds ++ t) = false).
    { apply not_true_iff_false. rewrite starts_0x. intros (x & s & E & Hx). injection E as ->
        E. destruct Hd as [|d ds Hc' _]; cbn [app] in E.
      - rewrite E in Ht. cbn [ch] in Ht. congruence.
      - injection E as -> _. apply isdigit_not_x in Hc'. congruence. }
    rewrite Hn, IH. by destruct (strcasestr t [48; 120]).
Qed.

Lemma strcasestr_text neg ds t : Forall (fun c => isdigit c = true) ds -> is_x (ch t) = false ->
  strcasestr (dec_text neg ds ++ t) [48; 120] = (fun k => (length (dec_text neg ds) + k)%nat) <$> strcasestr t [48; 120].
Proof.
  intros Hd Ht. destruct neg; [|by apply strcasestr_digits]. unfold dec_text. cbn [app length]. cbn [strcasestr].
  replace (starts_nocase [48; 120] (45 :: ds ++ t)) with false.
  - rewrite strcasestr_digits by done. by destruct (strcasestr t [48; 120]).
  - symmetry. apply not_true_iff_false. rewrite starts_0x. intros (x & s & E & _). done.
Qed.

(** ** The language *)

Inductive item :=
  | Str (s : list Z)
  | File (name : list Z)
  | Hex (x : Z) (ds : list Z)
  | Dec (neg : bool) (ds : list Z)
  | Off.

Definition text (i : item) : list Z :=
  match i with
  | Str s => 34 :: s ++ [34]
  | File f => 39 :: f ++ [39]
  | Hex x ds => 48 :: x :: ds
  | Dec neg ds => dec_text neg ds
  | Off => [37; 111]
  end.

Definition texts (l : list item) : list Z := mjoin (text <$> l).

(** What may follow a number.  A decimal number looks ahead for the next hexadecimal one, and gives
    up when that is 24 or more characters from its start. *)
Definition hex_follow (t : list Z) : Prop :=
  is_x (ch t) = false /\ (isxdigit (ch t) = false \/ starts_nocase [48; 120] t = true).

Definition dec_follow (len : nat) (t : list Z) : Prop :=
  is_x (ch t) = false /\
  match strcasestr t [48; 120] with
  | None => isdigit (ch t) = false
  | Some k => (len + k < 24)%nat /\ isdigit (ch (take k t)) = false
  end.

Section items.
Context (contents : list Z -> option (list Z)).

Definition bytes (i : item) : list Z :=
  match i with
  | Str s => s
  | File f => default [] (contents f)
  | Hex _ ds => hex_bytes ds
  | Dec neg ds => dec_bytes (dec_val neg ds)
  | Off => replicate 8 0
  end.

Definition all_bytes (l : list item) : list Z := mjoin (bytes <$> l).

Definition item_ok (i : item) (t : list Z) : Prop :=
  match i with
  | Str s => s <> [] /\ 34 ∉ s
  | File f => bytes (File f) <> [] /\ 39 ∉ f
  | Hex x ds => is_x x = true /\ ds <> [] /\ Forall (fun c => isxdigit c = true) ds /\ hex_follow t
  | Dec neg ds => ds <> [] /\ Forall (fun c => isdigit c = true) ds /\ INT_MIN <= dec_val neg ds <= INT_MAX /\
                  dec_follow (length (dec_text neg ds)) t
  | Off => True
  end.

Fixpoint items_ok (l : list item) : Prop :=
  match l with [] => True | i :: l' => item_ok i (texts l') /\ items_ok l' end.

(** The formats: where the offsets go. *)
Definition fmts (pos : nat) (i : item) : list pattern_fmt := match i with Off => [Fmt pos 8] | _ => [] end.

Fixpoint formats (pos : nat) (l : list item) : list pattern_fmt :=
  match l with [] => [] | i :: l' => fmts pos i ++ formats (pos + length (bytes i)) l' end.

Definition filled (i : item) (out : list Z) : list Z := bytes i ++ drop (length (bytes i)) out.

Lemma parse_string_item s t out : 34 ∉ s -> (length s <= length out)%nat -> out <> [] ->
  parse_string (text (Str s) ++ t) out = (Some t, filled (Str s) out, length s).
Proof.
  intros Hq Hl Ho. unfold parse_string. rewrite decide_False by done. cbn [text app].
  rewrite <- app_assoc, skipn_cons, drop_0. cbn [app].
  rewrite strchr_app by done. rewrite decide_False by lia. rewrite take_app_length. f_equal. f_equal. f_equal.
  replace (S (length s)) with (length s + 1)%nat by lia. by rewrite drop_app_add.
Qed.

Lemma parse_file_item f t out : 39 ∉ f -> bytes (File f) <> [] -> (length (bytes (File f)) <= length out)%nat ->
  out <> [] ->
  parse_file contents (text (File f) ++ t) out = (Some t, filled (File f) out, length (bytes (File f))).
Proof.
  intros Hq Hb Hl Ho. unfold parse_file. rewrite decide_False by done. cbn [text app].
  rewrite <- app_assoc, skipn_cons, drop_0. cbn [app].
  rewrite strchr_app by done. rewrite take_app_length. unfold filled. cbn [bytes] in *.
  destruct (contents f) as [data|]; [|done].
  cbn [default] in *. rewrite take_ge by done. f_equal. f_equal. f_equal. 
  replace (S (length f)) with (length f + 1)%nat by lia. by rewrite drop_app_add.
Qed.
Lemma length_hex_bytes ds : length (hex_bytes ds) = ((length ds + 1) / 2)%nat.
Proof. unfold hex_bytes. by rewrite length_rev, length_word_bytes. Qed.

Lemma scan_prefix_hex x ds t : is_x x = true -> ds <> [] -> Forall (fun c => isxdigit c = true) ds ->
  scan_prefix (text (Hex x ds) ++ t) = (2 + length ds + span isxdigit t)%nat.
Proof.
  intros Hx Hne Hd. unfold scan_prefix. cbn [text app ch]. rewrite decide_True, skipn_cons, drop_0 by done.
  assert (E : span is_x (x :: ds ++ t) = 1%nat).
  { destruct ds as [|d ds]; [done|]. inversion_clear Hd as [|? ? H1 _]. cbn [span app]. rewrite Hx. unfold is_x.
      charclass.
    rewrite (proj2 (Z.eqb_neq d 120)), (proj2 (Z.eqb_neq d 88)) by lia. done. }
  rewrite E. rewrite !skipn_cons, drop_0, span_app by done. rewrite decide_False; [lia|]. destruct ds; [done|].
  cbn [length]. lia.
Qed.

Lemma look_back ds t : is_x (ch t) = false -> ds <> [] -> starts_nocase [48;
  120] (drop (length ds - 1) (ds ++ t)) = false.
Proof.
  intros Ht Hne. apply not_true_iff_false. rewrite starts_0x. intros (x & s & E & Hx).
  destruct (exists_last Hne) as (ds' & d & ->).
  rewrite length_app in E. cbn [length] in E. replace (length ds' + 1 - 1)%nat with (length ds') in E by lia.
  rewrite <- app_assoc, drop_app_length in E.
  injection E as _ E. rewrite E in Ht. cbn [ch] in Ht. congruence.
Qed.

Lemma parse_hex_item x ds t out : is_x x = true -> ds <> [] -> Forall (fun c => isxdigit c = true) ds -> hex_follow t ->
  (length (bytes (Hex x ds)) <= length out)%nat ->
  parse_hex (text (Hex x ds) ++ t) out (scan_prefix (text (Hex x ds) ++ t)) = (Some t, filled (Hex x ds) out,
    length (bytes (Hex x ds))).
Proof.
  intros Hx Hne Hd [Htx Ht] Hl. cbn [bytes] in Hl. rewrite length_hex_bytes in Hl. rewrite scan_prefix_hex by done.
  unfold parse_hex.
  replace (2 + length ds + span isxdigit t - 2)%nat with (length ds + span isxdigit t)%nat by lia. cbn [text app].
  rewrite !skipn_cons, drop_0.
  assert (En : (if decide (drop (length ds + span isxdigit t) (ds ++ t) <> [] /\ starts_nocase [48;
    120] (drop (length ds + span isxdigit t - 1) (ds ++ t)) = true)
                then (length ds + span isxdigit t - 1)%nat else (length ds + span isxdigit t)%nat) = length ds).
  { destruct (starts_nocase [48; 120] t) eqn:E.
    - pose proof E as (y & t' & -> & Hy)%starts_0x. assert (Es : span isxdigit (48 :: y :: t') = 1%nat).
      { cbn [span]. replace (isxdigit y) with false; [done|]. symmetry. unfold is_x in Hy. rewrite orb_true_iff,
          !Z.eqb_eq in Hy. charclass. lia. }
      rewrite Es. rewrite decide_True; [lia|]. split.
      + rewrite drop_app_add. done.
      + replace (length ds + 1 - 1)%nat with (length ds) by lia. by rewrite drop_app_length.
    - destruct Ht as [Ht|]; [|done]. replace (span isxdigit t) with O by (destruct t; cbn [span ch] in *;
        [done|by rewrite Ht]).
      rewrite Nat.add_0_r. rewrite decide_False; [done|]. rewrite look_back by done. naive_solver. }
  rewrite En. rewrite hex_loop_digits by done. rewrite decide_False by lia. rewrite drop_app_length. unfold filled.
  cbn [bytes].
  by rewrite length_hex_bytes.
Qed.

Lemma scan_prefix_dec neg ds t : ds <> [] -> Forall (fun c => isdigit c = true) ds -> is_x (ch t) = false ->
  scan_prefix (dec_text neg ds ++ t) = O.
Proof.
  intros Hne Hd Ht. unfold scan_prefix, dec_text. destruct neg; [done|]. cbn [app]. destruct ds as [|d ds]; [done|].
  cbn [app ch].
  case_decide; [|done]. rewrite skipn_cons, drop_0. assert (E : span is_x (ds ++ t) = O).
  { inversion_clear Hd as [|? ? _ Hd']. destruct Hd' as [|e ds He _]; cbn [app].
    - destruct t; cbn [span ch] in *; [done|by rewrite Ht].
    - cbn [span]. by rewrite isdigit_not_x. }
  rewrite E. rewrite decide_True by tauto. done.
Qed.

Lemma parse_dec_item neg ds t out : ds <> [] -> Forall (fun c => isdigit c = true) ds ->
  INT_MIN <= dec_val neg ds <= INT_MAX ->
  dec_follow (length (dec_text neg ds)) t -> out <> [] -> (length (bytes (Dec neg ds)) <= length out)%nat ->
  parse_decimal (text (Dec neg ds) ++ t) out = (Some t, filled (Dec neg ds) out, length (bytes (Dec neg ds))).
Proof.
  intros Hne Hd Hr [Htx Ht] Ho Hl. unfold parse_decimal. cbn [text]. rewrite strcasestr_text by done.
  set (n := length (dec_text neg ds)) in *.
  assert (Hn : (0 < n)%nat) by (unfold n, dec_text; destruct ds; [done|]; rewrite length_app; cbn [length]; lia).
  assert (E : (if decide (default O ((fun k => (n + k)%nat) <$> strcasestr t [48; 120]) <> O)
               then strntol (dec_text neg ds ++ t) (default O ((fun k => (n + k)%nat) <$> strcasestr t [48; 120]))
               else let '(v, e) := strtol (dec_text neg ds ++ t) in (v, Some e)) = (dec_val neg ds, Some n)).
  { destruct (strcasestr t [48; 120]) as [k|]; cbn [fmap option_fmap option_map default from_option id].
    - rewrite decide_True by lia. destruct Ht. by apply strntol_text.
    - rewrite decide_False by naive_solver. by rewrite strtol_text. }
  rewrite E. rewrite decide_False by (unfold INT_MAX, INT_MIN in *; intros [[= ?]|[?|?]]; lia).
  cbn [default from_option id].
  unfold n. rewrite drop_app_length. unfold filled. cbn [bytes] in *. unfold dec_bytes in *.
  destruct (decide (dec_val neg ds = 0)) as [Ez|Ez].
  - cbn [length]. done.
  - assert (Hu : 0 < u32 (dec_val neg ds)).
    { unfold INT_MAX, INT_MIN in Hr. unfold wrapu. pose proof (Z.mod_pos_bound (dec_val neg ds) (2 ^ 32) ltac:(lia)).
      assert (dec_val neg ds mod 2 ^ 32 <> 0); [|lia]. intros H0. apply Z.mod_divide in H0 as [q Hq]; [|lia]. lia. }
    rewrite length_word_bytes in *. destruct (nbytes_bounds _ Hu) as [H1 H2].
    rewrite (val_loop_bytes (nbytes (u32 (dec_val neg ds)))) by auto.
    rewrite decide_False by (intros H; done). done.
Qed.

Lemma bytes_nonempty i t : item_ok i t -> (0 < length (bytes i))%nat.
Proof.
  destruct i as [s|f|x ds|neg ds|]; cbn [item_ok bytes].
  - intros [H _]. destruct s; [done|]. cbn. lia.
  - intros [H _]. destruct (default [] (contents f)); [done|]. cbn. lia.
  - intros (_ & H & _). rewrite length_hex_bytes. destruct ds; [done|]. cbn [length]. apply Nat.div_str_pos. lia.
  - intros _. unfold dec_bytes. case_decide; [cbn; lia|]. rewrite length_word_bytes. unfold nbytes.
    pose proof (Z.div_pos (Z.log2 (u32 (dec_val neg ds))) 8 (Z.log2_nonneg _) ltac:(lia)). lia.
  - cbn. lia.
Qed.

Lemma text_nonempty i t : item_ok i t -> (0 < length (text i))%nat.
Proof.
  destruct i as [s|f|x ds|neg ds|]; cbn [item_ok text length]; try lia. intros (H & _). unfold dec_text.
  rewrite length_app. destruct ds; [done|]. cbn [length]. lia.
Qed.

Lemma parse_one_item i t out total rem : item_ok i t -> (length (bytes i) <= length out)%nat ->
  (length (fmts total i) <= rem)%nat ->
  parse_one contents (text i ++ t) out total fmt_desc rem = (Some t, filled i out, length (bytes i), fmts total i).
Proof.
  intros Hi Hl Hf. pose proof (bytes_nonempty i t Hi) as Hb.
  assert (Ho : out <> []) by (destruct out; [cbn in Hl; lia|done]).
  unfold parse_one. destruct i as [s|f|x ds|neg ds|]; cbn [item_ok] in Hi.
  - rewrite decide_False, decide_True by done. rewrite parse_string_item by naive_solver. done.
  - rewrite decide_True by done. rewrite parse_file_item by naive_solver. done.
  - rewrite !decide_False by done. destruct Hi as (? & ? & ? & ?). unfold parse_number. rewrite decide_False by done.
    rewrite decide_False by (rewrite scan_prefix_hex by done; lia). by rewrite parse_hex_item.
  - destruct Hi as (Hne & Hd & Hr & Ht). assert (Hc : 39 <> ch (text (Dec neg ds) ++ t) /\
      34 <> ch (text (Dec neg ds) ++ t) /\ 37 <> ch (text (Dec neg ds) ++ t)).
    { cbn [text]. unfold dec_text. destruct neg; [done|]. destruct ds as [|d ds];
        [done|]. inversion_clear Hd as [|? ? H1 _]. cbn [app ch]. charclass. lia. }
    rewrite !decide_False by (intros E; rewrite E in Hc; tauto). unfold parse_number. rewrite decide_False by done.
    rewrite decide_True by (apply scan_prefix_dec; [done|done|by destruct Ht]). by rewrite parse_dec_item.
  - rewrite decide_False, decide_False, decide_True by done. unfold parse_format. cbn [fmts length] in Hf.
    rewrite decide_False by (intros [|[|]]; [done|done|lia]).
    cbn [text app]. change (find_fmt fmt_desc (37 :: 111 :: t)) with (Some (FmtDesc [37; 111] 8)). cbn [fmt_len desc_fmt].
    cbn [bytes] in Hl. rewrite length_replicate in Hl. rewrite decide_False by lia. done.
Qed.

Lemma drop_filled i out : drop (length (bytes i)) (filled i out) = drop (length (bytes i)) out.
Proof. unfold filled. by rewrite drop_app_length. Qed.

Lemma fill_loop_items l : forall fuel out rem total,
  l <> [] -> items_ok l -> (length (all_bytes l) <= length out)%nat -> (length (formats total l) <= rem)%nat ->
    (length l <= fuel)%nat ->
  fill_loop contents fuel (texts l) (length (texts l)) out fmt_desc rem total =
    Some (Z.of_nat (total + length (all_bytes l)), all_bytes l ++ drop (length (all_bytes l)) out, formats total l).
Proof.
  induction l as [|i l IH]; intros fuel out rem total Hne Hok Hl Hf Hfuel; [done|].
  destruct fuel as [|fuel]; [cbn in Hfuel; lia|].
  destruct Hok as [Hi Hok]. change (texts (i :: l)) with (text i ++ texts l).
  change (all_bytes (i :: l)) with (bytes i ++ all_bytes l) in *.
  cbn [formats] in *. rewrite length_app in Hl, Hf. cbn [length] in Hfuel. cbn [fill_loop].
  rewrite parse_one_item by (done || lia).
  pose proof (bytes_nonempty _ _ Hi) as Hb. pose proof (text_nonempty _ _ Hi) as Htx. rewrite length_app.
  replace (length (text i) + length (texts l) - length (texts l))%nat with (length (text i)) by lia.
  assert (Hlf : length (filled i out) = length out) by (unfold filled; rewrite length_app, length_drop; lia).
  rewrite decide_True by lia. destruct l as [|j l].
  - rewrite decide_True by (cbn; lia). change (all_bytes []) with (@nil Z). rewrite !app_nil_r. done.
  - destruct Hok as [Hj Hok]. pose proof (text_nonempty _ _ Hj) as Htj.
    change (texts (j :: l)) with (text j ++ texts l). rewrite decide_False by (rewrite length_app; lia).
    rewrite drop_filled. replace (length (text i) + length (text j ++ texts l) - length (text i))%nat with (length
      (texts (j :: l))) by (change (texts (j :: l)) with (text j ++ texts l); lia).
    change (text j ++ texts l) with (texts (j :: l)). rewrite IH; [|done|done|rewrite length_drop; lia|lia|lia].
    cbn [mbind option_bind].
    f_equal. f_equal. f_equal; [rewrite length_app; lia|]. unfold filled. rewrite take_app_length, <- app_assoc.
    f_equal. f_equal.
    rewrite drop_drop, length_app. done.
Qed.

Lemma items_bytes l : items_ok l -> (length l <= length (all_bytes l))%nat.
Proof.
  induction l as [|i l IH]; intros Hok; [done|]. destruct Hok as [Hi Hok].
  change (all_bytes (i :: l)) with (bytes i ++ all_bytes l).
  rewrite length_app. cbn [length]. pose proof (bytes_nonempty _ _ Hi). specialize (IH Hok). lia.
Qed.

Lemma parse_items l out sz :
  l <> [] -> items_ok l -> (length (all_bytes l) <= length out)%nat -> (length (formats 0 l) <= sz)%nat ->
  parse_and_fill_pattern contents (texts l) (length (texts l)) out fmt_desc sz =
    Some (Z.of_nat (length (all_bytes l)), all_bytes l ++ drop (length (all_bytes l)) out, formats 0 l).
Proof.
  intros Hne Hok Hl Hf. unfold parse_and_fill_pattern. pose proof (items_bytes l Hok). rewrite decide_False.
  - rewrite fill_loop_items; [done|done|done|done|done|lia].
  - destruct l as [|i l]; [done|]. cbn [length] in *. destruct Hok as [Hi _]. pose proof (text_nonempty _ _ Hi).
    change (texts (i :: l)) with (text i ++ texts l). rewrite length_app. intros [|E]; [lia|]. rewrite E in Hl.
    cbn [length] in Hl. lia.
Qed.
End items.
