(* ===== verification/PatternText.v ===== *)
(** * Parsing of buffer patterns: the options

    A pattern option that is written by the rules ends up as the bytes it describes, with the
    offset of the unit where it asks for it; every other text is refused, except for
    pieces without bytes, on which an assertion fails. *)

From S2P Require Import Prelude PatternParse Stream Pattern PatternGrammar.

Open Scope Z_scope.

(** ** From the option to the buffer *)

Section buffer.
Context (contents : list Z -> option (list Z)) (offset : Z).

(** The bytes of an item in a buffer at [offset]. *)
Definition pasted (i : item) : list Z := match i with Off => word_bytes 8 offset | _ => bytes contents i end.

Definition all_pasted (l : list item) : list Z := mjoin (pasted <$> l).

Lemma pasted_length i : length (pasted i) = length (bytes contents i).
Proof. by destruct i. Qed.

Lemma length_all_pasted l : length (all_pasted l) = length (all_bytes contents l).
Proof.
  induction l as [|i l IH]; [done|]. change (all_pasted (i :: l)) with (pasted i ++ all_pasted l).
  change (all_bytes contents (i :: l)) with (bytes contents i ++ all_bytes contents l).
  rewrite !length_app, IH, pasted_length. done.
Qed.

Lemma paste_loop_items l : forall pre, items_ok contents l ->
  paste_loop (pre ++ all_bytes contents l) (formats contents (length pre) l) offset = pre ++ all_pasted l.
Proof.
  induction l as [|i l IH]; intros pre Hok; [done|]. destruct Hok as [Hi Hok].
  pose proof (bytes_nonempty _ _ _ Hi) as Hb. specialize (IH (pre ++ pasted i) Hok).
  change (all_pasted (i :: l)) with (pasted i ++ all_pasted l).
  change (all_bytes contents (i :: l)) with (bytes contents i ++ all_bytes contents l).
  rewrite length_app, pasted_length, <- !app_assoc in IH. cbn [formats]. destruct i as [s|f|x ds|neg ds|]; try exact IH.
  cbn [fmts app paste_loop fmt_off desc_len]. rewrite !length_app.
  change (length (bytes contents Off)) with 8%nat in *. rewrite decide_False by lia.
  replace (Nat.min _ 8) with 8%nat by lia. rewrite <- IH. f_equal. unfold paste_blockoff.
  rewrite take_ge by (rewrite length_word_bytes; lia).
  unfold put. rewrite take_app_length, length_word_bytes, drop_app_add. f_equal.
Qed.

Lemma paste_format_items l out : l <> [] -> items_ok contents l -> (length (all_bytes contents l) <= length out)%nat ->
  paste_format (all_bytes contents l) (formats contents 0 l) offset out = (0, tile (all_pasted l) 0 (length out)).
Proof.
  intros Hne Hok Hl. pose proof (items_bytes contents l Hok) as Hn. set (p := all_bytes contents l) in *.
  assert (Hl0 : (0 < length l)%nat) by (destruct l; [done|cbn; lia]).
  unfold paste_format. rewrite decide_False by (intros [E|E]; [rewrite E in Hn|rewrite E in Hl]; cbn [length] in *; lia).
  rewrite Nat.min_l by done. rewrite firstn_all.
  assert (Ht : take (length p) (put out 0 p) = p) by (unfold put; rewrite take_0, app_nil_l; apply take_app_length).
  rewrite Ht. unfold paste_format_inplace. rewrite decide_False by (intros E; rewrite E in Hn; cbn [length] in Hn; lia).
  pose proof (paste_loop_items l [] Hok) as Hp. cbn [app length] in Hp. fold p in Hp. rewrite Hp.
  rewrite decide_False by lia. f_equal.
  rewrite <- (length_all_pasted l : _ = length p). set (q := all_pasted l) in *.
  assert (Eq : length q = length p) by apply length_all_pasted.
  assert (Hlp : length (put out 0 p) = length out) by (rewrite length_put; lia).
  assert (Hlq : length (put (put out 0 p) 0 q) = length out) by (rewrite length_put; lia).
  rewrite (dup_pattern_tiles q).
  - by rewrite Hlq.
  - intros E. rewrite E in Eq. cbn [length] in Eq. lia.
  - lia.
  - unfold put at 1. rewrite take_0, app_nil_l. apply take_app_length.
Qed.
End buffer.

(** C38: A [verify_pattern] option that is a sequence of strings, files, numbers and [%o], written by the rules, with at most 512
    bytes and 8 offsets, is parsed to its bytes and the places of its offsets; and
    a buffer at least as long that is filled from it, for a unit at [offset], is those bytes, with the
    offset for every [%o], over and over. *)
Theorem pattern_option_fills contents l buf offset out :
  l <> [] -> items_ok contents l -> length buf = MAX_PATTERN_SIZE ->
    (length (all_bytes contents l) <= MAX_PATTERN_SIZE)%nat ->
  (length (formats contents 0 l) <= 8)%nat -> (length (all_bytes contents l) <= length out)%nat ->
  exists pattern fs, str_verify_pattern_cb contents buf (texts l) = Some (inr (pattern, fs)) /\
    pattern = all_bytes contents l /\
    paste_format pattern fs offset out = (0, tile (all_pasted contents offset l) 0 (length out)).
Proof.
  intros Hne Hok Hbuf Hl Hf Hout. exists (all_bytes contents l), (formats contents 0 l).
  split; [|split; [done|by apply paste_format_items]].
  unfold str_verify_pattern_cb. rewrite parse_items by (done || lia). cbn [mbind option_bind].
  pose proof (items_bytes contents l Hok). assert (0 < length l)%nat by (destruct l; [done|cbn; lia]).
  rewrite decide_False, decide_True by lia. rewrite Nat2Z.id, take_app_length. done.
Qed.

(** ["ab"-10%o0xf0a] *)
Lemma pattern_option_fills_witness :
  exists pattern fs, str_verify_pattern_cb (fun _ => None) (replicate MAX_PATTERN_SIZE 0)
      (texts [Str [97; 98]; Dec true [49; 48]; Off; Hex 120 [102; 48; 97]]) = Some (inr (pattern, fs)) /\
    pattern = all_bytes (fun _ => None) [Str [97; 98]; Dec true [49; 48]; Off; Hex 120 [102; 48; 97]] /\
    paste_format pattern fs 4096 (replicate 32 7) =
      (0, tile (all_pasted (fun _ => None) 4096 [Str [97; 98]; Dec true [49; 48]; Off; Hex 120 [102; 48; 97]]) 0 32).
Proof.
  apply (pattern_option_fills (fun _ => None) [Str [97; 98]; Dec true [49; 48]; Off; Hex 120 [102; 48;
    97]] (replicate MAX_PATTERN_SIZE 0) 4096 (replicate 32 7)).
  - done.
  - cbn [items_ok item_ok]. split_and!; try done.
    + intros H. repeat (apply elem_of_cons in H as [H|H]; [done|]). by apply elem_of_nil in H.
    + by repeat constructor.
    + vm_compute. lia.
    + by repeat constructor.
    + split; [done|by left].
  - done.
  - vm_compute. lia.
  - vm_compute. lia.
  - vm_compute. lia.
Defined.

(** ** Any text *)

Section any.
Context (contents : list Z -> option (list Z)).

(** The pieces that stand for no bytes: an empty string, an empty file, and the number that the
    look-back of the one before leaves without digits. *)
Definition void (s : list Z) : Prop :=
  starts [34; 34] s = true \/ starts_nocase [48; 120; 48; 120] s = true \/
  exists f t, s = 39 :: f ++ 39 :: t /\ contents f = Some [].

(** A parser wrote [n] bytes at most, and left the rest alone. *)
Definition wrote (out out' : list Z) (n : nat) : Prop := length out' = length out /\ (n <= length out)%nat /\ drop n out' = drop n out.

Definition sound (s out : list Z) (r : parse_result) : Prop :=
  let '(e, out', n) := r in
  length out' = length out /\
  forall fin, e = Some fin -> fin `suffix_of` s /\ wrote out out' n /\ (n = O -> void s).

Lemma wrote_put out data : (length data <= length out)%nat -> wrote out (put out 0 data) (length data).
Proof.
  intros H. unfold wrote. rewrite length_put by lia. split; [done|]. split; [done|]. unfold put.
  rewrite take_0, app_nil_l. by rewrite drop_app_length.
Qed.

Lemma suffix_drop (s : list Z) n : drop n s `suffix_of` s.
Proof. exists (take n s). by rewrite take_drop. Qed.

Lemma ch_cons s c : ch s = c -> c <> 0 -> s = c :: drop 1 s.
Proof. intros H Hc. destruct s as [|d s]; cbn [ch] in H; [lia|]. subst. done. Qed.

Lemma parse_string_sound s out : ch s = 34 -> sound s out (parse_string s out).
Proof.
  intros Hc. unfold parse_string. case_decide; [done|]. destruct (strchr (drop 1 s) 34) as [e|] eqn:E; [|done].
  case_decide; [done|].
  apply strchr_Some in E as [E He]. cbn [sound]. split; [rewrite length_put; rewrite ?length_take; lia|].
  intros fin [= <-]. split_and!.
  - rewrite drop_drop. apply suffix_drop.
  - replace e with (length (take e (drop 1 s))) at 2 by (rewrite length_take; lia). apply wrote_put.
    rewrite length_take. lia.
  - intros ->. left. rewrite (ch_cons s 34 Hc) by lia. destruct (drop 1 s) as [|d t]; [done|]. cbn in E.
    injection E as ->.
    unfold starts. rewrite bool_decide_eq_true. done.
Qed.

Lemma parse_file_sound s out : ch s = 39 -> sound s out (parse_file contents s out).
Proof.
  intros Hc. unfold parse_file. case_decide as Ho; [done|]. destruct (strchr (drop 1 s) 39) as [e|] eqn:E; [|done].
  destruct (contents (take e (drop 1 s))) as [data|] eqn:Ed; [|done]. apply strchr_Some in E as [E He]. cbn [sound].
  assert (Hl : (length (take (length out) data) <= length out)%nat) by (rewrite length_take; lia).
  split; [by rewrite length_put|].
  intros fin [= <-]. split_and!.
  - rewrite drop_drop. apply suffix_drop.
  - by apply wrote_put.
  - intros E0. right. right. exists (take e (drop 1 s)), (drop (S e) (drop 1 s)). split.
    + rewrite <- (drop_S _ 39) by done. rewrite take_drop. by apply ch_cons.
    + rewrite Ed. f_equal. rewrite length_take in E0. destruct data; [done|]. destruct out; [done|].
      cbn [length] in E0. lia.
Qed.

Lemma val_loop_sound out : forall val out' i val', val_loop out val = (out', i, val') -> wrote out out' i /\
  (out <> [] -> val <> 0 -> (0 < i)%nat).
Proof.
  induction out as [|c out IH]; intros val out' i val'; cbn [val_loop].
  - intros [= <- <- <-]. by split.
  - case_decide.
    + intros [= <- <- <-]. split; [|done]. split; [done|]. split; [lia|done].
    + destruct (val_loop out (Z.shiftr val 8)) as [[rest j] v] eqn:E. intros [= <- <- <-].
      apply IH in E as [(H1 & H2 & H3) _].
      split; [|lia]. split; [cbn; lia|]. split; [cbn; lia|done].
Qed.

Lemma hex_loop_sound out : forall beg num out' i num', hex_loop out beg num = (out', i, num') -> wrote out out' i /\
  (out <> [] -> num <> O -> (0 < i)%nat).
Proof.
  induction out as [|c out IH]; intros beg num out' i num'; cbn [hex_loop].
  - intros [= <- <- <-]. by split.
  - case_decide.
    + intros [= <- <- <-]. split; [|done]. split; [done|]. split; [lia|done].
    + destruct (hex_loop out _ _) as [[rest j] v] eqn:E. intros [= <- <- <-]. apply IH in E as [(H1 & H2 & H3) _].
      split; [|lia]. split; [cbn; lia|]. split; [cbn; lia|done].
Qed.

Lemma parse_decimal_sound s out : out <> [] -> sound s out (parse_decimal s out).
Proof.
  intros Ho. unfold parse_decimal. destruct (if decide _ then _ else _) as [lval e]. case_decide as Hr; [done|].
  assert (Hlo : (1 <= length out)%nat) by (destruct out; [done|cbn; lia]). case_decide as Hz.
  - cbn [sound]. split; [by rewrite length_put|]. intros fin [= <-].
    split_and!; [apply suffix_drop|by apply (wrote_put out [0])|done].
  - destruct (val_loop out (u32 lval)) as [[out' i] val] eqn:E. apply val_loop_sound in E as [Hw Hi].
    case_decide; (split; [apply Hw|]); [done|].
    intros fin [= <-]. split_and!; [apply suffix_drop|done|]. intros ->. exfalso.
    assert (u32 lval <> 0); [|specialize (Hi Ho); lia].
    unfold INT_MAX, INT_MIN in Hr. unfold wrapu. intros H0. apply Z.mod_divide in H0 as [q Hq]; [|lia]. lia.
Qed.

Lemma span_one p s : (0 < span p s)%nat -> exists c t, s = c :: t /\ p c = true.
Proof. destruct s as [|c t]; cbn [span]; [lia|]. destruct (p c) eqn:E; [eauto|lia]. Qed.

Lemma parse_hex_sound s out : out <> [] -> scan_prefix s <> O -> sound s out (parse_hex s out (scan_prefix s)).
Proof.
  intros Ho Hn. unfold parse_hex. set (num := scan_prefix s) in *. set (n := if decide _ then _ else _).
  destruct (hex_loop out (drop 2 s) n) as [[out' i] v] eqn:E. apply hex_loop_sound in E as [Hw Hi].
  case_decide; (split; [apply Hw|]); [done|].
  intros fin [= <-]. split_and!; [rewrite drop_drop; apply suffix_drop|done|]. intros ->. right. left.
  assert (En : n = O) by (destruct n; [done|]; specialize (Hi Ho ltac:(done)); lia).
  unfold num, scan_prefix in Hn. case_decide as Hc; [|done]. set (x := span is_x (drop 1 s)) in *.
  set (h := span isxdigit (drop (S x) s)) in *.
  case_decide as Hxh; [done|]. assert (Enum : num = S (x + h)) by (unfold num, scan_prefix;
    rewrite decide_True by done; fold x; fold h; by rewrite decide_False).
  unfold n in En. destruct (decide _) as [[_ Hs]|] in En; [|lia]. assert (Exh : x = 1%nat /\ h = 1%nat) by lia.
  destruct Exh as [Ex Eh].
  rewrite Enum, Ex, Eh in Hs. cbn in Hs. apply starts_0x in Hs as (y & t & Et & Hy).
  destruct (span_one is_x (drop 1 s)) as (z & t' & Ez & Hz); [fold x; lia|].
  pose proof (ch_cons s 48 Hc ltac:(lia)) as E1.
  assert (E2 : drop 2 s = t') by (change 2%nat with (1 + 1)%nat; rewrite <- drop_drop, Ez; done).
  assert (Es : s = 48 :: z :: 48 :: y :: t) by (rewrite drop_0 in Et; rewrite E1, Ez, <- E2, Et; done). rewrite Es.
  unfold starts_nocase. rewrite bool_decide_eq_true. cbn [length take fmap list_fmap].
  unfold is_x in Hy, Hz. rewrite orb_true_iff, !Z.eqb_eq in Hy, Hz. by destruct Hy as [-> | ->], Hz as [-> | ->].
Qed.

Lemma parse_number_sound s out : sound s out (parse_number s out).
Proof.
  unfold parse_number. case_decide; [done|]. case_decide; [by apply parse_decimal_sound|by apply parse_hex_sound].
Qed.

Lemma parse_one_sound s out total rem r f : parse_one contents s out total fmt_desc rem = (r, f) ->
  sound s out r /\ (f = [] \/ (f = [Fmt total 8] /\ (0 < rem)%nat /\ r.2 = 8%nat)) /\ (out = [] -> r.1.1 = None).
Proof.
  unfold parse_one. case_decide; [|case_decide; [|case_decide]].
  - intros [= <- <-]. split; [by apply parse_file_sound|]. split; [by left|]. intros ->. done.
  - intros [= <- <-]. split; [by apply parse_string_sound|]. split; [by left|]. intros ->. done.
  - unfold parse_format. case_decide as Hno.
    { intros [= <- <-]. split; [done|]. split; [by left|done]. }
    destruct (find_fmt fmt_desc s) as [d|] eqn:Ed.
    2:{ intros [= <- <-]. split; [done|]. split; [by left|done]. }
    assert (d = FmtDesc [37; 111] 8) as ->.
    { unfold find_fmt in Ed. apply fmap_Some in Ed as ([k d'] & Ed & ->). apply list_find_Some in Ed as (Ed & _ & _).
        by destruct k as [|[]]; cbn in Ed; [injection Ed as <-|..]. }
    cbn [fmt_len desc_fmt]. case_decide as Hl.
    { intros [= <- <-]. split; [done|]. split; [by left|done]. }
    intros [= <- <-]. assert (Hw := wrote_put out (replicate 8 0)). rewrite length_replicate in Hw.
    specialize (Hw ltac:(lia)). split; [|split; [right; split_and!; [done|lia|done]|intros ->; tauto]].
    split; [apply Hw|]. intros fin [= <-]. split; [apply suffix_drop|]. split; [exact Hw|done].
  - intros [= <- <-]. split; [by apply parse_number_sound|]. split; [by left|]. intros ->. done.
Qed.

(** What the parser of a whole text leaves, [n] bytes in: an error, or at least one byte more, formats
    inside what it wrote, and the rest as it was. *)
Definition parsed (s out : list Z) (rem n : nat) (r : option (Z * list Z * list pattern_fmt)) : Prop :=
  match r with
  | None => exists t, t `suffix_of` s /\ void t
  | Some (ret, out', fs) =>
      length out' = length out /\
      (ret = - EINVAL \/
       exists k, ret = Z.of_nat (n + k) /\ (0 < k)%nat /\ wrote out out' k /\ (length fs <= rem)%nat /\
         Forall (fun f => (n <= fmt_off f)%nat /\ (fmt_off f + desc_len f <= n + k)%nat) fs)
  end.

Lemma fill_loop_parsed fuel : forall s out rem n, (length out < fuel)%nat ->
  parsed s out rem n (fill_loop contents fuel s (length s) out fmt_desc rem n).
Proof.
  induction fuel as [|fuel IH]; intros s out rem n Hf; [lia|]. cbn [fill_loop].
  destruct (parse_one contents s out n fmt_desc rem) as [[[e out'] k] f] eqn:E.
  apply parse_one_sound in E as ([Hl Hs] & Hfm & Hno). cbn [fst snd] in *.
  destruct e as [fin|]; [|by split; [|left]]. destruct (Hs fin eq_refl) as (Hsuf & (_ & Hk & Hd) & Hv).
  pose proof (suffix_length _ _ Hsuf) as Hlen.
  destruct (decide (k = O)) as [Hk0|Hk0].
  { rewrite decide_False by tauto. exists s. split; [done|by apply Hv]. }
  rewrite decide_True by lia. replace (length s - (length s - length fin))%nat with (length fin) by lia.
  assert (Hff : (length f <= rem)%nat /\ Forall (fun f => (n <= fmt_off f)%nat /\
    (fmt_off f + desc_len f <= n + k)%nat) f).
  { destruct Hfm as [-> | (-> & Hr & Hk8)]; [split; [cbn; lia|constructor]|]. split; [cbn; lia|]. repeat constructor;
      cbn; lia. }
  case_decide as Hfin.
  { split; [done|]. right. exists k. split; [lia|]. split; [lia|]. split; [done|exact Hff]. }
  specialize (IH fin (drop k out') (rem - length f)%nat (n + k)%nat). rewrite length_drop in IH.
  specialize (IH ltac:(lia)).
  destruct (fill_loop contents fuel _ _ _ _ _ _) as [[[ret rest] fs]|]; cbn [mbind option_bind].
  - destruct IH as [Hl' IH]. rewrite length_drop in Hl'. split; [rewrite length_app, length_take; lia|].
    destruct IH as [->|(j & -> & Hj & (_ & Hw2 & Hw3) & Hfs & Hall)]; [by left|right].
    rewrite length_drop in Hw2. exists (k + j)%nat. split; [lia|]. split; [lia|]. split; [|split].
    + split; [rewrite length_app, length_take; lia|]. split; [lia|].
      rewrite <- drop_drop, drop_app_length' by (rewrite length_take; lia).
      by rewrite Hw3, Hd, drop_drop.
    + rewrite length_app. lia.
    + apply Forall_app. split; [eapply Forall_impl; [exact (proj2 Hff)|]|eapply Forall_impl; [exact Hall|]]; cbn;
        intros ?; lia.
  - destruct IH as (t & Ht & Hvoid). exists t. split; [by etrans|done].
Qed.
End any.

(** C39: On any text, with any buffer and room for [sz] formats, the parser returns [-EINVAL], or the number of bytes it wrote, at
    least one, after which the buffer is unchanged and the formats lie inside them; otherwise
    an assertion has failed, and then the text has somewhere an empty string, an empty file, or [0x0x]. *)
Theorem pattern_text_total contents s out sz :
  match parse_and_fill_pattern contents s (length s) out fmt_desc sz with
  | None => exists t, t `suffix_of` s /\ void contents t
  | Some (ret, out', fs) =>
      length out' = length out /\
      (ret = - EINVAL \/
       (0 < ret <= Z.of_nat (length out) /\ drop (Z.to_nat ret) out' = drop (Z.to_nat ret) out /\ (length fs <= sz)%nat /\
        Forall (fun f => Z.of_nat (fmt_off f + desc_len f) <= ret) fs))
  end.
Proof.
  unfold parse_and_fill_pattern. case_decide as H0; [by split; [|left]|].
  pose proof (fill_loop_parsed contents (S (length out)) s out sz 0 ltac:(lia)) as H.
  destruct (fill_loop contents _ _ _ _ _ _ _) as [[[ret out'] fs]|]; [|done].
  destruct H as [Hl [->|(k & -> & Hk & (_ & Hw2 & Hw3) & Hfs & Hall)]].
  - split; [done|by left].
  - split; [done|right]. cbn [Nat.add] in *. rewrite Nat2Z.id. split_and!; [lia|lia|done|done|].
    eapply Forall_impl; [exact Hall|]. cbn. lia.
Qed.

(** The assertion does fail on each of them, blanks in front of a piece become a zero byte when a hexadecimal number
    follows, and a decimal number is refused when one follows too far away. *)
Example parse_void :
  str_verify_pattern_cb (fun _ => None) (replicate 512 0) (chars "0x0x14") = None /\
  str_verify_pattern_cb (fun _ => None) (replicate 512 0) [34; 34] = None /\
  str_verify_pattern_cb (fun _ => Some []) (replicate 512 0) (chars "'empty'") = None.
Proof. by vm_compute. Qed.

Example parse_blanks :
  str_verify_pattern_cb (fun _ => None) (replicate 512 0) (chars "  %o0x14") = Some (inr ([0; 0; 0; 0; 0; 0; 0; 0; 0; 20], [Fmt 1 8])) /\
  str_verify_pattern_cb (fun _ => None) (replicate 512 0) (chars "  %o") = Some (inl 1).
Proof. by vm_compute. Qed.

Example parse_far :
  str_verify_pattern_cb (fun _ => None) (replicate 512 0) (chars "10%o%o%o%o%o%o") = Some (inr (10 :: replicate 48 0, (fun i => Fmt (1 + 8 * i) 8) <$> seq 0 6)) /\
  str_verify_pattern_cb (fun _ => None) (replicate 512 0) (chars "10%o-20%o-20%o-20%o-20%o0x1") = Some (inl 1).
Proof. by vm_compute. Qed.

(** A second x is taken for a digit, and the byte for it stays what it was. *)
Example parse_double_x : str_verify_pattern_cb (fun _ => None) (replicate 512 77) (chars "0xx12") = Some (inr ([77; 18], [])).
Proof. by vm_compute. Qed.
