(* ===== verification/Zbd.v ===== *)
(** * Zoned block devices (src/fio/zbd.c, zbd.h, zbd_types.h)

    The zones of a device are written at their write pointers only.  fio keeps the pointers, a
    bounded array of open zones and the amount of data written, and moves every
    unit to a place where it is allowed.

    The model is what one job sees that has the device for itself: the lock of a zone,
    which is recursive, is the number of times the job holds it; completions happen when the job waits
    for them.  A zone is known by its index.  The operations are programs of a state monad in which [None] is a
    failed assertion or an access out of bounds. *)

From S2P Require Import Prelude.

Open Scope Z_scope.

Definition ZBD_MAX_OPEN_ZONES : nat := Z.to_nat 4096.

Inductive zbd_zoned_model := ZBD_NONE | ZBD_HOST_AWARE | ZBD_HOST_MANAGED.

Inductive zbd_zone_type := ZBD_ZONE_TYPE_CNV | ZBD_ZONE_TYPE_SWR | ZBD_ZONE_TYPE_SWP.

Inductive zbd_zone_cond :=
  | ZBD_ZONE_COND_NOT_WP | ZBD_ZONE_COND_EMPTY | ZBD_ZONE_COND_IMP_OPEN | ZBD_ZONE_COND_EXP_OPEN
  | ZBD_ZONE_COND_CLOSED | ZBD_ZONE_COND_READONLY | ZBD_ZONE_COND_FULL | ZBD_ZONE_COND_OFFLINE.

Inductive fio_ddir :=
  | DDIR_READ | DDIR_WRITE | DDIR_TRIM | DDIR_SYNC | DDIR_DATASYNC | DDIR_SYNC_FILE_RANGE | DDIR_WAIT | DDIR_LAST | DDIR_INVAL.

Inductive io_u_action := io_u_accept | io_u_eof | io_u_completed.

Inductive fio_q_status := FIO_Q_COMPLETED | FIO_Q_QUEUED | FIO_Q_BUSY.

#[export] Instance zbd_zoned_model_eq : EqDecision zbd_zoned_model.
Proof. solve_decision. Defined.
#[export] Instance zbd_zone_type_eq : EqDecision zbd_zone_type.
Proof. solve_decision. Defined.
#[export] Instance zbd_zone_cond_eq : EqDecision zbd_zone_cond.
Proof. solve_decision. Defined.
#[export] Instance fio_ddir_eq : EqDecision fio_ddir.
Proof. solve_decision. Defined.
#[export] Instance io_u_action_eq : EqDecision io_u_action.
Proof. solve_decision. Defined.
#[export] Instance fio_q_status_eq : EqDecision fio_q_status.
Proof. solve_decision. Defined.

(** ** State *)

(** [z_locks] is how often the mutex is held. *)
Record fio_zone_info := Zone {
  z_start : Z; z_wp : Z; z_capacity : Z; z_verify_block : Z; z_type : zbd_zone_type; z_cond : zbd_zone_cond;
  z_has_wp : bool; z_open : bool; z_reset_zone : bool; z_locks : nat }.

(** [put_io] says whether the callbacks of the unit are set. *)
Record io_u := IoU { ddir : fio_ddir; offset : Z; buflen : Z; put_io : bool }.

(** The description of the device and the counters of the thread.  [flight] are the units in flight and
    [dev] counts the requests to the device. *)
Record zoned_block_device_info := Zbd {
  model : zbd_zoned_model; max_open_zones : Z; zone_size : Z; zone_size_log2 : Z; nr_zones : nat;
  sectors_with_data : Z; wp_sectors_with_data : Z; write_cnt : Z; num_open_zones : nat; open_zones : list nat;
  zone_info : list fio_zone_info; td_num_open_zones : Z; nr_zone_resets : Z; flight : list io_u; dev : nat }.

Record fio_file := File {
  file_offset : Z; io_size : Z; real_file_size : Z; min_zone : nat; max_zone : nat }.

(** The options of the job.  The frequency and the threshold of zone resets are fractions: [zrf_on] says
    that the frequency is not zero, [zrf_period] is one by the frequency, limited to an
    [unsigned int], and [zrt_bytes] the least number of bytes that reaches the threshold. *)
Record zbd_opts := Opts {
  min_bs : fio_ddir -> Z; verify : bool; verifying : bool; td_random : bool; td_read : bool; td_write : bool; read_beyond_wp : bool;
  job_max_open_zones : Z; zrf_on : bool; zrf_period : Z; zrt_bytes : Z }.

(** ** Programs *)

Definition zm (A : Type) : Type := zoned_block_device_info -> option (A * zoned_block_device_info).

#[export] Instance zm_ret : MRet zm := fun A a s => Some (a, s).
#[export] Instance zm_bind : MBind zm := fun A B k m s => match m s with Some (a, s') => k a s' | None => None end.

Definition get : zm zoned_block_device_info := fun s => Some (s, s).
Definition upd (g : zoned_block_device_info -> zoned_block_device_info) : zm unit := fun s => Some (tt, g s).
Definition assert_ (b : bool) : zm unit := fun s => if b then Some (tt, s) else None.
Definition fail {A} : zm A := fun _ => None.
Definition when_ (b : bool) (m : zm unit) : zm unit := if b then m else mret tt.

Definition set_zones (l : list fio_zone_info) (s : zoned_block_device_info) : zoned_block_device_info :=
  Zbd (model s) (max_open_zones s) (zone_size s) (zone_size_log2 s) (nr_zones s) (sectors_with_data s) (wp_sectors_with_data s)
    (write_cnt s) (num_open_zones s) (open_zones s) l (td_num_open_zones s) (nr_zone_resets s) (flight s) (dev s).

Definition set_open (n : nat) (oz : list nat) (t : Z) (s : zoned_block_device_info) : zoned_block_device_info :=
  Zbd (model s) (max_open_zones s) (zone_size s) (zone_size_log2 s) (nr_zones s) (sectors_with_data s) (wp_sectors_with_data s)
    (write_cnt s) n oz (zone_info s) t (nr_zone_resets s) (flight s) (dev s).

Definition set_swd (a b : Z) (s : zoned_block_device_info) : zoned_block_device_info :=
  Zbd (model s) (max_open_zones s) (zone_size s) (zone_size_log2 s) (nr_zones s) a b
    (write_cnt s) (num_open_zones s) (open_zones s) (zone_info s) (td_num_open_zones s) (nr_zone_resets s) (flight s) (dev s).

Definition set_write_cnt (c : Z) (s : zoned_block_device_info) : zoned_block_device_info :=
  Zbd (model s) (max_open_zones s) (zone_size s) (zone_size_log2 s) (nr_zones s) (sectors_with_data s) (wp_sectors_with_data s)
    c (num_open_zones s) (open_zones s) (zone_info s) (td_num_open_zones s) (nr_zone_resets s) (flight s) (dev s).

Definition set_td (r : Z) (l : list io_u) (d : nat) (s : zoned_block_device_info) : zoned_block_device_info :=
  Zbd (model s) (max_open_zones s) (zone_size s) (zone_size_log2 s) (nr_zones s) (sectors_with_data s) (wp_sectors_with_data s)
    (write_cnt s) (num_open_zones s) (open_zones s) (zone_info s) (td_num_open_zones s) r l d.

Definition set_wp (wp : Z) (z : fio_zone_info) : fio_zone_info :=
  Zone (z_start z) wp (z_capacity z) (z_verify_block z) (z_type z) (z_cond z) (z_has_wp z) (z_open z) (z_reset_zone z) (z_locks z).
Definition set_verify_block (v : Z) (z : fio_zone_info) : fio_zone_info :=
  Zone (z_start z) (z_wp z) (z_capacity z) v (z_type z) (z_cond z) (z_has_wp z) (z_open z) (z_reset_zone z) (z_locks z).
Definition set_z_open (b : bool) (z : fio_zone_info) : fio_zone_info :=
  Zone (z_start z) (z_wp z) (z_capacity z) (z_verify_block z) (z_type z) (z_cond z) (z_has_wp z) b (z_reset_zone z) (z_locks z).
Definition set_reset_zone (b : bool) (z : fio_zone_info) : fio_zone_info :=
  Zone (z_start z) (z_wp z) (z_capacity z) (z_verify_block z) (z_type z) (z_cond z) (z_has_wp z) (z_open z) b (z_locks z).
Definition set_locks (n : nat) (z : fio_zone_info) : fio_zone_info :=
  Zone (z_start z) (z_wp z) (z_capacity z) (z_verify_block z) (z_type z) (z_cond z) (z_has_wp z) (z_open z) (z_reset_zone z) n.

Definition zbd_get_zone (i : nat) : zm fio_zone_info := fun s => z ← zone_info s !! i; Some (z, s).
Definition upd_zone (i : nat) (g : fio_zone_info -> fio_zone_info) : zm unit :=
  z ← zbd_get_zone i; s ← get; upd (set_zones (<[i := g z]> (zone_info s))).

(** ** Positions *)

Definition is_valid_offset (f : fio_file) (off : Z) : bool := bool_decide (u64 (off - file_offset f) < io_size f).

Definition zbd_offset_to_zone_idx (s : zoned_block_device_info) (off : Z) : nat :=
  let idx := u32 (if decide (0 < zone_size_log2 s) then Z.shiftr off (zone_size_log2 s) else off / zone_size s) in
  Nat.min (Z.to_nat idx) (nr_zones s).

Definition zbd_zone_end (i : nat) : zm Z := z ← zbd_get_zone (S i); mret (z_start z).
Definition zbd_zone_capacity_end (z : fio_zone_info) : Z := u64 (z_start z + z_capacity z).

Definition zbd_zone_full (z : fio_zone_info) (required : Z) : zm bool :=
  assert_ (bool_decide (Z.land required 511 = 0)) ;;
  mret (z_has_wp z && bool_decide (u64 (z_wp z + required) > zbd_zone_capacity_end z)).

Definition offline (z : fio_zone_info) : bool := bool_decide (z_cond z = ZBD_ZONE_COND_OFFLINE).

Section ops.
(** [reset_wp n off len] is the answer of the device to its [n]-th request; [completes] is
    the order in which units in flight complete when they are waited for. *)
Context (reset_wp : nat -> Z -> Z -> Z) (completes : list io_u -> list io_u) (o : zbd_opts) (f : fio_file).

(** ** Locks *)

Definition zone_lock (i : nat) : zm unit :=
  z ← zbd_get_zone i;
  assert_ (bool_decide (min_zone f <= i < max_zone f)%nat) ;;
  assert_ (z_has_wp z) ;;
  upd_zone i (set_locks (S (z_locks z))).

Definition zone_unlock (i : nat) : zm unit :=
  z ← zbd_get_zone i;
  assert_ (z_has_wp z) ;;
  assert_ (bool_decide (z_locks z <> O)) ;;
  upd_zone i (set_locks (z_locks z - 1)).

(** ** Resetting, closing and opening *)

Definition device_reset_wp (off len : Z) : zm Z :=
  s ← get;
  upd (set_td (nr_zone_resets s) (flight s) (S (dev s))) ;;
  mret (reset_wp (dev s) off len).

Definition zbd_reset_zone (i : nat) : zm Z :=
  z ← zbd_get_zone i;
  zend ← zbd_zone_end i;
  let off := z_start z in
  let len := u64 (zend - off) in
  let data_in_zone := u64 (z_wp z - z_start z) in
  if decide (data_in_zone = 0) then mret 0
  else
    assert_ (is_valid_offset f (u64 (off + len - 1))) ;;
    s ← get;
    ret ← (if decide (model s = ZBD_NONE) then mret 0 else device_reset_wp off len);
    if decide (ret < 0) then mret ret
    else
      s ← get;
      upd (set_swd (u64 (sectors_with_data s - data_in_zone)) (u64 (wp_sectors_with_data s - data_in_zone))) ;;
      upd_zone i (fun z => set_verify_block 0 (set_wp (z_start z) z)) ;;
      s ← get;
      upd (set_td (nr_zone_resets s + 1) (flight s) (dev s)) ;;
      mret ret.

(** The position of a zone among the open ones. *)
Fixpoint find_open (i : nat) (l : list nat) : option nat :=
  match l with
  | [] => None
  | j :: l' => if decide (j = i) then Some O else S <$> find_open i l'
  end.

(** [memmove] moves the entries behind [k] down; the last one stays. *)
Definition shift_down (k : nat) (l : list nat) : list nat := take k l ++ drop (S k) l ++ drop (length l - 1) l.

Definition zbd_close_zone (i : nat) : zm unit :=
  z ← zbd_get_zone i;
  if negb (z_open z) then mret tt
  else
    s ← get;
    match find_open i (take (num_open_zones s) (open_zones s)) with
    | None => mret tt
    | Some ozi =>
        upd (set_open (num_open_zones s - 1) (shift_down ozi (open_zones s)) (td_num_open_zones s - 1)) ;;
        upd_zone i (set_z_open false)
    end.

Fixpoint reset_zones_loop (n i : nat) (res : Z) : zm Z :=
  match n with
  | O => mret res
  | S n' =>
      z ← zbd_get_zone i;
      if negb (z_has_wp z) then reset_zones_loop n' (S i) res
      else
        zone_lock i ;;
        zbd_close_zone i ;;
        z ← zbd_get_zone i;
        res ← (if decide (z_wp z <> z_start z) then r ← zbd_reset_zone i; mret (if decide (r < 0) then 1 else res) else mret res);
        zone_unlock i ;;
        reset_zones_loop n' (S i) res
  end.

Definition zbd_reset_zones (zb ze : nat) : zm Z :=
  assert_ (bool_decide (min_bs o DDIR_WRITE <> 0)) ;; reset_zones_loop (ze - zb) zb 0.

Definition zbd_open_zone (i : nat) : zm bool :=
  z ← zbd_get_zone i;
  if offline z then mret false
  else
    full ← (if verify o then zbd_zone_full z (min_bs o DDIR_WRITE) else mret false);
    if full : bool then mret false
    else
      s ← get;
      if decide (max_open_zones s = 0) then mret true
      else if z_open z then mret (bool_decide (z_wp z < zbd_zone_capacity_end z))
      else if decide (job_max_open_zones o > 0 /\ td_num_open_zones s >= job_max_open_zones o) then mret false
      else if decide (Z.of_nat (num_open_zones s) >= max_open_zones s) then mret false
      else
        assert_ (bool_decide (num_open_zones s < length (open_zones s))%nat) ;;
        upd (set_open (S (num_open_zones s)) (<[num_open_zones s := i]> (open_zones s)) (td_num_open_zones s + 1)) ;;
        upd_zone i (set_z_open true) ;;
        mret true.

(** ** Counting *)

Definition _zbd_reset_write_cnt : zm unit := upd (set_write_cnt (if zrf_on o then zrf_period o else 2 ^ 32 - 1)).

Definition zbd_dec_and_reset_write_cnt : zm bool :=
  s ← get;
  assert_ (bool_decide (write_cnt s <> 0)) ;;
  let c := write_cnt s - 1 in
  upd (set_write_cnt c) ;;
  when_ (bool_decide (c = 0)) _zbd_reset_write_cnt ;;
  mret (bool_decide (c = 0)).

(** The data of the zones from [i] on, and of those with a write pointer, all of them locked. *)
Fixpoint swd_loop (n i : nat) (swd wp_swd : Z) : zm (Z * Z) :=
  match n with
  | O => mret (swd, wp_swd)
  | S n' =>
      z ← zbd_get_zone i;
      let d := u64 (z_wp z - z_start z) in
      when_ (z_has_wp z) (zone_lock i) ;;
      swd_loop n' (S i) (u64 (swd + d)) (if z_has_wp z then u64 (wp_swd + d) else wp_swd)
  end.

Fixpoint unlock_loop (n i : nat) : zm unit :=
  match n with
  | O => mret tt
  | S n' => z ← zbd_get_zone i; when_ (z_has_wp z) (zone_unlock i) ;; unlock_loop n' (S i)
  end.

(** With SET_SWD; the check is disabled in the source. *)
Definition zbd_process_swd : zm Z :=
  '(swd, wp_swd) ← swd_loop (max_zone f - min_zone f) (min_zone f) 0 0;
  upd (set_swd swd wp_swd) ;;
  unlock_loop (max_zone f - min_zone f) (min_zone f) ;;
  mret swd.

Definition zbd_file_reset : zm unit :=
  if negb (td_write o) then mret tt
  else
    _ ← zbd_process_swd;
    when_ (verify o && negb (verifying o)) (_ ← zbd_reset_zones (min_zone f) (max_zone f); mret tt) ;;
    _zbd_reset_write_cnt.

(** ** Completion and queueing *)

Definition zbd_end_zone_io (u : io_u) (i : nat) : zm unit :=
  z ← zbd_get_zone i;
  if decide (ddir u = DDIR_WRITE /\ u64 (offset u + buflen u) >= zbd_zone_capacity_end z) then zbd_close_zone i else mret tt.

Definition zbd_put_io (u : io_u) : zm unit :=
  s ← get;
  let i := zbd_offset_to_zone_idx s (offset u) in
  z ← zbd_get_zone i;
  assert_ (z_has_wp z) ;;
  zbd_end_zone_io u i ;;
  zone_unlock i.

Definition zbd_put_io_u (u : io_u) : zm unit := when_ (put_io u) (zbd_put_io u).

Fixpoint put_all (l : list io_u) : zm unit :=
  match l with [] => mret tt | u :: l' => zbd_put_io_u u ;; put_all l' end.

Definition io_u_quiesce : zm unit :=
  s ← get;
  upd (set_td (nr_zone_resets s) [] (dev s)) ;;
  put_all (completes (flight s)).

Definition zbd_queue_io (u : io_u) (q : fio_q_status) (success : bool) : zm io_u :=
  s ← get;
  let i := zbd_offset_to_zone_idx s (offset u) in
  z ← zbd_get_zone i;
  assert_ (z_has_wp z) ;;
  when_ success
    (when_ (bool_decide (ddir u = DDIR_WRITE))
       (let zone_end := Z.min (u64 (offset u + buflen u)) (zbd_zone_capacity_end z) in
        when_ (bool_decide (z_wp z <= zone_end))
          (upd (set_swd (u64 (sectors_with_data s + (zone_end - z_wp z))) (u64 (wp_sectors_with_data s + (zone_end - z_wp z))))) ;;
        upd_zone i (set_wp zone_end)) ;;
     when_ (bool_decide (q = FIO_Q_COMPLETED)) (zbd_end_zone_io u i)) ;;
  if decide (success = false \/ q <> FIO_Q_QUEUED) then
    zone_unlock i ;; mret (IoU (ddir u) (offset u) (buflen u) false)
  else mret u.

(** What [td_io_queue] does with the unit: the callback, and a unit that was queued is in flight. *)
Definition zbd_queue_io_u (u : io_u) (q : fio_q_status) (error : Z) : zm unit :=
  u ← (if put_io u then zbd_queue_io u q (bool_decide (error = 0)) else mret u);
  when_ (bool_decide (q = FIO_Q_QUEUED)) (s ← get; upd (set_td (nr_zone_resets s) (flight s ++ [u]) (dev s))).

(** ** Finding a zone to write to *)

Definition pick_random_zone_idx (s : zoned_block_device_info) (off : Z) : nat :=
  Z.to_nat (u32 (u64 (u64 (off - file_offset f) * Z.of_nat (num_open_zones s)) / io_size f)).

Definition in_range (i : nat) : bool := bool_decide (min_zone f <= i < max_zone f)%nat.

(** The loop over the open zones, from the quasi-random one on. *)
Fixpoint candidate (n tmp_idx : nat) (s : zoned_block_device_info) : option (option nat) :=
  match n with
  | O => Some None
  | S n' =>
      let tmp_idx := if decide (num_open_zones s <= tmp_idx)%nat then O else tmp_idx in
      tmpz ← open_zones s !! tmp_idx;
      if in_range tmpz then Some (Some tmp_idx) else candidate n' (S tmp_idx) s
  end.

Inductive choice := CNull | CExamine (i : nat) | COther (i : nat).

(** [for (;;)]: with the zone locked unless there is none. The candidate does not change while the job
    has the device for itself, so that the second round ends. *)
Fixpoint choose (fuel : nat) (off : Z) (zone_idx : nat) : zm choice :=
  match fuel with
  | O => fail
  | S fuel' =>
      z ← zbd_get_zone zone_idx;
      when_ (z_has_wp z) (zone_lock zone_idx) ;;
      s ← get;
      if z_has_wp z && negb (offline z) && bool_decide (max_open_zones s = 0) && bool_decide (job_max_open_zones o = 0) then mret (CExamine zone_idx)
      else if z_has_wp z && bool_decide (num_open_zones s = O) then mret (COther zone_idx)
      else
        let idx := pick_random_zone_idx s off in
        assert_ (bool_decide (idx = O \/ (idx < num_open_zones s)%nat)) ;;
        c ← (fun s => c ← candidate (num_open_zones s) idx s; Some (c, s));
        match c with
        | None => when_ (z_has_wp z) (zone_unlock zone_idx) ;; mret CNull
        | Some oz =>
            new ← (fun s => j ← open_zones s !! oz; Some (j, s));
            if decide (new = zone_idx) then mret (CExamine zone_idx)
            else when_ (z_has_wp z) (zone_unlock zone_idx) ;; choose fuel' off new
        end
  end.

(** The loop that tries to open one of the zones after [i], which is locked; it ends with the current zone and
    whether it has been opened. *)
Fixpoint try_open (n i : nat) : zm (nat * bool) :=
  match n with
  | O => mret (i, false)
  | S n' =>
      z ← zbd_get_zone i;
      when_ (z_has_wp z) (zone_unlock i) ;;
      z ← zbd_get_zone (S i);
      let i := if is_valid_offset f (z_start z) then S i else min_zone f in
      z ← zbd_get_zone i;
      assert_ (is_valid_offset f (z_start z)) ;;
      if negb (z_has_wp z) then try_open n' i
      else
        zone_lock i ;;
        if z_open z then try_open n' i
        else
          b ← zbd_open_zone i;
          if b : bool then mret (i, true) else try_open n' i
  end.

(** The loop over the open zones for one in which the write fits. *)
Fixpoint scan_open (n k i : nat) (bs : Z) : zm (nat * bool) :=
  match n with
  | O => mret (i, false)
  | S n' =>
      j ← (fun s => j ← open_zones s !! k; Some (j, s));
      if negb (in_range j) then scan_open n' (S k) i bs
      else
        zone_unlock i ;;
        zone_lock j ;;
        z ← zbd_get_zone j;
        if decide (u64 (z_wp z + bs) <= zbd_zone_capacity_end z) then mret (j, true) else scan_open n' (S k) j bs
  end.

(** [retry:]  After the second wait nothing is in flight, so that the third round is the last. *)
Fixpoint retry (fuel i : nat) (bs : Z) (should_retry : bool) : zm (option nat) :=
  match fuel with
  | O => fail
  | S fuel' =>
      s ← get;
      '(i, found) ← try_open (Z.to_nat (io_size f / zone_size s)) i;
      if found : bool then mret (Some i)
      else
        s ← get;
        '(i, found) ← scan_open (num_open_zones s) 0 i bs;
        if found : bool then mret (Some i)
        else
          s ← get;
          let in_flight := bool_decide (flight s <> []) in
          if in_flight || should_retry then
            zone_unlock i ;; io_u_quiesce ;; zone_lock i ;; retry fuel' i bs in_flight
          else zone_unlock i ;; mret None
  end.

Definition open_other_zone (i : nat) (bs : Z) : zm (option nat) :=
  s ← get;
  let wait_zone_close :=
    bool_decide (num_open_zones s = max_zone f - min_zone f)%nat ||
    (bool_decide (max_open_zones s <> 0) && bool_decide (Z.of_nat (num_open_zones s) = max_open_zones s)) ||
    (bool_decide (job_max_open_zones o <> 0) && bool_decide (td_num_open_zones s = job_max_open_zones o)) in
  when_ wait_zone_close io_u_quiesce ;;
  retry 3 i bs true.

Definition set_offset (off : Z) (u : io_u) : io_u := IoU (ddir u) off (buflen u) (put_io u).
Definition set_buflen (len : Z) (u : io_u) : io_u := IoU (ddir u) (offset u) len (put_io u).

Definition zbd_convert_to_open_zone (u : io_u) : zm (option nat * io_u) :=
  let bs := min_bs o (ddir u) in
  assert_ (is_valid_offset f (offset u)) ;;
  s ← get;
  i ← (if decide (max_open_zones s <> 0 \/ job_max_open_zones o <> 0)
       then (fun s => j ← open_zones s !! pick_random_zone_idx s (offset u); Some (j, s))
       else mret (zbd_offset_to_zone_idx s (offset u)));
  let i := if decide (i < min_zone f)%nat then min_zone f else if decide (max_zone f <= i)%nat then (max_zone f - 1)%nat else i in
  c ← choose 2 (offset u) i;
  r ← match c with
      | CNull => mret None
      | CExamine i =>
          z ← zbd_get_zone i;
          if decide (u64 (z_wp z + bs) <= zbd_zone_capacity_end z) then mret (Some i) else open_other_zone i bs
      | COther i => open_other_zone i bs
      end;
  match r with
  | None => mret (None, u)
  | Some i =>
      z ← zbd_get_zone i;
      assert_ (z_has_wp z) ;;
      assert_ (negb (offline z)) ;;
      mret (Some i, set_offset (z_start z) u)
  end.

(** ** Adjusting a unit *)

Definition zbd_replay_write_order (u : io_u) (i : nat) : zm (nat * io_u) :=
  let bs := min_bs o DDIR_WRITE in
  b ← zbd_open_zone i;
  '(i, u) ← (if b : bool then mret (i, u)
             else zone_unlock i ;;
                  '(r, u) ← zbd_convert_to_open_zone u;
                  match r with Some i => mret (i, u) | None => fail end);
  z ← zbd_get_zone i;
  assert_ (bool_decide (u64 (z_verify_block z * bs) < z_capacity z)) ;;
  let u := set_offset (u64 (z_start z + z_verify_block z * bs)) u in
  assert_ (bool_decide (u64 (offset u + buflen u) < zbd_zone_capacity_end z)) ;;
  upd_zone i (set_verify_block (u32 (z_verify_block z + buflen u / bs))) ;;
  mret (i, u).

(** Whether zone [i] has [min_bytes] of data; it stays locked then. *)
Definition probe (i : nat) (min_bytes : Z) : zm bool :=
  z ← zbd_get_zone i;
  when_ (z_has_wp z) (zone_lock i) ;;
  if decide (u64 (z_start z + min_bytes) <= z_wp z) then mret true
  else when_ (z_has_wp z) (zone_unlock i) ;; mret false.

(** The zones [zb + k] and [zb - k] for [k] from 1 on. *)
Fixpoint find_zone_loop (n k zb zl : nat) (min_bytes : Z) : zm (option nat) :=
  match n with
  | O => mret None
  | S n' =>
      let z1 := (zb + k)%nat in
      if decide (zl <= z1 /\ zb < min_zone f + k)%nat then mret None
      else
        ok1 ← (if decide (z1 < zl)%nat then z ← zbd_get_zone z1; mret (negb (offline z)) else mret false);
        if negb ok1 && negb (td_random o) then mret None
        else
          found ← (if ok1 : bool then probe z1 min_bytes else mret false);
          if found : bool then mret (Some z1)
          else
            ok2 ← (if decide (td_random o = true /\ min_zone f + k <= zb)%nat then z ← zbd_get_zone (zb - k); mret (negb (offline z)) else mret false);
            found ← (if ok2 : bool then probe (zb - k) min_bytes else mret false);
            if found : bool then mret (Some (zb - k)%nat) else find_zone_loop n' (S k) zb zl min_bytes
  end.

Definition zbd_find_zone (min_bytes : Z) (zb zl : nat) : zm (option nat) :=
  s ← get; find_zone_loop (S (nr_zones s)) 1 zb zl min_bytes.

Definition accept (i : nat) (u : io_u) : zm (io_u_action * io_u) :=
  z ← zbd_get_zone i;
  assert_ (z_has_wp z) ;;
  assert_ (negb (offline z)) ;;
  assert_ (negb (put_io u)) ;;
  mret (io_u_accept, IoU (ddir u) (offset u) (buflen u) true).

Definition eof (i : option nat) (u : io_u) : zm (io_u_action * io_u) :=
  match i with
  | Some i => z ← zbd_get_zone i; when_ (z_has_wp z) (zone_unlock i) ;; mret (io_u_eof, u)
  | None => mret (io_u_eof, u)
  end.

Definition adjust_conventional (zb : nat) (u : io_u) : zm (io_u_action * io_u) :=
  let bs := min_bs o (ddir u) in
  if decide (ddir u <> DDIR_WRITE) then mret (io_u_accept, u)
  else
    z ← zbd_get_zone zb;
    next ← zbd_get_zone (S zb);
    if decide (z_has_wp next = false \/ u64 (offset u + buflen u) <= z_start next) then mret (io_u_accept, u)
    else
      let '(u, new_len) :=
        if decide (u64 (offset u + bs) > z_start next) then
          let u := set_offset (u64 (z_start z + z_start next - offset u)) u in
          (u, Z.min (buflen u) (u64 (z_start next - offset u)))
        else (u, u64 (z_start next - offset u)) in
      mret (io_u_accept, set_buflen (new_len / bs * bs) u).

(** [range] is an [int64_t]; the comparisons and the remainder are those of unsigned values. *)
Definition adjust_read (orig : nat) (u : io_u) : zm (io_u_action * io_u) :=
  let bs := min_bs o (ddir u) in
  if verifying o && td_write o then '(zb, u) ← zbd_replay_write_order u orig; accept zb u
  else
    oz ← zbd_get_zone orig;
    let range := if offline oz then 0 else u64 (z_wp oz - z_start oz) in
    r ← (if decide (range < bs \/ (td_random o = false /\ u64 (offset u + bs) > z_wp oz)) then
           zone_unlock orig ;;
           zb ← zbd_find_zone bs orig (max_zone f);
           match zb with
           | None => mret None
           | Some zb =>
               z ← zbd_get_zone zb;
               let range := u64 (z_wp z - z_start z) in
               assert_ (bool_decide (range >= bs)) ;;
               mret (Some (zb, range, if td_random o then u else set_offset (z_start z) u))
           end
         else mret (Some (orig, range, u)));
    match r with
    | None => eof None u
    | Some (zb, range, u) =>
        z ← zbd_get_zone zb;
        let u := if decide (range <= buflen u) then set_offset (z_start z) u
                 else if td_random o then
                   set_offset (u64 (z_start z + u64 (offset u - z_start oz) mod (range - buflen u) / bs * bs)) u
                 else u in
        if negb (z_has_wp z) then mret (io_u_accept, u)
        else
          let new_len := Z.min (buflen u) (u64 (z_wp z - offset u)) / bs * bs in
          let u := if decide (new_len < buflen u) then set_buflen new_len u else u in
          assert_ (bool_decide (z_start z <= offset u)) ;;
          assert_ (bool_decide (u64 (offset u + buflen u) <= z_wp z)) ;;
          accept zb u
    end.

(** The zone is opened, or the unit is moved to another one that is open; [None] is NULL. *)
Definition write_zone (zb : nat) (u : io_u) : zm (option nat * io_u) :=
  b ← zbd_open_zone zb;
  if b : bool then mret (Some zb, u) else zone_unlock zb ;; zbd_convert_to_open_zone u.

(** Marks the zone for a reset when the threshold is exceeded and the countdown has ended. *)
Definition mark_reset (zb : nat) : zm unit :=
  s ← get;
  due ← (if zrf_on o && bool_decide (wp_sectors_with_data s >= zrt_bytes o) then zbd_dec_and_reset_write_cnt else mret false);
  when_ due (upd_zone zb (set_reset_zone true)).

(** Resets the zone when it is due or full; false is an error. *)
Definition write_reset (zb : nat) (bs : Z) : zm bool :=
  mark_reset zb ;;
  z ← zbd_get_zone zb;
  full ← (if z_reset_zone z then mret true else zbd_zone_full z bs);
  if negb full then mret true
  else
    assert_ (negb (verify o)) ;;
    io_u_quiesce ;;
    upd_zone zb (set_reset_zone false) ;;
    r ← zbd_reset_zone zb;
    if decide (r < 0) then mret false else z ← zbd_get_zone zb; mret (bool_decide (bs <= z_capacity z)).

Definition adjust_write (zb : nat) (u : io_u) : zm (io_u_action * io_u) :=
  let bs := min_bs o (ddir u) in
  s ← get;
  if decide (buflen u > zone_size s) then eof (Some zb) u
  else
    '(r, u) ← write_zone zb u;
    match r with
    | None => eof None u
    | Some zb =>
        ok ← write_reset zb bs;
        if negb ok then eof (Some zb) u
        else
          z ← zbd_get_zone zb;
          full ← zbd_zone_full z bs;
          assert_ (negb full) ;;
          let u := set_offset (z_wp z) u in
          if negb (is_valid_offset f (offset u)) then eof (Some zb) u
          else
            let new_len := Z.min (buflen u) (u64 (zbd_zone_capacity_end z - offset u)) / bs * bs in
            if decide (new_len = buflen u) then accept zb u
            else if decide (new_len >= bs) then accept zb (set_buflen new_len u)
            else eof (Some zb) u
    end.

Definition adjust_trim (zb : nat) (u : io_u) : zm (io_u_action * io_u) :=
  z ← zbd_get_zone zb;
  if decide (td_random o = false \/ z_wp z > z_start z) then accept zb u
  else
    zone_unlock zb ;;
    r ← zbd_find_zone 1 zb (max_zone f);
    match r with
    | Some zb => z ← zbd_get_zone zb; accept zb (set_offset (z_start z) u)
    | None => eof None u
    end.

Definition zbd_adjust_block (u : io_u) : zm (io_u_action * io_u) :=
  assert_ (bool_decide (min_bs o (ddir u) <> 0)) ;;
  assert_ (is_valid_offset f (offset u)) ;;
  assert_ (bool_decide (buflen u <> 0)) ;;
  s ← get;
  let zb := zbd_offset_to_zone_idx s (offset u) in
  z ← zbd_get_zone zb;
  if negb (z_has_wp z) then adjust_conventional zb u
  else if negb (offline z) && bool_decide (ddir u = DDIR_READ) && read_beyond_wp o then mret (io_u_accept, u)
  else
    zone_lock zb ;;
    match ddir u with
    | DDIR_READ => adjust_read zb u
    | DDIR_WRITE => adjust_write zb u
    | DDIR_TRIM => adjust_trim zb u
    | _ => accept zb u
    end.

(** The first read of a mixed job becomes a write while there is nothing to read. *)
Definition zbd_adjust_ddir (s : zoned_block_device_info) (d : fio_ddir) : fio_ddir :=
  if decide (d <> DDIR_READ \/ td_read o && td_write o = false) then d
  else if decide (sectors_with_data s <> 0 \/ read_beyond_wp o = true) then DDIR_READ else DDIR_WRITE.

(** A trim of a zone is a reset; the result 2 is io_u_completed. *)
Definition zbd_do_io_u_trim (u : io_u) : zm Z :=
  s ← get;
  let i := zbd_offset_to_zone_idx s (offset u) in
  z ← zbd_get_zone i;
  if negb (z_has_wp z) then mret 0
  else if decide (offset u <> z_start z) then mret (- 22)
  else r ← zbd_reset_zone i; mret (if decide (r < 0) then r else 2).
End ops.
