(* ===== verification/ZbdProofs.v ===== *)
(** * Zoned block devices: the invariant

    A program logic for the operations, in which no assertion may fail; the invariant of the device that
    one job writes sequential zones of; and that locking, opening, closing and completing keep it. *)

From S2P Require Import Prelude Zbd.

Open Scope Z_scope.

(** ** Programs *)

Definition post {A} (m : zm A) (Q : A -> zoned_block_device_info -> Prop) (s : zoned_block_device_info) : Prop :=
  match m s with Some (a, s') => Q a s' | None => False end.

Section rules.
Context {A B : Type}.

Lemma post_bind (m : zm A) (k : A -> zm B) Q s : post m (fun a => post (k a) Q) s -> post (m ≫= k) Q s.
Proof. unfold post, mbind, zm_bind. by destruct (m s) as [[a s']|]. Qed.

Lemma post_mono (m : zm A) (P Q : A -> zoned_block_device_info -> Prop) s :
  post m P s -> (forall a s', P a s' -> Q a s') -> post m Q s.
Proof. unfold post. destruct (m s) as [[a s']|]; auto. Qed.

Lemma post_eq (m : zm A) Q s : post m Q s -> post m (fun a s' => Q a s' /\ m s = Some (a, s')) s.
Proof. unfold post. by destruct (m s) as [[a s']|]. Qed.

Lemma post_some (m : zm A) a s' (Q : A -> zoned_block_device_info -> Prop) s : m s = Some (a, s') -> Q a s' ->
  post m Q s.
Proof. unfold post. by intros ->. Qed.

Lemma post_ret (a : A) Q s : Q a s -> post (mret a) Q s.
Proof. done. Qed.

Lemma post_get Q s : Q s s -> post get Q s.
Proof. done. Qed.

Lemma post_upd g Q s : Q tt (g s) -> post (upd g) Q s.
Proof. done. Qed.

Lemma post_assert b Q s : b = true -> Q tt s -> post (assert_ b) Q s.
Proof. intros -> H. done. Qed.

Lemma post_when b (m : zm unit) Q s : (b = true -> post m Q s) -> (b = false -> Q tt s) -> post (when_ b m) Q s.
Proof. intros H1 H2. destruct b; [by apply H1|by apply H2]. Qed.

Lemma post_zone i z Q s : zone_info s !! i = Some z -> Q z s -> post (zbd_get_zone i) Q s.
Proof. intros H HQ. unfold post, zbd_get_zone. rewrite H. done. Qed.

Lemma post_upd_zone i g z Q s : zone_info s !! i = Some z -> Q tt (set_zones (<[i := g z]> (zone_info s)) s) ->
  post (upd_zone i g) Q s.
Proof. intros H HQ. unfold post, upd_zone, mbind, zm_bind, zbd_get_zone. rewrite H. exact HQ. Qed.
End rules.

(** The zones of an updated state. *)
Ltac fields := cbn [zone_info set_open set_swd set_write_cnt set_td].

(** The rule for the program at hand. *)
Ltac step :=
  lazymatch goal with
  | |- post (_ ≫= _) _ _ => apply post_bind
  | |- post (mret _) _ _ => apply post_ret
  | |- post get _ _ => apply post_get
  | |- post (upd _) _ _ => apply post_upd
  | |- post (assert_ _) _ _ => apply post_assert
  | |- post (zbd_get_zone _) _ _ => eapply post_zone; [fields; eassumption|]
  | |- post (upd_zone _ _) _ _ => eapply post_upd_zone; [fields; eassumption|]
  end.
Ltac steps := repeat step.

(** ** The zones of a job *)

Section inv.
Context (o : zbd_opts) (f : fio_file).

Notation zidx := zbd_offset_to_zone_idx.

Definition range (i : nat) : Prop := (min_zone f <= i < max_zone f)%nat.

#[export] Instance range_dec i : Decision (range i).
Proof. unfold range. apply _. Defined.

(** The layout: equal zones, those of the file all sequential, pointers within the capacity. *)
Record layout (s : zoned_block_device_info) : Prop := {
  l_len : length (zone_info s) = S (nr_zones s);
  l_size : 0 < zone_size s;
  l_log2 : 0 < zone_size_log2 s -> zone_size s = 2 ^ zone_size_log2 s;
  l_nr : Z.of_nat (nr_zones s) < 2 ^ 32;
  l_bytes : Z.of_nat (nr_zones s) * zone_size s <= 2 ^ 52;
  l_start i z : zone_info s !! i = Some z -> z_start z = Z.of_nat i * zone_size s;
  l_range : (min_zone f < max_zone f <= nr_zones s)%nat;
  l_offset : file_offset f = Z.of_nat (min_zone f) * zone_size s;
  l_io : io_size f = Z.of_nat (max_zone f - min_zone f) * zone_size s;
  l_wp i z : zone_info s !! i = Some z -> range i ->
    z_start z <= z_wp z <= z_start z + z_capacity z /\ 0 <= z_capacity z <= zone_size s;
  l_seq i z : zone_info s !! i = Some z -> range i -> z_has_wp z = true }.

(** The open zones: those listed, once each, none of them offline, no more than the limit. *)
Record opened (s : zoned_block_device_info) : Prop := {
  o_len : length (open_zones s) = ZBD_MAX_OPEN_ZONES;
  o_num : (num_open_zones s <= ZBD_MAX_OPEN_ZONES)%nat;
  o_iff i z : zone_info s !! i = Some z -> z_open z = true <-> i ∈ take (num_open_zones s) (open_zones s);
  o_nodup : NoDup (take (num_open_zones s) (open_zones s));
  o_in i : i ∈ take (num_open_zones s) (open_zones s) -> range i;
  o_ok i z : zone_info s !! i = Some z -> z_open z = true -> offline z = false /\ range i;
  o_max : 0 <= max_open_zones s <= 4096;
  o_limit : Z.of_nat (num_open_zones s) <= max_open_zones s;
  o_job : td_num_open_zones s = Z.of_nat (num_open_zones s) }.

(** The data in the zones of the file. *)
Definition data (z : fio_zone_info) : Z := z_wp z - z_start z.

Definition total (s : zoned_block_device_info) : Z :=
  foldr (fun z a => data z + a) 0 (take (max_zone f - min_zone f) (drop (min_zone f) (zone_info s))).

Definition counted (s : zoned_block_device_info) : Prop := sectors_with_data s = total s /\ wp_sectors_with_data s = total s.

(** Units in flight, and those that fill their zone: the pointer has passed them, the zone is open until they
    complete, and there is one at most for a zone. *)
Definition fills (s : zoned_block_device_info) (u : io_u) (i : nat) : Prop :=
  put_io u = true /\ ddir u = DDIR_WRITE /\ zidx s (offset u) = i /\
  exists z, zone_info s !! i = Some z /\ u64 (offset u + buflen u) >= zbd_zone_capacity_end z.

Record flying (s : zoned_block_device_info) : Prop := {
  f_range u : u ∈ flight s -> put_io u = true -> range (zidx s (offset u));
  f_full u i z : u ∈ flight s -> fills s u i -> zone_info s !! i = Some z ->
    z_wp z = z_start z + z_capacity z /\ (max_open_zones s <> 0 -> z_open z = true);
  f_one j k u v i : flight s !! j = Some u -> flight s !! k = Some v -> fills s u i -> fills s v i -> j = k }.

Definition inv (s : zoned_block_device_info) : Prop := layout s /\ opened s /\ counted s /\ flying s.

(** ** Locks *)

(** How often the units in flight hold a zone; [h] is how often the operation itself does. *)
Definition holds (s : zoned_block_device_info) (l : list io_u) (i : nat) : nat :=
  length (filter (fun u => put_io u = true /\ zidx s (offset u) = i) l).

Definition locked (h : nat -> nat) (s : zoned_block_device_info) : Prop :=
  forall i z, zone_info s !! i = Some z -> z_locks z = (h i + holds s (flight s) i)%nat.

Definition hold (h : nat -> nat) (i : nat) : nat -> nat := fun j => if decide (j = i) then S (h j) else h j.

(** Everything but the locks. *)
Definition core (s : zoned_block_device_info) : zoned_block_device_info := set_zones (set_locks O <$> zone_info s) s.

Lemma core_zone s s' i z : core s = core s' -> zone_info s !! i = Some z ->
  exists z', zone_info s' !! i = Some z' /\ set_locks O z = set_locks O z'.
Proof.
  intros E Hz. assert (E1 : set_locks O <$> zone_info s = set_locks O <$> zone_info s') by exact (f_equal zone_info
    E).
  apply (f_equal (fun l => l !! i)) in E1. rewrite !list_lookup_fmap, Hz in E1.
  destruct (zone_info s' !! i) as [z'|]; [|done].
  exists z'. split; [done|]. cbn in E1. congruence.
Qed.

Lemma core_fields s s' : core s = core s' ->
  model s' = model s /\ max_open_zones s' = max_open_zones s /\ zone_size s' = zone_size s /\
    zone_size_log2 s' = zone_size_log2 s /\ nr_zones s' = nr_zones s /\
  sectors_with_data s' = sectors_with_data s /\ wp_sectors_with_data s' = wp_sectors_with_data s /\
    num_open_zones s' = num_open_zones s /\
  open_zones s' = open_zones s /\ td_num_open_zones s' = td_num_open_zones s /\ flight s' = flight s /\
    write_cnt s' = write_cnt s /\ dev s' = dev s.
Proof. intros E. unfold core, set_zones in E. injection E as E1 E2 E3 E4 E5 E6 E7 E8 E9 E10 E11 E12 E13 E14 E15.
  done. Qed.

Lemma set_locks_fields z z' : set_locks O z = set_locks O z' ->
  z_start z' = z_start z /\ z_wp z' = z_wp z /\ z_capacity z' = z_capacity z /\ z_cond z' = z_cond z /\
    z_has_wp z' = z_has_wp z /\ z_open z' = z_open z /\
  z_reset_zone z' = z_reset_zone z.
Proof. unfold set_locks. intros E. injection E as E1 E2 E3 E4 E5 E6 E7 E8 E9. done. Qed.

Lemma zidx_const s s' off : zone_size s' = zone_size s -> zone_size_log2 s' = zone_size_log2 s ->
  nr_zones s' = nr_zones s -> zidx s' off = zidx s off.
Proof. intros E1 E2 E3. unfold zbd_offset_to_zone_idx. by rewrite E1, E2, E3. Qed.

Lemma zidx_core s s' off : core s = core s' -> zidx s' off = zidx s off.
Proof. intros E. apply core_fields in E. naive_solver eauto using zidx_const. Qed.

Lemma sum_core l l' : set_locks O <$> l = set_locks O <$> l' ->
  foldr (fun z a => data z + a) 0 l = foldr (fun z a => data z + a) 0 l'.
Proof.
  revert l'. induction l as [|z l IH]; intros [|z' l'] E; try done. cbn in E.
  injection E as E1 E2 E3 E4 E5 E6 E7 E8 E9 E. cbn [foldr]. unfold data. rewrite E1, E2. f_equal. by apply IH.
Qed.

(** The data of [n] zones from [i] on. *)
Definition part (n i : nat) (s : zoned_block_device_info) : Z := foldr (fun z a => data z + a) 0 (take n (drop i (zone_info s))).

Lemma part_core n i s s' : core s = core s' -> part n i s' = part n i s.
Proof.
  intros E. assert (E1 : set_locks O <$> zone_info s = set_locks O <$> zone_info s') by exact (f_equal zone_info E).
  symmetry. apply sum_core. by rewrite !fmap_take, !fmap_drop, E1.
Qed.

Lemma total_core s s' : core s = core s' -> total s' = total s.
Proof. apply part_core. Qed.

Lemma inv_core s s' : core s = core s' -> inv s -> inv s'.
Proof.
  intros E (L & O & C & F).
  pose proof (core_fields _ _ E) as (E1 & E2 & E3 & E4 & E5 & E6 & E7 & E8 & E9 & E10 & E11 & E12 & E13).
  assert (Hz : forall i z, zone_info s' !! i = Some z -> exists z', zone_info s !! i = Some z' /\
    set_locks 0 z = set_locks 0 z') by (intros i z H; by apply (core_zone s' s)).
  assert (Hf : forall u i, fills s' u i -> fills s u i).
  { intros u i (H1 & H2 & H3 & z & Hzi & H4). rewrite (zidx_core s s') in H3 by done. split; [done|]. split;
      [done|]. split; [done|].
    destruct (Hz _ _ Hzi) as (z' & Hz' & Ez). exists z'. split; [done|].
    apply set_locks_fields in Ez as (A1 & A2 & A3 & _).
    unfold zbd_zone_capacity_end in *. by rewrite A1, A3. }
  split; [|split; [|split]].
  - destruct L. constructor; rewrite ?E3, ?E4, ?E5; try done.
    + apply (f_equal (fun s => length (zone_info s))) in E. unfold core, set_zones in E. cbn in E.
      rewrite !length_fmap in E. congruence.
    + intros i z H. destruct (Hz _ _ H) as (z' & Hz' & Ez). apply set_locks_fields in Ez as (A1 & _). rewrite <- A1.
      eauto.
    + intros i z H R. destruct (Hz _ _ H) as (z' & Hz' & Ez). apply set_locks_fields in Ez as (A1 & A2 & A3 & _).
      rewrite <- A1, <- A2, <- A3. eauto.
    + intros i z H R. destruct (Hz _ _ H) as (z' & Hz' & Ez).
      apply set_locks_fields in Ez as (_ & _ & _ & _ & A & _). rewrite <- A. eauto.
  - destruct O. constructor; rewrite ?E2, ?E8, ?E9, ?E10; try done.
    + intros i z H. destruct (Hz _ _ H) as (z' & Hz' & Ez).
      apply set_locks_fields in Ez as (_ & _ & _ & _ & _ & A & _). rewrite <- A. eauto.
    + intros i z H. destruct (Hz _ _ H) as (z' & Hz' & Ez).
      apply set_locks_fields in Ez as (_ & _ & _ & B & _ & A & _). rewrite <- A. unfold offline. rewrite <- B.
      by apply o_ok0.
  - unfold counted. rewrite E6, E7, (total_core s s') by done. exact C.
  - destruct F. constructor; rewrite ?E11.
    + intros u Hu Hp. rewrite (zidx_core s s') by done. eauto.
    + intros u i z Hu Hfi H. destruct (Hz _ _ H) as (z' & Hz' & Ez).
      destruct (f_full0 u i z' Hu (Hf _ _ Hfi) Hz') as [B1 B2].
      apply set_locks_fields in Ez as (A1 & A2 & A3 & _ & _ & A & _). rewrite <- A1, <- A2, <- A3, <- A, E2. done.
    + intros j k u v i Hj Hk Hu Hv. eauto.
Qed.

Lemma zone_bounds s i z : layout s -> zone_info s !! i = Some z -> range i ->
  (0 <= z_start z /\ z_start z + zone_size s <= 2 ^ 52 /\ z_start z <= z_wp z <= z_start z + z_capacity z /\
    z_capacity z <= zone_size s) /\
  zbd_zone_capacity_end z = z_start z + z_capacity z.
Proof.
  intros L Hz R. pose proof (l_wp _ L i z Hz R) as [Hw Hc]. pose proof (l_start _ L i z Hz) as Hs.
  pose proof (l_bytes _ L). pose proof (l_range _ L). pose proof (l_size _ L). unfold range in R.
  assert (0 <= Z.of_nat i * zone_size s) by (apply Z.mul_nonneg_nonneg; lia).
  assert (Z.of_nat i * zone_size s + zone_size s <= Z.of_nat (nr_zones s) * zone_size s).
  { replace (Z.of_nat i * zone_size s + zone_size s) with ((Z.of_nat i + 1) * zone_size s) by ring. apply
      Z.mul_le_mono_nonneg_r; lia. }
  split; [lia|]. unfold zbd_zone_capacity_end. apply wrapu_small. lia.
Qed.

Lemma core_set_locks s i z n : zone_info s !! i = Some z -> core s = core (set_zones (<[i := set_locks n z]>
  (zone_info s)) s).
Proof.
  intros H. unfold core, set_zones. cbn. f_equal. rewrite list_fmap_insert. symmetry. apply list_insert_id.
  rewrite list_lookup_fmap, H. done.
Qed.

Lemma zone_exists s i : inv s -> (i <= nr_zones s)%nat -> exists z, zone_info s !! i = Some z.
Proof. intros [L _] H. apply lookup_lt_is_Some_2. rewrite (l_len _ L). lia. Qed.

Lemma range_zone s i : inv s -> range i -> exists z, zone_info s !! i = Some z /\ z_has_wp z = true.
Proof.
  intros I R. destruct (zone_exists s i I) as (z & Hz).
  { destruct I as [L _]. pose proof (l_range _ L). unfold range in R. lia. }
  exists z. split; [done|]. destruct I as [L _]. by eapply l_seq.
Qed.

Lemma lock_spec h i s : inv s -> locked h s -> range i ->
  post (zone_lock f i) (fun _ s' => core s = core s' /\ inv s' /\ locked (hold h i) s') s.
Proof.
  intros I Hl R. destruct (range_zone s i I R) as (z & Hz & Hw). unfold zone_lock.
  steps; [by apply bool_decide_eq_true|done|].
  pose proof (core_set_locks s i z (S (z_locks z)) Hz) as Hc. split; [exact Hc|]. split; [by eapply inv_core|].
  intros j zj Hj. cbn [zone_info set_zones] in Hj. unfold hold. destruct (decide (j = i)) as [->|Hne].
  - rewrite list_lookup_insert_eq in Hj by (by eapply lookup_lt_Some). injection Hj as <-. cbn [z_locks set_locks].
    by rewrite (Hl i z Hz).
  - rewrite list_lookup_insert_ne in Hj by done. by apply Hl.
Qed.

Lemma unlock_spec h i s : inv s -> locked (hold h i) s -> range i ->
  post (zone_unlock i) (fun _ s' => core s = core s' /\ inv s' /\ locked h s') s.
Proof.
  intros I Hl R. destruct (range_zone s i I R) as (z & Hz & Hw). pose proof (Hl i z Hz) as Hn. unfold hold in Hn.
  rewrite decide_True in Hn by done.
  unfold zone_unlock. steps; [done|by apply bool_decide_eq_true; lia|].
  pose proof (core_set_locks s i z (z_locks z - 1) Hz) as Hc. split; [exact Hc|]. split; [by eapply inv_core|].
  intros j zj Hj. cbn [zone_info set_zones] in Hj. destruct (decide (j = i)) as [->|Hne].
  - rewrite list_lookup_insert_eq in Hj by (by eapply lookup_lt_Some). injection Hj as <-. cbn [z_locks set_locks].
    assert (E : (z_locks z - 1 = h i + holds s (flight s) i)%nat) by lia. exact E.
  - rewrite list_lookup_insert_ne in Hj by done. rewrite (Hl j zj Hj). unfold hold. by rewrite decide_False.
Qed.

(** ** Opening and closing *)

(** Everything but the locks, the open zones and what is in flight. *)
Definition view (z : fio_zone_info) : Z * Z * Z * zbd_zone_cond * bool * bool :=
  (z_start z, z_wp z, z_capacity z, z_cond z, z_has_wp z, z_reset_zone z).

Record same (s s' : zoned_block_device_info) : Prop := Same {
  sm_model : model s' = model s; sm_max : max_open_zones s' = max_open_zones s; sm_size : zone_size s' = zone_size s;
  sm_log2 : zone_size_log2 s' = zone_size_log2 s; sm_nr : nr_zones s' = nr_zones s; sm_views : view <$> zone_info s' = view <$> zone_info s;
  sm_swd : sectors_with_data s' = sectors_with_data s; sm_wp_swd : wp_sectors_with_data s' = wp_sectors_with_data s; sm_cnt : write_cnt s' = write_cnt s }.

#[export] Instance same_refl : Reflexive same.
Proof. by constructor. Qed.
#[export] Instance same_trans : Transitive same.
Proof. intros a b c [] []. constructor; congruence. Qed.
#[export] Instance same_sym : Symmetric same.
Proof. intros a b []. constructor; congruence. Qed.

Lemma core_same s s' : core s = core s' -> same s s'.
Proof.
  intros E. pose proof (core_fields _ _ E) as (E1 & E2 & E3 & E4 & E5 & E6 & E7 & E8 & E9 & E10 & E11 & E12 & E13).
  constructor; try done.
  apply list_eq. intros i. rewrite !list_lookup_fmap. destruct (zone_info s !! i) as [z|] eqn:Hz.
  - destruct (core_zone _ _ _ _ E Hz) as (z' & -> & Ez).
    apply set_locks_fields in Ez as (A1 & A2 & A3 & A4 & A5 & A6 & A7).
    cbn. unfold view. by rewrite A1, A2, A3, A4, A5, A7.
  - destruct (zone_info s' !! i) as [z'|] eqn:Hz'; [|done].
    destruct (core_zone s' s i z' (eq_sym E) Hz') as (z & Hz2 & _). congruence.
Qed.

Lemma view_fields z z' : view z' = view z ->
  z_start z' = z_start z /\ z_wp z' = z_wp z /\ z_capacity z' = z_capacity z /\ z_cond z' = z_cond z /\
    z_has_wp z' = z_has_wp z /\ z_reset_zone z' = z_reset_zone z.
Proof. unfold view. intros E. injection E as E1 E2 E3 E4 E5 E6. done. Qed.

Lemma same_zone s s' i z' : same s s' -> zone_info s' !! i = Some z' -> exists z, zone_info s !! i = Some z /\
  view z' = view z.
Proof.
  intros S Hz. pose proof (f_equal (fun l => l !! i) (sm_views _ _ S)) as E. cbn beta in E.
  rewrite !list_lookup_fmap, Hz in E.
  destruct (zone_info s !! i) as [z|]; [|done]. exists z. split; [done|].
  change (Some (view z') = Some (view z)) in E. congruence.
Qed.

Lemma same_zidx s s' off : same s s' -> zidx s' off = zidx s off.
Proof. intros []. by apply zidx_const. Qed.

Lemma same_layout s s' : same s s' -> layout s -> layout s'.
Proof.
  intros S L. pose proof (sm_views _ _ S) as Ev. pose proof S as [E1 E2 E3 E4 E5 _ _ _ _]. destruct L.
  constructor; rewrite ?E3, ?E4, ?E5; try done.
  - apply (f_equal length) in Ev. rewrite !length_fmap in Ev. lia.
  - intros i z' H. destruct (same_zone _ _ _ _ S H) as (z & Hz & (-> & _)%view_fields). eauto.
  - intros i z' H R. destruct (same_zone _ _ _ _ S H) as (z & Hz & (-> & -> & -> & _)%view_fields). eauto.
  - intros i z' H R. destruct (same_zone _ _ _ _ S H) as (z & Hz & (_ & _ & _ & _ & -> & _)%view_fields). eauto.
Qed.

Lemma total_views l l' : view <$> l' = view <$> l -> foldr (fun z a => data z + a) 0 l' = foldr (fun z a => data z +
  a) 0 l.
Proof.
  revert l'. induction l as [|z l IH]; intros [|z' l'] E; try done. rewrite !fmap_cons in E.
  injection E as E1 E2 E3 E4 E5 E6 E. cbn [foldr]. unfold data. rewrite E1, E2. f_equal. by apply IH.
Qed.

Lemma same_total s s' : same s s' -> total s' = total s.
Proof. intros S. unfold total. apply total_views. by rewrite !fmap_take, !fmap_drop, (sm_views _ _ S). Qed.

Lemma same_counted s s' : same s s' -> counted s -> counted s'.
Proof. intros S. unfold counted. rewrite (sm_swd _ _ S), (sm_wp_swd _ _ S), (same_total _ _ S). done. Qed.

Lemma same_fills s s' u i : same s s' -> fills s' u i -> fills s u i.
Proof.
  intros S (H1 & H2 & H3 & z' & Hz' & H4). rewrite (same_zidx _ _ _ S) in H3.
  destruct (same_zone _ _ _ _ S Hz') as (z & Hz & (A & _ & B & _)%view_fields).
  split; [done|]. split; [done|]. split; [done|]. exists z. split; [done|]. unfold zbd_zone_capacity_end in *.
  by rewrite <- A, <- B.
Qed.

Definition is_open (s : zoned_block_device_info) (i : nat) : Prop := i ∈ take (num_open_zones s) (open_zones s).

Lemma find_open_Some i l k : find_open i l = Some k -> l !! k = Some i.
Proof.
  revert k. induction l as [|j l IH]; intros k; cbn [find_open]; [done|]. case_decide; [by intros [= <-]; subst|].
  intros Hf. apply fmap_Some in Hf as (k' & Hk & ->). by apply IH.
Qed.

Lemma find_open_None i l : find_open i l = None -> i ∉ l.
Proof.
  induction l as [|j l IH]; cbn [find_open]; [intros _ H; by apply elem_of_nil in H|]. case_decide; [done|].
  intros Hf. apply fmap_None in Hf. rewrite not_elem_of_cons. auto.
Qed.

Lemma take_shift_down (l : list nat) k n : (k < n <= length l)%nat ->
  take (n - 1) (shift_down k l) = delete k (take n l).
Proof.
  intros H. unfold shift_down. rewrite delete_take_drop, take_take, Nat.min_l by lia.
  rewrite take_app_ge by (rewrite length_take; lia). f_equal.
  rewrite length_take, Nat.min_l by lia. rewrite take_app_le by (rewrite length_drop; lia).
  rewrite take_drop_commute. f_equal. f_equal. lia.
Qed.

(** Changing the flag of one zone and the list of open zones: the views stay. *)
Lemma same_set_open s i z b n oz t : zone_info s !! i = Some z ->
  same s (set_zones (<[i := set_z_open b z]> (zone_info s)) (set_open n oz t s)).
Proof.
  intros Hz. constructor; try done. cbn [zone_info set_zones]. rewrite list_fmap_insert. apply list_insert_id.
  by rewrite list_lookup_fmap, Hz.
Qed.

Lemma locked_set_open h s i z b n oz t : zone_info s !! i = Some z -> locked h s ->
  locked h (set_zones (<[i := set_z_open b z]> (zone_info s)) (set_open n oz t s)).
Proof.
  intros Hz Hl j zj Hj. cbn [zone_info set_zones] in Hj. destruct (decide (j = i)) as [->|Hne].
  - rewrite list_lookup_insert_eq in Hj by (by eapply lookup_lt_Some). injection Hj as <-. cbn [z_locks set_z_open].
    apply (Hl i z Hz).
  - rewrite list_lookup_insert_ne in Hj by done. exact (Hl j zj Hj).
Qed.

(** The flags after such a change. *)
Lemma lookup_set_open s i z b n oz t j zj : zone_info s !! i = Some z ->
  zone_info (set_zones (<[i := set_z_open b z]> (zone_info s)) (set_open n oz t s)) !! j = Some zj ->
  (j = i /\ zj = set_z_open b z) \/ (j <> i /\ zone_info s !! j = Some zj).
Proof.
  intros Hz Hj. cbn [zone_info set_zones] in Hj. destruct (decide (j = i)) as [->|Hne].
  - rewrite list_lookup_insert_eq in Hj by (by eapply lookup_lt_Some). injection Hj as <-. by left.
  - rewrite list_lookup_insert_ne in Hj by done. by right.
Qed.

Lemma flying_same s s' : same s s' -> flight s' = flight s -> flying s ->
  (forall u i, u ∈ flight s -> fills s u i -> max_open_zones s <> 0 -> forall z', zone_info s' !! i = Some z' ->
    z_open z' = true) -> flying s'.
Proof.
  intros S E F H. constructor; rewrite ?E.
  - intros u Hu Hp. rewrite (same_zidx _ _ _ S). by eapply f_range.
  - intros u i z' Hu Hf Hz'. pose proof (same_fills _ _ _ _ S Hf) as Hf'.
    destruct (same_zone _ _ _ _ S Hz') as (z & Hz & (-> & -> & -> & _)%view_fields).
    split; [by eapply f_full|]. rewrite (sm_max _ _ S). intros Hm. by eapply H.
  - intros j k u v i Hj Hk Hu Hv. eapply f_one; eauto using same_fills.
Qed.

Lemma close_spec h i s : inv s -> locked h s -> range i -> (forall u, u ∈ flight s -> ~ fills s u i) ->
  post (zbd_close_zone i) (fun _ s' => inv s' /\ locked h s' /\ same s s' /\ flight s' = flight s /\
    dev s' = dev s /\ forall j, is_open s' j <-> is_open s j /\ j <> i) s.
Proof.
  intros I Hl R Hno. destruct (range_zone s i I R) as (z & Hz & Hw). destruct I as (L & O & C & F).
  unfold zbd_close_zone. steps.
  destruct (z_open z) eqn:Ho; cbn [negb].
  2:{ steps. split; [done|]. split; [done|]. split; [done|]. split; [done|]. split; [done|]. intros j. split;
        [|tauto]. intros Hj. split; [done|]. intros ->. apply (o_iff _ O i z Hz) in Hj. congruence. }
  steps. assert (Hi : i ∈ take (num_open_zones s) (open_zones s)) by (by apply (o_iff _ O i z Hz)).
  destruct (find_open i _) as [k|] eqn:Hk; [|by apply find_open_None in Hk]. apply find_open_Some in Hk. steps.
  set (oz := shift_down k (open_zones s)). set (s' := set_zones _ _).
  assert (Hlt : (k < num_open_zones s)%nat). { apply lookup_lt_Some in Hk. rewrite length_take in Hk. lia. }
  assert (Et : take (num_open_zones s - 1) oz = delete k (take (num_open_zones s) (open_zones s))).
  { apply take_shift_down. pose proof (o_num _ O). pose proof (o_len _ O). lia. }
  pose proof (delete_Permutation _ _ _ Hk) as Hp. rewrite <- Et in Hp. pose proof (o_nodup _ O) as Hnd.
  rewrite Hp in Hnd. apply NoDup_cons in Hnd as [Hni Hnd].
  assert (Hopen : forall j, is_open s' j <-> is_open s j /\ j <> i).
  { intros j. unfold is_open. cbn [s' num_open_zones open_zones set_zones set_open]. rewrite Hp,
      elem_of_cons. fold oz. split; [|tauto]. intros Hj. split; [by right|]. intros ->. done. }
  assert (S : same s s') by (exact (same_set_open s i z _ _ _ _ Hz)).
  split; [|split; [exact (locked_set_open h s i z _ _ _ _ Hz Hl)|done]]. split; [by eapply same_layout|].
  split; [|split; [by eapply same_counted|]].
  - destruct O. assert (Hlen : length oz = length (open_zones s)).
    { unfold oz, shift_down. rewrite !length_app, length_take, !length_drop. pose proof o_len0. lia. }
    constructor; cbn [s' num_open_zones open_zones set_zones set_open max_open_zones td_num_open_zones]; fold oz;
      try lia; try done.
    + intros j zj Hj. destruct (lookup_set_open s i z _ _ _ _ _ _ Hz Hj) as [[-> ->]|[Hne Hj']];
        cbn [z_open set_z_open].
      * split; [done|]. intros Hin. done.
      * rewrite (o_iff0 j zj Hj'). rewrite Hp, elem_of_cons. fold oz. tauto.
    + intros j Hj. apply o_in0. rewrite Hp, elem_of_cons. by right.
    + intros j zj Hj Hoj. destruct (lookup_set_open s i z _ _ _ _ _ _ Hz Hj) as [[-> ->]|[Hne Hj']]; [done|].
      by eapply o_ok0.
  - apply (flying_same s); [done|done|done|]. intros u j Hu Hfu Hm zj Hj.
    destruct (lookup_set_open s i z _ _ _ _ _ _ Hz Hj) as [[-> ->]|[Hne Hj']]; [by apply Hno in Hfu|].
    by eapply (f_full _ F).
Qed.

Lemma open_spec h i s : inv s -> locked h s -> range i -> (verify o = true -> Z.land (min_bs o DDIR_WRITE) 511 = 0) ->
  post (zbd_open_zone o i) (fun b s' => inv s' /\ locked h s' /\ same s s' /\ flight s' = flight s /\
    dev s' = dev s /\
    (b = true -> (forall z, zone_info s' !! i = Some z -> offline z = false) /\ (max_open_zones s <> 0 ->
      is_open s' i /\ forall u, u ∈ flight s -> ~ fills s u i))) s.
Proof.
  intros I Hl R Hbs. destruct (range_zone s i I R) as (z & Hz & Hw). unfold zbd_open_zone. steps.
  destruct (offline z) eqn:Hoff; [by steps|]. apply post_bind.
  apply (post_mono _ (fun _ s' => s' = s)).
  { destruct (verify o) eqn:Hv; unfold zbd_zone_full; steps; [|done|done]. apply bool_decide_eq_true. auto. }
  intros full s' ->. destruct full; [by steps|]. steps.
  assert (Hofz : forall z', zone_info s !! i = Some z' -> offline z' = false) by (intros z' Hz'; congruence).
  case_decide as Hm; [by steps|]. destruct I as (L & O & C & F). destruct (z_open z) eqn:Ho.
  { steps. split; [done|]. split; [done|]. split; [done|]. split; [done|]. split;
      [done|]. intros Hb. rewrite bool_decide_eq_true in Hb. split; [done|]. intros _.
    split; [by apply (o_iff _ O i z Hz)|].
    intros u Hu Hf. destruct (f_full _ F u i z Hu Hf Hz) as [Hwp _]. rewrite Hwp in Hb.
    rewrite (proj2 (zone_bounds _ _ _ L Hz R)) in Hb. lia. }
  case_decide as Hj; [by steps|]. case_decide as Hg; [by steps|]. steps.
  { apply bool_decide_eq_true. pose proof (o_len _ O). pose proof (o_max _ O). unfold ZBD_MAX_OPEN_ZONES in *. lia. }
  set (s' := set_zones _ _). assert (Hlt : (num_open_zones s < length (open_zones s))%nat).
  { pose proof (o_len _ O). pose proof (o_max _ O). unfold ZBD_MAX_OPEN_ZONES in *. lia. }
  assert (Et : take (S (num_open_zones s)) (<[num_open_zones s := i]> (open_zones s)) = take (num_open_zones s)
    (open_zones s) ++ [i]).
  { rewrite (take_S_r _ _ i) by (apply list_lookup_insert_eq; lia). by rewrite take_insert_ge. }
  assert (S : same s s') by (exact (same_set_open s i z _ _ _ _ Hz)).
  assert (Hnf : forall u, u ∈ flight s -> ~ fills s u i).
  { intros u Hu Hf. destruct (f_full _ F u i z Hu Hf Hz) as [_ Hop]. specialize (Hop Hm). congruence. }
  split; [|split; [exact (locked_set_open h s i z _ _ _ _ Hz Hl)|split; [done|split; [done|split; [done|]]]]].
  - split; [by eapply same_layout|]. split; [|split; [by eapply same_counted|]].
    + destruct O. constructor; cbn [s' num_open_zones open_zones set_zones set_open max_open_zones
        td_num_open_zones]; rewrite ?Et, ?length_insert; try lia; try done.
      * intros j zj Hj'. rewrite elem_of_app, list_elem_of_singleton.
        destruct (lookup_set_open s i z _ _ _ _ _ _ Hz Hj') as [[-> ->]|[Hne Hj'']]; cbn [z_open set_z_open].
        -- split; [by right|done].
        -- rewrite (o_iff0 j zj Hj''). tauto.
      * apply NoDup_app. split; [done|]. split; [|apply NoDup_singleton]. intros j Hin Hji.
        apply list_elem_of_singleton in Hji as ->. apply (o_iff0 i z Hz) in Hin. congruence.
      * intros j. rewrite elem_of_app, list_elem_of_singleton. intros [Hin| ->]; [by apply o_in0|done].
      * intros j zj Hj' Hoj. destruct (lookup_set_open s i z _ _ _ _ _ _ Hz Hj') as [[-> ->]|[Hne Hj'']]; [done|].
        by eapply o_ok0.
    + apply (flying_same s); [done|done|done|]. intros u j Hu Hfu Hm' zj Hj'.
      destruct (lookup_set_open s i z _ _ _ _ _ _ Hz Hj') as [[-> ->]|[Hne Hj'']]; [done|]. by eapply (f_full _ F).
  - intros _. split.
    + intros z' Hz'. destruct (lookup_set_open s i z _ _ _ _ _ _ Hz Hz') as [[_ ->]|[Hne _]]; [done|done].
    + intros _. split; [|done]. unfold is_open. cbn [s' num_open_zones open_zones set_zones set_open].
      rewrite Et, elem_of_app, list_elem_of_singleton. by right.
Qed.

(** ** Completion *)

Lemma fills_dec s u i : {fills s u i} + {~ fills s u i}.
Proof.
  unfold fills. destruct (zone_info s !! i) as [z|].
  - destruct (decide (put_io u = true /\ ddir u = DDIR_WRITE /\ zidx s (offset u) = i /\
      u64 (offset u + buflen u) >= zbd_zone_capacity_end z)) as [H|H]; [left|right]; naive_solver.
  - right. naive_solver.
Qed.

(** What completing the units of [l] leaves open. *)
Definition closes (s s' : zoned_block_device_info) (l : list io_u) : Prop :=
  (forall j, is_open s' j -> is_open s j) /\ (forall j, is_open s j -> (forall u, u ∈ l -> ~ fills s u j) -> is_open s' j).

Definition hold_unit (h : nat -> nat) (s : zoned_block_device_info) (u : io_u) : nat -> nat := if put_io u then hold h (zidx s (offset u)) else h.

Lemma put_spec h u s : inv s -> locked (hold_unit h s u) s -> (put_io u = true -> range (zidx s (offset u))) ->
  (forall i v, fills s u i -> v ∈ flight s -> ~ fills s v i) ->
  post (zbd_put_io_u u) (fun _ s' => inv s' /\ locked h s' /\ same s s' /\ flight s' = flight s /\ dev s' = dev s /\
    closes s s' [u]) s.
Proof.
  intros I Hl R Hone. unfold zbd_put_io_u, hold_unit in *. destruct (put_io u) eqn:Hp; cbn [when_].
  2:{ steps. split; [done|]. split; [done|]. split; [done|]. split; [done|]. split; [done|]. by split. }
  specialize (R eq_refl). set (i := zidx s (offset u)) in *. destruct (range_zone s i I R) as (z & Hz & Hw).
  unfold zbd_put_io. steps; [done|].
  fold i. unfold zbd_end_zone_io. steps. fold i.
  apply (post_mono _ (fun _ s' => inv s' /\ locked (hold h i) s' /\ same s s' /\ flight s' = flight s /\
    dev s' = dev s /\ closes s s' [u])).
  { case_decide as Hc.
    - assert (Hf : fills s u i) by (unfold fills; naive_solver).
      eapply post_mono; [apply close_spec; [done|done|done|by intros v Hv; apply Hone]|]. cbn beta.
      intros _ s' (I' & Hl' & S & E & Ed & Ho). split; [done|]. split; [done|]. split; [done|]. split; [done|].
      split; [done|]. split.
      + intros j Hj. exact (proj1 (proj1 (Ho j) Hj)).
      + intros j Hj Hn. apply Ho. split; [done|]. intros ->. apply (Hn u); [by left|done].
    - steps. split; [done|]. split; [done|]. split; [done|]. split; [done|]. split; [done|]. by split. }
  cbn beta. intros _ s1 (I1 & Hl1 & S1 & E1 & Ed1 & Hc1). eapply post_mono; [by apply unlock_spec|]. cbn beta.
  intros _ s2 (Hc & I2 & Hl2).
  pose proof (core_fields _ _ Hc) as (C1 & C2 & C3 & C4 & C5 & C6 & C7 & C8 & C9 & C10 & C11 & C12 & C13).
  split; [done|]. split; [done|]. split; [etrans; [done|by apply core_same]|]. split; [congruence|].
  split; [congruence|].
  unfold closes, is_open in *. by rewrite C8, C9.
Qed.

Lemma holds_same s s' l i : same s s' -> holds s' l i = holds s l i.
Proof. intros S. unfold holds. f_equal. apply list_filter_iff. intros u. by rewrite (same_zidx _ _ _ S). Qed.

Lemma put_all_spec h l : forall s, inv s -> flight s = [] -> locked (fun i => h i + holds s l i)%nat s -> (forall u,
  u ∈ l -> put_io u = true -> range (zidx s (offset u))) ->
  post (put_all l) (fun _ s' => inv s' /\ locked h s' /\ same s s' /\ flight s' = [] /\ dev s' = dev s /\
    closes s s' l) s.
Proof.
  induction l as [|u l IH]; intros s I E Hl R; cbn [put_all].
  - steps. split; [done|]. split; [by intros i z Hz; rewrite (Hl i z Hz); unfold holds; cbn; lia|]. split; [done|].
    split; [done|]. split; [done|]. by split.
  - steps. eapply post_mono; [apply (put_spec (fun i => h i + holds s l i)%nat); [done| |by intros Hp; apply R;
      [left|]|by rewrite E; intros i v _ Hv; apply elem_of_nil in Hv]|].
    { intros i z Hz. rewrite (Hl i z Hz). f_equal. unfold hold_unit,
        holds. rewrite filter_cons. destruct (put_io u) eqn:Hp.
      - unfold hold. destruct (decide (i = zidx s (offset u))) as [->|Hne]; [rewrite decide_True by done;
          cbn [length]; lia|]. rewrite decide_False by naive_solver. done.
      - rewrite decide_False by naive_solver. done. }
    cbn beta. intros _ s1 (I1 & Hl1 & S1 & E1 & Ed1 & Hc1). rewrite E in E1.
    eapply post_mono; [apply IH; [done|done| |]|].
    + intros i z Hz. rewrite (Hl1 i z Hz), (holds_same s s1 l i S1). done.
    + intros v Hv Hp. rewrite (same_zidx _ _ _ S1). apply R; [by right|done].
    + cbn beta. intros _ s2 (I2 & Hl2 & S2 & E2 & Ed2 & Hc2). split; [done|]. split; [done|]. split; [by etrans|].
      split; [done|]. split; [congruence|]. destruct Hc1 as [A1 B1], Hc2 as [A2 B2]. split.
      * intros j Hj. auto.
      * intros j Hj Hn. apply B2; [apply B1; [done|]|].
        -- intros v Hv. apply list_elem_of_singleton in Hv as ->. apply Hn. by left.
        -- intros v Hv Hf. apply (Hn v); [by right|]. by eapply same_fills.
Qed.

Lemma quiesce_spec completes h s : (forall l, completes l ≡ₚ l) -> inv s -> locked h s ->
  post (io_u_quiesce completes) (fun _ s' => inv s' /\ locked h s' /\ same s s' /\ flight s' = [] /\
    dev s' = dev s /\ closes s s' (flight s)) s.
Proof.
  intros Hperm I Hl. unfold io_u_quiesce. steps. set (s0 := set_td _ _ _ s). assert (S0 : same s s0) by done.
  destruct I as (L & O & C & F).
  assert (I0 : inv s0).
  { split; [by eapply same_layout|]. split; [by destruct O; constructor|]. split;
      [by eapply same_counted|]. constructor; cbn [s0 flight set_td].
    - intros u Hu. by apply elem_of_nil in Hu.
    - intros u i z Hu. by apply elem_of_nil in Hu.
    - intros j k u v i Hj. done. }
  eapply post_mono; [apply put_all_spec; [done|done| |]|].
  - intros i z Hz. rewrite (Hl i z Hz : z_locks z = _). unfold holds at 2. cbn [s0 flight set_td].
    change (holds s0 (completes (flight s)) i) with (holds s (completes (flight s)) i).
    rewrite Nat.add_0_r. f_equal. unfold holds. by rewrite (Hperm (flight s)).
  - intros u Hu Hp. rewrite (Hperm (flight s)) in Hu. by eapply (f_range _ F).
  - cbn beta. intros _ s' (I' & Hl' & S' & E' & Ed & [A B]). split; [done|]. split; [done|].
    split; [exact (transitivity S0 S')|]. split; [done|]. split; [done|]. split; [exact A|].
    intros j Hj Hn. apply B; [exact Hj|]. intros u Hu. rewrite (Hperm (flight s)) in Hu. by apply Hn.
Qed.
End inv.
