(* ===== verification/ZbdWrite.v ===== *)
(** * Zoned block devices: moving a write to its place

    Resetting and queueing keep the invariant; a zone to write to is found, or there is none; and
    an accepted write starts at the write pointer of an open zone and fits. *)

From S2P Require Import Prelude Zbd ZbdProofs.

Open Scope Z_scope.

Section places.
Context (o : zbd_opts) (f : fio_file).

Notation zidx := zbd_offset_to_zone_idx.
Notation range := (range f).
Notation layout := (layout f).
Notation inv := (inv f).
Notation total := (total f).

Lemma zone_idx_of s i off : layout s -> (i < nr_zones s)%nat ->
  Z.of_nat i * zone_size s <= off < (Z.of_nat i + 1) * zone_size s -> zidx s off = i.
Proof.
  intros L Hi Ho. pose proof (l_size _ _ L) as H0. pose proof (l_nr _ _ L).
  assert (E : off / zone_size s = Z.of_nat i) by (symmetry; apply (Z.div_unique _ _ _ (off - Z.of_nat i * zone_size
    s)); lia).
  unfold zbd_offset_to_zone_idx.
  assert (E' : (if decide (0 < zone_size_log2 s) then Z.shiftr off (zone_size_log2 s) else off / zone_size s) =
    Z.of_nat i).
  { case_decide as Hl; [|done]. rewrite Z.shiftr_div_pow2 by lia. by rewrite <- (l_log2 _ _ L Hl). }
  rewrite E'. rewrite wrapu_small by lia. lia.
Qed.

Lemma valid_offset s off : layout s -> 0 <= off < 2 ^ 64 -> is_valid_offset f off = true <->
  file_offset f <= off < file_offset f + io_size f.
Proof.
  intros L Ho. unfold is_valid_offset. rewrite bool_decide_eq_true. pose proof (l_range _ _ L).
  pose proof (l_size _ _ L). pose proof (l_bytes _ _ L). rewrite (l_offset _ _ L), (l_io _ _ L).
  assert (0 <= Z.of_nat (min_zone f) * zone_size s) by (apply Z.mul_nonneg_nonneg; lia).
  assert (Hs : Z.of_nat (min_zone f) * zone_size s + Z.of_nat (max_zone f - min_zone f) * zone_size s = Z.of_nat
    (max_zone f) * zone_size s).
  { rewrite <- Z.mul_add_distr_r. f_equal. lia. }
  assert (Z.of_nat (max_zone f) * zone_size s <= Z.of_nat (nr_zones s) * zone_size s) by (apply
    Z.mul_le_mono_nonneg_r; lia).
  destruct (decide (Z.of_nat (min_zone f) * zone_size s <= off)) as [Hle|Hgt].
  - rewrite wrapu_small by lia. lia.
  - unfold wrapu. rewrite <- (Z.mod_add _ 1) by lia. rewrite Z.mod_small by lia. lia.
Qed.

Lemma valid_range s off : layout s -> 0 <= off < 2 ^ 64 -> is_valid_offset f off = true -> range (zidx s off) /\
  Z.of_nat (zidx s off) * zone_size s <= off < (Z.of_nat (zidx s off) + 1) * zone_size s.
Proof.
  intros L Ho Hv. apply (valid_offset s) in Hv; [|done|done]. pose proof (l_range _ _ L).
  pose proof (l_size _ _ L) as H0. rewrite (l_offset _ _ L), (l_io _ _ L) in Hv.
  assert (Hs : Z.of_nat (min_zone f) * zone_size s + Z.of_nat (max_zone f - min_zone f) * zone_size s = Z.of_nat
    (max_zone f) * zone_size s).
  { rewrite <- Z.mul_add_distr_r. f_equal. lia. }
  rewrite Hs in Hv. pose proof (Z.div_mod off (zone_size s) ltac:(lia)) as Hd.
  pose proof (Z.mod_pos_bound off (zone_size s) H0) as Hm.
  set (q := off / zone_size s) in *. assert (Hq1 : Z.of_nat (min_zone f) <= q).
  { assert (Z.of_nat (min_zone f) < q + 1); [|lia]. apply (Z.mul_lt_mono_pos_r (zone_size s)); lia. }
  assert (Hq2 : q < Z.of_nat (max_zone f)) by (apply (Z.mul_lt_mono_pos_r (zone_size s)); lia).
  assert (E : zidx s off = Z.to_nat q) by (apply zone_idx_of; [done|lia|lia]). rewrite E. unfold ZbdProofs.range.
  split; lia.
Qed.

Lemma valid_start s i z : layout s -> zone_info s !! i = Some z -> (i <= nr_zones s)%nat ->
  is_valid_offset f (z_start z) = true <-> range i.
Proof.
  intros L Hz Hi. pose proof (l_size _ _ L). pose proof (l_bytes _ _ L). pose proof (l_start _ _ L i z Hz) as Hs.
  pose proof (l_range _ _ L).
  assert (0 <= Z.of_nat i * zone_size s <= Z.of_nat (nr_zones s) * zone_size s) by (split;
    [apply Z.mul_nonneg_nonneg; lia|apply Z.mul_le_mono_nonneg_r; lia]).
  rewrite (valid_offset s) by (done || lia). rewrite Hs, (l_offset _ _ L), (l_io _ _ L), <- Z.mul_add_distr_r.
  unfold ZbdProofs.range.
  replace (Z.of_nat (min_zone f) + Z.of_nat (max_zone f - min_zone f)) with (Z.of_nat (max_zone f)) by lia.
  rewrite <- (Z.mul_le_mono_pos_r _ _ (zone_size s)), <- (Z.mul_lt_mono_pos_r (zone_size s)) by done. lia.
Qed.

(** ** The data in the zones *)

Lemma zones_sum_insert (l : list fio_zone_info) k z z' : l !! k = Some z ->
  foldr (fun z a => data z + a) 0 (<[k := z']> l) = foldr (fun z a => data z + a) 0 l - data z + data z'.
Proof.
  revert k. induction l as [|y l IH]; intros [|k] H; try done.
  - injection H as ->. cbn. lia.
  - cbn [list_insert foldr]. change (<[S k := z']> (y :: l)) with (y :: <[k := z']> l). cbn [foldr].
    rewrite IH by done. lia.
Qed.

Lemma zones_total_insert s i z z' : range i -> zone_info s !! i = Some z ->
  total (set_zones (<[i := z']> (zone_info s)) s) = total s - data z + data z'.
Proof.
  intros R Hz. unfold ZbdProofs.total. cbn [zone_info set_zones]. unfold ZbdProofs.range in R.
  rewrite drop_insert_ge by lia. rewrite take_insert_lt by lia. apply zones_sum_insert.
  rewrite lookup_take_lt by lia. rewrite lookup_drop. rewrite <- Hz. f_equal. lia.
Qed.

Lemma total_bounds s : layout s -> 0 <= total s <= 2 ^ 52 /\ forall i z, range i -> zone_info s !! i = Some z ->
  0 <= data z <= total s.
Proof.
  intros L. pose proof (l_range _ _ L). pose proof (l_size _ _ L). pose proof (l_bytes _ _ L).
  set (l := take (max_zone f - min_zone f) (drop (min_zone f) (zone_info s))).
  assert (Hl : forall k z, l !! k = Some z -> 0 <= data z <= zone_size s).
  { intros k z Hk. assert (Hlt := lookup_lt_Some _ _ _ Hk). unfold l in Hk, Hlt. rewrite length_take,
      length_drop in Hlt. rewrite lookup_take_lt in Hk by lia. rewrite lookup_drop in Hk.
    assert (R : range (min_zone f + k)) by (unfold ZbdProofs.range; lia). pose proof (l_wp _ _ L _ _ Hk R).
    unfold data. lia. }
  assert (Hsum : forall m, (forall k z, m !! k = Some z -> 0 <= data z <= zone_size s) ->
    0 <= foldr (fun z a => data z + a) 0 m <= Z.of_nat (length m) * zone_size s /\ forall k z, m !! k = Some z ->
      data z <= foldr (fun z a => data z + a) 0 m).
  { clear - H0. induction m as [|y m IH]; intros Hm; [cbn; split; [lia|done]|]. destruct IH as [IH1 IH2];
      [intros k z Hk; by apply (Hm (S k))|]. pose proof (Hm O y eq_refl) as Hy. cbn [foldr length]. split; [lia|].
    intros [|k] z Hk; [injection Hk as ->; lia|]. specialize (IH2 k z Hk). lia. }
  destruct (Hsum l Hl) as [Ht Hd]. assert (Z.of_nat (length l) * zone_size s <= Z.of_nat (nr_zones s) * zone_size s).
  { apply Z.mul_le_mono_nonneg_r; [lia|]. unfold l. rewrite length_take. lia. }
  unfold ZbdProofs.total. fold l. split; [lia|]. intros i z R Hz. unfold ZbdProofs.range in R.
  assert (Hk : l !! (i - min_zone f)%nat = Some z).
  { unfold l. rewrite lookup_take_lt by lia. rewrite lookup_drop, <- Hz. f_equal. lia. }
  split; [by eapply Hl|by eapply Hd].
Qed.

(** Moving the pointer of one zone, with the counters. *)
Lemma inv_move s i z z' w : inv s -> range i -> zone_info s !! i = Some z ->
  z_start z' = z_start z -> z_capacity z' = z_capacity z -> z_cond z' = z_cond z -> z_has_wp z' = z_has_wp z ->
    z_open z' = z_open z -> z_wp z' = w ->
  z_start z <= w <= z_start z + z_capacity z -> (forall u, u ∈ flight s -> fills s u i ->
    w = z_start z + z_capacity z) ->
  inv (set_zones (<[i := z']> (zone_info s)) (set_swd (total s + (w - z_wp z)) (total s + (w - z_wp z)) s)).
Proof.
  intros (L & O & C & F) R Hz E1 E2 E3 E4 E5 E6 Hw Hfl. set (s' := set_zones _ _).
  assert (Hlk : forall j zj, zone_info s' !! j = Some zj -> (j = i /\ zj = z') \/ (j <> i /\
    zone_info s !! j = Some zj)).
  { intros j zj Hj. cbn [s' zone_info set_zones] in Hj. destruct (decide (j = i)) as [->|Hne].
    - rewrite list_lookup_insert_eq in Hj by (by eapply lookup_lt_Some). injection Hj as <-. by left.
    - rewrite list_lookup_insert_ne in Hj by done. by right. }
  assert (Hfi : forall u j, fills s' u j -> fills s u j).
  { intros u j (H1 & H2 & H3 & zj & Hj & H4). split; [done|]. split; [done|]. split;
      [done|]. destruct (Hlk _ _ Hj) as [[-> ->]|[Hne Hj']]; [|by exists zj].
    exists z. split; [done|]. unfold zbd_zone_capacity_end in *. by rewrite <- E1, <- E2. }
  split; [|split; [|split]].
  - destruct L. constructor; try done; cbn [s' zone_size nr_zones zone_size_log2 set_zones set_swd].
    + unfold s'. cbn [zone_info set_zones]. by rewrite length_insert.
    + intros j zj Hj. destruct (Hlk _ _ Hj) as [[-> ->]|[Hne Hj']]; [rewrite E1|]; eauto.
    + intros j zj Hj Rj. destruct (Hlk _ _ Hj) as [[-> ->]|[Hne Hj']]; [|eauto]. rewrite E1, E2, E6.
      destruct (l_wp i z Hz R). done.
    + intros j zj Hj Rj. destruct (Hlk _ _ Hj) as [[-> ->]|[Hne Hj']]; [rewrite E4|]; eauto.
  - destruct O. constructor; try done; cbn [s' num_open_zones open_zones set_zones set_swd].
    + intros j zj Hj. destruct (Hlk _ _ Hj) as [[-> ->]|[Hne Hj']]; [rewrite E5|]; eauto.
    + intros j zj Hj. destruct (Hlk _ _ Hj) as [[-> ->]|[Hne Hj']]; [|eauto]. unfold offline. rewrite E3, E5.
      by apply o_ok.
  - assert (Et : total s' = total s + (w - z_wp z)).
    { unfold s'. change (total (set_zones (<[i := z']> (zone_info s)) s) = total s + (w - z_wp z)). rewrite
        (zones_total_insert _ _ _ _ R Hz). unfold data. lia. }
    split; cbn [s' sectors_with_data wp_sectors_with_data set_zones set_swd]; by rewrite <- Et.
  - destruct F. constructor; cbn [s' flight max_open_zones set_zones set_swd].
    + exact f_range.
    + intros u j zj Hu Hf Hj. pose proof (Hfi _ _ Hf) as Hf'. destruct (Hlk _ _ Hj) as [[-> ->]|[Hne Hj']]; [|eauto].
      rewrite E1, E2, E5, E6. split; [by apply (Hfl u)|]. by eapply f_full.
    + intros j k u v x Hj Hk Hu Hv. eauto.
Qed.

(** ** What the operations keep *)

(** Everything about a zone but its pointer, its lock and the request to reset it. *)
Definition still (z z' : fio_zone_info) : Prop :=
  z_start z' = z_start z /\ z_capacity z' = z_capacity z /\ z_cond z' = z_cond z /\ z_has_wp z' = z_has_wp z.

Record kept (s s' : zoned_block_device_info) : Prop := Kept {
  k_model : model s' = model s; k_max : max_open_zones s' = max_open_zones s; k_size : zone_size s' = zone_size s; k_log2 : zone_size_log2 s' = zone_size_log2 s; k_nr : nr_zones s' = nr_zones s;
  k_zone i z' : zone_info s' !! i = Some z' -> exists z, zone_info s !! i = Some z /\ still z z' }.

#[export] Instance kept_refl : Reflexive kept.
Proof. intros s. constructor; try done. intros i z H. by exists z. Qed.

#[export] Instance kept_trans : Transitive kept.
Proof.
  intros a b c [A0 A1 A2 A3 A4 A5] [B0 B1 B2 B3 B4 B5]. constructor; try congruence. intros i z H. apply B5 in H as (z1 & H1 & C1 & C2 & C3 & C4). apply A5 in H1 as (z2 & H2 & D1 & D2 & D3 & D4).
  exists z2. split; [done|]. unfold still. intuition congruence.
Qed.

Lemma same_kept s s' : same s s' -> kept s s'.
Proof.
  intros S. pose proof S as [E1 E2 E3 E4 E5 _ _ _ _]. constructor; try done. intros i z' H.
  destruct (same_zone _ _ _ _ S H) as (z & Hz & (A1 & A2 & A3 & A4 & A5 & A6)%view_fields). by exists z.
Qed.

Lemma kept_zidx s s' off : kept s s' -> zidx s' off = zidx s off.
Proof. intros []. by apply zidx_const. Qed.

Lemma locked_ext h s s' : flight s' = flight s -> (forall off, zidx s' off = zidx s off) ->
  (forall j z', zone_info s' !! j = Some z' -> exists z, zone_info s !! j = Some z /\ z_locks z' = z_locks z) ->
    locked h s -> locked h s'.
Proof.
  intros E Ei Hz Hl j z' Hj. destruct (Hz j z' Hj) as (z & Hj' & ->). rewrite (Hl j z Hj'). f_equal. rewrite E.
  unfold holds. f_equal. apply list_filter_iff. intros u. by rewrite Ei.
Qed.

(** One zone is replaced. *)
Lemma lookup_one (l : list fio_zone_info) i z z' j zj : l !! i = Some z -> <[i := z']> l !! j = Some zj -> (j = i /\
  zj = z') \/ (j <> i /\ l !! j = Some zj).
Proof.
  intros Hz Hj. destruct (decide (j = i)) as [->|Hne].
  - rewrite list_lookup_insert_eq in Hj by (by eapply lookup_lt_Some). injection Hj as <-. by left.
  - rewrite list_lookup_insert_ne in Hj by done. by right.
Qed.

Lemma inv_td r d s : inv s -> inv (set_td r (flight s) d s).
Proof. intros (L & O & C & F). split; [by destruct L|]. split; [by destruct O|]. split; [done|]. by destruct F. Qed.

Lemma inv_cnt c s : inv s -> inv (set_write_cnt c s).
Proof. intros (L & O & C & F). split; [by destruct L|]. split; [by destruct O|]. split; [done|]. by destruct F. Qed.

Lemma set_swd_id s : set_swd (sectors_with_data s) (wp_sectors_with_data s) s = s.
Proof. by destruct s. Qed.

(** The flag that asks for a reset does not matter to the invariant. *)
Lemma inv_flag s i z b : inv s -> range i -> zone_info s !! i = Some z ->
  inv (set_zones (<[i := set_reset_zone b z]> (zone_info s)) s).
Proof.
  intros I R Hz. pose proof I as (L & O & [C1 C2] & F).
  assert (H := inv_move s i z (set_reset_zone b z) (z_wp z) I R Hz eq_refl eq_refl eq_refl eq_refl eq_refl eq_refl).
  rewrite Z.sub_diag, Z.add_0_r in H. rewrite <- C1 in H at 1. rewrite <- C2, set_swd_id in H.
  apply H; [by apply (l_wp _ _ L i z Hz R)|]. intros u Hu Hf. by eapply (f_full _ _ F).
Qed.

(** ** Resetting *)

Section reset.
Context (reset_wp : nat -> Z -> Z -> Z).

Lemma reset_spec h i s : inv s -> locked h s -> range i -> (forall u, u ∈ flight s -> ~ fills s u i) ->
  post (zbd_reset_zone reset_wp f i) (fun r s' => inv s' /\ locked h s' /\ kept s s' /\ flight s' = flight s /\
    write_cnt s' = write_cnt s /\
    (forall j, is_open s' j <-> is_open s j) /\ (0 <= r -> forall z, zone_info s' !! i = Some z ->
      z_wp z = z_start z) /\ (model s = ZBD_NONE -> 0 <= r)) s.
Proof.
  intros I Hl R Hno. destruct (range_zone f s i I R) as (z & Hz & Hw). pose proof I as (L & O & [C1 C2] & F).
  destruct (zone_bounds f s i z L Hz R) as [Hb _].
  destruct (zone_exists f s (S i) I) as (zn & Hzn); [pose proof (l_range _ _ L); unfold ZbdProofs.range in R; lia|].
  pose proof (l_start _ _ L _ _ Hz) as Hs. pose proof (l_start _ _ L _ _ Hzn) as Hsn. pose proof (l_size _ _ L) as H0.
  assert (Elen : z_start zn - z_start z = zone_size s) by (rewrite Hs, Hsn; lia).
  unfold zbd_reset_zone, zbd_zone_end. steps. rewrite Elen. rewrite (wrapu_small 64 (zone_size s)) by lia.
  rewrite (wrapu_small 64 (z_wp z - z_start z)) by lia.
  case_decide as Hd. { steps. split; [done|]. split; [done|]. split; [done|]. split; [done|]. split; [done|]. split;
    [done|]. split; [|done]. intros _ z' Hz'. assert (z' = z) as -> by congruence. lia. }
  steps. { rewrite wrapu_small by lia. apply (valid_offset s);
    [done|lia|]. pose proof (l_range _ _ L). unfold ZbdProofs.range in R.
  rewrite (l_offset _ _ L), (l_io _ _ L), <- Z.mul_add_distr_r, Hs.
    replace (Z.of_nat (min_zone f) + Z.of_nat (max_zone f - min_zone f)) with (Z.of_nat (max_zone f)) by lia.
    assert (Z.of_nat (min_zone f) * zone_size s <= Z.of_nat i * zone_size s) by (apply Z.mul_le_mono_nonneg_r; lia).
    assert ((Z.of_nat i + 1) * zone_size s <= Z.of_nat (max_zone f) * zone_size s) by (apply Z.mul_le_mono_nonneg_r;
      lia). lia. }
  apply (post_mono _ (fun r s1 => (model s = ZBD_NONE -> 0 <= r) /\ exists d,
    s1 = set_td (nr_zone_resets s) (flight s) d s)).
  { case_decide; [steps; split; [done|]; exists (dev s); by destruct s|]. unfold device_reset_wp. steps. split;
      [done|]. by eexists. }
  intros r s1 (Hnone & d & ->). set (s1 := set_td _ _ d s). case_decide as Hr.
  { steps. split; [by apply inv_td|]. split; [done|]. split; [|split; [done|split; [done|split; [done|split;
      [lia|done]]]]]. constructor; try done. intros j z' Hj. by exists z'. }
  steps. set (z' := set_verify_block 0 (set_wp (z_start z) z)). set (s2 := set_td _ _ _ _).
  destruct (total_bounds s L) as [Ht Hdt]. specialize (Hdt i z R Hz). unfold data in Hdt.
  assert (Es : u64 (sectors_with_data s1 - (z_wp z - z_start z)) = total s + (z_start z - z_wp z) /\
    u64 (wp_sectors_with_data s1 - (z_wp z - z_start z)) = total s + (z_start z - z_wp z)).
  { cbn [s1 sectors_with_data wp_sectors_with_data set_td]. rewrite C1, C2. rewrite wrapu_small by lia. split; lia. }
  assert (Hlk : forall j zj, zone_info s2 !! j = Some zj -> exists y, zone_info s !! j = Some y /\ still y zj /\
    z_locks zj = z_locks y).
  { intros j zj Hj. destruct (lookup_one _ _ _ _ _ _ Hz Hj) as [[-> ->]|[_ Hj']]; [by exists z|by exists zj]. }
  split; [|split; [|split; [|split; [done|split; [done|split; [done|split; [|done]]]]]]].
  - unfold s2. destruct Es as [-> ->].
    assert (H := inv_move s1 i z z' (z_start z) (inv_td _ _ _ I) R Hz eq_refl eq_refl eq_refl eq_refl eq_refl eq_refl
      ltac:(lia)).
    eapply inv_td. apply H. intros u Hu Hf. exfalso. by apply (Hno u).
  - apply (locked_ext h s); [done|done| |done]. intros j zj Hj. destruct (Hlk j zj Hj) as (y & Hy & _ & E).
    by exists y.
  - constructor; try done. intros j zj Hj. destruct (Hlk j zj Hj) as (y & Hy & E & _). by exists y.
  - intros _ zj Hj. destruct (lookup_one _ _ _ _ _ _ Hz Hj) as [[_ ->]|[Hne _]]; [done|done].
Qed.
End reset.

(** ** Finding a zone *)

Lemma pick_bounds s off : inv s -> 0 <= off < 2 ^ 64 -> is_valid_offset f off = true ->
  (num_open_zones s <> O)%nat -> (pick_random_zone_idx f s off < num_open_zones s)%nat.
Proof.
  intros (L & O & C & F) Ho Hv Hn. apply (valid_offset s) in Hv; [|done|done]. unfold pick_random_zone_idx.
  pose proof (o_num _ _ O) as Hm. unfold ZBD_MAX_OPEN_ZONES in Hm.
  set (x := off - file_offset f) in *. assert (Hx : 0 <= x < io_size f) by lia. pose proof (l_bytes _ _ L).
  pose proof (l_range _ _ L). pose proof (l_size _ _ L).
  assert (Hio : io_size f <= 2 ^ 52). { rewrite (l_io _ _ L). etrans; [|eassumption]. apply Z.mul_le_mono_nonneg_r;
    lia. }
  rewrite (wrapu_small 64 x) by lia. assert (Hp : 0 <= x * Z.of_nat (num_open_zones s) < 2 ^ 64).
  { split; [apply Z.mul_nonneg_nonneg; lia|]. apply Z.le_lt_trans with (x * 4096); [apply Z.mul_le_mono_nonneg_l;
      lia|lia]. }
  rewrite (wrapu_small 64 _ Hp).
  assert (Hq : 0 <= x * Z.of_nat (num_open_zones s) / io_size f < Z.of_nat (num_open_zones s)).
  { split; [apply Z.div_pos; lia|]. apply Z.div_lt_upper_bound; [lia|]. apply Z.mul_lt_mono_pos_r; lia. }
  rewrite wrapu_small by lia. lia.
Qed.

Lemma candidate_spec s n : forall t, opened f s -> (num_open_zones s = O -> n = O) ->
  exists c, candidate f n t s = Some c /\ forall k, c = Some k -> (k < num_open_zones s)%nat /\ exists j,
    open_zones s !! k = Some j /\ range j.
Proof.
  induction n as [|n IH]; intros t O Hn; cbn [candidate]; [by exists None|].
  set (t' := if decide (num_open_zones s <= t)%nat then 0%nat else t).
  assert (Ht : (t' < num_open_zones s)%nat) by (unfold t'; case_decide; destruct (num_open_zones s); lia).
  destruct (open_zones s !! t') as [j|] eqn:Hj.
  2:{ apply lookup_ge_None in Hj. pose proof (o_len _ _ O). pose proof (o_num _ _ O). lia. }
  cbn [mbind option_bind]. destruct (in_range f j) eqn:Hr.
  - exists (Some t'). split; [done|]. intros k [= <-]. split; [done|]. exists j. split; [done|].
    by apply bool_decide_eq_true in Hr.
  - apply IH; [done|]. intros H0. lia.
Qed.

Definition cand (s : zoned_block_device_info) (off : Z) : option (option nat) := candidate f (num_open_zones s) (pick_random_zone_idx f s off) s.

Lemma candidate_const s s' n : num_open_zones s' = num_open_zones s -> open_zones s' = open_zones s -> forall t,
  candidate f n t s' = candidate f n t s.
Proof. intros E1 E2. induction n as [|n IH]; intros t; cbn [candidate]; [done|]. rewrite E1, E2.
  destruct (open_zones s !! _); [|done]. cbn [mbind option_bind]. case_match; [done|]. apply IH. Qed.

Lemma cand_core s s' off : core s = core s' -> cand s' off = cand s off.
Proof.
  intros E. apply core_fields in E as (E1 & E2 & E3 & E4 & E5 & E6 & E7 & E8 & E9 & E10 & E11 & E12 & E13).
  unfold cand, pick_random_zone_idx. rewrite E8. by apply candidate_const.
Qed.

Lemma open_zone_info s i : inv s -> is_open s i -> range i /\ exists z, zone_info s !! i = Some z /\
  offline z = false.
Proof.
  intros I Hi. pose proof I as (L & O & C & F). assert (R : range i) by (by apply (o_in _ _ O)). split; [done|].
  destruct (range_zone f s i I R) as (z & Hz & _). exists z. split; [done|].
  by eapply (o_ok _ _ O i z Hz), (o_iff _ _ O i z Hz).
Qed.

(** A zone that a write can go to. *)
Definition ready (j : nat) (s : zoned_block_device_info) : Prop :=
  range j /\ (forall z, zone_info s !! j = Some z -> offline z = false) /\
  (max_open_zones s <> 0 -> is_open s j /\ forall u, u ∈ flight s -> ~ fills s u j).

Lemma ready_core s s' j : core s = core s' -> ready j s -> ready j s'.
Proof.
  intros E (R & Ho & Hm).
  pose proof (core_fields _ _ E) as (E1 & E2 & E3 & E4 & E5 & E6 & E7 & E8 & E9 & E10 & E11 & E12 & E13).
  split; [done|]. split.
  - intros z' Hz'. destruct (core_zone s' s j z' (eq_sym E) Hz') as (z & Hz & Ez).
    apply set_locks_fields in Ez as (_ & _ & _ & A & _). unfold offline. rewrite <- A. by apply Ho.
  - rewrite E2, E11. intros H. destruct (Hm H) as [A B]. split; [unfold is_open; by rewrite E8, E9|]. intros u Hu Hf.
    apply (B u Hu). by eapply same_fills; [apply core_same|].
Qed.

Lemma core_open s s' j : core s = core s' -> is_open s j -> is_open s' j.
Proof. intros E. apply core_fields in E as (E1 & E2 & E3 & E4 & E5 & E6 & E7 & E8 & E9 & _). unfold is_open.
  by rewrite E8, E9. Qed.

(** What [choose] leaves: the locks of the caller, and that of the zone it found. *)
Definition chosen (h : nat -> nat) (s : zoned_block_device_info) (c : choice) (s' : zoned_block_device_info) : Prop :=
  core s = core s' /\ inv s' /\
  match c with
  | CNull => locked h s'
  | CExamine j => range j /\ locked (hold h j) s' /\ (forall z, zone_info s' !! j = Some z -> offline z = false) /\ (max_open_zones s' <> 0 -> is_open s' j)
  | COther j => range j /\ locked (hold h j) s'
  end.

(** The body of the loop: it ends, or goes on with the candidate. *)
Lemma choose_step h fuel off i s : inv s -> locked h s -> range i -> 0 <= off < 2 ^ 64 ->
  is_valid_offset f off = true ->
  (forall k j s', cand s off = Some (Some k) -> open_zones s !! k = Some j -> j <> i -> range j -> is_open s j ->
    core s = core s' -> inv s' -> locked h s' -> post (choose o f fuel off j) (chosen h s) s') ->
  post (choose o f (S fuel) off i) (chosen h s) s.
Proof.
  intros I Hl R Ho Hv Hrec. destruct (range_zone f s i I R) as (z & Hz & Hw). cbn [choose]. steps. rewrite Hw.
  cbn [when_ andb]. eapply post_mono; [by apply lock_spec|]. cbn beta.
  intros _ s1 (Hc1 & I1 & Hl1).
  pose proof (core_fields _ _ Hc1) as (E1 & E2 & E3 & E4 & E5 & E6 & E7 & E8 & E9 & E10 & E11 & E12 & E13).
  destruct (core_zone _ _ _ _ Hc1 Hz) as (z1 & Hz1 & Ez1). steps.
  destruct (negb (offline z) && _ && _) eqn:Hex.
  { steps. split; [done|]. split; [done|]. split; [done|]. split; [done|]. rewrite !andb_true_iff, negb_true_iff,
      !bool_decide_eq_true in Hex. destruct Hex as [[Hoff Hm] _]. split; [|done].
    intros z' Hz'. assert (z' = z1) as -> by congruence. apply set_locks_fields in Ez1 as (_ & _ & _ & A & _).
    unfold offline in *. by rewrite A. }
  clear Hex. case_bool_decide as Hn; [steps; split; [done|]; split; done|].
  pose proof (pick_bounds s1 off I1 Ho Hv Hn) as Hpick. steps; [by apply bool_decide_eq_true; right|].
  destruct (candidate_spec s1 (num_open_zones s1) (pick_random_zone_idx f s1 off) (proj1 (proj2 I1)) ltac:(done)) as
    (c & Hcand & Hck). unfold post at 1. rewrite Hcand. cbn [mbind option_bind].
  destruct c as [k|].
  - destruct (Hck k eq_refl) as (Hk & j & Hj & Rj). steps. unfold post at 1. rewrite Hj. cbn [mbind option_bind].
    assert (Hoj : is_open s1 j).
    { unfold is_open. apply list_elem_of_lookup. exists k. rewrite lookup_take_lt by done. done. }
    case_decide as Hji.
    + subst j. steps. split; [done|]. split; [done|]. split; [done|]. split; [done|]. split; [|done]. intros z' Hz'.
      destruct (open_zone_info _ _ I1 Hoj) as (_ & z2 & Hz2 & Hoff). congruence.
    + steps. eapply post_mono; [by apply unlock_spec|]. cbn beta. intros _ s2 (Hc2 & I2 & Hl2).
      eapply Hrec; [|rewrite <- E9; exact Hj|done|done|by eapply core_open; [symmetry|]|congruence|done|done].
      rewrite <- (cand_core s s1) by done. exact Hcand.
  - steps. eapply post_mono; [by apply unlock_spec|]. cbn beta. intros _ s2 (Hc2 & I2 & Hl2). steps.
    split; [congruence|]. done.
Qed.

Lemma choose_spec h off i s : inv s -> locked h s -> range i -> 0 <= off < 2 ^ 64 -> is_valid_offset f off = true ->
  post (choose o f 2 off i) (chosen h s) s.
Proof.
  intros I Hl R Ho Hv. apply choose_step; [done|done|done|done|done|]. intros k j s1 Hk Hj Hne Rj Hoj Hc1 I1 Hl1.
  eapply post_mono; [apply (choose_step h 0 off j s1); [done|done|done|done|done|]|].
  - intros k' j' s2 Hk' Hj' Hne'. exfalso. rewrite (cand_core s s1) in Hk' by done.
    assert (k' = k) as -> by congruence. apply core_fields in Hc1 as (_ & _ & _ & _ & _ & _ & _ & _ & E9 & _).
    rewrite E9 in Hj'. congruence.
  - intros c s2 [Hc2 Hrest]. split; [congruence|done].
Qed.
End places.

(** ** Zoned block devices: finding another zone

    The loops of [zbd_convert_to_open_zone] end, keep the locks in balance, and find a zone
    that a write can go to, or none. *)

Section convert.
Context (completes : list io_u -> list io_u) (Hcompletes : forall l, completes l ≡ₚ l).
Context (o : zbd_opts) (f : fio_file) (Hverify : verify o = false).

Notation zidx := zbd_offset_to_zone_idx.
Notation range := (range f).
Notation inv := (inv f).
Notation ready := (ready f).

(** Waiting and opening: what stays. *)
Definition waited (s s' : zoned_block_device_info) : Prop := inv s' /\ same s s' /\ dev s' = dev s /\ (flight s' = flight s \/ flight s' = []).

Lemma waited_trans a b c : waited a b -> waited b c -> waited a c.
Proof. intros (_ & S1 & D1 & F1) (I2 & S2 & D2 & F2). split; [done|]. split; [by etrans|]. split; [congruence|].
  destruct F2 as [->| ->]; auto. Qed.

Lemma core_waited a b : core a = core b -> inv b -> waited a b.
Proof. intros E I. split; [done|]. split; [by apply core_same|].
  apply core_fields in E as (_ & _ & _ & _ & _ & _ & _ & _ & _ & _ & E11 & _ & E13). auto. Qed.

Lemma next_zone s i : inv s -> range i -> exists z, zone_info s !! S i = Some z /\
  let j := if is_valid_offset f (z_start z) then S i else min_zone f in range j /\ exists zj,
    zone_info s !! j = Some zj /\ z_has_wp zj = true /\ is_valid_offset f (z_start zj) = true.
Proof.
  intros I R. pose proof I as (L & _). pose proof (l_range _ _ L) as Hr. unfold ZbdProofs.range in R.
  destruct (zone_exists f s (S i) I) as (z & Hz); [lia|]. exists z. split; [done|]. cbn zeta.
  pose proof (valid_start f s (S i) z L Hz ltac:(lia)) as Hv. destruct (is_valid_offset f (z_start z)) eqn:E.
  - assert (Rj : range (S i)) by (by apply Hv). split; [done|]. exists z. split; [done|].
    split; [by eapply (l_seq _ _ L)|done].
  - assert (Rj : range (min_zone f)) by (unfold ZbdProofs.range; lia). split; [done|].
    destruct (range_zone f s _ I Rj) as (zj & Hj & Hw). exists zj. split; [done|]. split; [done|].
    apply (valid_start f s (min_zone f) zj L Hj); [lia|done].
Qed.

Lemma try_open_spec h n : forall i s, inv s -> locked (hold h i) s -> range i ->
  post (try_open o f n i) (fun r s' => waited s s' /\ range r.1 /\ locked (hold h r.1) s' /\ flight s' = flight s /\
    (r.2 = true -> ready r.1 s')) s.
Proof.
  induction n as [|n IH]; intros i s I Hl R; cbn [try_open].
  { steps. split; [by apply core_waited|]. done. }
  destruct (range_zone f s i I R) as (z & Hz & Hw). steps. rewrite Hw. cbn [when_].
  steps; eapply post_mono; [by apply unlock_spec|]. cbn beta. intros _ s1 (Hc1 & I1 & Hl1).
  destruct (next_zone s1 i I1 R) as (zn & Hzn & Hj). steps.
  set (j := if is_valid_offset f (z_start zn) then S i else min_zone f) in *. cbn zeta in Hj.
  destruct Hj as (Rj & zj & Hzj & Hwj & Hvj).
  steps; [done|]. rewrite Hwj. cbn [negb]. steps; eapply post_mono; [by apply lock_spec|]. cbn beta.
  intros _ s2 (Hc2 & I2 & Hl2). assert (W2 : waited s s2) by (eapply waited_trans; apply core_waited; done).
  assert (E2 : flight s2 = flight s) by (apply core_fields in Hc1, Hc2; intuition congruence).
  assert (Hrec : forall s3, waited s2 s3 -> flight s3 = flight s2 -> locked (hold h j) s3 ->
    post (try_open o f n j) (fun r s' => waited s s' /\ range r.1 /\ locked (hold h r.1) s' /\
      flight s' = flight s /\ (r.2 = true -> ready r.1 s')) s3).
  { intros s3 W3 E3 Hl3. steps; eapply post_mono; [apply IH;
      [by apply W3|done|done]|]. cbn beta. intros r s4 (W4 & Hr & Hl4 & E4 & Hrd).
    split; [eapply waited_trans; [exact W2|]; by eapply waited_trans|].
    split; [done|]. split; [done|]. split; [congruence|done]. }
  destruct (z_open zj) eqn:Hop; [by apply Hrec; [apply core_waited| |]|].
  steps; eapply post_mono; [apply open_spec; [done|done|done|by rewrite Hverify]|]. cbn beta.
  intros b s3 (I3 & Hl3 & S3 & E3 & D3 & Hb).
  assert (W3 : waited s2 s3) by (split; [done|]; split; [done|]; split; [done|by left]). destruct b; [|by apply Hrec].
  steps. cbn [fst snd]. split; [by eapply waited_trans|]. split; [done|]. split; [done|]. split; [congruence|].
  intros _. destruct (Hb eq_refl) as [Hoff Hm]. split; [done|]. split; [done|].
  rewrite (sm_max _ _ S3). intros H. destruct (Hm H) as [A B]. split; [done|]. rewrite E3. intros u Hu Hf.
  apply (B u Hu). by eapply same_fills.
Qed.

(** A zone with room for one more block is not about to be filled. *)
Lemma room_not_filled s j z bs u : inv s -> zone_info s !! j = Some z -> range j -> 0 < bs < 2 ^ 63 ->
  u64 (z_wp z + bs) <= zbd_zone_capacity_end z ->
  u ∈ flight s -> ~ fills s u j.
Proof.
  intros (L & O & C & F) Hz R Hbs Hroom Hu Hf. destruct (zone_bounds f s j z L Hz R) as [Hb He].
  destruct (f_full _ _ F u j z Hu Hf Hz) as [Hwp _]. rewrite He, wrapu_small in Hroom by lia. lia.
Qed.

Lemma scan_open_spec h bs n : forall k i s, inv s -> locked (hold h i) s -> range i ->
  (k + n <= num_open_zones s)%nat -> 0 < bs < 2 ^ 63 ->
  post (scan_open f n k i bs) (fun r s' => core s = core s' /\ inv s' /\ range r.1 /\ locked (hold h r.1) s' /\
    (r.2 = true -> ready r.1 s')) s.
Proof.
  induction n as [|n IH]; intros k i s I Hl R Hk Hbs; cbn [scan_open]; [by steps|]. pose proof I as (L & O & C & F).
  destruct (open_zones s !! k) as [j|] eqn:Hj.
  2:{ apply lookup_ge_None in Hj. pose proof (o_len _ _ O). pose proof (o_num _ _ O). lia. }
  steps. unfold post at 1. rewrite Hj. cbn [mbind option_bind]. assert (Hoj : is_open s j).
  { unfold is_open. apply list_elem_of_lookup. exists k. rewrite lookup_take_lt by lia. done. }
  destruct (in_range f j) eqn:Hrj; cbn [negb]; [|by apply IH; [done|done|done|lia|done]].
  apply bool_decide_eq_true in Hrj. change (range j) in Hrj.
  steps; eapply post_mono; [by apply unlock_spec|]. cbn beta. intros _ s1 (Hc1 & I1 & Hl1).
  steps; eapply post_mono; [by apply (lock_spec f h j)|]. cbn beta. intros _ s2 (Hc2 & I2 & Hl2).
  assert (Hc : core s = core s2) by congruence. destruct (range_zone f s2 j I2 Hrj) as (z & Hz & Hw). steps.
  case_decide as Hroom.
  - steps. cbn [fst snd]. split; [done|]. split; [done|]. split; [done|]. split; [done|]. intros _.
    assert (Ho2 : is_open s2 j) by (by eapply core_open).
    destruct (open_zone_info f _ _ I2 Ho2) as (_ & z' & Hz' & Hoff). split; [done|].
    split; [intros z'' Hz''; congruence|]. intros _. split; [done|]. intros u Hu.
    exact (room_not_filled s2 j z bs u I2 Hz Hrj Hbs Hroom Hu).
  - assert (E8 : num_open_zones s2 = num_open_zones s) by (apply core_fields in Hc; intuition congruence).
    steps; eapply post_mono; [apply IH; [done|done|done|rewrite E8; lia|done]|]. cbn beta. intros r s3 (Hc3 & Hrest).
    split; [congruence|done].
Qed.

(** The rounds of [retry]: one, two when it should try again, three when units are in flight. *)
Lemma retry_spec h bs fuel : forall i (should : bool) s, inv s -> locked (hold h i) s -> range i -> 0 < bs < 2 ^ 63 ->
  ((if decide (flight s = []) then if should then 2 else 1 else 3) <= fuel)%nat ->
  post (retry completes o f fuel i bs should) (fun r s' => waited s s' /\
    match r with None => locked h s' | Some j => ready j s' /\ locked (hold h j) s' end) s.
Proof.
  induction fuel as [|fuel IH]; intros i should s I Hl R Hbs Hfuel.
  { destruct (decide (flight s = [])); [destruct should|]; lia. }
  cbn [retry]. steps; eapply post_mono; [by apply (try_open_spec h)|]. cbn beta.
  intros [i1 found] s1 (W1 & R1 & Hl1 & E1 & Hrd). cbn [fst snd] in *. destruct found; [steps; auto|].
  steps; eapply post_mono; [apply (scan_open_spec h bs); [by apply W1|done|done|lia|done]|]. cbn beta.
  intros [i2 found] s2 (Hc2 & I2 & R2 & Hl2 & Hrd2). cbn [fst snd] in *.
  assert (W2 : waited s s2) by (eapply waited_trans; [exact W1|by apply core_waited]).
  assert (E2 : flight s2 = flight s) by (apply core_fields in Hc2; intuition congruence).
  destruct found; [steps; auto|]. steps. rewrite E2. destruct (bool_decide (flight s <> []) || should) eqn:Hagain.
  - steps; eapply post_mono; [by apply unlock_spec|]. cbn beta. intros _ s3 (Hc3 & I3 & Hl3).
    steps; eapply post_mono; [by apply (quiesce_spec f completes h)|]. cbn beta.
    intros _ s4 (I4 & Hl4 & S4 & E4 & D4 & _).
    steps; eapply post_mono; [by apply (lock_spec f h i2)|]. cbn beta. intros _ s5 (Hc5 & I5 & Hl5).
    assert (E5 : flight s5 = []) by (apply core_fields in Hc5; intuition congruence).
    assert (W5 : waited s s5). { eapply waited_trans; [exact W2|]. eapply waited_trans;
      [by apply core_waited|]. eapply waited_trans; [|by apply core_waited]. split; [done|]. split; [done|].
    split; [done|by right]. }
    steps; eapply post_mono; [apply IH; [done|done|done|done|]|].
    + rewrite E5, decide_True by done. destruct (decide (flight s = [])) as [Hf|Hf].
      * rewrite bool_decide_false in * by naive_solver. cbn [orb] in Hagain. destruct should; [lia|done].
      * rewrite bool_decide_true by done. lia.
    + cbn beta. intros r s6 (W6 & Hr). split; [by eapply waited_trans|done].
  - steps; eapply post_mono; [by apply unlock_spec|]. cbn beta. intros _ s3 (Hc3 & I3 & Hl3). steps. split; [|done].
    eapply waited_trans; [exact W2|by apply core_waited].
Qed.

Lemma open_other_spec h bs i s : inv s -> locked (hold h i) s -> range i -> 0 < bs < 2 ^ 63 ->
  post (open_other_zone completes o f i bs) (fun r s' => waited s s' /\
    match r with None => locked h s' | Some j => ready j s' /\ locked (hold h j) s' end) s.
Proof.
  intros I Hl R Hbs. unfold open_other_zone. steps. set (w := _ || _ || _).
  apply (post_mono _ (fun _ s' => waited s s' /\ locked (hold h i) s')).
  { destruct w; cbn [when_]; [|steps; split; [by apply core_waited|done]]. steps; eapply post_mono;
      [by apply (quiesce_spec f completes (hold h i))|]. cbn beta. intros _ s1 (I1 & Hl1 & S1 & E1 & D1 & _).
    split; [|done]. split; [done|]. split; [done|]. split; [done|by right]. }
  cbn beta. intros _ s1 (W1 & Hl1). steps; eapply post_mono; [apply (retry_spec h bs 3);
    [by apply W1|done|done|done|]|].
  - destruct (decide _); lia.
  - cbn beta. intros r s2 (W2 & Hr). split; [by eapply waited_trans|done].
Qed.

(** The unit is moved to the start of a zone that is ready, and the zone is locked; or there is none, and
    nothing is. *)
Definition converted (h : nat -> nat) (s : zoned_block_device_info) (u : io_u) (r : option nat * io_u) (s' : zoned_block_device_info) : Prop :=
  waited s s' /\ match r.1 with None => locked h s' /\ r.2 = u | Some j => ready j s' /\ locked (hold h j) s' /\ exists z, zone_info s' !! j = Some z /\ r.2 = set_offset (z_start z) u end.

Lemma convert_spec h u s : inv s -> locked h s -> 0 <= offset u < 2 ^ 64 -> is_valid_offset f (offset u) = true ->
  0 < min_bs o (ddir u) < 2 ^ 63 ->
  post (zbd_convert_to_open_zone completes o f u) (converted h s u) s.
Proof.
  intros I Hl Ho Hv Hbs. pose proof I as (L & O & C & F). pose proof (l_range _ _ L) as Hlr.
  unfold zbd_convert_to_open_zone. steps; [done|].
  apply (post_mono _ (fun _ s' => s' = s)).
  { case_decide as Hm; [|by steps]. destruct (open_zones s !! pick_random_zone_idx f s (offset u)) as [j|] eqn:Hj;
      [by unfold post; rewrite Hj|]. exfalso. apply lookup_ge_None in Hj.
    pose proof (o_len _ _ O). pose proof (o_num _ _ O). unfold ZBD_MAX_OPEN_ZONES in *.
    destruct (decide (num_open_zones s = 0%nat)) as [E|E]; [|pose proof (pick_bounds f s (offset u) I Ho Hv E); lia].
    unfold pick_random_zone_idx in Hj. rewrite E, Z.mul_0_r in Hj. change (u64 0) with 0 in Hj.
    rewrite Z.div_0_l in Hj.
    - change (u32 0) with 0 in Hj. lia.
    - pose proof (l_size _ _ L). rewrite (l_io _ _ L). intros Hz0. apply Z.mul_eq_0 in Hz0. lia. }
  intros i0 s' ->. set (i := if decide _ then _ else _).
  assert (R : range i) by (unfold i, ZbdProofs.range; destruct (decide _); [lia|]; destruct (decide _); lia).
  steps; eapply post_mono; [by apply (choose_spec o f h)|]. cbn beta. intros c s1 (Hc1 & I1 & Hch).
  assert (W1 : waited s s1) by (by apply core_waited).
  steps. apply (post_mono _ (fun r s' => waited s s' /\ match r with None => locked h s' | Some j => ready j s' /\
    locked (hold h j) s' end)).
  { destruct c as [|j|j].
    - steps. done.
    - destruct Hch as (Rj & Hlj & Hoff & Hop). destruct (range_zone f s1 j I1 Rj) as (z & Hz & Hw). steps.
      case_decide as Hroom.
      + steps. split; [done|]. split; [|done]. split; [done|]. split; [done|]. intros Hm. split; [auto|].
        intros v Hvf. exact (room_not_filled s1 j z (min_bs o (ddir u)) v I1 Hz Rj Hbs Hroom Hvf).
      + steps; eapply post_mono; [by apply (open_other_spec h)|]. cbn beta. intros r s2 (W2 & Hr).
        split; [by eapply waited_trans|done].
    - destruct Hch as (Rj & Hlj). steps; eapply post_mono; [by apply (open_other_spec h)|]. cbn beta.
      intros r s2 (W2 & Hr). split; [by eapply waited_trans|done]. }
  cbn beta. intros r s2 (W2 & Hr). destruct r as [j|]; [|steps; split; [done|done]]. destruct Hr as (Hrd & Hlj).
  destruct (range_zone f s2 j (proj1 W2) (proj1 Hrd)) as (z & Hz & Hw).
  steps; [done|by rewrite (proj1 (proj2 Hrd) z Hz)|]. split; [done|]. cbn [fst snd]. split; [done|]. split; [done|].
  by exists z.
Qed.
End convert.
