(* ===== verification/ZbdSpec.v ===== *)
(** * Zoned block devices: writes and reads

    An accepted write starts at the write pointer of a zone that is open and fits into its capacity; the
    invariant holds along every run of writes, reads and completions, and no assertion fails. *)

From S2P Require Import Prelude Zbd ZbdProofs ZbdWrite.

Open Scope Z_scope.

Section writes.
Context (reset_wp : nat -> Z -> Z -> Z) (completes : list io_u -> list io_u) (Hcompletes : forall l, completes l ≡ₚ l).
Context (o : zbd_opts) (f : fio_file) (Hverify : verify o = false) (Hperiod : 0 < zrf_period o).

Notation zidx := zbd_offset_to_zone_idx.
Notation range := (range f).
Notation inv := (inv f).
Notation ready := (ready f).

Definition cnt_ok (s : zoned_block_device_info) : Prop := zrf_on o = true -> 0 < write_cnt s.

Lemma same_cnt s s' : same s s' -> cnt_ok s -> cnt_ok s'.
Proof. intros S. unfold cnt_ok. by rewrite (sm_cnt _ _ S). Qed.

(** The counter of writes and the flag of zone [j] are changed at most. *)
Definition tweaked (s s' : zoned_block_device_info) : Prop :=
  kept s s' /\ flight s' = flight s /\ num_open_zones s' = num_open_zones s /\ open_zones s' = open_zones s.

Lemma tweaked_open s s' j : tweaked s s' -> is_open s' j <-> is_open s j.
Proof. intros (_ & _ & E1 & E2). unfold is_open. by rewrite E1, E2. Qed.

Lemma kept_fills s s' u i : kept s s' -> fills s' u i -> fills s u i.
Proof.
  intros K (H1 & H2 & H3 & z' & Hz' & H4). rewrite (kept_zidx _ _ _ K) in H3.
  destruct (k_zone _ _ K _ _ Hz') as (z & Hz & A & B & _).
  split; [done|]. split; [done|]. split; [done|]. exists z. split; [done|]. unfold zbd_zone_capacity_end in *.
  by rewrite <- A, <- B.
Qed.

Lemma kept_offline s s' j : kept s s' -> (forall z, zone_info s !! j = Some z -> offline z = false) -> forall z,
  zone_info s' !! j = Some z -> offline z = false.
Proof. intros K H z Hz. destruct (k_zone _ _ K _ _ Hz) as (y & Hy & _ & _ & A & _). unfold offline. rewrite A.
  by apply H. Qed.

Lemma tweaked_ready s s' j : tweaked s s' -> ready j s -> ready j s'.
Proof.
  intros T (R & Ho & Hm). pose proof T as (K & E & _). split; [done|]. split; [by eapply kept_offline|].
  rewrite (k_max _ _ K), E. intros H. destruct (Hm H) as [A B]. split; [by apply (tweaked_open _ _ _ T)|].
  intros u Hu Hf. apply (B u Hu). by eapply kept_fills.
Qed.

(** Whether the zone is due for a reset, with the countdown. *)
Lemma mark_spec h j s : inv s -> locked h s -> range j -> cnt_ok s ->
  post (mark_reset o j) (fun _ s' => inv s' /\ locked h s' /\ tweaked s s' /\ cnt_ok s') s.
Proof.
  intros I Hl R Hcnt. unfold mark_reset. steps.
  apply (post_mono _ (fun _ s1 => exists c, s1 = set_write_cnt c s /\ cnt_ok s1)).
  { destruct (zrf_on o) eqn:Hz; cbn [andb]; [|steps; exists (write_cnt s); split;
      [by destruct s|done]]. destruct (bool_decide _); [|steps; exists (write_cnt s); split; [by destruct s|done]].
    specialize (Hcnt Hz). unfold zbd_dec_and_reset_write_cnt, _zbd_reset_write_cnt.
    steps; [apply bool_decide_eq_true; lia|]. rewrite Hz. case_bool_decide as Hc; cbn [when_]; steps.
    - exists (zrf_period o). split; [done|]. by unfold cnt_ok.
    - exists (write_cnt s - 1). split; [done|]. unfold cnt_ok. cbn. lia. }
  intros due s1 (c & -> & Hc). set (s1 := set_write_cnt c s) in *. destruct (range_zone f s j I R) as (z & Hz & Hw).
  assert (K1 : kept s s1) by (constructor; try done; intros i y Hy; by exists y).
  destruct due; cbn [when_]; steps.
  - split; [exact (inv_flag f s1 j z true (inv_cnt f c s I) R Hz)|]. set (s2 := set_zones _ _).
    assert (Hlk : forall i y, zone_info s2 !! i = Some y -> exists x, zone_info s !! i = Some x /\ still x y /\
      z_locks y = z_locks x).
    { intros i y Hy. destruct (lookup_one _ _ _ _ _ _ Hz Hy) as [[-> ->]|[_ Hy']]; [by exists z|by exists y]. }
    split; [|split; [|done]].
    + apply (locked_ext h s); [done|done| |done]. intros i y Hy. destruct (Hlk i y Hy) as (x & Hx & _ & E).
      by exists x.
    + split; [|done]. constructor; try done. intros i y Hy. destruct (Hlk i y Hy) as (x & Hx & E & _). by exists x.
  - split; [by apply inv_cnt|]. split; [done|]. split; [|done]. split; done.
Qed.

(** After the check for a reset there is room for a block at the pointer of the zone, and nothing in
    flight fills it. *)
Definition roomy (bs : Z) (j : nat) (s : zoned_block_device_info) : Prop :=
  forall z, zone_info s !! j = Some z -> z_wp z + bs <= z_start z + z_capacity z /\ forall u, u ∈ flight s -> ~ fills s u j.

Lemma write_reset_spec h j bs s : inv s -> locked (hold h j) s -> ready j s -> cnt_ok s -> 0 < bs < 2 ^ 63 ->
  Z.land bs 511 = 0 ->
  post (write_reset reset_wp completes o f j bs) (fun ok s' => inv s' /\ locked (hold h j) s' /\ kept s s' /\
    cnt_ok s' /\
    (max_open_zones s' <> 0 -> is_open s' j) /\ (ok = true -> roomy bs j s') /\
    (model s = ZBD_NONE -> (forall z, zone_info s !! j = Some z -> bs <= z_capacity z) -> ok = true)) s.
Proof.
  intros I Hl Hrd Hcnt Hbs H511. unfold write_reset.
  steps; eapply post_mono; [apply (mark_spec (hold h j)); [done|done|by apply Hrd|done]|]. cbn beta.
  intros _ s1 (I1 & Hl1 & T1 & C1).
  pose proof (tweaked_ready _ _ _ T1 Hrd) as Hrd1. pose proof Hrd1 as (R & Hoff & Hm1).
  destruct (range_zone f s1 j I1 R) as (z & Hz & Hw). destruct (zone_bounds f s1 j z (proj1 I1) Hz R) as [Hb He].
  steps. apply (post_mono _ (fun full s' => s' = s1 /\ (full = false ->
    u64 (z_wp z + bs) <= zbd_zone_capacity_end z))).
  { destruct (z_reset_zone z); [by steps|]. unfold zbd_zone_full. steps; [by apply bool_decide_eq_true|]. split;
      [done|]. rewrite Hw. cbn [andb]. rewrite bool_decide_eq_false. lia. }
  intros full s' [-> Hfull]. destruct full; cbn [negb].
  2:{ steps. specialize (Hfull eq_refl). split; [done|]. split; [done|]. split; [by apply T1|]. split;
        [done|]. split; [by intros H; apply Hm1|]. split; [|done]. intros _ z' Hz'.
      assert (z' = z) as -> by congruence.
      split; [rewrite He, wrapu_small in Hfull by lia; lia|]. intros u Hu.
      exact (room_not_filled f s1 j z bs u I1 Hz R Hbs Hfull Hu). }
  steps; [by rewrite Hverify|]. steps; eapply post_mono; [by apply (quiesce_spec f completes (hold h j))|]. cbn beta.
  intros _ s2 (I2 & Hl2 & S2 & E2 & D2 & [_ Hcl]).
  destruct (same_zone _ _ _ _ (symmetry S2) Hz) as (z2 & Hz2 & Ev). steps. set (s3 := set_zones _ s2).
  assert (I3 : inv s3) by (exact (inv_flag f s2 j z2 false I2 R Hz2)).
  assert (Hlk : forall i y, zone_info s3 !! i = Some y -> exists x, zone_info s2 !! i = Some x /\ still x y /\
    z_locks y = z_locks x).
  { intros i y Hy. destruct (lookup_one _ _ _ _ _ _ Hz2 Hy) as [[-> ->]|[_ Hy']]; [by exists z2|by exists y]. }
  assert (K3 : kept s2 s3).
  { constructor; try done. intros i y Hy. destruct (Hlk i y Hy) as (x & Hx & E & _). by exists x. }
  assert (Hl3 : locked (hold h j) s3). { apply (locked_ext (hold h j) s2);
    [done|done| |done]. intros i y Hy. destruct (Hlk i y Hy) as (x & Hx & _ & E). by exists x. }
  assert (Hop3 : max_open_zones s3 <> 0 -> is_open s3 j).
  { intros H. change (is_open s2 j). change (max_open_zones s2 <> 0) in H. rewrite (sm_max _ _ S2) in H. destruct
      (Hm1 H) as [A B]. by apply Hcl. }
  assert (K : kept s s3) by (etrans; [apply T1|]; etrans; [by apply same_kept|done]).
  assert (C3 : cnt_ok s3) by (by apply (same_cnt _ _ S2)).
  steps; eapply post_mono; [apply (reset_spec f reset_wp (hold h j)); [done|done|done|by intros u;
    change (flight s3) with (flight s2); rewrite E2; intros Hu; apply elem_of_nil in Hu]|].
  cbn beta. intros r s4 (I4 & Hl4 & K4 & E4 & W4 & Hop4 & Hwp4 & Hnone).
  assert (C4 : cnt_ok s4) by (unfold cnt_ok; rewrite W4; exact C3).
  assert (K' : kept s s4) by (by etrans). assert (Hop : max_open_zones s4 <> 0 ->
    is_open s4 j) by (rewrite (k_max _ _ K4); intros H; apply Hop4; auto).
  case_decide as Hr.
  { steps. do 5 (split; [done|]). split; [done|]. intros Hm _. assert (0 <= r);
      [|lia]. apply Hnone. change (model s3) with (model s2). by rewrite (sm_model _ _ S2), (k_model _ _ (proj1 T1)).
    }
  destruct (range_zone f s4 j I4 R) as (z4 & Hz4 & Hw4). steps. do 5 (split; [done|]). split.
  2:{ intros _ Hcap. destruct (k_zone _ _ K' _ _ Hz4) as (y & Hy & _ & A & _). apply bool_decide_eq_true. rewrite A.
        by apply Hcap. }
  intros Hcap z' Hz'. apply bool_decide_eq_true in Hcap.
  assert (z' = z4) as -> by congruence. rewrite (Hwp4 ltac:(lia) z4 Hz4). split; [lia|]. rewrite E4.
  change (flight s3) with (flight s2). rewrite E2. intros u Hu. by apply elem_of_nil in Hu.
Qed.

(** ** An accepted write *)

(** Where unit [u] has been placed in zone [j]: at its pointer, a positive number of blocks, within its
    capacity. *)
Definition placed (bs : Z) (u : io_u) (j : nat) (s : zoned_block_device_info) : Prop :=
  exists z, zone_info s !! j = Some z /\ z_has_wp z = true /\ offline z = false /\ range j /\ zidx s (offset u) = j /\
    offset u = z_wp z /\ 0 < buflen u /\ (bs | buflen u) /\ offset u + buflen u <= z_start z + z_capacity z /\
    (max_open_zones s <> 0 -> is_open s j) /\ forall v, v ∈ flight s -> ~ fills s v j.

(** A device that fio makes up without a limit on open zones, online, and a write of a block at least and
    a zone at most. *)
Definition plain (bs : Z) (u : io_u) (s : zoned_block_device_info) : Prop :=
  max_open_zones s = 0 /\ model s = ZBD_NONE /\ bs <= buflen u <= zone_size s /\ forall i z, range i -> zone_info s !! i = Some z -> offline z = false /\ bs <= z_capacity z.

Lemma plain_same bs u s s' : same s s' -> plain bs u s -> plain bs u s'.
Proof.
  intros S (H1 & H2 & H3 & H4). split; [by rewrite (sm_max _ _ S)|]. split; [by rewrite (sm_model _ _ S)|].
  split; [by rewrite (sm_size _ _ S)|].
  intros i z R Hz. destruct (same_zone _ _ _ _ S Hz) as (y & Hy & (_ & _ & A & B & _)%view_fields). rewrite A.
  unfold offline. rewrite B. by apply (H4 i).
Qed.

(** A plain write is accepted; others may find no zone. *)
Definition adjusted (h : nat -> nat) (bs : Z) (u : io_u) (s : zoned_block_device_info) (r : io_u_action * io_u) (s' : zoned_block_device_info) : Prop :=
  inv s' /\ kept s s' /\ cnt_ok s' /\
  match r.1 with
  | io_u_completed => False
  | io_u_eof => locked h s' /\ ~ plain bs u s
  | io_u_accept => exists j, locked (hold h j) s' /\ placed bs r.2 j s' /\ ddir r.2 = ddir u /\ put_io r.2 = true /\ buflen r.2 <= buflen u
  end.

Lemma eof_spec h bs u v j s s' : inv s' -> kept s s' -> cnt_ok s' -> locked (hold h j) s' -> range j ->
  ~ plain bs u s -> post (eof (Some j) v) (adjusted h bs u s) s'.
Proof.
  intros I K C Hl R Hpl. destruct (range_zone f s' j I R) as (z & Hz & Hw). unfold eof. steps. rewrite Hw.
  cbn [when_]. steps; eapply post_mono; [by apply (unlock_spec f)|]. cbn beta. intros _ s2 (Hc & I2 & Hl2). steps.
  pose proof (core_same _ _ Hc) as S. split; [done|]. split; [etrans; [done|by apply same_kept]|].
  split; [by eapply same_cnt|done].
Qed.

Lemma open_unlimited i z s : zone_info s !! i = Some z -> offline z = false -> max_open_zones s = 0 ->
  zbd_open_zone o i s = Some (true, s).
Proof. intros Hz Ho Hm. unfold zbd_open_zone, mbind, zm_bind, zbd_get_zone, get. rewrite Hz. cbn [mbind option_bind].
  rewrite Ho, Hverify. cbn. by rewrite decide_True. Qed.

Lemma write_zone_spec h j u s : inv s -> locked (hold h j) s -> range j -> 0 <= offset u < 2 ^ 64 ->
  is_valid_offset f (offset u) = true -> 0 < min_bs o (ddir u) < 2 ^ 63 ->
  post (write_zone completes o f j u) (fun r s' => waited f s s' /\ ddir r.2 = ddir u /\ buflen r.2 = buflen u /\
    put_io r.2 = put_io u /\
    match r.1 with None => locked h s' /\ ~ plain (min_bs o (ddir u)) u s | Some i => ready i s' /\
      locked (hold h i) s' end) s.
Proof.
  intros I Hl R Ho Hv Hbs. destruct (range_zone f s j I R) as (zj & Hzj & _). unfold write_zone.
  steps; eapply post_mono; [apply post_eq, (open_spec o f (hold h j)); [done|done|done|by rewrite Hverify]|].
  cbn beta. intros b s1 ((I1 & Hl1 & S1 & E1 & D1 & Hb) & Eb).
  assert (W1 : waited f s s1) by (split; [done|]; split; [done|]; split; [done|by left]). destruct b.
  - steps. cbn [fst snd]. repeat (split; [done|]). split; [|done]. destruct (Hb eq_refl) as [Hoff Hm].
    split; [done|]. split; [done|]. rewrite (sm_max _ _ S1). intros H. destruct (Hm H) as [A B]. split; [done|].
    rewrite E1. intros v Hvf Hf. apply (B v Hvf). by eapply same_fills.
  - steps; eapply post_mono; [by apply (unlock_spec f)|]. cbn beta. intros _ s2 (Hc2 & I2 & Hl2).
    steps; eapply post_mono; [by apply (convert_spec completes Hcompletes o f Hverify h u s2)|]. cbn beta.
    intros [r v] s3 (W3 & Hr). cbn [fst snd] in *.
    assert (W : waited f s s3) by (eapply waited_trans; [exact W1|]; eapply waited_trans;
      [by apply core_waited|done]).
    split; [done|]. destruct r as [i|].
    + destruct Hr as (Hrd & Hli & z & Hz & ->). done.
    + destruct Hr as (Hl3 & ->). do 4 (split; [done|]). intros (Hm & _ & _ & Hz).
      destruct (Hz j zj R Hzj) as [Hoff _]. by rewrite (open_unlimited j zj s Hzj Hoff Hm) in Eb.
Qed.

Lemma valid_wp s i z bs : layout f s -> range i -> zone_info s !! i = Some z -> 0 < bs ->
  z_wp z + bs <= z_start z + z_capacity z -> is_valid_offset f (z_wp z) = true.
Proof.
  intros L R Hz Hbs Hfit. destruct (zone_bounds f s i z L Hz R) as [Hb _]. pose proof (l_start _ _ L _ _ Hz) as Hs.
  pose proof (l_range _ _ L). pose proof (l_size _ _ L). unfold ZbdProofs.range in R.
  apply (valid_offset f s); [done|lia|].
  rewrite (l_offset _ _ L), (l_io _ _ L), <- Z.mul_add_distr_r.
  replace (Z.of_nat (min_zone f) + Z.of_nat (max_zone f - min_zone f)) with (Z.of_nat (max_zone f)) by lia.
  assert (Z.of_nat (min_zone f) * zone_size s <= Z.of_nat i * zone_size s) by (apply Z.mul_le_mono_nonneg_r; lia).
  assert ((Z.of_nat i + 1) * zone_size s <= Z.of_nat (max_zone f) * zone_size s) by (apply Z.mul_le_mono_nonneg_r;
    lia). lia.
Qed.

Lemma adjust_write_spec h j u s : inv s -> locked (hold h j) s -> range j -> cnt_ok s -> 0 <= offset u < 2 ^ 64 ->
  is_valid_offset f (offset u) = true -> 0 < buflen u -> put_io u = false ->
  0 < min_bs o (ddir u) < 2 ^ 63 -> Z.land (min_bs o (ddir u)) 511 = 0 ->
  post (adjust_write reset_wp completes o f j u) (adjusted h (min_bs o (ddir u)) u s) s.
Proof.
  intros I Hl R C Ho Hv Hlen Hp Hbs H511. unfold adjust_write. set (bs := min_bs o (ddir u)) in *. steps.
  case_decide; [apply (eof_spec h); try done; intros (_ & _ & Hsz & _); lia|].
  steps; eapply post_mono; [by apply (write_zone_spec h)|]. cbn beta. intros [r v] s1 (W1 & Ed & El & Ep & Hr).
  cbn [fst snd] in *. pose proof W1 as (I1 & S1 & _). assert (C1 : cnt_ok s1) by (by eapply same_cnt).
  destruct r as [i|]; [|unfold eof; steps; split; [done|]; split; [by apply same_kept|]; split; [done|apply Hr]].
  destruct Hr as (Hrd & Hli). pose proof Hrd as (Ri & Hoff & _).
  steps; eapply post_mono; [by apply (write_reset_spec h i bs)|]. cbn beta.
  intros ok s2 (I2 & Hl2 & K2 & C2 & Hop2 & Hroom & Hok).
  assert (K : kept s s2) by (etrans; [by apply same_kept|done]).
  destruct ok; cbn [negb].
  2:{ apply (eof_spec h); try done. intros (_ & Hm & _ & Hcap). assert (false = true); [|done]. apply Hok;
        [by rewrite (sm_model _ _ S1)|]. intros y Hy.
      destruct (same_zone _ _ _ _ S1 Hy) as (x & Hx & (A1 & A2 & A3 & _)%view_fields). rewrite A3. by apply (Hcap i).
      }
  destruct (range_zone f s2 i I2 Ri) as (z & Hz & Hw). destruct (Hroom eq_refl z Hz) as [Hwp Hnf].
  destruct (zone_bounds f s2 i z (proj1 I2) Hz Ri) as [Hb He].
  assert (Hoff2 : offline z = false) by exact (kept_offline s1 s2 i K2 Hoff z Hz).
  assert (Hfl : bool_decide (u64 (z_wp z + bs) > zbd_zone_capacity_end z) = false) by (rewrite He,
    wrapu_small by lia; apply bool_decide_eq_false; lia).
  unfold zbd_zone_full. steps; [by apply bool_decide_eq_true|by rewrite Hfl, andb_false_r|].
  assert (Hvo : is_valid_offset f (z_wp z) = true) by (apply (valid_wp s2 i z bs); [apply I2|done|done|lia|lia]).
  cbn [offset set_offset]. rewrite Hvo. cbn [negb].
  cbn [buflen offset set_offset]. rewrite He, El. rewrite (wrapu_small 64) by lia.
  set (m := Z.min (buflen u) (z_start z + z_capacity z - z_wp z)).
  assert (Hm : bs * (m / bs) <= m < bs * (m / bs) + bs) by (pose proof (Z.div_mod m bs ltac:(lia));
    pose proof (Z.mod_pos_bound m bs ltac:(lia)); lia).
  rewrite (Z.mul_comm (m / bs) bs). set (len := bs * (m / bs)) in *.
  assert (Hdiv : (bs | len)) by (exists (m / bs); unfold len; ring).
  assert (Hacc : forall w, ddir w = ddir u -> offset w = z_wp z -> buflen w = len -> put_io w = false -> 0 < len ->
    post (accept i w) (adjusted h bs u s) s2).
  { intros w Hw1 Hw2 Hw3 Hw4 Hpos. unfold accept. steps; [done|by rewrite Hoff2|by rewrite Hw4|]. split;
      [done|]. split; [done|]. split; [done|]. cbn [fst snd]. exists i. split; [done|].
    split; [|split; [done|split; [done|cbn; lia]]].
    exists z. cbn [offset buflen]. rewrite Hw2, Hw3. split; [done|]. split; [done|]. split; [done|]. split; [done|].
    split; [|split; [done|split; [lia|split; [done|split; [lia|done]]]]].
    pose proof (l_start _ _ (proj1 I2) _ _ Hz) as Hs. pose proof (l_range _ _ (proj1 I2)).
    unfold ZbdProofs.range in Ri. apply (zone_idx_of f); [by apply I2|lia|lia]. }
  destruct (decide (len = buflen u)) as [Heq|_]; [apply Hacc; [done|done|cbn; lia|by cbn; rewrite Ep|lia]|].
  destruct (decide (len >= bs)) as [Hge|Hlt]; [apply Hacc; [done|done|done|by cbn; rewrite Ep|lia]|].
  apply (eof_spec h); try done. intros (_ & _ & Hge & _). assert (bs <= m) by lia.
  assert (1 <= m / bs) by (apply Z.div_le_lower_bound; lia).
  assert (bs * 1 <= len) by (apply Z.mul_le_mono_nonneg_l; lia). lia.
Qed.
End writes.

(** ** Zoned block devices: runs

    Queueing, reads and completions, and the invariant along every run. *)

Section queue.
Context (o : zbd_opts) (f : fio_file).

Notation zidx := zbd_offset_to_zone_idx.
Notation range := (range f).
Notation inv := (inv f).
Notation placed := (placed f).

(** A unit goes into flight. *)
Lemma inv_fly r d s u : inv s -> (put_io u = true -> range (zidx s (offset u))) ->
  (forall i z, fills s u i -> zone_info s !! i = Some z -> z_wp z = z_start z + z_capacity z /\
    (max_open_zones s <> 0 -> z_open z = true)) ->
  (forall i v, fills s u i -> v ∈ flight s -> ~ fills s v i) -> inv (set_td r (flight s ++ [u]) d s).
Proof.
  intros (L & O & C & F) R Hfull Hone. split; [by destruct L|]. split; [by destruct O|]. split; [done|]. destruct F.
  constructor; cbn [flight set_td].
  - intros v Hv. apply elem_of_app in Hv as [Hv|Hv]; [by apply f_range|]. apply list_elem_of_singleton in Hv as ->.
    done.
  - intros v i z Hv. apply elem_of_app in Hv as [Hv|Hv]; [by apply f_full|].
    apply list_elem_of_singleton in Hv as ->. by apply Hfull.
  - intros j k v w i Hj Hk Hv Hw. apply lookup_app_Some in Hj as [Hj|[Hlj Hj]];
      apply lookup_app_Some in Hk as [Hk|[Hlk Hk]].
    + by eapply f_one.
    + apply list_lookup_singleton_Some in Hk as [Hk ->]. exfalso. eapply (Hone i v); [exact Hw| |exact Hv].
      by eapply list_elem_of_lookup_2.
    + apply list_lookup_singleton_Some in Hj as [Hj ->]. exfalso. eapply (Hone i w); [exact Hv| |exact Hw].
      by eapply list_elem_of_lookup_2.
    + apply list_lookup_singleton_Some in Hj as [Hj _]. apply list_lookup_singleton_Some in Hk as [Hk _]. lia.
Qed.

Lemma locked_fly h r d s u : locked (hold_unit h s u) s -> locked h (set_td r (flight s ++ [u]) d s).
Proof.
  intros Hl i z Hz. rewrite (Hl i z Hz : z_locks z = _). cbn [flight set_td].
  change (holds (set_td r (flight s ++ [u]) d s) (flight s ++ [u]) i) with (holds s (flight s ++ [u]) i).
  unfold holds, hold_unit. rewrite filter_app, length_app. rewrite filter_cons, filter_nil.
  destruct (put_io u) eqn:Hp.
  - unfold hold. destruct (decide (i = zidx s (offset u))) as [->|Hne].
    + rewrite decide_True by done. cbn [length]. lia.
    + rewrite decide_False by naive_solver. cbn [length]. lia.
  - rewrite decide_False by naive_solver. cbn [length]. lia.
Qed.

(** A unit that was placed or read, on its way into flight, after what [td_io_queue] has done to it. *)
Definition landed (h : nat -> nat) (s s' : zoned_block_device_info) : Prop := inv s' /\ locked h s' /\ kept s s' /\ write_cnt s' = write_cnt s.

(** The end of [zbd_queue_io_u]: the unit has its place in state [s1], and the lock of its zone [j]. *)
Lemma finish_spec h s s1 u j q (ok : bool) :
  inv s1 -> locked (hold h j) s1 -> kept s s1 -> write_cnt s1 = write_cnt s -> range j -> put_io u = true ->
    zidx s1 (offset u) = j ->
  (ok = true -> q = FIO_Q_QUEUED -> forall z, fills s1 u j -> zone_info s1 !! j = Some z ->
    z_wp z = z_start z + z_capacity z /\ (max_open_zones s1 <> 0 -> z_open z = true)) ->
  (fills s1 u j -> forall v, v ∈ flight s1 -> ~ fills s1 v j) ->
  post (if decide (ok = false \/ q <> FIO_Q_QUEUED) then zone_unlock j ;;
    mret (IoU (ddir u) (offset u) (buflen u) false) else mret u)
    (fun u => post (when_ (bool_decide (q = FIO_Q_QUEUED)) (s ← get;
      upd (set_td (nr_zone_resets s) (flight s ++ [u]) (dev s)))) (fun _ => landed h s)) s1.
Proof.
  intros I Hl K W R Hp Hj Hfull Hone. case_decide as Hd.
  - steps; eapply post_mono; [by apply (unlock_spec f)|]. cbn beta. intros _ s2 (Hc & I2 & Hl2).
    assert (K2 : kept s s2) by (etrans; [exact K|by apply same_kept, core_same]).
    assert (W2 : write_cnt s2 = write_cnt s) by (apply core_fields in Hc; intuition congruence). steps.
    case_bool_decide; cbn [when_]; steps; [|done]. split; [|split; [by apply locked_fly|split; [|done]]].
    + apply inv_fly; [done|done| |]; intros i ? (Hf & _); done.
    + constructor; apply K2.
  - steps. rewrite bool_decide_true by (destruct (decide (q = FIO_Q_QUEUED)); tauto). cbn [when_]. steps.
    assert (Hok : ok = true) by (destruct ok; tauto). split; [|split; [|split; [|done]]].
    + apply inv_fly; [done|by rewrite Hj| |].
      * intros i z Hf Hz. assert (i = j) as -> by (destruct Hf as (_ & _ & E & _); congruence).
        apply Hfull; try done. destruct (decide (q = FIO_Q_QUEUED)); tauto.
      * intros i v Hf. assert (i = j) as -> by (destruct Hf as (_ & _ & E & _); congruence). by apply Hone.
    + apply locked_fly. unfold hold_unit. by rewrite Hp, Hj.
    + constructor; apply K.
Qed.

(** ** Queueing a write *)

(** After the pointer has moved past the unit. *)
Lemma advance_spec h bs u j z s : inv s -> locked h s -> placed bs u j s -> zone_info s !! j = Some z ->
  let z' := set_wp (offset u + buflen u) z in
  let s' := set_zones (<[j := z']> (zone_info s)) (set_swd (u64 (sectors_with_data s + (offset u + buflen u - z_wp
    z))) (u64 (wp_sectors_with_data s + (offset u + buflen u - z_wp z))) s) in
  inv s' /\ locked h s' /\ kept s s' /\ (forall v, v ∈ flight s' -> ~ fills s' v j) /\ (max_open_zones s' <> 0 ->
    is_open s' j).
Proof.
  intros I Hl (z0 & Hz0 & Hw & Hoff & R & Hi & Ewp & Hlen & Hdiv & Hcap & Hop & Hnf) Hz.
  assert (z0 = z) as -> by congruence. cbn zeta. set (z' := set_wp _ z).
  pose proof I as (L & O & [C1 C2] & F). destruct (zone_bounds f s j z L Hz R) as [Hb _].
  destruct (total_bounds f s L) as [Ht _].
  rewrite C1, C2. rewrite (wrapu_small 64) by lia. set (s' := set_zones _ _).
  assert (Hlk : forall i y, zone_info s' !! i = Some y -> exists x, zone_info s !! i = Some x /\ still x y /\
    z_locks y = z_locks x).
  { intros i y Hy. destruct (lookup_one _ _ _ _ _ _ Hz Hy) as [[-> ->]|[_ Hy']]; [by exists z|by exists y]. }
  assert (K : kept s s').
  { constructor; try done. intros i y Hy. destruct (Hlk i y Hy) as (x & Hx & E & _). by exists x. }
  split; [|split; [|split; [done|split; [|exact Hop]]]].
  - apply (inv_move f s j z z' (offset u + buflen u) I R Hz); try done; [lia|]. intros v Hv Hf. by apply Hnf in Hf.
  - apply (locked_ext h s); [done|done| |done]. intros i y Hy. destruct (Hlk i y Hy) as (x & Hx & _ & E). by exists x.
  - intros v Hv Hf. apply (Hnf v Hv). by eapply kept_fills.
Qed.

Lemma queue_write_spec h bs u j q err s : inv s -> locked (hold h j) s -> placed bs u j s -> put_io u = true ->
  ddir u = DDIR_WRITE ->
  post (zbd_queue_io_u u q err) (fun _ => landed h s) s.
Proof.
  intros I Hl P Hp Hd. pose proof P as (z & Hz & Hw & Hoff & R & Hi & Ewp & Hlen & Hdiv & Hcap & Hop & Hnf).
  destruct (zone_bounds f s j z (proj1 I) Hz R) as [Hb He].
  unfold zbd_queue_io_u, zbd_queue_io. rewrite Hp. steps. rewrite Hi. steps; [done|].
  case_bool_decide as Herr; cbn [when_].
  2:{ steps. by apply (finish_spec h s). }
  rewrite (bool_decide_true (ddir u = DDIR_WRITE)) by done. cbn [when_]. steps.
  rewrite (wrapu_small 64 (offset u + buflen u)) by lia. rewrite He, Z.min_l by lia.
  rewrite (bool_decide_true (z_wp z <= offset u + buflen u)) by lia. cbn [when_]. steps.
  set (s1 := set_zones _ _). set (z1 := set_wp (offset u + buflen u) z).
  assert (Hadv : inv s1 /\ locked (hold h j) s1 /\ kept s s1 /\ (forall v, v ∈ flight s1 -> ~ fills s1 v j) /\
    (max_open_zones s1 <> 0 -> is_open s1 j)) by exact (advance_spec (hold h j) bs u j z s I Hl P Hz).
  destruct Hadv as (I1 & Hl1 & K1 & Hnf1 & Hop1).
  assert (Hz1 : zone_info s1 !! j = Some z1) by (apply list_lookup_insert_eq; by eapply lookup_lt_Some).
  assert (Hfill : true = true -> q = FIO_Q_QUEUED -> forall z', fills s1 u j -> zone_info s1 !! j = Some z' ->
    z_wp z' = z_start z' + z_capacity z' /\ (max_open_zones s1 <> 0 -> z_open z' = true)).
  { intros _ _ z' (_ & _ & _ & y & Hy & Hge) Hz'. assert (z' = z1) as -> by congruence. assert (y = z1) as ->
      by congruence. destruct (zone_bounds f s1 j z1 (proj1 I1) Hz1 R) as [_ He1].
    rewrite He1, wrapu_small in Hge by lia. cbn in Hge |- *.
    split; [lia|]. intros Hm. by apply (o_iff _ _ (proj1 (proj2 I1)) j z1 Hz1), Hop1. }
  case_bool_decide as Hq; cbn [when_]; [|steps; by apply (finish_spec h s s1 u j q true)].
  unfold zbd_end_zone_io. steps. case_decide as Hend; [|steps; by apply (finish_spec h s s1 u j q true)].
  steps; eapply post_mono; [by apply (close_spec f (hold h j))|]. cbn beta. intros _ s2 (I2 & Hl2 & S2 & E2 & _ & _).
  apply (finish_spec h s s2 u j q true); try done.
  - etrans; [exact K1|by apply same_kept].
  - rewrite (sm_cnt _ _ S2). done.
  - by rewrite (same_zidx _ _ _ S2).
  - rewrite Hq. done.
  - rewrite E2. intros _ v Hv Hf. apply (Hnf1 v Hv). by eapply same_fills.
Qed.

(** ** Reads *)

(** A read inside the data of zone [j]. *)
Definition readable (u : io_u) (j : nat) (s : zoned_block_device_info) : Prop :=
  exists z, zone_info s !! j = Some z /\ z_has_wp z = true /\ offline z = false /\ range j /\ zidx s (offset u) = j /\ z_start z <= offset u /\ offset u + buflen u <= z_wp z.

Lemma zone_queue_read_spec h u j q err s : inv s -> locked (hold h j) s -> readable u j s -> put_io u = true ->
  ddir u = DDIR_READ ->
  post (zbd_queue_io_u u q err) (fun _ => landed h s) s.
Proof.
  intros I Hl (z & Hz & Hw & Hoff & R & Hi & H1 & H2) Hp Hd. unfold zbd_queue_io_u, zbd_queue_io. rewrite Hp. steps.
  rewrite Hi. steps; [done|].
  assert (Hnf : forall i, ~ fills s u i) by (intros i (_ & Hwr & _); congruence).
  assert (Hfin : forall ok : bool, post (if decide (ok = false \/ q <> FIO_Q_QUEUED) then zone_unlock j ;;
    mret (IoU (ddir u) (offset u) (buflen u) false) else mret u)
    (fun u => post (when_ (bool_decide (q = FIO_Q_QUEUED)) (s ← get;
      upd (set_td (nr_zone_resets s) (flight s ++ [u]) (dev s)))) (fun _ => landed h s)) s).
  { intros ok. apply (finish_spec h s); try done; [by intros _ _ z' Hf; apply Hnf in Hf|by intros Hf;
      apply Hnf in Hf]. }
  generalize (bool_decide (err = 0)). intros ok. specialize (Hfin ok).
  destruct ok; cbn [when_]; [|steps; exact Hfin]. rewrite (bool_decide_false (ddir u = DDIR_WRITE)) by congruence.
  cbn [when_]. steps.
  destruct (bool_decide (q = FIO_Q_COMPLETED)); cbn [when_]; [|steps; exact Hfin]. unfold zbd_end_zone_io. steps.
  rewrite decide_False by (intros [? _]; congruence). steps. exact Hfin.
Qed.

Lemma probe_spec h i mb s : inv s -> locked h s -> range i -> 0 <= mb < 2 ^ 63 ->
  post (probe f i mb) (fun b s' => core s = core s' /\ inv s' /\ if b : bool then locked (hold h i) s' /\ forall z,
    zone_info s' !! i = Some z -> z_start z + mb <= z_wp z else locked h s') s.
Proof.
  intros I Hl R Hmb. destruct (range_zone f s i I R) as (z & Hz & Hw).
  destruct (zone_bounds f s i z (proj1 I) Hz R) as [Hb _]. unfold probe. steps. rewrite Hw. cbn [when_].
  steps; eapply post_mono; [by apply (lock_spec f h i)|].
  cbn beta. intros _ s1 (Hc1 & I1 & Hl1). rewrite wrapu_small by lia. case_decide as Hd.
  - steps. split; [done|]. split; [done|]. split; [done|]. intros z' Hz'.
    destruct (core_zone s1 s i z' (eq_sym Hc1) Hz') as (y & Hy & Ey). assert (y = z) as -> by congruence.
    apply set_locks_fields in Ey as (A1 & A2 & _). lia.
  - cbn [when_]. steps; eapply post_mono; [by apply (unlock_spec f)|]. cbn beta. intros _ s2 (Hc2 & I2 & Hl2). steps.
    split; [congruence|]. done.
Qed.

Definition found (h : nat -> nat) (mb : Z) (s : zoned_block_device_info) (r : option nat) (s' : zoned_block_device_info) : Prop :=
  core s = core s' /\ inv s' /\
  match r with
  | None => locked h s'
  | Some j => range j /\ locked (hold h j) s' /\ forall z, zone_info s' !! j = Some z -> offline z = false /\ z_start z + mb <= z_wp z
  end.

(** A zone to look at, unless it is offline; then it is probed. *)
Lemma online_spec i c (P : Prop) `{Decision P} s : inv s -> (P -> range i) ->
  post (if decide P then z ← zbd_get_zone i; mret (negb (offline z)) else mret c) (fun b s' => s' = s /\ (b = true ->
    (c = true /\ ~ P) \/ (P /\ forall z, zone_info s !! i = Some z -> offline z = false))) s.
Proof.
  intros I R. case_decide as HP; [|steps; split; [done|]; intros ->; by left].
  destruct (range_zone f s i I (R HP)) as (z & Hz & _). steps. split; [done|]. intros Hb. right. split; [done|].
  intros z' Hz'. assert (z' = z) as -> by congruence. by apply negb_true_iff in Hb.
Qed.

Lemma probe_online_spec h mb i (ok : bool) s : inv s -> locked h s -> (ok = true -> range i /\ forall z,
  zone_info s !! i = Some z -> offline z = false) -> 0 <= mb < 2 ^ 63 ->
  post (if ok then probe f i mb else mret false) (fun b s' => if b : bool then found h mb s (Some i) s' else found h
    mb s None s') s.
Proof.
  intros I Hl Hok Hmb. destruct ok; [|by steps]. destruct (Hok eq_refl) as [R Hoff].
  eapply post_mono; [by apply (probe_spec h)|]. cbn beta. intros b s1 (Hc1 & I1 & Hb). destruct b; [|by split].
  destruct Hb as [Hl1 Hz1]. split; [done|]. split; [done|]. split; [done|]. split; [done|]. intros z' Hz'.
  split; [|by apply Hz1].
  destruct (core_zone s1 s i z' (eq_sym Hc1) Hz') as (y & Hy & Ey).
  apply set_locks_fields in Ey as (_ & _ & _ & A & _). unfold offline in *. rewrite <- A. by apply Hoff.
Qed.

Lemma found_core h mb s s' r s'' : core s = core s' -> found h mb s' r s'' -> found h mb s r s''.
Proof. intros E (E' & H). split; [congruence|done]. Qed.

Lemma find_zone_loop_spec h mb n : forall k zb s, inv s -> locked h s -> range zb -> (1 <= k)%nat ->
  0 <= mb < 2 ^ 63 ->
  post (find_zone_loop o f n k zb (max_zone f) mb) (found h mb s) s.
Proof.
  induction n as [|n IH]; intros k zb s I Hl R Hk Hmb; cbn [find_zone_loop]; [by steps|].
  case_decide as Hend; [by steps|]. unfold ZbdProofs.range in R. steps.
  eapply post_mono; [apply (online_spec (zb + k) false); [done|unfold ZbdProofs.range; lia]|]. cbn beta.
  intros ok1 s' [-> Hok1]. destruct (negb ok1 && negb (td_random o)); [by steps|].
  steps; eapply post_mono; [apply (probe_online_spec h); [done|done| |done]|].
  { intros E. destruct (Hok1 E) as [[? _]|[Hlt Ho]]; [done|]. split; [unfold ZbdProofs.range; lia|done]. }
  cbn beta. intros b1 s1 Hf1. destruct b1; [by steps|]. destruct Hf1 as (Hc1 & I1 & Hl1). steps.
  eapply post_mono; [apply (online_spec (zb - k) false); [done|unfold ZbdProofs.range; lia]|]. cbn beta.
  intros ok2 s' [-> Hok2].
  steps; eapply post_mono; [apply (probe_online_spec h); [done|done| |done]|].
  { intros E. destruct (Hok2 E) as [[? _]|[Hlt Ho]]; [done|]. split; [unfold ZbdProofs.range; lia|done]. }
  cbn beta. intros b2 s2 Hf2. destruct b2; [steps; by eapply found_core|]. destruct Hf2 as (Hc2 & I2 & Hl2).
  eapply post_mono; [apply IH; [done|done|by unfold ZbdProofs.range|lia|done]|]. intros r s3 H3.
  by eapply found_core; [|eapply found_core].
Qed.

Lemma find_zone_spec h mb zb s : inv s -> locked h s -> range zb -> 0 <= mb < 2 ^ 63 ->
  post (zbd_find_zone o f mb zb (max_zone f)) (found h mb s) s.
Proof. intros I Hl R Hmb. unfold zbd_find_zone. steps. by apply find_zone_loop_spec. Qed.

(** An accepted read lies in the data of a zone, which is locked; nothing else changes. *)
Definition read_ok (h : nat -> nat) (u : io_u) (s : zoned_block_device_info) (r : io_u_action * io_u) (s' : zoned_block_device_info) : Prop :=
  core s = core s' /\ inv s' /\
  match r.1 with
  | io_u_completed => False
  | io_u_eof => locked h s'
  | io_u_accept => exists j, locked (hold h j) s' /\ readable r.2 j s' /\ ddir r.2 = ddir u /\ put_io r.2 = true /\ buflen r.2 <= buflen u
  end.

Lemma accept_read h u w j z s s' : core s = core s' -> inv s' -> locked (hold h j) s' ->
  zone_info s' !! j = Some z -> range j -> offline z = false ->
  z_start z <= offset w -> 0 <= buflen w <= buflen u -> offset w < z_start z + zone_size s' ->
    offset w + buflen w <= z_wp z -> ddir w = ddir u -> put_io w = false ->
  post (accept j w) (read_ok h u s) s'.
Proof.
  intros Hc I Hl Hz R Hoff H1 H2 H3 H4 Hd Hp. assert (Hw : z_has_wp z = true) by (by eapply (l_seq _ _ (proj1 I))).
  unfold accept. steps; [done|by rewrite Hoff|by rewrite Hp|]. split; [done|]. split; [done|]. cbn [fst snd].
  exists j.
  split; [done|]. split; [|split; [done|split; [done|cbn; lia]]]. exists z. cbn [offset buflen].
  repeat (split; [done|]). split; [|lia].
  pose proof (l_start _ _ (proj1 I) _ _ Hz). pose proof (l_range _ _ (proj1 I)). unfold ZbdProofs.range in R.
  apply (zone_idx_of f); [by apply I|lia|lia].
Qed.

(** The end of a read: it is cut to the data of the zone. *)
Lemma cut_read_spec h bs u w j z s s' : core s = core s' -> inv s' -> locked (hold h j) s' ->
  zone_info s' !! j = Some z -> range j -> offline z = false -> 0 < bs ->
  z_start z <= offset w -> offset w < z_wp z -> 0 < buflen w -> buflen w = buflen u -> ddir w = ddir u ->
    put_io w = false ->
  post (let new_len := Z.min (buflen w) (u64 (z_wp z - offset w)) / bs * bs in
        let w := if decide (new_len < buflen w) then set_buflen new_len w else w in
        assert_ (bool_decide (z_start z <= offset w)) ;; assert_ (bool_decide (u64 (offset w + buflen w) <= z_wp z))
          ;; accept j w) (read_ok h u s) s'.
Proof.
  intros Hc I Hl Hz R Hoff Hbs H1 H2 Hlen El Ed Hp. destruct (zone_bounds f s' j z (proj1 I) Hz R) as [Hb _].
  cbn zeta. rewrite (wrapu_small 64 (z_wp z - offset w)) by lia. set (m := Z.min _ _).
  assert (Hm : 0 <= m / bs * bs <= m).
  { pose proof (Z.div_mod m bs ltac:(lia)). pose proof (Z.mod_pos_bound m bs ltac:(lia)). pose proof (Z.div_pos m bs
    ltac:(lia) ltac:(lia)). split; [apply Z.mul_nonneg_nonneg; lia|lia]. }
  set (w' := if decide _ then _ else _). assert (Ew : offset w' = offset w /\ 0 <= buflen w' <= m /\
    ddir w' = ddir w /\ put_io w' = put_io w).
  { unfold w'. destruct (decide _); cbn; [repeat split; lia|]. assert (m <= buflen w) by lia. repeat split; lia. }
  destruct Ew as (E1 & E2 & E3 & E4). rewrite E1.
  steps; [by apply bool_decide_eq_true|rewrite wrapu_small by lia; apply bool_decide_eq_true; lia|].
  apply (accept_read h u w' j z); try done; [lia|lia|lia|lia|congruence|congruence].
Qed.

Lemma adjust_read_spec completes h j u s : verifying o && td_write o = false -> inv s -> locked (hold h j) s ->
  range j -> Z.of_nat j * zone_size s <= offset u < (Z.of_nat j + 1) * zone_size s ->
  0 < min_bs o (ddir u) < 2 ^ 62 -> 0 < buflen u < 2 ^ 62 -> put_io u = false ->
    post (adjust_read completes o f j u) (read_ok h u s) s.
Proof.
  intros Hver I Hl R Ho Hbs Hlen Hp. unfold adjust_read. set (bs := min_bs o (ddir u)) in *. rewrite Hver.
  destruct (range_zone f s j I R) as (z & Hz & Hw). destruct (zone_bounds f s j z (proj1 I) Hz R) as [Hb _].
  pose proof (l_start _ _ (proj1 I) _ _ Hz) as Hs. steps. rewrite (wrapu_small 64 (z_wp z - z_start z)) by lia.
  set (rg := if offline z then 0 else z_wp z - z_start z).
  apply (post_mono _ (fun r s' => core s = core s' /\ inv s' /\ match r with
    | None => locked h s'
    | Some (i, rg, w) => range i /\ locked (hold h i) s' /\ exists y, zone_info s' !! i = Some y /\
      offline y = false /\ rg = z_wp y - z_start y /\ bs <= rg /\ ddir w = ddir u /\ buflen w = buflen u /\
      put_io w = false /\
        (if td_random o then offset w = offset u else z_start y <= offset w /\ offset w + bs <= z_wp y) end)).
  { case_decide as Hfind.
    - steps; eapply post_mono; [by apply (unlock_spec f)|]. cbn beta. intros _ s1 (Hc1 & I1 & Hl1).
      steps; eapply post_mono; [apply (find_zone_spec h); [done|done|done|lia]|]. cbn beta.
      intros r s2 (Hc2 & I2 & Hr).
      destruct r as [i|]; [|steps; split; [congruence|done]]. destruct Hr as (Ri & Hli & Hzi).
      destruct (range_zone f s2 i I2 Ri) as (y & Hy & Hwy). destruct (Hzi y Hy) as [Hoff Hd].
      destruct (zone_bounds f s2 i y (proj1 I2) Hy Ri) as [Hby _].
      steps; [apply bool_decide_eq_true; rewrite wrapu_small; lia|]. rewrite (wrapu_small 64) by lia.
      split; [congruence|]. split; [done|]. split; [done|]. split; [done|]. exists y. repeat (split; [done|]).
      split; [lia|].
      destruct (td_random o); cbn; [done|]. repeat (split; [done|]). lia.
    - steps. split; [done|]. split; [done|]. split; [done|]. split; [done|]. exists z.
      rewrite (wrapu_small 64 (offset u + bs)) in Hfind by lia.
      assert (Hoff : offline z = false) by (destruct (offline z); [exfalso; apply Hfind; left; unfold rg; lia|done]).
      unfold rg in *. rewrite Hoff in *. repeat (split; [done|]). split; [lia|]. repeat (split; [done|]).
      destruct (td_random o); [done|]. split; [lia|]. assert (~ offset u + bs > z_wp z) by tauto. lia. }
  cbn beta. intros r s1 (Hc1 & I1 & Hr). destruct r as [[[i rg'] w]|]; [|unfold eof; by steps].
  destruct Hr as (Ri & Hli & y & Hy & Hoff & -> & Hrg & Ed & El & Ep & How).
  destruct (zone_bounds f s1 i y (proj1 I1) Hy Ri) as [Hby _].
  assert (Hwy : z_has_wp y = true) by (by eapply (l_seq _ _ (proj1 I1))). steps. rewrite Hwy. cbn [negb].
  match goal with |- context [if decide (z_wp y - z_start y <= buflen w) then ?a else ?b] => set (w' := if decide
    (z_wp y - z_start y <= buflen w) then a else b) end.
  assert (Hw' : z_start y <= offset w' /\ offset w' < z_wp y /\ buflen w' = buflen u /\ ddir w' = ddir u /\
    put_io w' = false).
  { unfold w'. destruct (decide _) as [Hle|Hgt]; [cbn; repeat (split; [lia || done|]);
      done|]. destruct (td_random o); [|cbn; repeat (split; [lia || done|]); done].
    cbn. rewrite How. rewrite (wrapu_small 64 (offset u - z_start z)) by lia.
    set (n := z_wp y - z_start y - buflen w) in *.
    pose proof (Z.mod_pos_bound (offset u - z_start z) n ltac:(lia)) as Hm.
    set (x := (offset u - z_start z) mod n) in *. pose proof (Z.div_mod x bs ltac:(lia)).
    pose proof (Z.mod_pos_bound x bs ltac:(lia)). pose proof (Z.div_pos x bs ltac:(lia) ltac:(lia)).
    assert (0 <= x / bs * bs) by (apply Z.mul_nonneg_nonneg; lia). rewrite wrapu_small by lia.
    repeat (split; [lia || done|]). done. }
  destruct Hw' as (H1 & H2 & H3 & H4 & H5). by apply (cut_read_spec h bs u w' i y s s1); try done; lia.
Qed.
End queue.

(** ** Zoned block devices: no run goes wrong

    A job that writes and reads sequential zones of a device it has for itself keeps the invariant along every run. *)

(** What a job may do: give a unit to the device, which answers with a status and an error; learn that
    the [k]-th unit in flight has completed; wait for all of them. *)
Inductive zop := Issue (u : io_u) (q : fio_q_status) (error : Z) | Complete (k : nat) | Wait.

Section run.
Context (reset_wp : nat -> Z -> Z -> Z) (completes : list io_u -> list io_u) (o : zbd_opts) (f : fio_file).

Definition exec (op : zop) : zm unit :=
  match op with
  | Issue u q error =>
      '(a, u) ← zbd_adjust_block reset_wp completes o f u;
      when_ (bool_decide (a = io_u_accept)) (zbd_queue_io_u u q error)
  | Complete k =>
      s ← get;
      match flight s !! k with
      | Some u => upd (set_td (nr_zone_resets s) (delete k (flight s)) (dev s)) ;; zbd_put_io_u u
      | None => mret tt
      end
  | Wait => io_u_quiesce completes
  end.

Fixpoint run (ops : list zop) : zm unit := match ops with [] => mret tt | op :: ops' => exec op ;; run ops' end.

(** A unit as [fill_io_u] makes it. *)
Definition fresh (u : io_u) : Prop :=
  (ddir u = DDIR_WRITE \/ ddir u = DDIR_READ) /\ 0 <= offset u < 2 ^ 64 /\ is_valid_offset f (offset u) = true /\ 0 < buflen u < 2 ^ 62 /\ put_io u = false.

Definition legal (op : zop) : Prop := match op with Issue u _ _ => fresh u | _ => True end.

(** The job: no data verification, blocks of whole sectors, a frequency of resets of one at most. *)
Record job_ok : Prop := {
  j_verify : verify o = false; j_verifying : verifying o = false; j_period : 0 < zrf_period o;
  j_bs d : 0 < min_bs o d < 2 ^ 62; j_sectors d : Z.land (min_bs o d) 511 = 0;
  j_completes l : completes l ≡ₚ l }.

(** Between two operations only the units in flight hold locks. *)
Definition idle (s : zoned_block_device_info) : Prop := inv f s /\ locked (fun _ => O) s /\ cnt_ok o s.

Context (J : job_ok).

Lemma adjust_write_block h u s : inv f s -> locked h s -> cnt_ok o s -> fresh u -> ddir u = DDIR_WRITE ->
  post (zbd_adjust_block reset_wp completes o f u) (adjusted o f h (min_bs o DDIR_WRITE) u s) s.
Proof.
  intros I Hl C (_ & Ho & Hv & Hlen & Hp) Hd. destruct (valid_range f s _ (proj1 I) Ho Hv) as [R Hz].
  destruct (range_zone f s _ I R) as (z & Hzi & Hw). pose proof (j_bs J DDIR_WRITE).
  unfold zbd_adjust_block. rewrite Hd. steps; [by apply bool_decide_eq_true; lia|done|by apply bool_decide_eq_true;
    lia|]. rewrite Hw. cbn [negb]. rewrite (bool_decide_false (DDIR_WRITE = DDIR_READ)) by done.
  rewrite andb_false_r. cbn [andb].
  steps; eapply post_mono; [by apply (lock_spec f h)|]. cbn beta. intros _ s1 (Hc1 & I1 & Hl1).
  assert (S1 := core_same _ _ Hc1). rewrite <- Hd.
  eapply post_mono; [apply (adjust_write_spec reset_wp completes (j_completes J) o f (j_verify J) (j_period J) h
    (zbd_offset_to_zone_idx s (offset u)) u s1); try done; [by eapply same_cnt|lia|by rewrite Hd; lia|by rewrite Hd;
    apply (j_sectors J)]|].
  intros r s2 (I2 & K2 & C2 & Hr). split; [done|]. split; [etrans; [by apply same_kept|done]|]. split; [done|].
  destruct r.1; [done| |done].
  destruct Hr as [Hl2 Hnp]. split; [done|]. intros Hpl. apply Hnp. by apply (plain_same f _ u s s1 S1).
Qed.

Lemma adjust_read_block h u s : inv f s -> locked h s -> fresh u -> ddir u = DDIR_READ -> read_beyond_wp o = false ->
  post (zbd_adjust_block reset_wp completes o f u) (read_ok f h u s) s.
Proof.
  intros I Hl (_ & Ho & Hv & Hlen & Hp) Hd Hbey. destruct (valid_range f s _ (proj1 I) Ho Hv) as [R Hz].
  destruct (range_zone f s _ I R) as (z & Hzi & Hw). pose proof (j_bs J DDIR_READ).
  unfold zbd_adjust_block. rewrite Hd. steps; [by apply bool_decide_eq_true; lia|done|by apply bool_decide_eq_true;
    lia|]. rewrite Hw, Hbey. cbn [negb]. rewrite !andb_false_r.
  steps; eapply post_mono; [by apply (lock_spec f h)|]. cbn beta. intros _ s1 (Hc1 & I1 & Hl1).
  assert (E3 : zone_size s1 = zone_size s) by (apply core_fields in Hc1; intuition congruence).
  eapply post_mono; [apply (adjust_read_spec o f completes h (zbd_offset_to_zone_idx s (offset u)) u s1); try done;
    [by rewrite (j_verifying J)|by rewrite E3|by rewrite Hd]|].
  intros r s2 (Hc2 & Hr). split; [congruence|done].
Qed.

Lemma issue_spec u q error s : idle s -> fresh u -> read_beyond_wp o = false ->
  post (exec (Issue u q error)) (fun _ => idle) s.
Proof.
  intros (I & Hl & C) Hfr Hbey. unfold exec. pose proof Hfr as ([Hd|Hd] & _); steps.
  - eapply post_mono; [by apply (adjust_write_block (fun _ => O))|]. intros [a v] s1 (I1 & K1 & C1 & Hr).
    cbn [fst snd] in *. destruct a; [| |done]; cbn [when_]; rewrite ?bool_decide_true, ?bool_decide_false by done;
      cbn [when_]; [|steps; split; [done|]; split; [apply Hr|done]].
    destruct Hr as (j & Hlj & P & Ed & Hp & _).
    eapply post_mono; [eapply (queue_write_spec f (fun _ => O) (min_bs o DDIR_WRITE) v j);
      [done|done|done|done|congruence]|].
    intros _ s2 (I2 & Hl2 & K2 & W2). split; [done|]. split; [done|]. unfold cnt_ok. by rewrite W2.
  - eapply post_mono; [by apply (adjust_read_block (fun _ => O))|]. intros [a v] s1 (Hc1 & I1 & Hr).
    cbn [fst snd] in *. assert (C1 : cnt_ok o s1) by (by eapply same_cnt; [apply core_same|]).
    destruct a; [| |done]; rewrite ?bool_decide_true, ?bool_decide_false by done; cbn [when_]; [|by steps].
    destruct Hr as (j & Hlj & P & Ed & Hp & _).
    eapply post_mono; [eapply (zone_queue_read_spec f (fun _ => O) v j); [done|done|done|done|congruence]|].
    intros _ s2 (I2 & Hl2 & K2 & W2). split; [done|]. split; [done|]. unfold cnt_ok. by rewrite W2.
Qed.

Lemma zone_complete_spec k s : idle s -> post (exec (Complete k)) (fun _ => idle) s.
Proof.
  intros (I & Hl & C). unfold exec. steps. destruct (flight s !! k) as [u|] eqn:Hk; [|by steps]. steps.
  set (s0 := set_td _ _ _ s). pose proof I as (L & O & Cn & F).
  pose proof (delete_Permutation _ _ _ Hk) as Hperm.
  assert (Hin : forall v, v ∈ flight s0 -> v ∈ flight s) by (intros v Hv; rewrite Hperm; by right).
  assert (Hpos : forall j v, flight s0 !! j = Some v -> exists j', flight s !! j' = Some v /\ j' <> k /\
    (j' = if decide (j < k)%nat then j else S j)).
  { intros j v Hj. cbn [s0 flight set_td] in Hj. destruct (decide (j < k)%nat) as [H|H].
    - rewrite list_lookup_delete_lt in Hj by done. exists j. repeat split; [done|lia].
    - rewrite list_lookup_delete_ge in Hj by lia. exists (S j). repeat split; [done|lia]. }
  assert (I0 : inv f s0).
  { split; [by destruct L|]. split; [by destruct O|]. split; [done|]. destruct F. constructor.
    - intros v Hv. apply f_range. by apply Hin.
    - intros v i z Hv Hf. eapply f_full; [by apply Hin|exact Hf].
    - intros a b v w i Ha Hb Hv Hw. destruct (Hpos _ _ Ha) as (a' & Ha' & _ & Ea).
      destruct (Hpos _ _ Hb) as (b' & Hb' & _ & Eb).
      assert (a' = b') by (eapply f_one; eauto). subst a' b'.
      destruct (decide (a < k)%nat), (decide (b < k)%nat); lia. }
  eapply post_mono; [apply (put_spec f (fun _ => 0%nat) u s0 I0)|].
  - intros i z Hz. rewrite (Hl i z Hz : z_locks z = _).
    change (holds s0 (flight s0) i) with (holds s (delete k (flight s)) i). unfold hold_unit.
    change (zbd_offset_to_zone_idx s0 (offset u)) with (zbd_offset_to_zone_idx s (offset u)).
    assert (E : holds s (flight s) i = ((if decide (put_io u = true /\
      zbd_offset_to_zone_idx s (offset u) = i) then 1 else 0) + holds s (delete k (flight s)) i)%nat).
    { unfold holds. rewrite Hperm at 1. rewrite filter_cons. by case_decide. }
    rewrite E. destruct (put_io u); [|rewrite decide_False by naive_solver; lia]. unfold hold.
    destruct (decide (i = zbd_offset_to_zone_idx s (offset u))) as [->|Hne]; [rewrite decide_True by done;
      lia|rewrite decide_False by naive_solver; lia].
  - intros Hp. apply (f_range _ _ F u); [by eapply list_elem_of_lookup_2|done].
  - intros i v Hu Hv Hf. apply list_elem_of_lookup in Hv as (j & Hj). destruct (Hpos _ _ Hj) as (j' & Hj' & Hne & _).
    apply Hne. by eapply (f_one _ _ F j' k v u i).
  - intros _ s1 (I1 & Hl1 & S1 & _). split; [done|]. split; [done|]. by apply (same_cnt o s0 s1 S1).
Qed.

Lemma run_spec ops : read_beyond_wp o = false -> Forall legal ops -> forall s, idle s ->
  post (run ops) (fun _ => idle) s.
Proof.
  intros Hbey. induction 1 as [|op ops Hop _ IH]; intros s Hi; cbn [run]; [by steps|]. apply post_bind.
  apply (post_mono _ (fun _ => idle)); [|intros _ s' Hs'; by apply IH].
  destruct op as [u q e|k|]; [by apply issue_spec|by apply zone_complete_spec|]. unfold exec.
  destruct Hi as (I & Hl & C). eapply post_mono; [apply (quiesce_spec f completes (fun _ => O));
    [apply (j_completes J)|done|done]|].
  cbn beta. intros _ s1 (I1 & Hl1 & S1 & _). split; [done|]. split; [done|]. by eapply same_cnt.
Qed.
End run.
