(* ===== verification/ZbdInit.v ===== *)
(** * Zoned block devices: setting up (src/fio/zbd.c)

    The zones of a device are read from its report, or made up for a file; the part of the file that a job works on is
    cut to whole zones; the counters are set.  After that every run of the job is safe. *)

From S2P Require Import Prelude Bits Zbd ZbdProofs ZbdWrite ZbdSpec.

Open Scope Z_scope.

Definition ENOMEM : Z := 12.
Definition EINVAL : Z := 22.

(** ** Zones of a device without zones *)

(** [while (i) { i >>= 1; log++; }] on 64 bits. *)
Fixpoint ilog2_loop (fuel : nat) (i log : Z) : Z :=
  match fuel with
  | O => log
  | S fuel' => if decide (i = 0) then log else ilog2_loop fuel' (Z.shiftr i 1) (log + 1)
  end.

Definition ilog2 (i : Z) : Z := ilog2_loop 64 i (-1).

Definition size_log2 (zone_size : Z) : Z := if is_power_of_2 zone_size then ilog2 zone_size else 0.

(** Zone [i] of an emulated device, and the sentinel, whose other fields nobody looks at. *)
Definition empty_zone (zone_size zone_capacity : Z) (i : nat) : fio_zone_info :=
  Zone (Z.of_nat i * zone_size) (Z.of_nat i * zone_size) zone_capacity 0 ZBD_ZONE_TYPE_SWR ZBD_ZONE_COND_EMPTY true false false O.

Definition sentinel (start : Z) : fio_zone_info := Zone start 0 0 0 ZBD_ZONE_TYPE_CNV ZBD_ZONE_COND_NOT_WP false false false O.

Definition set_start (start : Z) (z : fio_zone_info) : fio_zone_info :=
  Zone start (z_wp z) (z_capacity z) (z_verify_block z) (z_type z) (z_cond z) (z_has_wp z) (z_open z) (z_reset_zone z) (z_locks z).

(** A fresh description, cleared but for the zones. *)
Definition new_info (m : zbd_zoned_model) (zone_size : Z) (nr : nat) (zones : list fio_zone_info) : zoned_block_device_info :=
  Zbd m 0 zone_size (size_log2 zone_size) nr 0 0 0 O (replicate ZBD_MAX_OPEN_ZONES O) zones 0 0 [] O.

(** [inl] is an error; [mem] says whether the allocation succeeds. *)
Definition init_zone_info (mem : bool) (real_file_size zone_size zone_capacity : Z) : Z + zoned_block_device_info :=
  if decide (zone_size = 0) then inl 1
  else if decide (zone_size < 512) then inl 1
  else
    let zone_capacity := if decide (zone_capacity = 0) then zone_size else zone_capacity in
    if decide (zone_capacity > zone_size) then inl 1
    else if decide (real_file_size < zone_size) then inl (- EINVAL)
    else
      let nr := Z.to_nat (u32 (u64 (real_file_size + zone_size - 1) / zone_size)) in
      if negb mem then inl (- ENOMEM)
      else inr (new_info ZBD_NONE zone_size nr ((empty_zone zone_size zone_capacity <$> seq 0 nr) ++ [sentinel (Z.of_nat nr * zone_size)])).

(** ** Zones from the report of a device *)

Record zbd_zone := ZbdZone { r_start : Z; r_wp : Z; r_len : Z; r_capacity : Z; r_type : zbd_zone_type; r_cond : zbd_zone_cond }.

Definition ZBD_REPORT_MAX_ZONES : nat := Z.to_nat 8192.

(** One entry of the report; [None] is an assertion that fails. *)
Definition parse_zone (zone_size : Z) (r : zbd_zone) : option fio_zone_info :=
  wp ← (if decide (r_cond r = ZBD_ZONE_COND_NOT_WP \/ r_cond r = ZBD_ZONE_COND_FULL) then Some (r_start r + r_capacity r)
        else if decide (r_start r <= r_wp r <= r_start r + zone_size) then Some (r_wp r) else None);
  Some (Zone (r_start r) wp (r_capacity r) 0 (r_type r) (r_cond r) (bool_decide (r_type r = ZBD_ZONE_TYPE_SWR)) false false O).

(** The loop over a report, behind the zones [acc]; [inl] is an error, [None] also a write behind the
    array. *)
Fixpoint parse_report (zone_size : Z) (nr : nat) (rs : list zbd_zone) (acc : list fio_zone_info) : option (Z + list fio_zone_info) :=
  match rs with
  | [] => Some (inr acc)
  | r :: rs' =>
      if decide (nr < length acc)%nat then None
      else
        z ← parse_zone zone_size r;
        match last acc with
        | Some p => if decide (z_start z <> z_start p + zone_size) then Some (inl (- EINVAL)) else parse_report zone_size nr rs' (acc ++ [z])
        | None => parse_report zone_size nr rs' (acc ++ [z])
        end
  end.

Section report.
(** The report of at most [n] zones from an offset on: an error, or at least one zone ([zbd_report_zones]). *)
Context (report_zones : Z -> nat -> Z + list zbd_zone).

(** An empty report is an error too. *)
Definition zbd_report_zones (off : Z) (n : nat) : Z + list zbd_zone :=
  match report_zones off n with inl e => inl e | inr [] => inl (- 5) | inr l => inr l end.

(** [for (offset = 0, j = 0; j < nr_zones;)]: a round handles one report, which has a zone at least. *)
Fixpoint parse_loop (fuel : nat) (zone_size : Z) (nr : nat) (rs : list zbd_zone) (acc : list fio_zone_info) : option (Z + list fio_zone_info * Z) :=
  match fuel with
  | O => None
  | S fuel' =>
      r ← parse_report zone_size nr rs acc;
      match r with
      | inl e => Some (inl e)
      | inr acc =>
          l ← last rs;
          let off := r_start l + r_len l in
          if decide (nr <= length acc)%nat then Some (inr (acc, off))
          else
            match zbd_report_zones off (Nat.min (nr - length acc) ZBD_REPORT_MAX_ZONES) with
            | inl e => Some (inl e)
            | inr rs => parse_loop fuel' zone_size nr rs acc
            end
      end
  end.

(** [opt_zone_size] is the zone size that the job asks for, 0 for none; [room] and [mem] say whether the
    allocations of the report and of the zones succeed; the number of zones is an [int], and [None] is also a division by zero and a sentinel in front of the array. *)
Definition parse_zone_info (room mem : bool) (m : zbd_zoned_model) (real_file_size opt_zone_size : Z) : option (Z + zoned_block_device_info) :=
  if negb room then Some (inl (- ENOMEM)) else
  match zbd_report_zones 0 ZBD_REPORT_MAX_ZONES with
  | inl e => Some (inl e)
  | inr rs =>
      r0 ← head rs;
      let zone_size := r_len r0 in
      if decide (zone_size = 0) then None
      else
        let nr_zones := i32 (u64 (real_file_size + zone_size - 1) / zone_size) in
        if decide (opt_zone_size <> 0 /\ opt_zone_size <> zone_size) then Some (inl (- EINVAL))
        else if negb mem then Some (inl (- ENOMEM))
        else if decide (nr_zones < 0) then None
        else
          let nr := Z.to_nat nr_zones in
          r ← (if decide (nr = O) then Some (inr ([], 0)) else parse_loop (S nr) zone_size nr rs []);
          match r with
          | inl e => Some (inl e)
          | inr (zones, off) => Some (inr (new_info m zone_size nr (take nr zones ++ [set_start off (default (sentinel 0) (zones !! nr))])))
          end
  end.
End report.

(** ** The limit on open zones *)

Definition set_max (n : Z) (s : zoned_block_device_info) : zoned_block_device_info :=
  Zbd (model s) n (zone_size s) (zone_size_log2 s) (nr_zones s) (sectors_with_data s) (wp_sectors_with_data s)
    (write_cnt s) (num_open_zones s) (open_zones s) (zone_info s) (td_num_open_zones s) (nr_zone_resets s) (flight s) (dev s).

(** [opt] is the limit of the job, [device] the answer of a host-managed device: an error or its limit. *)
Definition zbd_set_max_open_zones (opt : Z) (ignore_zone_limits : bool) (device : Z + Z) (s : zoned_block_device_info) : Z + zoned_block_device_info :=
  let finish n := if decide (n > Z.of_nat ZBD_MAX_OPEN_ZONES) then inl (- EINVAL) else inr (set_max n s) in
  if decide (model s <> ZBD_HOST_MANAGED \/ ignore_zone_limits = true) then finish opt
  else
    match device with
    | inl e => inl e
    | inr n =>
        if decide (n = 0) then finish opt
        else if decide (opt = 0) then finish n
        else if decide (opt <= n) then finish opt
        else inl (- EINVAL)
    end.

(** The description of a file: [model] is the answer of the engine, and [None] a failed assertion. *)
Definition zbd_create_zone_info (report_zones : Z -> nat -> Z + list zbd_zone) (room mem : bool) (model : Z + zbd_zoned_model) (real_file_size zone_size zone_capacity : Z)
    (opt : Z) (ignore_zone_limits : bool) (device : Z + Z) : option (Z + zoned_block_device_info) :=
  match model with
  | inl e => Some (inl e)
  | inr m =>
      r ← match m with ZBD_NONE => Some (init_zone_info mem real_file_size zone_size zone_capacity) | _ => parse_zone_info report_zones room mem m real_file_size zone_size end;
      Some (match r with inl e => inl e | inr s => zbd_set_max_open_zones opt ignore_zone_limits device s end)
  end.

(** ** The part of the file *)

(** Whether there is a zone with a write pointer between two zones. *)
Definition zbd_is_seq_job (s : zoned_block_device_info) (f : fio_file) : bool :=
  if decide (io_size f = 0) then false
  else
    let b := zbd_offset_to_zone_idx s (file_offset f) in
    let e := zbd_offset_to_zone_idx s (file_offset f + io_size f - 1) in
    existsb z_has_wp (take (S e - b) (drop b (zone_info s))).

Definition set_part (off len : Z) (f : fio_file) : fio_file := File off len (real_file_size f) (min_zone f) (max_zone f).

(** [None] is false: the sizes do not fit; [read_only] says that the job only reads. *)
Definition zbd_zone_align_file_sizes (s : zoned_block_device_info) (opt_zone_size zone_skip : Z) (read_only : bool) (f : fio_file) : option fio_file :=
  if decide (file_offset f >= real_file_size f) then Some f
  else if negb (zbd_is_seq_job s f) then Some f
  else if decide (opt_zone_size = 0 /\ zone_size s = 0) then None
  else if decide (opt_zone_size <> 0 /\ opt_zone_size <> zone_size s) then None
  else if decide (zone_skip mod zone_size s <> 0) then None
  else
    let i := zbd_offset_to_zone_idx s (file_offset f) in
    z ← zone_info s !! i;
    f ← (if decide (file_offset f <> z_start z /\ read_only = false) then
           n ← zone_info s !! S i;
           if decide (z_start n >= file_offset f + io_size f) then None
           else Some (set_part (z_start n) (io_size f - (z_start n - file_offset f)) f)
         else Some f);
    z ← zone_info s !! zbd_offset_to_zone_idx s (file_offset f + io_size f);
    if decide (read_only = false /\ file_offset f + io_size f <> z_start z) then
      if decide (z_start z <= file_offset f) then None else Some (set_part (file_offset f) (z_start z - file_offset f) f)
    else Some f.

(** The zones of the part, as [zbd_setup_files] sets them. *)
Definition set_file_zones (s : zoned_block_device_info) (f : fio_file) : fio_file :=
  File (file_offset f) (io_size f) (real_file_size f) (zbd_offset_to_zone_idx s (file_offset f)) (zbd_offset_to_zone_idx s (file_offset f + io_size f)).

Section setup.
Context (reset_wp : nat -> Z -> Z -> Z) (o : zbd_opts).

(** Zones that the device has open already are opened, or reset when there are too many; false is an error. *)
Fixpoint setup_loop (f : fio_file) (n i : nat) : zm bool :=
  match n with
  | O => mret true
  | S n' =>
      z ← zbd_get_zone i;
      if decide (z_cond z <> ZBD_ZONE_COND_IMP_OPEN /\ z_cond z <> ZBD_ZONE_COND_EXP_OPEN) then setup_loop f n' (S i)
      else
        b ← zbd_open_zone o i;
        if b : bool then setup_loop f n' (S i)
        else
          r ← zbd_reset_zone reset_wp f i;
          if decide (r < 0) then mret false else setup_loop f n' (S i)
  end.

(** The loop body of [zbd_setup_files] for one file whose sizes have been aligned; false is an error. *)
Definition zbd_setup_file (opt_max_open_zones : Z) (f : fio_file) : zm (bool * fio_file) :=
  s ← get;
  let f := set_file_zones s f in
  when_ (zbd_is_seq_job s f) (assert_ (bool_decide (min_zone f < max_zone f)%nat)) ;;
  if decide (opt_max_open_zones > 0 /\ max_open_zones s <> opt_max_open_zones) then mret (false, f)
  else if decide (job_max_open_zones o <> 0 /\ max_open_zones s = 0) then mret (false, f)
  else
    b ← setup_loop f (max_zone f - min_zone f) (min_zone f);
    mret (b, f).
End setup.

(** ** Skipping zones *)

(** A sequential job moves on: the new part of the file, position, bytes in the zone and bytes skipped.
    [start_offset] is where the file of the job starts; [None] is a failed assertion or a look behind the
    sentinel. *)
Definition setup_zbd_zone_mode (o : zbd_opts) (opt_zone_size zone_skip start_offset : Z) (d : fio_ddir) (s : zoned_block_device_info)
    (f : fio_file) (last_pos zone_bytes io_skip_bytes : Z) : option (fio_file * Z * Z * Z) :=
  if decide (opt_zone_size = 0) then None
  else
    let i := zbd_offset_to_zone_idx s last_pos in
    z ← zone_info s !! i;
    '(last_pos, io_skip_bytes) ←
      (if decide (z_capacity z < zone_size s /\ td_random o = false /\ d = DDIR_WRITE /\ last_pos >= zbd_zone_capacity_end z)
       then n ← zone_info s !! S i; Some (z_start n, u64 (io_skip_bytes + (z_start n - last_pos)))
       else Some (last_pos, io_skip_bytes));
    if decide (td_random o = true \/ zone_skip = 0) then Some (f, last_pos, zone_bytes, io_skip_bytes)
    else
      due ← (if decide (zone_bytes >= opt_zone_size) then Some true
             else n ← zone_info s !! S i;
                  Some (bool_decide (last_pos >= z_start n) || (bool_decide (d = DDIR_READ) && negb (read_beyond_wp o) && bool_decide (last_pos >= z_wp z))));
      if due : bool then
        let off := u64 (file_offset f + opt_zone_size + zone_skip) in
        let off := if decide (off >= real_file_size f) then start_offset else off in
        Some (set_part off (io_size f) f, off, 0, u64 (io_skip_bytes + zone_skip))
      else Some (f, last_pos, zone_bytes, io_skip_bytes).

(** ** Sizes *)

Lemma ilog2_loop_log2 fuel : forall i log, 0 < i < 2 ^ Z.of_nat fuel -> ilog2_loop fuel i log = log + Z.log2 i + 1.
Proof.
  induction fuel as [|fuel IH]; intros i log Hi; [cbn in Hi; lia|]. cbn [ilog2_loop]. rewrite decide_False by lia.
  rewrite Nat2Z.inj_succ, Z.pow_succ_r in Hi by lia.
  destruct (decide (i = 1)) as [->|Hne].
  { change (Z.shiftr 1 1) with 0. change (Z.log2 1) with 0. destruct fuel; cbn [ilog2_loop];
      rewrite ?decide_True by done; lia. }
  rewrite <- Z.div2_spec. pose proof (Z.div2_odd i).
  assert (1 <= Z.div2 i < 2 ^ Z.of_nat fuel) by (destruct (Z.odd i); cbn [Z.b2z] in *; lia).
  rewrite IH by lia. rewrite Z.div2_spec, Z.log2_shiftr by lia. pose proof (Z.log2_le_mono 2 i ltac:(lia)) as H2.
  change (Z.log2 2) with 1 in H2. lia.
Qed.

Lemma size_log2_ok v : 0 < v < 2 ^ 64 -> 0 < size_log2 v -> v = 2 ^ size_log2 v.
Proof.
  intros Hv. unfold size_log2. destruct (is_power_of_2 v) eqn:E; [|lia]. intros _.
  unfold ilog2. rewrite ilog2_loop_log2 by (cbn; lia). replace (-1 + Z.log2 v + 1) with (Z.log2 v) by lia. by apply pow2_log2.
Qed.

(** A device of equal zones, apart from what is in them. *)
Record grid (s : zoned_block_device_info) : Prop := {
  g_len : length (zone_info s) = S (nr_zones s); g_size : 0 < zone_size s; g_log2 : 0 < zone_size_log2 s -> zone_size s = 2 ^ zone_size_log2 s;
  g_nr : Z.of_nat (nr_zones s) < 2 ^ 32; g_bytes : Z.of_nat (nr_zones s) * zone_size s <= 2 ^ 52;
  g_start i z : zone_info s !! i = Some z -> z_start z = Z.of_nat i * zone_size s }.

Lemma grid_idx s off : grid s -> 0 <= off <= Z.of_nat (nr_zones s) * zone_size s ->
  zbd_offset_to_zone_idx s off = Z.to_nat (off / zone_size s) /\ 0 <= off / zone_size s <= Z.of_nat (nr_zones s).
Proof.
  intros G Ho. pose proof (g_size _ G) as H0. pose proof (g_nr _ G).
  assert (Hd : 0 <= off / zone_size s <= Z.of_nat (nr_zones s)).
  { split; [by apply Z.div_pos; lia|]. apply Z.div_le_upper_bound; lia. }
  split; [|done]. unfold zbd_offset_to_zone_idx.
  assert (E' : (if decide (0 < zone_size_log2 s) then Z.shiftr off (zone_size_log2 s) else off / zone_size s) = off /
    zone_size s).
  { case_decide as Hl; [|done]. rewrite Z.shiftr_div_pow2 by lia. by rewrite <- (g_log2 _ G Hl). }
  rewrite E', wrapu_small by lia. lia.
Qed.

(** The part of the file is cut to whole zones inside what was asked for. *)
Definition aligned (s : zoned_block_device_info) (f : fio_file) : Prop :=
  (min_zone f < max_zone f <= nr_zones s)%nat /\ file_offset f = Z.of_nat (min_zone f) * zone_size s /\ io_size f = Z.of_nat (max_zone f - min_zone f) * zone_size s.

Lemma zones_aligned s f a b : grid s -> (a < b <= nr_zones s)%nat -> file_offset f = Z.of_nat a * zone_size s ->
  file_offset f + io_size f = Z.of_nat b * zone_size s -> aligned s (set_file_zones s f).
Proof.
  intros G Hab Ha Hb. pose proof (g_size _ G) as H0. unfold aligned, set_file_zones.
  cbn [min_zone max_zone file_offset io_size].
  assert (Hi : forall k, (k <= nr_zones s)%nat -> zbd_offset_to_zone_idx s (Z.of_nat k * zone_size s) = k).
  { intros k Hk. destruct (grid_idx s (Z.of_nat k * zone_size s) G) as [-> _]; [split; [apply Z.mul_nonneg_nonneg;
      lia|apply Z.mul_le_mono_nonneg_r; lia]|]. rewrite Z.div_mul by lia. lia. }
  rewrite Hb, Ha, !Hi by lia. split; [done|]. split; [done|].
  replace (io_size f) with (Z.of_nat b * zone_size s - Z.of_nat a * zone_size s) by lia.
  rewrite <- Z.mul_sub_distr_r. f_equal. lia.
Qed.

Lemma align_spec s z skip f f' : grid s -> 0 <= file_offset f < real_file_size f -> 0 < io_size f ->
  file_offset f + io_size f <= Z.of_nat (nr_zones s) * zone_size s ->
  zbd_is_seq_job s f = true -> zbd_zone_align_file_sizes s z skip false f = Some f' ->
  aligned s (set_file_zones s f') /\ file_offset f <= file_offset f' /\
    file_offset f' + io_size f' <= file_offset f + io_size f.
Proof.
  intros G Ho Hio He Hseq. pose proof (g_size _ G) as H0. unfold zbd_zone_align_file_sizes.
  rewrite decide_False by lia. rewrite Hseq. cbn [negb]. do 3 (case_decide; [done|]).
  destruct (grid_idx s (file_offset f) G) as [Ei Hi]; [lia|]. rewrite Ei.
  set (i := file_offset f / zone_size s) in *.
  pose proof (Z.div_mod (file_offset f) (zone_size s) ltac:(lia)) as Hdm.
  pose proof (Z.mod_pos_bound (file_offset f) (zone_size s) H0) as Hm. fold i in Hdm.
  destruct (zone_info s !! Z.to_nat i) as [zi|] eqn:Hzi; [|done]. pose proof (g_start _ G _ _ Hzi) as Hsi.
  rewrite Z2Nat.id in Hsi by lia. cbn [mbind option_bind].
  (* the start, rounded up *)
  match goal with |- (?m ≫= ?k) = _ -> _ => destruct m as [g|] eqn:Hg; [|done]; cbn [mbind option_bind] end.
  assert (Hg' : exists a, file_offset g = Z.of_nat a * zone_size s /\ file_offset f <= file_offset g /\
    file_offset g + io_size g = file_offset f + io_size f /\ 0 < io_size g).
  { case_decide as Hr.
    - destruct (zone_info s !! S (Z.to_nat i)) as [zn|] eqn:Hzn; [|done]. pose proof (g_start _ G _ _ Hzn) as Hsn.
      cbn [mbind option_bind] in Hg. case_decide; [done|]. injection Hg as <-. exists (S (Z.to_nat i)). cbn.
      rewrite Hsn, Nat2Z.inj_succ, Z2Nat.id by lia. repeat split; try lia.
    - injection Hg as <-. exists (Z.to_nat i). rewrite Z2Nat.id by lia.
      assert (file_offset f = z_start zi) by (destruct (decide (file_offset f = z_start zi)); tauto).
      repeat split; lia. }
  destruct Hg' as (a & Ha & Hle & Hend & Hpos). rewrite Hend.
  destruct (grid_idx s (file_offset f + io_size f) G) as [Ej Hj]; [lia|]. rewrite Ej.
  set (j := (file_offset f + io_size f) / zone_size s) in *.
  pose proof (Z.div_mod (file_offset f + io_size f) (zone_size s) ltac:(lia)) as Hdj.
  pose proof (Z.mod_pos_bound (file_offset f + io_size f) (zone_size s) H0) as Hmj. fold j in Hdj.
  destruct (zone_info s !! Z.to_nat j) as [zj|] eqn:Hzj; [|done]. pose proof (g_start _ G _ _ Hzj) as Hsj.
  rewrite Z2Nat.id in Hsj by lia. cbn [mbind option_bind].
  assert (Hfin : forall w, file_offset w = file_offset g -> file_offset w + io_size w = z_start zj ->
    file_offset g < z_start zj -> aligned s (set_file_zones s w)).
  { intros w Hw1 Hw2 Hlt. apply (zones_aligned s w a (Z.to_nat j)); [done| |congruence|rewrite Z2Nat.id by lia;
      lia]. split; [|lia]. rewrite Ha, Hsj in Hlt. apply Z.mul_lt_mono_pos_r in Hlt; lia. }
  destruct (decide (false = false /\ _)) as [Hr|Hr].
  - destruct (decide (z_start zj <= file_offset g)); [done|]. intros [= <-]. cbn. split; [apply Hfin; cbn; lia|]. lia.
  - intros [= <-]. assert (file_offset f + io_size f = z_start zj) by (destruct (decide (file_offset f + io_size f =
      z_start zj)); tauto). split; [apply Hfin; lia|]. lia.
Qed.

(** ** A device without zones *)

(** What [init_zone_info] and the limit make. *)
Definition emulated (zone_size cap : Z) (nr : nat) (n : Z) : zoned_block_device_info :=
  set_max n (new_info ZBD_NONE zone_size nr ((empty_zone zone_size cap <$> seq 0 nr) ++ [sentinel (Z.of_nat nr * zone_size)])).

Lemma emulated_lookup zs cap nr n i : (i < nr)%nat -> zone_info (emulated zs cap nr n) !! i = Some (empty_zone zs cap
  i).
Proof. intros Hi. cbn [zone_info emulated set_max new_info].
  rewrite lookup_app_l by (rewrite length_fmap, length_seq; lia). by rewrite list_lookup_fmap, lookup_seq_lt by lia.
  Qed.

Lemma emulated_zone zs cap nr n i z : zone_info (emulated zs cap nr n) !! i = Some z ->
  ((i < nr)%nat /\ z = empty_zone zs cap i) \/ (i = nr /\ z = sentinel (Z.of_nat nr * zs)).
Proof.
  destruct (decide (i < nr)%nat) as [Hi|Hi].
  - rewrite emulated_lookup by done. intros [= <-]. by left.
  - cbn [zone_info emulated set_max new_info].
    rewrite lookup_app_r, length_fmap, length_seq by (rewrite length_fmap, length_seq; lia). intros H.
    pose proof (lookup_lt_Some _ _ _ H) as Hl. cbn in Hl. replace (i - nr)%nat with O in H by lia. injection H as <-.
    right. split; [lia|done].
Qed.

(** The sizes that the 32-bit index and the 64-bit sums have room for. *)
Definition sizes (zs cap : Z) (nr : nat) : Prop := 0 < zs < 2 ^ 64 /\ 0 < cap <= zs /\ Z.of_nat nr < 2 ^ 32 /\ Z.of_nat nr * zs <= 2 ^ 52.

Lemma emulated_grid zs cap nr n : sizes zs cap nr -> grid (emulated zs cap nr n).
Proof.
  intros (Hz & Hc & Hn & Hb). constructor; try done.
  - unfold emulated, new_info. cbn [zone_info set_max nr_zones]. rewrite length_app, length_fmap, length_seq. cbn.
    lia.
  - apply Hz.
  - by apply size_log2_ok.
  - intros i z H. apply emulated_zone in H as [[_ ->]|[-> ->]]; done.
Qed.

(** A device before the first write of the job, whose file is [f]: equal zones, those of the file
    sequential, with their pointers within the capacity, and not open. *)
Record clean (f : fio_file) (s : zoned_block_device_info) : Prop := {
  c_grid : grid s; c_part : aligned s f;
  c_zone i z : zone_info s !! i = Some z -> range f i ->
    z_start z <= z_wp z <= z_start z + z_capacity z /\ 0 <= z_capacity z <= zone_size s /\ z_has_wp z = true /\ z_cond z <> ZBD_ZONE_COND_IMP_OPEN /\ z_cond z <> ZBD_ZONE_COND_EXP_OPEN;
  c_closed i z : zone_info s !! i = Some z -> z_open z = false /\ z_locks z = O;
  c_open : num_open_zones s = O /\ length (open_zones s) = ZBD_MAX_OPEN_ZONES /\ td_num_open_zones s = 0;
  c_flight : flight s = []; c_max : 0 <= max_open_zones s <= 4096 }.

(** The state once the data is counted. *)
Definition settled (f : fio_file) (s : zoned_block_device_info) : zoned_block_device_info := set_swd (total f s) (total f s) s.

Lemma clean_inv f s : clean f s -> inv f (settled f s) /\ locked (fun _ => O) s.
Proof.
  intros [[G1 G2 G3 G4 G5 G6] (Hr & Ho & Hio) Hz Hc (N1 & N2 & N3) Hf Hm]. split; [split; [|split; [|split]]|].
  - constructor; try done; intros i z H R; by destruct (Hz i z H R) as (? & ? & ? & _).
  - constructor; cbn [settled set_swd num_open_zones open_zones zone_info td_num_open_zones max_open_zones];
      rewrite ?N1, ?take_0; try done; try lia.
    + intros i z H. rewrite (proj1 (Hc i z H)). split; [done|]. intros Hn. by apply not_elem_of_nil in Hn.
    + constructor.
    + intros i Hn. by apply not_elem_of_nil in Hn.
    + intros i z H Hop. rewrite (proj1 (Hc i z H)) in Hop. done.
  - done.
  - constructor; cbn [settled set_swd flight]; rewrite Hf; [intros u H|intros u i z H|intros j k u v i H];
      by inversion H.
  - intros i z H. rewrite (proj2 (Hc i z H)), Hf. done.
Qed.

Lemma emulated_clean zs cap nr n f : sizes zs cap nr -> 0 <= n <= 4096 -> aligned (emulated zs cap nr n) f ->
  clean f (emulated zs cap nr n).
Proof.
  intros Hs Hn Ha. constructor; try done.
  - by apply emulated_grid.
  - intros i z H R. destruct Ha as (Hr & _). destruct Hs as (Hz & Hc & _). unfold range in R. cbn in Hr.
    apply emulated_zone in H as [[_ ->]|[-> _]]; [|lia]. cbn. repeat split; (done || lia).
  - intros i z H. by apply emulated_zone in H as [[_ ->]|[_ ->]].
Qed.

(** The limit is the job's if it has one. *)
Lemma max_spec opt ignore device s0 s : 0 <= opt -> (forall n, device = inr n -> 0 <= n) ->
  zbd_set_max_open_zones opt ignore device s0 = inr s ->
  exists n, s = set_max n s0 /\ 0 <= n <= 4096 /\ (0 < opt -> n = opt).
Proof.
  intros Hopt Hdev. unfold zbd_set_max_open_zones. assert (E : Z.of_nat ZBD_MAX_OPEN_ZONES = 4096) by reflexivity.
  rewrite E.
  assert (Hfin : forall n, 0 <= n -> (0 < opt -> n = opt) ->
    (if decide (n > 4096) then inl (- EINVAL) else inr (set_max n s0)) = inr s -> exists n, s = set_max n s0 /\
    0 <= n <= 4096 /\ (0 < opt -> n = opt)).
  { intros n Hn Ho. case_decide; [done|]. intros [= <-]. exists n. split; [done|]. split; [lia|done]. }
  case_decide; [by apply Hfin|]. destruct device as [e|n]; [done|]. specialize (Hdev n eq_refl).
  case_decide; [by apply Hfin|]. case_decide; [by apply Hfin; lia|]. case_decide; [by apply Hfin|done].
Qed.

(** The zones and the limit of a device without zones. *)
Lemma init_spec mem rfs zs zc opt ignore device s0 s : 0 <= zc -> 0 < zs -> rfs + zs <= 2 ^ 52 ->
  rfs <= (2 ^ 32 - 1) * zs -> 0 <= opt ->
  init_zone_info mem rfs zs zc = inr s0 -> zbd_set_max_open_zones opt ignore device s0 = inr s ->
  exists cap nr, s = emulated zs cap nr opt /\ sizes zs cap nr /\ opt <= 4096 /\ rfs <= Z.of_nat nr * zs < rfs + zs.
Proof.
  intros Hzc Hzs Hfit Hnr Hopt. unfold init_zone_info. do 2 (case_decide; [done|]).
  set (cap := if decide (zc = 0) then zs else zc).
  assert (Hcap : 0 < cap) by (subst cap; case_decide; lia). do 2 (case_decide; [done|]). destruct mem; [|done].
  cbn [negb]. intros [= <-].
  unfold zbd_set_max_open_zones. rewrite decide_True by (by left). case_decide; [done|]. intros [= <-]. exists cap.
  eexists. split; [reflexivity|].
  assert (Hq : rfs <= (rfs + zs - 1) / zs * zs < rfs + zs) by (pose proof (Z.div_mod (rfs + zs - 1) zs ltac:(lia));
    pose proof (Z.mod_pos_bound (rfs + zs - 1) zs ltac:(lia)); lia).
  assert (0 <= (rfs + zs - 1) / zs) by (apply Z.div_pos; lia).
  assert ((rfs + zs - 1) / zs < 2 ^ 32) by (apply Z.div_lt_upper_bound; lia).
  rewrite (wrapu_small 64) by lia. rewrite (wrapu_small 32) by lia. unfold sizes. rewrite Z2Nat.id by lia.
  assert (Z.of_nat ZBD_MAX_OPEN_ZONES = 4096) by reflexivity. repeat split; lia.
Qed.

Lemma grid_seq s f : grid s -> 0 <= file_offset f -> 0 < io_size f ->
  file_offset f + io_size f <= Z.of_nat (nr_zones s) * zone_size s ->
  (forall i z, zone_info s !! i = Some z -> (i < nr_zones s)%nat -> z_has_wp z = true) -> zbd_is_seq_job s f = true.
Proof.
  intros G H0 Hio Hend Hw. pose proof (g_size _ G). unfold zbd_is_seq_job. rewrite decide_False by lia.
  destruct (grid_idx s (file_offset f) G) as [Eb Hb]; [lia|].
  destruct (grid_idx s (file_offset f + io_size f - 1) G) as [Ee He]; [lia|]. rewrite Eb, Ee.
  assert (Hle : file_offset f / zone_size s <= (file_offset f + io_size f - 1) / zone_size s) by (apply
    Z.div_le_mono; lia). assert (Hlt : file_offset f / zone_size s < Z.of_nat (nr_zones s)) by (apply
    Z.div_lt_upper_bound; lia).
  set (b := Z.to_nat (file_offset f / zone_size s)) in *.
  destruct (lookup_lt_is_Some_2 (zone_info s) b) as [z Hz]; [rewrite (g_len _ G); lia|]. apply existsb_exists.
  exists z. split; [|apply (Hw b z Hz); lia].
  apply list_elem_of_In, list_elem_of_lookup. exists 0%nat. apply lookup_take_Some. split; [|lia].
  by rewrite lookup_drop, Nat.add_0_r.
Qed.

(** The file of a job that skips zones starts at a zone of the device again, and so does the position; a
    job that has used its zone up moves on. *)
Lemma skip_spec o zskip start d s f p zb k : grid s -> 0 <= p < Z.of_nat (nr_zones s) * zone_size s -> 0 <= zskip ->
  (zone_size s | zskip) ->
  0 <= file_offset f < real_file_size f -> (zone_size s | file_offset f) ->
    real_file_size f + zone_size s + zskip < 2 ^ 64 -> 0 <= start < real_file_size f -> (zone_size s | start) ->
  exists f' p' zb' k', setup_zbd_zone_mode o (zone_size s) zskip start d s f p zb k = Some (f', p', zb', k') /\
    0 <= file_offset f' < real_file_size f /\ (zone_size s | file_offset f') /\ io_size f' = io_size f /\
    (td_random o = false -> zskip <> 0 -> zone_size s <= zb -> p' = file_offset f' /\ zb' = 0 /\
      (file_offset f' = file_offset f + zone_size s + zskip \/ file_offset f' = start)).
Proof.
  intros G Hp Hs Ds Hf Df Hw Hst Dst. pose proof (g_size _ G) as Hz. unfold setup_zbd_zone_mode.
  rewrite decide_False by lia. destruct (grid_idx s p G) as [Ei Hi]; [lia|]. rewrite Ei.
  assert (p / zone_size s < Z.of_nat (nr_zones s)) by (apply Z.div_lt_upper_bound; lia).
  set (i := Z.to_nat (p / zone_size s)).
  destruct (lookup_lt_is_Some_2 (zone_info s) i) as [z ->]; [rewrite (g_len _ G); lia|].
  destruct (lookup_lt_is_Some_2 (zone_info s) (S i)) as [n ->]; [rewrite (g_len _ G); lia|]. cbn [mbind option_bind].
  match goal with |- context [(?m ≫= _) = _] => assert (exists p1 k1, m = Some (p1,
    k1)) as (p1 & k1 & ->) by (case_decide; eauto) end. cbn [mbind option_bind].
  destruct (decide (td_random o = true \/ zskip = 0)) as [Hr|Hr]; [exists f, p1, zb, k1; repeat (split; [done|]);
    intros E1 E2 _; destruct Hr; congruence|].
  match goal with |- context [(?m ≫= _) = _] => assert (exists due, m = Some due /\ (zone_size s <= zb ->
    due = true)) as (due & -> & Hdue) by (case_decide; [by exists true|eexists; split; [done|lia]]) end.
  cbn [mbind option_bind].
  destruct due; [|exists f, p1, zb, k1; repeat (split; [done|]); intros _ _ H'; by specialize (Hdue H')].
  rewrite wrapu_small by lia. do 4 eexists. split; [reflexivity|]. cbn [file_offset io_size set_part].
  destruct (decide (_ >= real_file_size f)) as [Hg|Hg]; (split; [lia|]; split; [|split; [done|intros _ _ _; split;
    [done|split; [done|]]]]).
  - done.
  - by right.
  - apply Z.divide_add_r; [apply Z.divide_add_r; [done|apply Z.divide_refl]|done].
  - by left.
Qed.

(** ** Counting the data *)

Section reset.
Context (reset_wp : nat -> Z -> Z -> Z) (o : zbd_opts) (f : fio_file).

(** Zones [i] to [i + n - 1] are held once more. *)
Definition hold_part (h : nat -> nat) (n i : nat) : nat -> nat := fun j => if decide (i <= j < i + n)%nat then S (h j) else h j.

Lemma hold_part_S h n i s : locked (hold_part (hold h i) n (S i)) s <-> locked (hold_part h (S n) i) s.
Proof.
  assert (E : forall j, hold_part (hold h i) n (S i) j = hold_part h (S n) i j) by (intros j; unfold hold_part, hold;
    repeat case_decide; lia).
  split; intros H j z Hz; by rewrite (H j z Hz), E.
Qed.

Lemma part_S n i s z : zone_info s !! i = Some z -> part (S n) i s = data z + part n (S i) s.
Proof. intros H. unfold part. by rewrite (drop_S _ _ _ H). Qed.

Lemma part_nonneg n : forall i s, layout f s -> (min_zone f <= i)%nat -> (i + n <= max_zone f)%nat -> 0 <= part n i s.
Proof.
  induction n as [|n IH]; intros i s L H1 H2; [done|]. pose proof (l_range _ _ L).
  destruct (lookup_lt_is_Some_2 (zone_info s) i) as [z Hz]; [rewrite (l_len _ _ L); lia|].
  rewrite (part_S n i s z Hz). pose proof (l_wp _ _ L i z Hz ltac:(unfold range; lia)).
  specialize (IH (S i) s L ltac:(lia) ltac:(lia)). unfold data. lia.
Qed.

Lemma swd_spec n : forall h i a b s, inv f s -> locked h s -> (min_zone f <= i)%nat -> (i + n <= max_zone f)%nat ->
  0 <= a -> 0 <= b -> a + part n i s <= 2 ^ 52 -> b + part n i s <= 2 ^ 52 ->
  post (swd_loop f n i a b) (fun r s' => core s = core s' /\ inv f s' /\ locked (hold_part h n i) s' /\
    r = (a + part n i s, b + part n i s)) s.
Proof.
  induction n as [|n IH]; intros h i a b s I Hl H1 H2 Ha Hb Ba Bb; cbn [swd_loop].
  { steps. split; [done|]. split; [done|]. split; [|by rewrite !Z.add_0_r]. intros j z Hz. unfold hold_part. rewrite
      decide_False by lia. by apply Hl. }
  assert (R : range f i) by (unfold range; lia). destruct (range_zone f s i I R) as (z & Hz & Hw).
  rewrite !(part_S n i s z Hz) in *. destruct (zone_bounds f s i z (proj1 I) Hz R) as [Hzb _].
  pose proof (part_nonneg n (S i) s (proj1 I) ltac:(lia) ltac:(lia)) as Hp. unfold data in *. steps. rewrite Hw.
  cbn [when_]. eapply post_mono; [by apply (lock_spec f h i)|]. cbn beta. intros _ s1 (Hc & I1 & Hl1).
  rewrite (wrapu_small 64 (z_wp z - z_start z)) by lia. rewrite !wrapu_small by lia.
  rewrite <- !(part_core n (S i) s s1 Hc) in *.
  eapply post_mono; [apply (IH (hold h i)); [done|done|lia|lia|lia|lia|lia|lia]|]. cbn beta.
  intros r s2 (Hc2 & I2 & Hl2 & ->). split; [congruence|]. split; [done|]. split; [by apply hold_part_S|].
  f_equal; lia.
Qed.

Lemma unlock_all_spec n : forall h i s, inv f s -> locked (hold_part h n i) s -> (min_zone f <= i)%nat ->
  (i + n <= max_zone f)%nat ->
  post (unlock_loop n i) (fun _ s' => core s = core s' /\ inv f s' /\ locked h s') s.
Proof.
  induction n as [|n IH]; intros h i s I Hl H1 H2; cbn [unlock_loop].
  { steps. split; [done|]. split; [done|]. intros j z Hz. rewrite (Hl j z Hz). unfold hold_part. by rewrite
      decide_False by lia. }
  assert (R : range f i) by (unfold range; lia). destruct (range_zone f s i I R) as (z & Hz & Hw). steps. rewrite Hw.
  cbn [when_].
  eapply post_mono; [apply (unlock_spec f (hold_part h n (S i)) i); [done| |done]|].
  { intros j zj Hj. rewrite (Hl j zj Hj). unfold hold, hold_part. repeat case_decide; lia. }
  cbn beta. intros _ s1 (Hc & I1 & Hl1). eapply post_mono; [apply (IH h (S i)); [done|done|lia|lia]|]. cbn beta.
  intros _ s2 (Hc2 & ?). split; [congruence|done].
Qed.
(** The counters do not matter to the loop that counts. *)
Definition oblivious {A} (m : zm A) : Prop :=
  forall a b s, m (set_swd a b s) = match m s with Some (x, s') => Some (x, set_swd a b s') | None => None end.

Lemma oblivious_bind {A B} (m : zm A) (k : A -> zm B) : oblivious m -> (forall a, oblivious (k a)) ->
  oblivious (m ≫= k).
Proof. intros Hm Hk a b s. unfold mbind, zm_bind. rewrite Hm. destruct (m s) as [[x s1]|]; [|done]. apply Hk. Qed.

Lemma oblivious_zone i : oblivious (zbd_get_zone i).
Proof. intros a b s. unfold zbd_get_zone. cbn [zone_info set_swd]. by destruct (zone_info s !! i). Qed.

Lemma oblivious_lock i : oblivious (zone_lock f i).
Proof.
  apply oblivious_bind; [apply oblivious_zone|]. intros z.
  apply oblivious_bind; [by intros a b s; unfold assert_; destruct (bool_decide _)|]. intros _.
  apply oblivious_bind; [by intros a b s; unfold assert_; destruct (z_has_wp z)|]. intros _.
  apply oblivious_bind; [apply oblivious_zone|done].
Qed.

Lemma oblivious_swd n : forall i x y, oblivious (swd_loop f n i x y).
Proof.
  induction n as [|n IH]; intros i x y; [done|]. cbn [swd_loop]. apply oblivious_bind; [apply oblivious_zone|].
  intros z. apply oblivious_bind; [|intros _; apply IH].
  destruct (z_has_wp z); [apply oblivious_lock|done].
Qed.

Lemma process_spec h s : inv f (settled f s) -> locked h s ->
  post (zbd_process_swd f) (fun r s' => core (settled f s) = core s' /\ inv f s' /\ locked h s' /\ r = total f s) s.
Proof.
  intros I Hl. pose proof (l_range _ _ (proj1 I)). destruct (total_bounds f (settled f s) (proj1 I)) as [Ht _].
  change (total f (settled f s)) with (total f s) in Ht.
  pose proof (swd_spec (max_zone f - min_zone f) h (min_zone f) 0 0 (settled f s) I Hl ltac:(lia) ltac:(lia)
    ltac:(lia) ltac:(lia)) as P.
  change (part (max_zone f - min_zone f) (min_zone f) (settled f s)) with (total f s) in P.
  specialize (P ltac:(lia) ltac:(lia)). unfold post in P. unfold settled at 1 in P.
  rewrite (oblivious_swd _ _ _ _ (total f s) (total f s) s) in P.
  unfold zbd_process_swd. apply post_bind. destruct (swd_loop f _ _ 0 0 s) as [[r s1]|] eqn:E; [|done].
  destruct P as (Hc & I1 & Hl1 & ->). eapply post_some; [exact E|]. rewrite !Z.add_0_l.
  steps. eapply post_mono; [apply (unlock_all_spec (max_zone f - min_zone f) h (min_zone f)); [done|done|lia|lia]|].
  cbn beta. intros _ s2 (Hc2 & I2 & Hl2). steps. split; [congruence|done].
Qed.

Lemma file_reset_spec s : td_write o = true -> verify o = false -> 0 < zrf_period o -> inv f (settled f s) ->
  locked (fun _ => O) s ->
  post (zbd_file_reset reset_wp o f) (fun _ => idle o f) s.
Proof.
  intros Hw Hv Hp I Hl. unfold zbd_file_reset. rewrite Hw, Hv. cbn [negb andb when_]. steps.
  eapply post_mono; [by apply (process_spec (fun _ => O))|]. cbn beta. intros r s1 (_ & I1 & Hl1 & _).
  steps. unfold _zbd_reset_write_cnt. steps. split; [by apply inv_cnt|]. split; [exact Hl1|]. intros Hz.
  cbn [write_cnt set_write_cnt]. by rewrite Hz.
Qed.
End reset.

(** ** From the options to the end of the job *)

Section job.
Context (reset_wp : nat -> Z -> Z -> Z) (completes : list io_u -> list io_u) (o : zbd_opts).

(** A file whose sizes have been aligned is set up, reset and worked on; false is an error of the setup. *)
Definition job (opt_max_open_zones : Z) (f : fio_file) (ops : list zop) : zm bool :=
  '(ok, g) ← zbd_setup_file reset_wp o opt_max_open_zones f;
  if ok : bool then zbd_file_reset reset_wp o g ;; run reset_wp completes o g ops ;; mret true else mret false.

(** Zones that are not open are neither opened nor reset. *)
Lemma setup_loop_spec f s m : clean f s -> forall i, (min_zone f <= i)%nat -> (i + m <= max_zone f)%nat ->
  post (setup_loop reset_wp o f m i) (fun b s' => b = true /\ s' = s) s.
Proof.
  intros C. induction m as [|m IH]; intros i H1 H2; cbn [setup_loop]; [by steps|].
  pose proof (g_len _ (c_grid _ _ C)). pose proof (proj1 (c_part _ _ C)).
  destruct (lookup_lt_is_Some_2 (zone_info s) i) as [z Hz]; [lia|]. steps.
  destruct (c_zone _ _ C i z Hz ltac:(unfold range; lia)) as (_ & _ & _ & Hc). rewrite decide_True by done.
  apply IH; lia.
Qed.

Lemma setup_spec f s opt : clean (set_file_zones s f) s -> (0 < opt -> max_open_zones s = opt) ->
  post (zbd_setup_file reset_wp o opt f) (fun r s' => r = (bool_decide (job_max_open_zones o = 0 \/ max_open_zones s
    <> 0), set_file_zones s f) /\ s' = s) s.
Proof.
  intros C Hopt. destruct (c_part _ _ C) as (Hr & _). unfold zbd_setup_file. steps.
  apply post_when; [intros _; steps; [by apply bool_decide_eq_true, Hr|]|intros _].
  all: rewrite decide_False by lia; case_decide as Hj; [steps; split; [f_equal; symmetry; apply bool_decide_eq_false;
      lia|done]|].
  all: apply post_bind; eapply post_mono; [apply (setup_loop_spec (set_file_zones s f) s); [done|lia|lia]|];
      cbn beta; intros b s' [-> ->]; steps.
  all: split; [f_equal; symmetry; apply bool_decide_eq_true; lia|done].
Qed.

(** What the claims say of a job on a device that is set up. *)
Definition safe_job (opt : Z) (f : fio_file) (ops : list zop) (s : zoned_block_device_info) : Prop :=
  post (job opt f ops) (fun ok s' => if ok : bool then (job_max_open_zones o = 0 \/ max_open_zones s <> 0) /\ idle o (set_file_zones s f) s'
                                     else (job_max_open_zones o <> 0 /\ max_open_zones s = 0) /\ s' = s) s.

Lemma clean_job opt f ops s : job_ok completes o -> td_write o = true -> read_beyond_wp o = false ->
  clean (set_file_zones s f) s -> (0 < opt -> max_open_zones s = opt) ->
  Forall (legal (set_file_zones s f)) ops -> safe_job opt f ops s.
Proof.
  intros J Hw Hb C Hopt Hops. destruct (clean_inv _ _ C) as [I Hl]. unfold safe_job, job. apply post_bind.
  eapply post_mono; [by apply setup_spec|]. cbn beta. intros r s' [-> ->].
  case_bool_decide as Hok; [|steps; split; [lia|done]].
  apply post_bind. eapply post_mono; [apply (file_reset_spec reset_wp);
    [done|apply (j_verify _ _ J)|apply (j_period _ _ J)|done|done]|].
  cbn beta. intros _ s1 H1. apply post_bind. eapply post_mono; [by apply run_spec|]. cbn beta. intros _ s2 H2. steps.
  done.
Qed.

(** A job that writes and reads a device without zones of its own, whose zones fio makes up
    (zonemode=zbd): once the zones have been made, the limit on open zones accepted and the part of the
    file cut to whole zones, the setup answers an error exactly when the job limits its open zones and
    the device does not; otherwise no assertion fails along any sequence of units given to the device
    (with any status and error), completions and waits, and after it the invariant holds: equal zones
    with the pointers within their capacity, the open zones listed once each and no more than the limit,
    the counters equal to the data in the zones, and each zone locked once for every unit in flight in
    it. *)
Theorem job_safe report room mem rfs zs zc opt ignore device zsopt skip f f' s ops :
  job_ok completes o -> td_write o = true -> read_beyond_wp o = false ->
  0 <= zc -> 0 < zs -> rfs + zs <= 2 ^ 52 -> rfs <= (2 ^ 32 - 1) * zs -> 0 <= opt ->
  0 <= file_offset f -> 0 < io_size f -> file_offset f + io_size f <= rfs -> real_file_size f = rfs ->
  zbd_create_zone_info report room mem (inr ZBD_NONE) rfs zs zc opt ignore device = Some (inr s) ->
    zbd_zone_align_file_sizes s zsopt skip false f = Some f' ->
  Forall (legal (set_file_zones s f')) ops ->
  safe_job opt f' ops s.
Proof.
  intros J Hw Hb Hzc Hzs Hfit Hnr Hopt H0 Hio Hend Hreal Hcreate Hal Hops.
  cbn [zbd_create_zone_info mbind option_bind] in Hcreate.
  destruct (init_zone_info mem rfs zs zc) as [e|s0] eqn:Hinit; [done|]. injection Hcreate as Hmax.
  destruct (init_spec _ _ _ _ _ _ _ _ _ Hzc Hzs Hfit Hnr Hopt Hinit Hmax) as (cap & nr & -> & Hs & Hle & Hlen).
  destruct (align_spec _ zsopt skip f f' (emulated_grid zs cap nr opt Hs)) as (Ha & _); [lia|lia|cbn;
    lia|apply grid_seq; [by apply emulated_grid|lia|lia|cbn; lia|]; intros i z Hz Hi;
    apply emulated_zone in Hz as [[_ ->]|[-> _]]; [done|cbn in Hi; lia]|done|].
  apply clean_job; try done. by apply emulated_clean; [|lia|].
Qed.

End job.

(** ** Examples *)

(** Blocks of 512 bytes on two zones of 1024 bytes. *)
Definition ex_opts : zbd_opts := Opts (fun _ => 512) false false false true true false 0 false 1 0.
Definition ex_file : fio_file := File 0 2048 2048 0 2.
Definition ex_unit (d : fio_ddir) (off len : Z) : io_u := IoU d off len false.
Definition ex_reset : nat -> Z -> Z -> Z := fun _ _ _ => 0.

Lemma ex_job : job_ok id ex_opts.
Proof. by constructor. Qed.



(** Two zones of a file of 2100 bytes, one of them open at a time: two writes in flight fill the first,
    the third makes the job wait and goes to the second, and a read follows. *)
Definition ex_ops : list zop :=
  [Issue (ex_unit DDIR_WRITE 0 512) FIO_Q_QUEUED 0; Issue (ex_unit DDIR_WRITE 512 512) FIO_Q_QUEUED 0; Issue (ex_unit DDIR_WRITE 1024 512) FIO_Q_QUEUED 0; Wait;
   Issue (ex_unit DDIR_READ 0 512) FIO_Q_COMPLETED 0].

Lemma job_safe_witness : exists s',
  job ex_reset id ex_opts 1 (File 0 2048 2100 0 0) ex_ops (emulated 1024 1024 3 1) = Some (true, s') /\
    sectors_with_data s' = 1536 /\
  idle ex_opts (set_file_zones (emulated 1024 1024 3 1) (File 0 2048 2100 0 0)) s'.
Proof.
  assert (L : Forall (legal (set_file_zones (emulated 1024 1024 3 1) (File 0 2048 2100 0 0))) ex_ops).
  { repeat (constructor; [first [done|split; [first [by left|by right]|]; split; [done|]; split; [by vm_compute|];
      split; done]|]). constructor. }
  pose proof (job_safe ex_reset id ex_opts (fun _ _ => inl 0) true true 2100 1024 0 1 false (inr 0) 0 0 (File 0 2100 2100
    0 0) (File 0 2048 2100 0 0) (emulated 1024 1024 3 1) ex_ops
    ex_job eq_refl eq_refl ltac:(lia) ltac:(lia) ltac:(lia) ltac:(lia) ltac:(lia) ltac:(cbn; lia) ltac:(cbn;
      lia) ltac:(cbn; lia) eq_refl ltac:(vm_compute; reflexivity) ltac:(vm_compute; reflexivity) L) as H.
  assert (E : (fun '(r, t) => (r, sectors_with_data t)) <$> job ex_reset id ex_opts 1 (File 0 2048 2100 0 0) ex_ops
    (emulated 1024 1024 3 1) = Some (true, 1536)) by (vm_compute; reflexivity).
  unfold safe_job, post in H. destruct (job _ _ _ _ _ _ _) as [[r s']|]; [|done].
  cbn [fmap option_fmap option_map] in E. injection E as -> Es. exists s'. split; [done|]. split; [done|]. apply H.
Defined.

(** A write that fills the only zone that may be open, and that the engine is too busy for, leaves the
    zone open: the next write finds no zone, although the other one is empty. The callback that would
    close it has been taken away. *)
Example busy_keeps_open :
  fst <$> (run ex_reset id ex_opts ex_file [Issue (ex_unit DDIR_WRITE 0 1024) FIO_Q_BUSY 0] ;;
    zbd_adjust_block ex_reset id ex_opts ex_file (ex_unit DDIR_WRITE 1024 512)) (emulated 1024 1024 2 1)
  = Some (io_u_eof, ex_unit DDIR_WRITE 1024 512).
Proof. vm_compute. reflexivity. Qed.

(** A sequential read ends at an offline zone, although a zone behind it has data. *)
Example read_stops_offline :
  let s := emulated 1024 1024 3 0 in
  let off_line := Zone 1024 1024 1024 0 ZBD_ZONE_TYPE_SWR ZBD_ZONE_COND_OFFLINE true false false O in
  fst <$> zbd_adjust_block ex_reset id ex_opts (File 0 3072 3072 0 3) (ex_unit DDIR_READ 0 512)
    (set_zones [empty_zone 1024 1024 0; off_line; set_wp 3072 (empty_zone 1024 1024 2);
      sentinel 3072] s) = Some (io_u_eof, ex_unit DDIR_READ 0 512) /\
  fst <$> zbd_adjust_block ex_reset id ex_opts (File 0 3072 3072 0 3) (ex_unit DDIR_READ 0 512)
    (set_zones [empty_zone 1024 1024 0; empty_zone 1024 1024 1; set_wp 3072 (empty_zone 1024 1024 2);
      sentinel 3072] s) = Some (io_u_accept, IoU DDIR_READ 2048 512 true).
Proof. split; vm_compute; reflexivity. Qed.

(** A job that skips every other zone moves [file_offset], against which offsets are checked: when the
    only zone that may be open has been filled by a write in flight, the search for the next one leaves
    the moved part and fails an assertion. *)
Example skip_aborts :
  let s0 := emulated 1024 1024 8 1 in
  let f := File 0 8192 8192 0 8 in
  exists s1 g,
    run ex_reset id ex_opts f [Issue (ex_unit DDIR_WRITE 0 1024) FIO_Q_QUEUED 0] s0 = Some (tt, s1) /\
    setup_zbd_zone_mode ex_opts 1024 1024 0 DDIR_WRITE s1 f 1024 1024 0 = Some (g, 2048, 0, 1024) /\
      is_valid_offset g 2048 = true /\
    zbd_adjust_block ex_reset id ex_opts g (ex_unit DDIR_WRITE 2048 512) s1 = None.
Proof.
  eexists. eexists. split; [vm_compute; reflexivity|]. split; [vm_compute; reflexivity|].
  split; vm_compute; reflexivity.
Qed.
