(* ===== verification/ZbdReport.v ===== *)
(** * Zoned block devices: the report of a device (src/fio/zbd.c)

    However a device splits the report of its zones, all of them are read; after that a job on the device is safe. *)

From S2P Require Import Prelude Zbd ZbdProofs ZbdWrite ZbdSpec ZbdInit.

Open Scope Z_scope.

(** The zone that an entry is read as. *)
Definition zone_of (r : zbd_zone) : fio_zone_info :=
  Zone (r_start r) (if decide (r_cond r = ZBD_ZONE_COND_NOT_WP \/ r_cond r = ZBD_ZONE_COND_FULL) then r_start r + r_capacity r else r_wp r) (r_capacity r) 0
    (r_type r) (r_cond r) (bool_decide (r_type r = ZBD_ZONE_TYPE_SWR)) false false O.

(** Whether the pointer of the entry counts. *)
Definition no_wp (r : zbd_zone) : Prop := r_cond r = ZBD_ZONE_COND_NOT_WP \/ r_cond r = ZBD_ZONE_COND_FULL.

Section report.
(** A device with the zones [tab] of [zs] bytes each, and its answers: zones from an offset on, one at
    least and no more than asked for. *)
Context (report_zones : Z -> nat -> Z + list zbd_zone) (tab : list zbd_zone) (zs : Z).

Record table : Prop := {
  t_size : 0 < zs; t_some : (0 < length tab)%nat;
  t_int : Z.of_nat (length tab) < 2 ^ 31; t_bytes : Z.of_nat (length tab) * zs <= 2 ^ 52;
  t_start i r : tab !! i = Some r -> r_start r = Z.of_nat i * zs; t_len i r : tab !! i = Some r -> r_len r = zs;
  t_wp i r : tab !! i = Some r -> ~ no_wp r -> r_start r <= r_wp r <= r_start r + zs;
  t_report i n : (i < length tab)%nat -> (0 < n)%nat -> exists k, (0 < k <= n)%nat /\ report_zones (Z.of_nat i * zs) n = inr (take k (drop i tab)) }.

Context (T : table).

Notation nr := (length tab).

Lemma parse_zone_of i r : tab !! i = Some r -> parse_zone zs r = Some (zone_of r).
Proof. intros H. unfold parse_zone, zone_of. case_decide as Hc; [done|]. pose proof (t_wp T i r H Hc).
  by rewrite decide_True by lia. Qed.

(** The entries [i] to [i + k - 1] behind those before them. *)
Lemma parse_report_tab k : forall i, (i <= nr)%nat -> parse_report zs nr (take k (drop i tab)) (zone_of <$> take i
  tab) = Some (inr (zone_of <$> take (i + k) tab)).
Proof.
  induction k as [|k IH]; intros i Hi; [by rewrite take_0, Nat.add_0_r|]. destruct (tab !! i) as [r|] eqn:Hr.
  - rewrite (drop_S _ _ _ Hr). cbn [take parse_report]. pose proof (lookup_lt_Some _ _ _ Hr).
    rewrite decide_False by (rewrite length_fmap, length_take; lia). rewrite (parse_zone_of i r Hr).
    cbn [mbind option_bind].
    assert (Ea : (zone_of <$> take i tab) ++ [zone_of r] = zone_of <$> take (S i) tab) by (by rewrite (take_S_r _ _ r
      Hr), fmap_app).
    assert (Hl : forall p, last (zone_of <$> take i tab) = Some p -> z_start p + zs = Z.of_nat i * zs).
    { intros p Hp. destruct i as [|i]; [by rewrite take_0 in Hp|]. destruct (lookup_lt_is_Some_2 tab i) as [q Hq];
        [lia|]. rewrite fmap_last, (take_S_r _ _ q Hq), last_snoc in Hp. injection Hp as <-.
      cbn [zone_of z_start]. rewrite (t_start T i q Hq). lia. }
    rewrite Ea, <- Nat.add_succ_comm. pose proof (t_start T i r Hr) as Hs. destruct (last _) as [p|]; [|by apply IH].
    rewrite decide_False; [by apply IH|]. rewrite (Hl p eq_refl). cbn [zone_of z_start]. lia.
  - apply lookup_ge_None in Hr. rewrite drop_ge, take_nil by lia. cbn [parse_report]. by rewrite !take_ge by lia.
Qed.

Lemma report_some i n : (i < nr)%nat -> (0 < n)%nat -> exists k, (0 < k <= nr - i)%nat /\
  zbd_report_zones report_zones (Z.of_nat i * zs) n = inr (take k (drop i tab)).
Proof.
  intros Hi Hn. destruct (t_report T i n Hi Hn) as (k & Hk & E). exists (Nat.min k (nr - i)). split; [lia|].
  unfold zbd_report_zones. rewrite E.
  replace (take (Nat.min k (nr - i)) (drop i tab)) with (take k (drop i tab)) by (rewrite <- take_take; f_equal;
    symmetry; apply take_ge; rewrite length_drop; lia).
  destruct (lookup_lt_is_Some_2 tab i Hi) as [r Hr]. rewrite (drop_S _ _ _ Hr). destruct k; [lia|done].
Qed.

Lemma last_entry i k : (0 < k)%nat -> (i + k <= nr)%nat -> exists l, last (take k (drop i tab)) = Some l /\
  r_start l + r_len l = Z.of_nat (i + k) * zs.
Proof.
  intros Hk Hi. destruct (lookup_lt_is_Some_2 tab (i + (k - 1))) as [l Hl]; [lia|]. exists l. split.
  - rewrite last_lookup, length_take, length_drop. replace (Nat.pred (Nat.min k (nr - i))) with (k - 1)%nat by lia.
    rewrite lookup_take_lt by lia. by rewrite lookup_drop.
  - rewrite (t_start T _ _ Hl), (t_len T _ _ Hl).
    replace (Z.of_nat (i + k)) with (Z.of_nat (i + (k - 1)) + 1) by lia. lia.
Qed.

(** Every round reads a zone at least. *)
Lemma parse_loop_tab fuel : forall i k, (nr - i < fuel)%nat -> (0 < k <= nr - i)%nat ->
  parse_loop report_zones fuel zs nr (take k (drop i tab)) (zone_of <$> take i tab) = Some (inr (zone_of <$> tab,
    Z.of_nat nr * zs)).
Proof.
  induction fuel as [|fuel IH]; intros i k Hf Hk; [lia|]. cbn [parse_loop]. rewrite parse_report_tab by lia.
  cbn [mbind option_bind]. destruct (last_entry i k ltac:(lia) ltac:(lia)) as (l & El & Hl). rewrite El.
  cbn [mbind option_bind].
  rewrite Hl, length_fmap, length_take. case_decide as Hd.
  - replace (i + k)%nat with nr by lia. by rewrite firstn_all.
  - destruct (report_some (i + k) (Nat.min (nr - Nat.min (i + k) nr) ZBD_REPORT_MAX_ZONES)) as (k' & Hk' & E);
      [lia|unfold ZBD_REPORT_MAX_ZONES; lia|]. rewrite E. apply IH; lia.
Qed.

Lemma head_report k : (0 < k)%nat -> exists r, head (take k (drop 0 tab)) = Some r /\ r_len r = zs.
Proof.
  intros Hk. destruct (lookup_lt_is_Some_2 tab 0) as [r Hr]; [apply (t_some T)|]. exists r.
  split; [|by apply (t_len T 0)]. rewrite (drop_S _ _ _ Hr). by destruct k; [lia|].
Qed.

(** What is read from the device: all of its zones, and a sentinel behind them. *)
Definition reported (m : zbd_zoned_model) : zoned_block_device_info := new_info m zs nr ((zone_of <$> tab) ++ [sentinel (Z.of_nat nr * zs)]).

Lemma report_parse room mem m opt :
  parse_zone_info report_zones room mem m (Z.of_nat nr * zs) opt =
    if negb room then Some (inl (- ENOMEM)) else if decide (opt <> 0 /\ opt <> zs) then Some (inl (- EINVAL)) else if mem then Some (inr (reported m)) else Some
      (inl (- ENOMEM)).
Proof.
  pose proof (t_size T) as Hz. pose proof (t_some T). pose proof (t_int T) as Hi. pose proof (t_bytes T).
  unfold parse_zone_info. destruct room; [|done]. cbn [negb]. change 0 with (Z.of_nat 0 * zs) at 1.
  destruct (report_some 0 ZBD_REPORT_MAX_ZONES) as (k & Hk & ->); [lia|unfold ZBD_REPORT_MAX_ZONES; lia|].
  destruct (head_report k ltac:(lia)) as (r0 & -> & El). cbn [mbind option_bind]. rewrite El, decide_False by lia.
  case_decide; [done|]. destruct mem; [|done]. cbn [negb].
  assert (En : i32 (u64 (Z.of_nat nr * zs + zs - 1) / zs) = Z.of_nat nr).
  { assert (zs <= Z.of_nat nr * zs) by (rewrite <- (Z.mul_1_l zs) at 1; apply Z.mul_le_mono_nonneg_r;
      lia). rewrite wrapu_small by lia. replace (Z.of_nat nr * zs + zs - 1) with (zs - 1 + Z.of_nat nr * zs) by lia.
    rewrite Z.div_add, Z.div_small by lia. apply i32_small. unfold i32_ok. lia. }
  rewrite En, decide_False, Nat2Z.id by lia. rewrite decide_False by lia.
  pose proof (parse_loop_tab (S nr) 0 k ltac:(lia) ltac:(lia)) as E. rewrite take_0 in E. cbn [fmap list_fmap] in E.
  rewrite E. cbn [mbind option_bind].
  unfold reported. rewrite take_ge by (rewrite length_fmap; lia).
  rewrite lookup_ge_None_2 by (rewrite length_fmap; lia). done.
Qed.

(** C16: The zones of a device are read from reports that the device splits as it likes, each of one zone
    at least: the loop ends, no assertion fails, nothing is written outside the array, and the
    description holds exactly the zones of the device in their order (the write pointer of a full zone
    and of one without a pointer is the end of its capacity), with a sentinel behind them; a zone size
    asked for that is not the device's is an error, and so is a lack of memory. *)
Theorem report_read room mem m opt :
  parse_zone_info report_zones room mem m (Z.of_nat nr * zs) opt =
    if negb room then Some (inl (- ENOMEM)) else if decide (opt <> 0 /\ opt <> zs) then Some (inl (- EINVAL)) else if mem then Some (inr (reported m)) else Some
      (inl (- ENOMEM)).
Proof. apply report_parse. Qed.





End report.

(** ** An example *)

(** A device of a zone with data and a full one, whose pointer means nothing, that reports one zone at a
    time. *)
Definition ex_tab : list zbd_zone := [ZbdZone 0 512 1024 1024 ZBD_ZONE_TYPE_SWR ZBD_ZONE_COND_CLOSED; ZbdZone 1024 0 1024 1024 ZBD_ZONE_TYPE_SWR ZBD_ZONE_COND_FULL].
Definition ex_report (off : Z) (n : nat) : Z + list zbd_zone := inr (take 1 (drop (Z.to_nat (off / 1024)) ex_tab)).

Lemma ex_table : table ex_report ex_tab 1024.
Proof.
  constructor; try (cbn; lia).
  - intros i r H. destruct i as [|[|i]]; [by injection H as <-|by injection H as <-|done].
  - intros i r H. destruct i as [|[|i]]; [by injection H as <-|by injection H as <-|done].
  - intros i r H Hc. destruct i as [|[|i]]; [by injection H as <-|injection H as <-; exfalso; apply Hc;
      by right|done].
  - intros i n Hi Hn. exists 1%nat. split; [lia|]. unfold ex_report. rewrite Z.div_mul by lia. by rewrite Nat2Z.id.
Qed.

Lemma report_read_witness : parse_zone_info ex_report true true ZBD_HOST_MANAGED 2048 1024 = Some (inr (reported ex_tab
  1024 ZBD_HOST_MANAGED)).
Proof. exact (report_read ex_report ex_tab 1024 ex_table true true ZBD_HOST_MANAGED 1024). Defined.

