(* ===== verification/ZbdShare.v ===== *)
(** * Zoned block devices: sharing descriptions (src/fio/zbd.c)

    Files of the same name, of one job or of several, share one description of the device, which counts them. *)

From S2P Require Import Prelude.

Open Scope Z_scope.

(** ** State *)

(** The files of all jobs with their names and descriptions, and the reference counts of the
    descriptions; [None] is freed memory. *)
Record world := World { files : list (string * option nat); infos : list (option Z) }.

(** The first other file of that name that has a description. *)
Fixpoint find_shared (me : nat) (name : string) (j : nat) (l : list (string * option nat)) : option nat :=
  match l with
  | [] => None
  | (n, info) :: l' =>
      if decide (j = me) then find_shared me name (S j) l'
      else match info with
           | Some k => if decide (n = name) then Some k else find_shared me name (S j) l'
           | None => find_shared me name (S j) l'
           end
  end.

Definition set_info (i : nat) (name : string) (info : option nat) (w : world) : world := World (<[i := (name, info)]> (files w)) (infos w).
Definition set_count (k : nat) (c : option Z) (w : world) : world := World (files w) (<[k := c]> (infos w)).

(** ** Operations *)

(** [created] is the result of [zbd_create_zone_info], which leaves no description behind when it fails. *)
Definition zbd_init_zone_info (i : nat) (created : Z) (w : world) : option (Z * world) :=
  '(name, _) ← files w !! i;
  match find_shared i name 0 (files w) with
  | Some k => c ← infos w !! k; c ← c; Some (0, set_info i name (Some k) (set_count k (Some (u32 (c + 1))) w))
  | None => if decide (created = 0) then Some (0, World (<[i := (name, Some (length (infos w)))]> (files w)) (infos w ++ [Some 1])) else Some (created, w)
  end.

(** The files of a job are those from [i] on; an error ends the loop. *)
Fixpoint zbd_init_files (created : list Z) (i : nat) (w : world) : option (Z * world) :=
  match created with
  | [] => Some (0, w)
  | c :: created' => '(r, w) ← zbd_init_zone_info i c w; if decide (r <> 0) then Some (1, w) else zbd_init_files created' (S i) w
  end.

Definition zbd_free_zone_info (i : nat) (w : world) : option world :=
  '(name, info) ← files w !! i;
  k ← info;
  c ← infos w !! k;
  c ← c;
  let refcount := u32 (c - 1) in
  if decide (i32 refcount < 0) then None else Some (set_info i name None (set_count k (if decide (refcount = 0) then None else Some refcount) w)).

Definition zbd_close_file (i : nat) (w : world) : option world :=
  '(_, info) ← files w !! i; match info with Some _ => zbd_free_zone_info i w | None => Some w end.

(** ** Invariant *)

(** The number of files that use description [k]. *)
Definition users (k : nat) (l : list (string * option nat)) : nat := length (filter (fun f => f.2 = Some k) l).

(** Counts are exact, only descriptions that are not freed are used, and files share a description
    exactly when they have the same name. *)
Record shared (w : world) : Prop := {
  sh_small : Z.of_nat (length (files w)) < 2 ^ 31;
  sh_count k c : infos w !! k = Some c -> c = (if decide (users k (files w) = O) then None else Some (Z.of_nat (users k (files w))));
  sh_live i n k : files w !! i = Some (n, Some k) -> (k < length (infos w))%nat;
  sh_same i j n m k l : files w !! i = Some (n, Some k) -> files w !! j = Some (m, Some l) -> n = m <-> k = l }.

Lemma users_cons k n o l : users k ((n, o) :: l) = ((if decide (o = Some k) then 1 else 0) + users k l)%nat.
Proof. unfold users. rewrite filter_cons. destruct (decide (o = Some k)) as [->|Hne];
  [by rewrite decide_True|by rewrite decide_False]. Qed.

Lemma users_insert k l i n o n' o' : l !! i = Some (n, o) -> (users k (<[i := (n',
  o')]> l) + (if decide (o = Some k) then 1 else 0) = users k l + (if decide (o' = Some k) then 1 else 0))%nat.
Proof.
  revert i. induction l as [|[m p] l IH]; intros [|i] H; try done; [change (<[0%nat := _]> ((m, p) :: l)) with ((n',
    o') :: l)|change (<[S i := _]> ((m, p) :: l)) with ((m, p) :: <[i := (n', o')]> l)]; rewrite !users_cons.
  - injection H as -> ->. repeat case_decide; lia.
  - specialize (IH i H). repeat case_decide; lia.
Qed.

Lemma users_le k l : (users k l <= length l)%nat.
Proof. unfold users. apply length_filter. Qed.

Lemma users_pos k l i n : l !! i = Some (n, Some k) -> users k l <> O.
Proof. intros H. pose proof (users_insert k l i n (Some k) n None H) as E.
  rewrite decide_True, decide_False in E by done. lia. Qed.

Lemma users_none k l : users k l = O -> forall i n, l !! i <> Some (n, Some k).
Proof. intros H i n Hi. by apply (users_pos k l i n). Qed.

Lemma find_shared_Some me name l : forall j k, find_shared me name j l = Some k -> exists i, l !! i = Some (name,
  Some k) /\ (j + i)%nat <> me.
Proof.
  induction l as [|[n info] l IH]; intros j k; cbn [find_shared]; [done|].
  assert (Hrec : find_shared me name (S j) l = Some k -> exists i, ((n, info) :: l) !! i = Some (name, Some k) /\
    (j + i)%nat <> me).
  { intros H. destruct (IH _ _ H) as (i & Hi & Hne). exists (S i). split; [done|lia]. }
  case_decide; [done|]. destruct info as [k'|]; [|done]. case_decide; [|done]. intros [= ->]. exists O. subst n.
  split; [done|lia].
Qed.

Lemma find_shared_None me name l : forall j, find_shared me name j l = None -> forall i k, l !! i = Some (name,
  Some k) -> (j + i)%nat = me.
Proof.
  induction l as [|[n info] l IH]; intros j; cbn [find_shared]; [done|]. intros H i k Hi. destruct i as [|i].
  - injection Hi as -> ->. case_decide; [lia|]. by rewrite decide_True in H by done.
  - replace (j + S i)%nat with (S j + i)%nat by lia. apply (IH (S j)) with k; [|done]. case_decide; [done|].
    destruct info; [|done]. by case_decide.
Qed.

Lemma lookup_file (l : list (string * option nat)) i n o x j y : l !! i = Some (n, o) ->
  <[i := x]> l !! j = Some y -> (j = i /\ y = x) \/ (j <> i /\ l !! j = Some y).
Proof.
  intros Hi Hy. destruct (decide (j = i)) as [->|Hne]; [|rewrite list_lookup_insert_ne in Hy by done; by right].
  rewrite list_lookup_insert_eq in Hy by (by eapply lookup_lt_Some). left. split; [done|congruence].
Qed.

Lemma live_count w i n k : shared w -> files w !! i = Some (n, Some k) ->
  infos w !! k = Some (Some (Z.of_nat (users k (files w)))) /\ 0 < Z.of_nat (users k (files w)) < 2 ^ 31.
Proof.
  intros S Hi. destruct (lookup_lt_is_Some_2 (infos w) k) as [c Hc]; [by eapply (sh_live _ S)|].
  pose proof (users_pos _ _ _ _ Hi). pose proof (users_le k (files w)). pose proof (sh_small _ S).
  split; [|lia]. rewrite Hc. f_equal. rewrite (sh_count _ S k c Hc). by rewrite decide_False.
Qed.

(** File [i] joins the users of description [k]. *)
Lemma shared_join w i j n k : shared w -> files w !! i = Some (n, None) -> files w !! j = Some (n, Some k) ->
  shared (set_info i n (Some k) (set_count k (Some (Z.of_nat (users k (files w)) + 1)) w)).
Proof.
  intros S Hi Hj. destruct (live_count w j n k S Hj) as [Hk Hu]. constructor; cbn [set_info set_count files infos].
  - rewrite length_insert. apply (sh_small _ S).
  - intros k' c Hc. pose proof (users_insert k' (files w) i n None n (Some k) Hi) as E.
    rewrite (decide_False (P := None = Some k')) in E by done. destruct (decide (k' = k)) as [->|Hne].
    + rewrite list_lookup_insert_eq in Hc by (by eapply lookup_lt_Some). injection Hc as <-.
      rewrite decide_True in E by done. rewrite decide_False by lia. f_equal. lia.
    + rewrite list_lookup_insert_ne in Hc by done. rewrite decide_False in E by congruence.
      rewrite (sh_count _ S k' c Hc). by replace (users k' (<[i := (n,
        Some k)]> (files w))) with (users k' (files w)) by lia.
  - intros x m l Hx. rewrite length_insert.
    destruct (lookup_file _ _ _ _ _ _ _ Hi Hx) as [[_ [= -> ->]]|[_ Hx']];
      [by eapply lookup_lt_Some|by eapply (sh_live _ S)].
  - intros x y a b ka kb Hx Hy. destruct (lookup_file _ _ _ _ _ _ _ Hi Hx) as [[_ [= -> ->]]|[_ Hx']],
      (lookup_file _ _ _ _ _ _ _ Hi Hy) as [[_ [= -> ->]]|[_ Hy']]; [done| | |by eapply (sh_same _ S)].
    + by eapply (sh_same _ S j y).
    + by eapply (sh_same _ S x j).
Qed.

(** File [i] gets a description of its own. *)
Lemma shared_new w i n : shared w -> files w !! i = Some (n, None) -> find_shared i n 0 (files w) = None ->
  shared (World (<[i := (n, Some (length (infos w)))]> (files w)) (infos w ++ [Some 1])).
Proof.
  intros S Hi Hf. assert (H0 : users (length (infos w)) (files w) = O).
  { destruct (users (length (infos w)) (files w)) eqn:E; [done|]. unfold users in E. destruct (filter _ (files w)) as
      [|[m p] l] eqn:El; [done|].
    assert (Hin : (m, p) ∈ filter (fun f => f.2 = Some (length (infos w))) (files w)) by (rewrite El; left).
    apply list_elem_of_filter in Hin as [Hp Hin]. cbn in Hp. subst p.
    apply list_elem_of_lookup in Hin as (x & Hx). pose proof (sh_live _ S x m _ Hx). lia. }
  constructor; cbn [files infos].
  - rewrite length_insert. apply (sh_small _ S).
  - intros k c Hc. pose proof (users_insert k (files w) i n None n (Some (length (infos w))) Hi) as E.
    rewrite (decide_False (P := None = Some k)) in E by done. apply lookup_app_Some in Hc as [Hc|[Hl Hc]].
    + pose proof (lookup_lt_Some _ _ _ Hc). rewrite decide_False in E by (intros [= E']; lia).
      rewrite (sh_count _ S k c Hc). by replace (users k (<[i := (n,
        Some (length (infos w)))]> (files w))) with (users k (files w)) by lia.
    + apply list_lookup_singleton_Some in Hc as [Hk <-]. assert (k = length (infos w)) as -> by lia.
      rewrite decide_True in E by done. rewrite decide_False by lia. f_equal. lia.
  - intros x m l Hx. rewrite length_app. cbn [length].
    destruct (lookup_file _ _ _ _ _ _ _ Hi Hx) as [[_ [= -> ->]]|[_ Hx']]; [lia|].
    pose proof (sh_live _ S x m l Hx'). lia.
  - assert (Hoth : forall x m l, x <> i -> files w !! x = Some (m, Some l) -> n = m <-> length (infos w) = l).
    { intros x m l Hx Hxl. pose proof (sh_live _ S x m l Hxl). split;
        [intros ->|lia]. exfalso. apply Hx. exact (find_shared_None i m (files w) 0 Hf x l Hxl). }
    intros x y a b ka kb Hx Hy. destruct (lookup_file _ _ _ _ _ _ _ Hi Hx) as [[_ [= -> ->]]|[Hne Hx']],
      (lookup_file _ _ _ _ _ _ _ Hi Hy) as [[_ [= -> ->]]|[Hne' Hy']]; [done| | |by eapply (sh_same _ S)].
    + by apply (Hoth y).
    + pose proof (Hoth x a ka Hne Hx') as [H1 H2]. split; intros H; symmetry; [apply H1|apply H2]; done.
Qed.

(** File [i] leaves the users of description [k]; the last one frees it. *)
Lemma shared_leave w i n k : shared w -> files w !! i = Some (n, Some k) ->
  shared (set_info i n None (set_count k (if decide (users k (files w) = 1%nat) then None else Some (Z.of_nat (users
    k (files w)) - 1)) w)).
Proof.
  intros S Hi. destruct (live_count w i n k S Hi) as [Hk Hu]. constructor; cbn [set_info set_count files infos].
  - rewrite length_insert. apply (sh_small _ S).
  - intros k' c Hc. pose proof (users_insert k' (files w) i n (Some k) n None Hi) as E.
    rewrite (decide_False (P := None = Some k')) in E by done. destruct (decide (k' = k)) as [->|Hne].
    + rewrite list_lookup_insert_eq in Hc by (by eapply lookup_lt_Some). injection Hc as <-.
      rewrite decide_True in E by done. repeat case_decide; try lia; [done|]. f_equal. lia.
    + rewrite list_lookup_insert_ne in Hc by done. rewrite decide_False in E by congruence.
      rewrite (sh_count _ S k' c Hc). by replace (users k' (<[i := (n,
        None)]> (files w))) with (users k' (files w)) by lia.
  - intros x m l Hx. rewrite length_insert. destruct (lookup_file _ _ _ _ _ _ _ Hi Hx) as [[_ [=]]|[_ Hx']].
    by eapply (sh_live _ S).
  - intros x y a b ka kb Hx Hy. destruct (lookup_file _ _ _ _ _ _ _ Hi Hx) as [[_ [=]]|[_ Hx']],
      (lookup_file _ _ _ _ _ _ _ Hi Hy) as [[_ [=]]|[_ Hy']]. by eapply (sh_same _ S).
Qed.

(** ** Runs *)

Lemma init_shared w i n created : shared w -> files w !! i = Some (n, None) ->
  exists r w', zbd_init_zone_info i created w = Some (r, w') /\ shared w' /\
    ((r = 0 /\ exists k, files w' = <[i := (n, Some k)]> (files w) /\ forall j l, j <> i -> files w !! j = Some (n,
      Some l) -> k = l) \/
     (r <> 0 /\ r = created /\ w' = w /\ forall j l, j <> i -> files w !! j <> Some (n, Some l))).
Proof.
  intros S Hi. unfold zbd_init_zone_info. rewrite Hi. cbn [mbind option_bind].
  destruct (find_shared i n 0 (files w)) as [k|] eqn:Hf.
  - destruct (find_shared_Some _ _ _ _ _ Hf) as (j & Hj & _). destruct (live_count w j n k S Hj) as [Hk Hu].
    rewrite Hk. cbn [mbind option_bind]. rewrite wrapu_small by lia. do 2 eexists. split; [reflexivity|].
    split; [by eapply shared_join|].
    left. split; [done|]. exists k. split; [done|]. intros x l _ Hx. by apply (sh_same _ S j x n n k l Hj Hx).
  - assert (Hno : forall j l, j <> i -> files w !! j <> Some (n, Some l)) by (intros j l Hne Hj; apply Hne;
      exact (find_shared_None i n (files w) 0 Hf j l Hj)).
    case_decide as Hc; do 2 eexists; (split; [reflexivity|]).
    + split; [by apply shared_new|]. left. split; [done|]. eexists. split; [reflexivity|]. intros j l Hne Hj.
      by apply Hno in Hj.
    + split; [done|]. by right.
Qed.

Lemma close_shared w i n info : shared w -> files w !! i = Some (n, info) -> exists w',
  zbd_close_file i w = Some w' /\ shared w' /\ files w' = <[i := (n, None)]> (files w) /\
  forall k, info = Some k -> (infos w' !! k = Some None <-> forall j m, j <> i -> files w !! j <> Some (m, Some k)).
Proof.
  intros S Hi. unfold zbd_close_file. rewrite Hi. cbn [mbind option_bind]. destruct info as [k|].
  2:{ exists w. split; [done|]. split; [done|]. split; [symmetry; by apply list_insert_id|done]. }
  destruct (live_count w i n k S Hi) as [Hk Hu]. unfold zbd_free_zone_info. rewrite Hi. cbn [mbind option_bind].
  rewrite Hk. cbn [mbind option_bind]. rewrite wrapu_small by lia. rewrite i32_small by (unfold i32_ok; lia).
  rewrite decide_False by lia.
  pose proof (shared_leave w i n k S Hi) as S'. pose proof (users_insert k (files w) i n (Some k) n None Hi) as E.
  rewrite decide_True, decide_False in E by done. eexists. split; [reflexivity|].
  replace (if decide (Z.of_nat (users k (files w)) - 1 = 0) then None else Some (Z.of_nat (users k (files w)) - 1))
    with (if decide (users k (files w) = 1%nat) then None else Some (Z.of_nat (users k (files w)) - 1)) by (repeat
    case_decide; (done || lia)).
  split; [done|]. split; [done|]. intros k' [= <-]. cbn [set_info set_count infos].
  rewrite list_lookup_insert_eq by (by eapply lookup_lt_Some). split.
  - intros Hn j m Hne Hj. case_decide as Hone; [|done].
    apply (users_none k (<[i := (n, None)]> (files w)) ltac:(lia) j m). by rewrite list_lookup_insert_ne.
  - intros Hno. rewrite decide_True; [done|]. destruct (users k (<[i := (n, None)]> (files w))) eqn:Eu; [lia|].
    exfalso. unfold users in Eu. destruct (filter _ (<[i := (n, None)]> (files w))) as [|[m p] l] eqn:El; [done|].
    assert (Hin : (m, p) ∈ filter (fun f => f.2 = Some k) (<[i := (n, None)]> (files w))) by (rewrite El; left).
    apply list_elem_of_filter in Hin as [Hp Hin]. cbn in Hp. subst p.
    apply list_elem_of_lookup in Hin as (x & Hx). destruct (lookup_file _ _ _ _ _ _ _ Hi Hx) as [[_ [=]]|[Hne Hx']].
    by apply (Hno x m).
Qed.

(** Files without a description are given one, and any file is closed, in any order. *)
Inductive share_step (w : world) : world -> Prop :=
  | step_init i n created r w' : files w !! i = Some (n, None) -> zbd_init_zone_info i created w = Some (r, w') -> share_step w w'
  | step_close i w' : zbd_close_file i w = Some w' -> share_step w w'.

Definition unopened (names : list string) : world := World ((fun n => (n, None)) <$> names) [].

Lemma unopened_shared names : Z.of_nat (length names) < 2 ^ 31 -> shared (unopened names).
Proof.
  intros H. assert (Hn : forall i n k, files (unopened names) !! i <> Some (n, Some k)) by (intros i n k;
    cbn [files unopened]; rewrite list_lookup_fmap; by destruct (names !! i)).
  constructor; [by cbn [files unopened]; rewrite length_fmap|done| |]; intros i; intros; by exfalso; eapply Hn.
Qed.

Lemma step_shared w w' : shared w -> share_step w w' -> shared w' /\ length (files w') = length (files w).
Proof.
  intros S H. destruct H as [i n created r w' Hi H|i w' H].
  - destruct (init_shared w i n created S Hi) as (r' & w'' & E & S' & Hr). assert (w'' = w') as -> by congruence.
    split; [done|]. destruct Hr as [(_ & k & -> & _)|(_ & _ & -> & _)]; [apply length_insert|done].
  - destruct (files w !! i) as [[n info]|] eqn:Hi; [|by unfold zbd_close_file in H; rewrite Hi in H].
    destruct (close_shared w i n info S Hi) as (w'' & E & S' & Ef & _). assert (w'' = w') as -> by congruence.
    split; [done|]. rewrite Ef. apply length_insert.
Qed.

(** The files of a job, none of which has a description yet. *)
Lemma init_files_shared created : forall i w, shared w -> (forall j, (j < length created)%nat -> exists n,
  files w !! (i + j)%nat = Some (n, None)) ->
  exists r w', zbd_init_files created i w = Some (r, w') /\ shared w' /\ (Forall (fun c => c = 0) created -> r = 0).
Proof.
  induction created as [|c created IH]; intros i w Sh Hf; cbn [zbd_init_files]; [by exists 0, w|].
  destruct (Hf 0%nat) as (n & Hi); [cbn; lia|]. rewrite Nat.add_0_r in Hi.
  destruct (init_shared w i n c Sh Hi) as (r & w1 & -> & S1 & Hr). cbn [mbind option_bind]. case_decide as Hd.
  { exists 1, w1. split; [done|]. split; [done|]. intros F. apply Forall_cons in F as [-> _]. destruct Hr as [[->
      _]|(_ & -> & _)]; done. }
  destruct Hr as [(_ & k & Ef & _)|[? _]]; [|done]. destruct (IH (S i) w1 S1) as (r' & w' & E & S' & Hz).
  { intros j Hj. destruct (Hf (S j)) as (m & Hm); [cbn; lia|]. exists m. rewrite Ef,
      list_lookup_insert_ne by lia. rewrite <- Hm. f_equal. lia. }
  exists r', w'. split; [done|]. split; [done|]. intros F. apply Hz. by apply Forall_cons in F as [_ F].
Qed.

(** C40: Descriptions of zoned devices are shared and freed correctly, in any order in which the files of
    all jobs are given a description and closed: no assertion fails and no freed description is used; the
    reference count is the number of files that use a description, which is freed when the last one of
    them is closed and not before; and files share a description exactly when they have the same name. *)
Theorem descriptions_counted names w : Z.of_nat (length names) < 2 ^ 31 -> rtc share_step (unopened names) w ->
  shared w /\
  (forall i n created, files w !! i = Some (n, None) -> exists r w', zbd_init_zone_info i created w = Some (r, w') /\
    (created = 0 -> r = 0 /\ exists k, files w' !! i = Some (n, Some k))) /\
  (forall i n info, files w !! i = Some (n, info) -> exists w', zbd_close_file i w = Some w' /\
    files w' !! i = Some (n, None) /\
    forall k, info = Some k -> (infos w' !! k = Some None <-> forall j m, j <> i -> files w !! j <> Some (m,
      Some k))).
Proof.
  intros Hn Hr. assert (S : shared w).
  { pose proof (unopened_shared names Hn) as S0. induction Hr as [|w0 w1 w2 H1 _ IH];
      [done|]. apply IH. by apply (step_shared w0). }
  split; [done|]. split.
  - intros i n created Hi. destruct (init_shared w i n created S Hi) as (r & w' & E & _ & Hr'). exists r, w'.
    split; [done|]. intros Hc. destruct Hr' as [(-> & k & Ef & _)|(Hne & -> & _)]; [|done]. split; [done|]. exists k.
    rewrite Ef. apply list_lookup_insert_eq. by eapply lookup_lt_Some.
  - intros i n info Hi. destruct (close_shared w i n info S Hi) as (w' & E & _ & Ef & Hk). exists w'. split; [done|].
    split; [|done]. rewrite Ef. apply list_lookup_insert_eq. by eapply lookup_lt_Some.
Qed.

(** Two jobs on one device and a third on another: the description that two files share outlives the
    first of them. *)
Lemma descriptions_counted_witness : exists w,
  rtc share_step (unopened ["/dev/sda"; "/dev/sdb"; "/dev/sda"]%string) w /\ files w = [("/dev/sda", None);
    ("/dev/sdb", Some 1%nat); ("/dev/sda", Some 0%nat)]%string /\ infos w = [Some 1; Some 1] /\ shared w.
Proof.
  set (names := ["/dev/sda"; "/dev/sdb"; "/dev/sda"]%string).
  set (w3 := World [("/dev/sda", None); ("/dev/sdb", Some 1%nat); ("/dev/sda", Some 0%nat)]%string [Some 1; Some 1]).
  assert (R : rtc share_step (unopened names) w3).
  { eapply rtc_l; [by apply (step_init _ 0 "/dev/sda" 0 0 (World [("/dev/sda", Some 0%nat); ("/dev/sdb", None);
      ("/dev/sda", None)]%string [Some 1])); [|vm_compute]|].
    eapply rtc_l; [by apply (step_init _ 1 "/dev/sdb" 0 0 (World [("/dev/sda", Some 0%nat); ("/dev/sdb", Some 1%nat);
      ("/dev/sda", None)]%string [Some 1; Some 1])); [|vm_compute]|].
    eapply rtc_l; [by apply (step_init _ 2 "/dev/sda" 0 0 (World [("/dev/sda", Some 0%nat); ("/dev/sdb", Some 1%nat);
      ("/dev/sda", Some 0%nat)]%string [Some 2; Some 1])); [|vm_compute]|].
    eapply rtc_l; [by apply (step_close _ 0 w3); vm_compute|]. apply rtc_refl. }
  exists w3. split; [done|]. split; [done|]. split; [done|]. apply (descriptions_counted names w3); [cbn; lia|done].
Defined.
