(* ===== verification/OptValue.v ===== *)
(** * Numbers and units of options (src/fio/parse.c)

    The value of an option such as [size=4k] or [runtime=10m]: a number, and a unit that scales it.
    Texts are lists of
    characters as in [PatternParse]; an arithmetic expression in parentheses is evaluated by the generated parser, a
    parameter. *)

From S2P Require Import Prelude Stream Pattern PatternParse PatternGrammar.

Open Scope Z_scope.

(** ** Units *)

Definition isalpha (c : Z) : bool := ((65 <=? c) && (c <=? 90)) || ((97 <=? c) && (c <=? 122)).

Definition is_separator (c : Z) : bool := (c =? 58) || (c =? 45) || (c =? 44) || (c =? 47).

(** The lower case of a text up to a separator. *)
Fixpoint lower_cut (s : list Z) : list Z :=
  match s with
  | [] => []
  | c :: s' => let c := tolower c in if is_separator c then [] else c :: lower_cut s'
  end.

(** [while (pow--) ret *= mult]. *)
Fixpoint mult_loop (pow : nat) (mult ret : Z) : Z :=
  match pow with
  | O => ret
  | S pow' => mult_loop pow' mult (u64 (ret * mult))
  end.

(** The factor, and whether it is a percentage. *)
Definition __get_mult_bytes (kb_base : Z) (p : option (list Z)) : Z * bool :=
  match p with
  | None => (1, false)
  | Some p =>
      let c := lower_cut p in
      let other := if decide (kb_base = 1000) then 1024 else if decide (kb_base = 1024) then 1000 else kb_base in
      if starts (chars "pib") c then (mult_loop 5 other 1, false)
      else if starts (chars "tib") c then (mult_loop 4 other 1, false)
      else if starts (chars "gib") c then (mult_loop 3 other 1, false)
      else if starts (chars "mib") c then (mult_loop 2 other 1, false)
      else if starts (chars "kib") c then (mult_loop 1 other 1, false)
      else if starts (chars "p") c || starts (chars "pb") c then (mult_loop 5 kb_base 1, false)
      else if starts (chars "t") c || starts (chars "tb") c then (mult_loop 4 kb_base 1, false)
      else if starts (chars "g") c || starts (chars "gb") c then (mult_loop 3 kb_base 1, false)
      else if starts (chars "m") c || starts (chars "mb") c then (mult_loop 2 kb_base 1, false)
      else if starts (chars "k") c || starts (chars "kb") c then (mult_loop 1 kb_base 1, false)
      else if starts (chars "%") c then (1, true)
      else (1, false)
  end.

(** Digits, and signs in front of them. *)
Fixpoint skip_number (digit_seen : bool) (s : list Z) : list Z :=
  match s with
  | [] => []
  | c :: s' => 
      if isdigit c then skip_number true s'
      else if ((c =? 43) || (c =? 45)) && negb digit_seen then skip_number digit_seen s'
      else s
  end.

Definition get_mult_bytes (kb_base : Z) (str : list Z) : Z * bool :=
  if decide (length str < 2)%nat then __get_mult_bytes kb_base (Some str)
  else
    let p := skip_number false str in
    __get_mult_bytes kb_base (if isalpha (ch p) || (ch p =? 37) then Some p else None).

(** Digits and signs anywhere. *)
Definition skip_signed (s : list Z) : list Z := drop (span (fun c => isdigit c || (c =? 43) || (c =? 45)) s) s.

Definition get_mult_time (str : list Z) (is_seconds : bool) : Z :=
  let p := skip_signed str in
  if negb (isalpha (ch p)) then if is_seconds then 1000000 else 1
  else
    let c := tolower <$> p in
    if starts (chars "us") c || starts (chars "usec") c then 1
    else if starts (chars "ms") c || starts (chars "msec") c then 1000
    else if decide (c = chars "s") then 1000000
    else if decide (c = chars "m") then 60 * 1000000
    else if decide (c = chars "h") then 60 * 60 * 1000000
    else if decide (c = chars "d") then 24 * 60 * 60 * 1000000
    else 1.

(** ** Numbers *)

(** [strtoll]: the value, limited to its range, how many characters were read, and whether it was out of range. *)
Definition strtoll (base : Z) (s : list Z) : Z * nat * bool :=
  let '(k, neg) := scan_sign s in
  let prefix := starts_nocase (chars "0x") (drop k s) && isxdigit (ch (drop (k + 2) s)) in
  let k := if decide (base = 16 /\ prefix = true) then (k + 2)%nat else k in
  let d := span (if decide (base = 16) then isxdigit else isdigit) (drop k s) in
  if decide (d = O) then (0, O, false)
  else
    let v := digits_val base (take d (drop k s)) in
    let v := if neg : bool then - v else v in
    (Z.max LONG_MIN (Z.min LONG_MAX v), (k + d)%nat, bool_decide (v < LONG_MIN \/ LONG_MAX < v)).

Section decimal.
(** [arith] is the value of an expression in parentheses, if it is one; [erange] says that [errno] was ERANGE before. *)
Context (arith : list Z -> option Z) (erange : bool) (kb_base : Z).

(** [None] is an error. *)
Definition str_to_decimal (str : list Z) (kilo is_seconds : bool) : option Z :=
  if decide (length str = O) then None
  else
    val ← (match (if decide (ch str = 40) then arith str else None) with
           | Some ival => Some (if negb kilo && is_seconds then Z.quot ival 1000000 else ival)
           | None =>
               let base := match strcasestr str (chars "0x") with Some _ => 16 | None => 10 end in
               let '(val, read, out) := strtoll base str in
               if decide (val = 0 /\ read = O) then None
               else if decide (val = LONG_MAX /\ (out || erange) = true) then None
               else Some val
           end);
    if kilo then
      let '(mult, perc) := get_mult_bytes kb_base str in
      Some (if perc : bool then i64 (- 1 - val) else i64 (val * mult))
    else Some (i64 (val * get_mult_time str is_seconds)).

Definition check_str_bytes (p : list Z) : option Z := str_to_decimal p true false.
Definition check_str_time (p : list Z) (is_seconds : bool) : option Z := str_to_decimal p false is_seconds.
End decimal.

(** ** What a size means *)

Inductive prefix := Kilo | Mega | Giga | Tera | Peta.
Definition power (p : prefix) : Z := match p with Kilo => 1 | Mega => 2 | Giga => 3 | Tera => 4 | Peta => 5 end.
Definition letter (p : prefix) : list Z :=
  match p with Kilo => chars "k" | Mega => chars "m" | Giga => chars "g" | Tera => chars "t" | Peta => chars "p" end.

(** No unit, [b], [k], [kb] and [kib] with their larger relatives, and a percentage. *)
Inductive size_unit := Bytes | Byte | Bare (p : prefix) | WithB (p : prefix) | WithIb (p : prefix) | Percent.

#[export] Instance prefix_eq : EqDecision prefix.
Proof. solve_decision. Defined.
#[export] Instance size_unit_eq : EqDecision size_unit.
Proof. solve_decision. Defined.

Definition size_name (u : size_unit) : list Z :=
  match u with
  | Bytes => []
  | Byte => chars "b"
  | Bare p => letter p
  | WithB p => letter p ++ chars "b"
  | WithIb p => letter p ++ chars "ib"
  | Percent => chars "%"
  end.

(** The units with an [i] take the base the others do not. *)
Definition size_factor (kb_base : Z) (u : size_unit) : Z :=
  match u with
  | Bytes | Byte | Percent => 1
  | Bare p | WithB p => kb_base ^ power p
  | WithIb p => (2024 - kb_base) ^ power p
  end.

(** The value stored; a percentage counts down from [-1]. *)
Definition sized (kb_base : Z) (u : size_unit) (v : Z) : Z :=
  match u with Percent => -1 - v | _ => v * size_factor kb_base u end.

Inductive time_unit := NoTime | Us | Usec | Ms | Msec | Seconds | Minutes | Hours | Days.

Definition time_name (u : time_unit) : list Z :=
  match u with
  | NoTime => []
  | Us => chars "us" | Usec => chars "usec" | Ms => chars "ms" | Msec => chars "msec"
  | Seconds => chars "s" | Minutes => chars "m" | Hours => chars "h" | Days => chars "d"
  end.

(** In microseconds. *)
Definition time_factor (is_seconds : bool) (u : time_unit) : Z :=
  match u with
  | NoTime => if is_seconds then 10 ^ 6 else 1
  | Us | Usec => 1
  | Ms | Msec => 10 ^ 3
  | Seconds => 10 ^ 6
  | Minutes => 60 * 10 ^ 6
  | Hours => 3600 * 10 ^ 6
  | Days => 86400 * 10 ^ 6
  end.

(** The text ends, or a separator follows. *)
Definition cut (r : list Z) : Prop := r = [] \/ is_separator (ch r) = true.

(** ** The number in front *)

Section number.
Context (neg : bool) (ds : list Z) (Hne : ds <> []) (Hd : Forall (fun c => isdigit c = true) ds).

Lemma dec_cons : exists c s, dec_text neg ds = c :: s /\ (c = 45 \/ isdigit c = true).
Proof using Hne Hd. destruct ds as [|d s]; [done|]. inversion_clear Hd.
  destruct neg; unfold dec_text; cbn [app]; eauto. Qed.

Lemma strtoll_text t : isdigit (ch t) = false -> let v := dec_val neg ds in
  strtoll 10 (dec_text neg ds ++ t) = (Z.max LONG_MIN (Z.min LONG_MAX v), length (dec_text neg ds),
    bool_decide (v < LONG_MIN \/ LONG_MAX < v)).
Proof using Hne Hd.
  intros Ht v. unfold strtoll. rewrite scan_sign_text by done.
  rewrite !(decide_False (P := 10 = 16 /\ _)) by (intros [? _]; lia). rewrite (decide_False (P := 10 = 16)) by lia.
  assert (Edrop : drop (if neg then 1%nat else O) (dec_text neg ds ++ t) = ds ++ t) by (destruct neg; done).
  rewrite Edrop. rewrite span_app by done.
  replace (span isdigit t) with O by (destruct t; cbn [span ch] in *; [done|by rewrite Ht]).
  rewrite Nat.add_0_r. rewrite decide_False by (destruct ds; done). rewrite take_app_length.
  unfold dec_text. rewrite length_app. unfold v, dec_val. by destruct neg.
Qed.

Lemma skip_number_text t : isdigit (ch t) = false -> skip_number false (dec_text neg ds ++ t) = t.
Proof using Hne Hd.
  intros Ht. assert (Et : skip_number true t = t) by (destruct t as [|c t]; [done|]; cbn [ch skip_number] in *;
    by rewrite Ht, andb_false_r).
  assert (E : forall b, skip_number b (ds ++ t) = t).
  { clear -Hne Hd Et. induction Hd as [|d s Hdig Hs IH]; intros b; [done|]. cbn [app skip_number]. rewrite Hdig.
    destruct s; [done|]. by apply IH. }
  destruct neg; exact (E false).
Qed.

Lemma skip_signed_text t : isdigit (ch t) = false -> ch t <> 43 -> ch t <> 45 ->
  skip_signed (dec_text neg ds ++ t) = t.
Proof using Hd.
  intros Ht Hp Hm. unfold skip_signed. rewrite span_app.
  - replace (span _ t) with O; [rewrite Nat.add_0_r; apply drop_app_length|].
    destruct t as [|c t]; [done|]. cbn [ch span] in *.
    rewrite Ht, (proj2 (Z.eqb_neq _ _) Hp), (proj2 (Z.eqb_neq _ _) Hm). done.
  - unfold dec_text. apply Forall_app. split; [by destruct neg; repeat constructor|].
    eapply Forall_impl; [exact Hd|]. cbn. intros c ->. done.
Qed.

(** The reading of the number does not depend on what it means. *)
Lemma decimal_text arith erange kb t kilo is_seconds : isdigit (ch t) = false -> is_x (ch t) = false ->
  strcasestr t (chars "0x") = None ->
  let v := dec_val neg ds in let str := dec_text neg ds ++ t in
  str_to_decimal arith erange kb str kilo is_seconds =
  if decide (LONG_MAX < v \/ v = LONG_MAX /\ erange = true) then None
  else let v := Z.max LONG_MIN v in
       Some (if kilo then let '(mult, perc) := get_mult_bytes kb str in if perc : bool then i64 (- 1 - v) else i64 (v
         * mult)
             else i64 (v * get_mult_time str is_seconds)).
Proof using Hne Hd.
  intros Ht Hx H0x v str. unfold str_to_decimal. destruct dec_cons as (c & s & Ec & Hc).
  rewrite decide_False by (unfold str; rewrite Ec; done). rewrite (decide_False (P := ch str = 40)).
  2: { unfold str. rewrite Ec. cbn [app ch]. destruct Hc as [-> | Hc]; [done|]. charclass. lia. }
  assert (E0x : strcasestr str (chars "0x") = None).
  { change (chars "0x") with [48; 120] in *. unfold str. rewrite strcasestr_text by done. by rewrite H0x. }
  rewrite E0x. replace (strtoll 10 str) with (strtoll 10 (dec_text neg ds ++ t)) by done.
  rewrite strtoll_text by done. fold v. rewrite decide_False by (rewrite Ec; cbn [length]; lia).
  assert (Hm : Z.max LONG_MIN (Z.min LONG_MAX v) = LONG_MAX <-> LONG_MAX <= v) by (unfold LONG_MIN, LONG_MAX; lia).
  destruct (decide (LONG_MAX < v \/ v = LONG_MAX /\ erange = true)) as [H|H].
  - rewrite decide_True; [done|]. split; [lia|]. destruct H as [H | [_ ->]]; [|apply orb_true_r].
    by rewrite bool_decide_true by lia.
  - rewrite decide_False.
    + replace (Z.max LONG_MIN (Z.min LONG_MAX v)) with (Z.max LONG_MIN v) by lia. cbn [mbind option_bind].
      destruct kilo; [|done]. by destruct (get_mult_bytes kb str).
    + rewrite orb_true_iff, bool_decide_eq_true. intros [Hv Ho]. apply H. unfold LONG_MIN, LONG_MAX in *.
      destruct erange; [|destruct Ho as [Ho | ?]; [|done]]; lia.
Qed.
End number.

(** ** The unit behind *)

Lemma lower_sep c : is_separator (tolower c) = is_separator c.
Proof.
  unfold tolower. destruct ((65 <=? c) && (c <=? 90)) eqn:E; [|done]. apply andb_true_iff in E as [E1 E2].
  apply Z.leb_le in E1, E2.
  unfold is_separator. rewrite !(proj2 (Z.eqb_neq _ _)) by lia. done.
Qed.

Lemma lower_alpha c : isalpha (tolower c) = isalpha c.
Proof.
  unfold tolower. destruct ((65 <=? c) && (c <=? 90)) eqn:E; [|done]. unfold isalpha. rewrite E.
  apply andb_true_iff in E as [E1 E2].
  apply Z.leb_le in E1, E2. apply orb_true_iff. right. apply andb_true_iff. rewrite !Z.leb_le. lia.
Qed.

Lemma lower_percent c : tolower c = 37 -> c = 37.
Proof. unfold tolower. destruct ((65 <=? c) && (c <=? 90)) eqn:E; [|done]. apply andb_true_iff in E as [E1 E2].
  apply Z.leb_le in E1, E2. lia. Qed.

(** Upper and lower case do not matter, nor what follows a separator. *)
Lemma lower_cut_name t r : Forall (fun c => is_separator c = false) (tolower <$> t) -> cut r ->
  lower_cut (t ++ r) = tolower <$> t.
Proof.
  intros Ht Hr. induction t as [|c t IH]; cbn [app].
  - destruct Hr as [-> | Hr]; [done|]. destruct r as [|c r]; [done|]. cbn [ch lower_cut] in *.
    by rewrite lower_sep, Hr.
  - inversion_clear Ht as [|? ? Hc Ht']. cbn [lower_cut fmap list_fmap]. rewrite Hc. by rewrite IH.
Qed.

Lemma names_clean u : Forall (fun c => is_separator c = false) (size_name u).
Proof. destruct u as [| |p|p|p|]; try destruct p; repeat constructor. Qed.

Definition is_percent (u : size_unit) : bool := match u with Percent => true | _ => false end.

Lemma mult_name kb u p : kb = 1000 \/ kb = 1024 -> u <> Bytes -> lower_cut p = size_name u ->
  __get_mult_bytes kb (Some p) = (size_factor kb u, is_percent u).
Proof.
  intros Hkb Hu Hp. unfold __get_mult_bytes. rewrite Hp.
  destruct u as [| |q|q|q|]; [done|..]; try destruct q; destruct Hkb as [-> | ->]; vm_compute; reflexivity.
Qed.

Lemma digit_mult kb c : isdigit c = true -> __get_mult_bytes kb (Some [c]) = (1, false).
Proof.
  intros H. charclass. assert (c = 48 \/ c = 49 \/ c = 50 \/ c = 51 \/ c = 52 \/ c = 53 \/ c = 54 \/ c = 55 \/ c = 56
    \/ c = 57) as Hc by lia.
  unfold __get_mult_bytes. cbn [lower_cut]. repeat (destruct Hc as [-> | Hc]; [reflexivity|]). subst c. reflexivity.
Qed.

(** A separator, the end, a letter and the percent sign are no digits. *)
Lemma cut_ch r : cut r -> isalpha (ch r) = false /\ isdigit (ch r) = false /\ is_x (ch r) = false /\
  (ch r =? 37) = false.
Proof.
  intros [-> | H]; [done|]. unfold is_separator in H. rewrite !orb_true_iff, !Z.eqb_eq in H.
  destruct H as [[[-> | ->] | ->] | ->]; done.
Qed.

Lemma unit_ch u t r : u <> Bytes -> tolower <$> t = size_name u ->
  isalpha (ch (t ++ r)) || (ch (t ++ r) =? 37) = true /\ isdigit (ch (t ++ r)) = false /\ is_x (ch (t ++ r)) = false.
Proof.
  intros Hu Ht. destruct t as [|c t]; [destruct u as [| |q|q|q|]; try destruct q; done|]. cbn [app ch].
  assert (Hc : (97 <= tolower c <= 122 /\ tolower c <> 120) \/ tolower c = 37).
  { cbn [fmap list_fmap] in Ht. destruct u as [| |q|q|q|]; [done|..]; try destruct q; injection Ht as Hc _;
      rewrite Hc; vm_compute; intuition discriminate. }
  assert (Hr : 65 <= c <= 90 /\ c <> 88 \/ 97 <= c <= 122 /\ c <> 120 \/ c = 37).
  { unfold tolower in Hc. destruct ((65 <=? c) && (c <=? 90)) eqn:E; [apply andb_true_iff in E as [E1 E2];
      apply Z.leb_le in E1, E2|]; lia. }
  unfold isalpha, is_x. split; [|split].
  - rewrite !orb_true_iff, !andb_true_iff, !Z.leb_le, Z.eqb_eq. lia.
  - apply not_true_iff_false. intros H. charclass. lia.
  - apply orb_false_iff. rewrite !Z.eqb_neq. lia.
Qed.

Lemma get_mult_text kb neg ds u t r : kb = 1000 \/ kb = 1024 -> ds <> [] -> Forall (fun c => isdigit c = true) ds ->
  tolower <$> t = size_name u -> cut r -> get_mult_bytes kb (dec_text neg ds ++ t ++ r) = (size_factor kb u,
    is_percent u).
Proof.
  intros Hkb Hne Hd Ht Hr. unfold get_mult_bytes. destruct (dec_cons neg ds Hne Hd) as (c & s & Ec & Hc).
  destruct (decide (u = Bytes)) as [-> | Hu].
  - apply fmap_nil_inv in Ht as ->. cbn [app size_factor is_percent]. apply cut_ch in Hr as (H1 & H2 & _ & H4).
    case_decide as Hl.
    + destruct neg; unfold dec_text in *; destruct ds as [|d [|]]; try done; try (cbn [app length] in Hl; lia).
      destruct r; [|cbn [app length] in Hl; lia]. cbn [app]. inversion_clear Hd. by apply digit_mult.
    + rewrite skip_number_text by done. by rewrite H1, H4.
  - destruct (unit_ch u t r Hu Ht) as (H1 & H2 & _). rewrite decide_False.
    + rewrite skip_number_text by done. rewrite H1. apply mult_name; [done..|]. rewrite <- Ht.
      apply lower_cut_name; [|done]. rewrite Ht. apply names_clean.
    + rewrite Ec. destruct t; [destruct u as [| |q|q|q|]; try destruct q; done|]. cbn [app length].
      rewrite length_app. cbn [app length]. lia.
Qed.

Lemma size_factor_pos kb u : kb = 1000 \/ kb = 1024 -> 1 <= size_factor kb u.
Proof. intros [-> | ->]; destruct u as [| |q|q|q|]; try destruct q; vm_compute; discriminate. Qed.

(** C23: a number with a unit is worth what the unit says: for any digits with or without a minus, any of the units in
    upper or lower case, followed by nothing or by a separator,
      the option's value is the number times the unit's factor
    (kb_base or, for the units with an i, the other of 1000 and 1024, raised to the unit's power),
      and for a percentage -1
    less the number; the product is exact when it fits 64 bits and taken modulo 2^64 when not,
      a number above the range of
    a long is an error, one below it is taken as the least long. *)
Theorem size_value arith erange kb neg ds u t r : kb = 1000 \/ kb = 1024 -> ds <> [] ->
  Forall (fun c => isdigit c = true) ds ->
  tolower <$> t = size_name u -> cut r -> strcasestr (t ++ r) (chars "0x") = None ->
  let v := dec_val neg ds in
  let value := check_str_bytes arith erange kb (dec_text neg ds ++ t ++ r) in
  (value = if decide (LONG_MAX < v \/ v = LONG_MAX /\ erange = true) then None else Some (i64 (sized kb u (Z.max
    LONG_MIN v)))) /\
  (LONG_MIN <= v -> LONG_MIN <= sized kb u v <= LONG_MAX -> v < LONG_MAX -> value = Some (sized kb u v)).
Proof.
  intros Hkb Hne Hd Ht Hr H0x v value.
  assert (Hch : isdigit (ch (t ++ r)) = false /\ is_x (ch (t ++ r)) = false).
  { destruct (decide (u = Bytes)) as [-> | Hu]; [apply fmap_nil_inv in Ht as ->; apply cut_ch in Hr;
      tauto|]. by apply (unit_ch u t r Hu) in Ht as (_ & ? & ?). }
  assert (E : value = if decide (LONG_MAX < v \/ v = LONG_MAX /\
    erange = true) then None else Some (i64 (sized kb u (Z.max LONG_MIN v)))).
  { unfold value, check_str_bytes. destruct Hch. rewrite decimal_text by done. fold v. destruct (decide (LONG_MAX < v
      \/ _)); [done|].
    cbv zeta. rewrite (get_mult_text kb neg ds u t r) by done. by destruct u. }
  split; [exact E|]. intros Hl Hs Hm. rewrite E, decide_False by lia. rewrite Z.max_r by lia. f_equal.
  apply i64_small. unfold LONG_MIN, LONG_MAX in *. lia.
Qed.

Lemma size_value_witness : check_str_bytes (fun _ => None) false 1024 (chars "-12MiB,4k") = Some (- 12 * 10 ^ 6) /\
  check_str_bytes (fun _ => None) false 1024 (chars "9223372036854775808k") = None.
Proof.
  split.
  - apply (size_value (fun _ => None) false 1024 true (chars "12") (WithIb Mega) (chars "MiB") (chars ",4k"));
      try (vm_compute; (reflexivity || discriminate)); [by right|by repeat constructor|by right|].
    vm_compute. split; discriminate.
  - apply (size_value (fun _ => None) false 1024 false (chars "9223372036854775808") (Bare Kilo) (chars "k") []);
      try reflexivity; [by right|discriminate|by repeat constructor|by left].
Defined.

(** ** Times *)

Lemma time_name_ch u t : u <> NoTime -> tolower <$> t = time_name u -> 
  isalpha (ch t) = true /\ isdigit (ch t) = false /\ is_x (ch t) = false /\ ch t <> 43 /\ ch t <> 45.
Proof.
  intros Hu Ht. destruct t as [|c t]; [by destruct u|]. cbn [ch]. cbn [fmap list_fmap] in Ht.
  assert (Hc : 97 <= tolower c <= 122 /\ tolower c <> 120).
  { destruct u; [done|..]; injection Ht as Hc _; rewrite Hc; vm_compute; intuition discriminate. }
  assert (Hr : 65 <= c <= 90 /\ c <> 88 \/ 97 <= c <= 122 /\ c <> 120).
  { unfold tolower in Hc. destruct ((65 <=? c) && (c <=? 90)) eqn:E; [apply andb_true_iff in E as [E1 E2];
      apply Z.leb_le in E1, E2|]; lia. }
  unfold isalpha, is_x. split; [|split; [|split; [|lia]]].
  - rewrite !orb_true_iff, !andb_true_iff, !Z.leb_le. lia.
  - apply not_true_iff_false. intros H. charclass. lia.
  - apply orb_false_iff. rewrite !Z.eqb_neq. lia.
Qed.

Lemma tolower_idem c : tolower (tolower c) = tolower c.
Proof.
  unfold tolower. destruct ((65 <=? c) && (c <=? 90)) eqn:E; [|by rewrite E]. apply andb_true_iff in E as [E1 E2].
  apply Z.leb_le in E1, E2.
  rewrite (proj2 (Z.leb_gt (c + 32) 90)) by lia. by rewrite andb_false_r.
Qed.

Lemma strcasestr_lower s t : strcasestr (tolower <$> s) t = strcasestr s t.
Proof.
  assert (E : forall s, starts_nocase t (tolower <$> s) = starts_nocase t s).
  { intros s'. unfold starts_nocase. rewrite <- fmap_take, <- list_fmap_compose. apply bool_decide_ext.
    rewrite (list_fmap_ext (tolower ∘ tolower) tolower) by (intros; apply tolower_idem). done. }
  induction s as [|c s IH]; [done|]. cbn [fmap list_fmap strcasestr].
  change (tolower c :: (tolower <$> s)) with (tolower <$> c :: s). by rewrite E, IH.
Qed.

(** A time option is worth its number times the microseconds of its unit (us, usec, ms, msec, s, m, h, d in either
    case), a number without a unit being seconds or microseconds as the option says;
      above the range of a long it is an
    error. *)
Theorem time_value arith erange kb neg ds u t is_seconds : ds <> [] -> Forall (fun c => isdigit c = true) ds ->
  tolower <$> t = time_name u ->
  let v := dec_val neg ds in
  check_str_time arith erange kb (dec_text neg ds ++ t) is_seconds =
  if decide (LONG_MAX < v \/ v = LONG_MAX /\ erange = true) then None else Some (i64 (Z.max LONG_MIN v * time_factor
    is_seconds u)).
Proof.
  intros Hne Hd Ht v. assert (H0x : strcasestr t (chars "0x") = None) by (rewrite <- strcasestr_lower, Ht;
    by destruct u).
  destruct (decide (t = [])) as [-> | Hn].
  - unfold check_str_time. rewrite decimal_text by done. fold v. destruct (decide (LONG_MAX < v \/ _)); [done|].
    cbv zeta.
    assert (u = NoTime) as -> by (by destruct u). unfold get_mult_time. rewrite skip_signed_text by done.
    by destruct is_seconds.
  - assert (Hu : u <> NoTime) by (intros ->; apply Hn; by apply fmap_nil_inv in Ht).
    destruct (time_name_ch u t Hu Ht) as (H1 & H2 & H3 & H4 & H5). unfold check_str_time.
    rewrite decimal_text by done. fold v.
    destruct (decide (LONG_MAX < v \/ _)); [done|]. cbv zeta. unfold get_mult_time. rewrite skip_signed_text by done.
    rewrite H1. cbn [negb].
    rewrite Ht. by destruct u.
Qed.

Lemma time_value_witness : check_str_time (fun _ => None) false 1024 (chars "90Msec") true = Some 90000.
Proof. apply (time_value (fun _ => None) false 1024 false (chars "90") Msec (chars "Msec") true);
  [discriminate|by repeat constructor|reflexivity]. Defined.

(** ** What the texts outside the grammar give *)

Lemma fraction_drops_unit : check_str_bytes (fun _ => None) false 1024 (chars "1.5k") = Some 1.
Proof. reflexivity. Qed.

Lemma unit_wraps : check_str_bytes (fun _ => None) false 1024 (chars "16777216t") = Some 0.
Proof. reflexivity. Qed.

Lemma below_unnoticed : check_str_bytes (fun _ => None) false 1024 (chars "-99999999999999999999") = Some LONG_MIN.
Proof. reflexivity. Qed.

(** The units [ki], [mi] and so on of the manual, without the [b], take the base of [k], [m]. *)
Lemma ki_without_b : check_str_bytes (fun _ => None) false 1000 (chars "4ki") = Some 4000 /\
  check_str_bytes (fun _ => None) false 1024 (chars "1mi") = Some (2 ^ 20).
Proof. split; reflexivity. Qed.

(** A hexadecimal number later in the text changes the base of the first one. *)
Lemma base_of_another : check_str_bytes (fun _ => None) false 1024 (chars "10k-0x20") = Some (16 * 1024).
Proof. reflexivity. Qed.

Lemma minutes_spelled_out : check_str_time (fun _ => None) false 1024 (chars "5min") true = Some 5 /\
  check_str_time (fun _ => None) false 1024 (chars "10sec") true = Some 10.
Proof. split; reflexivity. Qed.
