(* ===== verification/OptHandle.v ===== *)
(** * Options and their values (src/fio/parse.c)

    An option of a job file or of the command line, [name=value]: the table's entry is found by the name, the value is
    split at its separators, and every piece is read as the entry's type says and stored in the variables of the job
      the
    entry names by their offsets.

    The job's variables are two maps from an offset (in the job's options or in those of a profile) to a number and
      to a
    text; [errno] is the flag [erange].  The callbacks of an entry are functions of that state.  The branch of
    [__handle_option] for lists of floating-point numbers is a parameter. *)

From S2P Require Import Prelude Bits Stream Pattern PatternParse PatternGrammar OptValue.

Open Scope Z_scope.

(** ** Data *)

Inductive fio_opt_type :=
  | FIO_OPT_INVALID | FIO_OPT_STR | FIO_OPT_STR_ULL | FIO_OPT_STR_MULTI | FIO_OPT_STR_VAL | FIO_OPT_STR_VAL_TIME
  | FIO_OPT_STR_STORE | FIO_OPT_RANGE | FIO_OPT_INT | FIO_OPT_ULL | FIO_OPT_BOOL | FIO_OPT_FLOAT_LIST | FIO_OPT_STR_SET
  | FIO_OPT_STR_VAL_ZONE | FIO_OPT_DEPRECATED | FIO_OPT_SOFT_DEPRECATED | FIO_OPT_UNSUPPORTED.

#[export] Instance fio_opt_type_eq : EqDecision fio_opt_type.
Proof. solve_decision. Defined.

Record store := Store { vars : gmap (Z * Z) Z; texts : gmap (Z * Z) (list Z); erange : bool }.

Definition set_vars (v : gmap (Z * Z) Z) (st : store) : store := Store v (texts st) (erange st).
Definition set_texts (t : gmap (Z * Z) (list Z)) (st : store) : store := Store (vars st) t (erange st).
Definition set_erange (e : bool) (st : store) : store := Store (vars st) (texts st) e.

Record value_pair := ValuePair { ival : list Z; oval : Z; orval : bool; vp_cb : option (store -> list Z -> Z * store) }.

(** A zero offset is none.  [cb] is one of two callbacks, by the type; [posval] is the possible values up to the first
    without a name. *)
Record fio_option := FioOption {
  name : list Z; alias : option (list Z); type : fio_opt_type;
  off1 : Z; off2 : Z; off3 : Z; off4 : Z; off5 : Z; off6 : Z;
  maxval : Z; minval : Z; maxlen : Z; neg : bool; pow2 : bool; is_time : bool; is_seconds : bool;
  posval : list value_pair; prof_opts : Z; def : option (list Z);
  cb_str : option (store -> option (list Z) -> Z * store); cb_num : option (store -> Z -> Z * store);
  verify : option (store -> Z) }.

Definition td_var (o : fio_option) (offset : Z) : Z * Z := (prof_opts o, offset).

Definition store_num (o : fio_option) (off v : Z) (st : store) : store := set_vars (<[td_var o off := v]> (vars st)) st.
Definition read_num (o : fio_option) (off : Z) (st : store) : Z := default 0 (vars st !! td_var o off).

(** [val_store] of an int and of a long long. *)
Definition val_store_int (o : fio_option) (off v : Z) (or : bool) (st : store) : store :=
  store_num o off (i32 (if or then Z.lor (read_num o off st) v else v)) st.
Definition val_store_ull (o : fio_option) (off v : Z) (or : bool) (st : store) : store :=
  store_num o off (i64 (if or then Z.lor (read_num o off st) v else v)) st.

Definition storing : Type := fio_option -> Z -> Z -> bool -> store -> store.

(** [if (off) val_store(..., off, 0, ...)]. *)
Definition opt_store (val_store : storing) (o : fio_option) (off v : Z) (st : store) : store :=
  if decide (off = 0) then st else val_store o off v false st.

(** ** Blanks and names *)

(** The text up to a character. *)
Definition cut_at (c : Z) (s : list Z) : list Z := match strchr s c with Some k => take k s | None => s end.

Definition strip_blank_front (s : list Z) : list Z := drop (span isspace s) s.

Definition iscntrl (c : Z) : bool := ((0 <=? c) && (c <=? 31)) || (c =? 127).

(** [while ((isspace( *s) || iscntrl( *s)) && s > start) s--], from the terminating zero. *)
Fixpoint back_blank (p : list Z) (s : nat) : nat :=
  match s with
  | O => O
  | S s' => let c := default 0 (p !! s) in if isspace c || iscntrl c then back_blank p s' else s
  end.

Definition strip_blank_end (p : list Z) : list Z :=
  if decide (length p = O) then p
  else let p := cut_at 35 (cut_at 59 p) in take (back_blank p (length p) + 1) p.

Definition o_match (o : fio_option) (opt : list Z) : bool :=
  bool_decide (name o = opt) || bool_decide (alias o = Some opt).

Fixpoint find_option (options : list fio_option) (opt : list Z) : option fio_option :=
  match options with
  | [] => None
  | o :: os => if negb (o_match o opt) then find_option os opt
               else if decide (type o = FIO_OPT_UNSUPPORTED) then find_option os opt else Some o
  end.

(** The entry, the value's text after [=], and the name as it is left in the buffer. *)
Definition get_option (opt : list Z) (options : list fio_option) : option fio_option * option (list Z) :=
  match strchr opt 61 with
  | Some k => (find_option options (strip_blank_end (take k opt)), Some (drop (S k) opt))
  | None => (find_option options opt, None)
  end.

(** ** Possible values *)

Fixpoint posval_insert (vp : value_pair) (l : list value_pair) : list value_pair :=
  match l with
  | [] => [vp]
  | w :: l' => if decide (length (ival w) < length (ival vp))%nat then vp :: l else w :: posval_insert vp l'
  end.

(** The named values, the longest name first. *)
Definition posval_sort (o : fio_option) : list value_pair := fold_left (fun l vp => posval_insert vp l) (posval o) [].

Definition opt_len (str : list Z) : nat :=
  match strchr str 44 with
  | Some k => k
  | None => match strchr str 58 with Some k => k | None => length str end
  end.

Definition str_match_len (vp : value_pair) (str : list Z) : nat := Nat.max (length (ival vp)) (opt_len str).

(** [!strncmp(vp->ival, ptr, str_match_len(vp, ptr))]. *)
Definition vp_match (vp : value_pair) (ptr : list Z) : bool := bool_decide (ival vp = take (str_match_len vp ptr) ptr).

(** ** Limits *)

Definition val_too_large (o : fio_option) (val : Z) (is_uint : bool) : bool :=
  if decide (maxval o = 0) then false
  else if is_uint then
    if decide (i32 val < 0) then bool_decide (i32 (maxval o) < i32 val) else bool_decide (maxval o < u32 val)
  else bool_decide (maxval o < u64 val).

Definition val_too_small (o : fio_option) (val : Z) (is_uint : bool) : bool :=
  if decide (minval o = 0) then false
  else if is_uint then bool_decide (i32 val < minval o) else bool_decide (u64 val < u64 (minval o)).

Definition ZONE_BASE_VAL : Z := 2 ^ 63.

(** ** Numbers *)

(** [strtoul] and the [%u] and [%x] of [sscanf]: the value, how many characters were read, and whether it was out of
    range; [None] when there is no number. *)
Definition scan_ul (hex : bool) (s : list Z) : option (Z * nat * bool) :=
  let '(k, neg) := scan_sign s in
  let k := if decide (hex = true /\ starts_nocase (chars "0x") (drop k s) = true) then (k + 2)%nat else k in
  let d := span (if hex then isxdigit else isdigit) (drop k s) in
  if decide (d = O) then None
  else
    let v := digits_val (if hex then 16 else 10) (take d (drop k s)) in
    Some (if decide (v < 2 ^ 64) then (if neg : bool then u64 (- v) else v, (k + d)%nat, false)
          else (2 ^ 64 - 1, (k + d)%nat, true)).

(** The value, and whether [errno] becomes ERANGE. *)
Definition check_int (p : list Z) : option (Z * bool) :=
  if decide (length p = O) then None
  else
    let hex := match strcasestr p (chars "0x") with Some _ => true | None => false end in
    '(v, _, out) ← scan_ul hex p; Some (i32 v, out).

Section handle.
Context (arith : list Z -> option Z) (kb_off : Z).
Context (float_list : fio_option -> list Z -> bool -> nat -> store -> Z * store).

Definition OPT_MAGIC : Z := 0x4f50544e.

(** The magic number is the first variable of the job's options. *)
Definition fio_get_kb_base (st : store) : Z :=
  let kb_base := if decide (default 0 (vars st !! (0, 0)) = OPT_MAGIC) then default 0 (vars st !! (0, kb_off)) else 0 in
  if decide (kb_base = 0) then 1024 else kb_base.

(** What [str_to_decimal] does to [errno]. *)
Definition decimal_erange (str : list Z) : bool :=
  match (if decide (ch str = 40) then arith str else None) with
  | Some _ => false
  | None => snd (strtoll (match strcasestr str (chars "0x") with Some _ => 16 | None => 10 end) str)
  end.

Definition check_number (bytes : bool) (o : fio_option) (s : list Z) (st : store) : option Z * store :=
  (if bytes then check_str_bytes arith (erange st) (fio_get_kb_base st) s
   else check_str_time arith (erange st) (fio_get_kb_base st) s (is_seconds o),
   set_erange (erange st || decimal_erange s) st).

(** ** One piece of a value

    The result and the variables; a result of zero is success. *)

Definition call {A} (fn : option (store -> A -> Z * store)) (x : A) (ret : Z) (st : store) : Z * store :=
  match fn with Some fn => fn st x | None => (ret, st) end.

(** The names of a string option: every value whose name matches is stored. *)
Definition str_values (o : fio_option) (ptr : list Z) (r : Z * store) (vp : value_pair) : Z * store :=
  if vp_match vp ptr then
    (0, if decide (off1 o = 0) then snd r
        else let val_store := if decide (type o = FIO_OPT_STR_ULL) then val_store_ull else val_store_int in
             val_store o (off1 o) (oval vp) (orval vp) (snd r))
  else r.

Definition handle_str (o : fio_option) (ptr : option (list Z)) (st : store) : Z * store :=
  let vps := posval_sort o in
  let '(ret, st) := match ptr with Some p => fold_left (str_values o p) vps (1, st) | None => (1, st) end in
  if decide (ret <> 0 /\ vps <> []) then (ret, st) else call (cb_str o) ptr ret st.

(** The variables of the three directions: the first piece sets the first, and the last one those after it. *)
Definition store3 (val_store : storing) (o : fio_option) (ull : Z) (first more : bool) (curr : nat) (st : store)
    : store :=
  let st := if first then val_store o (off1 o) ull false st else st in
  let st := if decide (curr = 1%nat) then opt_store val_store o (off2 o) ull st else st in
  let st := if decide (curr = 2%nat) then opt_store val_store o (off3 o) ull st else st in
  if more then st
  else
    let st := if decide (curr < 1)%nat then opt_store val_store o (off2 o) ull st else st in
    if decide (curr < 2)%nat then opt_store val_store o (off3 o) ull st else st.

Definition store2 (val_store : storing) (o : fio_option) (v : Z) (first more : bool) (st : store) : store :=
  let st := if first then val_store o (off1 o) v false st else st in
  if more then st else opt_store val_store o (off2 o) v st.

Definition store_option_value (o : fio_option) (ull : Z) (first more : bool) (curr : nat) (st : store) : Z * store :=
  match cb_num o with
  | Some fn => fn st ull
  | None => (0, match type o with
                | FIO_OPT_INT => store3 val_store_int o ull first more curr st
                | FIO_OPT_ULL => store3 val_store_ull o ull first more curr st
                | _ => store2 val_store_ull o ull first more st
                end)
  end.

(** [inl] is an error that returns at once, [inr] a result the end of the function goes on with. *)
Definition handle_num (o : fio_option) (ptr : list Z) (first more : bool) (curr : nat) (st : store) : (Z + Z) * store :=
  if decide (last ptr = Some 122) then
    if decide (type o = FIO_OPT_STR_VAL_ZONE) then
      match scan_ul false ptr with
      | Some (val, ep, out) =>
          let st := set_erange out st in
          if decide (out = false /\ ch (drop ep ptr) = 122) then
            let '(ret, st) := store_option_value o (i64 (ZONE_BASE_VAL + u32 val)) first more curr st in (inr ret, st)
          else (inl 1, st)
      | None => (inl 1, set_erange false st)
      end
    else (inl 1, st)
  else
    let is_time := bool_decide (type o = FIO_OPT_STR_VAL_TIME) || is_time o in
    let tmp := cut_at 44 (take 127 ptr) in
    let '(r, st) := check_number (negb is_time) o tmp st in
    match r with
    | None => (inr 1, st)
    | Some ull =>
        if pow2 o && negb (is_power_of_2 (u64 ull)) then (inl 1, st)
        else if val_too_large o ull (bool_decide (type o = FIO_OPT_INT)) then (inl 1, st)
        else if val_too_small o ull (bool_decide (type o = FIO_OPT_INT)) then (inl 1, st)
        else if decide (posval o <> [] /\ Forall (fun vp => oval vp <> u64 ull) (posval_sort o)) then (inl 1, st)
        else let '(ret, st) := store_option_value o ull first more curr st in (inr ret, st)
    end.

(** A text: with possible values, what follows a colon goes to the matching value's callback and is cut from the stored
    text. *)
Definition handle_store (o : fio_option) (ptr : list Z) (st : store) : (Z + Z) * store :=
  if decide (length ptr = O) then (inl 1, st)
  else
    let cp := td_var o (off1 o) in
    let st := if decide (off1 o = 0) then st else set_texts (<[cp := ptr]> (texts st)) st in
    if decide (off1 o <> 0 /\ u32 (maxlen o - 1) < Z.of_nat (length ptr)) then (inl 1, st)
    else
      match cb_str o with
      | Some fn => let '(ret, st) := fn st (Some ptr) in (inr ret, st)
      | None =>
          if decide (off1 o = 0) then (inr (if decide (posval o = []) then 0 else 1), st)
          else
            match find (fun vp => vp_match vp ptr) (posval_sort o) with
            | None => (inr 0, st)
            | Some vp =>
                match strchr ptr 58 with
                | None => (inr 0, st)
                | Some k =>
                    let st := set_texts (<[cp := take k ptr]> (texts st)) st in
                    match vp_cb vp with
                    | Some fn => let '(ret, st) := fn st (drop (S k) ptr) in (inr ret, st)
                    | None => (inr 0, st)
                    end
                end
            end
      end.

(** The two variables of a direction, both or none. *)
Definition store_pair (o : fio_option) (offa offb ull1 ull2 : Z) (st : store) : store :=
  if decide (offa <> 0 /\ offb <> 0) then val_store_ull o offb ull2 false (val_store_ull o offa ull1 false st) else st.

Definition store_range (o : fio_option) (ull1 ull2 : Z) (first more : bool) (curr : nat) (st : store) : store :=
  let st := if first then val_store_ull o (off2 o) ull2 false (val_store_ull o (off1 o) ull1 false st) else st in
  let st := if decide (curr = 1%nat) then store_pair o (off3 o) (off4 o) ull1 ull2 st else st in
  let st := if decide (curr = 2%nat) then store_pair o (off5 o) (off6 o) ull1 ull2 st else st in
  if more then st
  else
    let st := if decide (curr < 1)%nat then store_pair o (off3 o) (off4 o) ull1 ull2 st else st in
    if decide (curr < 2)%nat then store_pair o (off5 o) (off6 o) ull1 ull2 st else st.

Definition handle_range (o : fio_option) (ptr : list Z) (first more : bool) (curr : nat) (st : store) : Z * store :=
  let tmp := cut_at 44 (take 127 ptr) in
  match (match strchr tmp 45 with Some k => Some k | None => strchr tmp 58 end) with
  | None => (1, st)
  | Some k =>
      let '(r1, st) := check_number true o (take k tmp) st in
      match r1 with
      | None => (1, st)
      | Some ull1 =>
          let '(r2, st) := check_number true o (drop (S k) tmp) st in
          match r2 with
          | None => (1, st)
          | Some ull2 => (0, store_range o (Z.min ull1 ull2) (Z.max ull1 ull2) first more curr st)
          end
      end
  end.

Definition handle_bool (o : fio_option) (ptr : option (list Z)) (first more : bool) (st : store) : (Z + Z) * store :=
  let '(r, st) := match ptr with
                  | Some p => match check_int p with
                              | Some (il, out) => (Some il, set_erange (erange st || out) st)
                              | None => (None, st)
                              end
                  | None => (if decide (type o = FIO_OPT_BOOL) then None else Some 1, st)
                  end in
  match r with
  | None => (inr 1, st)
  | Some il =>
      if decide (maxval o <> 0 /\ i32 (maxval o) < il) then (inl 1, st)
      else if decide (minval o <> 0 /\ il < minval o) then (inl 1, st)
      else
        let il := if neg o then (if decide (il = 0) then 1 else 0) else il in
        match cb_num o with
        | Some fn => let '(ret, st) := fn st il in (inr ret, st)
        | None => (inr 0, store2 val_store_int o il first more st)
        end
  end.

(** [if (ret) return ret; if (o->verify) ret = o->verify(o, data)]. *)
Definition finish (o : fio_option) (r : (Z + Z) * store) : Z * store :=
  match r with
  | (inl ret, st) => (ret, st)
  | (inr ret, st) =>
      if decide (ret <> 0) then (ret, st)
      else (match verify o with Some verify => verify st | None => 0 end, st)
  end.

Definition __handle_option (o : fio_option) (ptr : option (list Z)) (first more : bool) (curr : nat) (st : store)
    : Z * store :=
  match type o, ptr with
  | (FIO_OPT_STR), _ => let '(ret, st) := handle_str o ptr st in finish o (inr ret, st)
  | (FIO_OPT_STR_SET), _ => finish o (handle_bool o ptr first more st)
  | _, None => (1, st)
  | (FIO_OPT_STR_ULL | FIO_OPT_STR_MULTI), Some p => let '(ret, st) := handle_str o ptr st in finish o (inr ret, st)
  | (FIO_OPT_STR_VAL_TIME | FIO_OPT_ULL | FIO_OPT_INT | FIO_OPT_STR_VAL | FIO_OPT_STR_VAL_ZONE), Some p =>
      finish o (handle_num o p first more curr st)
  | FIO_OPT_FLOAT_LIST, Some p => let '(ret, st) := float_list o p first curr st in finish o (inr ret, st)
  | FIO_OPT_STR_STORE, Some p => finish o (handle_store o p st)
  | FIO_OPT_RANGE, Some p => let '(ret, st) := handle_range o p first more curr st in finish o (inr ret, st)
  | FIO_OPT_BOOL, Some p => finish o (handle_bool o ptr first more st)
  | FIO_OPT_SOFT_DEPRECATED, Some _ => finish o (inr 0, st)
  | (FIO_OPT_DEPRECATED | FIO_OPT_INVALID | FIO_OPT_UNSUPPORTED), Some _ => (1, st)
  end.

(** ** The pieces of a value *)

(** Where the next piece starts, and the text of this one: a comma at the end is cut off. *)
Definition next_piece (o : fio_option) (ptr : list Z) : option nat * list Z :=
  match type o with
  | FIO_OPT_STR_STORE | FIO_OPT_STR | FIO_OPT_STR_ULL => (None, ptr)
  | FIO_OPT_FLOAT_LIST => (strchr ptr 58, ptr)
  | _ =>
      match strchr ptr 44 with
      | Some k => (Some k, if decide (drop (S k) ptr = []) then take k ptr else ptr)
      | None =>
          if decide (type o = FIO_OPT_STR_MULTI \/ type o = FIO_OPT_RANGE) then (None, ptr)
          else (match strchr ptr 58 with Some k => Some k | None => strchr ptr 45 end, ptr)
      end
  end.

(** The loop over the pieces: the result is a failure only when every piece failed. *)
Fixpoint handle_loop (fuel : nat) (o : fio_option) (ptr : list Z) (done : nat) (ret : Z) (st : store)
    : option (Z * store) :=
  match fuel with
  | O => None
  | S fuel' =>
      let '(ptr2, text) := next_piece o ptr in
      let '(__ret, st) := __handle_option o (Some text) (bool_decide (done = O)) (bool_decide (is_Some ptr2)) done st in
      let ret := if decide (ret = 0) then ret else __ret in
      match ptr2 with
      | None => Some (ret, st)
      | Some k => handle_loop fuel' o (drop (S k) ptr) (S done) ret st
      end
  end.

(** Every piece takes a separator, so that as many rounds as there are characters, and one, are enough. *)
Definition handle_option (o : fio_option) (ptr : option (list Z)) (st : store) : option (Z * store) :=
  match ptr with
  | None => Some (__handle_option o None true false O st)
  | Some p => handle_loop (S (length p)) o p O 1 st
  end.

(** ** Whole options *)

(** The name and the value of an option that was taken, for the printed settings. *)
Definition dump := list (list Z * option (list Z)).

(** The result, and the entry that was found. *)
Definition parse_option (opt : list Z) (options : list fio_option) (st : store) (d : dump)
    : option (Z * option fio_option * store * dump) :=
  match get_option opt options with
  | (None, _) => Some (1, None, st, d)
  | (Some o, post) =>
      '(r, st) ← handle_option o post st;
      Some (if decide (r <> 0) then (1, Some o, st, d) else (0, Some o, st, d ++ [(name o, post)]))
  end.

Definition parse_cmd_option (opt : list Z) (val : option (list Z)) (options : list fio_option) (st : store) (d : dump)
    : option (Z * store * dump) :=
  match find_option options opt with
  | None => Some (1, st, d)
  | Some o =>
      '(r, st) ← handle_option o val st;
      Some (if decide (r <> 0) then (1, st, d) else (0, st, d ++ [(name o, val)]))
  end.

Fixpoint fill_default_options (options : list fio_option) (st : store) : option store :=
  match options with
  | [] => Some st
  | o :: os => match def o with
               | None => fill_default_options os st
               | Some d => '(_, st) ← handle_option o (Some d) st; fill_default_options os st
               end
  end.
End handle.

Definition UINT_MAX : Z := 2 ^ 32 - 1.
Definition ULLONG_MAX : Z := 2 ^ 64 - 1.

Definition set_limits (min max : Z) (o : fio_option) : fio_option :=
  FioOption (name o) (alias o) (type o) (off1 o) (off2 o) (off3 o) (off4 o) (off5 o) (off6 o) max min
    (maxlen o) (neg o) (pow2 o) (is_time o) (is_seconds o) (posval o) (prof_opts o) (def o) (cb_str o) (cb_num o) (verify o).

(** The limits of an entry that names none. *)
Definition option_init (o : fio_option) : fio_option :=
  match type o with
  | FIO_OPT_BOOL => set_limits 0 1 o
  | FIO_OPT_INT => if decide (maxval o = 0) then set_limits (minval o) UINT_MAX o else o
  | FIO_OPT_ULL => if decide (maxval o = 0) then set_limits (minval o) ULLONG_MAX o else o
  | _ => o
  end.

Definition options_init (options : list fio_option) : list fio_option := option_init <$> options.

(** ** Texts split at commas *)

Fixpoint joined (ps : list (list Z)) : list Z :=
  match ps with
  | [] => []
  | [p] => p
  | p :: ps' => p ++ 44 :: joined ps'
  end.

Lemma joined_cons p q ps : joined (p :: q :: ps) = p ++ 44 :: joined (q :: ps).
Proof. done. Qed.

Lemma strchr_none s c : strchr s c = None <-> c ∉ s.
Proof.
  induction s as [|d s IH]; cbn [strchr]; [split; [intros _; apply not_elem_of_nil|done]|].
  rewrite not_elem_of_cons. case_decide as E; [naive_solver|]. rewrite fmap_None, IH. naive_solver.
Qed.

Lemma cut_at_app c s t : c ∉ s -> cut_at c (s ++ c :: t) = s.
Proof. intros H. unfold cut_at. rewrite strchr_app by done. apply take_app_length. Qed.

Lemma cut_at_id c s : c ∉ s -> cut_at c s = s.
Proof. intros H. unfold cut_at. by rewrite (proj2 (strchr_none s c) H). Qed.

(** The buffer of 128 characters holds a piece of up to 127. *)
Lemma cut_piece p t : 44 ∉ p -> (length p <= 127)%nat -> t = p \/ (exists s, t = p ++ 44 :: s) ->
  cut_at 44 (take 127 t) = p.
Proof.
  intros Hp Hl [-> | (s & ->)].
  - rewrite take_ge by done. by apply cut_at_id.
  - rewrite take_app. rewrite (take_ge p) by done. destruct (127 - length p)%nat as [|k] eqn:E; cbn [take].
    + rewrite app_nil_r. by apply cut_at_id.
    + by apply cut_at_app.
Qed.

Lemma joined_elem c ps : c <> 44 -> Forall (fun p => c ∉ p) ps -> c ∉ joined ps.
Proof.
  intros Hc. induction 1 as [|p ps Hp Hps IH]; [apply not_elem_of_nil|]. destruct ps as [|q ps]; [done|].
  rewrite joined_cons, not_elem_of_app, not_elem_of_cons. done.
Qed.

Lemma joined_length_cons p q ps : length (joined (p :: q :: ps)) = (length p + S (length (joined (q :: ps))))%nat.
Proof. rewrite joined_cons, length_app. done. Qed.

(** ** Every value is read to its end *)

Section handle_proofs.
Context (arith : list Z -> option Z) (kb_off : Z).
Context (float_list : fio_option -> list Z -> bool -> nat -> store -> Z * store).

Notation handle := (handle_option arith kb_off float_list).
Notation loop := (handle_loop arith kb_off float_list).
Notation handle_piece := (__handle_option arith kb_off float_list).

Lemma next_piece_inside o ptr k t : next_piece o ptr = (Some k, t) -> (k < length ptr)%nat.
Proof.
  unfold next_piece. intros H. assert (E : exists c, strchr ptr c = Some k).
  { destruct (type o); repeat case_decide; destruct (strchr ptr 44) eqn:E1, (strchr ptr 58) eqn:E2; simplify_eq;
      eauto. }
  destruct E as [c E]. by apply strchr_Some in E as [_ ?].
Qed.

Lemma loop_total fuel o : forall ptr done ret st, (length ptr < fuel)%nat -> is_Some (loop fuel o ptr done ret st).
Proof.
  induction fuel as [|fuel IH]; intros ptr done ret st Hf; [lia|]. cbn [handle_loop].
  destruct (next_piece o ptr) as [ptr2 t] eqn:E. destruct (handle_piece _ _ _ _ _ _) as [r st'].
  destruct ptr2 as [k|]; [|done].
  apply next_piece_inside in E. apply IH. rewrite length_drop. lia.
Qed.

Lemma handle_total o ptr st : is_Some (handle o ptr st).
Proof. destruct ptr; [|done]. apply loop_total. lia. Qed.

(** ** Lists of numbers

    An entry of one of the two integer types without a callback and without a list of values, whose variables are not
    those that [fio_get_kb_base] reads. *)
Record number_entry (o : fio_option) : Prop := {
  ne_type : type o = FIO_OPT_INT \/ type o = FIO_OPT_ULL;
  ne_cb : cb_num o = None;
  ne_verify : verify o = None;
  ne_posval : posval o = [];
  ne_base : forall off, off = off1 o \/ off = off2 o \/ off = off3 o ->
    td_var o off <> (0, 0) /\ td_var o off <> (0, kb_off) }.

(** A piece read as a number by itself. *)
Definition read_piece (o : fio_option) (e : bool) (kb : Z) (p : list Z) : option Z :=
  if is_time o then check_str_time arith e kb p (is_seconds o) else check_str_bytes arith e kb p.

Definition accepted (o : fio_option) (v : Z) : bool :=
  let is_int := bool_decide (type o = FIO_OPT_INT) in
  (negb (pow2 o) || is_power_of_2 (u64 v)) && negb (val_too_large o v is_int) && negb (val_too_small o v is_int).

(** An empty piece, or a number the entry accepts. *)
Definition piece_is (o : fio_option) (kb : Z) (p : list Z) (r : option Z) : Prop :=
  44 ∉ p /\ 122 ∉ p /\ (length p <= 127)%nat /\
  match r with
  | None => p = []
  | Some v => (forall e, read_piece o e kb p = Some v) /\ accepted o v = true
  end.

Definition converted (o : fio_option) (v : Z) : Z := if decide (type o = FIO_OPT_INT) then i32 v else i64 v.

(** A variable set to a value, if there are both. *)
Definition put (o : fio_option) (off : option Z) (r : option Z) (m : gmap (Z * Z) Z) : gmap (Z * Z) Z :=
  match off, r with
  | Some off, Some v => <[td_var o off := converted o v]> m
  | _, _ => m
  end.

Definition unless_zero (off : Z) : option Z := if decide (off = 0) then None else Some off.

(** The piece of direction [k]: its own, or the last one. *)
Definition pick (rs : list (option Z)) (k : nat) : option Z := mjoin (rs !! Nat.min k (length rs - 1)).

Definition list_effect (o : fio_option) (rs : list (option Z)) (m : gmap (Z * Z) Z) : gmap (Z * Z) Z :=
  put o (unless_zero (off3 o)) (pick rs 2)
    (put o (unless_zero (off2 o)) (pick rs 1) (put o (Some (off1 o)) (pick rs 0) m)).

(** What one piece does to the variables. *)
Definition piece_effect (o : fio_option) (r : option Z) (more : bool) (curr : nat) (m : gmap (Z * Z) Z)
    : gmap (Z * Z) Z :=
  match curr with
  | 0%nat => let m := put o (Some (off1 o)) r m in
             if more then m else put o (unless_zero (off3 o)) r (put o (unless_zero (off2 o)) r m)
  | 1%nat => let m := put o (unless_zero (off2 o)) r m in if more then m else put o (unless_zero (off3 o)) r m
  | 2%nat => put o (unless_zero (off3 o)) r m
  | _ => m
  end.

Fixpoint effects (o : fio_option) (rs : list (option Z)) (curr : nat) (m : gmap (Z * Z) Z) : gmap (Z * Z) Z :=
  match rs with
  | [] => m
  | [r] => piece_effect o r false curr m
  | r :: rs' => effects o rs' (S curr) (piece_effect o r true curr m)
  end.

Lemma effects_late o rs curr m : (3 <= curr)%nat -> effects o rs curr m = m.
Proof.
  revert curr m. induction rs as [|r rs IH]; intros curr m Hc; [done|]. cbn [effects].
  assert (E : forall b, piece_effect o r b curr m = m) by (intros b; by do 3 (destruct curr as [|curr]; [lia|])).
  destruct rs; [apply E|]. rewrite E. apply IH. lia.
Qed.

Lemma effects_list o rs m : rs <> [] -> effects o rs 0 m = list_effect o rs m.
Proof.
  intros Hr. unfold list_effect, pick. destruct rs as [|a [|b [|c rs]]]; [done|reflexivity|reflexivity|].
  cbn [length Nat.sub Nat.min lookup list_lookup mjoin option_join]. 
  change (effects o (a :: b :: c :: rs) 0 m) with (effects o (c :: rs) 2 (piece_effect o b true 1 (piece_effect o a
    true 0 m))).
  cbn [effects]. destruct rs as [|d rs]; [done|]. rewrite effects_late by lia. done.
Qed.

Definition store_as (o : fio_option) := if decide (type o = FIO_OPT_INT) then val_store_int else val_store_ull.

Lemma store3_effect o v more curr st :
  store3 (store_as o) o v (bool_decide (curr = O)) more curr st = set_vars (piece_effect o (Some v) more curr (vars
    st)) st.
Proof.
  assert (E1 : forall off st, store_as o o off v false st = set_vars (put o (Some off) (Some v) (vars st)) st).
  { intros off st'. unfold store_as, put, converted. by case_decide. }
  assert (E2 : forall off st, opt_store (store_as o) o off v st = set_vars (put o (unless_zero off) (Some v) (vars
    st)) st).
  { intros off st'. unfold opt_store, unless_zero. case_decide; [by destruct st'|apply E1]. }
  unfold store3. destruct curr as [|[|[|curr]]]; cbn [bool_decide decide decide_rel piece_effect];
    repeat first [rewrite decide_False by lia | rewrite decide_True by lia]; 
    repeat rewrite ?E1, ?E2; destruct more, st; done.
Qed.

Lemma piece_effect_none o more curr m : piece_effect o None more curr m = m.
Proof. assert (E : forall off m, put o off None m = m) by (by intros [|] m').
  destruct curr as [|[|[|curr]]]; destruct more; cbn [piece_effect]; by rewrite ?E. Qed.

Lemma read_number o p st : number_entry o -> 
  check_number arith kb_off (negb (bool_decide (type o = FIO_OPT_STR_VAL_TIME) || is_time o)) o p st =
  (read_piece o (erange st) (fio_get_kb_base kb_off st) p, set_erange (erange st || decimal_erange arith p) st).
Proof.
  intros [Ht _ _ _ _]. unfold check_number, read_piece.
  rewrite bool_decide_false by (destruct Ht as [-> | ->]; done). cbn [orb].
  by destruct (is_time o).
Qed.

Lemma piece_handled o p r t more curr st : number_entry o -> piece_is o (fio_get_kb_base kb_off st) p r ->
  cut_at 44 (take 127 t) = p -> last t <> Some 122 ->
  exists e, handle_piece o (Some t) (bool_decide (curr = O)) more curr st =
    (if decide (is_Some r) then 0 else 1, set_erange e (set_vars (piece_effect o r more curr (vars st)) st)).
Proof.
  intros Hn (_ & _ & _ & Hr) Hcut Hz.
  assert (E : handle_piece o (Some t) (bool_decide (curr = O)) more curr st = finish o (handle_num arith kb_off o t
    (bool_decide (curr = O)) more curr st)).
  { unfold __handle_option. destruct Hn as [[-> | ->] _ _ _ _]; done. }
  rewrite E. clear E. unfold handle_num. rewrite (decide_False (P := last t = Some 122)) by done.
  rewrite Hcut, read_number by done.
  destruct r as [v|].
  - destruct Hr as [Hv Ha]. rewrite Hv. unfold accepted in Ha.
    apply andb_true_iff in Ha as [[Hp Hl]%andb_true_iff Hs].
    apply negb_true_iff in Hl, Hs. rewrite Hl, Hs.
    replace (pow2 o && negb (is_power_of_2 (u64 v))) with false by (destruct (pow2 o), (is_power_of_2 (u64 v)); done).
    rewrite decide_False by (intros [Hx _]; by rewrite (ne_posval o Hn) in Hx). unfold store_option_value.
    rewrite (ne_cb o Hn).
    exists (erange st || decimal_erange arith p). rewrite (decide_True (P := is_Some (Some v))) by done.
    set (st' := set_erange _ st). pose proof (store3_effect o v more curr st') as E. unfold store_as in E.
    unfold finish. destruct (ne_type o Hn) as [Et | Et]; rewrite Et in *; cbn iota beta in *.
    + rewrite decide_True in E by done. rewrite E. rewrite decide_False by (intros H; by apply H).
      by rewrite (ne_verify o Hn).
    + rewrite decide_False in E by done. rewrite E. rewrite decide_False by (intros H; by apply H).
      by rewrite (ne_verify o Hn).
  - rewrite Hr. clear p Hcut Hr. exists (erange st || decimal_erange arith []). rewrite piece_effect_none.
    rewrite (decide_False (P := is_Some None)) by (by intros [? ?]). unfold finish, read_piece.
    destruct (is_time o); by destruct st.
Qed.

(** The pieces do not change the base of the units. *)
Lemma base_kept o r more curr st e : number_entry o ->
  fio_get_kb_base kb_off (set_erange e (set_vars (piece_effect o r more curr (vars st)) st)) = fio_get_kb_base kb_off
    st.
Proof.
  intros Hn. assert (E : forall key, key = (0, 0) \/ key = (0, kb_off) ->
    piece_effect o r more curr (vars st) !! key = vars st !! key).
  { intros key Hk. pose proof (ne_base o Hn) as Hb. assert (Hput : forall off m,
      off = Some (off1 o) \/ off = unless_zero (off2 o) \/ off = unless_zero (off3 o) ->
      put o off r m !! key = m !! key).
    { intros off m Ho. unfold put. destruct off as [off|], r as [v|];
        try done. apply lookup_insert_ne. unfold unless_zero in Ho.
      assert (off = off1 o \/ off = off2 o \/ off = off3 o) as Ho' by (repeat case_decide; naive_solver).
      destruct (Hb off Ho'). naive_solver. }
    destruct curr as [|[|[|curr]]]; destruct more; cbn [piece_effect]; by rewrite ?Hput by tauto. }
  unfold fio_get_kb_base. cbn [vars set_vars set_erange]. by rewrite !E by tauto.
Qed.

Lemma joined_last ps c : c <> 44 -> Forall (fun p => c ∉ p) ps -> last (joined ps) <> Some c.
Proof. intros Hc H Hl. apply (joined_elem c ps Hc H). by eapply last_Some_elem_of. Qed.

Lemma drop_next {A} (p : list A) c t : drop (S (length p)) (p ++ c :: t) = t.
Proof. induction p as [|a p IH]; [done|exact IH]. Qed.

(** The next piece of a list of numbers, and the text handled. *)
Lemma next_joined o p ps : number_entry o -> 44 ∉ p -> (ps = [] -> 58 ∉ p /\ 45 ∉ p) ->
  exists t, next_piece o (joined (p :: ps)) = (match ps with [] => None | _ => Some (length p) end, t) /\
    (t = p \/ ps <> [] /\ t = joined (p :: ps)).
Proof.
  intros Hn Hp Hlast. assert (E : next_piece o (joined (p :: ps)) =
    match strchr (joined (p :: ps)) 44 with
    | Some k => (Some k, if decide (drop (S k) (joined (p :: ps)) = []) then take k (joined (p :: ps)) else joined (p
      :: ps))
    | None => (match strchr (joined (p :: ps)) 58 with Some k => Some k | None => strchr (joined (p :: ps)) 45 end,
      joined (p :: ps))
    end).
  { unfold next_piece. destruct (ne_type o Hn) as [-> | ->]; destruct (strchr _ 44);
      [done|by rewrite decide_False by naive_solver|done|by rewrite decide_False by naive_solver]. }
  rewrite E. destruct ps as [|q ps].
  - cbn [joined]. destruct (Hlast eq_refl) as [H1 H2].
    rewrite (proj2 (strchr_none p 44) Hp), (proj2 (strchr_none p 58) H1), (proj2 (strchr_none p 45) H2). eauto.
  - rewrite joined_cons, strchr_app by done. eexists. split; [reflexivity|].
    case_decide; [left; apply take_app_length|right; done].
Qed.

Definition any_number (rs : list (option Z)) : bool := existsb (fun r => bool_decide (is_Some r)) rs.

Lemma numbers_loop o kb ps rs : number_entry o -> ps <> [] -> Forall2 (piece_is o kb) ps rs -> (forall p,
  last ps = Some p -> 58 ∉ p /\ 45 ∉ p) ->
  forall fuel curr ret st, (length (joined ps) < fuel)%nat -> ret = 0 \/ ret = 1 -> fio_get_kb_base kb_off st = kb -> 
  exists e, loop fuel o (joined ps) curr ret st =
    Some (if any_number rs then 0 else ret, set_erange e (set_vars (effects o rs curr (vars st)) st)).
Proof.
  intros Hn Hne H Hlast. assert (Hz : Forall (fun p => 122 ∉ p) ps) by (eapply Forall2_Forall_l; [exact H|];
    apply Forall_true; intros r p Hp; apply Hp).
  induction H as [|p r ps rs Hp Hps IH]; [done|]. intros fuel curr ret st Hf Hret Hkb.
  destruct fuel as [|fuel]; [lia|].
  cbn [handle_loop]. destruct (next_joined o p ps Hn) as (t & Et & Ht); [apply Hp|intros ->; by apply Hlast|].
  rewrite Et. assert (Hb : bool_decide (is_Some (match ps with [] => None | _ => Some (length p) end)) = bool_decide
    (ps <> [])).
  { apply bool_decide_ext. destruct ps; [|naive_solver]. split; [by intros [? ?]|done]. }
  rewrite Hb. destruct (piece_handled o p r t (bool_decide (ps <> [])) curr st Hn) as (e & Ee).
  { by rewrite Hkb. }
  { apply cut_piece; [apply Hp|apply Hp|]. destruct Ht as [-> | [Hx ->]]; [by left|]. right. destruct ps as [|q ps];
      [done|]. rewrite joined_cons. eauto. }
  { destruct Ht as [-> | [Hx ->]]; [by apply (joined_last [p]); [|by inversion_clear Hz;
      constructor]|by apply joined_last]. }
  rewrite Ee. assert (Er : (if decide (ret = 0) then ret else if decide (is_Some r) then 0 else 1) = if bool_decide
    (is_Some r) then 0 else ret).
  { destruct Hret as [-> | ->]; destruct r; done. }
  rewrite Er. destruct ps as [|q ps].
  - inversion Hps; subst. exists e. cbn [effects any_number existsb]. by destruct (bool_decide (is_Some r)).
  - destruct rs as [|r' rs]; [inversion Hps|]. rewrite joined_cons, drop_next.
    assert (Hf' : (length (joined (q :: ps)) < fuel)%nat) by (rewrite joined_length_cons in Hf; lia).
    set (st' := set_erange e _). destruct (IH ltac:(done) ltac:(by intros p' Hl;
      apply Hlast) ltac:(by inversion_clear Hz) fuel (S curr) (if bool_decide (is_Some r) then 0 else ret) st' Hf')
      as (e' & Ee').
    + destruct (bool_decide (is_Some r)); [by left|exact Hret].
    + unfold st'. by rewrite base_kept.
    + exists e'. rewrite Ee'.
      change (any_number (r :: r' :: rs)) with (bool_decide (is_Some r) || any_number (r' :: rs)).
      by destruct (bool_decide (is_Some r)), (any_number (r' :: rs)).
Qed.

(** C22: an integer option (no callback, check or list of values) whose value is a list of places separated by commas, each empty or a number the entry accepts (of
    at most 127 characters, without the z of zones), sets the variables of reads, writes and trims: each takes
    the number of its own place and those behind the last number take that one, an empty place
    leaves its variable (and, when it is the last, those behind it) as it was, nothing else is changed; the option is
    taken, and noted for printing, when at least one place holds a number, whatever the order and number of the
    places.  The last place must contain neither a minus nor a colon: there the code splits it once
    more, and a negative last number is not what the variables behind it get ([minus_splits]). *)
Theorem number_list_taken o options nm ps rs st d : find_option options (strip_blank_end nm) = Some o -> 61 ∉ nm ->
  number_entry o -> ps <> [] ->
  Forall2 (piece_is o (fio_get_kb_base kb_off st)) ps rs -> (forall p, last ps = Some p -> 58 ∉ p /\ 45 ∉ p) ->
  exists e, parse_option arith kb_off float_list (nm ++ 61 :: joined ps) options st d =
    Some (if any_number rs then 0 else 1, Some o, set_erange e (set_vars (list_effect o rs (vars st)) st),
          if any_number rs then d ++ [(name o, Some (joined ps))] else d).
Proof.
  intros Hf Hnm Hn Hps Hr Hlast. unfold parse_option, get_option. rewrite strchr_app by done.
  rewrite take_app_length, drop_next, Hf.
  destruct (numbers_loop o _ ps rs Hn Hps Hr Hlast (S (length (joined ps))) 0 1 st ltac:(lia) ltac:(by right)
    eq_refl) as (e & E).
  exists e. cbn [handle_option]. rewrite E. cbn [mbind option_bind]. rewrite effects_list.
  - by destruct (any_number rs).
  - intros ->. by inversion Hr.
Qed.
End handle_proofs.

(** The entry of [bs], as [options_init] leaves it, and a job with default sizes. *)
Definition bs_option : fio_option :=
  option_init (FioOption (chars "bs") (Some (chars "blocksize")) FIO_OPT_ULL
    8 16 24 0 0 0 0 1 0 false false false false [] 0 (Some (chars "4096")) None None None).

Definition default_sizes : gmap (Z * Z) Z :=
  {[ (0, 0) := OPT_MAGIC; (0, 32) := 1024; (0, 8) := 4096; (0, 16) := 4096; (0, 24) := 4096 ]}.

Lemma bs_number_entry : number_entry 32 bs_option.
Proof. constructor; [by right|done..|]. intros off [-> | [-> | ->]]; split; discriminate. Qed.

Lemma bs_piece p v : read_piece (fun _ => None) bs_option false 1024 p = Some v ->
  read_piece (fun _ => None) bs_option true 1024 p = Some v ->
  accepted bs_option v = true -> bool_decide (44 ∉ p /\ 122 ∉ p /\ (length p <= 127)%nat) = true ->
    piece_is (fun _ => None) bs_option 1024 p (Some v).
Proof. intros H1 H2 Ha H. apply bool_decide_eq_true in H as (? & ? & ?). repeat split; [done..| |done]. by intros [].
  Qed.

Lemma empty_piece o kb : piece_is (fun _ => None) o kb [] None.
Proof. repeat split; try apply not_elem_of_nil. cbn. lia. Qed.

Lemma number_list_taken_witness : exists e,
  parse_option (fun _ => None) 32 (fun _ _ _ _ st => (1, st)) (chars "bs =,8k,") [bs_option] (Store default_sizes ∅
    false) [] =
    Some (0, Some bs_option, Store (<[(0, 16) := 8192]> default_sizes) ∅ e, [(chars "bs", Some (chars ",8k,"))]).
Proof. 
  destruct (number_list_taken (fun _ => None) 32 (fun _ _ _ _ st => (1, st)) bs_option [bs_option] (chars "bs ") [[];
    chars "8k"; []] [None; Some 8192; None]
    (Store default_sizes ∅ false) []) as (e & E); [vm_compute; reflexivity|by vm_compute;
      set_solver|apply bs_number_entry|done| |intros p [= <-]; split; apply not_elem_of_nil|].
  - apply Forall2_cons; split; [apply empty_piece|].
    apply Forall2_cons; split; [apply bs_piece; vm_compute; reflexivity|].
    by apply Forall2_cons; split; [apply empty_piece|].
  - exists e. exact E.
Defined.

(** A minus is a separator too: a negative number also sets the variables behind the first one, without its sign. *)
Lemma minus_splits : 
  (vars ∘ snd) <$> handle_option (fun _ => None) 32 (fun _ _ _ _ st => (1, st))
    (FioOption (chars "n") None FIO_OPT_INT 8 16 24 0 0 0 0 0 0 false false false false [] 0 None None None None)
      (Some (chars "-1")) (Store default_sizes ∅ false) =
  Some (<[(0, 24) := 1]> (<[(0, 16) := 1]> (<[(0, 8) := -1]> default_sizes))).
Proof. vm_compute. reflexivity. Qed.

(** A range is stored with the lower end first, whichever way round it is written. *)
Lemma range_swapped :
  (vars ∘ snd) <$> handle_option (fun _ => None) 32 (fun _ _ _ _ st => (1, st))
    (FioOption (chars "bsrange") None FIO_OPT_RANGE 8 16 0 0 0 0 0 1 0 false false false false [] 0 None None None
      None) (Some (chars "8k-512")) (Store default_sizes ∅ false) =
  Some (<[(0, 16) := 8192]> (<[(0, 8) := 512]> default_sizes)).
Proof. vm_compute. reflexivity. Qed.

(** ** The closest name *)

(** [p] is a row from place [j - 1] on, [q] the new row's value there: the new row from place [j] on. *)
Fixpoint next_row (c : Z) (s2 p : list Z) (q : Z) : list Z :=
  match s2, p with
  | d :: s2', pj1 :: ((pj :: _) as p') =>
      let sub := if decide (c = d) then pj1 else u32 (pj1 + 1) in
      let pmin := Z.min (u32 (q + 1)) sub in
      let qj := Z.min (u32 (pj + 1)) pmin in
      qj :: next_row c s2' p' qj
  | _, _ => []
  end.

Fixpoint rows (s1 s2 p : list Z) : list Z :=
  match s1 with
  | [] => p
  | c :: s1' => let q0 := u32 (default 0 (head p) + 1) in rows s1' s2 (q0 :: next_row c s2 p q0)
  end.

(** [p[i] = p[i - 1] + 1]. *)
Definition first_row (s2 : list Z) : list Z := (fun i => u32 (Z.of_nat i)) <$> seq 0 (S (length s2)).

Definition string_distance (s1 s2 : list Z) : Z := i32 (default 0 (rows s1 s2 (first_row s2) !! length s2)).

(** As a printed guess: within half the name. *)
Definition string_distance_ok (opt : list Z) (distance : Z) : bool :=
  bool_decide (u64 distance <= (Z.of_nat (length opt) + 1) / 2).

(** One text becomes another by [n] changes, insertions and deletions of a character. *)
Inductive edits : list Z -> list Z -> nat -> Prop :=
  | edits_nil : edits [] [] 0
  | edits_keep c s t n : edits s t n -> edits (c :: s) (c :: t) n
  | edits_change c d s t n : edits s t n -> edits (c :: s) (d :: t) (S n)
  | edits_insert d s t n : edits s t n -> edits s (d :: t) (S n)
  | edits_delete c s t n : edits s t n -> edits (c :: s) t (S n).

Lemma edits_app s t n s' t' m : edits s t n -> edits s' t' m -> edits (s ++ s') (t ++ t') (n + m).
Proof. induction 1; intros H'; cbn [app Nat.add]; [done|constructor; auto..]. Qed.

Lemma edits_rev s t n : edits s t n -> edits (rev s) (rev t) n.
Proof.
  induction 1 as [|c s t n _ IH|c d s t n _ IH|d s t n _ IH|c s t n _ IH]; cbn [rev]; [constructor|..].
  - replace n with (n + 0)%nat by lia. apply edits_app; [done|repeat constructor].
  - replace (S n) with (n + 1)%nat by lia. apply edits_app; [done|repeat constructor].
  - replace (S n) with (n + 1)%nat by lia. rewrite <- (app_nil_r (rev s)). apply edits_app; [done|repeat constructor].
  - replace (S n) with (n + 1)%nat by lia. rewrite <- (app_nil_r (rev t)). apply edits_app; [done|repeat constructor].
Qed.

(** The least number of edits, from the last characters on. *)
Fixpoint lev (s : list Z) : list Z -> nat :=
  fix go t :=
    match s, t with
    | [], _ => length t
    | _, [] => length s
    | c :: s', d :: t' =>
        Nat.min (S (lev s' t)) (Nat.min (S (go t')) (if decide (c = d) then lev s' t' else S (lev s' t')))
    end.

Lemma lev_nil_l t : lev [] t = length t.
Proof. by destruct t. Qed.
Lemma lev_nil_r s : lev s [] = length s.
Proof. by destruct s. Qed.
Lemma lev_cons c s d t :
  lev (c :: s) (d :: t) = Nat.min (S (lev s (d :: t))) (Nat.min (S (lev (c :: s) t)) (if decide (c = d) then lev s t
    else S (lev s t))).
Proof. by destruct s, t. Qed.

Lemma lev_edits s t : edits s t (lev s t).
Proof.
  revert t. induction s as [|c s IHs]; intros t.
  - rewrite lev_nil_l. induction t; cbn [length]; by constructor.
  - induction t as [|d t IHt].
    + rewrite lev_nil_r. specialize (IHs []). rewrite lev_nil_r in IHs. cbn [length]. by constructor.
    + rewrite lev_cons. destruct (Nat.min_dec (S (lev s (d :: t))) (Nat.min (S (lev (c :: s) t)) (if decide (c = d)
        then lev s t else S (lev s t)))) as [-> | ->]; [by constructor|].
      destruct (Nat.min_dec (S (lev (c :: s) t)) (if decide (c = d) then lev s t else S (lev s t))) as [-> | ->];
        [by constructor|].
      case_decide; [subst d|]; by constructor.
Qed.

Lemma lev_least s t n : edits s t n -> (lev s t <= n)%nat.
Proof.
  induction 1 as [|c s t n _ IH|c d s t n _ IH|d s t n _ IH|c s t n _ IH]; [done|..].
  - rewrite lev_cons, decide_True by done. lia.
  - rewrite lev_cons. case_decide; lia.
  - destruct s as [|a s]; [rewrite lev_nil_l in *; cbn [length]; lia|]. rewrite lev_cons. lia.
  - destruct t as [|b t]; [rewrite lev_nil_r in *; cbn [length]; lia|]. rewrite lev_cons. lia.
Qed.

Lemma lev_le s t : (lev s t <= length s + length t)%nat.
Proof.
  revert t. induction s as [|c s IHs]; intros t; [rewrite lev_nil_l; cbn; lia|].
  destruct t as [|d t]; [rewrite lev_nil_r; lia|]. rewrite lev_cons. specialize (IHs (d :: t)). cbn [length] in *.
  lia.
Qed.

(** The rest of a row from place [length u] on, for the reversed prefixes [r] and [u]. *)
Fixpoint row_of (r u s2 : list Z) : list Z :=
  Z.of_nat (lev r u) :: match s2 with [] => [] | d :: s2' => row_of r (d :: u) s2' end.

Lemma u32_succ r u n : (length r + length u < n)%nat -> Z.of_nat n < 2 ^ 32 ->
  u32 (Z.of_nat (lev r u) + 1) = Z.of_nat (S (lev r u)).
Proof. intros Hl Hn. pose proof (lev_le r u). rewrite wrapu_small; lia. Qed.

Lemma next_row_of c r s2 : forall u, Z.of_nat (length r + length u + length s2 + 2) < 2 ^ 32 ->
  Z.of_nat (lev (c :: r) u) :: next_row c s2 (row_of r u s2) (Z.of_nat (lev (c :: r) u)) = row_of (c :: r) u s2.
Proof.
  induction s2 as [|d s2 IH]; intros u Hb; [done|]. cbn [row_of]. f_equal. rewrite <- IH by (cbn [length] in *; lia).
  assert (Hrow : exists x, row_of r (d :: u) s2 = Z.of_nat (lev r (d :: u)) :: x) by (destruct s2; eauto).
  destruct Hrow as [x Hx].
  cbn [next_row]. rewrite Hx. cbn [length] in Hb.
  rewrite !(u32_succ _ _ (length r + length u + 2)) by (cbn [length]; lia).
  assert (E : Z.min (Z.of_nat (S (lev r (d :: u)))) (Z.min (Z.of_nat (S (lev (c :: r) u))) (if decide (c = d) then
    Z.of_nat (lev r u) else Z.of_nat (S (lev r u)))) =
    Z.of_nat (lev (c :: r) (d :: u))) by (rewrite lev_cons; case_decide; lia).
  by rewrite E.
Qed.

Lemma rows_of s1 s2 : forall r, Z.of_nat (length r + length s1 + length s2 + 2) < 2 ^ 32 ->
  rows s1 s2 (row_of r [] s2) = row_of (rev s1 ++ r) [] s2.
Proof.
  induction s1 as [|c s1 IH]; intros r Hb; [done|]. cbn [rows rev]. rewrite <- app_assoc. cbn [app].
  rewrite <- IH by (cbn [length] in *; lia).
  f_equal. rewrite <- next_row_of by (cbn [length] in *; lia).
  assert (E : u32 (default 0 (head (row_of r [] s2)) + 1) = Z.of_nat (lev (c :: r) [])).
  { rewrite lev_nil_r. replace (head _) with (Some (Z.of_nat (lev r []))) by (by destruct s2). cbn [default
      from_option].
    rewrite lev_nil_r. cbn [length] in *. unfold id. rewrite wrapu_small; lia. }
  by rewrite E.
Qed.

Lemma row_last r s2 : forall u, row_of r u s2 !! length s2 = Some (Z.of_nat (lev r (rev s2 ++ u))).
Proof.
  induction s2 as [|d s2 IH]; intros u; [done|]. cbn [row_of length rev]. rewrite <- app_assoc.
  cbn [app lookup list_lookup]. apply IH.
Qed.

Lemma first_row_of s2 : forall u, Z.of_nat (length u + length s2) < 2 ^ 32 ->
  (fun i => u32 (Z.of_nat i)) <$> seq (length u) (S (length s2)) = row_of [] u s2.
Proof.
  induction s2 as [|d s2 IH]; intros u Hb; cbn [length] in Hb.
  - cbn. rewrite wrapu_small by lia. by rewrite lev_nil_l.
  - cbn [length]. cbn [seq fmap list_fmap row_of]. rewrite lev_nil_l. rewrite wrapu_small by lia. f_equal.
    specialize (IH (d :: u)). cbn [length] in IH. apply IH. lia.
Qed.

Lemma string_distance_lev s1 s2 : Z.of_nat (length s1 + length s2 + 2) < 2 ^ 31 ->
  string_distance s1 s2 = Z.of_nat (lev (rev s1) (rev s2)).
Proof.
  intros Hb. unfold string_distance. replace (first_row s2) with (row_of [] [] s2) by (symmetry;
    apply (first_row_of s2 []); cbn [length]; lia). rewrite rows_of by (cbn [length]; lia).
  rewrite row_last, !app_nil_r. cbn [default from_option]. unfold id. pose proof (lev_le (rev s1) (rev s2)) as Hl.
  rewrite !length_rev in Hl.
  unfold wraps. change (32 - 1) with 31. rewrite Z.mod_small; lia.
Qed.

(** C25: the distance of two names that the row-by-row computation finds is their edit distance: so many changes,
    insertions and deletions of a character make one of the other, and no fewer do. *)
Theorem string_distance_least s1 s2 : Z.of_nat (length s1 + length s2 + 2) < 2 ^ 31 ->
  exists d, string_distance s1 s2 = Z.of_nat d /\ edits s1 s2 d /\ forall n, edits s1 s2 n -> (d <= n)%nat.
Proof.
  intros Hb. exists (lev (rev s1) (rev s2)). split; [by apply string_distance_lev|]. split.
  - pose proof (edits_rev _ _ _ (lev_edits (rev s1) (rev s2))) as H. by rewrite !rev_involutive in H.
  - intros n H. apply lev_least. by apply edits_rev.
Qed.

Lemma string_distance_least_witness : exists d, string_distance (chars "blcksizee") (chars "blocksize") = Z.of_nat d
  /\ edits (chars "blcksizee") (chars "blocksize") d /\
  forall n, edits (chars "blcksizee") (chars "blocksize") n -> (d <= n)%nat.
Proof. apply (string_distance_least (chars "blcksizee") (chars "blocksize")). vm_compute. reflexivity. Defined.
