(* ===== verification/Num2Str.v ===== *)
(** * Numbers with units (src/fio/lib/num2str.c)

    The reports print a quantity with a limited number of digits and a unit prefix: it is divided by 1000 or 1024 until
    it is short enough, and the room that is left is filled with decimals of the last remainder, a [double] as in
    [Flow]. *)

From S2P Require Import Prelude Stream Pattern PatternParse PatternGrammar Flow.

Open Scope Z_scope.

(** ** Decimal digits *)

(** The last [d] digits. *)
Fixpoint pad_dec (d : nat) (n : Z) : list Z :=
  match d with
  | O => []
  | S d' => pad_dec d' (n / 10) ++ [48 + n mod 10]
  end.

Fixpoint udec (fuel : nat) (n : Z) (acc : list Z) : list Z :=
  match fuel with
  | O => acc
  | S fuel' => let acc := 48 + n mod 10 :: acc in if decide (n < 10) then acc else udec fuel' (n / 10) acc
  end.

(** ["%llu"]: 64 bits have at most 20 digits. *)
Definition print_ull (n : Z) : list Z := udec 20 n [].

(** ["%.*f"] of [(double) m / (double) thousand], a quotient below one: in units of the last of its [d] decimals. *)
Definition decimals (d : nat) (m thousand : Z) : Z :=
  let '(q, k) := ddiv m thousand in rne (q * 10 ^ Z.of_nat d) (2 ^ (k - 64)).

(** ** num2str *)

Inductive n2s_unit := N2S_NONE | N2S_PERSEC | N2S_BYTE | N2S_BIT | N2S_BYTEPERSEC | N2S_BITPERSEC.

Definition unitstr (u : n2s_unit) : list Z :=
  match u with
  | N2S_NONE => []
  | N2S_PERSEC => chars "/s"
  | N2S_BYTE => chars "B"
  | N2S_BIT => chars "bit"
  | N2S_BYTEPERSEC => chars "B/s"
  | N2S_BITPERSEC => chars "bit/s"
  end.

Definition sistr : list (list Z) := chars <$> [""; "k"; "M"; "G"; "T"; "P"; "E"]%string.
Definition iecstr : list (list Z) := chars <$> [""; "Ki"; "Mi"; "Gi"; "Ti"; "Pi"; "Ei"]%string.

(** [for (post_index = 0; base > 1; post_index++) base /= thousand]: a positive [int] has fewer than 32 bits. *)
Fixpoint base_index (fuel : nat) (base thousand post_index : Z) : Z :=
  match fuel with
  | O => post_index
  | S fuel' => if decide (base > 1) then base_index fuel' (base / thousand) thousand (post_index + 1) else post_index
  end.

(** The division loop: the place in the table of prefixes, the quotient, and the last remainder if there is one. *)
Fixpoint divide (fuel : nat) (maxlen thousand post_index num : Z) (modulo : option Z) : Z * Z * option Z :=
  match fuel with
  | O => (post_index, num, modulo)
  | S fuel' =>
      if decide (post_index >= 7) then (post_index, num, modulo)
      else if decide (Z.of_nat (length (print_ull num)) <= u64 maxlen) then (post_index, num, modulo)
      else divide fuel' maxlen thousand (post_index + 1) (num / thousand) (Some (num mod thousand))
  end.

(** [None] is a failed assertion. *)
Definition num2str (num maxlen base : Z) (pow2 : bool) (units : n2s_unit) : option (list Z) :=
  let unitprefix := if pow2 then iecstr else sistr in
  let thousand := if pow2 then 1024 else 1000 in
  let post_index := base_index 32 base thousand 0 in
  let num := match units with N2S_BIT | N2S_BITPERSEC => u64 (num * 8) | _ => num end in
  let '(post_index, num, modulo) := divide 7 maxlen thousand post_index num None in
  let post_index := if decide (post_index >= 7) then 0 else post_index in
  let tail := default [] (unitprefix !! Z.to_nat post_index) ++ unitstr units in
  match modulo with
  | None => Some (print_ull num ++ tail)
  | Some modulo =>
      let carry := bool_decide (modulo >= thousand / 2) in
      let len := Z.of_nat (length (print_ull num)) in
      if decide (i32 (u64 (maxlen - len)) <= 1) then Some (print_ull (if carry then u64 (num + 1) else num) ++ tail)
      else if decide (u64 (u64 (maxlen - len) - 1) > 0 /\ modulo < thousand) then
        let d := Z.to_nat (i32 (u64 (u64 (maxlen - len) - 1))) in
        let tmp := decimals d modulo thousand in
        let num := if decide (tmp / 10 ^ Z.of_nat d = 1) then u64 (num + 1) else num in
        Some (print_ull num ++ [46] ++ pad_dec d tmp ++ tail)
      else None
  end.

(** The cases of the unit test. *)
Lemma num2str_tests :
  num2str 1 1 1 false N2S_NONE = Some (chars "1") /\
  num2str (2 ^ 64 - 1) 99 1 false N2S_NONE = Some (chars "18446744073709551615") /\
  num2str 18446744073709551 2 1 false N2S_NONE = Some (chars "18P") /\
  num2str 18446744073709551 4 1 false N2S_NONE = Some (chars "18.4P") /\
  num2str (2 ^ 64 - 1) 2 1 false N2S_NONE = Some (chars "18E") /\
  num2str (2 ^ 64 - 1) 4 1 false N2S_NONE = Some (chars "18.4E").
Proof. split_and!; vm_compute; reflexivity. Qed.

(** ** Digits and their values *)

Lemma digits_val_snoc base ds c : digits_val base (ds ++ [c]) = base * digits_val base ds + digit_val c.
Proof. unfold digits_val. by rewrite fold_left_app. Qed.

Lemma last_digit n : isdigit (48 + n mod 10) = true /\ digit_val (48 + n mod 10) = n mod 10.
Proof.
  pose proof (Z.mod_pos_bound n 10 ltac:(lia)). assert (E : isdigit (48 + n mod 10) = true).
  { unfold isdigit. apply andb_true_iff. rewrite !Z.leb_le. lia. }
  split; [done|]. unfold digit_val. rewrite E. lia.
Qed.

Lemma pad_dec_length d n : length (pad_dec d n) = d.
Proof. revert n. induction d as [|d IH]; intros n; [done|]. cbn [pad_dec]. rewrite length_app, IH. cbn. lia. Qed.

Lemma pad_dec_digits d n : Forall (fun c => isdigit c = true) (pad_dec d n).
Proof.
  revert n. induction d as [|d IH]; intros n; [constructor|]. cbn [pad_dec]. apply Forall_app. split; [apply IH|].
  constructor; [apply last_digit|constructor].
Qed.

Lemma pad_dec_val d n : digits_val 10 (pad_dec d n) = n mod 10 ^ Z.of_nat d.
Proof.
  revert n. induction d as [|d IH]; intros n; [by rewrite Z.mod_1_r|]. cbn [pad_dec]. rewrite digits_val_snoc, IH.
  rewrite (proj2 (last_digit n)). rewrite Nat2Z.inj_succ, Z.pow_succ_r by lia.
  rewrite (Z.rem_mul_r n 10) by (try apply Z.pow_nonzero; lia). lia.
Qed.

Lemma udec_pad fuel : forall n acc, 0 <= n < 10 ^ Z.of_nat fuel -> (1 <= fuel)%nat -> exists d, (1 <= d <= fuel)%nat /\
  udec fuel n acc = pad_dec d n ++ acc /\ n < 10 ^ Z.of_nat d /\ (d = 1%nat \/ 10 ^ (Z.of_nat d - 1) <= n).
Proof.
  induction fuel as [|fuel IH]; intros n acc Hn Hf; [lia|]. cbn [udec]. case_decide as Hs.
  - exists 1%nat. split; [lia|]. split; [done|]. split; [lia|by left].
  - rewrite Nat2Z.inj_succ, Z.pow_succ_r in Hn by lia. assert (1 <= fuel)%nat by (destruct fuel; [cbn in Hn; lia|lia]).
    pose proof (Z.div_mod n 10 ltac:(lia)). pose proof (Z.mod_pos_bound n 10 ltac:(lia)).
    destruct (IH (n / 10) (48 + n mod 10 :: acc)) as (d & Hd & -> & Hlt & Hge); [lia|done|].
    exists (S d). split; [lia|]. cbn [pad_dec]. rewrite <- app_assoc. split; [done|].
    rewrite Nat2Z.inj_succ, Z.pow_succ_r by lia. split; [lia|]. right.
    replace (Z.succ (Z.of_nat d) - 1) with (Z.succ (Z.of_nat d - 1)) by lia. rewrite Z.pow_succ_r by lia.
    destruct Hge as [-> | Hge]; [cbn; lia|lia].
Qed.

Lemma print_ull_pad n : 0 <= n < 2 ^ 64 -> exists d, (1 <= d <= 20)%nat /\ print_ull n = pad_dec d n /\
  n < 10 ^ Z.of_nat d /\
  (d = 1%nat \/ 10 ^ (Z.of_nat d - 1) <= n).
Proof.
  intros Hn. destruct (udec_pad 20 n []) as (d & H1 & H2 & H3); [|lia|].
  - split; [lia|]. eapply Z.lt_trans; [apply Hn|]. reflexivity.
  - exists d. unfold print_ull. rewrite H2, app_nil_r. done.
Qed.

(** A number is as long as the powers of ten say. *)
Lemma print_ull_short n l : 0 <= n < 2 ^ 64 -> 1 <= l -> Z.of_nat (length (print_ull n)) <= l <-> n < 10 ^ l.
Proof.
  intros Hn Hl. destruct (print_ull_pad n Hn) as (d & Hd & -> & Hlt & Hge). rewrite pad_dec_length. split; intros H.
  - eapply Z.lt_le_trans; [exact Hlt|]. apply Z.pow_le_mono_r; lia.
  - destruct Hge as [-> | Hge]; [lia|]. destruct (decide (Z.of_nat d <= l)); [done|]. exfalso.
    pose proof (Z.pow_le_mono_r 10 l (Z.of_nat d - 1) ltac:(lia) ltac:(lia)). lia.
Qed.

Lemma print_ull_bounds n : 0 <= n < 2 ^ 64 -> 1 <= Z.of_nat (length (print_ull n)) <= 20.
Proof. intros Hn. destruct (print_ull_pad n Hn) as (d & Hd & -> & _). rewrite pad_dec_length. lia. Qed.

Lemma print_ull_succ n : 0 <= n -> n + 1 < 2 ^ 64 ->
  Z.of_nat (length (print_ull (n + 1))) <= Z.of_nat (length (print_ull n)) + 1.
Proof.
  intros H0 Hn. pose proof (print_ull_bounds n ltac:(lia)). set (l := Z.of_nat (length (print_ull n))) in *.
  apply print_ull_short; [lia|lia|]. assert (n < 10 ^ l) by (apply print_ull_short; lia).
  rewrite Z.pow_add_r by lia. lia.
Qed.

(** ** The decimals

    With little room, rounding the double is rounding the quotient: what the division to 53 bits changes is less than
    the quotient's distance to a half that it does not hit. *)
Lemma decimals_close d m thousand : 0 <= m < thousand -> thousand * 10 ^ Z.of_nat d < 2 ^ 52 ->
  0 <= decimals d m thousand <= 10 ^ Z.of_nat d /\
  2 * Z.abs (decimals d m thousand * thousand - m * 10 ^ Z.of_nat d) <= thousand.
Proof.
  intros Hm Hd. set (D := 10 ^ Z.of_nat d) in *. assert (HD : 0 < D) by (apply Z.pow_pos_nonneg; lia).
  destruct (decide (m = 0)) as [-> | Hm0].
  { assert (decimals d 0 thousand = 0) as ->; [|lia]. reflexivity. }
  destruct (ddiv_spec m thousand) as (k & E & Hk0 & Hk); [split; nia|split; nia|].
  assert (Hk' : 117 <= k).
  { destruct (decide (117 <= k)); [done|]. pose proof (Z.pow_le_mono_r 2 k 116 ltac:(lia) ltac:(lia)). nia. }
  unfold decimals. rewrite E. fold D. set (q := rne (m * 2 ^ k) (thousand * 2 ^ 64)). set (K := 2 ^ (k - 64)).
  assert (HK : 2 ^ 52 <= K) by (apply Z.pow_le_mono_r; lia).
  assert (EK : 2 ^ k = K * 2 ^ 64) by (unfold K; rewrite <- Z.pow_add_r by lia; f_equal; lia).
  assert (Hq : - thousand <= 2 * (m * K) - 2 * (thousand * q) <= thousand).
  { pose proof (rne_bounds (m * 2 ^ k) (thousand * 2 ^ 64) ltac:(lia)) as B. fold q in B. rewrite EK in B. lia. }
  set (N := rne (q * D) K). assert (HN : - K <= 2 * (q * D) - 2 * (K * N) <= K) by (apply rne_bounds; lia).
  assert (HX : 2 * Z.abs (N * thousand - m * D) <= thousand).
  { set (X := N * thousand - m * D). assert (B : Z.abs (2 * (X * K)) <= thousand * K + thousand * D).
    { replace (2 * (X * K)) with (D * (2 * (thousand * q) - 2 * (m * K)) - thousand * (2 * (q * D) - 2 * (K * N))) by
        (unfold X; ring).
      assert (Z.abs (D * (2 * (thousand * q) - 2 * (m * K))) <= D * thousand) by (rewrite Z.abs_mul; nia).
      assert (Z.abs (thousand * (2 * (q * D) - 2 * (K * N))) <= thousand * K) by (rewrite Z.abs_mul; nia). lia. }
    rewrite !Z.abs_mul, (Z.abs_eq K), (Z.abs_eq 2) in B by lia. nia. }
  split; [|done]. nia.
Qed.

(** ** The division loop *)

Lemma divide_spec maxlen thousand : 1 <= maxlen < 2 ^ 31 -> 1 < thousand -> forall fuel p0 num mo,
  0 <= num < 2 ^ 64 -> 0 <= p0 <= 6 -> 7 - p0 <= Z.of_nat fuel -> num < 10 ^ maxlen * thousand ^ (6 - p0) ->
  exists k, 0 <= k <= 6 - p0 /\
    divide fuel maxlen thousand p0 num mo =
      (p0 + k, num / thousand ^ k, if decide (k = 0) then mo else Some (num / thousand ^ (k - 1) mod thousand)) /\
    num / thousand ^ k < 10 ^ maxlen /\ (k <> 0 -> 10 ^ maxlen <= num / thousand ^ (k - 1)).
Proof.
  intros Hm HT. induction fuel as [|fuel IH]; intros p0 num mo Hn Hp Hf Hfit; [lia|]. cbn [divide].
  rewrite decide_False by lia. rewrite (wrapu_small 64) by lia.
  destruct (decide (Z.of_nat (length (print_ull num)) <= maxlen)) as [Hs|Hs].
  - exists 0. rewrite Z.pow_0_r, Z.div_1_r, Z.add_0_r. rewrite (print_ull_short num maxlen) in Hs by lia.
    split; [lia|]. by rewrite decide_True.
  - rewrite (print_ull_short num maxlen) in Hs by lia.
    assert (p0 < 6). { destruct (decide (p0 = 6)) as [-> | ?]; [|lia]. rewrite Z.sub_diag, Z.mul_1_r in Hfit. lia. }
    pose proof (div_bounds num thousand ltac:(lia)) as Hdb. assert (0 <= num / thousand) by (apply Z.div_pos; lia).
    assert (Hdl : num / thousand <= num) by (apply Z.div_le_upper_bound; nia).
    destruct (IH (p0 + 1) (num / thousand) (Some (num mod thousand))) as (k & Hk & E & Hq & Hpre); [lia|lia|lia| |].
    { replace (6 - p0) with (Z.succ (6 - (p0 + 1))) in Hfit by lia. rewrite Z.pow_succ_r in Hfit by lia.
      apply Z.div_lt_upper_bound; lia. }
    assert (Hdd : forall j, 0 <= j -> num / thousand / thousand ^ j = num / thousand ^ (j + 1)).
    { intros j Hj. rewrite Z.div_div by (try apply Z.pow_pos_nonneg; lia). f_equal. rewrite Z.pow_add_r by lia. lia. }
    rewrite Hdd in E, Hq by lia. exists (k + 1). split; [lia|]. rewrite E. rewrite (decide_False (P := k + 1 = 0)) by lia.
    replace (k + 1 - 1) with k by lia. split; [|split; [done|]].
    + f_equal; [f_equal; lia|]. case_decide as E0; [subst k; by rewrite Z.pow_0_r, Z.div_1_r|].
      rewrite Hdd by lia. by replace (k - 1 + 1) with k by lia.
    + intros _. destruct (decide (k = 0)) as [-> | Hk0]; [rewrite Z.pow_0_r, Z.div_1_r; lia|].
      specialize (Hpre Hk0). rewrite Hdd in Hpre by lia. by replace (k - 1 + 1) with k in Hpre by lia.
Qed.

Lemma base_index_pow (pow2 : bool) p : let thousand := if pow2 then 1024 else 1000 in 0 <= p <= 3 ->
  base_index 32 (thousand ^ p) thousand 0 = p.
Proof.
  intros T Hp. assert (p = 0 \/ p = 1 \/ p = 2 \/ p = 3) as [-> | [-> | [-> | ->]]] by lia; unfold T; destruct pow2;
    vm_compute; reflexivity.
Qed.

(** At most two decimals find room: the quotient is at most three digits shorter than the limit. *)
Lemma room_small (pow2 : bool) maxlen prev : let thousand := if pow2 then 1024 else 1000 in 1 <= maxlen ->
  0 <= prev < 2 ^ 64 -> 10 ^ maxlen <= prev ->
  maxlen - Z.of_nat (length (print_ull (prev / thousand))) - 1 <= 2.
Proof.
  intros T Hm Hp Hge. assert (HT : 1000 <= T <= 1024) by (unfold T; destruct pow2; lia).
  pose proof (div_bounds prev T ltac:(lia)) as Hdb. assert (0 <= prev / T) by (apply Z.div_pos; lia).
  assert (Hdl : prev / T <= prev) by (apply Z.div_le_upper_bound; nia).
  pose proof (print_ull_bounds (prev / T) ltac:(lia)). set (l := Z.of_nat (length (print_ull (prev / T)))) in *.
  destruct (decide (l >= maxlen - 3)); [lia|]. exfalso.
  assert (Hlt : prev / T < 10 ^ (maxlen - 4)) by (apply print_ull_short; lia).
  assert (10 ^ maxlen = 10000 * 10 ^ (maxlen - 4)).
  { replace maxlen with (4 + (maxlen - 4)) at 1 by lia. by rewrite Z.pow_add_r by lia. }
  nia.
Qed.

(** ** What is printed *)

(** Bits are eight to the byte. *)
Definition in_units (units : n2s_unit) (num : Z) : Z := match units with N2S_BIT | N2S_BITPERSEC => num * 8 | _ => num end.

(** [i.fs] with [d] decimals is [n / thousand ^ k] rounded: at most half a unit of the last place above, and below by at
    most that and by less than the part of a thousandth (or 1/1024) that the last remainder does not hold. *)
Definition rounds (thousand n k i : Z) (fs : list Z) : Prop :=
  let unit := 10 ^ Z.of_nat (length fs) in
  let error := (i * unit + digits_val 10 fs) * thousand ^ k - n * unit in
  2 * error <= thousand ^ k /\ - thousand ^ k - 2 * unit * thousand ^ (k - 1) < 2 * error.

Lemma rounds_step thousand n k i fs N : let unit := 10 ^ Z.of_nat (length fs) in
  1 <= k -> 1 < thousand -> 0 <= n -> i * unit + digits_val 10 fs = n / thousand ^ k * unit + N ->
  2 * Z.abs (N * thousand - n / thousand ^ (k - 1) mod thousand * unit) <= thousand -> rounds thousand n k i fs.
Proof.
  intros U Hk HT Hn Hv HN. unfold rounds. fold U. rewrite Hv. assert (HU : 0 < U) by (apply Z.pow_pos_nonneg; lia).
  set (P := thousand ^ (k - 1)). assert (HP : 0 < P) by (apply Z.pow_pos_nonneg; lia).
  assert (EP : thousand ^ k = thousand * P). { unfold P. rewrite <- Z.pow_succ_r by lia. f_equal. lia. }
  rewrite EP in *. replace (n / (thousand * P)) with (n / P / thousand) by (rewrite Z.div_div by lia; f_equal; lia).
  fold P in HN. pose proof (div_bounds n P HP) as B. pose proof (Z.div_mod (n / P) thousand ltac:(lia)) as Em.
  set (p := n / P) in *. set (m := p mod thousand) in *. set (q := p / thousand) in *. set (r := n - P * p).
  assert (Hr : 0 <= r < P) by (unfold r; lia).
  assert (E : (q * U + N) * (thousand * P) - n * U = P * (N * thousand - m * U) - r * U).
  { unfold r. rewrite Em. ring. }
  rewrite E. set (X := N * thousand - m * U) in *. assert (HA : Z.abs (P * X) = P * Z.abs X) by (rewrite Z.abs_mul; lia).
  assert (H1 : P * (2 * Z.abs X) <= P * thousand) by (apply Z.mul_le_mono_nonneg_l; lia).
  assert (H2 : 0 <= r * U < P * U) by (split; [apply Z.mul_nonneg_nonneg; lia|apply Z.mul_lt_mono_pos_r; lia]). 
  replace (thousand * P) with (P * thousand) by ring. replace (2 * U * P) with (2 * (P * U)) by ring.
  replace (P * (2 * Z.abs X)) with (2 * (P * Z.abs X)) in H1 by ring. clear -H1 H2 HA.
  apply Z.eq_le_incl, Z.abs_le in HA. revert H1 H2 HA.
  generalize (P * Z.abs X) (P * X) (P * thousand) (r * U) (P * U). intros; lia.
Qed.

Lemma div_below a b : 0 <= a -> 0 < b -> 0 <= a / b <= a.
Proof. intros Ha Hb. split; [by apply Z.div_pos|]. apply Z.div_le_upper_bound; nia. Qed.

(** The carry of the last remainder, and of the decimals. *)
Lemma carry_close (pow2 : bool) m : let thousand := if pow2 then 1024 else 1000 in 0 <= m < thousand ->
  2 * Z.abs ((if bool_decide (m >= thousand / 2) then 1 else 0) * thousand - m) <= thousand.
Proof. intros T Hm. unfold T in *. destruct pow2; [change (1024 / 2) with 512|change (1000 / 2) with 500];
  case_bool_decide; lia. Qed.

Lemma decimal_carry N U : 0 < U -> 0 <= N <= U -> (if decide (N / U = 1) then 1 else 0) * U + N mod U = N.
Proof.
  intros HU HN. pose proof (Z.div_mod N U ltac:(lia)). pose proof (Z.mod_pos_bound N U HU).
  destruct (decide (N = U)) as [-> | Hne].
  - rewrite Z.div_same, Z.mod_same by lia. rewrite decide_True by done. lia.
  - rewrite Z.div_small, Z.mod_small by lia. rewrite decide_False by lia. lia.
Qed.

Lemma carry_rounds (pow2 : bool) n k : let thousand := if pow2 then 1024 else 1000 in 1 <= k -> 0 <= n ->
  rounds thousand n k (n / thousand ^ k + if bool_decide (n / thousand ^ (k - 1) mod thousand >= thousand / 2) then 1
    else 0) [].
Proof.
  intros T Hk Hn. assert (HT : 1000 <= T) by (unfold T; destruct pow2; lia). set (m := n / T ^ (k - 1) mod T).
  apply (rounds_step T n k _ _ (if bool_decide (m >= T / 2) then 1 else 0)); [lia|lia|lia|cbn; lia|].
  fold m. cbn. rewrite Z.mul_1_r. apply carry_close. by apply Z.mod_pos_bound; unfold T; destruct pow2.
Qed.

Lemma decimals_rounds thousand n k d : 1 <= k -> 1 < thousand -> 0 <= n -> thousand * 10 ^ Z.of_nat d < 2 ^ 52 ->
  let N := decimals d (n / thousand ^ (k - 1) mod thousand) thousand in
  rounds thousand n k (n / thousand ^ k + if decide (N / 10 ^ Z.of_nat d = 1) then 1 else 0) (pad_dec d N).
Proof.
  intros Hk HT Hn Hd N. set (U := 10 ^ Z.of_nat d). assert (HU : 0 < U) by (apply Z.pow_pos_nonneg; lia).
  destruct (decimals_close d (n / thousand ^ (k - 1) mod thousand) thousand) as [HN0 HN]; [apply Z.mod_pos_bound;
    lia|done|].
  apply (rounds_step thousand n k _ _ N); rewrite ?pad_dec_length; [lia|lia|lia| |done].
  fold U. rewrite pad_dec_val. fold U. pose proof (decimal_carry N U HU HN0). lia.
Qed.

(** What the loop leaves when it has divided: a quotient whose successor is a word, with little room behind it. *)
Lemma quotient_room (pow2 : bool) maxlen n k : let thousand := if pow2 then 1024 else 1000 in
  0 <= n < 2 ^ 64 -> 1 <= maxlen -> 1 <= k ->
  n / thousand ^ k < 10 ^ maxlen -> 10 ^ maxlen <= n / thousand ^ (k - 1) ->
  let q := n / thousand ^ k in let len := Z.of_nat (length (print_ull q)) in
  10 ^ maxlen <= n /\ 0 <= q < 2 ^ 64 - 1 /\ 1 <= len <= maxlen /\ maxlen - len <= 3 /\
  Z.of_nat (length (print_ull (q + 1))) <= len + 1.
Proof.
  intros T Hn Hm Hk Hq Hprev q len. assert (HT : 1000 <= T <= 1024) by (unfold T; destruct pow2; lia).
  fold q in Hq. set (prev := n / T ^ (k - 1)) in *. assert (Hqp : q = prev / T).
  { unfold q, prev. rewrite Z.div_div by (try apply Z.pow_pos_nonneg; lia). f_equal.
    rewrite Z.mul_comm, <- Z.pow_succ_r by lia. f_equal. lia. }
  assert (Hp : 0 <= prev <= n) by (apply div_below; [lia|apply Z.pow_pos_nonneg; lia]).
  assert (Hq64 : 0 <= q < 2 ^ 64 - 1).
  { rewrite Hqp. pose proof (div_bounds prev T ltac:(lia)). split; [apply Z.div_pos; lia|nia]. }
  pose proof (print_ull_bounds q ltac:(lia)) as Hlen. pose proof (print_ull_succ q ltac:(lia) ltac:(lia)) as Hsucc.
  apply print_ull_short in Hq; [|lia|lia]. pose proof (room_small pow2 maxlen prev ltac:(lia) ltac:(lia) Hprev) as Hroom.
  cbv zeta in Hroom. fold T in Hroom. rewrite <- Hqp in Hroom. fold len in Hlen, Hsucc, Hq, Hroom. lia.
Qed.

(** C24: a printed quantity is the quantity: for any number of digits allowed (at least one) and any number, in multiples
    of a power of the base, that fits them with the largest prefix, num2str fails no assertion and prints a number, a
    prefix and the unit; a number that fits is printed exactly, and otherwise the number printed in the prefix's multiples
    is the quantity rounded to the places printed, of which there are at most one more than allowed. *)
Theorem num2str_value num maxlen p0 (pow2 : bool) units :
  let thousand := if pow2 then 1024 else 1000 in let n := in_units units num in
  0 <= num -> n < 2 ^ 64 -> 1 <= maxlen < 2 ^ 31 -> 0 <= p0 <= 3 -> n < 10 ^ maxlen * thousand ^ (6 - p0) ->
  exists k i fs, 0 <= k <= 6 - p0 /\
    num2str num maxlen (thousand ^ p0) pow2 units =
      Some (print_ull i ++ (if decide (fs = []) then [] else 46 :: fs) ++
            default [] ((if pow2 then iecstr else sistr) !! Z.to_nat (p0 + k)) ++ unitstr units) /\
    (n < 10 ^ maxlen -> k = 0) /\ (k = 0 -> i = n /\ fs = []) /\ 0 <= i < 2 ^ 64 /\
      Forall (fun c => isdigit c = true) fs /\ rounds thousand n k i fs /\
    Z.of_nat (length (print_ull i ++ (if decide (fs = []) then [] else 46 :: fs))) <= maxlen + 1.
Proof.
  intros T n Hnum Hn Hmax Hp Hfit. assert (HT : 1000 <= T <= 1024) by (unfold T; destruct pow2; lia).
  assert (Hn0 : 0 <= n) by (unfold n, in_units; destruct units; lia).
  destruct (divide_spec maxlen T Hmax ltac:(lia) 7 p0 n None ltac:(lia) ltac:(lia) ltac:(lia) Hfit) as (k & Hk & E &
    Hq & Hprev).
  unfold num2str. fold T. pose proof (base_index_pow pow2 p0 Hp) as Eb. cbv zeta in Eb. fold T in Eb. rewrite Eb.
  clear Eb.
  replace (match units with N2S_BIT | N2S_BITPERSEC => u64 (num * 8) | _ => num end) with n.
  2: { unfold n, in_units in *. destruct units; try done; by rewrite wrapu_small by lia. }
  rewrite E. rewrite (decide_False (P := p0 + k >= 7)) by lia. exists k. destruct (decide (k = 0)) as [-> | Hk0].
  - exists n, []. rewrite Z.pow_0_r, Z.div_1_r in *. split; [lia|]. split; [done|]. split; [done|]. split; [done|].
    split; [lia|]. split; [constructor|]. split; [unfold rounds; cbn; lia|]. rewrite decide_True, app_nil_r by done.
    apply print_ull_short in Hq; lia.
  - destruct (quotient_room pow2 maxlen n k) as (Hbig & Hq64 & Hlen & Hroom & Hsucc); [lia|lia|lia|done|by apply Hprev|].
    fold T in Hq64, Hlen, Hroom, Hsucc. set (q := n / T ^ k) in *. set (m := n / T ^ (k - 1) mod T).
    assert (Hm : 0 <= m < T) by (apply Z.mod_pos_bound; lia). set (len := Z.of_nat (length (print_ull q))) in *.
    rewrite (wrapu_small 64 (maxlen - len)) by lia. rewrite (i32_small (maxlen - len)) by (unfold i32_ok; lia).
    rewrite (wrapu_small 64 (q + 1)) by lia. destruct (decide (maxlen - len <= 1)) as [Hr|Hr].
    + exists (q + if bool_decide (m >= T / 2) then 1 else 0), [].
      replace (if bool_decide (m >= T / 2) then q + 1 else q) with (q + if bool_decide (m >= T / 2) then 1 else 0) by
        (case_bool_decide; lia).
      split; [lia|]. split; [done|]. split; [lia|]. split; [lia|]. split; [case_bool_decide; lia|]. split; [constructor|].
      split; [apply carry_rounds; lia|]. rewrite decide_True, app_nil_r by done. case_bool_decide; [lia|].
      rewrite Z.add_0_r. lia.
    + rewrite (wrapu_small 64 (maxlen - len - 1)) by lia. rewrite decide_True by lia.
      rewrite (i32_small (maxlen - len - 1)) by (unfold i32_ok; lia). set (d := Z.to_nat (maxlen - len - 1)).
      assert (Hd : Z.of_nat d = maxlen - len - 1) by (unfold d; lia). set (N := decimals d m T).
      set (U := 10 ^ Z.of_nat d).
      exists (q + if decide (N / U = 1) then 1 else 0), (pad_dec d N).
      rewrite (decide_False (P := pad_dec d N = [])) by (intros E0; apply (f_equal length) in E0;
        rewrite pad_dec_length in E0; cbn in E0; lia).
      replace (if decide (N / U = 1) then q + 1 else q) with (q + if decide (N / U = 1) then 1 else 0) by
        (case_decide; lia).
      split; [lia|]. split; [done|]. split; [lia|]. split; [lia|]. split; [case_decide; lia|].
      split; [apply pad_dec_digits|]. split.
      * apply decimals_rounds; [lia|lia|lia|]. pose proof (Z.pow_le_mono_r 10 (Z.of_nat d) 2 ltac:(lia) ltac:(lia)).
        pose proof (Z.mul_le_mono_nonneg T 1024 (10 ^ Z.of_nat d) (10 ^ 2) ltac:(lia) ltac:(lia) ltac:(lia)
          ltac:(lia)). lia.
      * rewrite length_app. cbn [length]. rewrite pad_dec_length. case_decide; [lia|]. rewrite Z.add_0_r. fold len. lia.
Qed.

Lemma num2str_value_witness : exists k i fs, 0 <= k <= 6 /\
  num2str 1000000000 5 1 true N2S_BYTEPERSEC = Some (print_ull i ++ (if decide (fs = []) then [] else 46 :: fs) ++
    default [] (iecstr !! Z.to_nat (0 + k)) ++ chars "B/s") /\
  rounds 1024 1000000000 k i fs.
Proof.
  destruct (num2str_value 1000000000 5 0 true N2S_BYTEPERSEC) as (k & i & fs & Hk & E & _ & _ & _ & _ & Hr & _);
    [lia|vm_compute; reflexivity|lia|lia|vm_compute; reflexivity|].
  exists k, i, fs. split; [lia|]. split; [exact E|exact Hr].
Defined.

(** A carry takes a place more than allowed. *)
Lemma carry_too_long : num2str 9970 3 1 false N2S_NONE = Some (chars "10.0k") /\
  num2str 999999 3 1 false N2S_NONE = Some (chars "1000k").
Proof. split; vm_compute; reflexivity. Qed.

(** Beyond the last prefix the number is lost. *)
Lemma prefix_lost : num2str (2 ^ 64 - 1) 1 1 false N2S_NONE = Some (chars "0").
Proof. vm_compute. reflexivity. Qed.
